(* ===== verification/_CoqProject ===== *)
-Q . S2P
Prelude.v
Features.v
ChanUtils.v
CommitmentSecrets.v
Keys.v
Order.v
Scripts.v
CommitmentTx.v
TxBuilder.v
AvailableBalances.v
DustExposure.v
SpliceOut.v
InteractiveTx.v
Negotiation.v
Agreement.v
SigningSession.v
ChannelState.v
Channel.v
Signer.v
ChannelOps.v
ChannelExample.v
ChannelRuns.v
ChannelSolvency.v
Ser.v
Onion.v
PqKem.v
Streams.v
BlindedPath.v
BlindedFees.v
PaymentPath.v
OnionPayload.v
PqSign.v
Gossip.v
GossipGraph.v
GossipStale.v
GossipRuns.v
GossipSigned.v
OnionRoute.v
OnionFailure.v
FailureReturn.v
OnionReceive.v
InboundPayment.v
Claimable.v
ClaimableRuns.v
ClaimableAccounts.v
InvoiceClaim.v
OnionDelivery.v
BlindedDelivery.v
OnionExample.v
RouteExample.v
DeliveryExample.v
ClaimableExample.v
GossipExample.v
