(* ===== verification/Prelude.v ===== *)
(** * A verification library for pq-rust-lightning

    The program is a Lightning node library.  Two peers hold a channel: an output
    of a funding transaction, and at every moment one commitment transaction each
    that pays both out of it.  The library verified here follows that life from
    the bits the peers announce to the transactions they sign.

    ** Parts

    - Prelude.v: machine integers, the [result] and [run] types for errors and
      panics, the state and error monad, tactics and shared lemmas.
    - Features.v: feature bits (lightning-types/src/features.rs and
      lightning/src/ln/features.rs).  The buffer refines a byte vector, every
      operation acts on the bits as specified, the unknown-bit check is exact.
    - ChanUtils.v, CommitmentSecrets.v, Keys.v, Scripts.v, CommitmentTx.v:
      lightning/src/ln/chan_utils.rs and channel_keys.rs.  Weights and fees; the
      store of revealed secrets; key derivation on both sides; scripts and the
      recognition of claims; building, indexing and verifying a commitment.
    - Order.v: comparison functions, sorting and binary search as the Rust
      standard library specifies them.
    - TxBuilder.v, AvailableBalances.v, DustExposure.v, SpliceOut.v:
      lightning/src/sign/tx_builder.rs.  When a commitment is possible, what may
      be sent next or spliced out, and that the built transaction has the
      balances announced.
    - InteractiveTx.v, Negotiation.v, Agreement.v, SigningSession.v:
      lightning/src/ln/interactivetxs.rs.  InteractiveTx.v is the model; the
      others prove that a negotiation is sound for one peer, that two peers agree
      and come to an end, and that signatures are exchanged safely.
    - ChannelState.v, Channel.v, ChannelOps.v: lightning/src/ln/channel.rs, the
      commitment protocol of an operational channel.  ChannelState.v has the states
      of HTLCs and channels, Channel.v the channel and the checks that only read it,
      ChannelOps.v the operations, in the monad [Chan] of a channel that may fail or
      panic.  ChannelRuns.v puts them together into runs ([Op], [run_ops]) with a
      calculus of what holds after each, [ends]; ChannelSolvency.v has the invariant
      on balances.  ChannelExample.v is a channel between two peers for the
      witnesses.
    - Signer.v: [InMemorySigner] of lightning/src/sign/mod.rs, the signer of a
      channel.

    - Ser.v: the integers and TLV streams of lightning/src/util/ser.rs and
      ser_macros.rs, as functions of a table of fields.
    - Onion.v: packets of lightning/src/ln/onion_utils.rs: keys, layers, peeling.
      PqKem.v adds the ML-KEM ciphertexts that travel next to a packet and the
      hybrid keys (also lightning/src/crypto/pq_kem.rs).  Streams.v is
      lightning/src/crypto/streams.rs.
    - BlindedPath.v, BlindedFees.v, PaymentPath.v: lightning/src/blinded_path/.
      BlindedPath.v has the data of the hops, its encoding and encryption,
      BlindedFees.v the fees and limits a path advertises, PaymentPath.v a path and
      the keys along it.
    - OnionPayload.v: the payloads of lightning/src/ln/msgs.rs, written by a sender
      and read by each kind of hop.  OnionExample.v instantiates the interfaces of
      these files.
    - OnionRoute.v: the onion a sender builds for a path (onion_utils.rs, router.rs).
      OnionFailure.v: failures and hold times on their way back, with the blocks of
      truncated HMACs that attribute them; FailureReturn.v: what the sender makes of
      them.  RouteExample.v is a payment over three hops.
    - OnionReceive.v: an incoming HTLC at a node (onion_utils.rs, onion_payment.rs and
      the forwarding of channelmanager.rs), from the message to the pending forward
      or receive, or the error, and to the message sent on.  OnionDelivery.v takes a
      payment from the sender through every node to the recipient; BlindedDelivery.v
      does so over the blinded paths of PaymentPath.v.  DeliveryExample.v has two
      such payments.
    - InboundPayment.v: the secrets of payments to receive (inbound_payment.rs).
      Claimable.v: the payments a node receives (channelmanager.rs), from the pending
      receive of OnionReceive.v through the parts of a payment to their claim, failure
      or timeout.  ClaimableRuns.v and ClaimableAccounts.v are about every sequence of
      these operations, InvoiceClaim.v about the parts of an invoice;
      ClaimableExample.v is a payment in two parts.
    - PqSign.v: ML-DSA signatures and the records that carry them (sign/pq.rs).
      Gossip.v: the network graph and its messages (routing/gossip.rs, msgs.rs);
      GossipGraph.v its consistency, GossipStale.v what leaves it, GossipRuns.v every
      sequence of calls on it ([GossipCall], [run_calls]) and the pinned keys,
      GossipSigned.v what a node signs and others accept (peer_handler.rs,
      channelmanager.rs, sign/mod.rs).  GossipExample.v has two nodes and a channel.

    ** Correspondence

    A Rust function is the definition of the same name; a method of a struct
    takes the struct first; [&mut self] is state passed and returned.  [Result] is
    [result], with the source's error constructors; a possible panic is [run].
    [debug_assert!] is not behaviour.  Unsigned integers are [Z] with the wrap of
    a release build written out by [wrapping], or by the [u64_scope] operators.
    A [HashMap] is a [gmap] whose iteration order is the class [HashOrder].

    Code outside the repository is a class of operations with, separately, a class
    of the documented facts the theorems use: [Bitcoin] and [BitcoinLaws] (hashes
    and curve operations), [EcdsaLib] and [EcdsaLaws] (signing), [Payloads] (onions
    and other data a channel only carries), [ScriptLib] and [ScriptLaws] (script encoding), [TxLib]
    and [TxLibLaws] (script tests, weights), [SigLib] (signature checks),
    [BinarySearch] (which of several equal elements a search returns), [OnionCrypto],
    [Kem] and [Poly1305] with their laws (ChaCha20, HMAC, Diffie-Hellman, ML-KEM),
    [PaymentContexts] and [InvoiceRequests] (data an onion only carries), [Sources]
    (where an HTLC came from), [BlockCipher] (ChaCha20 from a given block),
    [OfferContexts] (the contexts of BOLT 12 payments), [HashIter] (the order of a
    [HashMap] of payments), [MlDsa] and [MlDsaLaws] (ML-DSA), [SetIter] (the order of
    a [HashSet]).  Each class
    of laws has a concrete instance, used by the witnesses.

    ** What the theorems show

    - Features: refinement of the buffer, functional behaviour, equality and hash,
      round trip on the wire.
    - Secrets, keys, scripts: every accepted secret can be read back and an honest
      counterparty is never refused; both key derivations agree; script sizes are
      the constants used for fees; every claim is recognised.
    - Commitments: outputs sorted and HTLCs correctly indexed; a built commitment
      verifies; the obscured number is recovered on chain.
    - Balances: the statistics succeed exactly when a commitment is possible; the
      announced limits for HTLCs, dust and splices are sound, the last exactly.
    - Negotiation and signing: protocol order, validity of the result, payment of
      fees, agreement, termination, release of signatures, and completion.
    - Where the code departs from its comments a theorem exhibits it.
    - Channel: along every run of calls both sides stay solvent and no balance
      computation underflows; monitor updates are numbered without gaps; channel
      states and their encoding correspond.
    - Signer: what it signs for the peer passes the peer's checks; revoked
      commitments can be punished and HTLCs claimed.
    - Streams and onions: a TLV stream is accepted exactly when it is valid; payloads
      and blinded data survive writing and reading; every layer of a packet opens for
      its hop; dummy ciphertexts encode as real ones do; the fees a blinded path
      advertises suffice.
    - Returned failures: the sender finds the origin, the code and the data of a
      failure, and the hold times of failed and fulfilled payments.
    - Delivery: the onion of a sender takes a payment through every node of a route,
      plain or to a blinded path, classical or post-quantum, with the amounts and
      expiries meant for them, and the recipient accepts it.
    - Payments received: a secret made for an invoice verifies exactly for payments
      that pay it in time; a claim takes the parts of a complete payment, all at
      once; the parts of an invoice are announced and claimed; no HTLC disappears,
      but for those of an incomplete payment that the user claims.
    - Gossip: channels and nodes of the graph stay consistent under every sequence of
      calls; a pinned post-quantum key holds, and is what accepted messages of its
      node are signed with; what a node signs is accepted; the bulk removal of stale
      channels is their removal one by one.  Two theorems show where the code falls
      short: a record that makes it panic, and an announcement that loses pins.
    ** Bounds and fuel

    Loops over lists are structural.  The search that keeps a commitment's HTLC
    indices and the secret store iterate over at most 483 and 49 elements.  The
    dialogue of two constructors ([exchange]) takes fuel; [negotiation_terminates]
    shows that twice the number of contributions plus eleven is enough.  Theorems
    on 64-bit sums assume amounts within the money supply and feerates within
    [u32], as the callers do; under those bounds no addition wraps.
    A TLV stream is read with as many rounds as it has bytes ([decode_tlvs]); a
    record takes at least two.  Rejection sampling of a dummy ciphertext is bounded
    by [DRAWS], twenty times the draws of its buffer; the law [sampling_ends] states
    that they are enough, which fails with negligible probability only.
    The recipient of a blinded path takes off its dummy hops one by one
    ([peel_payment_onion]); fuel for their number is enough.
    The runs of received payments assume that HTLCs carry something, that the parts
    of one payment carry less than 2^64 msat and that no part is meant to carry more than
    the money supply ([op_ok]), as holds of the HTLCs of a channel.
    Post-quantum records are read with one round more than there are bytes
    ([parse_records]); [parse_from_enough] shows that more rounds change nothing.  Node
    counters are unique as long as there are at most 2^32 of them at a time.
    ** Not modelled

    Of a channel: opening, [channel_reestablish], shutdown, and the negotiation of a
    splice; the operations modelled go through the scopes of negotiated splices as
    a list.  The queues of the channel manager, the hand-over of a claim to
    the channels and its replay at startup, routing, on-chain claims, onion messages,
    offers and invoices are not modelled yet.  Of gossip: the asynchronous lookup of
    funding outputs, whose outcome is an argument, snapshots, queries and persistence.
    Networking, persistence, block sync, logging and the background threads are I/O
    around this core.  Cryptography is a library and stays a parameter. *)

From Stdlib Require Import ZArith Lia Bool.
From stdpp Require Export base tactics option list numbers sorting.

(** ** Machine integers

    An unsigned Rust integer of width [w] is a [Z] in [0, 2^w).  The plain
    operators of the source wrap in a release build, so they are [wrapping]
    here; the [saturating_*] and [checked_*] methods are the functions of that
    name.  [usize] is 64 bits wide. *)

Definition umax (w : Z) : Z := 2 ^ w - 1.
Definition wrapping (w x : Z) : Z := x mod 2 ^ w.
Definition fits (w x : Z) : Prop := (0 <= x < 2 ^ w)%Z.

Definition saturating_add (w a b : Z) : Z := Z.min (a + b) (umax w).
Definition saturating_mul (w a b : Z) : Z := Z.min (a * b) (umax w).
Definition saturating_sub (a b : Z) : Z := Z.max 0 (a - b).
Definition checked_sub (a b : Z) : option Z :=
  if (b <=? a)%Z then Some (a - b)%Z else None.
Definition checked_mul (w a b : Z) : option Z :=
  if (a * b <=? umax w)%Z then Some (a * b)%Z else None.

Declare Scope u64_scope.
Delimit Scope u64_scope with u64.
Notation "a + b" := (wrapping 64 (Z.add a%u64 b%u64)) : u64_scope.
Notation "a - b" := (wrapping 64 (Z.sub a%u64 b%u64)) : u64_scope.
Notation "a * b" := (wrapping 64 (Z.mul a%u64 b%u64)) : u64_scope.
Notation "a / b" := (Z.div a%u64 b%u64) (only parsing) : u64_scope.
Notation "a <? b" := (Z.ltb a%u64 b%u64) (only parsing) : u64_scope.
Notation "a <=? b" := (Z.leb a%u64 b%u64) (only parsing) : u64_scope.
Notation "a =? b" := (Z.eqb a%u64 b%u64) (only parsing) : u64_scope.
Notation "a >? b" := (Z.ltb b%u64 a%u64) (only parsing) : u64_scope.
Notation "a >=? b" := (Z.leb b%u64 a%u64) (only parsing) : u64_scope.

(** [Iterator::sum] on [u64]s. *)
Definition u64_sum (l : list Z) : Z := foldl (fun acc x => (acc + x)%u64) 0%Z l.

(** The number of elements satisfying a test: [iter().filter(..).count()]. *)
Definition count_if {A} (f : A -> bool) (l : list A) : Z :=
  Z.of_nat (length (List.filter f l)).

(** The exact sum, which the wrapping one equals when it fits. *)
Definition zsum (l : list Z) : Z := foldr Z.add 0%Z l.

(** ** Results, panics and state

    [result E A] is Rust's [Result<A, E>].  [run A] is the outcome of code that
    may panic.  [M S E A] is a method on [&mut self] that returns a
    [Result<A, E>]: the state reached is part of the outcome on the error path
    too. *)

Inductive result (E A : Type) : Type :=
| Ok (a : A)
| Err (e : E).
Arguments Ok {E A} a.
Arguments Err {E A} e.

Inductive run (A : Type) : Type :=
| Return (a : A)
| Panic.
Arguments Return {A} a.
Arguments Panic {A}.

#[export] Instance result_ret {E} : MRet (result E) := fun A a => Ok a.
#[export] Instance result_bind {E} : MBind (result E) :=
  fun A B f m => match m with Ok a => f a | Err e => Err e end.
#[export] Instance run_ret : MRet run := fun A a => Return a.
#[export] Instance run_bind : MBind run :=
  fun A B f m => match m with Return a => f a | Panic => Panic end.

Definition ok_or {E A} (o : option A) (e : E) : result E A :=
  match o with Some a => Ok a | None => Err e end.
Definition unwrap {A} (o : option A) : run A :=
  match o with Some a => Return a | None => Panic end.
Definition is_return {A} (r : run A) : bool := match r with Return _ => true | Panic => false end.
(** The value of a run known to return. *)
Definition returned {A} (r : run A) (d : A) : A := match r with Return a => a | Panic => d end.
Definition is_ok {E A} (r : result E A) : bool :=
  match r with Ok _ => true | Err _ => false end.

Definition M (S E A : Type) : Type := S -> result E A * S.

#[export] Instance M_ret {S E} : MRet (M S E) := fun A a s => (Ok a, s).
#[export] Instance M_bind {S E} : MBind (M S E) :=
  fun A B f m s => match m s with
                   | (Ok a, s') => f a s'
                   | (Err e, s') => (Err e, s')
                   end.
Definition get_state {S E} : M S E S := fun s => (Ok s, s).
Definition modify_state {S E} (f : S -> S) : M S E unit := fun s => (Ok tt, f s).
Definition throw {S E A} (e : E) : M S E A := fun s => (Err e, s).
Definition lift_result {S E A} (r : result E A) : M S E A := fun s => (r, s).
(** [if c { return Err(e) }] *)
Definition bail_if {S E} (c : bool) (e : E) : M S E unit :=
  fun s => if c then (Err e, s) else (Ok tt, s).

(** ** Automation *)

(** [dlia] is [lia] with division and remainder by constants. *)
Ltac dlia := Z.div_mod_to_equations; lia.

(** Turn boolean tests of the code into propositions. *)
Ltac bool_to_prop :=
  repeat match goal with
  | H : context [(_ <? _)%Z = true] |- _ => rewrite Z.ltb_lt in H
  | H : context [(_ <? _)%Z = false] |- _ => rewrite Z.ltb_ge in H
  | H : context [(_ <=? _)%Z = true] |- _ => rewrite Z.leb_le in H
  | H : context [(_ <=? _)%Z = false] |- _ => rewrite Z.leb_gt in H
  | H : context [(_ =? _)%Z = true] |- _ => rewrite Z.eqb_eq in H
  | H : context [(_ =? _)%Z = false] |- _ => rewrite Z.eqb_neq in H
  | H : context [_ && _ = true] |- _ => rewrite andb_true_iff in H
  | H : context [_ || _ = false] |- _ => rewrite orb_false_iff in H
  | H : context [negb _ = true] |- _ => rewrite negb_true_iff in H
  | H : context [negb _ = false] |- _ => rewrite negb_false_iff in H
  end.

(** Case analysis on the first test or match of a hypothesis. *)
Ltac case_in H :=
  match type of H with
  | context [if ?b then _ else _] => destruct b eqn:?
  | context [match ?x with _ => _ end] => destruct x eqn:?
  end.

(** A [Forall] over an explicit list. *)
Ltac prove_forall := repeat first [apply Forall_nil_2 | apply Forall_cons_2].

Create HintDb ldk.
Create Rewrite HintDb ldk.

Lemma returned_eq {A} (r : run A) d : is_return r = true -> r = Return (returned r d).
Proof. by destruct r. Qed.

(** ** Lemmas on machine integers *)

Lemma wrapping_small w x : fits w x -> wrapping w x = x.
Proof. apply Z.mod_small. Qed.

Lemma wrapping_fits w x : (0 <= w)%Z -> fits w (wrapping w x).
Proof. intros Hw. apply Z.mod_pos_bound. lia. Qed.

Lemma saturating_add_exact w a b :
  (a + b < 2 ^ w)%Z -> saturating_add w a b = (a + b)%Z.
Proof. unfold saturating_add, umax. lia. Qed.

Lemma saturating_mul_exact w a b :
  (a * b < 2 ^ w)%Z -> saturating_mul w a b = (a * b)%Z.
Proof. unfold saturating_mul, umax. lia. Qed.

Lemma saturating_sub_nonneg a b : (0 <= saturating_sub a b)%Z.
Proof. unfold saturating_sub. lia. Qed.

Lemma checked_sub_Some a b c :
  checked_sub a b = Some c <-> (b <= a)%Z /\ c = (a - b)%Z.
Proof.
  unfold checked_sub. destruct (Z.leb_spec b a); (split; [intros [=]; subst|intros [? ->]]); (done || lia).
Qed.

Lemma checked_sub_None a b : checked_sub a b = None <-> (a < b)%Z.
Proof. unfold checked_sub. destruct (Z.leb_spec b a); split; (done || lia). Qed.

Lemma zsum_app l1 l2 : zsum (l1 ++ l2) = (zsum l1 + zsum l2)%Z.
Proof. induction l1 as [|x l1 IH]; simpl; lia. Qed.

Lemma zsum_nonneg l : Forall (fun x => 0 <= x)%Z l -> (0 <= zsum l)%Z.
Proof. induction 1; simpl; lia. Qed.

Lemma zsum_perm l l' : l ≡ₚ l' -> zsum l = zsum l'.
Proof. induction 1; cbn [zsum foldr]; unfold zsum in *; lia. Qed.
Lemma u64_sum_exact l :
  Forall (fun x => 0 <= x)%Z l -> (zsum l < 2 ^ 64)%Z -> u64_sum l = zsum l.
Proof.
  unfold u64_sum. intros Hnn Hlt.
  assert (forall acc, (0 <= acc)%Z -> (acc + zsum l < 2 ^ 64)%Z ->
            foldl (fun acc x => (acc + x)%u64) acc l = (acc + zsum l)%Z) as Hgen.
  { clear Hlt. induction Hnn as [|x l Hx Hl IH]; intros acc Hacc Hlt; simpl in *; [lia|].
    pose proof (zsum_nonneg l Hl).
    rewrite wrapping_small by (unfold fits; lia). rewrite IH; lia. }
  rewrite Hgen; lia.
Qed.

Lemma count_if_nonneg {A} (f : A -> bool) l : (0 <= count_if f l)%Z.
Proof. unfold count_if. lia. Qed.

Lemma count_if_nil {A} (f : A -> bool) : count_if f [] = 0%Z.
Proof. done. Qed.

Lemma count_if_cons {A} (f : A -> bool) x l :
  count_if f (x :: l) = ((if f x then 1 else 0) + count_if f l)%Z.
Proof. unfold count_if. simpl. destruct (f x); simpl; lia. Qed.

Lemma count_if_app {A} (f : A -> bool) l1 l2 :
  count_if f (l1 ++ l2) = (count_if f l1 + count_if f l2)%Z.
Proof. unfold count_if. rewrite List.filter_app, length_app. lia. Qed.

Lemma count_if_le_length {A} (f : A -> bool) l :
  (count_if f l <= Z.of_nat (length l))%Z.
Proof. induction l; rewrite ?count_if_cons; simpl; [done|destruct (f a); lia]. Qed.

Lemma count_if_ext {A} (f g : A -> bool) l :
  (forall x, f x = g x) -> count_if f l = count_if g l.
Proof. intros H. induction l; [done|]. rewrite !count_if_cons, H, IHl. done. Qed.

#[export] Hint Resolve saturating_sub_nonneg count_if_nonneg : ldk.
#[export] Hint Rewrite @count_if_cons @count_if_app zsum_app : ldk.

(** Discharge a [wrapping] whose argument fits. *)
Ltac unwrap_u64 :=
  repeat match goal with
  | |- context [wrapping ?w ?x] =>
      lazymatch x with
      | context [wrapping _ _] => fail
      | _ => rewrite (wrapping_small w x) by (unfold fits; dlia)
      end
  end.
