(* ===== verification/Features.v ===== *)
(** * Feature bits (lightning-types/src/features.rs, lightning/src/ln/features.rs)

    [FeatureFlags] is the two-variant byte buffer (inline array or heap
    vector), [Features T] a buffer tagged with the context [T] it is used in.
    The [feature] and [context] types and their tables transcribe the
    [define_feature!] and [define_context!] tables; the generic operations are
    the ones those macros generate.  The abstract value of a buffer is its set
    of bits, [feature_bit]; the theorems say what each operation does to it. *)

From Stdlib Require Import ZArith Lia Bool Btauto.
From S2P Require Import Prelude.

Local Open Scope Z_scope.

(** ** The feature table *)

(** The features [define_feature!] declares, in the order of the source. *)
Inductive feature : Type :=
| DataLossProtect | InitialRoutingSync | UpfrontShutdownScript | GossipQueries
| VariableLengthOnion | StaticRemoteKey | PaymentSecret | BasicMPP | Wumbo
| AnchorsNonzeroFeeHtlcTx | AnchorsZeroFeeHtlcTx | RouteBlinding
| ShutdownAnySegwit | DualFund | Taproot | Quiescence | OnionMessages
| AnchorZeroFeeCommitments | ProvideStorage | ChannelType | SCIDPrivacy
| PaymentMetadata | ZeroConf | Keysend | Trampoline | SimpleClose | Splice
| HtlcHold | DnsResolver | PostQuantumGossip | PostQuantumPayments.

#[export] Instance feature_eq_dec : EqDecision feature.
Proof. solve_decision. Defined.

(** The contexts [define_context!] declares. *)
Inductive context : Type :=
| InitContext | NodeContext | ChannelContext | Bolt11InvoiceContext
| OfferContext | InvoiceRequestContext | Bolt12InvoiceContext
| BlindedHopContext | ChannelTypeContext.

#[export] Instance context_eq_dec : EqDecision context.
Proof. solve_decision. Defined.

(** [$odd_bit] of each [define_feature!]. *)
Definition ODD_BIT (f : feature) : nat :=
  match f with
  | DataLossProtect => 1 | InitialRoutingSync => 3 | UpfrontShutdownScript => 5
  | GossipQueries => 7 | VariableLengthOnion => 9 | StaticRemoteKey => 13
  | PaymentSecret => 15 | BasicMPP => 17 | Wumbo => 19
  | AnchorsNonzeroFeeHtlcTx => 21 | AnchorsZeroFeeHtlcTx => 23
  | RouteBlinding => 25 | ShutdownAnySegwit => 27 | DualFund => 29
  | Taproot => 31 | Quiescence => 35 | OnionMessages => 39
  | AnchorZeroFeeCommitments => 41 | ProvideStorage => 43 | ChannelType => 45
  | SCIDPrivacy => 47 | PaymentMetadata => 49 | ZeroConf => 51 | Keysend => 55
  | Trampoline => 57 | SimpleClose => 61 | Splice => 63 | HtlcHold => 153
  | DnsResolver => 259 | PostQuantumGossip => 139 | PostQuantumPayments => 141
  end.

(** The contexts each [define_feature!] implements its trait for. *)
Definition feature_contexts (f : feature) : list context :=
  match f with
  | InitialRoutingSync => [InitContext]
  | VariableLengthOnion | PaymentSecret =>
      [InitContext; NodeContext; Bolt11InvoiceContext]
  | StaticRemoteKey | AnchorsNonzeroFeeHtlcTx | AnchorsZeroFeeHtlcTx | Taproot
  | AnchorZeroFeeCommitments | SCIDPrivacy | ZeroConf =>
      [InitContext; NodeContext; ChannelTypeContext]
  | BasicMPP | Trampoline =>
      [InitContext; NodeContext; Bolt11InvoiceContext; Bolt12InvoiceContext]
  | PaymentMetadata => [Bolt11InvoiceContext]
  | Keysend | DnsResolver => [NodeContext]
  | _ => [InitContext; NodeContext]
  end.

Definition EVEN_BIT (f : feature) : nat := ODD_BIT f - 1.
Definition BYTE_OFFSET (f : feature) : nat := EVEN_BIT f / 8.
Definition REQUIRED_MASK (f : feature) : Z :=
  Z.shiftl 1 (Z.of_nat (EVEN_BIT f - 8 * BYTE_OFFSET f)).
Definition OPTIONAL_MASK (f : feature) : Z :=
  Z.shiftl 1 (Z.of_nat (ODD_BIT f - 8 * BYTE_OFFSET f)).

(** The byte-by-byte lists of known features given to [define_context!]. *)
Definition known_features (c : context) : list (list feature) :=
  match c with
  | InitContext =>
      [ [DataLossProtect; InitialRoutingSync; UpfrontShutdownScript; GossipQueries];
        [VariableLengthOnion; StaticRemoteKey; PaymentSecret];
        [BasicMPP; Wumbo; AnchorsNonzeroFeeHtlcTx; AnchorsZeroFeeHtlcTx];
        [RouteBlinding; ShutdownAnySegwit; DualFund; Taproot];
        [Quiescence; OnionMessages];
        [AnchorZeroFeeCommitments; ProvideStorage; ChannelType; SCIDPrivacy];
        [ZeroConf];
        [Trampoline; SimpleClose; Splice];
        []; []; []; []; []; []; []; []; [];
        [PostQuantumGossip; PostQuantumPayments];
        [];
        [HtlcHold] ]
  | NodeContext =>
      [ [DataLossProtect; UpfrontShutdownScript; GossipQueries];
        [VariableLengthOnion; StaticRemoteKey; PaymentSecret];
        [BasicMPP; Wumbo; AnchorsNonzeroFeeHtlcTx; AnchorsZeroFeeHtlcTx];
        [RouteBlinding; ShutdownAnySegwit; DualFund; Taproot];
        [Quiescence; OnionMessages];
        [AnchorZeroFeeCommitments; ProvideStorage; ChannelType; SCIDPrivacy];
        [ZeroConf; Keysend];
        [Trampoline; SimpleClose; Splice];
        []; []; []; []; []; []; []; []; [];
        [PostQuantumGossip; PostQuantumPayments];
        [];
        [HtlcHold];
        []; []; []; []; []; []; []; []; []; []; []; [];
        [DnsResolver] ]
  | Bolt11InvoiceContext =>
      [ []; [VariableLengthOnion; PaymentSecret]; [BasicMPP]; []; []; [];
        [PaymentMetadata]; [Trampoline] ]
  | Bolt12InvoiceContext =>
      [ []; []; [BasicMPP]; []; []; []; []; [Trampoline] ]
  | ChannelTypeContext =>
      [ []; [StaticRemoteKey]; [AnchorsNonzeroFeeHtlcTx; AnchorsZeroFeeHtlcTx];
        [Taproot]; []; [AnchorZeroFeeCommitments; SCIDPrivacy]; [ZeroConf] ]
  | ChannelContext | OfferContext | InvoiceRequestContext | BlindedHopContext => []
  end.

Definition KNOWN_FEATURE_MASK (c : context) : list Z :=
  map (fun fs => foldl (fun m f => Z.lor m (Z.lor (REQUIRED_MASK f) (OPTIONAL_MASK f)))
                       0 fs)
      (known_features c).

Definition ANY_REQUIRED_FEATURES_MASK : Z := 0x55.
Definition ANY_OPTIONAL_FEATURES_MASK : Z := 0xAA.

(** Bitwise complement of a [u8]. *)
Definition not_u8 (b : Z) : Z := Z.lxor b 255.

(** [slice\[i\]]; every use below is guarded by a length test. *)
Definition byte_at (l : list Z) (i : nat) : Z := nth i l 0.

(** ** The byte buffer *)

Definition MIN_FEATURES_ALLOCATION_BYTES : nat := 8.
Definition DIRECT_ALLOC_BYTES : nat :=
  if (8 * 2 - 1 <? MIN_FEATURES_ALLOCATION_BYTES)%nat
  then MIN_FEATURES_ALLOCATION_BYTES else (8 * 2 - 1)%nat.

Inductive FeatureFlags : Type :=
| Held (bytes : list Z) (len : nat)
| Heap (vec : list Z).

(** [Vec::resize] and a fixed-size array of one byte. *)
Definition vec_resize (v : list Z) (n : nat) (d : Z) : list Z :=
  take n v ++ replicate (n - length v) d.
Definition array (d : Z) : list Z := replicate DIRECT_ALLOC_BYTES d.
#[global] Opaque DIRECT_ALLOC_BYTES.
(** [dst\[..src.len()\].copy_from_slice(src)] *)
Definition copy_prefix (src dst : list Z) : list Z := src ++ drop (length src) dst.

Definition flags_empty : FeatureFlags := Held (array 0) 0.

Definition flags_from (vec : list Z) : FeatureFlags :=
  if decide (length vec <= DIRECT_ALLOC_BYTES)%nat
  then Held (copy_prefix vec (array 0)) (length vec)
  else Heap vec.

Definition deref (fl : FeatureFlags) : list Z :=
  match fl with
  | Held bytes len => take len bytes
  | Heap vec => vec
  end.

(** A write through [deref_mut]: [f] rewrites the visible slice in place. *)
Definition deref_mut (f : list Z -> list Z) (fl : FeatureFlags) : FeatureFlags :=
  match fl with
  | Held bytes len => Held (f (take len bytes) ++ drop len bytes) len
  | Heap vec => Heap (f vec)
  end.

Definition flags_resize (fl : FeatureFlags) (new_len : nat) (default : Z) : FeatureFlags :=
  match fl with
  | Held bytes len =>
      let start_len := len in
      if decide (new_len <= DIRECT_ALLOC_BYTES)%nat
      then Held (take start_len bytes ++ drop start_len (array default)) new_len
      else
        let vec := vec_resize [] new_len default in
        Heap (copy_prefix (take start_len bytes) vec)
  | Heap vec =>
      let vec := vec_resize vec new_len default in
      if decide (new_len <= DIRECT_ALLOC_BYTES)%nat
      then Held (copy_prefix (take new_len vec) (array 0)) new_len
      else Heap vec
  end.

Definition flags_len (fl : FeatureFlags) : nat := length (deref fl).

(** The buffer's well-formedness: the inline array has its fixed size and
    covers [len]; everything is a byte. *)
Definition flags_wf (fl : FeatureFlags) : Prop :=
  match fl with
  | Held bytes len =>
      length bytes = DIRECT_ALLOC_BYTES /\ (len <= DIRECT_ALLOC_BYTES)%nat /\
      Forall (fits 8) bytes
  | Heap vec => Forall (fits 8) vec
  end.

(** ** Features of a context *)

Record Features (T : context) : Type := mkFeatures { flags : FeatureFlags }.
Arguments mkFeatures {T} flags.
Arguments flags {T} _.

Definition features_empty {T} : Features T := mkFeatures flags_empty.
Definition from_le_bytes {T} (v : list Z) : Features T := mkFeatures (flags_from v).
Definition from_be_bytes {T} (v : list Z) : Features T := mkFeatures (flags_from (reverse v)).
Definition le_flags {T} (s : Features T) : list Z := deref (flags s).

(** *** What [define_feature!] generates for one feature *)

Definition requires_feature (f : feature) (fl : list Z) : bool :=
  (BYTE_OFFSET f <? length fl)%nat &&
  negb (Z.land (byte_at fl (BYTE_OFFSET f)) (REQUIRED_MASK f) =? 0).

Definition supports_feature (f : feature) (fl : list Z) : bool :=
  (BYTE_OFFSET f <? length fl)%nat &&
  negb (Z.land (byte_at fl (BYTE_OFFSET f)) (Z.lor (REQUIRED_MASK f) (OPTIONAL_MASK f)) =? 0).

Definition grow_to {T} (byte_offset : nat) (obj : Features T) : Features T :=
  if decide (flags_len (flags obj) <= byte_offset)%nat
  then mkFeatures (flags_resize (flags obj) (byte_offset + 1) 0) else obj.

(** [obj.flags\[i\] = g(obj.flags\[i\])] *)
Definition update_byte {T} (g : Z -> Z) (i : nat) (obj : Features T) : Features T :=
  mkFeatures (deref_mut (alter g i) (flags obj)).

Definition set_required_bit {T} (f : feature) (obj : Features T) : Features T :=
  let obj := grow_to (BYTE_OFFSET f) obj in
  let obj := update_byte (fun b => Z.lor b (REQUIRED_MASK f)) (BYTE_OFFSET f) obj in
  update_byte (fun b => Z.land b (not_u8 (OPTIONAL_MASK f))) (BYTE_OFFSET f) obj.

Definition set_optional_bit {T} (f : feature) (obj : Features T) : Features T :=
  let obj := grow_to (BYTE_OFFSET f) obj in
  update_byte (fun b => Z.lor b (OPTIONAL_MASK f)) (BYTE_OFFSET f) obj.

(** [iter().rposition(|&byte| byte != 0)] *)
Fixpoint rposition_nonzero (l : list Z) : option nat :=
  match l with
  | [] => None
  | b :: l =>
      match rposition_nonzero l with
      | Some i => Some (S i)
      | None => if b =? 0 then None else Some 0%nat
      end
  end.

Definition clear_bits {T} (f : feature) (obj : Features T) : Features T :=
  let obj :=
    if decide (BYTE_OFFSET f < flags_len (flags obj))%nat then
      let obj := update_byte (fun b => Z.land b (not_u8 (REQUIRED_MASK f))) (BYTE_OFFSET f) obj in
      update_byte (fun b => Z.land b (not_u8 (OPTIONAL_MASK f))) (BYTE_OFFSET f) obj
    else obj in
  let last_non_zero_byte := rposition_nonzero (deref (flags obj)) in
  let size := match last_non_zero_byte with Some offset => (offset + 1)%nat | None => 0%nat end in
  mkFeatures (flags_resize (flags obj) size 0).

(** *** Operations on whole feature sets *)

(** [for (byte, rhs_byte) in self.zip(rhs) { *byte |= *rhs_byte }] *)
Fixpoint or_zip (l r : list Z) : list Z :=
  match l, r with
  | b :: l, rb :: r => Z.lor b rb :: or_zip l r
  | l, _ => l
  end.

Definition bitor_assign {T} (self rhs : Features T) : Features T :=
  let total_feature_len := Nat.max (flags_len (flags self)) (flags_len (flags rhs)) in
  let fl := flags_resize (flags self) total_feature_len 0 in
  mkFeatures (deref_mut (fun l => or_zip l (deref (flags rhs))) fl).

(** The loop of [PartialEq::eq] over the two iterators. *)
Fixpoint eq_loop (o us : list Z) : bool :=
  match o, us with
  | x :: o, y :: us => if x =? y then eq_loop o us else false
  | b :: o, [] => if b =? 0 then eq_loop o [] else false
  | [], us =>
      (fix tail (us : list Z) : bool :=
         match us with
         | [] => true
         | b :: us => if b =? 0 then tail us else false
         end) us
  end.

Definition features_eq {T} (self o : Features T) : bool :=
  eq_loop (deref (flags o)) (deref (flags self)).

(** The slice [Hash::hash] feeds to the hasher: trailing zero bytes dropped.
    The loop is bounded by the length of the slice. *)
Fixpoint trim_zeros (fuel : nat) (l : list Z) : list Z :=
  match fuel with
  | O => l
  | S fuel =>
      match last l with
      | Some 0 => trim_zeros fuel (take (length l - 1) l)
      | _ => l
      end
  end.
Definition hash_input {T} (self : Features T) : list Z :=
  trim_zeros (length (deref (flags self))) (deref (flags self)).

(** [Ord::cmp] on byte slices is lexicographic. *)
Fixpoint slice_cmp (l r : list Z) : comparison :=
  match l, r with
  | [], [] => Eq
  | [], _ => Lt
  | _, [] => Gt
  | x :: l, y :: r => match x ?= y with Eq => slice_cmp l r | c => c end
  end.
Definition features_cmp {T} (self other : Features T) : comparison :=
  slice_cmp (deref (flags self)) (deref (flags other)).

(** [to_context_internal]: the [filter_map] over the enumerated bytes, then the
    copy into a fresh buffer of as many bytes. *)
Fixpoint context_bytes (i : nat) (T C : context) (l : list Z) : list (nat * Z) :=
  match l with
  | [] => []
  | byte :: l =>
      if (i <? length (KNOWN_FEATURE_MASK T))%nat && (i <? length (KNOWN_FEATURE_MASK C))%nat
      then (i, Z.land (Z.land byte (byte_at (KNOWN_FEATURE_MASK T) i)) (byte_at (KNOWN_FEATURE_MASK C) i))
             :: context_bytes (S i) T C l
      else context_bytes (S i) T C l
  end.

Definition to_context_internal {T} (C : context) (self : Features T) : Features C :=
  let flag_iter := context_bytes 0 T C (deref (flags self)) in
  let fl := flags_resize flags_empty (length flag_iter) 0 in
  mkFeatures (foldl (fun fl '(i, byte) => deref_mut (alter (fun _ => byte) i) fl) fl flag_iter).

Definition supports_any_optional_bits {T} (self : Features T) : bool :=
  existsb (fun byte => negb (Z.land byte ANY_OPTIONAL_FEATURES_MASK =? 0)) (deref (flags self)).

Definition unset_features_mask_at_position {T} (other : Features T) (index : nat) : Z :=
  let fl := deref (flags other) in
  if (index <? length fl)%nat then
    let b := byte_at fl index in
    not_u8 (Z.lor (Z.lor b (Z.land (Z.shiftr b 1) ANY_REQUIRED_FEATURES_MASK))
                  (Z.land (wrapping 8 (Z.shiftl b 1)) ANY_OPTIONAL_FEATURES_MASK))
  else 255.

Definition requires_unknown_bits_from {T} (self other : Features T) : bool :=
  existsb (fun '(i, byte) =>
             let unknown_features := unset_features_mask_at_position other i in
             negb (Z.land byte (Z.land ANY_REQUIRED_FEATURES_MASK unknown_features) =? 0))
          (imap pair (deref (flags self))).

Definition required_unknown_bits_from {T} (self other : Features T) : list Z :=
  concat (imap (fun i byte =>
    let unknown_features := unset_features_mask_at_position other i in
    if negb (Z.land byte unknown_features =? 0) then
      map (fun bit => Z.of_nat i * 8 + bit)
          (List.filter (fun bit =>
             Z.land (Z.shiftr (Z.land byte unknown_features) bit) 1 =? 1) [0; 2; 4; 6])
    else []) (deref (flags self))).

(** [u64::from_le_bytes] of eight bytes. *)
Fixpoint from_le (l : list Z) : Z :=
  match l with
  | [] => 0
  | b :: l => b + 256 * from_le l
  end.

(** [slice.chunks(8)]; the fuel is the length of the slice. *)
Fixpoint chunks8 (fuel : nat) (l : list Z) : list (list Z) :=
  match fuel with
  | O => []
  | S fuel => match l with [] => [] | _ => take 8 l :: chunks8 fuel (drop 8 l) end
  end.

Definition pad8 (chunk : list Z) : list Z := copy_prefix chunk (replicate 8 0).
Definition REQ_MASK : Z := from_le (replicate 8 ANY_REQUIRED_FEATURES_MASK).
Definition not_u64 (x : Z) : Z := Z.lxor x (umax 64).

(** The loop of [requires_unknown_bits], which advances the chunks of the known
    mask alongside. *)
Fixpoint unknown_chunks (chunks known : list (list Z)) : bool :=
  match chunks with
  | [] => false
  | chunk :: chunks =>
      let flag_int := from_le (pad8 chunk) in
      let known_chunk := match known with k :: _ => k | [] => [] end in
      let known_int := from_le (pad8 known_chunk) in
      if negb (Z.land flag_int (Z.land REQ_MASK (not_u64 known_int)) =? 0) then true
      else unknown_chunks chunks (tail known)
  end.

Definition requires_unknown_bits {T} (self : Features T) : bool :=
  let fl := deref (flags self) in
  unknown_chunks (chunks8 (length fl) fl)
    (chunks8 (length (KNOWN_FEATURE_MASK T)) (KNOWN_FEATURE_MASK T)).

Definition supports_unknown_bits {T} (self : Features T) : bool :=
  let byte_count := length (KNOWN_FEATURE_MASK T) in
  existsb (fun '(i, byte) =>
             let unknown_features :=
               if (i <? byte_count)%nat then not_u8 (byte_at (KNOWN_FEATURE_MASK T) i) else 255 in
             negb (Z.land byte unknown_features =? 0))
          (imap pair (deref (flags self))).

(** *** Setting bits by number *)

Definition set_bit {T} (bit : nat) (custom : bool) (self : Features T)
    : result unit (Features T) :=
  let byte_offset := (bit / 8)%nat in
  let mask := Z.shiftl 1 (Z.of_nat (bit - 8 * byte_offset)) in
  if decide (Z.to_nat (umax 16) <= byte_offset)%nat then Err tt
  else if (byte_offset <? length (KNOWN_FEATURE_MASK T))%nat && custom &&
          negb (Z.land (byte_at (KNOWN_FEATURE_MASK T) byte_offset) mask =? 0) then Err tt
  else
    let self := grow_to byte_offset self in
    Ok (update_byte (fun b => Z.lor b mask) byte_offset self).

Definition set_feature_bit {T} (bit : nat) (self : Features T) : result unit (Features T) :=
  if (255 <? bit)%nat then Err tt else set_bit bit false self.
Definition set_required_feature_bit {T} (bit : nat) (self : Features T) :=
  set_feature_bit (bit - bit mod 2) self.
Definition set_optional_feature_bit {T} (bit : nat) (self : Features T) :=
  set_feature_bit (bit + (1 - bit mod 2)) self.
Definition set_custom_bit {T} (bit : nat) (self : Features T) : result unit (Features T) :=
  if (bit <? 256)%nat then Err tt else set_bit bit true self.
Definition set_required_custom_bit {T} (bit : nat) (self : Features T) :=
  set_custom_bit (bit - bit mod 2) self.
Definition set_optional_custom_bit {T} (bit : nat) (self : Features T) :=
  set_custom_bit (bit + (1 - bit mod 2)) self.

(** *** Channel types and keysend *)

Definition ChannelTypeFeatures : Type := Features ChannelTypeContext.

Definition from_init (init : Features InitContext) : ChannelTypeFeatures :=
  let ret := to_context_internal ChannelTypeContext init in
  mkFeatures (deref_mut (map (fun byte =>
    let byte := Z.lor byte (Z.shiftr (Z.land byte ANY_OPTIONAL_FEATURES_MASK) 1) in
    Z.land byte ANY_REQUIRED_FEATURES_MASK)) (flags ret)).

Definition only_static_remote_key : ChannelTypeFeatures :=
  set_required_bit StaticRemoteKey features_empty.
Definition anchors_zero_htlc_fee_and_dependencies : ChannelTypeFeatures :=
  set_required_bit AnchorsZeroFeeHtlcTx (set_required_bit StaticRemoteKey features_empty).
Definition anchors_zero_fee_commitments : ChannelTypeFeatures :=
  set_required_bit AnchorZeroFeeCommitments features_empty.

Definition for_keysend (allow_mpp : bool) : Features Bolt11InvoiceContext :=
  let res := set_optional_bit VariableLengthOnion features_empty in
  if allow_mpp then set_optional_bit BasicMPP res else res.

(** The getters the transaction builder uses. *)
Definition supports_anchors_zero_fee_htlc_tx (ct : ChannelTypeFeatures) : bool :=
  supports_feature AnchorsZeroFeeHtlcTx (deref (flags ct)).
Definition supports_anchor_zero_fee_commitments (ct : ChannelTypeFeatures) : bool :=
  supports_feature AnchorZeroFeeCommitments (deref (flags ct)).

(** *** Wire format (lightning/src/ln/features.rs) *)

(** The bytes written: big-endian, prefixed by a [u16] length or not. *)
Definition write_be (le : list Z) : list Z := reverse le.
Definition features_write {T} (self : Features T) : list Z :=
  let bytes := le_flags self in
  let len := wrapping 16 (Z.of_nat (length bytes)) in
  [len / 256; len mod 256] ++ write_be bytes.
Definition features_read {T} (r : list Z) : result unit (Features T * list Z) :=
  match r with
  | hi :: lo :: r =>
      let len := Z.to_nat (hi * 256 + lo) in
      if decide (len <= length r)%nat
      then Ok (from_be_bytes (take len r), drop len r) else Err tt
  | _ => Err tt
  end.
Definition write_without_length {T} (self : Features T) : list Z := write_be (le_flags self).
Definition read_without_length {T} (r : list Z) : Features T := from_be_bytes r.

(** ** The abstract value: a set of bits *)

(** Bit [n] of a little-endian byte list. *)
Definition bytes_bit (l : list Z) (n : nat) : bool :=
  Z.testbit (nth (n / 8) l 0) (Z.of_nat (n mod 8)).
Definition feature_bit {T} (s : Features T) (n : nat) : bool := bytes_bit (deref (flags s)) n.
Definition known_bit (c : context) (n : nat) : bool := bytes_bit (KNOWN_FEATURE_MASK c) n.

(** ** Lemmas on byte lists and bits *)

Lemma testbit_mask (k m : nat) : Z.testbit (Z.shiftl 1 (Z.of_nat k)) (Z.of_nat m) = (k =? m)%nat.
Proof.
  rewrite Z.shiftl_1_l, Z.pow2_bits_eqb by lia.
  destruct (Nat.eqb_spec k m); destruct (Z.eqb_spec (Z.of_nat k) (Z.of_nat m)); lia.
Qed.

Lemma testbit_ones8 m : (m < 8)%nat -> Z.testbit 255 (Z.of_nat m) = true.
Proof. intros H. change 255 with (Z.ones 8). apply Z.ones_spec_low. lia. Qed.

Lemma testbit_not_u8 b m : (m < 8)%nat ->
  Z.testbit (not_u8 b) (Z.of_nat m) = negb (Z.testbit b (Z.of_nat m)).
Proof. intros H. unfold not_u8. rewrite Z.lxor_spec, testbit_ones8 by done. apply xorb_true_r. Qed.

Lemma fits_bits w b : 0 <= w -> fits w b <-> 0 <= b /\ forall m, w <= m -> Z.testbit b m = false.
Proof.
  intros Hw. unfold fits. split.
  - intros [H0 H1]. split; [done|]. intros m Hm.
    destruct (Z.eq_dec b 0) as [->|]; [apply Z.bits_0|].
    apply Z.bits_above_log2; [done|]. apply Z.log2_lt_pow2; [lia|].
    apply Z.lt_le_trans with (2 ^ w); [done|]. apply Z.pow_le_mono_r; lia.
  - intros [H0 H]. split; [done|].
    destruct (Z.eq_dec b 0) as [->|]; [lia|].
    apply Z.log2_lt_pow2; [lia|].
    destruct (Z.le_gt_cases w (Z.log2 b)) as [Hle|]; [|done].
    specialize (H _ Hle). rewrite Z.bit_log2 in H by lia. done.
Qed.

Lemma fits_lor w a b : 0 <= w -> fits w a -> fits w b -> fits w (Z.lor a b).
Proof.
  intros Hw [? Ha]%fits_bits [? Hb]%fits_bits; try done.
  apply fits_bits; [done|]. split; [by apply Z.lor_nonneg|].
  intros m Hm. rewrite Z.lor_spec, Ha, Hb; done.
Qed.

Lemma fits_land w a b : 0 <= w -> fits w a -> 0 <= b -> fits w (Z.land a b).
Proof.
  intros Hw [? Ha]%fits_bits Hb; [|done].
  apply fits_bits; [done|]. split; [apply Z.land_nonneg; by left|].
  intros m Hm. rewrite Z.land_spec, Ha; done.
Qed.

Lemma fits_mask k : (k < 8)%nat -> fits 8 (Z.shiftl 1 (Z.of_nat k)).
Proof.
  intros H. rewrite Z.shiftl_1_l. unfold fits. split; [lia|].
  apply Z.pow_lt_mono_r; lia.
Qed.

Lemma not_u8_nonneg b : 0 <= b -> 0 <= not_u8 b.
Proof. intros H. apply Z.lxor_nonneg. lia. Qed.

(** A byte is nonzero exactly when one of its eight bits is set. *)
Lemma byte_nonzero b : fits 8 b ->
  b <> 0 <-> exists m, (m < 8)%nat /\ Z.testbit b (Z.of_nat m) = true.
Proof.
  intros [H0 Hb]%fits_bits; [|done]. split.
  - intros Hne. exists (Z.to_nat (Z.log2 b)).
    pose proof (Z.log2_nonneg b). rewrite Z2Nat.id by done.
    assert (Z.testbit b (Z.log2 b) = true) as Ht by (apply Z.bit_log2; lia).
    split; [|done]. destruct (Z.le_gt_cases 8 (Z.log2 b)) as [Hle|]; [|lia].
    rewrite Hb in Ht; done.
  - intros (m & _ & Hm) ->. rewrite Z.bits_0 in Hm. done.
Qed.

Lemma bytes_bit_nil n : bytes_bit [] n = false.
Proof. unfold bytes_bit. destruct (n / 8)%nat; apply Z.bits_0. Qed.

Lemma bytes_bit_beyond l n : (length l <= n / 8)%nat -> bytes_bit l n = false.
Proof. intros H. unfold bytes_bit. rewrite nth_overflow by done. apply Z.bits_0. Qed.

Lemma nth_resize l n i : (length l <= n)%nat -> nth i (vec_resize l n 0) 0 = nth i l 0.
Proof.
  intros H. unfold vec_resize. rewrite take_ge by done.
  destruct (decide (i < length l)%nat).
  - by rewrite app_nth1.
  - rewrite app_nth2, (nth_overflow l) by lia.
    destruct (decide (i - length l < n - length l)%nat).
    + rewrite nth_lookup, lookup_replicate_2 by done. done.
    + rewrite nth_overflow; [done|]. rewrite length_replicate. lia.
Qed.

Lemma nth_alter g i j (l : list Z) : (i < length l)%nat ->
  nth j (alter g i l) 0 = if decide (i = j) then g (nth j l 0) else nth j l 0.
Proof.
  intros H. rewrite !nth_lookup, list_lookup_alter. case_decide; [subst|done].
  destruct (lookup_lt_is_Some_2 l j H) as [x ->]. done.
Qed.

Lemma bytes_bit_alter g i (l : list Z) n : (i < length l)%nat ->
  bytes_bit (alter g i l) n =
  if decide (i = n / 8)%nat then Z.testbit (g (nth i l 0)) (Z.of_nat (n mod 8))
  else bytes_bit l n.
Proof.
  intros H. unfold bytes_bit. rewrite nth_alter by done.
  case_decide; [by subst|done].
Qed.

Lemma length_vec_resize l n d : length (vec_resize l n d) = n.
Proof. unfold vec_resize. rewrite length_app, length_take, length_replicate. lia. Qed.

Lemma mod8_lt n : (n mod 8 < 8)%nat.
Proof. apply Nat.mod_upper_bound. lia. Qed.

(** Bit [n] sits in byte [i] at position [k] exactly when [n = 8 * i + k]. *)
Lemma bit_position i k n : (k < 8)%nat ->
  (i = n / 8 /\ k = n mod 8)%nat <-> n = (8 * i + k)%nat.
Proof.
  intros Hk. pose proof (Nat.div_mod_eq n 8). pose proof (mod8_lt n).
  split; [lia|]. intros ->. split.
  - apply (Nat.div_unique _ _ _ k); lia.
  - apply (Nat.mod_unique _ _ i); lia.
Qed.

#[export] Hint Resolve mod8_lt fits_mask fits_lor fits_land not_u8_nonneg : ldk.

(** ** The buffer refines a byte vector *)

Lemma deref_resize fl n d :
  flags_wf fl -> deref (flags_resize fl n d) = vec_resize (deref fl) n d.
Proof.
  destruct fl as [bytes len|vec]; simpl.
  - intros (Hlen & Hle & _). unfold array, copy_prefix. case_decide; simpl.
    + unfold vec_resize.
      rewrite take_app, length_take, drop_replicate, take_replicate.
      rewrite Nat.min_l by lia. do 2 f_equal; lia.
    + unfold vec_resize. simpl. rewrite take_nil, app_nil_l, Nat.sub_0_r.
      rewrite drop_replicate, length_take, take_take. f_equal; f_equal; lia.
  - intros _. case_decide; simpl; [|done].
    unfold copy_prefix. rewrite take_app_le; [|rewrite length_take, length_vec_resize; lia].
    rewrite take_take. apply take_ge. rewrite length_vec_resize. lia.
Qed.

Lemma Forall_vec_resize (P : Z -> Prop) l n d : Forall P l -> P d -> Forall P (vec_resize l n d).
Proof. intros Hl Hd. apply Forall_app. split; [by apply Forall_take|by apply Forall_replicate]. Qed.

Lemma wf_resize fl n d : fits 8 d -> flags_wf fl -> flags_wf (flags_resize fl n d).
Proof.
  intros Hd. assert (fits 8 0) as H0 by (unfold fits; lia).
  destruct fl as [bytes len|vec]; simpl.
  - intros (Hlen & Hle & Hb). unfold array, copy_prefix. case_decide; simpl.
    + rewrite length_app, length_take, length_drop, length_replicate.
      split_and!; [lia|lia|]. apply Forall_app. split; [by apply Forall_take|].
      by apply Forall_drop, Forall_replicate.
    + apply Forall_app. split; [by apply Forall_take|].
      by apply Forall_drop, Forall_vec_resize.
  - intros Hv. case_decide; simpl; [|by apply Forall_vec_resize].
    unfold copy_prefix, array. rewrite length_app, length_drop, length_replicate, length_take,
      length_vec_resize. split_and!; [lia|lia|].
    apply Forall_app. split; [by apply Forall_take, Forall_vec_resize|].
    by apply Forall_drop, Forall_replicate.
Qed.

Lemma deref_deref_mut f fl :
  flags_wf fl -> (forall l, length (f l) = length l) -> deref (deref_mut f fl) = f (deref fl).
Proof.
  intros Hwf Hf. destruct fl as [bytes len|vec]; simpl in *; [|done].
  destruct Hwf as (Hlen & Hle & _).
  rewrite take_app_le; [apply take_ge|]; rewrite Hf, length_take; lia.
Qed.

Lemma wf_deref_mut f fl :
  flags_wf fl -> (forall l, length (f l) = length l) ->
  (forall l, Forall (fits 8) l -> Forall (fits 8) (f l)) -> flags_wf (deref_mut f fl).
Proof.
  intros Hwf Hf HF. destruct fl as [bytes len|vec]; simpl in *; [|by apply HF].
  destruct Hwf as (Hlen & Hle & Hb).
  rewrite length_app, Hf, length_take, length_drop. split_and!; [lia|lia|].
  apply Forall_app. split; [by apply HF, Forall_take|by apply Forall_drop].
Qed.

Lemma wf_empty : flags_wf flags_empty.
Proof. unfold flags_empty. simpl. split_and!; [done|lia|]. apply Forall_replicate. unfold fits; lia. Qed.

Lemma wf_from v : Forall (fits 8) v -> flags_wf (flags_from v).
Proof.
  intros Hv. unfold flags_from. case_decide; simpl; [|done].
  unfold copy_prefix, array. rewrite length_app, length_drop, length_replicate.
  split_and!; [lia|lia|]. apply Forall_app. split; [done|].
  apply Forall_drop, Forall_replicate. unfold fits; lia.
Qed.

Lemma deref_from v : deref (flags_from v) = v.
Proof.
  unfold flags_from. case_decide; simpl; [|done].
  unfold copy_prefix. rewrite take_app_le by lia. by apply take_ge.
Qed.

Lemma wf_bytes fl : flags_wf fl -> Forall (fits 8) (deref fl).
Proof. destruct fl; simpl; [|done]. intros (_ & _ & H). by apply Forall_take. Qed.

#[export] Hint Resolve wf_resize wf_deref_mut wf_empty wf_from wf_bytes : ldk.

(** ** Bit semantics of the single-feature operations *)

Lemma feature_position f :
  exists e, (EVEN_BIT f = 8 * BYTE_OFFSET f + e)%nat /\ ODD_BIT f = S (EVEN_BIT f) /\
            (S e < 8)%nat /\ Nat.even (EVEN_BIT f) = true.
Proof.
  exists (EVEN_BIT f - 8 * BYTE_OFFSET f)%nat.
  destruct f; vm_compute; repeat split; repeat constructor.
Qed.

Lemma masks_of f e :
  (EVEN_BIT f = 8 * BYTE_OFFSET f + e)%nat -> ODD_BIT f = S (EVEN_BIT f) ->
  REQUIRED_MASK f = Z.shiftl 1 (Z.of_nat e) /\ OPTIONAL_MASK f = Z.shiftl 1 (Z.of_nat (S e)).
Proof.
  intros He Ho. unfold REQUIRED_MASK, OPTIONAL_MASK. rewrite Ho, He.
  split; do 2 f_equal; lia.
Qed.

Lemma grow_to_spec {T} i (s : Features T) :
  flags_wf (flags s) ->
  flags_wf (flags (grow_to i s)) /\ (i < length (le_flags (grow_to i s)))%nat /\
  forall n, feature_bit (grow_to i s) n = feature_bit s n.
Proof.
  intros Hwf. unfold grow_to, flags_len, le_flags, feature_bit. case_decide as Hi; simpl.
  - rewrite deref_resize, length_vec_resize by done.
    split_and!; [apply wf_resize; [unfold fits; lia|done]|lia|].
    intros n. unfold bytes_bit. rewrite nth_resize by lia. done.
  - split_and!; [done|lia|done].
Qed.

Lemma update_byte_spec {T} g i (s : Features T) :
  flags_wf (flags s) -> (forall b, fits 8 b -> fits 8 (g b)) -> (i < length (le_flags s))%nat ->
  flags_wf (flags (update_byte g i s)) /\
  length (le_flags (update_byte g i s)) = length (le_flags s) /\
  nth i (le_flags (update_byte g i s)) 0 = g (nth i (le_flags s) 0) /\
  forall n, feature_bit (update_byte g i s) n =
    if decide (i = n / 8)%nat then Z.testbit (g (nth i (le_flags s) 0)) (Z.of_nat (n mod 8))
    else feature_bit s n.
Proof.
  intros Hwf Hg Hi. unfold update_byte, le_flags, feature_bit in *. simpl.
  assert (forall l : list Z, length (alter g i l) = length l) as Hlen by (intros; apply length_alter).
  rewrite deref_deref_mut by done.
  split_and!; [|apply Hlen|rewrite nth_alter by done; by case_decide|].
  - apply wf_deref_mut; [done|done|]. intros l Hl. apply Forall_lookup_2. intros j x.
    rewrite list_lookup_alter. case_decide as Heq; [subst j|by apply (Forall_lookup_1 _ l)].
    intros (y & Hy & ->)%fmap_Some. apply Hg. by apply (Forall_lookup_1 _ l i).
  - intros n. by apply bytes_bit_alter.
Qed.

(** Where a masked bit lands. *)
Lemma testbit_mask_at i k n : (k < 8)%nat -> i = (n / 8)%nat ->
  Z.testbit (Z.shiftl 1 (Z.of_nat k)) (Z.of_nat (n mod 8)) = (n =? 8 * i + k)%nat.
Proof.
  intros Hk Hi. rewrite testbit_mask.
  destruct (Nat.eqb_spec k (n mod 8)), (Nat.eqb_spec n (8 * i + k)); try done.
  - exfalso. apply n0. by apply bit_position.
  - exfalso. apply n0. by apply (bit_position i).
Qed.

Lemma not_at i k n : (k < 8)%nat -> i <> (n / 8)%nat -> (n =? 8 * i + k)%nat = false.
Proof.
  intros Hk Hi. apply Nat.eqb_neq. intros Heq. apply Hi. by apply (bit_position i k).
Qed.

Lemma feature_bit_at {T} (s : Features T) i n : i = (n / 8)%nat ->
  feature_bit s n = Z.testbit (nth i (le_flags s) 0) (Z.of_nat (n mod 8)).
Proof. by intros ->. Qed.

Lemma set_optional_bit_spec {T} f (s : Features T) :
  flags_wf (flags s) ->
  flags_wf (flags (set_optional_bit f s)) /\
  forall n, feature_bit (set_optional_bit f s) n = (n =? ODD_BIT f)%nat || feature_bit s n.
Proof.
  intros Hwf. destruct (feature_position f) as (e & He & Ho & H8 & _).
  destruct (masks_of f e He Ho) as [_ Hom]. unfold set_optional_bit.
  destruct (grow_to_spec (BYTE_OFFSET f) s Hwf) as (Hwf1 & Hl1 & Hb1).
  destruct (update_byte_spec (fun b => Z.lor b (OPTIONAL_MASK f)) (BYTE_OFFSET f) _ Hwf1)
    as (Hwf2 & _ & _ & Hb2); [|done|].
  { intros b Hb. rewrite Hom. auto with ldk lia. }
  split; [done|]. intros n. rewrite Hb2, <- Hb1.
  assert (ODD_BIT f = 8 * BYTE_OFFSET f + S e)%nat as -> by lia.
  case_decide as Hn; [|by rewrite not_at].
  rewrite Hom, Z.lor_spec, (testbit_mask_at (BYTE_OFFSET f)), orb_comm by done.
  by rewrite (feature_bit_at _ _ _ Hn).
Qed.

Lemma set_required_bit_spec {T} f (s : Features T) :
  flags_wf (flags s) ->
  flags_wf (flags (set_required_bit f s)) /\
  forall n, feature_bit (set_required_bit f s) n =
    (n =? EVEN_BIT f)%nat || (negb (n =? ODD_BIT f)%nat && feature_bit s n).
Proof.
  intros Hwf. destruct (feature_position f) as (e & He & Ho & H8 & _).
  destruct (masks_of f e He Ho) as [Hrm Hom]. unfold set_required_bit.
  destruct (grow_to_spec (BYTE_OFFSET f) s Hwf) as (Hwf1 & Hl1 & Hb1).
  destruct (update_byte_spec (fun b => Z.lor b (REQUIRED_MASK f)) (BYTE_OFFSET f) _ Hwf1)
    as (Hwf2 & Hl2 & Hn2 & Hb2); [|done|].
  { intros b Hb. rewrite Hrm. auto with ldk lia. }
  rewrite <- Hl2 in Hl1.
  destruct (update_byte_spec (fun b => Z.land b (not_u8 (OPTIONAL_MASK f))) (BYTE_OFFSET f) _ Hwf2)
    as (Hwf3 & _ & _ & Hb3); [|done|].
  { intros b Hb. rewrite Hom. apply fits_land; [lia|done|]. apply not_u8_nonneg.
    apply fits_mask. lia. }
  split; [done|]. intros n. rewrite Hb3, Hb2, <- Hb1.
  assert (ODD_BIT f = 8 * BYTE_OFFSET f + S e)%nat as -> by lia. rewrite He.
  case_decide as Hn; [|by rewrite !not_at by (done || lia)].
  rewrite Hn2, Hrm, Hom, Z.land_spec, Z.lor_spec, testbit_not_u8 by auto with ldk.
  rewrite !(testbit_mask_at (BYTE_OFFSET f)) by (done || lia).
  rewrite (feature_bit_at _ _ _ Hn).
  destruct (Nat.eqb_spec n (8 * BYTE_OFFSET f + e)), (Nat.eqb_spec n (8 * BYTE_OFFSET f + S e));
    try lia; simpl; rewrite ?orb_true_r, ?orb_false_r, ?andb_true_r, ?andb_false_r; done.
Qed.

Lemma nth_vec_resize l n j :
  nth j (vec_resize l n 0) 0 = if decide (j < n)%nat then nth j l 0 else 0.
Proof.
  case_decide as Hj.
  - destruct (decide (length l <= n)%nat) as [|Hn]; [by apply nth_resize|].
    unfold vec_resize. replace (n - length l)%nat with 0%nat by lia.
    rewrite app_nil_r, !nth_lookup, lookup_take_lt by done. done.
  - apply nth_overflow. rewrite length_vec_resize. lia.
Qed.

Lemma rposition_spec l :
  match rposition_nonzero l with
  | Some i => (i < length l)%nat /\ nth i l 0 <> 0 /\ forall j, (i < j)%nat -> nth j l 0 = 0
  | None => forall j, nth j l 0 = 0
  end.
Proof.
  induction l as [|b l IH]; simpl; [by intros []|].
  destruct (rposition_nonzero l) as [i|].
  - destruct IH as (? & ? & Hz). split_and!; [lia|done|]. intros [|j] Hj; [lia|]. apply Hz. lia.
  - destruct (Z.eqb_spec b 0) as [->|]; [intros [|j]; auto|].
    split_and!; [lia|done|]. intros [|j] Hj; [lia|auto].
Qed.

Lemma trim_bits {T} (s : Features T) :
  flags_wf (flags s) ->
  let size := match rposition_nonzero (deref (flags s)) with
              | Some offset => (offset + 1)%nat | None => 0%nat end in
  let s' := mkFeatures (T := T) (flags_resize (flags s) size 0) in
  flags_wf (flags s') /\ (forall n, feature_bit s' n = feature_bit s n) /\
  last (le_flags s') <> Some 0.
Proof.
  intros Hwf size s'. pose proof (rposition_spec (deref (flags s))) as Hr.
  split_and!; [apply wf_resize; [unfold fits; lia|done]| |].
  - intros n. unfold feature_bit, bytes_bit. simpl.
    rewrite deref_resize, nth_vec_resize by done. case_decide as Hn; [done|].
    f_equal. symmetry. subst size.
    destruct (rposition_nonzero _) as [i|]; [apply Hr; lia|apply Hr].
  - unfold le_flags. simpl. rewrite deref_resize by done. rewrite last_lookup, length_vec_resize.
    subst size. destruct (rposition_nonzero _) as [i|]; [|done].
    destruct Hr as (Hi & Hnz & _). intros Hl. apply Hnz.
    replace (pred (i + 1)) with i in Hl by lia.
    pose proof (nth_vec_resize (deref (flags s)) (i + 1) i) as Hv.
    rewrite nth_lookup, Hl in Hv. simpl in Hv. rewrite decide_True in Hv by lia. done.
Qed.

Lemma clear_bits_spec {T} f (s : Features T) :
  flags_wf (flags s) ->
  flags_wf (flags (clear_bits f s)) /\
  (forall n, feature_bit (clear_bits f s) n =
     negb (n =? EVEN_BIT f)%nat && negb (n =? ODD_BIT f)%nat && feature_bit s n) /\
  last (le_flags (clear_bits f s)) <> Some 0.
Proof.
  intros Hwf. destruct (feature_position f) as (e & He & Ho & H8 & _).
  destruct (masks_of f e He Ho) as [Hrm Hom]. unfold clear_bits, flags_len.
  assert (ODD_BIT f = 8 * BYTE_OFFSET f + S e)%nat as Ho' by lia.
  case_decide as Hlt.
  - destruct (update_byte_spec (fun b => Z.land b (not_u8 (REQUIRED_MASK f))) (BYTE_OFFSET f) s Hwf)
      as (Hwf2 & Hl2 & Hn2 & Hb2); [|done|].
    { intros b Hb. rewrite Hrm. apply fits_land; [lia|done|].
      apply not_u8_nonneg, fits_mask. lia. }
    destruct (update_byte_spec (fun b => Z.land b (not_u8 (OPTIONAL_MASK f))) (BYTE_OFFSET f) _ Hwf2)
      as (Hwf3 & _ & _ & Hb3); [|rewrite Hl2; done|].
    { intros b Hb. rewrite Hom. apply fits_land; [lia|done|].
      apply not_u8_nonneg, fits_mask. lia. }
    destruct (trim_bits _ Hwf3) as (Hwf4 & Hb4 & Hlast). split_and!; [done| |done].
    intros n. rewrite Hb4, Hb3, Hb2, He, Ho'.
    case_decide as Hn; [|by rewrite !not_at by (done || lia)].
    rewrite Hn2, Hrm, Hom, !Z.land_spec, !testbit_not_u8 by auto with ldk.
    rewrite !(testbit_mask_at (BYTE_OFFSET f)), (feature_bit_at _ _ _ Hn) by (done || lia).
    btauto.
  - destruct (trim_bits _ Hwf) as (Hwf4 & Hb4 & Hlast). split_and!; [done| |done].
    intros n. rewrite Hb4, He, Ho'.
    destruct (decide (BYTE_OFFSET f = n / 8)%nat) as [Hn|Hn]; [|by rewrite !not_at by (done || lia)].
    unfold feature_bit. rewrite bytes_bit_beyond by lia. by rewrite andb_false_r.
Qed.

(** A byte masked with a set of bits is nonzero iff one of them is set. *)
Lemma land_nonzero b m : fits 8 b ->
  negb (Z.land b m =? 0) =
  existsb (fun k => Z.testbit b (Z.of_nat k) && Z.testbit m (Z.of_nat k)) (seq 0 8).
Proof.
  intros Hb. apply eq_bool_prop_intro.
  rewrite !Is_true_true, negb_true_iff, Z.eqb_neq, existsb_exists. split.
  - intros Hne. assert (exists k, (k < 8)%nat /\ Z.testbit (Z.land b m) (Z.of_nat k) = true)
      as (k & Hk & Ht).
    { destruct (decide (0 <= m)) as [Hm|Hm]; [apply byte_nonzero; [by apply fits_land|done]|].
      apply byte_nonzero; [|done]. apply fits_bits in Hb as [Hb0 Hb]; [|lia].
      apply fits_bits; [lia|]. split; [apply Z.land_nonneg; by left|].
      intros j Hj. rewrite Z.land_spec, Hb; done. }
    exists k. rewrite Z.land_spec in Ht. split; [apply in_seq; lia|done].
  - intros (k & _ & Ht) Heq. rewrite <- Z.land_spec, Heq, Z.bits_0 in Ht. done.
Qed.

Lemma nth_fits l i : Forall (fits 8) l -> fits 8 (nth i l 0).
Proof.
  intros Hl. destruct (decide (i < length l)%nat) as [Hi|Hi].
  - rewrite List.Forall_forall in Hl. apply Hl. by apply nth_In.
  - rewrite nth_overflow by lia. unfold fits. lia.
Qed.

Lemma getters_spec {T} f (s : Features T) :
  flags_wf (flags s) ->
  requires_feature f (le_flags s) = feature_bit s (EVEN_BIT f) /\
  supports_feature f (le_flags s) = feature_bit s (EVEN_BIT f) || feature_bit s (ODD_BIT f).
Proof.
  intros Hwf. destruct (feature_position f) as (e & He & Ho & H8 & _).
  destruct (masks_of f e He Ho) as [Hrm Hom].
  assert (BYTE_OFFSET f = EVEN_BIT f / 8 /\ e = EVEN_BIT f mod 8)%nat as [Hi Hk]
    by (apply bit_position; [lia|done]).
  assert (BYTE_OFFSET f = ODD_BIT f / 8 /\ S e = ODD_BIT f mod 8)%nat as [Hi' Hk']
    by (apply bit_position; lia).
  rewrite (feature_bit_at _ _ _ Hi), (feature_bit_at _ _ _ Hi'), <- Hk, <- Hk'.
  unfold requires_feature, supports_feature, le_flags.
  assert (fits 8 (nth (BYTE_OFFSET f) (deref (flags s)) 0)) as Hfit
    by (apply nth_fits; auto with ldk).
  unfold byte_at. rewrite !land_nonzero by done.
  destruct (Nat.ltb_spec (BYTE_OFFSET f) (length (deref (flags s)))) as [_|Hlt];
    [|rewrite nth_overflow, !Z.bits_0 by done; done].
  rewrite Hrm, Hom. generalize (nth (BYTE_OFFSET f) (deref (flags s)) 0) as b. intros b.
  cbn -[Z.testbit Z.shiftl Z.of_nat]. rewrite !Z.lor_spec, !testbit_mask.
  clear - H8. do 7 (destruct e as [|e]; [cbn -[Z.testbit]; split; btauto|]). lia.
Qed.

(** ** Whole-set operations *)

Lemma length_or_zip l r : length (or_zip l r) = length l.
Proof. revert r. induction l as [|b l IH]; intros [|c r]; simpl; auto. Qed.

Lemma nth_or_zip l r i : (length r <= length l)%nat ->
  nth i (or_zip l r) 0 = Z.lor (nth i l 0) (nth i r 0).
Proof.
  revert r i. induction l as [|b l IH]; intros [|c r] i Hl; simpl in *; try lia.
  - by destruct i.
  - destruct i; by rewrite Z.lor_0_r.
  - destruct i; [done|]. apply IH. lia.
Qed.

Lemma Forall_or_zip l r :
  Forall (fits 8) l -> Forall (fits 8) r -> Forall (fits 8) (or_zip l r).
Proof.
  intros Hl. revert r. induction Hl as [|b l Hb Hl IH]; intros [|c r] Hr; simpl; auto.
  inversion Hr; subst. constructor; [apply fits_lor; auto; lia|auto].
Qed.

Lemma bitor_assign_spec {T} (s r : Features T) :
  flags_wf (flags s) -> flags_wf (flags r) ->
  flags_wf (flags (bitor_assign s r)) /\
  length (le_flags (bitor_assign s r)) = Nat.max (length (le_flags s)) (length (le_flags r)) /\
  forall n, feature_bit (bitor_assign s r) n = feature_bit s n || feature_bit r n.
Proof.
  intros Hs Hr. unfold bitor_assign, le_flags, feature_bit, flags_len. simpl.
  set (n := Nat.max _ _).
  assert (flags_wf (flags_resize (flags s) n 0)) as Hwf by (apply wf_resize; [unfold fits; lia|done]).
  assert (forall l, length (or_zip l (deref (flags r))) = length l) as Hlen
    by (intros; apply length_or_zip).
  rewrite deref_deref_mut, deref_resize by done. split_and!.
  - apply wf_deref_mut; [done|done|]. intros l Hl. apply Forall_or_zip; auto with ldk.
  - rewrite Hlen, length_vec_resize. done.
  - intros k. unfold bytes_bit. rewrite nth_or_zip by (rewrite length_vec_resize; lia).
    rewrite nth_resize by lia. apply Z.lor_spec.
Qed.

(** [eq] compares byte positions with zero padding. *)
Lemma eq_loop_nil us : eq_loop [] us = true <-> forall i, nth i us 0 = 0.
Proof.
  induction us as [|b us IH]; simpl; [split; [by intros _ []|done]|].
  simpl in IH. destruct (Z.eqb_spec b 0) as [->|Hb].
  - rewrite IH. split; [intros H [|i]; auto|intros H i; apply (H (S i))].
  - split; [done|]. intros H. by specialize (H 0%nat).
Qed.

Lemma eq_loop_spec o us : eq_loop o us = true <-> forall i, nth i o 0 = nth i us 0.
Proof.
  revert us. induction o as [|x o IH]; intros us.
  - rewrite eq_loop_nil. split; intros H i; [|specialize (H i); simpl in H];
      destruct i; simpl in *; auto.
  - destruct us as [|y us]; simpl.
    + destruct (Z.eqb_spec x 0) as [->|Hx].
      * rewrite IH. split; [intros H [|i]; [done|rewrite H; by destruct i]|].
        intros H i. specialize (H (S i)). simpl in H. rewrite H. by destruct i.
      * split; [done|]. intros H. by specialize (H 0%nat).
    + destruct (Z.eqb_spec x y) as [->|Hx].
      * rewrite IH. split; [intros H [|i]; auto|intros H i; apply (H (S i))].
      * split; [done|]. intros H. by specialize (H 0%nat).
Qed.

Lemma bytes_ext l r : Forall (fits 8) l -> Forall (fits 8) r ->
  (forall n, bytes_bit l n = bytes_bit r n) <-> forall i, nth i l 0 = nth i r 0.
Proof.
  intros Hl Hr. split.
  - intros H i. apply Z.bits_inj'. intros m Hm.
    destruct (Z.le_gt_cases 8 m) as [Hm8|Hm8].
    + pose proof (nth_fits l i Hl) as [_ Hli]%fits_bits; [|lia].
      pose proof (nth_fits r i Hr) as [_ Hri]%fits_bits; [|lia].
      rewrite Hli, Hri; done.
    + specialize (H (8 * i + Z.to_nat m)%nat). unfold bytes_bit in H.
      assert (i = (8 * i + Z.to_nat m) / 8 /\ Z.to_nat m = (8 * i + Z.to_nat m) mod 8)%nat
        as [Hq Hk] by (apply bit_position; lia).
      rewrite <- Hq, <- Hk, !Z2Nat.id in H by lia. done.
  - intros H n. unfold bytes_bit. by rewrite H.
Qed.

Lemma features_eq_spec {T} (s t : Features T) :
  flags_wf (flags s) -> flags_wf (flags t) ->
  features_eq s t = true <-> forall n, feature_bit s n = feature_bit t n.
Proof.
  intros Hs Ht. unfold features_eq, feature_bit. rewrite eq_loop_spec, bytes_ext by auto with ldk.
  split; intros H i; by rewrite H.
Qed.

Lemma trim_zeros_spec fuel l : (length l <= fuel)%nat ->
  last (trim_zeros fuel l) <> Some 0 /\ forall i, nth i (trim_zeros fuel l) 0 = nth i l 0.
Proof.
  revert l. induction fuel as [|fuel IH]; intros l Hl; simpl.
  - destruct l; [done|simpl in Hl; lia].
  - destruct l as [|x l0] using rev_ind; [done|]. clear IHl0.
    rewrite last_snoc, length_app, Nat.add_sub, take_app_length. rewrite length_app in Hl. simpl in Hl.
    destruct x as [| |]; rewrite ?last_snoc; [|done|done].
    destruct (IH l0) as [H1 H2]; [lia|]. split; [done|]. intros i. rewrite H2.
    destruct (decide (i < length l0)%nat); [by rewrite app_nth1|].
    rewrite app_nth2, nth_overflow by lia. by destruct (i - length l0)%nat as [|[|]].
Qed.

(** A byte list without a trailing zero is determined by its padded bytes. *)
Lemma canonical_bytes l r :
  last l <> Some 0 -> last r <> Some 0 -> (forall i, nth i l 0 = nth i r 0) -> l = r.
Proof.
  assert (forall l r, last l <> Some 0 -> (forall i, nth i l 0 = nth i r 0) ->
            (length l <= length r)%nat) as Hlen.
  { intros l' r' Hl H. destruct l' as [|x l'] using rev_ind; [simpl; lia|]. clear IHl'.
    rewrite last_snoc in Hl. rewrite length_app. simpl.
    destruct (decide (length l' < length r')%nat); [lia|].
    specialize (H (length l')). rewrite app_nth2, Nat.sub_diag, (nth_overflow r') in H by lia.
    simpl in H. congruence. }
  intros Hl Hr H. apply list_eq. intros i.
  assert (length l = length r) as Hll by (apply Nat.le_antisymm; apply Hlen; auto).
  destruct (decide (i < length l)%nat) as [Hi|Hi].
  - destruct (lookup_lt_is_Some_2 l i Hi) as [x Hx].
    destruct (lookup_lt_is_Some_2 r i) as [y Hy]; [lia|].
    specialize (H i). rewrite !nth_lookup, Hx, Hy in H. simpl in H. congruence.
  - rewrite !lookup_ge_None_2 by lia. done.
Qed.

(** ** Unknown bits: the chunked routine *)

Lemma from_le_bit l m : Forall (fits 8) l -> Z.testbit (from_le l) (Z.of_nat m) = bytes_bit l m.
Proof.
  intros Hl. revert m. induction Hl as [|b l Hb Hl IH]; intros m; cbn [from_le].
  - by rewrite bytes_bit_nil, Z.bits_0.
  - unfold fits in Hb. unfold bytes_bit.
    destruct (decide (m < 8)%nat) as [Hm|Hm].
    + rewrite Nat.div_small, Nat.mod_small by done. cbn [nth].
      rewrite <- (Z.mod_pow2_bits_low _ 8) by lia. f_equal. change (2 ^ 8) with 256. dlia.
    + assert (m = m - 8 + 1 * 8)%nat as Hm' by lia. rewrite Hm' at 2 3.
      rewrite Nat.div_add, Nat.Div0.mod_add, Nat.add_1_r by lia. cbn [nth].
      change (nth ((m - 8) / 8) l 0) with (nth ((m - 8) / 8) l 0).
      specialize (IH (m - 8)%nat). unfold bytes_bit in IH. rewrite <- IH.
      replace (Z.of_nat m) with (Z.of_nat (m - 8) + 8) by lia.
      rewrite <- Z.div_pow2_bits by lia. f_equal. change (2 ^ 8) with 256. dlia.
Qed.

Lemma nth_pad8 chunk i : (length chunk <= 8)%nat -> nth i (pad8 chunk) 0 = nth i chunk 0.
Proof.
  intros Hl. unfold pad8, copy_prefix. rewrite drop_replicate.
  destruct (decide (i < length chunk)%nat); [by rewrite app_nth1|].
  rewrite app_nth2, (nth_overflow chunk), nth_lookup by lia.
  destruct (replicate _ _ !! _) as [x|] eqn:Hx; [|done].
  by apply lookup_replicate in Hx as [-> _].
Qed.

Lemma Forall_pad8 chunk : Forall (fits 8) chunk -> Forall (fits 8) (pad8 chunk).
Proof.
  intros H. apply Forall_app. split; [done|]. apply Forall_drop, Forall_replicate.
  unfold fits; lia.
Qed.

Lemma chunks8_lookup fuel l j : (length l <= fuel)%nat ->
  chunks8 fuel l !! j =
  if decide (8 * j < length l)%nat then Some (take 8 (drop (8 * j) l)) else None.
Proof.
  revert l j. induction fuel as [|fuel IH]; intros l j Hl; cbn [chunks8].
  - destruct l; [|simpl in Hl; lia]. rewrite decide_False by (simpl; lia). done.
  - destruct l as [|b l]; [rewrite decide_False by (simpl; lia); done|].
    destruct j as [|j]; [by rewrite decide_True by (simpl; lia)|].
    cbn [lookup list_lookup]. rewrite IH by (rewrite length_drop; simpl in *; lia).
    rewrite drop_drop, length_drop. replace (8 + 8 * j)%nat with (8 * S j)%nat by lia.
    destruct (decide (8 * S j < length (b :: l))%nat) as [Hj|Hj].
    + by rewrite decide_True by (simpl in *; lia).
    + by rewrite decide_False by (simpl in *; lia).
Qed.

Lemma chunk_bit l j m : (m < 64)%nat -> Forall (fits 8) l ->
  Z.testbit (from_le (pad8 (take 8 (drop (8 * j) l)))) (Z.of_nat m) = bytes_bit l (64 * j + m).
Proof.
  intros Hm Hl. rewrite from_le_bit by (apply Forall_pad8, Forall_take, Forall_drop; done).
  unfold bytes_bit.
  assert (m / 8 < 8)%nat as Hq by (apply Nat.Div0.div_lt_upper_bound; lia).
  rewrite nth_pad8 by (rewrite length_take; lia).
  rewrite nth_lookup, lookup_take_lt, lookup_drop, <- nth_lookup by done.
  replace (64 * j + m)%nat with (m + (8 * j) * 8)%nat by lia.
  rewrite Nat.div_add, Nat.Div0.mod_add by lia. do 2 f_equal. lia.
Qed.

Lemma REQ_MASK_bit m : (m < 64)%nat -> Z.testbit REQ_MASK (Z.of_nat m) = Nat.even m.
Proof.
  intros Hm. assert (forallb (fun m => Bool.eqb (Z.testbit REQ_MASK (Z.of_nat m)) (Nat.even m))
                       (seq 0 64) = true) as H by (vm_compute; done).
  rewrite forallb_forall in H. apply eqb_prop, H, in_seq. lia.
Qed.

Lemma chunk_has_unknown k c : 0 <= c < 2 ^ 64 ->
  negb (Z.land c (Z.land REQ_MASK (not_u64 k)) =? 0) = true <->
  exists m, (m < 64)%nat /\ Nat.even m = true /\
            Z.testbit c (Z.of_nat m) = true /\ Z.testbit k (Z.of_nat m) = false.
Proof.
  intros Hc. rewrite negb_true_iff, Z.eqb_neq. split.
  - intros Hne. set (x := Z.land _ _) in *.
    apply fits_bits in Hc as [Hc0 Hc]; [|lia].
    assert (0 <= x) as Hx by (apply Z.land_nonneg; by left).
    assert (Z.testbit x (Z.log2 x) = true) as Ht by (apply Z.bit_log2; lia).
    pose proof (Z.log2_nonneg x). unfold x at 1 in Ht. rewrite !Z.land_spec in Ht.
    apply andb_prop in Ht as [H1 [H2 H3]%andb_prop].
    assert (Z.log2 x < 64) as Hlt.
    { destruct (Z.le_gt_cases 64 (Z.log2 x)) as [Hle|]; [|done]. rewrite Hc in H1; done. }
    exists (Z.to_nat (Z.log2 x)). rewrite Z2Nat.id by done.
    split_and!; [lia| |done|].
    + rewrite <- REQ_MASK_bit, Z2Nat.id by lia. done.
    + unfold not_u64 in H3. change (umax 64) with (Z.ones 64) in H3.
      rewrite Z.lxor_spec, Z.ones_spec_low, xorb_true_r, negb_true_iff in H3 by lia. done.
  - intros (m & Hm & He & H1 & H2) Heq.
    assert (Z.testbit (Z.land c (Z.land REQ_MASK (not_u64 k))) (Z.of_nat m) = true) as Ht.
    { rewrite !Z.land_spec, H1, REQ_MASK_bit, He by done. simpl. unfold not_u64.
      change (umax 64) with (Z.ones 64). rewrite Z.lxor_spec, Z.ones_spec_low, H2 by lia. done. }
    rewrite Heq, Z.bits_0 in Ht. done.
Qed.

Lemma unknown_chunks_spec cs ks :
  unknown_chunks cs ks = true <->
  exists j c, cs !! j = Some c /\
    negb (Z.land (from_le (pad8 c))
            (Z.land REQ_MASK (not_u64 (from_le (pad8 (default [] (ks !! j))))))
          =? 0) = true.
Proof.
  revert ks. induction cs as [|c cs IH]; intros ks; cbn [unknown_chunks].
  { split; [done|]. intros (j & c & Hj & _). done. }
  assert (match ks with k :: _ => k | [] => [] end = default [] (ks !! 0%nat)) as -> by (by destruct ks).
  destruct (negb _) eqn:Hneg.
  - split; [|done]. intros _. exists 0%nat, c. done.
  - rewrite IH. split.
    + intros (j & c' & Hj & H). exists (S j), c'. split; [done|].
      by destruct ks.
    + intros ([|j] & c' & Hj & H); simpl in Hj; [simplify_eq; congruence|].
      exists j, c'. split; [done|]. by destruct ks.
Qed.

Lemma from_le_range c : (length c <= 8)%nat -> Forall (fits 8) c ->
  0 <= from_le (pad8 c) < 2 ^ 64.
Proof.
  intros Hlen Hc.
  assert (forall l, Forall (fits 8) l -> 0 <= from_le l < 2 ^ (8 * Z.of_nat (length l))) as Hgen.
  { induction 1 as [|b l Hb Hl IH]; cbn [from_le length]; [done|].
    unfold fits in Hb. replace (8 * Z.of_nat (S (length l))) with (8 + 8 * Z.of_nat (length l)) by lia.
    rewrite Z.pow_add_r by lia. change (2 ^ 8) with 256 in *. lia. }
  specialize (Hgen (pad8 c) (Forall_pad8 c Hc)).
  unfold pad8, copy_prefix in *. rewrite length_app, length_drop, length_replicate in Hgen.
  replace (length c + (8 - length c))%nat with 8%nat in Hgen by lia. exact Hgen.
Qed.

Lemma KNOWN_FEATURE_MASK_fits c : Forall (fits 8) (KNOWN_FEATURE_MASK c).
Proof.
  apply List.Forall_forall. intros x Hx.
  assert (forallb (fun x => (0 <=? x) && (x <? 256)) (KNOWN_FEATURE_MASK c) = true) as H
    by (destruct c; vm_compute; done).
  rewrite forallb_forall in H. specialize (H x Hx). unfold fits. bool_to_prop. lia.
Qed.

Lemma requires_unknown_bits_spec {T} (s : Features T) :
  flags_wf (flags s) ->
  requires_unknown_bits s = true <->
  exists n, Nat.even n = true /\ feature_bit s n = true /\ known_bit T n = false.
Proof.
  intros Hwf. unfold requires_unknown_bits. pose proof (wf_bytes _ Hwf) as Hb.
  pose proof (KNOWN_FEATURE_MASK_fits T) as Hk.
  set (l := deref (flags s)) in *. set (known := KNOWN_FEATURE_MASK T) in *.
  assert (forall j, default [] (chunks8 (length known) known !! j) = take 8 (drop (8 * j) known))
    as Hkj.
  { intros j. rewrite chunks8_lookup by done. case_decide; [done|].
    rewrite drop_ge by lia. by rewrite take_nil. }
  rewrite unknown_chunks_spec. split.
  - intros (j & c & Hj & Hc). rewrite chunks8_lookup in Hj by done. case_decide as Hj8; [|done].
    simplify_eq. rewrite Hkj in Hc. apply chunk_has_unknown in Hc as (m & Hm & He & H1 & H2).
    2: { apply from_le_range; [rewrite length_take; lia|by apply Forall_take, Forall_drop]. }
    rewrite chunk_bit in H1, H2 by done. exists (64 * j + m)%nat. split_and!; [|done|done].
    rewrite Nat.even_add, He, Nat.even_mul. done.
  - intros (n & He & H1 & H2). unfold feature_bit, known_bit in H1, H2. fold l in H1. fold known in H2.
    assert (n = 64 * (n / 64) + n mod 64)%nat as Hn by apply Nat.div_mod_eq.
    assert (n mod 64 < 64)%nat as Hm by (apply Nat.mod_upper_bound; lia).
    assert (n / 8 < length l)%nat as Hlt.
    { destruct (decide (n / 8 < length l)%nat); [done|].
      rewrite bytes_bit_beyond in H1 by lia. done. }
    assert (n / 64 = n / 8 / 8)%nat as Hd by (rewrite Nat.Div0.div_div; done).
    pose proof (Nat.div_mod_eq (n / 8) 8) as Hd8.
    exists (n / 64)%nat, (take 8 (drop (8 * (n / 64)) l)). split.
    + rewrite chunks8_lookup, decide_True by lia. done.
    + rewrite Hkj. apply chunk_has_unknown.
      { apply from_le_range; [rewrite length_take; lia|by apply Forall_take, Forall_drop]. }
      exists (n mod 64)%nat. rewrite !chunk_bit, <- Hn by done. split_and!; [done| |done|done].
      rewrite Hn, Nat.even_add, Nat.even_mul in He. by destruct (Nat.even (n mod 64)).
Qed.

(** ** Unknown bits relative to another set *)

Lemma ANY_REQUIRED_bit m : (m < 8)%nat ->
  Z.testbit ANY_REQUIRED_FEATURES_MASK (Z.of_nat m) = Nat.even m.
Proof. intros Hm. do 8 (destruct m as [|m]; [done|]). lia. Qed.

Lemma ANY_OPTIONAL_bit m : (m < 8)%nat ->
  Z.testbit ANY_OPTIONAL_FEATURES_MASK (Z.of_nat m) = Nat.odd m.
Proof. intros Hm. do 8 (destruct m as [|m]; [done|]). lia. Qed.

Lemma unset_mask_even {T} (o : Features T) i m : (m < 8)%nat -> Nat.even m = true ->
  flags_wf (flags o) ->
  Z.testbit (unset_features_mask_at_position o i) (Z.of_nat m) =
  negb (feature_bit o (8 * i + m) || feature_bit o (S (8 * i + m))).
Proof.
  intros Hm He Hwf.
  assert (i = (8 * i + m) / 8 /\ m = (8 * i + m) mod 8)%nat as [Hi Hk] by (apply bit_position; lia).
  assert (S m < 8)%nat as Hm'.
  { destruct (decide (m = 7)%nat) as [->|]; [done|lia]. }
  assert (i = S (8 * i + m) / 8 /\ S m = S (8 * i + m) mod 8)%nat as [Hi' Hk']
    by (apply bit_position; lia).
  rewrite (feature_bit_at o i _ Hi), (feature_bit_at o i _ Hi'), <- Hk, <- Hk'.
  unfold unset_features_mask_at_position, byte_at, le_flags.
  destruct (Nat.ltb_spec i (length (deref (flags o)))) as [Hlt|Hge].
  - rewrite testbit_not_u8, !Z.lor_spec, !Z.land_spec, ANY_REQUIRED_bit, ANY_OPTIONAL_bit by done.
    rewrite <- Nat.negb_even, He, Z.shiftr_spec by lia.
    cbn [negb]. rewrite andb_false_r, orb_false_r, andb_true_r, Nat2Z.inj_succ. done.
  - rewrite nth_overflow, !Z.bits_0, testbit_ones8 by done. done.
Qed.

Lemma even_position m : (m < 8)%nat -> Nat.even m = true -> In (Z.of_nat m) [0; 2; 4; 6].
Proof. intros Hm He. do 8 (destruct m as [|m]; [try done; simpl; tauto|]). lia. Qed.

Lemma even_position_inv b : In b [0; 2; 4; 6] ->
  exists m, b = Z.of_nat m /\ (m < 8)%nat /\ Nat.even m = true.
Proof.
  intros [<-|[<-|[<-|[<-|[]]]]]; [exists 0%nat|exists 2%nat|exists 4%nat|exists 6%nat];
    repeat split; lia.
Qed.

(** The even bits of a byte that the other set neither requires nor supports. *)
Lemma unknown_from_byte {T} (s o : Features T) i byte m :
  flags_wf (flags o) -> deref (flags s) !! i = Some byte -> (m < 8)%nat -> Nat.even m = true ->
  Z.testbit (Z.land byte (unset_features_mask_at_position o i)) (Z.of_nat m) =
  feature_bit s (8 * i + m) && negb (feature_bit o (8 * i + m) || feature_bit o (S (8 * i + m))).
Proof.
  intros Ho Hi Hm He. rewrite Z.land_spec, unset_mask_even by done. f_equal.
  assert (i = (8 * i + m) / 8 /\ m = (8 * i + m) mod 8)%nat as [Hq Hk] by (apply bit_position; lia).
  rewrite (feature_bit_at s i _ Hq), <- Hk. unfold le_flags. by rewrite nth_lookup, Hi.
Qed.

Lemma even_mod8 n : Nat.even (n mod 8) = Nat.even n.
Proof.
  rewrite (Nat.div_mod_eq n 8) at 2. rewrite Nat.even_add, Nat.even_mul. by destruct (Nat.even (n mod 8)).
Qed.

(** A set bit lies in a stored byte. *)
Lemma feature_bit_byte {T} (s : Features T) n : feature_bit s n = true ->
  exists byte, deref (flags s) !! (n / 8)%nat = Some byte.
Proof.
  intros Hn. apply lookup_lt_is_Some_2.
  destruct (decide (n / 8 < length (deref (flags s)))%nat); [done|].
  unfold feature_bit in Hn. rewrite bytes_bit_beyond in Hn by lia. done.
Qed.

Lemma requires_unknown_bits_from_spec {T} (s o : Features T) :
  flags_wf (flags s) -> flags_wf (flags o) ->
  requires_unknown_bits_from s o = true <->
  exists n, Nat.even n = true /\ feature_bit s n = true /\
            feature_bit o n = false /\ feature_bit o (S n) = false.
Proof.
  intros Hs Ho. unfold requires_unknown_bits_from. rewrite existsb_exists. split.
  - intros ([i byte] & Hin & Hnz). apply list_elem_of_In, elem_of_lookup_imap in Hin as (i' & x & [= <- <-] & Hi).
    rewrite (Z.land_comm ANY_REQUIRED_FEATURES_MASK), Z.land_assoc, land_nonzero in Hnz.
    2:{ apply fits_land; [lia| |]. { by apply (Forall_lookup_1 _ _ i byte (wf_bytes _ Hs)). }
        unfold unset_features_mask_at_position. case_match; [|lia]. apply not_u8_nonneg.
        assert (0 <= byte_at (deref (flags o)) i) by (apply (nth_fits _ i (wf_bytes _ Ho))).
        rewrite !Z.lor_nonneg, !Z.land_nonneg.
        unfold ANY_REQUIRED_FEATURES_MASK, ANY_OPTIONAL_FEATURES_MASK. lia. }
    apply existsb_exists in Hnz as (m & Hm%in_seq & [Ht Hr]%andb_prop).
    rewrite ANY_REQUIRED_bit in Hr by lia. rewrite (unknown_from_byte s) in Ht by (done || lia).
    apply andb_prop in Ht as [Ht1 Ht2]. apply negb_true_iff, orb_false_iff in Ht2 as [Ht2 Ht3].
    exists (8 * i + m)%nat. split_and!; [|done..]. by rewrite Nat.even_add, Hr, Nat.even_mul.
  - intros (n & He & Hn & Ho1 & Ho2). destruct (feature_bit_byte s n Hn) as [byte Hi].
    exists ((n / 8)%nat, byte). split.
    + apply list_elem_of_In, elem_of_lookup_imap. by exists (n / 8)%nat, byte.
    + apply negb_true_iff, Z.eqb_neq. intros Hz.
      pose proof (unknown_from_byte s o _ byte (n mod 8) Ho Hi (mod8_lt n)) as Ht.
      rewrite even_mod8, <- Nat.div_mod_eq, Hn, Ho1, Ho2 in Ht. specialize (Ht He).
      rewrite (Z.land_comm ANY_REQUIRED_FEATURES_MASK), Z.land_assoc in Hz.
      apply (f_equal (fun z => Z.testbit z (Z.of_nat (n mod 8)))) in Hz.
      rewrite Z.land_spec, Ht, ANY_REQUIRED_bit, even_mod8, He, Z.bits_0 in Hz by apply mod8_lt. done.
Qed.

Lemma required_unknown_bits_from_In {T} (s o : Features T) b :
  flags_wf (flags s) -> flags_wf (flags o) ->
  In b (required_unknown_bits_from s o) <->
  exists n, b = Z.of_nat n /\ Nat.even n = true /\ feature_bit s n = true /\
            feature_bit o n = false /\ feature_bit o (S n) = false.
Proof.
  intros Hs Ho. unfold required_unknown_bits_from. rewrite in_concat.
  setoid_rewrite <- list_elem_of_In at 1. setoid_rewrite elem_of_lookup_imap.
  assert (forall x m, (Z.land (Z.shiftr x (Z.of_nat m)) 1 =? 1) = Z.testbit x (Z.of_nat m)) as Hbit.
  { intros x m. change 1 with (Z.ones 1) at 1. rewrite Z.land_ones, <- Z.bit0_mod, Z.shiftr_spec by lia.
    rewrite Z.add_0_l. by destruct (Z.testbit x (Z.of_nat m)). }
  split.
  - intros (l & (i & byte & Hl & Hi) & Hb). rewrite Hl in Hb.
    destruct (negb _); [|done]. apply in_map_iff in Hb as (bit & <- & Hf).
    apply filter_In in Hf as [Hin Hf].
    assert (exists m, bit = Z.of_nat m /\ (m < 8)%nat /\ Nat.even m = true) as (m & -> & Hm & He).
    { apply even_position_inv. done. }
    rewrite Hbit, (unknown_from_byte s) in Hf by done.
    apply andb_prop in Hf as [Hf1 Hf2]. apply negb_true_iff, orb_false_iff in Hf2 as [Hf2 Hf3].
    exists (8 * i + m)%nat. split_and!; [lia| |done|done|done].
    rewrite Nat.even_add, He, Nat.even_mul. done.
  - intros (n & -> & He & Hn & Ho1 & Ho2).
    pose proof (Nat.div_mod_eq n 8) as Hdm. pose proof (mod8_lt n) as H8.
    destruct (feature_bit_byte s n Hn) as [byte Hi].
    assert (Nat.even (n mod 8) = true) as He' by by rewrite even_mod8.
    assert (Z.testbit (Z.land byte (unset_features_mask_at_position o (n / 8))) (Z.of_nat (n mod 8)) = true)
      as Ht by (rewrite (unknown_from_byte s), <- Hdm, Hn, Ho1, Ho2 by done; done).
    eexists. split; [exists (n / 8)%nat, byte; split; [reflexivity|done]|].
    destruct (Z.eqb_spec (Z.land byte (unset_features_mask_at_position o (n / 8))) 0) as [Hz|_];
      [rewrite Hz, Z.bits_0 in Ht; done|]. simpl negb. cbn iota.
    apply in_map_iff. exists (Z.of_nat (n mod 8)). split; [lia|].
    apply filter_In. split.
    + by apply even_position.
    + by rewrite Hbit.
Qed.

(** ** Conversion between contexts *)

Definition context_mask (T C : context) (i : nat) : Z :=
  Z.land (byte_at (KNOWN_FEATURE_MASK T) i) (byte_at (KNOWN_FEATURE_MASK C) i).
Definition context_len (T C : context) : nat :=
  Nat.min (length (KNOWN_FEATURE_MASK T)) (length (KNOWN_FEATURE_MASK C)).

Lemma context_bytes_imap T C i l :
  context_bytes i T C l =
  imap (fun k b => ((i + k)%nat, Z.land b (context_mask T C (i + k))))
       (take (context_len T C - i) l).
Proof.
  unfold context_len, context_mask. revert i. induction l as [|b l IH]; intros i; cbn [context_bytes].
  { by rewrite take_nil. }
  rewrite IH.
  destruct (Nat.ltb_spec i (length (KNOWN_FEATURE_MASK T))),
           (Nat.ltb_spec i (length (KNOWN_FEATURE_MASK C))); cbn [andb].
  - replace (Nat.min _ _ - i)%nat with
      (S (Nat.min (length (KNOWN_FEATURE_MASK T)) (length (KNOWN_FEATURE_MASK C)) - S i)) by lia.
    cbn [take imap]. rewrite Nat.add_0_r, Z.land_assoc. f_equal.
    apply imap_ext. intros k x _. simpl. by rewrite Nat.add_succ_r.
  - replace (Nat.min _ _ - i)%nat with 0%nat by lia.
    by replace (Nat.min _ _ - S i)%nat with 0%nat by lia.
  - replace (Nat.min _ _ - i)%nat with 0%nat by lia.
    by replace (Nat.min _ _ - S i)%nat with 0%nat by lia.
  - replace (Nat.min _ _ - i)%nat with 0%nat by lia.
    by replace (Nat.min _ _ - S i)%nat with 0%nat by lia.
Qed.

(** Writing a run of consecutive bytes into a buffer. *)
Lemma foldl_writes (f : nat -> Z -> Z) vals start fl :
  flags_wf fl -> (forall k v, v ∈ vals -> fits 8 (f k v)) ->
  (start + length vals = length (deref fl))%nat ->
  let fl' := foldl (fun fl '(i, byte) => deref_mut (alter (fun _ => byte) i) fl) fl
                   (imap (fun k v => ((start + k)%nat, f (start + k)%nat v)) vals) in
  flags_wf fl' /\
  deref fl' = take start (deref fl) ++ imap (fun k v => f (start + k)%nat v) vals.
Proof.
  revert start fl. induction vals as [|v vals IH]; intros start fl Hwf Hf Hlen; cbn [imap foldl].
  { rewrite app_nil_r. simpl in Hlen. rewrite take_ge by lia. done. }
  rewrite Nat.add_0_r. set (g := alter (fun _ => f start v) start).
  assert (forall l, length (g l) = length l) as Hg by (intros; apply length_alter).
  assert (flags_wf (deref_mut g fl)) as Hwf'.
  { apply wf_deref_mut; [done|done|]. intros l Hl. apply Forall_alter; [done|].
    intros x Hx Hxf. apply Hf. left. }
  pose proof (deref_deref_mut g fl Hwf Hg) as Hd.
  destruct (IH (S start) (deref_mut g fl) Hwf') as [H1 H2].
  { intros k x Hx. apply Hf. by right. }
  { rewrite Hd, Hg. simpl in Hlen. lia. }
  rewrite (imap_ext _ (fun k v => ((S start + k)%nat, f (S start + k)%nat v)))
    by (intros; simpl; by rewrite Nat.add_succ_r).
  split; [done|]. rewrite H2, Hd. simpl in Hlen.
  rewrite (take_S_r _ _ (f start v)).
  - rewrite <- app_assoc. unfold g at 1. rewrite take_alter, decide_False by lia. simpl. do 2 f_equal.
    apply imap_ext. intros. simpl. by rewrite Nat.add_succ_r.
  - unfold g. rewrite list_lookup_alter, decide_True by done.
    destruct (lookup_lt_is_Some_2 (deref fl) start) as [y ->]; [lia|done].
Qed.

Lemma to_context_bytes {T} C (s : Features T) :
  flags_wf (flags s) ->
  flags_wf (flags (to_context_internal C s)) /\
  le_flags (to_context_internal C s) =
  imap (fun k b => Z.land b (context_mask T C k)) (take (context_len T C) (le_flags s)).
Proof.
  intros Hwf. unfold to_context_internal, le_flags. rewrite context_bytes_imap, Nat.sub_0_r, length_imap.
  set (vals := take _ _). simpl flags.
  assert (flags_wf (flags_resize flags_empty (length vals) 0)) as Hwf'
    by (apply wf_resize; [unfold fits; lia|apply wf_empty]).
  destruct (foldl_writes (fun k b => Z.land b (context_mask T C k)) vals 0
              (flags_resize flags_empty (length vals) 0) Hwf') as [H1 H2].
  - intros k v Hv. apply fits_land; [lia| |apply Z.land_nonneg; left].
    + eapply Forall_forall in Hv; [exact Hv|]. apply Forall_take. auto with ldk.
    + unfold byte_at. apply nth_fits, KNOWN_FEATURE_MASK_fits.
  - rewrite deref_resize, length_vec_resize by apply wf_empty. done.
  - split; [done|]. exact H2.
Qed.

Lemma nth_imap (f : nat -> Z -> Z) l i : (forall k, f k 0 = 0) -> nth i (imap f l) 0 = f i (nth i l 0).
Proof.
  intros Hf. rewrite !nth_lookup, list_lookup_imap. destruct (l !! i); simpl; by rewrite ?Hf.
Qed.

Lemma nth_take_min (l : list Z) n i :
  nth i (take n l) 0 = if decide (i < n)%nat then nth i l 0 else 0.
Proof.
  case_decide; rewrite !nth_lookup; [by rewrite lookup_take_lt|].
  by rewrite lookup_take_ge by lia.
Qed.

Lemma to_context_spec {T} C (s : Features T) n :
  flags_wf (flags s) ->
  feature_bit (to_context_internal C s) n = feature_bit s n && (known_bit T n && known_bit C n).
Proof.
  intros Hwf. destruct (to_context_bytes C s Hwf) as [_ Hb].
  unfold feature_bit, known_bit, bytes_bit. unfold le_flags in Hb. rewrite Hb.
  rewrite nth_imap by (intros; apply Z.land_0_l).
  rewrite Z.land_spec. unfold context_mask, byte_at. rewrite Z.land_spec.
  rewrite nth_take_min. case_decide as Hn; [done|].
  rewrite Z.bits_0. symmetry. unfold context_len in Hn.
  destruct (decide (length (KNOWN_FEATURE_MASK T) <= n / 8)%nat).
  - rewrite (nth_overflow (KNOWN_FEATURE_MASK T)), Z.bits_0, andb_false_l, andb_false_r by done. done.
  - rewrite (nth_overflow (KNOWN_FEATURE_MASK C)), Z.bits_0, !andb_false_r by lia. done.
Qed.

Lemma deref_mut_map g (fl : FeatureFlags) :
  flags_wf fl -> (forall b, fits 8 b -> fits 8 (g b)) ->
  flags_wf (deref_mut (map g) fl) /\ deref (deref_mut (map g) fl) = map g (deref fl).
Proof.
  intros Hwf Hg. assert (forall l : list Z, length (map g l) = length l) as Hl by (intros; apply length_map).
  split; [|by apply deref_deref_mut]. apply wf_deref_mut; [done|done|].
  intros l Hf. apply List.Forall_forall. intros x (y & <- & Hy)%in_map_iff.
  apply Hg. rewrite List.Forall_forall in Hf. by apply Hf.
Qed.

Lemma required_byte_bit b m : (m < 8)%nat -> fits 8 b ->
  Z.testbit (Z.land (Z.lor b (Z.shiftr (Z.land b ANY_OPTIONAL_FEATURES_MASK) 1))
                    ANY_REQUIRED_FEATURES_MASK) (Z.of_nat m) =
  Nat.even m && (Z.testbit b (Z.of_nat m) || Z.testbit b (Z.of_nat (S m))).
Proof.
  intros Hm Hb. rewrite Z.land_spec, ANY_REQUIRED_bit, Z.lor_spec, Z.shiftr_spec, Z.land_spec by lia.
  destruct (Nat.even m) eqn:He; [|by rewrite andb_false_r].
  assert (S m < 8)%nat by (destruct (decide (m = 7)%nat) as [->|]; [done|lia]).
  replace (Z.of_nat m + 1) with (Z.of_nat (S m)) by lia.
  rewrite ANY_OPTIONAL_bit, Nat.odd_succ, He, !andb_true_r by done. done.
Qed.

(** ** Conversion of the negotiated features to a channel type *)

(** [ChannelTypeFeatures::from_init] makes required exactly the features
    that the init message required or offered as optional and that both contexts
    know, and leaves no optional bit: an even bit is set in the channel type when
    it or its odd companion survives the conversion, and odd bits never are. *)
Theorem from_init_required_features (init : Features InitContext) (n : nat) :
  flags_wf (flags init) ->
  let kept k := feature_bit init k && (known_bit InitContext k && known_bit ChannelTypeContext k) in
  feature_bit (from_init init) n = Nat.even n && (kept n || kept (S n)).
Proof.
  intros Hwf kept. unfold from_init. cbn zeta.
  destruct (to_context_bytes ChannelTypeContext init Hwf) as [Hwf' _].
  set (g := fun byte => _).
  assert (forall b, fits 8 b -> fits 8 (g b)) as Hg.
  { intros b Hb. unfold g. apply fits_land; [lia| |unfold ANY_REQUIRED_FEATURES_MASK; lia].
    apply fits_lor; [lia|done|]. apply fits_bits; [lia|].
    apply fits_bits in Hb as [Hb0 Hb]; [|lia]. split.
    - apply Z.shiftr_nonneg, Z.land_nonneg. by left.
    - intros m Hm. rewrite Z.shiftr_spec, Z.land_spec, Hb by lia. done. }
  destruct (deref_mut_map g _ Hwf' Hg) as [_ Hd].
  unfold feature_bit at 1. cbn [flags]. rewrite Hd. unfold bytes_bit.
  change 0 with (g 0) at 1. rewrite map_nth. unfold g. rewrite required_byte_bit;
    [|apply mod8_lt|apply nth_fits; auto with ldk].
  destruct (Nat.even n) eqn:He.
  - assert (Nat.even (n mod 8) = true) as He8.
    { by rewrite even_mod8. }
    assert (S (n mod 8) < 8)%nat as H8.
    { pose proof (mod8_lt n). destruct (decide (n mod 8 = 7)%nat) as [Heq|]; [|lia].
      rewrite Heq in He8. done. }
    assert (n / 8 = S n / 8 /\ S (n mod 8) = S n mod 8)%nat as [Hq Hr].
    { apply bit_position; [done|]. rewrite (Nat.div_mod_eq n 8) at 1. lia. }
    rewrite He8, Hr. unfold kept. rewrite <- !to_context_spec by done.
    unfold feature_bit, bytes_bit. rewrite <- Hq. done.
  - by rewrite even_mod8, He.
Qed.

Lemma from_init_required_features_witness :
  feature_bit (from_init (set_optional_bit StaticRemoteKey features_empty)) 12 = true /\
  feature_bit (from_init (set_optional_bit StaticRemoteKey features_empty)) 13 = false.
Proof.
  assert (flags_wf (flags (set_optional_bit (T := InitContext) StaticRemoteKey features_empty))) as Hwf
    by (apply set_optional_bit_spec, wf_empty).
  split.
  - rewrite (from_init_required_features _ 12 Hwf). vm_compute. reflexivity.
  - rewrite (from_init_required_features _ 13 Hwf). vm_compute. reflexivity.
Defined.

Lemma set_bit_spec {T} bit custom (s : Features T) :
  flags_wf (flags s) ->
  match set_bit bit custom s with
  | Ok s' => flags_wf (flags s') /\ (bit / 8 < Z.to_nat (umax 16))%nat /\
             (custom = true -> known_bit T bit = false) /\
             forall n, feature_bit s' n = (n =? bit)%nat || feature_bit s n
  | Err _ => (Z.to_nat (umax 16) <= bit / 8)%nat \/ (custom = true /\ known_bit T bit = true)
  end.
Proof.
  intros Hwf. unfold set_bit.
  set (cap := Z.to_nat (umax 16)).
  case_decide as H16; [by left|].
  pose proof (Nat.div_mod_eq bit 8) as Hdm. pose proof (mod8_lt bit) as H8.
  replace (bit - 8 * (bit / 8))%nat with (bit mod 8)%nat by lia.
  set (known := _ && _ && _).
  assert (known = custom && known_bit T bit) as Hk.
  { unfold known, known_bit, bytes_bit, byte_at.
    rewrite land_nonzero by (apply nth_fits, KNOWN_FEATURE_MASK_fits).
    assert (existsb (fun k => Z.testbit (nth (bit / 8) (KNOWN_FEATURE_MASK T) 0) (Z.of_nat k) &&
                              Z.testbit (Z.shiftl 1 (Z.of_nat (bit mod 8))) (Z.of_nat k)) (seq 0 8)
            = Z.testbit (nth (bit / 8) (KNOWN_FEATURE_MASK T) 0) (Z.of_nat (bit mod 8))) as ->.
    { apply eq_bool_prop_intro. rewrite !Is_true_true, existsb_exists. split.
      - intros (k & _ & [Ht Hk]%andb_prop). rewrite testbit_mask in Hk.
        apply Nat.eqb_eq in Hk as ->. done.
      - intros Ht. exists (bit mod 8)%nat. split; [apply in_seq; lia|].
        rewrite Ht, testbit_mask, Nat.eqb_refl. done. }
    destruct (Nat.ltb_spec (bit / 8) (length (KNOWN_FEATURE_MASK T))); [done|].
    rewrite nth_overflow, Z.bits_0 by done. by destruct custom. }
  rewrite Hk. destruct custom, (known_bit T bit) eqn:Hkb; cbn [andb]; try by right.
  all: destruct (grow_to_spec (bit / 8) s Hwf) as (Hwf1 & Hl1 & Hb1);
    destruct (update_byte_spec (fun b => Z.lor b (Z.shiftl 1 (Z.of_nat (bit mod 8)))) (bit / 8) _ Hwf1)
      as (Hwf2 & _ & _ & Hb2); [by auto with ldk lia|done|].
  all: split_and!; [done|lia|done|].
  all: intros n; rewrite Hb2, <- Hb1.
  all: assert ((n =? bit)%nat = (n =? 8 * (bit / 8) + bit mod 8)%nat) as -> by (f_equal; lia).
  all: case_decide as Hn; [|by rewrite not_at].
  all: rewrite Z.lor_spec, (testbit_mask_at (bit / 8)), orb_comm by done.
  all: by rewrite (feature_bit_at _ _ _ Hn).
Qed.

(** ** The buffer as a [Vec<u8>]

    [ByteBuffer] is what the feature operations need of their storage; a plain
    vector implements it directly, the [Held]/[Heap] buffer through [Deref],
    [DerefMut] and [resize]. *)

Class ByteBuffer (B : Type) := {
  buf_from : list Z -> B;
  buf_read : B -> list Z;
  buf_resize : B -> nat -> Z -> B;
  buf_map : (list Z -> list Z) -> B -> B;
}.

#[export] Instance vec_buffer : ByteBuffer (list Z) := {|
  buf_from v := v;
  buf_read v := v;
  buf_resize := vec_resize;
  buf_map f v := f v;
|}.

#[export] Instance flags_buffer : ByteBuffer FeatureFlags := {|
  buf_from := flags_from;
  buf_read := deref;
  buf_resize := flags_resize;
  buf_map := deref_mut;
|}.

(** The mutations the code makes through [DerefMut]: a byte at an index (no
    effect out of range is ever asked for) or every byte. *)
Inductive buffer_op : Type :=
| Resize (n : nat) (default : Z)
| WriteByte (i : nat) (b : Z)
| OrBytes (r : list Z).

Definition op_wf (op : buffer_op) : Prop :=
  match op with
  | Resize _ d => fits 8 d
  | WriteByte _ b => fits 8 b
  | OrBytes r => Forall (fits 8) r
  end.

Section buffer_ops.
Context {B : Type} `{ByteBuffer B}.
Definition buffer_step (b : B) (op : buffer_op) : B :=
  match op with
  | Resize n d => buf_resize b n d
  | WriteByte i x => buf_map <[i := x]> b
  | OrBytes r => buf_map (fun l => or_zip l r) b
  end.
Definition buffer_run (v : list Z) (ops : list buffer_op) : B := foldl buffer_step (buf_from v) ops.
End buffer_ops.

Lemma buffer_step_refines fl op : flags_wf fl -> op_wf op ->
  flags_wf (buffer_step fl op) /\ buf_read (buffer_step fl op) = buffer_step (buf_read fl) op.
Proof.
  intros Hwf Hop. destruct op as [n d|i b|r]; simpl in *.
  - split; [by apply wf_resize|]. by apply deref_resize.
  - split; [apply wf_deref_mut|apply deref_deref_mut]; try done.
    + intros. apply length_insert.
    + intros l Hl. by apply Forall_insert.
    + intros. apply length_insert.
  - split; [apply wf_deref_mut|apply deref_deref_mut]; try done; auto using length_or_zip, Forall_or_zip.
Qed.

Lemma buffer_run_refines fl ops : flags_wf fl -> Forall op_wf ops ->
  flags_wf (foldl buffer_step fl ops) /\
  buf_read (foldl buffer_step fl ops) = foldl buffer_step (buf_read fl) ops.
Proof.
  intros Hwf Hops. revert fl Hwf. induction Hops as [|op ops Hop Hops IH]; intros fl Hwf; [done|].
  destruct (buffer_step_refines fl op Hwf Hop) as [? Hr]. cbn [foldl]. rewrite <- Hr. by apply IH.
Qed.

(** C27: the inline/heap feature buffer refines a growable byte vector.  Any
    sequence of resizes, byte writes and or-ings, started from any bytes, is
    read back as the same sequence on a plain vector, and the buffer stays well
    formed whichever representation it moves through. *)
Theorem feature_flags_refine_vec v ops :
  Forall (fits 8) v -> Forall op_wf ops ->
  flags_wf (buffer_run (B := FeatureFlags) v ops) /\
  buf_read (buffer_run (B := FeatureFlags) v ops) = buffer_run (B := list Z) v ops.
Proof.
  intros Hv Hops. destruct (buffer_run_refines (flags_from v) ops) as [? Hr]; [by apply wf_from|done|].
  split; [done|]. etransitivity; [apply Hr|]. cbn. by rewrite deref_from.
Qed.

Ltac prove_bytes := repeat constructor; unfold fits; lia.

Lemma feature_flags_refine_vec_witness :
  buf_read (buffer_run (B := FeatureFlags) [1; 2] [Resize 20 0; WriteByte 3 7; Resize 4 0; OrBytes [4]])
  = [5; 2; 0; 7].
Proof.
  rewrite (proj2 (feature_flags_refine_vec [1; 2] [Resize 20 0; WriteByte 3 7; Resize 4 0; OrBytes [4]]
    ltac:(prove_bytes) ltac:(prove_bytes))).
  vm_compute. reflexivity.
Defined.

(** ** Bit-level meaning of the operations *)

(** The setters, the clearer, the getters and the union have the
    documented meaning on the bit set, at every bit: setting a feature required
    sets its even bit and clears its odd bit, setting it optional only adds the
    odd bit, clearing removes both and leaves no trailing zero byte, [requires]
    and [supports] read the bits, and [|=] is union. *)
Theorem feature_operations_bits {T} (f : feature) (s r : Features T) :
  flags_wf (flags s) -> flags_wf (flags r) ->
  (forall n, feature_bit (set_required_bit f s) n =
     (n =? EVEN_BIT f)%nat || (negb (n =? ODD_BIT f)%nat && feature_bit s n)) /\
  (forall n, feature_bit (set_optional_bit f s) n = (n =? ODD_BIT f)%nat || feature_bit s n) /\
  (forall n, feature_bit (clear_bits f s) n =
     negb (n =? EVEN_BIT f)%nat && negb (n =? ODD_BIT f)%nat && feature_bit s n) /\
  last (le_flags (clear_bits f s)) <> Some 0 /\
  requires_feature f (le_flags s) = feature_bit s (EVEN_BIT f) /\
  supports_feature f (le_flags s) = feature_bit s (EVEN_BIT f) || feature_bit s (ODD_BIT f) /\
  (forall n, feature_bit (bitor_assign s r) n = feature_bit s n || feature_bit r n).
Proof.
  intros Hs Hr.
  destruct (set_required_bit_spec f s Hs) as [_ ?], (set_optional_bit_spec f s Hs) as [_ ?],
    (clear_bits_spec f s Hs) as (_ & ? & ?), (getters_spec f s Hs), (bitor_assign_spec s r Hs Hr) as (_ & _ & ?).
  by split_and!.
Qed.

Lemma feature_operations_bits_witness :
  requires_feature StaticRemoteKey (le_flags only_static_remote_key) = true /\
  forall n, feature_bit (clear_bits StaticRemoteKey only_static_remote_key) n = false.
Proof.
  assert (flags_wf (flags only_static_remote_key)) as Hwf
    by (apply set_required_bit_spec, wf_empty).
  destruct (feature_operations_bits StaticRemoteKey only_static_remote_key only_static_remote_key Hwf Hwf)
    as (_ & _ & Hc & _ & Hr & _).
  split; [rewrite Hr; vm_compute; reflexivity|].
  intros n. rewrite Hc. unfold only_static_remote_key.
  rewrite (proj2 (set_required_bit_spec StaticRemoteKey features_empty wf_empty)).
  unfold feature_bit. cbn [flags features_empty]. change (deref flags_empty) with (@nil Z).
  rewrite bytes_bit_nil. destruct (n =? _)%nat, (n =? _)%nat; reflexivity.
Defined.

(** ** Unknown required bits *)

(** The check a node makes on a peer's features is exact.  The routine
    that works on 64-bit chunks answers true exactly when some even bit is set
    that the context does not know; the pairwise check answers true exactly when
    some even bit is set that the other side supports neither as required nor as
    optional; and the list of offending bits has exactly those bits. *)
Theorem unknown_required_bits_exact {T} (s o : Features T) :
  flags_wf (flags s) -> flags_wf (flags o) ->
  let unknown n := Nat.even n = true /\ feature_bit s n = true /\
                   feature_bit o n = false /\ feature_bit o (S n) = false in
  (requires_unknown_bits s = true <->
     exists n, Nat.even n = true /\ feature_bit s n = true /\ known_bit T n = false) /\
  (requires_unknown_bits_from s o = true <-> exists n, unknown n) /\
  (forall b, In b (required_unknown_bits_from s o) <-> exists n, b = Z.of_nat n /\ unknown n).
Proof.
  intros Hs Ho unknown. split_and!.
  - by apply requires_unknown_bits_spec.
  - by apply requires_unknown_bits_from_spec.
  - intros b. by apply required_unknown_bits_from_In.
Qed.

Lemma unknown_required_bits_exact_witness :
  requires_unknown_bits (from_le_bytes (T := InitContext) [0; 0; 0; 0; 0; 0; 0; 0; 0; 16]) = true /\
  In 76 (required_unknown_bits_from (from_le_bytes (T := InitContext) [0; 0; 0; 0; 0; 0; 0; 0; 0; 16])
           features_empty).
Proof.
  set (s := from_le_bytes (T := InitContext) [0; 0; 0; 0; 0; 0; 0; 0; 0; 16]).
  assert (flags_wf (flags s)) as Hs by (apply wf_from; prove_bytes).
  destruct (unknown_required_bits_exact s features_empty Hs wf_empty) as (H1 & _ & H3). split.
  - apply H1. exists 76%nat. vm_compute. auto.
  - apply H3. exists 76%nat. vm_compute. auto.
Defined.

(** ** Equality, hashing and ordering *)

Lemma hash_input_spec {T} (s t : Features T) :
  hash_input s = hash_input t <-> forall i, nth i (deref (flags s)) 0 = nth i (deref (flags t)) 0.
Proof.
  unfold hash_input. destruct (trim_zeros_spec _ _ (le_n (length (deref (flags s))))) as [Hl1 Hn1].
  destruct (trim_zeros_spec _ _ (le_n (length (deref (flags t))))) as [Hl2 Hn2]. split.
  - intros Heq i. by rewrite <- Hn1, Heq, Hn2.
  - intros H. apply canonical_bytes; [done|done|]. intros i. by rewrite Hn1, Hn2.
Qed.

(** [PartialEq] compares the sets of bits, whatever the number of trailing
    zero bytes or the representation of the buffer, and [Hash] agrees with it:
    two feature sets are equal exactly when they feed the same bytes to the
    hasher, so they may be used as keys of a hash map. *)
Theorem features_eq_hash {T} (s t : Features T) :
  flags_wf (flags s) -> flags_wf (flags t) ->
  (features_eq s t = true <-> forall n, feature_bit s n = feature_bit t n) /\
  (features_eq s t = true <-> hash_input s = hash_input t).
Proof.
  intros Hs Ht. split; [by apply features_eq_spec|].
  rewrite hash_input_spec. unfold features_eq. rewrite eq_loop_spec.
  split; intros H i; by rewrite H.
Qed.

Lemma features_eq_hash_witness :
  features_eq (from_le_bytes (T := InitContext) [2]) (from_le_bytes [2; 0; 0]) = true.
Proof.
  apply features_eq_hash; [apply wf_from; prove_bytes|apply wf_from; prove_bytes|].
  vm_compute. reflexivity.
Defined.

(** [Ord] is not consistent with [PartialEq]: it compares the stored
    bytes, so two feature sets that are equal, and hash alike, may still be
    ordered strictly one before the other. *)
Theorem features_cmp_not_eq_consistent :
  exists s t : Features InitContext,
    flags_wf (flags s) /\ flags_wf (flags t) /\
    features_eq s t = true /\ hash_input s = hash_input t /\ features_cmp s t = Lt.
Proof.
  exists (from_le_bytes [2]), (from_le_bytes [2; 0]).
  split_and!; [apply wf_from; prove_bytes|apply wf_from; prove_bytes|..]; vm_compute; reflexivity.
Qed.

(** ** Wire format *)

(** Writing features with their length prefix and reading them back, from
    a stream that goes on, gives the same bytes, an equal feature set and the
    rest of the stream, for every feature set of at most 65535 bytes; without
    the prefix the same holds of the whole stream. *)
Theorem features_wire_roundtrip {T} (s : Features T) (rest : list Z) :
  flags_wf (flags s) -> Z.of_nat (length (le_flags s)) <= umax 16 ->
  exists s', features_read (features_write s ++ rest) = Ok (s', rest) /\
    le_flags s' = le_flags s /\ features_eq s' s = true /\
    read_without_length (write_without_length s) = s' /\ flags_wf (flags s').
Proof.
  intros Hwf Hlen. exists (from_le_bytes (le_flags s)). unfold features_write, features_read, write_be.
  unfold umax in Hlen. rewrite wrapping_small by (unfold fits; lia).
  set (l := le_flags s) in *. cbn [app].
  assert (Z.to_nat (Z.of_nat (length l) / 256 * 256 + Z.of_nat (length l) mod 256) = length (reverse l)) as ->
    by (rewrite length_reverse; dlia).
  case_decide as Hle; [|rewrite length_app in Hle; lia].
  rewrite take_app_length, drop_app_length. unfold from_be_bytes, read_without_length, write_without_length.
  unfold write_be. rewrite reverse_involutive.
  assert (flags_wf (flags_from l)) as Hwf' by (apply wf_from, wf_bytes, Hwf).
  split_and!; [done|apply deref_from| |by unfold from_be_bytes; fold l; rewrite reverse_involutive|done].
  apply features_eq_spec; [done|done|]. intros n. unfold feature_bit. cbn. by rewrite deref_from.
Qed.

Lemma features_wire_roundtrip_witness :
  features_read (T := ChannelTypeContext) (features_write only_static_remote_key ++ [7]) =
    Ok (from_le_bytes (le_flags only_static_remote_key), [7]).
Proof.
  destruct (features_wire_roundtrip only_static_remote_key [7]) as (s' & Hr & _ & _ & <- & _).
  - apply set_required_bit_spec, wf_empty.
  - vm_compute. discriminate.
  - rewrite Hr. vm_compute. reflexivity.
Defined.

(** The table of features is consistent with the known-feature table of each
    context (the compile-time assertions of [define_feature!]): each feature is
    listed in the byte its bits fall in, for exactly the contexts it names. *)
Lemma feature_table_consistent f c :
  (In c (feature_contexts f) <-> In f (concat (known_features c))) /\
  forall i l, known_features c !! i = Some l -> In f l -> BYTE_OFFSET f = i.
Proof.
  split.
  - destruct f, c; vm_compute; split; intros H; repeat destruct H as [H|H]; try discriminate; tauto.
  - intros i l Hl Hf.
    assert (forallb (fun p => forallb (fun f => BYTE_OFFSET f =? p.1)%nat p.2) (imap pair (known_features c)) = true)
      as Hall by (destruct c; vm_compute; reflexivity).
    rewrite forallb_forall in Hall. specialize (Hall (i, l)).
    rewrite <- list_elem_of_In, elem_of_lookup_imap in Hall.
    specialize (Hall ltac:(by exists i, l)). rewrite forallb_forall in Hall. by apply Nat.eqb_eq, Hall.
Qed.
