(* ===== verification/ChanUtils.v ===== *)
(** * Weights and fees of channel transactions (lightning/src/ln/chan_utils.rs)

    The weight constants, the commitment and second-stage fees at a feerate,
    and the bounds under which their 64-bit arithmetic is exact. *)

From Stdlib Require Import ZArith Lia Bool.
From S2P Require Import Prelude.
From S2P Require Import Features.

Local Open Scope Z_scope.

(** ** Constants *)

Definition max_htlcs (channel_type : ChannelTypeFeatures) : Z :=
  if supports_anchor_zero_fee_commitments channel_type then 114 else 483.

Definition OFFERED_HTLC_SCRIPT_WEIGHT : Z := 133.
Definition OFFERED_HTLC_SCRIPT_WEIGHT_KEYED_ANCHORS : Z := 136.
Definition MIN_ACCEPTED_HTLC_SCRIPT_WEIGHT : Z := 136.
Definition MAX_ACCEPTED_HTLC_SCRIPT_WEIGHT : Z := 143.
Definition WITNESS_SCALE_FACTOR : Z := 4.
Definition P2A_MAX_VALUE : Z := 240.
Definition HTLC_TIMEOUT_INPUT_KEYED_ANCHOR_WITNESS_WEIGHT : Z := 288.
Definition HTLC_TIMEOUT_INPUT_P2A_ANCHOR_WITNESS_WEIGHT : Z := 285.
Definition HTLC_SUCCESS_INPUT_KEYED_ANCHOR_WITNESS_WEIGHT : Z := 327.
Definition HTLC_SUCCESS_INPUT_P2A_ANCHOR_WITNESS_WEIGHT : Z := 324.
Definition COMPRESSED_PUBLIC_KEY_SIZE : Z := 33.
Definition MAX_STANDARD_SIGNATURE_SIZE : Z := 72.
Definition MULTISIG_SCRIPT_SIZE : Z :=
  1 + 1 + COMPRESSED_PUBLIC_KEY_SIZE + 1 + COMPRESSED_PUBLIC_KEY_SIZE + 1 + 1.
Definition FUNDING_TRANSACTION_WITNESS_WEIGHT : Z :=
  1 + 1 + 1 + MAX_STANDARD_SIGNATURE_SIZE + 1 + MAX_STANDARD_SIGNATURE_SIZE + 1 + MULTISIG_SCRIPT_SIZE.
Definition REVOKEABLE_REDEEMSCRIPT_MAX_LENGTH : Z := 6 + 4 + 34 * 2.
Definition BASE_TX_SIZE : Z := 4 + 1 + 1 + 4.
Definition SEGWIT_MARKER_FLAG_WEIGHT : Z := 2.
Definition EMPTY_SCRIPT_SIG_WEIGHT : Z := 1 * WITNESS_SCALE_FACTOR.
Definition BASE_INPUT_SIZE : Z := 32 + 4 + 4.
Definition BASE_INPUT_WEIGHT : Z := BASE_INPUT_SIZE * WITNESS_SCALE_FACTOR.
Definition P2WSH_TXOUT_WEIGHT : Z := (8 + 1 + 34) * WITNESS_SCALE_FACTOR.

(** ** Weights *)

Definition htlc_success_tx_weight (ct : ChannelTypeFeatures) : Z :=
  if supports_anchors_zero_fee_htlc_tx ct then 706 else 703.
Definition htlc_timeout_tx_weight (ct : ChannelTypeFeatures) : Z :=
  if supports_anchors_zero_fee_htlc_tx ct then 666 else 663.

Definition aggregated_htlc_success_input_output_pair_weight (ct : ChannelTypeFeatures) : Z :=
  let satisfaction_weight :=
    if supports_anchors_zero_fee_htlc_tx ct
    then EMPTY_SCRIPT_SIG_WEIGHT + HTLC_SUCCESS_INPUT_KEYED_ANCHOR_WITNESS_WEIGHT
    else EMPTY_SCRIPT_SIG_WEIGHT + HTLC_SUCCESS_INPUT_P2A_ANCHOR_WITNESS_WEIGHT in
  BASE_INPUT_WEIGHT + P2WSH_TXOUT_WEIGHT + satisfaction_weight.
Definition aggregated_htlc_timeout_input_output_pair_weight (ct : ChannelTypeFeatures) : Z :=
  let satisfaction_weight :=
    if supports_anchors_zero_fee_htlc_tx ct
    then EMPTY_SCRIPT_SIG_WEIGHT + HTLC_TIMEOUT_INPUT_KEYED_ANCHOR_WITNESS_WEIGHT
    else EMPTY_SCRIPT_SIG_WEIGHT + HTLC_TIMEOUT_INPUT_P2A_ANCHOR_WITNESS_WEIGHT in
  BASE_INPUT_WEIGHT + P2WSH_TXOUT_WEIGHT + satisfaction_weight.

Definition COMMITMENT_TX_WEIGHT_PER_HTLC : Z := 172.
Definition commitment_tx_base_weight (ct : ChannelTypeFeatures) : Z :=
  if supports_anchors_zero_fee_htlc_tx ct then 1124 else 724.

(** ** Fees *)

Definition commit_tx_fee_sat (feerate_per_kw num_htlcs : Z) (ct : ChannelTypeFeatures) : Z :=
  (feerate_per_kw * (commitment_tx_base_weight ct + num_htlcs * COMMITMENT_TX_WEIGHT_PER_HTLC) / 1000)%u64.

(** The fees of the success and of the timeout second-stage transaction. *)
Definition second_stage_tx_fees_sat (ct : ChannelTypeFeatures) (feerate : Z) : Z * Z :=
  if supports_anchors_zero_fee_htlc_tx ct || supports_anchor_zero_fee_commitments ct then (0, 0)
  else ((feerate * htlc_success_tx_weight ct / 1000)%u64,
        (feerate * htlc_timeout_tx_weight ct / 1000)%u64).

Definition htlc_tx_fees_sat (feerate num_accepted_htlcs num_offered_htlcs : Z)
    (ct : ChannelTypeFeatures) : Z :=
  let '(htlc_success_tx_fee_sat, htlc_timeout_tx_fee_sat) := second_stage_tx_fees_sat ct feerate in
  (num_accepted_htlcs * htlc_success_tx_fee_sat + num_offered_htlcs * htlc_timeout_tx_fee_sat)%u64.

(** ** Exact arithmetic

    With a 32-bit feerate and at most [2^16] outputs, more than any transaction
    can hold, no product of the fee computations wraps. *)

Definition count_bound : Z := 2 ^ 16.

(** The fee without wrap-around. *)
Definition commit_fee (feerate n : Z) (ct : ChannelTypeFeatures) : Z :=
  feerate * (commitment_tx_base_weight ct + n * COMMITMENT_TX_WEIGHT_PER_HTLC) / 1000.

Lemma base_weight_range ct : 724 <= commitment_tx_base_weight ct <= 1124.
Proof. unfold commitment_tx_base_weight. destruct (supports_anchors_zero_fee_htlc_tx ct); lia. Qed.

Lemma commit_tx_fee_sat_exact f n ct : fits 32 f -> 0 <= n <= count_bound ->
  commit_tx_fee_sat f n ct = commit_fee f n ct.
Proof.
  unfold fits, count_bound, commit_tx_fee_sat, commit_fee, COMMITMENT_TX_WEIGHT_PER_HTLC. intros Hf Hn.
  pose proof (base_weight_range ct).
  rewrite (wrapping_small 64 (n * 172)) by (unfold fits; lia).
  rewrite (wrapping_small 64 (_ + n * 172)) by (unfold fits; lia).
  rewrite wrapping_small; [done|]. unfold fits. nia.
Qed.

Lemma commit_fee_range f n ct : fits 32 f -> 0 <= n <= count_bound ->
  0 <= commit_fee f n ct < 2 ^ 46.
Proof.
  unfold fits, count_bound, commit_fee, COMMITMENT_TX_WEIGHT_PER_HTLC. intros Hf Hn.
  pose proof (base_weight_range ct).
  assert (0 <= f * (commitment_tx_base_weight ct + n * 172) <= 2 ^ 32 * 11273316)
    by (split; [|apply Z.mul_le_mono_nonneg]; lia).
  split; [apply Z.div_pos; lia|apply Z.div_lt_upper_bound; lia].
Qed.

Lemma commit_fee_mono f g n m ct : 0 <= f <= g -> 0 <= n <= m ->
  commit_fee f n ct <= commit_fee g m ct.
Proof.
  unfold commit_fee, COMMITMENT_TX_WEIGHT_PER_HTLC. intros Hf Hn. pose proof (base_weight_range ct).
  apply Z.div_le_mono; [lia|]. nia.
Qed.

Lemma commit_fee_zero n ct : commit_fee 0 n ct = 0.
Proof. done. Qed.

Lemma second_stage_range ct f : fits 32 f ->
  0 <= (second_stage_tx_fees_sat ct f).1 < 2 ^ 32 /\ 0 <= (second_stage_tx_fees_sat ct f).2 < 2 ^ 32.
Proof.
  unfold fits, second_stage_tx_fees_sat, htlc_success_tx_weight, htlc_timeout_tx_weight. intros Hf.
  destruct (supports_anchors_zero_fee_htlc_tx ct), (supports_anchor_zero_fee_commitments ct); simpl; try lia.
  rewrite !wrapping_small by (unfold fits; lia). dlia.
Qed.

Lemma second_stage_mono ct f g : 0 <= f <= g -> g < 2 ^ 32 ->
  (second_stage_tx_fees_sat ct f).1 <= (second_stage_tx_fees_sat ct g).1 /\
  (second_stage_tx_fees_sat ct f).2 <= (second_stage_tx_fees_sat ct g).2.
Proof.
  unfold second_stage_tx_fees_sat, htlc_success_tx_weight, htlc_timeout_tx_weight. intros Hf Hg.
  destruct (supports_anchors_zero_fee_htlc_tx ct), (supports_anchor_zero_fee_commitments ct); simpl; try lia.
  rewrite !wrapping_small by (unfold fits; lia). dlia.
Qed.

Lemma second_stage_zero ct : second_stage_tx_fees_sat ct 0 = (0, 0).
Proof.
  unfold second_stage_tx_fees_sat.
  by destruct (supports_anchors_zero_fee_htlc_tx ct || supports_anchor_zero_fee_commitments ct).
Qed.

#[export] Hint Resolve commit_fee_range second_stage_range : ldk.
