(* ===== verification/CommitmentSecrets.v ===== *)
(** * Per-commitment secrets (lightning/src/ln/chan_utils.rs)

    The derivation of commitment secrets from a seed and the compact store of
    the counterparty's revealed secrets.  SHA-256 is a parameter; nothing is
    assumed of it.  A secret is its list of bytes. *)

From Stdlib Require Import ZArith Lia Bool.
From S2P Require Import Prelude.

Local Open Scope Z_scope.

Definition secret : Type := list Z.
Definition MAX_INDEX : Z := Z.shiftl 1 48.

Section secrets.
Context (sha256 : list Z -> list Z).

(** [idx & (1 << bitpos) == (1 << bitpos)] *)
Definition bit_set (idx : Z) (bitpos : nat) : bool :=
  Z.land idx (Z.shiftl 1 (Z.of_nat bitpos)) =? Z.shiftl 1 (Z.of_nat bitpos).

(** [res[bitpos / 8] ^= 1 << (bitpos & 7)]; the byte is one of the first six
    of a 32-byte array. *)
Definition flip_bit (bitpos : nat) (res : secret) : secret :=
  alter (fun b => Z.lxor b (Z.shiftl 1 (Z.land (Z.of_nat bitpos) 7))) (bitpos / 8)%nat res.

(** The loop of both derivations, from bit [bits - 1] down to bit [0]. *)
Fixpoint derive_loop (bits : nat) (idx : Z) (res : secret) : secret :=
  match bits with
  | O => res
  | S bitpos =>
      let res := if bit_set idx bitpos then sha256 (flip_bit bitpos res) else res in
      derive_loop bitpos idx res
  end.

Definition build_commitment_secret (commitment_seed : secret) (idx : Z) : secret :=
  derive_loop 48 idx commitment_seed.

Record CounterpartyCommitmentSecrets : Type := mkSecrets { old_secrets : list (secret * Z) }.

Definition secrets_new : CounterpartyCommitmentSecrets :=
  mkSecrets (replicate 49 (replicate 32 0, MAX_INDEX)).

Definition secrets_eq (self other : CounterpartyCommitmentSecrets) : bool :=
  forallb (fun '((s, idx), (o_s, o_idx)) => negb (bool_decide (s <> o_s) || negb (idx =? o_idx)))
          (zip (old_secrets self) (old_secrets other)).

(** [for i in from..48 { if bit i of idx { return i } } 48] *)
Fixpoint place_from (fuel i : nat) (idx : Z) : nat :=
  match fuel with
  | O => 48
  | S fuel => if bit_set idx i then i else place_from fuel (S i) idx
  end.
Definition place_secret (idx : Z) : nat := place_from 48 0 idx.

Definition get_min_seen_secret (self : CounterpartyCommitmentSecrets) : Z :=
  foldl (fun min '(_, idx) => if idx <? min then idx else min) MAX_INDEX (old_secrets self).

Definition derive_secret (s : secret) (bits : nat) (idx : Z) : secret := derive_loop bits idx s.

Definition secret_at (self : CounterpartyCommitmentSecrets) (i : nat) : secret * Z :=
  nth i (old_secrets self) ([], MAX_INDEX).

Definition provide_secret (idx : Z) (s : secret) (self : CounterpartyCommitmentSecrets)
    : result unit CounterpartyCommitmentSecrets :=
  let pos := place_secret idx in
  if existsb (fun i => let '(old_secret, old_idx) := secret_at self i in
                       bool_decide (derive_secret s pos old_idx <> old_secret)) (seq 0 pos)
  then Err tt
  else if get_min_seen_secret self <=? idx then Ok self
  else Ok (mkSecrets (<[pos := (s, idx)]> (old_secrets self))).

(** [idx & !((1 << i) - 1)] *)
Definition mask_index (idx : Z) (i : nat) : Z :=
  Z.land idx (Z.lxor (Z.shiftl 1 (Z.of_nat i) - 1) (umax 64)).

Fixpoint get_from (entries : list (secret * Z)) (i : nat) (idx : Z) : option secret :=
  match entries with
  | [] => None
  | (s, old_idx) :: entries =>
      if mask_index idx i =? old_idx then Some (derive_secret s i idx)
      else get_from entries (S i) idx
  end.

(** The final [assert!] is the panic. *)
Definition get_secret (self : CounterpartyCommitmentSecrets) (idx : Z) : run (option secret) :=
  match get_from (old_secrets self) 0 idx with
  | Some s => Return (Some s)
  | None => if idx <? get_min_seen_secret self then Return None else Panic
  end.

(** The counterparty reveals its secrets one by one, from the highest index. *)
Definition index_of (j : nat) : Z := MAX_INDEX - 1 - Z.of_nat j.

Fixpoint provide_from (j : nat) (secs : list secret) (st : CounterpartyCommitmentSecrets)
    : result unit CounterpartyCommitmentSecrets :=
  match secs with
  | [] => Ok st
  | s :: secs => provide_secret (index_of j) s st ≫= provide_from (S j) secs
  end.
Definition provide_all (secs : list secret) : result unit CounterpartyCommitmentSecrets :=
  provide_from 0 secs secrets_new.

(** ** Bits of an index *)

Lemma bit_set_testbit idx k : bit_set idx k = Z.testbit idx (Z.of_nat k).
Proof.
  unfold bit_set. apply eq_bool_prop_intro. rewrite !Is_true_true, Z.eqb_eq. split.
  - intros H.
    assert (Z.testbit (Z.land idx (Z.shiftl 1 (Z.of_nat k))) (Z.of_nat k) = true) as Ht.
    { rewrite H, Z.shiftl_1_l, Z.pow2_bits_eqb, Z.eqb_refl by lia. done. }
    rewrite Z.land_spec in Ht. by apply andb_prop in Ht as [? _].
  - intros H. apply Z.bits_inj'. intros n Hn.
    rewrite Z.land_spec, Z.shiftl_1_l, Z.pow2_bits_eqb by lia.
    destruct (Z.eqb_spec (Z.of_nat k) n) as [<-|]; [by rewrite H|by rewrite andb_false_r].
Qed.

Lemma mask_index_div idx i : 0 <= idx < 2 ^ 64 -> (i <= 48)%nat ->
  mask_index idx i = idx / 2 ^ Z.of_nat i * 2 ^ Z.of_nat i.
Proof.
  intros Hidx Hi. unfold mask_index, umax. rewrite Z.shiftl_1_l.
  rewrite <- Z.shiftl_mul_pow2, <- Z.shiftr_div_pow2 by lia.
  apply Z.bits_inj'. intros n Hn. rewrite Z.land_spec, Z.lxor_spec.
  replace (2 ^ Z.of_nat i - 1) with (Z.ones (Z.of_nat i)) by (rewrite Z.ones_equiv; lia).
  replace (2 ^ 64 - 1) with (Z.ones 64) by done.
  rewrite !Z.testbit_ones_nonneg by lia. rewrite Z.shiftl_spec by lia.
  destruct (Z.ltb_spec n (Z.of_nat i)) as [Hlt|Hge].
  - rewrite (Z.testbit_neg_r _ (n - _)) by lia. destruct (n <? 64) eqn:E; [by rewrite andb_false_r|lia].
  - rewrite Z.shiftr_spec by lia. replace (n - Z.of_nat i + Z.of_nat i) with n by lia.
    destruct (Z.ltb_spec n 64); [by rewrite andb_true_r|].
    rewrite andb_false_r. symmetry. apply Z.bits_above_log2; [lia|].
    destruct (decide (idx = 0)) as [->|]; [simpl; lia|].
    apply Z.log2_lt_pow2; [lia|]. eapply Z.lt_le_trans; [apply Hidx|]. apply Z.pow_le_mono_r; lia.
Qed.

Lemma bit_divide idx k : (2 ^ k | idx) -> 0 <= k ->
  (Z.testbit idx k = false <-> (2 ^ (k + 1) | idx)).
Proof.
  intros [q ->] Hk. rewrite Z.mul_pow2_bits, Z.sub_diag, Z.bit0_odd, <- Z.negb_even, Z.pow_add_r by lia. split.
  - intros H%negb_false_iff%Z.even_spec. destruct H as [r ->]. exists r. lia.
  - intros [r Hr]. apply negb_false_iff, Z.even_spec. exists r.
    assert (2 ^ k > 0) by (apply Z.lt_gt, Z.pow_pos_nonneg; lia). nia.
Qed.

Definition low_mask (idx : Z) (i : nat) : Z := idx / 2 ^ Z.of_nat i * 2 ^ Z.of_nat i.

Lemma pow2_pos (i : nat) : 0 < 2 ^ Z.of_nat i.
Proof. apply Z.pow_pos_nonneg; lia. Qed.

Lemma pow2_succ (i : nat) : 2 ^ Z.of_nat (S i) = 2 * 2 ^ Z.of_nat i.
Proof. rewrite Nat2Z.inj_succ, Z.pow_succ_r by lia. done. Qed.

(** Clearing one more low bit subtracts it when it is set. *)
Lemma low_mask_succ idx i :
  low_mask idx i = low_mask idx (S i) + if Z.testbit idx (Z.of_nat i) then 2 ^ Z.of_nat i else 0.
Proof.
  unfold low_mask. rewrite pow2_succ. pose proof (pow2_pos i) as Hp.
  rewrite (Z.mul_comm 2), <- Z.div_div by lia.
  rewrite Z.testbit_odd, Z.shiftr_div_pow2 by lia.
  set (q := idx / 2 ^ Z.of_nat i). rewrite (Z.div_mod q 2) at 1 by lia.
  rewrite Zmod_odd. destruct (Z.odd q); lia.
Qed.

Lemma low_mask_range idx i : 0 <= idx -> 0 <= low_mask idx i <= idx /\ idx < low_mask idx i + 2 ^ Z.of_nat i.
Proof.
  intros Hidx. unfold low_mask. pose proof (pow2_pos i) as Hp.
  pose proof (Z.div_mod idx (2 ^ Z.of_nat i)). pose proof (Z.mod_pos_bound idx (2 ^ Z.of_nat i) Hp).
  assert (0 <= idx / 2 ^ Z.of_nat i) by (apply Z.div_pos; lia). nia.
Qed.

Lemma low_mask_divide idx i : (2 ^ Z.of_nat i | low_mask idx i).
Proof. by exists (idx / 2 ^ Z.of_nat i). Qed.

Lemma low_mask_fix idx i : (2 ^ Z.of_nat i | idx) -> low_mask idx i = idx.
Proof. intros [q ->]. unfold low_mask. rewrite Z.div_mul; [done|]. pose proof (pow2_pos i). lia. Qed.

(** Two multiples of [2^i] differ by at least [2^i]. *)
Lemma divide_gap i a b : (2 ^ Z.of_nat i | a) -> (2 ^ Z.of_nat i | b) -> a < b -> a + 2 ^ Z.of_nat i <= b.
Proof.
  intros [p ->] [q ->] Hlt. pose proof (pow2_pos i).
  assert (p < q) by (apply (Z.mul_lt_mono_pos_r (2 ^ Z.of_nat i)); done). nia.
Qed.

(** ** The bucket of an index: its number of trailing zeros *)

Lemma place_from_spec fuel i idx : (fuel + i = 48)%nat -> (2 ^ Z.of_nat i | idx) ->
  let p := place_from fuel i idx in
  (p <= 48)%nat /\ (2 ^ Z.of_nat p | idx) /\ ((p < 48)%nat -> Z.testbit idx (Z.of_nat p) = true).
Proof.
  revert i. induction fuel as [|fuel IH]; intros i Hi Hd; cbn [place_from]; cbn zeta.
  - assert (i = 48%nat) as -> by lia. split_and!; [lia|done|lia].
  - rewrite bit_set_testbit. destruct (Z.testbit idx (Z.of_nat i)) eqn:Hb.
    + split_and!; [lia|done|done].
    + apply IH; [lia|]. apply bit_divide in Hb; [|done|lia].
      by replace (Z.of_nat (S i)) with (Z.of_nat i + 1) by lia.
Qed.

Lemma place_spec idx :
  (place_secret idx <= 48)%nat /\ (2 ^ Z.of_nat (place_secret idx) | idx) /\
  ((place_secret idx < 48)%nat -> Z.testbit idx (Z.of_nat (place_secret idx)) = true).
Proof. apply (place_from_spec 48 0); [done|]. apply Z.divide_1_l. Qed.

Lemma low_bits idx p k : (2 ^ Z.of_nat p | idx) -> (k < p)%nat -> Z.testbit idx (Z.of_nat k) = false.
Proof. intros [q ->] Hk. rewrite Z.mul_pow2_bits_low by lia. done. Qed.

Lemma place_unique idx i : (i < 48)%nat -> (2 ^ Z.of_nat i | idx) ->
  Z.testbit idx (Z.of_nat i) = true -> place_secret idx = i.
Proof.
  intros Hi Hd Hb. destruct (place_spec idx) as (Hp & Hpd & Hpb).
  destruct (lt_eq_lt_dec (place_secret idx) i) as [[Hlt|]|Hgt]; [|done|].
  - rewrite (low_bits idx i) in Hpb by done. specialize (Hpb ltac:(lia)). done.
  - rewrite (low_bits idx (place_secret idx) i) in Hb by done. done.
Qed.

Lemma place_zero : place_secret 0 = 48%nat.
Proof. done. Qed.

(** ** Derivation *)

Lemma derive_low n idx s : (forall k, (k < n)%nat -> Z.testbit idx (Z.of_nat k) = false) ->
  derive_loop n idx s = s.
Proof.
  revert s. induction n as [|n IH]; intros s H; simpl; [done|].
  rewrite bit_set_testbit, H by lia. apply IH. auto.
Qed.

Lemma derive_ext n idx idx' s :
  (forall k, (k < n)%nat -> Z.testbit idx (Z.of_nat k) = Z.testbit idx' (Z.of_nat k)) ->
  derive_loop n idx s = derive_loop n idx' s.
Proof.
  revert s. induction n as [|n IH]; intros s H; simpl; [done|].
  rewrite !bit_set_testbit, H by lia. apply IH. auto.
Qed.

(** The highest set bit below [n] is where the derivation starts. *)
Lemma derive_top n i idx s : (i < n)%nat -> Z.testbit idx (Z.of_nat i) = true ->
  (forall k, (i < k < n)%nat -> Z.testbit idx (Z.of_nat k) = false) ->
  derive_loop n idx s = derive_loop i idx (sha256 (flip_bit i s)).
Proof.
  revert s. induction n as [|n IH]; intros s Hi Hb Hz; [lia|]. simpl. rewrite bit_set_testbit.
  destruct (decide (i = n)) as [->|]; [by rewrite Hb|].
  rewrite Hz by lia. apply IH; [lia|done|]. intros k Hk. apply Hz. lia.
Qed.

Lemma top_bit n idx :
  (forall k, (k < n)%nat -> Z.testbit idx (Z.of_nat k) = false) \/
  exists i, (i < n)%nat /\ Z.testbit idx (Z.of_nat i) = true /\
            forall k, (i < k < n)%nat -> Z.testbit idx (Z.of_nat k) = false.
Proof.
  induction n as [|n IH]; [left; lia|]. destruct (Z.testbit idx (Z.of_nat n)) eqn:Hb.
  - right. exists n. split_and!; [lia|done|lia].
  - destruct IH as [IH|(i & Hi & Hb' & Hz)].
    + left. intros k Hk. destruct (decide (k = n)) as [->|]; [done|apply IH; lia].
    + right. exists i. split_and!; [lia|done|]. intros k Hk.
      destruct (decide (k = n)) as [->|]; [done|apply Hz; lia].
Qed.

(** The index cleared of zero bits does not change. *)
Lemma low_mask_zeros idx i n : (i <= n)%nat ->
  (forall k, (i <= k < n)%nat -> Z.testbit idx (Z.of_nat k) = false) -> low_mask idx i = low_mask idx n.
Proof.
  intros Hi. induction Hi as [|n Hi IH]; intros Hz; [done|].
  rewrite IH by (intros k Hk; apply Hz; lia). rewrite low_mask_succ, Hz by lia. lia.
Qed.

Lemma low_mask_bit idx i k : (i <= k)%nat -> Z.testbit (low_mask idx i) (Z.of_nat k) = Z.testbit idx (Z.of_nat k).
Proof.
  intros Hk. unfold low_mask. rewrite Z.mul_pow2_bits, Z.div_pow2_bits by lia. f_equal. lia.
Qed.


(** ** The store's invariant

    After the secrets of every index from [m] up, bucket [i] holds the smallest
    such index with exactly [i] trailing zeros, if there is one. *)

Definition bucket_ok (m : Z) (i : nat) (x : Z) : Prop :=
  (x = MAX_INDEX /\ forall k, m <= k < MAX_INDEX -> place_secret k <> i) \/
  (m <= x < MAX_INDEX /\ place_secret x = i /\ forall k, m <= k < x -> place_secret k <> i).

Definition next_index (secs : list secret) : Z := MAX_INDEX - Z.of_nat (length secs).

Record store_ok (secs : list secret) (st : CounterpartyCommitmentSecrets) : Prop := {
  store_length : length (old_secrets st) = 49%nat;
  store_bound : 0 <= next_index secs;
  store_bucket i : (i <= 48)%nat -> bucket_ok (next_index secs) i (secret_at st i).2;
  store_value j s i : secs !! j = Some s -> (i <= 48)%nat ->
    low_mask (index_of j) i = (secret_at st i).2 -> derive_loop i (index_of j) (secret_at st i).1 = s;
}.

Lemma MAX_INDEX_eq : MAX_INDEX = 2 ^ 48.
Proof. done. Qed.

Lemma bucket_unique m i x y : bucket_ok m i x -> m <= y < MAX_INDEX -> place_secret y = i ->
  (forall k, m <= k < y -> place_secret k <> i) -> x = y.
Proof.
  intros [[-> H]|(Hx & Hp & H)] Hy Hpy Hmin; [by destruct (H y)|].
  destruct (Z.lt_trichotomy x y) as [Hlt|[|Hgt]]; [|done|].
  - destruct (Hmin x); [lia|done].
  - destruct (H y); [lia|done].
Qed.

Lemma bucket_ge m i x : bucket_ok m i x -> m <= MAX_INDEX -> m <= x <= MAX_INDEX.
Proof. intros [[-> H]|(Hx & Hp & H)]; lia. Qed.

(** Some bucket covers every index seen. *)
Lemma bucket_cover m y (x : nat -> Z) : 0 <= m <= y -> y < MAX_INDEX ->
  (forall i, (i <= 48)%nat -> bucket_ok m i (x i)) ->
  exists i, (i <= 48)%nat /\ low_mask y i = x i.
Proof.
  intros Hm Hy Hx. rewrite MAX_INDEX_eq in *.
  assert (forall n, (n <= 48)%nat -> m <= low_mask y n \/
            exists i, (i < n)%nat /\ m <= low_mask y i /\ low_mask y (S i) < m) as Hsearch.
  { induction n as [|n IH]; intros Hn.
    - left. unfold low_mask. simpl. rewrite Z.div_1_r. lia.
    - destruct IH as [IH|(i & Hi & ?)]; [lia| |right; exists i; lia].
      destruct (Z.le_gt_cases m (low_mask y (S n))); [by left|right; exists n; lia]. }
  destruct (Hsearch 48%nat) as [H|(i & Hi & Hge & Hlt)]; [lia| |].
  - exists 48%nat. split; [lia|].
    assert (low_mask y 48 = 0) as Hl
      by (unfold low_mask; change (Z.of_nat 48) with 48; rewrite Z.div_small; lia).
    rewrite Hl in H |- *. symmetry.
    apply (bucket_unique m 48); [by apply Hx|rewrite MAX_INDEX_eq; lia|apply place_zero|lia].
  - exists i. split; [lia|]. rewrite low_mask_succ in Hge.
    pose proof (low_mask_succ y i) as Hs.
    destruct (Z.testbit y (Z.of_nat i)) eqn:Hb; [|lia].
    assert (place_secret (low_mask y i) = i) as Hp.
    { apply place_unique; [lia|apply low_mask_divide|]. by rewrite low_mask_bit. }
    pose proof (low_mask_range y i ltac:(lia)). pose proof (pow2_pos i).
    symmetry. apply (bucket_unique m i); [apply Hx; lia|rewrite MAX_INDEX_eq; lia|done|].
    intros k Hk Hpk. destruct (place_spec k) as (_ & Hkd & _). rewrite Hpk in Hkd.
    assert (2 ^ Z.of_nat i | low_mask y (S i)) as Hd.
    { eapply Z.divide_trans; [|apply low_mask_divide]. rewrite pow2_succ. by exists 2. }
    pose proof (divide_gap i _ _ Hd Hkd ltac:(lia)). lia.
Qed.

Lemma secret_at_lookup st i : length (old_secrets st) = 49%nat -> (i <= 48)%nat ->
  old_secrets st !! i = Some (secret_at st i).
Proof.
  intros Hl Hi. destruct (lookup_lt_is_Some_2 (old_secrets st) i) as [e He]; [lia|].
  unfold secret_at. by rewrite nth_lookup, He.
Qed.

Lemma min_fold (l : list (secret * Z)) acc :
  let r := foldl (fun min '(_, idx) => if idx <? min then idx else min) acc l in
  r <= acc /\ (forall e, e ∈ l -> r <= e.2) /\ (r = acc \/ exists e, e ∈ l /\ r = e.2).
Proof.
  revert acc. induction l as [|[s x] l IH]; intros acc; simpl.
  - split_and!; [lia|intros e He; by apply not_elem_of_nil in He|by left].
  - set (acc' := if x <? acc then x else acc).
    assert (acc' <= acc /\ acc' <= x /\ (acc' = acc \/ acc' = x)) as (H1 & H2 & H3)
      by (unfold acc'; destruct (Z.ltb_spec x acc); lia).
    destruct (IH acc') as (Hr1 & Hr2 & Hr3). split_and!.
    + lia.
    + intros e [->|He]%elem_of_cons; simpl; [lia|auto].
    + destruct Hr3 as [->|(e & He & ->)]; [|right; exists e; split; [by right|done]].
      destruct H3 as [->|H3]; [by left|]. right. exists (s, x). split; [by left|done].
Qed.

(** The running minimum is the next index above the one expected. *)
Lemma get_min_seen secs st : store_ok secs st -> get_min_seen_secret st = next_index secs.
Proof.
  intros Hst. pose proof (store_length _ _ Hst) as Hl. pose proof (store_bound _ _ Hst) as Hm0.
  assert (next_index secs <= MAX_INDEX) as Hm1 by (unfold next_index; lia).
  destruct (min_fold (old_secrets st) MAX_INDEX) as (Hr1 & Hr2 & Hr3).
  fold (get_min_seen_secret st) in *. apply Z.le_antisymm.
  - destruct (decide (next_index secs = MAX_INDEX)) as [->|Hne]; [done|].
    destruct (place_spec (next_index secs)) as [Hp _].
    assert ((secret_at st (place_secret (next_index secs))).2 = next_index secs) as Heq.
    { apply (bucket_unique (next_index secs) (place_secret (next_index secs)));
        [by apply (store_bucket _ _ Hst)|lia|done|lia]. }
    rewrite <- Heq. apply Hr2. eapply list_elem_of_lookup_2, secret_at_lookup; done.
  - destruct Hr3 as [->|(e & He & ->)]; [done|].
    apply list_elem_of_lookup_1 in He as [i Hi]. pose proof (lookup_lt_Some _ _ _ Hi).
    rewrite secret_at_lookup in Hi by lia. injection Hi as <-.
    apply (bucket_ge _ i); [apply (store_bucket _ _ Hst)|]; lia.
Qed.

Lemma secrets_new_ok : store_ok [] secrets_new.
Proof.
  split.
  - done.
  - done.
  - intros i Hi. left. split; [|unfold next_index; simpl; lia].
    unfold secret_at, secrets_new. cbn [old_secrets].
    rewrite nth_lookup, lookup_replicate_2 by lia. done.
  - intros j s i Hj. done.
Qed.

Lemma index_of_range (secs : list secret) j : 0 <= next_index secs -> (j < length secs)%nat ->
  next_index secs <= index_of j < MAX_INDEX.
Proof. unfold next_index, index_of. lia. Qed.

Lemma next_index_snoc secs s : next_index (secs ++ [s]) = next_index secs - 1.
Proof. unfold next_index. rewrite length_app. simpl. lia. Qed.

(** Below the bucket [p] of the next index, the store holds [idx + 2^i]. *)
Lemma bucket_below idx i x : 0 <= idx -> idx < MAX_INDEX -> (i < place_secret idx)%nat ->
  bucket_ok (idx + 1) i x -> x = idx + 2 ^ Z.of_nat i /\ place_secret x = i /\ x < MAX_INDEX.
Proof.
  intros H0 Hidx Hi Hx. destruct (place_spec idx) as (Hp & Hd & _). pose proof (pow2_pos i) as Hpos.
  assert (2 ^ Z.of_nat i | idx) as Hdi.
  { eapply Z.divide_trans; [|apply Hd]. exists (2 ^ Z.of_nat (place_secret idx - i)).
    rewrite <- Z.pow_add_r by lia. f_equal. lia. }
  assert (place_secret (idx + 2 ^ Z.of_nat i) = i) as Hpl.
  { apply place_unique; [lia|apply Z.divide_add_r; [done|apply Z.divide_refl]|].
    assert (Z.testbit idx (Z.of_nat i) = false) as Hb by (apply (low_bits _ _ _ Hd); lia).
    destruct Hdi as [q ->]. rewrite <- Z.mul_succ_l, Z.mul_pow2_bits, Z.sub_diag, Z.bit0_odd by lia.
    rewrite Z.mul_pow2_bits, Z.sub_diag, Z.bit0_odd in Hb by lia.
    by rewrite Z.odd_succ, <- Z.negb_odd, Hb. }
  assert (idx + 2 ^ Z.of_nat i < MAX_INDEX) as Hlt.
  { assert (2 ^ Z.of_nat (place_secret idx) | MAX_INDEX) as Hdm.
    { rewrite MAX_INDEX_eq. exists (2 ^ (48 - Z.of_nat (place_secret idx))).
      rewrite <- Z.pow_add_r by lia. f_equal. lia. }
    pose proof (divide_gap _ _ _ Hd Hdm Hidx).
    assert (2 ^ Z.of_nat i < 2 ^ Z.of_nat (place_secret idx)) by (apply Z.pow_lt_mono_r; lia). lia. }
  assert (x = idx + 2 ^ Z.of_nat i) as ->; [|done].
  apply (bucket_unique (idx + 1) i); [done|lia|done|]. intros k Hk Hpk.
  destruct (place_spec k) as (_ & Hkd & _). rewrite Hpk in Hkd.
  pose proof (divide_gap i _ _ Hdi Hkd ltac:(lia)). lia.
Qed.

(** The checks [provide_secret] makes on the next index. *)
Definition consistent (st : CounterpartyCommitmentSecrets) (idx : Z) (s : secret) : Prop :=
  forall i, (i < place_secret idx)%nat ->
    derive_loop (place_secret idx) (secret_at st i).2 s = (secret_at st i).1.

Lemma provide_next secs st s : store_ok secs st -> 0 < next_index secs ->
  let idx := next_index secs - 1 in
  provide_secret idx s st = Ok (mkSecrets (<[place_secret idx := (s, idx)]> (old_secrets st)))
    /\ consistent st idx s \/
  provide_secret idx s st = Err tt /\ ~ consistent st idx s.
Proof.
  intros Hst Hpos idx. unfold provide_secret. rewrite (get_min_seen secs st Hst).
  assert ((next_index secs <=? idx) = false) as -> by (apply Z.leb_gt; lia).
  destruct (existsb _ _) eqn:Hex.
  - right. split; [done|]. intros Hc. apply existsb_exists in Hex as (i & Hi%in_seq & Hd).
    destruct (secret_at st i) as [os oi] eqn:He. apply bool_decide_eq_true in Hd.
    specialize (Hc i ltac:(lia)). rewrite He in Hc. done.
  - left. split; [done|]. intros i Hi.
    destruct (decide (derive_loop (place_secret idx) (secret_at st i).2 s = (secret_at st i).1)) as [|Hne]; [done|].
    assert (existsb (fun i => let '(old_secret, old_idx) := secret_at st i in
        bool_decide (derive_secret s (place_secret idx) old_idx <> old_secret)) (seq 0 (place_secret idx)) = true) as Ht.
    { apply existsb_exists. exists i. split; [apply in_seq; lia|].
      destruct (secret_at st i) as [os oi]. by apply bool_decide_eq_true. }
    rewrite Hex in Ht. done.
Qed.

Lemma secret_at_insert st p e i : (p < length (old_secrets st))%nat ->
  secret_at (mkSecrets (<[p := e]> (old_secrets st))) i = if decide (i = p) then e else secret_at st i.
Proof.
  intros Hp. unfold secret_at. cbn [old_secrets]. rewrite !nth_lookup. case_decide as Hi.
  - subst i. by rewrite list_lookup_insert_eq.
  - by rewrite list_lookup_insert_ne.
Qed.

(** A consistent secret is derived from the one revealed after it. *)
Lemma derive_through secs st s j s' : store_ok secs st -> 0 < next_index secs ->
  let idx := next_index secs - 1 in
  consistent st idx s -> secs !! j = Some s' ->
  low_mask (index_of j) (place_secret idx) = idx ->
  derive_loop (place_secret idx) (index_of j) s = s'.
Proof.
  intros Hst Hpos idx Hc Hj Hm. set (y := index_of j) in *. set (p := place_secret idx) in *.
  pose proof (lookup_lt_Some _ _ _ Hj) as Hlt.
  pose proof (index_of_range secs j (store_bound _ _ Hst) Hlt) as Hy. fold y in Hy.
  destruct (place_spec idx) as (Hp & Hpd & _). fold p in Hp, Hpd.
  destruct (top_bit p y) as [Hz|(i & Hi & Hb & Hz)].
  - rewrite <- (low_mask_zeros y 0 p) in Hm by (lia || (intros; apply Hz; lia)).
    rewrite low_mask_fix in Hm by apply Z.divide_1_l. lia.
  - assert (bucket_ok (idx + 1) i (secret_at st i).2) as Hbk.
    { replace (idx + 1) with (next_index secs) by lia. apply (store_bucket _ _ Hst). lia. }
    destruct (bucket_below idx i _ ltac:(lia) ltac:(unfold next_index in *; lia) Hi Hbk) as (Hx & Hxp & _).
    assert (low_mask y i = (secret_at st i).2) as Hmi.
    { rewrite Hx, low_mask_succ, Hb, (low_mask_zeros y (S i) p), Hm by (lia || (intros; apply Hz; lia)). done. }
    pose proof (store_value _ _ Hst j s' i Hj ltac:(lia) Hmi) as Hv. fold y in Hv.
    rewrite (derive_top p i y s Hi Hb Hz). rewrite <- Hv. f_equal.
    pose proof (Hc i Hi) as Hci. fold p in Hci. rewrite <- Hci, (derive_top p i (secret_at st i).2 s Hi).
    + rewrite derive_low; [done|]. intros k Hk. rewrite <- Hmi. apply (low_bits _ i); [apply low_mask_divide|done].
    + rewrite <- Hmi, low_mask_bit by lia. done.
    + intros k Hk. rewrite <- Hmi, low_mask_bit by lia. by apply Hz.
Qed.

Lemma provide_step secs st s : store_ok secs st -> 0 < next_index secs ->
  let idx := next_index secs - 1 in
  consistent st idx s ->
  store_ok (secs ++ [s]) (mkSecrets (<[place_secret idx := (s, idx)]> (old_secrets st))).
Proof.
  intros Hst Hpos idx Hc. pose proof (store_length _ _ Hst) as Hl.
  destruct (place_spec idx) as (Hp & Hpd & _). set (p := place_secret idx) in *.
  assert (idx < MAX_INDEX) as Hidx by (unfold idx, next_index; lia).
  split.
  - cbn [old_secrets]. by rewrite length_insert.
  - rewrite next_index_snoc. lia.
  - intros i Hi. rewrite next_index_snoc, secret_at_insert by lia. fold idx. case_decide as Hip.
    + subst i. right. simpl. split_and!; [lia|lia|done|lia].
    + destruct (store_bucket _ _ Hst i Hi) as [[Hx Hn]|(Hx & Hxp & Hn)].
      * left. split; [done|]. intros k Hk. destruct (decide (k = idx)) as [->|]; [by intros ?|apply Hn; lia].
      * right. split_and!; [lia|lia|done|]. intros k Hk.
        destruct (decide (k = idx)) as [->|]; [by intros ?|apply Hn; lia].
  - intros j s' i Hj Hi Hm. rewrite secret_at_insert in Hm |- * by lia.
    assert (index_of (length secs) = idx) as Hlast by (unfold index_of, idx, next_index; lia).
    apply lookup_snoc_Some in Hj as [[Hlt Hj]|[-> <-]].
    + case_decide as Hip; [|by apply (store_value _ _ Hst j)]. subst i. simpl in *.
      by apply (derive_through secs st).
    + rewrite Hlast in *. case_decide as Hip.
      * subst i. simpl. apply derive_low. intros k Hk. by apply (low_bits _ p).
      * pose proof (bucket_ge _ _ _ (store_bucket _ _ Hst i Hi) ltac:(unfold next_index; lia)).
        pose proof (low_mask_range idx i ltac:(lia)). lia.
Qed.

Lemma provide_from_ok secs0 secs st st' : store_ok secs0 st ->
  Z.of_nat (length (secs0 ++ secs)) <= MAX_INDEX ->
  provide_from (length secs0) secs st = Ok st' -> store_ok (secs0 ++ secs) st'.
Proof.
  revert secs0 st. induction secs as [|s secs IH]; intros secs0 st Hst Hlen Hpr; simpl in Hpr.
  - injection Hpr as <-. by rewrite app_nil_r.
  - rewrite length_app in Hlen. simpl in Hlen.
    assert (0 < next_index secs0) as Hpos by (unfold next_index; lia).
    assert (index_of (length secs0) = next_index secs0 - 1) as Hi by (unfold index_of, next_index; lia).
    rewrite Hi in Hpr.
    destruct (provide_next secs0 st s Hst Hpos) as [[Heq Hc]|[Heq Hc]]; rewrite Heq in Hpr; [|done].
    change (provide_from (S (length secs0)) secs
      (mkSecrets (<[place_secret (next_index secs0 - 1) := (s, next_index secs0 - 1)]> (old_secrets st))) = Ok st')
      in Hpr.
    replace (secs0 ++ s :: secs) with ((secs0 ++ [s]) ++ secs) by by rewrite <- app_assoc.
    eapply IH; [by apply provide_step|rewrite !length_app; simpl; lia|].
    rewrite length_app, Nat.add_1_r. exact Hpr.
Qed.

Lemma get_from_spec entries i0 idx : (i0 + length entries = 49)%nat ->
  match get_from entries i0 idx with
  | Some v => exists n e, entries !! n = Some e /\ mask_index idx (i0 + n) = e.2 /\
                          v = derive_loop (i0 + n) idx e.1
  | None => forall n e, entries !! n = Some e -> mask_index idx (i0 + n) <> e.2
  end.
Proof.
  revert i0. induction entries as [|[s x] entries IH]; intros i0 Hl; cbn [get_from]; [done|].
  destruct (Z.eqb_spec (mask_index idx i0) x) as [Heq|Hne].
  - exists 0%nat, (s, x). rewrite Nat.add_0_r. done.
  - simpl in Hl. specialize (IH (S i0) ltac:(lia)). destruct (get_from entries (S i0) idx) as [v|].
    + destruct IH as (n & e & He & Hm & Hv). exists (S n), e.
      rewrite Nat.add_succ_r. done.
    + intros [|n] e He; [by injection He as <-; rewrite Nat.add_0_r|].
      rewrite Nat.add_succ_r. by apply IH.
Qed.

Lemma get_secret_ok secs st : store_ok secs st ->
  (forall j s, secs !! j = Some s -> get_secret st (index_of j) = Return (Some s)) /\
  (forall idx, 0 <= idx < next_index secs -> get_secret st idx = Return None).
Proof.
  intros Hst. pose proof (store_length _ _ Hst) as Hl. pose proof (store_bound _ _ Hst) as Hb.
  assert (next_index secs <= MAX_INDEX) as Hmax by (unfold next_index; lia).
  assert (forall idx i, 0 <= idx < MAX_INDEX -> (i <= 48)%nat -> mask_index idx i = low_mask idx i) as Hmask
    by (intros; apply mask_index_div; [rewrite MAX_INDEX_eq in *; lia|done]).
  split.
  - intros j s Hj. pose proof (index_of_range secs j Hb (lookup_lt_Some _ _ _ Hj)) as Hy.
    unfold get_secret. pose proof (get_from_spec (old_secrets st) 0 (index_of j) ltac:(lia)) as Hg.
    simpl in Hg. destruct (get_from _ _ _) as [v|].
    + destruct Hg as (n & e & He & Hm & ->). pose proof (lookup_lt_Some _ _ _ He).
      rewrite secret_at_lookup in He by lia. injection He as <-.
      rewrite Hmask in Hm by lia. do 2 f_equal. apply (store_value _ _ Hst); [done|lia|done].
    + destruct (bucket_cover (next_index secs) (index_of j) (fun i => (secret_at st i).2))
        as (i & Hi & Hc); [lia|lia|apply (store_bucket _ _ Hst)|].
      destruct (Hg i (secret_at st i)); [apply secret_at_lookup; lia|]. by rewrite Hmask by lia.
  - intros idx Hidx. unfold get_secret. rewrite (get_min_seen secs st Hst).
    pose proof (get_from_spec (old_secrets st) 0 idx ltac:(lia)) as Hg. simpl in Hg.
    destruct (get_from _ _ _) as [v|].
    + destruct Hg as (n & e & He & Hm & _). pose proof (lookup_lt_Some _ _ _ He).
      rewrite secret_at_lookup in He by lia. injection He as <-. rewrite Hmask in Hm by lia.
      pose proof (bucket_ge _ _ _ (store_bucket _ _ Hst n ltac:(lia)) Hmax).
      pose proof (low_mask_range idx n ltac:(lia)). lia.
    + by rewrite (proj2 (Z.ltb_lt _ _)) by lia.
Qed.

(** ** An honest counterparty *)

Lemma derive_split n p y s : (p <= n)%nat ->
  derive_loop n y s = derive_loop p y (derive_loop n (low_mask y p) s).
Proof.
  intros Hp. revert s. induction Hp as [|n Hp IH]; intros s.
  - rewrite (derive_low p (low_mask y p)); [done|]. intros k. apply low_bits, low_mask_divide.
  - cbn [derive_loop]. rewrite !bit_set_testbit, low_mask_bit by lia. apply IH.
Qed.

Definition honest (seed : secret) (n : nat) : list secret :=
  map (fun j => build_commitment_secret seed (index_of j)) (seq 0 n).

Lemma honest_lookup seed n j s : honest seed n !! j = Some s ->
  (j < n)%nat /\ s = build_commitment_secret seed (index_of j).
Proof.
  unfold honest. rewrite list_lookup_fmap. intros (k & Hk & ->)%fmap_Some.
  apply lookup_seq in Hk as [-> Hk]. done.
Qed.

Lemma honest_consistent seed n st : store_ok (honest seed n) st -> 0 < next_index (honest seed n) ->
  consistent st (next_index (honest seed n) - 1)
             (build_commitment_secret seed (next_index (honest seed n) - 1)).
Proof.
  intros Hst Hpos i Hi. set (m := next_index (honest seed n)) in *. set (idx := m - 1) in *.
  assert (length (honest seed n) = n) as Hlen by (unfold honest; by rewrite length_map, length_seq).
  destruct (place_spec idx) as (Hp & Hpd & _).
  assert (bucket_ok (idx + 1) i (secret_at st i).2) as Hbk.
  { replace (idx + 1) with m by lia. apply (store_bucket _ _ Hst). lia. }
  destruct (bucket_below idx i _ ltac:(lia) ltac:(unfold idx, m, next_index; lia) Hi Hbk) as (Hx & Hxp & Hxm).
  set (x := (secret_at st i).2) in *. pose proof (pow2_pos i) as Hpi.
  set (j := Z.to_nat (MAX_INDEX - 1 - x)).
  assert (index_of j = x) as Hj by (unfold index_of, j; lia).
  assert ((secret_at st i).1 = build_commitment_secret seed x) as ->.
  { destruct (lookup_lt_is_Some_2 (honest seed n) j) as [s Hs].
    { unfold j. unfold m, next_index in *. lia. }
    pose proof (store_value _ _ Hst j s i Hs ltac:(lia)) as Hv. rewrite Hj in Hv.
    destruct (place_spec x) as (_ & Hxd & _). rewrite Hxp in Hxd.
    rewrite (low_mask_fix x i Hxd) in Hv. specialize (Hv eq_refl).
    rewrite derive_low in Hv by (intros k Hk; by apply (low_bits _ i)).
    apply honest_lookup in Hs as [_ ->]. by rewrite Hv, Hj. }
  assert (low_mask x (place_secret idx) = idx) as Hm.
  { unfold low_mask. rewrite Hx. destruct Hpd as [q Hq]. rewrite Hq at 1.
    pose proof (pow2_pos (place_secret idx)).
    assert (2 ^ Z.of_nat i < 2 ^ Z.of_nat (place_secret idx)) by (apply Z.pow_lt_mono_r; lia).
    rewrite Z.div_add_l, (Z.div_small (2 ^ Z.of_nat i)) by lia. lia. }
  unfold build_commitment_secret. rewrite (derive_split 48 (place_secret idx) x), Hm by done. done.
Qed.

Lemma honest_snoc seed n :
  honest seed (S n) = honest seed n ++ [build_commitment_secret seed (index_of n)].
Proof. unfold honest. by rewrite seq_S, map_app. Qed.

Lemma provide_from_snoc j secs s st : provide_from j (secs ++ [s]) st =
  provide_from j secs st ≫= provide_secret (index_of (j + length secs)) s.
Proof.
  revert j st. induction secs as [|s' secs IH]; intros j st; cbn [app provide_from length].
  - rewrite Nat.add_0_r. cbn. by destruct (provide_secret _ _ _).
  - rewrite Nat.add_succ_r. cbn. destruct (provide_secret _ s' _); cbn; [|done]. apply IH.
Qed.

Lemma honest_accepted seed n : Z.of_nat n <= MAX_INDEX ->
  exists st, provide_all (honest seed n) = Ok st /\ store_ok (honest seed n) st.
Proof.
  induction n as [|n IH]; intros Hn.
  - exists secrets_new. split; [done|apply secrets_new_ok].
  - destruct IH as (st & Hpr & Hst); [lia|]. unfold provide_all in *.
    assert (length (honest seed n) = n) as Hlen by (unfold honest; by rewrite length_map, length_seq).
    assert (0 < next_index (honest seed n)) as Hpos by (unfold next_index; lia).
    assert (index_of n = next_index (honest seed n) - 1) as Hi by (unfold index_of, next_index; lia).
    rewrite honest_snoc, provide_from_snoc, Hpr, Hlen, Nat.add_0_l, Hi.
    pose proof (honest_consistent seed n st Hst Hpos) as Hc.
    destruct (provide_next _ st (build_commitment_secret seed (next_index (honest seed n) - 1)) Hst Hpos)
      as [[Heq _]|[_ Hnc]]; [|done].
    eexists. split; [exact Heq|]. by apply provide_step.
Qed.

(** ** The properties *)

(** C13: whatever secrets a counterparty reveals, one by one from the highest
    index down, if every one of them is accepted then the 49-entry store gives
    back exactly the secret revealed for each of the indices, and gives [None],
    without the assertion failing, for every index not revealed yet.  So the
    store lets no revoked state go unpunishable. *)
Theorem accepted_secrets_retrievable secs st :
  Z.of_nat (length secs) <= MAX_INDEX -> provide_all secs = Ok st ->
  (forall j s, secs !! j = Some s -> get_secret st (index_of j) = Return (Some s)) /\
  (forall idx, 0 <= idx < next_index secs -> get_secret st idx = Return None) /\
  get_min_seen_secret st = next_index secs.
Proof.
  intros Hlen Hpr. assert (store_ok secs st) as Hst
    by (apply (provide_from_ok [] secs secrets_new); [apply secrets_new_ok|done|done]).
  destruct (get_secret_ok secs st Hst) as [H1 H2]. split_and!; [done|done|by apply get_min_seen].
Qed.

(** A counterparty that derives its secrets from a seed, as BOLT 3 says, is
    never refused: all its secrets are accepted in turn, and each of them is
    afterwards the one the store returns for its index. *)
Theorem seed_secrets_accepted seed n :
  Z.of_nat n <= MAX_INDEX ->
  exists st, provide_all (honest seed n) = Ok st /\
    forall j, (j < n)%nat ->
      get_secret st (index_of j) = Return (Some (build_commitment_secret seed (index_of j))).
Proof.
  intros Hn. destruct (honest_accepted seed n Hn) as (st & Hpr & Hst). exists st. split; [done|].
  intros j Hj. apply (get_secret_ok _ _ Hst). unfold honest.
  rewrite list_lookup_fmap, lookup_seq_lt by done. done.
Qed.

(** [provide_secret] on the next index accepts exactly the secrets that derive
    the ones stored in the lower buckets. *)
Lemma provide_secret_exact secs st s :
  Z.of_nat (length secs) < MAX_INDEX -> provide_all secs = Ok st ->
  (is_ok (provide_secret (index_of (length secs)) s st) = true <->
   consistent st (index_of (length secs)) s).
Proof.
  intros Hlen Hpr. assert (store_ok secs st) as Hst
    by (apply (provide_from_ok [] secs secrets_new); [apply secrets_new_ok|simpl; lia|done]).
  assert (0 < next_index secs) as Hpos by (unfold next_index; lia).
  assert (index_of (length secs) = next_index secs - 1) as -> by (unfold index_of, next_index; lia).
  destruct (provide_next secs st s Hst Hpos) as [[-> Hc]|[-> Hc]]; simpl; naive_solver.
Qed.

End secrets.

(** A stand-in hash for the examples: it reverses its input and adds one. *)
Definition toy_hash (l : list Z) : list Z := map (fun b => (b + 1) mod 256) (reverse l).

Lemma accepted_secrets_retrievable_witness :
  exists st, provide_all toy_hash (honest toy_hash (replicate 32 7) 5) = Ok st /\
    get_secret toy_hash st (index_of 3)
      = Return (Some (build_commitment_secret toy_hash (replicate 32 7) (index_of 3))).
Proof.
  eexists. split; [vm_compute; reflexivity|].
  eapply (accepted_secrets_retrievable toy_hash (honest toy_hash (replicate 32 7) 5)).
  - vm_compute. discriminate.
  - vm_compute. reflexivity.
  - reflexivity.
Defined.

Lemma seed_secrets_accepted_witness :
  exists st, provide_all toy_hash (honest toy_hash (replicate 32 7) 9) = Ok st.
Proof.
  destruct (seed_secrets_accepted toy_hash (replicate 32 7) 9) as (st & H & _).
  - vm_compute. discriminate.
  - exists st. exact H.
Defined.
