(* ===== verification/Keys.v ===== *)
(** * Channel keys (lightning/src/ln/channel_keys.rs, lightning/src/ln/chan_utils.rs)

    The libraries the code calls are the class [Bitcoin]: SHA-256, RIPEMD-160,
    the curve operations of secp256k1 and the encoding of keys.  [BitcoinLaws]
    lists the documented facts the theorems use.  The derivation of per-commitment
    keys is modelled on both sides: from secret keys and from public keys only. *)

From Stdlib Require Import ZArith Lia Bool.
From S2P Require Import Prelude.

Local Open Scope Z_scope.

Definition bytes : Type := list Z.

Class Bitcoin := {
  SecretKey : Type;
  PublicKey : Type;
  Scalar : Type;
  PublicKey_eq :: EqDecision PublicKey;
  (** [PublicKey::from_secret_key] *)
  from_secret_key : SecretKey -> PublicKey;
  (** [PublicKey::serialize] *)
  serialize : PublicKey -> bytes;
  (** [SecretKey::from_slice], [SecretKey::secret_bytes] *)
  secret_from_slice : bytes -> option SecretKey;
  secret_bytes : SecretKey -> bytes;
  (** [Scalar::from_be_bytes] *)
  scalar_from_be_bytes : bytes -> option Scalar;
  (** [SecretKey::add_tweak], [SecretKey::mul_tweak] *)
  secret_add_tweak : SecretKey -> Scalar -> option SecretKey;
  secret_mul_tweak : SecretKey -> Scalar -> option SecretKey;
  (** [PublicKey::combine], [PublicKey::mul_tweak] *)
  public_combine : PublicKey -> PublicKey -> option PublicKey;
  public_mul_tweak : PublicKey -> Scalar -> option PublicKey;
  sha256 : bytes -> bytes;
  ripemd160 : bytes -> bytes;
  (** [PubkeyHash::hash], [Hash160::hash] *)
  hash160 : bytes -> bytes;
}.

Class BitcoinLaws `{Bitcoin} : Prop := {
  serialize_length k : length (serialize k) = 33%nat;
  sha256_bytes l : Forall (fits 8) (sha256 l);
  ripemd160_length l : length (ripemd160 l) = 20%nat;
  hash160_length l : length (hash160 l) = 20%nat;
  (** A hash is a valid secret key, up to a probability of [2^-127]. *)
  sha256_secret l : is_Some (secret_from_slice (sha256 l));
  (** The same bytes name the same residue as a key and as a scalar. *)
  slice_scalar l k : secret_from_slice l = Some k ->
    scalar_from_be_bytes l = scalar_from_be_bytes (secret_bytes k);
  secret_scalar k : is_Some (scalar_from_be_bytes (secret_bytes k));
  (** Public keys follow the operations on secret keys. *)
  combine_add s k t : scalar_from_be_bytes (secret_bytes k) = Some t ->
    public_combine (from_secret_key s) (from_secret_key k) = from_secret_key <$> secret_add_tweak s t;
  mul_mul s t : public_mul_tweak (from_secret_key s) t = from_secret_key <$> secret_mul_tweak s t;
}.

#[export] Instance run_fmap : FMap run :=
  fun A B f m => match m with Return a => Return (f a) | Panic => Panic end.

(** ** Public derivation (channel_keys.rs) *)

Section derivation.
Context `{Bitcoin}.

Definition add_public_key_tweak (base_point : PublicKey) (tweak : bytes) : run PublicKey :=
  hashkey ← unwrap (secret_from_slice tweak);
  unwrap (public_combine base_point (from_secret_key hashkey)).

Definition derive_public_key (per_commitment_point base_point : PublicKey) : run PublicKey :=
  add_public_key_tweak base_point (sha256 (serialize per_commitment_point ++ serialize base_point)).

(** [RevocationKey::from_basepoint] *)
Definition revocation_from_basepoint (countersignatory_basepoint per_commitment_point : PublicKey)
    : run PublicKey :=
  let rev_append_commit_hash_key :=
    sha256 (serialize countersignatory_basepoint ++ serialize per_commitment_point) in
  let commit_append_rev_hash_key :=
    sha256 (serialize per_commitment_point ++ serialize countersignatory_basepoint) in
  t1 ← unwrap (scalar_from_be_bytes rev_append_commit_hash_key);
  countersignatory_contrib ← unwrap (public_mul_tweak countersignatory_basepoint t1);
  t2 ← unwrap (scalar_from_be_bytes commit_append_rev_hash_key);
  broadcaster_contrib ← unwrap (public_mul_tweak per_commitment_point t2);
  unwrap (public_combine countersignatory_contrib broadcaster_contrib).

(** ** Secret derivation (chan_utils.rs) *)

Definition derive_private_key (per_commitment_point : PublicKey) (base_secret : SecretKey)
    : run SecretKey :=
  let res := sha256 (serialize per_commitment_point ++ serialize (from_secret_key base_secret)) in
  t ← unwrap (scalar_from_be_bytes res);
  unwrap (secret_add_tweak base_secret t).

Definition derive_private_revocation_key
    (per_commitment_secret countersignatory_revocation_base_secret : SecretKey) : run SecretKey :=
  let countersignatory_revocation_base_point := from_secret_key countersignatory_revocation_base_secret in
  let per_commitment_point := from_secret_key per_commitment_secret in
  let rev_append_commit_hash_key :=
    sha256 (serialize countersignatory_revocation_base_point ++ serialize per_commitment_point) in
  let commit_append_rev_hash_key :=
    sha256 (serialize per_commitment_point ++ serialize countersignatory_revocation_base_point) in
  t1 ← unwrap (scalar_from_be_bytes rev_append_commit_hash_key);
  countersignatory_contrib ← unwrap (secret_mul_tweak countersignatory_revocation_base_secret t1);
  t2 ← unwrap (scalar_from_be_bytes commit_append_rev_hash_key);
  broadcaster_contrib ← unwrap (secret_mul_tweak per_commitment_secret t2);
  t3 ← unwrap (scalar_from_be_bytes (secret_bytes broadcaster_contrib));
  unwrap (secret_add_tweak countersignatory_contrib t3).

(** ** The keys of one commitment transaction *)

Record ChannelPublicKeys : Type := mkChannelPublicKeys {
  funding_pubkey : PublicKey;
  revocation_basepoint : PublicKey;
  payment_point : PublicKey;
  delayed_payment_basepoint : PublicKey;
  htlc_basepoint : PublicKey;
}.

Record TxCreationKeys : Type := mkTxCreationKeys {
  per_commitment_point : PublicKey;
  revocation_key : PublicKey;
  broadcaster_htlc_key : PublicKey;
  countersignatory_htlc_key : PublicKey;
  broadcaster_delayed_payment_key : PublicKey;
}.

#[export] Instance TxCreationKeys_eq : EqDecision TxCreationKeys.
Proof. solve_decision. Defined.

Definition derive_new (pcp broadcaster_delayed_payment_base broadcaster_htlc_base
    countersignatory_revocation_base countersignatory_htlc_base : PublicKey) : run TxCreationKeys :=
  revocation_key ← revocation_from_basepoint countersignatory_revocation_base pcp;
  broadcaster_htlc_key ← derive_public_key pcp broadcaster_htlc_base;
  countersignatory_htlc_key ← derive_public_key pcp countersignatory_htlc_base;
  broadcaster_delayed_payment_key ← derive_public_key pcp broadcaster_delayed_payment_base;
  mret (mkTxCreationKeys pcp revocation_key broadcaster_htlc_key countersignatory_htlc_key
          broadcaster_delayed_payment_key).

Definition from_channel_static_keys (pcp : PublicKey)
    (broadcaster_keys countersignatory_keys : ChannelPublicKeys) : run TxCreationKeys :=
  derive_new pcp (delayed_payment_basepoint broadcaster_keys) (htlc_basepoint broadcaster_keys)
    (revocation_basepoint countersignatory_keys) (htlc_basepoint countersignatory_keys).

(** ** Secret and public derivation agree *)

Context {laws : BitcoinLaws}.

Lemma derive_public_of_private pcp base :
  derive_public_key pcp (from_secret_key base) = from_secret_key <$> derive_private_key pcp base.
Proof.
  unfold derive_public_key, add_public_key_tweak, derive_private_key. cbn zeta.
  set (l := sha256 _). destruct (sha256_secret (serialize pcp ++ serialize (from_secret_key base))) as [k Hk].
  fold l in Hk. rewrite Hk, (slice_scalar l k Hk). destruct (secret_scalar k) as [t Ht].
  rewrite Ht. cbn. rewrite (combine_add base k t Ht). by destruct (secret_add_tweak base t).
Qed.

Lemma revocation_public_of_private pcs rbs :
  revocation_from_basepoint (from_secret_key rbs) (from_secret_key pcs) =
  from_secret_key <$> derive_private_revocation_key pcs rbs.
Proof.
  unfold revocation_from_basepoint, derive_private_revocation_key. cbn zeta.
  set (h1 := sha256 (serialize (from_secret_key rbs) ++ _)). set (h2 := sha256 (serialize (from_secret_key pcs) ++ _)).
  destruct (scalar_from_be_bytes h1) as [t1|]; cbn; [|done].
  rewrite mul_mul. destruct (secret_mul_tweak rbs t1) as [cc|]; cbn; [|done].
  destruct (scalar_from_be_bytes h2) as [t2|]; cbn; [|done].
  rewrite mul_mul. destruct (secret_mul_tweak pcs t2) as [bc|]; cbn; [|done].
  destruct (secret_scalar bc) as [t3 Ht3]. rewrite Ht3. cbn.
  rewrite (combine_add cc bc t3 Ht3). by destruct (secret_add_tweak cc t3).
Qed.

(** The two derivations of the per-commitment keys agree.  The public key
    a peer derives from base points only is the one of the secret key the owner
    derives, for HTLC and delayed-payment keys and for the revocation key, whose
    secret is known to whoever holds the revoked per-commitment secret and its
    own revocation base secret; and one side fails exactly when the other does. *)
Theorem key_derivations_agree (pcs base rbs : SecretKey) :
  let pcp := from_secret_key pcs in
  derive_public_key pcp (from_secret_key base) = from_secret_key <$> derive_private_key pcp base /\
  revocation_from_basepoint (from_secret_key rbs) pcp =
    from_secret_key <$> derive_private_revocation_key pcs rbs.
Proof. split; [apply derive_public_of_private|apply revocation_public_of_private]. Qed.

End derivation.

(** ** A concrete instance

    The additive group of the integers, with toy hashes, satisfies the laws. *)

#[export] Instance toy_bitcoin : Bitcoin := {|
  SecretKey := Z;
  PublicKey := Z;
  Scalar := Z;
  PublicKey_eq := Z.eq_dec;
  from_secret_key s := s;
  serialize k := replicate 32 0 ++ [k];
  secret_from_slice l := Some (nth 0 l 0);
  secret_bytes k := [k];
  scalar_from_be_bytes l := Some (nth 0 l 0);
  secret_add_tweak s t := Some (s + t);
  secret_mul_tweak s t := Some (s * t);
  public_combine a b := Some (a + b);
  public_mul_tweak a t := Some (a * t);
  sha256 l := replicate 32 (foldl (fun acc b => 3 * acc + b) 1 l mod 256);
  ripemd160 l := replicate 20 (foldl Z.add 0 l);
  hash160 l := replicate 20 (foldl Z.add 1 l);
|}.

#[export] Instance toy_laws : BitcoinLaws.
Proof.
  split; try done.
  { intros l. apply Forall_replicate. apply Z.mod_pos_bound. lia. }
  intros s k t Ht. injection Ht as <-. done.
Qed.

Lemma key_derivations_agree_witness :
  exists k, derive_private_revocation_key (H := toy_bitcoin) 5 9 = Return k /\
    revocation_from_basepoint (H := toy_bitcoin) 9 5 = Return k.
Proof.
  eexists. split; [vm_compute; reflexivity|].
  exact (proj2 (key_derivations_agree (H := toy_bitcoin) 5 7 9)).
Defined.
