(* ===== verification/Order.v ===== *)
(** * Comparison functions and sorting

    Rust's [Ordering]-valued comparisons, their lexicographic composition
    ([Ordering::then]), and sorting by them.  [slice::sort_unstable_by] and
    [slice::binary_search_by] are specified up to the choice the documentation
    leaves open. *)

From Stdlib Require Import ZArith Lia Bool Sorting.Sorted.
From S2P Require Import Prelude.
From S2P Require Import Features.

Local Open Scope Z_scope.

(** [Ordering::then] *)
Definition then_cmp (c d : comparison) : comparison := match c with Eq => d | _ => c end.
Definition is_gt (c : comparison) : bool := match c with Gt => true | _ => false end.

(** A comparison that is a total preorder. *)
Class CmpLaws {A} (cmp : A -> A -> comparison) : Prop := {
  cmp_antisym x y : cmp y x = CompOpp (cmp x y);
  cmp_eq x y z : cmp x y = Eq -> cmp x z = cmp y z;
  cmp_lt x y z : cmp x y = Lt -> cmp y z = Lt -> cmp x z = Lt;
}.

Arguments cmp_antisym {A} cmp {_}.
Arguments cmp_eq {A} cmp {_}.
Arguments cmp_lt {A} cmp {_}.

Definition cmp_le {A} (cmp : A -> A -> comparison) (x y : A) : Prop := cmp x y <> Gt.

Section laws.
Context {A : Type} (cmp : A -> A -> comparison) `{!CmpLaws cmp}.

Lemma cmp_refl x : cmp x x = Eq.
Proof. pose proof (cmp_antisym cmp x x) as H. by destruct (cmp x x). Qed.

Lemma cmp_le_total x y : cmp_le cmp x y \/ cmp_le cmp y x.
Proof. unfold cmp_le. rewrite (cmp_antisym cmp x y). destruct (cmp x y); simpl; auto. Qed.

Lemma cmp_gt_le x y : cmp x y = Gt -> cmp_le cmp y x.
Proof. intros H. unfold cmp_le. rewrite (cmp_antisym cmp x y), H. done. Qed.

Lemma cmp_le_trans x y z : cmp_le cmp x y -> cmp_le cmp y z -> cmp_le cmp x z.
Proof.
  unfold cmp_le. intros Hxy Hyz. destruct (cmp x y) eqn:E1; [by rewrite (cmp_eq cmp _ _ z E1)| |done].
  destruct (cmp y z) eqn:E2; [| |done].
  - assert (cmp z x = cmp y x) as Hz by (apply (cmp_eq cmp); rewrite (cmp_antisym cmp y z), E2; done).
    rewrite (cmp_antisym cmp z x), Hz, (cmp_antisym cmp x y), E1. done.
  - by rewrite (cmp_lt cmp _ _ _ E1 E2).
Qed.
End laws.

#[export] Instance Z_cmp_laws {A} (f : A -> Z) : CmpLaws (fun x y => f x ?= f y).
Proof.
  split; intros x y.
  - apply Z.compare_antisym.
  - intros z H%Z.compare_eq_iff. by rewrite H.
  - intros z H1 H2. rewrite Z.compare_lt_iff in *. lia.
Qed.

#[export] Instance slice_cmp_laws : CmpLaws slice_cmp.
Proof.
  assert (forall l r, slice_cmp r l = CompOpp (slice_cmp l r)) as Hanti.
  { induction l as [|x l IH]; intros [|y r]; simpl; try done.
    rewrite (Z.compare_antisym x y). destruct (x ?= y); simpl; auto. }
  split; [apply Hanti| |].
  - intros x y. revert y. induction x as [|a x IH]; intros [|b y] z; simpl; try done.
    destruct (Z.compare_spec a b) as [->| |]; try done. intros H. destruct z as [|c z]; [done|].
    by rewrite (IH y z H).
  - induction x as [|a x IH]; intros [|b y] [|c z]; simpl; try done.
    destruct (Z.compare_spec a b) as [->|H|]; try done.
    + destruct (b ?= c); try done. apply IH.
    + intros _. destruct (Z.compare_spec b c) as [->|H'|]; intros; try done;
        by rewrite (proj2 (Z.compare_lt_iff _ _)) by lia.
Qed.

Lemma slice_cmp_Eq l r : slice_cmp l r = Eq <-> l = r.
Proof.
  split; [|intros ->; apply cmp_refl, slice_cmp_laws].
  revert r. induction l as [|x l IH]; intros [|y r]; simpl; try done.
  destruct (Z.compare_spec x y); try done. intros. f_equal; auto.
Qed.

#[export] Instance on_cmp_laws {A B} (cmp : B -> B -> comparison) (f : A -> B) `{!CmpLaws cmp} :
  CmpLaws (fun x y => cmp (f x) (f y)).
Proof. split; intros x y; [apply (cmp_antisym cmp)|intros z; apply (cmp_eq cmp)|intros z; apply (cmp_lt cmp)]. Qed.

#[export] Instance then_cmp_laws {A} (c d : A -> A -> comparison) `{!CmpLaws c} `{!CmpLaws d} :
  CmpLaws (fun x y => then_cmp (c x y) (d x y)).
Proof.
  split; intros x y.
  - rewrite (cmp_antisym c x y), (cmp_antisym d x y). by destruct (c x y).
  - intros z. destruct (c x y) eqn:E; try done. simpl. intros E'.
    by rewrite (cmp_eq c x y z E), (cmp_eq d x y z E').
  - intros z. destruct (c x y) eqn:E1; simpl; try done.
    + rewrite (cmp_eq c x y z E1). intros E1' H. destruct (c y z); simpl in *; try done.
      by apply (cmp_lt d x y).
    + intros _ H. destruct (c y z) eqn:E2; simpl in *; try done.
      * assert (c x z = Lt) as ->; [|done].
        assert (c z x = c y x) as Hz by (apply (cmp_eq c); rewrite (cmp_antisym c y z), E2; done).
        rewrite (cmp_antisym c z x), Hz, (cmp_antisym c x y), E1. done.
      * by rewrite (cmp_lt c x y z E1 E2).
Qed.

(** ** Sorting *)

Fixpoint insert_by {A} (cmp : A -> A -> comparison) (x : A) (l : list A) : list A :=
  match l with
  | [] => [x]
  | y :: l => if is_gt (cmp x y) then y :: insert_by cmp x l else x :: y :: l
  end.
(** [slice::sort_unstable_by] *)
Definition sort_by {A} (cmp : A -> A -> comparison) (l : list A) : list A :=
  foldr (insert_by cmp) [] l.

Section sorting.
Context {A : Type} (cmp : A -> A -> comparison) `{!CmpLaws cmp}.

Lemma insert_by_perm x l : insert_by cmp x l ≡ₚ x :: l.
Proof.
  induction l as [|y l IH]; simpl; [done|]. destruct (is_gt _); [|done].
  rewrite IH. apply Permutation_swap.
Qed.

Lemma sort_by_perm l : sort_by cmp l ≡ₚ l.
Proof. induction l as [|x l IH]; simpl; [done|]. by rewrite insert_by_perm, IH. Qed.

Lemma insert_by_sorted x l : StronglySorted (cmp_le cmp) l -> StronglySorted (cmp_le cmp) (insert_by cmp x l).
Proof.
  induction 1 as [|y l Hl IH Hy]; simpl; [repeat constructor|].
  destruct (is_gt (cmp x y)) eqn:E.
  - constructor; [done|]. rewrite insert_by_perm. constructor; [|done].
    apply cmp_gt_le; [done|]. by destruct (cmp x y).
  - assert (cmp_le cmp x y) as Hxy by (unfold cmp_le; by destruct (cmp x y)).
    constructor; [by constructor|]. constructor; [done|].
    eapply Forall_impl; [apply Hy|]. intros z Hz. by apply (cmp_le_trans cmp _ y).
Qed.

Lemma sort_by_sorted l : StronglySorted (cmp_le cmp) (sort_by cmp l).
Proof. induction l as [|x l IH]; simpl; [constructor|]. by apply insert_by_sorted. Qed.

(** Sorted lists with the same elements are equal when the order is antisymmetric
    on them, whatever algorithm sorted them. *)
Lemma sorted_unique l l' : l ≡ₚ l' ->
  (forall x y, x ∈ l -> y ∈ l -> cmp x y = Eq -> x = y) ->
  StronglySorted (cmp_le cmp) l -> StronglySorted (cmp_le cmp) l' -> l = l'.
Proof.
  revert l'. induction l as [|x l IH]; intros [|y l'] Hp Hanti Hs Hs'; try done.
  - by apply Permutation_nil_cons in Hp.
  - by apply Permutation_sym, Permutation_nil_cons in Hp.
  - apply StronglySorted_inv in Hs as [Hs Hx]. apply StronglySorted_inv in Hs' as [Hs' Hy].
    assert (x = y) as ->.
    { assert (y ∈ x :: l) as Hyl by (rewrite Hp; by left).
      assert (x ∈ y :: l') as Hxl by (rewrite <- Hp; by left).
      apply elem_of_cons in Hyl as [->|Hyl]; [done|]. apply elem_of_cons in Hxl as [->|Hxl]; [done|].
      apply Hanti; [by left|by right|].
      rewrite Forall_forall in Hx, Hy. specialize (Hx y Hyl). specialize (Hy x Hxl).
      unfold cmp_le in *. rewrite (cmp_antisym cmp x y) in Hy. by destruct (cmp x y). }
    f_equal. apply IH; [by apply Permutation_cons_inv in Hp| |done|done].
    intros a b Ha Hb. apply Hanti; by right.
Qed.

(** Inserting at a position that splits a sorted list keeps it sorted. *)
Lemma insert_at_sorted l1 l2 x : StronglySorted (cmp_le cmp) (l1 ++ l2) ->
  Forall (fun y => cmp_le cmp y x) l1 -> Forall (fun y => cmp_le cmp x y) l2 ->
  StronglySorted (cmp_le cmp) (l1 ++ x :: l2).
Proof.
  induction l1 as [|y l1 IH]; simpl; intros Hs H1 H2.
  - by constructor.
  - apply StronglySorted_inv in Hs as [Hs Hy]. apply Forall_cons in H1 as [H1 H1'].
    constructor; [by apply IH|]. apply Forall_app in Hy as [Hy1 Hy2].
    apply Forall_app; split; [done|]. by constructor.
Qed.
End sorting.

(** ** Binary search

    [binary_search_by] on a slice that the comparison splits into smaller, equal
    and greater elements: [Ok] with the index of some equal element, or [Err]
    with the only index where the probe may be inserted. *)

Class BinarySearch := {
  binary_search_by : forall {A}, (A -> comparison) -> list A -> result nat nat;
}.

Definition split_by {A} (f : A -> comparison) (l : list A) : Prop :=
  forall i j x y, (i < j)%nat -> l !! i = Some x -> l !! j = Some y ->
    match f x, f y with Gt, Gt => True | Gt, _ => False | Eq, Lt => False | _, _ => True end.

Class BinarySearchLaws `{BinarySearch} : Prop := {
  binary_search_spec {A} (f : A -> comparison) l : split_by f l ->
    match binary_search_by f l with
    | Ok i => exists x, l !! i = Some x /\ f x = Eq
    | Err i => (i <= length l)%nat /\ Forall (fun x => f x = Lt) (take i l) /\
               Forall (fun x => f x = Gt) (drop i l)
    end;
}.

(** The index at which the callers insert. *)
Definition search_index `{BinarySearch} {A} (f : A -> comparison) (l : list A) : nat :=
  match binary_search_by f l with Ok i => i | Err i => i end.

Lemma search_index_spec `{BinarySearchLaws} {A} (f : A -> comparison) l : split_by f l ->
  (search_index f l <= length l)%nat /\
  Forall (fun x => f x <> Gt) (take (search_index f l) l) /\
  Forall (fun x => f x <> Lt) (drop (search_index f l) l).
Proof.
  intros Hs. unfold search_index. pose proof (binary_search_spec f l Hs) as Hb.
  destruct (binary_search_by f l) as [i|i].
  - destruct Hb as (x & Hx & Heq). pose proof (lookup_lt_Some _ _ _ Hx) as Hi. split_and!; [lia| |].
    + apply Forall_lookup_2. intros k y Hy. apply lookup_take_Some in Hy as [Hy Hk].
      pose proof (Hs k i y x Hk Hy Hx) as Hm. rewrite Heq in Hm. by destruct (f y).
    + apply Forall_lookup_2. intros k y Hy. rewrite lookup_drop in Hy.
      destruct k as [|k]; [rewrite Nat.add_0_r in Hy; congruence|].
      pose proof (Hs i (i + S k)%nat x y ltac:(lia) Hx Hy) as Hm. rewrite Heq in Hm. by destruct (f y).
  - destruct Hb as (Hi & H1 & H2). split_and!; [done| |].
    + eapply Forall_impl; [exact H1|]. simpl. by intros x ->.
    + eapply Forall_impl; [exact H2|]. simpl. by intros x ->.
Qed.

(** A linear scan is one implementation. *)
Fixpoint linear_search {A} (f : A -> comparison) (l : list A) (i : nat) : result nat nat :=
  match l with
  | [] => Err i
  | x :: l => match f x with Lt => linear_search f l (S i) | Eq => Ok i | Gt => Err i end
  end.
#[export] Instance linear_binary_search : BinarySearch := {|
  binary_search_by A f l := linear_search f l 0;
|}.

Lemma linear_search_spec {A} (f : A -> comparison) l n : split_by f l ->
  match linear_search f l n with
  | Ok i => exists k x, i = (n + k)%nat /\ l !! k = Some x /\ f x = Eq
  | Err i => exists k, i = (n + k)%nat /\ (k <= length l)%nat /\ Forall (fun x => f x = Lt) (take k l) /\
               Forall (fun x => f x = Gt) (drop k l)
  end.
Proof.
  revert n. induction l as [|x l IH]; intros n Hs; simpl.
  - exists 0%nat. split_and!; [lia|done|constructor|constructor].
  - assert (split_by f l) as Hs' by (intros i j a b Hij Ha Hb; apply (Hs (S i) (S j)); [lia|done|done]).
    destruct (f x) eqn:E.
    + exists 0%nat, x. split_and!; [lia|done|done].
    + specialize (IH (S n) Hs'). destruct (linear_search f l (S n)) as [i|i].
      * destruct IH as (k & y & -> & Hy & Hey). exists (S k), y. split_and!; [lia|done|done].
      * destruct IH as (k & -> & Hk & H1 & H2). exists (S k). split_and!; [lia|lia| |done].
        by constructor.
    + exists 0%nat. split_and!; [lia|lia|constructor|]. simpl. constructor; [done|].
      apply Forall_lookup_2. intros k y Hy. pose proof (Hs 0%nat (S k) x y ltac:(lia) eq_refl Hy) as Hm.
      rewrite E in Hm. by destruct (f y).
Qed.

#[export] Instance linear_search_laws : BinarySearchLaws.
Proof.
  split. intros A f l Hs. pose proof (linear_search_spec f l 0 Hs) as H. cbn.
  destruct (linear_search f l 0) as [i|i].
  - destruct H as (k & x & -> & Hx & Hex). by exists x.
  - destruct H as (k & -> & Hk & H1 & H2). done.
Qed.
