(* ===== verification/Scripts.v ===== *)
(** * Scripts, witnesses and second-stage transactions (lightning/src/ln/chan_utils.rs)

    The witness scripts of a commitment transaction's outputs as the sequences
    of builder calls that make them, the HTLC transactions, and the recognition
    of an HTLC claim from a witness.  The script builder, address forms and
    signature encoding of the bitcoin crate are the class [ScriptLib]. *)

From Stdlib Require Import ZArith Lia Bool.
From S2P Require Import Prelude.
From S2P Require Import Features.
From S2P Require Import ChanUtils.
From S2P Require Import Keys.
From S2P Require Import Order.

Local Open Scope Z_scope.

(** ** Builder calls *)

Inductive opcode : Type :=
| OP_DUP | OP_HASH160 | OP_EQUAL | OP_EQUALVERIFY | OP_IF | OP_NOTIF | OP_ELSE | OP_ENDIF | OP_IFDUP
| OP_CHECKSIG | OP_CHECKSIGVERIFY | OP_CHECKMULTISIG | OP_SWAP | OP_SIZE | OP_DROP | OP_CSV | OP_CLTV
| OP_PUSHNUM_1 | OP_PUSHNUM_2.

Inductive instr : Type :=
| push_opcode (op : opcode)
| push_slice (data : bytes)
| push_int (n : Z).

(** The number of bytes of the minimal push of an integer, as Bitcoin defines
    it: one opcode up to 16, else a length byte and the little-endian digits with
    room for the sign. *)
Definition push_int_len (n : Z) : Z :=
  if (-1 <=? n) && (n <=? 16) then 1
  else if n <? 2 ^ 7 then 2
  else if n <? 2 ^ 15 then 3
  else if n <? 2 ^ 23 then 4
  else if n <? 2 ^ 31 then 5
  else 6.
Definition instr_len (i : instr) : Z :=
  match i with
  | push_opcode _ => 1
  | push_slice data => 1 + Z.of_nat (length data)
  | push_int n => push_int_len n
  end.
Definition instr_ok (i : instr) : Prop :=
  match i with
  | push_slice data => (length data <= 75)%nat
  | push_int n => 0 <= n < 2 ^ 39
  | push_opcode _ => True
  end.

Inductive EcdsaSighashType : Type := SighashAll | SinglePlusAnyoneCanPay.

Class ScriptLib `{Bitcoin} := {
  Signature : Type;
  (** [Builder::into_script] *)
  into_script : list instr -> bytes;
  (** [Script::to_p2wsh], [ScriptBuf::new_p2wpkh] *)
  to_p2wsh : bytes -> bytes;
  new_p2wpkh : bytes -> bytes;
  (** the element [Witness::push_ecdsa_signature] pushes *)
  signature_bytes : Signature -> EcdsaSighashType -> bytes;
}.

Class ScriptLaws `{ScriptLib} : Prop := {
  into_script_length l : Forall instr_ok l ->
    Z.of_nat (length (into_script l)) = zsum (map instr_len l);
}.

(** ** Transactions *)

Record OutPoint : Type := mkOutPoint { op_txid : bytes; vout : Z }.
Record TxIn : Type := mkTxIn {
  previous_output : OutPoint;
  script_sig : bytes;
  sequence : Z;
  witness : list bytes;
}.
Record TxOut : Type := mkTxOut { value : Z; script_pubkey : bytes }.
Record Transaction : Type := mkTransaction {
  version : Z;
  lock_time : Z;
  tx_input : list TxIn;
  tx_output : list TxOut;
}.

#[export] Instance OutPoint_eq : EqDecision OutPoint.
Proof. solve_decision. Defined.
#[export] Instance TxIn_eq : EqDecision TxIn.
Proof. solve_decision. Defined.
#[export] Instance TxOut_eq : EqDecision TxOut.
Proof. solve_decision. Defined.
#[export] Instance Transaction_eq : EqDecision Transaction.
Proof. solve_decision. Defined.

(** Information about an HTLC as it appears in a commitment transaction. *)
Record HTLCOutputInCommitment : Type := mkHTLC {
  offered : bool;
  amount_msat : Z;
  cltv_expiry : Z;
  payment_hash : bytes;
  transaction_output_index : option Z;
}.

Definition to_bitcoin_amount (htlc : HTLCOutputInCommitment) : Z := amount_msat htlc / 1000.

Definition is_data_equal (self other : HTLCOutputInCommitment) : bool :=
  Bool.eqb (offered self) (offered other) && (amount_msat self =? amount_msat other) &&
  (cltv_expiry self =? cltv_expiry other) && bool_decide (payment_hash self = payment_hash other).

(** [Amount] subtraction panics below zero. *)
Definition amount_sub (a b : Z) : run Z := unwrap (checked_sub a b).

Section scripts.
Context `{ScriptLib}.

(** ** Output scripts *)

Definition revokeable_redeemscript_len (contest_delay : Z) : Z :=
  let contest_delay_push_len := Z.of_nat (length (into_script [push_int contest_delay])) in
  6 + contest_delay_push_len + 34 * 2.

Definition get_revokeable_redeemscript (revocation_key : PublicKey) (contest_delay : Z)
    (broadcaster_delayed_payment_key : PublicKey) : bytes :=
  into_script [
    push_opcode OP_IF; push_slice (serialize revocation_key);
    push_opcode OP_ELSE; push_int contest_delay; push_opcode OP_CSV; push_opcode OP_DROP;
    push_slice (serialize broadcaster_delayed_payment_key);
    push_opcode OP_ENDIF; push_opcode OP_CHECKSIG].

Definition get_to_countersigner_keyed_anchor_redeemscript (payment_point : PublicKey) : bytes :=
  into_script [
    push_slice (serialize payment_point); push_opcode OP_CHECKSIGVERIFY; push_int 1; push_opcode OP_CSV].

Definition get_countersigner_payment_script (ct : ChannelTypeFeatures) (payment_key : PublicKey) : bytes :=
  if supports_anchors_zero_fee_htlc_tx ct
  then to_p2wsh (get_to_countersigner_keyed_anchor_redeemscript payment_key)
  else new_p2wpkh (hash160 (serialize payment_key)).

Definition shared_anchor_script_pubkey : bytes := into_script [push_int 1; push_slice [0x4e; 0x73]].

Definition get_keyed_anchor_redeemscript (funding_pubkey : PublicKey) : bytes :=
  into_script [
    push_slice (serialize funding_pubkey); push_opcode OP_CHECKSIG; push_opcode OP_IFDUP;
    push_opcode OP_NOTIF; push_int 16; push_opcode OP_CSV; push_opcode OP_ENDIF].

Definition build_keyed_anchor_input_witness (funding_key : PublicKey) (funding_sig : Signature) : list bytes :=
  [signature_bytes funding_sig SighashAll; get_keyed_anchor_redeemscript funding_key].

Definition make_funding_redeemscript_from_slices
    (broadcaster_funding_key countersignatory_funding_key : bytes) : bytes :=
  into_script (
    push_opcode OP_PUSHNUM_2 ::
    (if match slice_cmp broadcaster_funding_key countersignatory_funding_key with Lt => true | _ => false end
     then [push_slice broadcaster_funding_key; push_slice countersignatory_funding_key]
     else [push_slice countersignatory_funding_key; push_slice broadcaster_funding_key]) ++
    [push_opcode OP_PUSHNUM_2; push_opcode OP_CHECKMULTISIG]).

Definition make_funding_redeemscript (broadcaster countersignatory : PublicKey) : bytes :=
  make_funding_redeemscript_from_slices (serialize broadcaster) (serialize countersignatory).

(** ** HTLC scripts *)

Definition anchor_csv (ct : ChannelTypeFeatures) : list instr :=
  if supports_anchors_zero_fee_htlc_tx ct
  then [push_opcode OP_PUSHNUM_1; push_opcode OP_CSV; push_opcode OP_DROP] else [].

Definition get_htlc_redeemscript_with_explicit_keys (htlc : HTLCOutputInCommitment)
    (ct : ChannelTypeFeatures) (broadcaster_htlc_key countersignatory_htlc_key revocation_key : PublicKey)
    : bytes :=
  let payment_hash160 := ripemd160 (payment_hash htlc) in
  if offered htlc then
    into_script ([
      push_opcode OP_DUP; push_opcode OP_HASH160; push_slice (hash160 (serialize revocation_key));
      push_opcode OP_EQUAL; push_opcode OP_IF; push_opcode OP_CHECKSIG; push_opcode OP_ELSE;
      push_slice (serialize countersignatory_htlc_key); push_opcode OP_SWAP; push_opcode OP_SIZE;
      push_int 32; push_opcode OP_EQUAL; push_opcode OP_NOTIF; push_opcode OP_DROP; push_int 2;
      push_opcode OP_SWAP; push_slice (serialize broadcaster_htlc_key); push_int 2;
      push_opcode OP_CHECKMULTISIG; push_opcode OP_ELSE; push_opcode OP_HASH160;
      push_slice payment_hash160; push_opcode OP_EQUALVERIFY; push_opcode OP_CHECKSIG;
      push_opcode OP_ENDIF] ++ anchor_csv ct ++ [push_opcode OP_ENDIF])
  else
    into_script ([
      push_opcode OP_DUP; push_opcode OP_HASH160; push_slice (hash160 (serialize revocation_key));
      push_opcode OP_EQUAL; push_opcode OP_IF; push_opcode OP_CHECKSIG; push_opcode OP_ELSE;
      push_slice (serialize countersignatory_htlc_key); push_opcode OP_SWAP; push_opcode OP_SIZE;
      push_int 32; push_opcode OP_EQUAL; push_opcode OP_IF; push_opcode OP_HASH160;
      push_slice payment_hash160; push_opcode OP_EQUALVERIFY; push_int 2; push_opcode OP_SWAP;
      push_slice (serialize broadcaster_htlc_key); push_int 2; push_opcode OP_CHECKMULTISIG;
      push_opcode OP_ELSE; push_opcode OP_DROP; push_int (cltv_expiry htlc); push_opcode OP_CLTV;
      push_opcode OP_DROP; push_opcode OP_CHECKSIG;
      push_opcode OP_ENDIF] ++ anchor_csv ct ++ [push_opcode OP_ENDIF]).

Definition get_htlc_redeemscript (htlc : HTLCOutputInCommitment) (ct : ChannelTypeFeatures)
    (keys : TxCreationKeys) : bytes :=
  get_htlc_redeemscript_with_explicit_keys htlc ct (broadcaster_htlc_key keys)
    (countersignatory_htlc_key keys) (revocation_key keys).

(** ** HTLC transactions *)

Definition build_htlc_input (commitment_txid : bytes) (htlc : HTLCOutputInCommitment)
    (ct : ChannelTypeFeatures) : run TxIn :=
  index ← unwrap (transaction_output_index htlc);
  mret (mkTxIn (mkOutPoint commitment_txid index) []
          (if supports_anchors_zero_fee_htlc_tx ct then 1 else 0) []).

Definition build_htlc_output (feerate_per_kw contest_delay : Z) (htlc : HTLCOutputInCommitment)
    (ct : ChannelTypeFeatures) (broadcaster_delayed_payment_key revocation_key : PublicKey) : run TxOut :=
  let '(htlc_success_tx_fee_sat, htlc_timeout_tx_fee_sat) := second_stage_tx_fees_sat ct feerate_per_kw in
  let total_fee := if offered htlc then htlc_timeout_tx_fee_sat else htlc_success_tx_fee_sat in
  output_value ← amount_sub (to_bitcoin_amount htlc) total_fee;
  mret (mkTxOut output_value
          (to_p2wsh (get_revokeable_redeemscript revocation_key contest_delay broadcaster_delayed_payment_key))).

Definition build_htlc_transaction (commitment_txid : bytes) (feerate_per_kw contest_delay : Z)
    (htlc : HTLCOutputInCommitment) (ct : ChannelTypeFeatures)
    (broadcaster_delayed_payment_key revocation_key : PublicKey) : run Transaction :=
  txin ← build_htlc_input commitment_txid htlc ct;
  txout ← build_htlc_output feerate_per_kw contest_delay htlc ct broadcaster_delayed_payment_key revocation_key;
  let version := if supports_anchor_zero_fee_commitments ct then 3 else 2 in
  mret (mkTransaction version (if offered htlc then cltv_expiry htlc else 0) [txin] [txout]).

Definition build_htlc_input_witness (local_sig remote_sig : Signature) (preimage : option bytes)
    (redeem_script : bytes) (ct : ChannelTypeFeatures) : list bytes :=
  let remote_sighash_type :=
    if supports_anchors_zero_fee_htlc_tx ct || supports_anchor_zero_fee_commitments ct
    then SinglePlusAnyoneCanPay else SighashAll in
  [[]; signature_bytes remote_sig remote_sighash_type; signature_bytes local_sig SighashAll;
   match preimage with Some p => p | None => [] end;
   redeem_script].

(** ** Recognising a claim *)

Inductive HTLCClaim : Type :=
| OfferedTimeout | OfferedPreimage | AcceptedTimeout | AcceptedPreimage | Revocation.

#[export] Instance HTLCClaim_eq : EqDecision HTLCClaim.
Proof. solve_decision. Defined.

Definition from_witness (w : list bytes) : option HTLCClaim :=
  let wlen := Z.of_nat (length w) in
  if wlen <? 2 then None
  else
    let script_len := Z.of_nat (length (nth (length w - 1) w [])) in
    let second_len := Z.of_nat (length (nth (length w - 2) w [])) in
    if script_len =? OFFERED_HTLC_SCRIPT_WEIGHT then
      if (wlen =? 3) && (second_len =? 33) then Some Revocation
      else if (wlen =? 3) && (second_len =? 32) then Some OfferedPreimage
      else if (wlen =? 5) && (second_len =? 0) then Some OfferedTimeout
      else None
    else if script_len =? OFFERED_HTLC_SCRIPT_WEIGHT_KEYED_ANCHORS then
      if (wlen =? 3) && (second_len =? 33) then Some Revocation
      else if (wlen =? 3) && (second_len =? 32) then Some OfferedPreimage
      else if (wlen =? 5) && (second_len =? 0) then Some OfferedTimeout
      else if (wlen =? 3) && (second_len =? 0) then Some AcceptedTimeout
      else if (wlen =? 5) && (second_len =? 32) then Some AcceptedPreimage
      else None
    else if (MIN_ACCEPTED_HTLC_SCRIPT_WEIGHT <? script_len) &&
            (script_len <=? MAX_ACCEPTED_HTLC_SCRIPT_WEIGHT) then
      if (wlen =? 3) && (second_len =? 33) then Some Revocation
      else if (wlen =? 3) && (second_len =? 0) then Some AcceptedTimeout
      else if (wlen =? 5) && (second_len =? 32) then Some AcceptedPreimage
      else None
    else None.

Lemma funding_script_sym k1 k2 : make_funding_redeemscript k1 k2 = make_funding_redeemscript k2 k1.
Proof.
  unfold make_funding_redeemscript, make_funding_redeemscript_from_slices.
  rewrite (cmp_antisym slice_cmp (serialize k1) (serialize k2)).
  destruct (slice_cmp (serialize k1) (serialize k2)) eqn:E; simpl; try done.
  apply slice_cmp_Eq in E. by rewrite E.
Qed.

(** ** Lengths of the scripts *)

Context {blaws : BitcoinLaws} {slaws : ScriptLaws}.

Ltac script_ok :=
  unfold anchor_csv; repeat case_match;
  repeat first [apply Forall_nil_2 | apply Forall_cons_2 | apply Forall_app_2];
  cbn [instr_ok]; rewrite ?serialize_length, ?hash160_length, ?ripemd160_length; solve [done | cbn; lia].
Ltac script_length :=
  rewrite into_script_length by script_ok;
  rewrite ?map_app, ?zsum_app; cbn [map zsum foldr instr_len];
  rewrite ?serialize_length, ?hash160_length, ?ripemd160_length.

Lemma htlc_script_len htlc ct bk ck rk : 0 <= cltv_expiry htlc < 2 ^ 32 ->
  Z.of_nat (length (get_htlc_redeemscript_with_explicit_keys htlc ct bk ck rk)) =
  (if offered htlc then OFFERED_HTLC_SCRIPT_WEIGHT else 135 + push_int_len (cltv_expiry htlc)) +
  (if supports_anchors_zero_fee_htlc_tx ct then 3 else 0).
Proof.
  intros Hc. unfold get_htlc_redeemscript_with_explicit_keys, OFFERED_HTLC_SCRIPT_WEIGHT. cbn zeta.
  destruct (offered htlc); script_length; unfold anchor_csv;
    destruct (supports_anchors_zero_fee_htlc_tx ct); cbn [map zsum foldr instr_len];
    change (push_int_len 32) with 2; change (push_int_len 2) with 1; lia.
Qed.

Lemma push_int_len_range n : 0 <= n < 2 ^ 31 -> 1 <= push_int_len n <= 5.
Proof. intros Hn. unfold push_int_len. repeat case_match; bool_to_prop; lia. Qed.

(** The script size constants the fee and claim code relies on are the
    sizes of the scripts that are built: an offered HTLC script has 133 bytes, or
    136 with keyed anchors; an accepted one has between
    [MIN_ACCEPTED_HTLC_SCRIPT_WEIGHT] and [MAX_ACCEPTED_HTLC_SCRIPT_WEIGHT] bytes
    for any expiry that is a block height; the revokeable script has the size
    [revokeable_redeemscript_len] announces, within its maximum for any delay; and
    the funding script has the size of a 2-of-2 multisig and does not depend on
    the order of its keys. *)
Theorem script_sizes (htlc : HTLCOutputInCommitment) (ct : ChannelTypeFeatures)
    (k1 k2 k3 : PublicKey) (delay : Z) :
  0 <= cltv_expiry htlc < 500000000 -> 0 <= delay < 2 ^ 16 ->
  let htlc_len := Z.of_nat (length (get_htlc_redeemscript_with_explicit_keys htlc ct k1 k2 k3)) in
  (if offered htlc
   then htlc_len = if supports_anchors_zero_fee_htlc_tx ct
                   then OFFERED_HTLC_SCRIPT_WEIGHT_KEYED_ANCHORS else OFFERED_HTLC_SCRIPT_WEIGHT
   else MIN_ACCEPTED_HTLC_SCRIPT_WEIGHT <= htlc_len <= MAX_ACCEPTED_HTLC_SCRIPT_WEIGHT) /\
  Z.of_nat (length (get_revokeable_redeemscript k1 delay k2)) = revokeable_redeemscript_len delay /\
  revokeable_redeemscript_len delay <= REVOKEABLE_REDEEMSCRIPT_MAX_LENGTH /\
  Z.of_nat (length (make_funding_redeemscript k1 k2)) = MULTISIG_SCRIPT_SIZE /\
  make_funding_redeemscript k1 k2 = make_funding_redeemscript k2 k1.
Proof.
  intros Hc Hd htlc_len. unfold htlc_len. rewrite htlc_script_len by lia.
  pose proof (push_int_len_range (cltv_expiry htlc) ltac:(lia)) as Hp. split_and!.
  - unfold OFFERED_HTLC_SCRIPT_WEIGHT_KEYED_ANCHORS, OFFERED_HTLC_SCRIPT_WEIGHT,
      MIN_ACCEPTED_HTLC_SCRIPT_WEIGHT, MAX_ACCEPTED_HTLC_SCRIPT_WEIGHT.
    destruct (offered htlc), (supports_anchors_zero_fee_htlc_tx ct); lia.
  - unfold get_revokeable_redeemscript, revokeable_redeemscript_len. script_length. script_length. lia.
  - unfold revokeable_redeemscript_len, REVOKEABLE_REDEEMSCRIPT_MAX_LENGTH. script_length.
    unfold push_int_len. repeat case_match; bool_to_prop; lia.
  - unfold make_funding_redeemscript, make_funding_redeemscript_from_slices.
    destruct (slice_cmp _ _); cbn [app]; script_length; reflexivity.
  - apply funding_script_sym.
Qed.

Lemma from_witness_3 a b script : from_witness [a; b; script] =
  let s := Z.of_nat (length script) in let l := Z.of_nat (length b) in
  if s =? 133 then if l =? 33 then Some Revocation else if l =? 32 then Some OfferedPreimage else None
  else if s =? 136 then if l =? 33 then Some Revocation else if l =? 32 then Some OfferedPreimage
    else if l =? 0 then Some AcceptedTimeout else None
  else if (136 <? s) && (s <=? 143) then if l =? 33 then Some Revocation
    else if l =? 0 then Some AcceptedTimeout else None
  else None.
Proof. done. Qed.

Lemma from_witness_5 a b c d script : from_witness [a; b; c; d; script] =
  let s := Z.of_nat (length script) in let l := Z.of_nat (length d) in
  if s =? 133 then if l =? 0 then Some OfferedTimeout else None
  else if s =? 136 then if l =? 0 then Some OfferedTimeout
    else if l =? 32 then Some AcceptedPreimage else None
  else if (136 <? s) && (s <=? 143) then if l =? 32 then Some AcceptedPreimage else None
  else None.
Proof. done. Qed.

(** Every claim of an HTLC output is recognised as what it is.  The
    witnesses the code builds for its own HTLC transactions are read back as the
    timeout of an offered HTLC and the preimage claim of an accepted one, and the
    counterparty's claims (a preimage on an offered HTLC, a timeout on an accepted
    one, a revocation on either) are recognised from their witnesses, for every
    channel type and every expiry that is a block height. *)
Theorem htlc_claims_recognised (htlc : HTLCOutputInCommitment) (ct : ChannelTypeFeatures)
    (k1 k2 k3 revocation_pubkey : PublicKey) (local_sig remote_sig : Signature) (sig preimage : bytes) :
  0 <= cltv_expiry htlc < 500000000 -> length preimage = 32%nat ->
  let script := get_htlc_redeemscript_with_explicit_keys htlc ct k1 k2 k3 in
  from_witness [sig; serialize revocation_pubkey; script] = Some Revocation /\
  (if offered htlc
   then from_witness (build_htlc_input_witness local_sig remote_sig None script ct) = Some OfferedTimeout /\
        from_witness [sig; preimage; script] = Some OfferedPreimage
   else from_witness (build_htlc_input_witness local_sig remote_sig (Some preimage) script ct)
          = Some AcceptedPreimage /\
        from_witness [sig; []; script] = Some AcceptedTimeout).
Proof.
  intros Hc Hpre script. unfold build_htlc_input_witness.
  rewrite !from_witness_3, !from_witness_5. unfold script. cbn zeta.
  rewrite htlc_script_len, serialize_length, Hpre by lia.
  pose proof (push_int_len_range (cltv_expiry htlc) ltac:(lia)) as Hp.
  unfold OFFERED_HTLC_SCRIPT_WEIGHT.
  destruct (offered htlc).
  - by destruct (supports_anchors_zero_fee_htlc_tx ct).
  - set (n := 135 + push_int_len _ + _).
    assert (136 <= n <= 143) as Hn by (unfold n; destruct (supports_anchors_zero_fee_htlc_tx ct); lia).
    destruct (Z.eqb_spec n 133), (Z.eqb_spec n 136), (Z.ltb_spec 136 n), (Z.leb_spec n 143); try lia; done.
Qed.

End scripts.

(** ** A concrete instance *)

Definition toy_encode (i : instr) : bytes :=
  match i with
  | push_opcode _ => [0]
  | push_slice data => Z.of_nat (length data) :: data
  | push_int n => replicate (Z.to_nat (push_int_len n)) n
  end.

#[export] Instance toy_scripts : ScriptLib := {|
  Signature := Z;
  into_script l := concat (map toy_encode l);
  to_p2wsh l := 0 :: 32 :: sha256 l;
  new_p2wpkh l := 0 :: 20 :: l;
  signature_bytes s _ := replicate 71 s;
|}.

#[export] Instance toy_script_laws : ScriptLaws.
Proof.
  split. intros l Hl. induction Hl as [|i l Hi Hl IH]; [done|]. cbn [map into_script toy_scripts concat] in *.
  rewrite length_app, Nat2Z.inj_add. cbn [zsum foldr]. f_equal; [|exact IH].
  destruct i as [op|data|n]; cbn [toy_encode instr_len instr_ok length] in *; [done|lia|].
  rewrite length_replicate, Z2Nat.id; [done|]. unfold push_int_len. repeat case_match; lia.
Qed.

Definition example_htlc : HTLCOutputInCommitment := mkHTLC false 5000000 800000 (replicate 32 1) None.

Lemma script_sizes_witness :
  length (get_htlc_redeemscript_with_explicit_keys (H0 := toy_scripts)
            example_htlc only_static_remote_key 1 2 3) = 139%nat /\
  make_funding_redeemscript (H0 := toy_scripts) 1 2 = make_funding_redeemscript (H0 := toy_scripts) 2 1.
Proof.
  destruct (script_sizes (H0 := toy_scripts) example_htlc only_static_remote_key 1 2 3 144)
    as (_ & _ & _ & _ & Hf); [cbn; lia|cbn; lia|].
  split; [vm_compute; reflexivity|exact Hf].
Defined.

Lemma htlc_claims_recognised_witness :
  from_witness (build_htlc_input_witness (H0 := toy_scripts) 8 9 (Some (replicate 32 4))
    (get_htlc_redeemscript_with_explicit_keys (H0 := toy_scripts) example_htlc only_static_remote_key 1 2 3)
    only_static_remote_key) = Some AcceptedPreimage.
Proof.
  apply (htlc_claims_recognised (H0 := toy_scripts) example_htlc only_static_remote_key 1 2 3 4 8 9 []
    (replicate 32 4)); [cbn; lia|reflexivity].
Defined.
