(* ===== verification/CommitmentTx.v ===== *)
(** * Commitment transactions (lightning/src/ln/chan_utils.rs)

    The construction of a commitment transaction: HTLC outputs sorted together
    with the HTLC data, the other outputs inserted by binary search while the
    HTLCs' output indices are kept up to date, the obscured commitment number in
    the input and the lock time; and the verification that rebuilds it. *)

From Stdlib Require Import ZArith Lia Bool Sorting.Sorted.
From S2P Require Import Prelude.
From S2P Require Import Features.
From S2P Require Import ChanUtils.
From S2P Require Import Keys.
From S2P Require Import Order.
From S2P Require Import Scripts.

Local Open Scope Z_scope.

(** From ln/channel.rs. *)
Definition INITIAL_COMMITMENT_NUMBER : Z := Z.shiftl 1 48 - 1.
Definition ANCHOR_OUTPUT_VALUE_SATOSHI : Z := 330.

(** [transaction.compute_txid()], of the bitcoin crate. *)
Class TxHash := { compute_txid : Transaction -> bytes }.

(** ** Channel parameters *)

Section parameters.
Context `{Bitcoin}.

Record CounterpartyChannelTransactionParameters : Type := mkCounterpartyParams {
  pubkeys : ChannelPublicKeys;
  selected_contest_delay : Z;
}.

Record ChannelTransactionParameters : Type := mkChannelParams {
  holder_pubkeys : ChannelPublicKeys;
  holder_selected_contest_delay : Z;
  is_outbound_from_holder : bool;
  counterparty_parameters : option CounterpartyChannelTransactionParameters;
  params_funding_outpoint : option OutPoint;
  splice_parent_funding_txid : option bytes;
  params_channel_type_features : ChannelTypeFeatures;
  params_channel_value_satoshis : Z;
}.

Definition is_populated (self : ChannelTransactionParameters) : bool :=
  bool_decide (is_Some (counterparty_parameters self)) && bool_decide (is_Some (params_funding_outpoint self)).

Record DirectedChannelTransactionParameters : Type := mkDirected {
  inner : ChannelTransactionParameters;
  holder_is_broadcaster : bool;
}.

Definition as_holder_broadcastable (self : ChannelTransactionParameters)
    : run DirectedChannelTransactionParameters :=
  if is_populated self then Return (mkDirected self true) else Panic.
Definition as_counterparty_broadcastable (self : ChannelTransactionParameters)
    : run DirectedChannelTransactionParameters :=
  if is_populated self then Return (mkDirected self false) else Panic.

Definition broadcaster_pubkeys (self : DirectedChannelTransactionParameters) : run ChannelPublicKeys :=
  if holder_is_broadcaster self then Return (holder_pubkeys (inner self))
  else pubkeys <$> unwrap (counterparty_parameters (inner self)).
Definition countersignatory_pubkeys (self : DirectedChannelTransactionParameters) : run ChannelPublicKeys :=
  if holder_is_broadcaster self then pubkeys <$> unwrap (counterparty_parameters (inner self))
  else Return (holder_pubkeys (inner self)).
Definition contest_delay (self : DirectedChannelTransactionParameters) : run Z :=
  cp ← unwrap (counterparty_parameters (inner self));
  mret (if holder_is_broadcaster self then selected_contest_delay cp
        else holder_selected_contest_delay (inner self)).
Definition is_outbound (self : DirectedChannelTransactionParameters) : bool :=
  if holder_is_broadcaster self then is_outbound_from_holder (inner self)
  else negb (is_outbound_from_holder (inner self)).
Definition funding_outpoint (self : DirectedChannelTransactionParameters) : run OutPoint :=
  unwrap (params_funding_outpoint (inner self)).
Definition channel_type_features (self : DirectedChannelTransactionParameters) : ChannelTypeFeatures :=
  params_channel_type_features (inner self).
Definition channel_value_satoshis (self : DirectedChannelTransactionParameters) : Z :=
  params_channel_value_satoshis (inner self).

(** ** The obscured commitment number *)

Definition get_commitment_transaction_number_obscure_factor
    (broadcaster_payment_basepoint countersignatory_payment_basepoint : PublicKey)
    (outbound_from_broadcaster : bool) : Z :=
  let res := sha256 (
    if outbound_from_broadcaster
    then serialize broadcaster_payment_basepoint ++ serialize countersignatory_payment_basepoint
    else serialize countersignatory_payment_basepoint ++ serialize broadcaster_payment_basepoint) in
  let b i := nth i res 0 in
  Z.lor (Z.lor (Z.lor (Z.lor (Z.lor
    (Z.shiftl (b 26%nat) 40) (Z.shiftl (b 27%nat) 32)) (Z.shiftl (b 28%nat) 24))
    (Z.shiftl (b 29%nat) 16)) (Z.shiftl (b 30%nat) 8)) (Z.shiftl (b 31%nat) 0).

Definition build_inputs (commitment_number : Z) (channel_parameters : DirectedChannelTransactionParameters)
    : run (Z * list TxIn) :=
  broadcaster ← broadcaster_pubkeys channel_parameters;
  countersignatory ← countersignatory_pubkeys channel_parameters;
  let obscure_factor := get_commitment_transaction_number_obscure_factor
    (payment_point broadcaster) (payment_point countersignatory) (is_outbound channel_parameters) in
  let obscured := Z.lxor obscure_factor (INITIAL_COMMITMENT_NUMBER - commitment_number)%u64 in
  previous ← funding_outpoint channel_parameters;
  mret (obscured,
        [mkTxIn previous [] (Z.lor (Z.shiftl 0x80 24) (wrapping 32 (Z.shiftr obscured 24))) []]).

Definition make_transaction (obscured : Z) (txins : list TxIn) (outputs : list TxOut)
    (channel_parameters : DirectedChannelTransactionParameters) : Transaction :=
  let version := if supports_anchor_zero_fee_commitments (channel_type_features channel_parameters)
                 then 3 else 2 in
  mkTransaction version (Z.lor (Z.shiftl 0x20 24) (wrapping 32 (Z.land obscured 0xffffff))) txins outputs.

(** The recovery of the number from a transaction on chain
    (chain/channelmonitor.rs). *)
Definition decode_commitment_number (obscure_factor : Z) (tx : Transaction) : run Z :=
  txin ← unwrap (head (tx_input tx));
  mret (0xffffffffffff - Z.lxor (Z.lor (wrapping 64 (Z.shiftl (Z.land (sequence txin) 0xffffff) 24))
                                       (Z.land (lock_time tx) 0xffffff)) obscure_factor)%u64.

End parameters.

(** ** Outputs *)

Definition default_txout : TxOut := mkTxOut 0 [].
Definition default_htlc : HTLCOutputInCommitment := mkHTLC false 0 0 [] None.

(** [v.swap(i, j)] *)
Definition swap {A} (i j : nat) (l : list A) : list A :=
  match l !! i, l !! j with
  | Some x, Some y => <[j := x]> (<[i := y]> l)
  | _, _ => l
  end.

(** [v.insert(i, x)] *)
Definition vec_insert {A} (i : nat) (x : A) (l : list A) : list A := take i l ++ x :: drop i l.

Definition out_cmp (x y : TxOut) : comparison :=
  then_cmp (value x ?= value y) (slice_cmp (script_pubkey x) (script_pubkey y)).

Definition is_left_greater (i : nat) (txouts : list TxOut) (nondust_htlcs : list HTLCOutputInCommitment)
    : bool :=
  let tl := nth (i - 1) txouts default_txout in let tr := nth i txouts default_txout in
  let hl := nth (i - 1) nondust_htlcs default_htlc in let hr := nth i nondust_htlcs default_htlc in
  is_gt (then_cmp (then_cmp (then_cmp (value tl ?= value tr)
    (slice_cmp (script_pubkey tl) (script_pubkey tr)))
    (cltv_expiry hl ?= cltv_expiry hr))
    (slice_cmp (payment_hash hl) (payment_hash hr))).

(** [while j > 0 && is_left_greater(j, ..) { swap; j -= 1 }] *)
Fixpoint sift_down (j : nat) (st : list TxOut * list HTLCOutputInCommitment)
    : list TxOut * list HTLCOutputInCommitment :=
  match j with
  | O => st
  | S j' =>
      let '(txouts, nondust_htlcs) := st in
      if is_left_greater j txouts nondust_htlcs
      then sift_down j' (swap (j - 1) j txouts, swap (j - 1) j nondust_htlcs)
      else st
  end.

Section outputs.
Context {bitcoin : Bitcoin} {scriptlib : ScriptLib} {bsearch : BinarySearch} {txhash : TxHash}.

Definition build_htlc_outputs (keys : TxCreationKeys) (nondust_htlcs : list HTLCOutputInCommitment)
    (ct : ChannelTypeFeatures) : list TxOut :=
  map (fun htlc => mkTxOut (to_bitcoin_amount htlc) (to_p2wsh (get_htlc_redeemscript htlc ct keys)))
      nondust_htlcs.

(** Returns the outputs and the HTLC data in the same order. *)
Definition build_sorted_htlc_outputs (keys : TxCreationKeys)
    (nondust_htlcs : list HTLCOutputInCommitment) (ct : ChannelTypeFeatures)
    : list TxOut * list HTLCOutputInCommitment :=
  let txouts := build_htlc_outputs keys nondust_htlcs ct in
  foldl (fun st i => sift_down i st) (txouts, nondust_htlcs) (seq 1 (length txouts - 1)).

Definition set_output_index (i : Z) (htlc : HTLCOutputInCommitment) : HTLCOutputInCommitment :=
  mkHTLC (offered htlc) (amount_msat htlc) (cltv_expiry htlc) (payment_hash htlc) (Some i).

(** [iter_mut().rev().map_while(|htlc| index >= idx).for_each(|i| *i += 1)]:
    the argument is the reversed list. *)
Fixpoint bump_while (idx : Z) (htlcs : list HTLCOutputInCommitment) : run (list HTLCOutputInCommitment) :=
  match htlcs with
  | [] => Return []
  | htlc :: htlcs =>
      i ← unwrap (transaction_output_index htlc);
      if idx <=? i then
        rest ← bump_while idx htlcs;
        mret (set_output_index (wrapping 32 (i + 1)) htlc :: rest)
      else mret (htlc :: htlcs)
  end.

(** The closure [build_outputs_and_htlcs] passes down. *)
Definition insert_and_bump (st : list TxOut * list HTLCOutputInCommitment) (non_htlc_output : TxOut)
    : run (list TxOut * list HTLCOutputInCommitment) :=
  let '(outputs, nondust_htlcs) := st in
  let idx := search_index (fun output => out_cmp output non_htlc_output) outputs in
  let outputs := vec_insert idx non_htlc_output outputs in
  rev_htlcs ← bump_while (wrapping 32 (Z.of_nat idx)) (reverse nondust_htlcs);
  mret (outputs, reverse rev_htlcs).

(** The closure [rebuild_transaction] passes down. *)
Definition insert_only (outputs : list TxOut) (non_htlc_output : TxOut) : run (list TxOut) :=
  let idx := search_index (fun output => out_cmp output non_htlc_output) outputs in
  mret (vec_insert idx non_htlc_output outputs).

(** [insert_non_htlc_outputs], over the state [S] its closure captures. *)
Definition insert_non_htlc_outputs {S} (keys : TxCreationKeys)
    (to_broadcaster_value_sat to_countersignatory_value_sat : Z)
    (channel_parameters : DirectedChannelTransactionParameters)
    (nondust_htlcs_value_sum_sat : Z) (insert : S -> TxOut -> run S) (s : S) : run S :=
  countersignatory ← countersignatory_pubkeys channel_parameters;
  broadcaster ← broadcaster_pubkeys channel_parameters;
  let ct := channel_type_features channel_parameters in
  delay ← contest_delay channel_parameters;
  let tx_has_htlc_outputs := negb (nondust_htlcs_value_sum_sat =? 0) in
  s ← (if 0 <? to_countersignatory_value_sat then
         let script := if supports_anchors_zero_fee_htlc_tx ct
           then to_p2wsh (get_to_countersigner_keyed_anchor_redeemscript (payment_point countersignatory))
           else new_p2wpkh (hash160 (serialize (payment_point countersignatory))) in
         insert s (mkTxOut to_countersignatory_value_sat script)
       else mret s);
  s ← (if 0 <? to_broadcaster_value_sat then
         let redeem_script := get_revokeable_redeemscript (revocation_key keys) delay
                                (broadcaster_delayed_payment_key keys) in
         insert s (mkTxOut to_broadcaster_value_sat (to_p2wsh redeem_script))
       else mret s);
  s ← (if supports_anchors_zero_fee_htlc_tx ct then
         s ← (if (0 <? to_broadcaster_value_sat) || tx_has_htlc_outputs then
                insert s (mkTxOut ANCHOR_OUTPUT_VALUE_SATOSHI
                  (to_p2wsh (get_keyed_anchor_redeemscript (funding_pubkey broadcaster))))
              else mret s);
         if (0 <? to_countersignatory_value_sat) || tx_has_htlc_outputs then
           insert s (mkTxOut ANCHOR_OUTPUT_VALUE_SATOSHI
             (to_p2wsh (get_keyed_anchor_redeemscript (funding_pubkey countersignatory))))
         else mret s
       else mret s);
  if supports_anchor_zero_fee_commitments ct then
    t ← amount_sub (channel_value_satoshis channel_parameters) nondust_htlcs_value_sum_sat;
    t ← amount_sub t to_broadcaster_value_sat;
    trimmed_sum_sat ← amount_sub t to_countersignatory_value_sat;
    insert s (mkTxOut (Z.min P2A_MAX_VALUE trimmed_sum_sat) shared_anchor_script_pubkey)
  else mret s.

Definition htlcs_value_sum (htlcs : list HTLCOutputInCommitment) : Z :=
  u64_sum (map to_bitcoin_amount htlcs).

Definition build_outputs_and_htlcs (keys : TxCreationKeys)
    (to_broadcaster_value_sat to_countersignatory_value_sat : Z)
    (nondust_htlcs : list HTLCOutputInCommitment)
    (channel_parameters : DirectedChannelTransactionParameters)
    : run (list TxOut * list HTLCOutputInCommitment) :=
  let '(outputs, nondust_htlcs) :=
    build_sorted_htlc_outputs keys nondust_htlcs (channel_type_features channel_parameters) in
  let nondust_htlcs_value_sum_sat := htlcs_value_sum nondust_htlcs in
  let nondust_htlcs := imap (fun i => set_output_index (wrapping 32 (Z.of_nat i))) nondust_htlcs in
  insert_non_htlc_outputs keys to_broadcaster_value_sat to_countersignatory_value_sat channel_parameters
    nondust_htlcs_value_sum_sat insert_and_bump (outputs, nondust_htlcs).

(** ** The commitment transaction *)

Record BuiltCommitmentTransaction : Type := mkBuilt { built_tx : Transaction; built_txid : bytes }.

Record CommitmentTransaction : Type := mkCommitment {
  commitment_number : Z;
  to_broadcaster_value_sat : Z;
  to_countersignatory_value_sat : Z;
  to_broadcaster_delay : option Z;
  ctx_feerate_per_kw : Z;
  nondust_htlcs : list HTLCOutputInCommitment;
  ctx_channel_type_features : ChannelTypeFeatures;
  ctx_keys : TxCreationKeys;
  built : BuiltCommitmentTransaction;
}.

Definition commitment_new (number : Z) (per_commitment_point : PublicKey)
    (to_broadcaster to_countersignatory feerate_per_kw : Z) (htlcs : list HTLCOutputInCommitment)
    (channel_parameters : DirectedChannelTransactionParameters) : run CommitmentTransaction :=
  broadcaster ← broadcaster_pubkeys channel_parameters;
  countersignatory ← countersignatory_pubkeys channel_parameters;
  keys ← from_channel_static_keys per_commitment_point broadcaster countersignatory;
  '(outputs, htlcs) ← build_outputs_and_htlcs keys to_broadcaster to_countersignatory htlcs channel_parameters;
  '(obscured, txins) ← build_inputs number channel_parameters;
  let transaction := make_transaction obscured txins outputs channel_parameters in
  delay ← contest_delay channel_parameters;
  mret (mkCommitment number to_broadcaster to_countersignatory (Some delay) feerate_per_kw htlcs
    (channel_type_features channel_parameters) keys (mkBuilt transaction (compute_txid transaction))).

Definition rebuild_transaction (self : CommitmentTransaction) (keys : TxCreationKeys)
    (channel_parameters : DirectedChannelTransactionParameters)
    : run (result unit BuiltCommitmentTransaction) :=
  '(obscured, txins) ← build_inputs (commitment_number self) channel_parameters;
  let outputs := build_htlc_outputs keys (nondust_htlcs self) (channel_type_features channel_parameters) in
  let nondust_htlcs_value_sum_sat := htlcs_value_sum (nondust_htlcs self) in
  if existsb (fun i => is_left_greater i outputs (nondust_htlcs self)) (seq 1 (length outputs - 1))
  then mret (Err tt)
  else
    outputs ← insert_non_htlc_outputs keys (to_broadcaster_value_sat self)
      (to_countersignatory_value_sat self) channel_parameters nondust_htlcs_value_sum_sat
      insert_only outputs;
    let transaction := make_transaction obscured txins outputs channel_parameters in
    mret (Ok (mkBuilt transaction (compute_txid transaction))).

Definition verify (self : CommitmentTransaction)
    (channel_parameters : DirectedChannelTransactionParameters) : run (result unit unit) :=
  broadcaster ← broadcaster_pubkeys channel_parameters;
  countersignatory ← countersignatory_pubkeys channel_parameters;
  keys ← from_channel_static_keys (per_commitment_point (ctx_keys self)) broadcaster countersignatory;
  if decide (keys = ctx_keys self) then
    tx ← rebuild_transaction self keys channel_parameters;
    mret (match tx with
          | Err e => Err e
          | Ok tx =>
              if decide (built_tx (built self) = built_tx tx /\ built_txid (built self) = built_txid tx)
              then Ok tt else Err tt
          end)
  else mret (Err tt).

Definition revokeable_output_index (self : CommitmentTransaction) : option nat :=
  delay ← to_broadcaster_delay self;
  let revokeable_p2wsh := to_p2wsh (get_revokeable_redeemscript (revocation_key (ctx_keys self)) delay
                            (broadcaster_delayed_payment_key (ctx_keys self))) in
  fst <$> list_find (fun out => script_pubkey out = revokeable_p2wsh) (tx_output (built_tx (built self))).

End outputs.

(** ** The commitment number on chain *)

Lemma testbit_beyond x w n : fits w x -> 0 <= w <= n -> Z.testbit x n = false.
Proof. intros Hx Hn. apply (fits_bits w x); [lia|done|lia]. Qed.

Lemma testbit_0xffffff n : 0 <= n -> Z.testbit 0xffffff n = (n <? 24).
Proof. intros Hn. change 0xffffff with (Z.ones 24). by rewrite Z.testbit_ones_nonneg by lia. Qed.

Lemma obscure_factor_fits `{BitcoinLaws} b c o :
  fits 48 (get_commitment_transaction_number_obscure_factor b c o).
Proof.
  unfold get_commitment_transaction_number_obscure_factor. cbn zeta. set (l := sha256 _).
  assert (forall i k, 0 <= k <= 40 -> fits 48 (Z.shiftl (nth i l 0) k)) as Hb.
  { intros i k Hk. pose proof (nth_fits l i (sha256_bytes _)) as Hf. apply fits_bits; [lia|].
    apply fits_bits in Hf as [H1 H2]; [|lia]. split; [by apply Z.shiftl_nonneg|].
    intros m Hm. rewrite Z.shiftl_spec by lia. apply H2. lia. }
  repeat (apply fits_lor; [lia| |]); apply Hb; lia.
Qed.

(** Splitting 48 bits over the sequence and the lock time loses nothing. *)
Lemma split_48 x : fits 48 x ->
  Z.lor (wrapping 64 (Z.shiftl (Z.land (Z.lor (Z.shiftl 0x80 24) (wrapping 32 (Z.shiftr x 24))) 0xffffff) 24))
        (Z.land (Z.lor (Z.shiftl 0x20 24) (wrapping 32 (Z.land x 0xffffff))) 0xffffff) = x.
Proof.
  intros Hx. unfold wrapping. apply Z.bits_inj'. intros n Hn.
  assert (forall c m, 0 <= m < 24 -> Z.testbit (Z.shiftl c 24) m = false) as Hhigh
    by (intros c m Hm; rewrite Z.shiftl_spec_low by lia; done).
  rewrite Z.lor_spec, Z.land_spec, testbit_0xffffff by lia.
  destruct (Z.ltb_spec n 24) as [Hlt|Hge].
  - rewrite Z.mod_pow2_bits_low, Z.shiftl_spec_low by lia.
    rewrite andb_true_r, Z.lor_spec, Hhigh by lia.
    rewrite Z.mod_pow2_bits_low, Z.land_spec, testbit_0xffffff by lia.
    by rewrite (proj2 (Z.ltb_lt n 24)), andb_true_r by lia.
  - rewrite andb_false_r, orb_false_r. destruct (Z.lt_ge_cases n 48) as [H48|H48].
    + rewrite Z.mod_pow2_bits_low, Z.shiftl_spec, Z.land_spec, testbit_0xffffff by lia.
      rewrite (proj2 (Z.ltb_lt (n - 24) 24)), andb_true_r by lia.
      rewrite Z.lor_spec, Hhigh, Z.mod_pow2_bits_low, Z.shiftr_spec by lia.
      simpl. f_equal. lia.
    + rewrite (testbit_beyond x 48 n Hx) by lia.
      destruct (Z.lt_ge_cases n 64) as [H64|H64]; [|by rewrite Z.mod_pow2_bits_high by lia].
      rewrite Z.mod_pow2_bits_low, Z.shiftl_spec, Z.land_spec, testbit_0xffffff by lia.
      rewrite (proj2 (Z.ltb_ge (n - 24) 24)), andb_false_r by lia. done.
Qed.

Lemma INITIAL_COMMITMENT_NUMBER_eq : INITIAL_COMMITMENT_NUMBER = 2 ^ 48 - 1.
Proof. done. Qed.

Lemma decode_of_build `{BitcoinLaws} number params obscured txins outputs :
  0 <= number <= INITIAL_COMMITMENT_NUMBER ->
  build_inputs number params = Return (obscured, txins) ->
  exists b c, broadcaster_pubkeys params = Return b /\ countersignatory_pubkeys params = Return c /\
  decode_commitment_number
    (get_commitment_transaction_number_obscure_factor (payment_point b) (payment_point c) (is_outbound params))
    (make_transaction obscured txins outputs params) = Return number.
Proof.
  intros Hn Hb. unfold build_inputs in Hb.
  destruct (broadcaster_pubkeys params) as [b|]; cbn in Hb; [|done].
  destruct (countersignatory_pubkeys params) as [c|]; cbn in Hb; [|done].
  destruct (funding_outpoint params) as [prev|]; cbn in Hb; [|done].
  exists b, c. split_and!; [done|done|]. injection Hb as <- <-.
  set (obf := get_commitment_transaction_number_obscure_factor _ _ _).
  assert (fits 48 obf) as Hobf by apply obscure_factor_fits.
  rewrite (wrapping_small 64 (INITIAL_COMMITMENT_NUMBER - number))
    by (rewrite INITIAL_COMMITMENT_NUMBER_eq in *; unfold fits; lia).
  set (d := INITIAL_COMMITMENT_NUMBER - number).
  assert (fits 48 d) as Hd by (unfold d; rewrite INITIAL_COMMITMENT_NUMBER_eq in *; unfold fits; lia).
  assert (fits 48 (Z.lxor obf d)) as Hx.
  { apply fits_bits in Hobf as [Ho1 Ho2]; [|lia]. apply fits_bits in Hd as [Hd1 Hd2]; [|lia].
    apply fits_bits; [lia|]. split; [by apply Z.lxor_nonneg|]. intros m Hm.
    by rewrite Z.lxor_spec, Ho2, Hd2. }
  unfold decode_commitment_number, make_transaction. cbn [tx_input head lock_time unwrap mbind run_bind sequence].
  rewrite (split_48 _ Hx). rewrite (Z.lxor_comm obf d), Z.lxor_assoc, Z.lxor_nilpotent, Z.lxor_0_r.
  unfold mret, run_ret. f_equal. unfold d. rewrite INITIAL_COMMITMENT_NUMBER_eq in *.
  rewrite wrapping_small; [lia|]. unfold fits. lia.
Qed.

(** ** The sort of the HTLC outputs *)

Definition pair_cmp (x y : TxOut * HTLCOutputInCommitment) : comparison :=
  then_cmp (then_cmp (then_cmp (value x.1 ?= value y.1)
    (slice_cmp (script_pubkey x.1) (script_pubkey y.1)))
    (cltv_expiry x.2 ?= cltv_expiry y.2))
    (slice_cmp (payment_hash x.2) (payment_hash y.2)).

#[export] Instance out_cmp_laws : CmpLaws out_cmp.
Proof.
  apply (then_cmp_laws (fun x y => value x ?= value y)
                       (fun x y => slice_cmp (script_pubkey x) (script_pubkey y))).
Qed.

#[export] Instance pair_cmp_laws : CmpLaws pair_cmp.
Proof.
  apply (then_cmp_laws
    (fun x y : TxOut * HTLCOutputInCommitment => then_cmp (out_cmp x.1 y.1) (cltv_expiry x.2 ?= cltv_expiry y.2))
    (fun x y => slice_cmp (payment_hash x.2) (payment_hash y.2))).
Qed.

Lemma out_cmp_Eq x y : out_cmp x y = Eq <-> x = y.
Proof.
  split; [|intros ->; apply cmp_refl, out_cmp_laws].
  destruct x as [v s], y as [v' s']. unfold out_cmp. simpl.
  destruct (Z.compare_spec v v') as [->| |]; simpl; try done. intros H%slice_cmp_Eq. by f_equal.
Qed.

Fixpoint sift (j : nat) (l : list (TxOut * HTLCOutputInCommitment)) : list (TxOut * HTLCOutputInCommitment) :=
  match j with
  | O => l
  | S j' =>
      match l !! j', l !! j with
      | Some x, Some y => if is_gt (pair_cmp x y) then sift j' (swap j' j l) else l
      | _, _ => l
      end
  end.

Lemma swap_fmap {A B} (f : A -> B) i j l : swap i j (f <$> l) = f <$> swap i j l.
Proof.
  unfold swap. rewrite !list_lookup_fmap. destruct (l !! i), (l !! j); simpl; try done.
  by rewrite !list_fmap_insert.
Qed.

Lemma length_swap {A} i j (l : list A) : length (swap i j l) = length l.
Proof. unfold swap. destruct (l !! i), (l !! j); try done. by rewrite !length_insert. Qed.

(** The two vectors are sorted in lockstep. *)
Lemma sift_down_sift j l : (j < length l)%nat ->
  sift_down j (l.*1, l.*2) = ((sift j l).*1, (sift j l).*2).
Proof.
  revert l. induction j as [|j IH]; intros l Hj; [done|]. cbn [sift_down sift].
  destruct (lookup_lt_is_Some_2 l j) as [x Hx]; [lia|]. destruct (lookup_lt_is_Some_2 l (S j)) as [y Hy]; [done|].
  rewrite Hx, Hy. unfold is_left_greater. rewrite Nat.sub_succ, Nat.sub_0_r.
  rewrite !nth_lookup, !list_lookup_fmap, Hx, Hy. cbn [fmap option_fmap option_map default id from_option].
  fold (pair_cmp x y). destruct (is_gt (pair_cmp x y)); [|done].
  rewrite !swap_fmap. apply IH. rewrite length_swap. lia.
Qed.

Lemma swap_adjacent {A} (p q : list A) a b :
  swap (length p) (S (length p)) (p ++ a :: b :: q) = p ++ b :: a :: q.
Proof.
  unfold swap. rewrite list_lookup_middle by done.
  rewrite (lookup_app_r p) by lia. replace (S (length p) - length p)%nat with 1%nat by lia. cbn.
  rewrite insert_app_r_alt, Nat.sub_diag by lia. cbn.
  rewrite insert_app_r_alt by lia. replace (S (length p) - length p)%nat with 1%nat by lia. done.
Qed.

(** One round moves an element left past exactly the greater ones. *)
Lemma sift_split pre x post : exists p1 p2, pre = p1 ++ p2 /\
  sift (length pre) (pre ++ x :: post) = p1 ++ x :: p2 ++ post /\
  Forall (fun y => pair_cmp y x = Gt) p2 /\ forall y, last p1 = Some y -> pair_cmp y x <> Gt.
Proof.
  revert post. induction pre as [|y pre IH] using rev_ind; intros post.
  - exists [], []. split_and!; [done|done|constructor|done].
  - rewrite length_app, Nat.add_1_r. cbn [sift]. rewrite <- app_assoc. cbn [app].
    rewrite list_lookup_middle by done.
    rewrite (lookup_app_r pre) by lia. replace (S (length pre) - length pre)%nat with 1%nat by lia. cbn [lookup list_lookup].
    destruct (is_gt (pair_cmp y x)) eqn:E.
    + rewrite swap_adjacent. destruct (IH (y :: post)) as (p1 & p2 & -> & -> & H2 & H1).
      exists p1, (p2 ++ [y]). split_and!; [by rewrite app_assoc|by rewrite <- app_assoc| |done].
      apply Forall_app; split; [done|]. constructor; [|constructor]. by destruct (pair_cmp y x).
    + exists (pre ++ [y]), []. split_and!; [by rewrite app_nil_r|by rewrite <- app_assoc|constructor|].
      intros z. rewrite last_snoc. intros [= <-]. by destruct (pair_cmp y x).
Qed.

Lemma sorted_last l y : StronglySorted (cmp_le pair_cmp) l -> last l = Some y ->
  Forall (fun z => cmp_le pair_cmp z y) l.
Proof.
  induction 1 as [|x l Hl IH Hx]; [done|]. destruct l as [|z l]; [intros [= <-]; constructor; [|constructor]|].
  - unfold cmp_le. rewrite cmp_refl by apply pair_cmp_laws. done.
  - intros Hy. change (last (z :: l) = Some y) in Hy. specialize (IH Hy). constructor; [|done].
    rewrite Forall_forall in Hx. apply Hx. apply last_Some_elem_of in Hy. done.
Qed.

Lemma sift_sorted pre x post : StronglySorted (cmp_le pair_cmp) pre ->
  exists pre', sift (length pre) (pre ++ x :: post) = pre' ++ post /\
    pre' ≡ₚ pre ++ [x] /\ StronglySorted (cmp_le pair_cmp) pre'.
Proof.
  intros Hs. destruct (sift_split pre x post) as (p1 & p2 & -> & Heq & H2 & H1).
  exists (p1 ++ x :: p2). split_and!.
  - rewrite Heq, <- app_assoc. done.
  - rewrite <- app_assoc. f_equiv. by rewrite <- Permutation_cons_append.
  - apply insert_at_sorted; [done| |].
    + destruct (last p1) as [y|] eqn:Hl; [|by apply last_None in Hl as ->].
      pose proof (H1 y eq_refl) as Hyx.
      assert (StronglySorted (cmp_le pair_cmp) p1) as Hs1'.
      { clear -Hs. induction p1 as [|a p1 IH]; [constructor|]. simpl in Hs.
        apply StronglySorted_inv in Hs as [Hs Ha]. apply Forall_app in Ha as [Ha _]. constructor; auto. }
      eapply Forall_impl; [apply (sorted_last _ _ Hs1' Hl)|]. intros z Hz.
      apply (cmp_le_trans pair_cmp _ y); [done|exact Hyx].
    + eapply Forall_impl; [exact H2|]. intros z Hz. by apply cmp_gt_le; [apply pair_cmp_laws|].
Qed.

Lemma sift_rounds (l : list (TxOut * HTLCOutputInCommitment)) k : (k < length l)%nat ->
  exists pre, foldl (fun l i => sift i l) l (seq 1 k) = pre ++ drop (S k) l /\
    length pre = S k /\ pre ≡ₚ take (S k) l /\ StronglySorted (cmp_le pair_cmp) pre.
Proof.
  induction k as [|k IH]; intros Hk.
  - destruct l as [|x l]; [simpl in Hk; lia|]. exists [x].
    split_and!; [by rewrite ?drop_0|done|by rewrite ?take_0|repeat constructor].
  - destruct IH as (pre & Heq & Hlen & Hperm & Hs); [lia|].
    rewrite seq_S, foldl_app, Heq. cbn [foldl].
    destruct (lookup_lt_is_Some_2 l (S k)) as [x Hx]; [done|].
    rewrite (drop_S l x) by done. replace (1 + k)%nat with (length pre) by lia.
    destruct (sift_sorted pre x (drop (S (S k)) l) Hs) as (pre' & Heq' & Hperm' & Hs').
    exists pre'. split_and!; [done|rewrite Hperm', length_app; simpl; lia| |done].
    by rewrite Hperm', Hperm, (take_S_r l (S k) x Hx).
Qed.

Lemma sift_down_rounds l k : (k <= length l - 1)%nat ->
  foldl (fun st i => sift_down i st) (l.*1, l.*2) (seq 1 k) =
  ((foldl (fun l i => sift i l) l (seq 1 k)).*1, (foldl (fun l i => sift i l) l (seq 1 k)).*2).
Proof.
  induction k as [|k IH]; intros Hk; [done|]. rewrite seq_S, !foldl_app, IH by lia. cbn [foldl].
  apply sift_down_sift. destruct (sift_rounds l k) as (pre & -> & Hlen & _); [lia|].
  rewrite length_app, length_drop. lia.
Qed.

Section outputs_proofs.
Context {bitcoin : Bitcoin} {scriptlib : ScriptLib} {bsearch : BinarySearch} {txhash : TxHash}.

(** The output of an HTLC; its position is not part of it. *)
Definition htlc_out (keys : TxCreationKeys) (ct : ChannelTypeFeatures) (h : HTLCOutputInCommitment) : TxOut :=
  mkTxOut (to_bitcoin_amount h) (to_p2wsh (get_htlc_redeemscript h ct keys)).

Definition strip (h : HTLCOutputInCommitment) : HTLCOutputInCommitment :=
  mkHTLC (offered h) (amount_msat h) (cltv_expiry h) (payment_hash h) None.

Lemma htlc_out_strip keys ct h : htlc_out keys ct (strip h) = htlc_out keys ct h.
Proof. done. Qed.

Lemma build_sorted_spec keys hs ct : exists hs',
  build_sorted_htlc_outputs keys hs ct = (map (htlc_out keys ct) hs', hs') /\ hs' ≡ₚ hs /\
  StronglySorted (cmp_le pair_cmp) (map (fun h => (htlc_out keys ct h, h)) hs').
Proof.
  unfold build_sorted_htlc_outputs, build_htlc_outputs. fold (htlc_out keys ct).
  set (l := map (fun h => (htlc_out keys ct h, h)) hs).
  assert (map (htlc_out keys ct) hs = l.*1 /\ hs = l.*2) as [Hm1 Hm2].
  { unfold l. clear l. induction hs as [|h hs [IH1 IH2]]; [done|]. cbn. split; f_equal; done. }
  change (map (fun htlc => mkTxOut (to_bitcoin_amount htlc) (to_p2wsh (get_htlc_redeemscript htlc ct keys))) hs)
    with (map (htlc_out keys ct) hs).
  rewrite length_map. assert (length hs = length l) as Hl by (unfold l; by rewrite length_map).
  rewrite Hm1. replace (l.*1, hs) with (l.*1, l.*2) by (by f_equal). rewrite Hl, sift_down_rounds by lia.
  assert (exists l', foldl (fun l i => sift i l) l (seq 1 (length l - 1)) = l' /\ l' ≡ₚ l /\
            StronglySorted (cmp_le pair_cmp) l') as (l' & -> & Hp & Hs).
  { destruct (decide (length l = 0)%nat) as [H0|H0].
    - apply nil_length_inv in H0 as ->. exists []. split_and!; [done|done|constructor].
    - destruct (sift_rounds l (length l - 1)) as (pre & Heq & Hlen & Hp & Hs); [lia|].
      exists pre. replace (S (length l - 1)) with (length l) in * by lia.
      rewrite drop_all, app_nil_r in Heq. rewrite take_ge in Hp by done. done. }
  unfold l in Hp. apply Permutation_map_inv in Hp as (hs' & -> & Hp).
  exists hs'. split_and!; [|by symmetry|done].
  f_equal; [by rewrite <- list_fmap_compose|]. clear. induction hs' as [|h hs' IH]; [done|]. cbn. by f_equal.
Qed.

(** ** Insertion of the other outputs *)

Fixpoint fold_run {S A} (f : S -> A -> run S) (s : S) (l : list A) : run S :=
  match l with [] => Return s | a :: l => f s a ≫= fun s => fold_run f s l end.

(** The outputs in the order they are inserted. *)
Definition non_htlc_outputs (keys : TxCreationKeys) (tb tc : Z)
    (params : DirectedChannelTransactionParameters) (sum : Z) : run (list TxOut) :=
  insert_non_htlc_outputs keys tb tc params sum (fun l out => Return (l ++ [out])) [].

Lemma fold_run_app {S A} (f : S -> A -> run S) s l1 l2 :
  fold_run f s (l1 ++ l2) = fold_run f s l1 ≫= fun s => fold_run f s l2.
Proof. revert s. induction l1 as [|a l1 IH]; intros s; [done|]. cbn. destruct (f s a); cbn; [apply IH|done]. Qed.

(** The closure is called on exactly these outputs, in order. *)
Lemma insert_non_htlc_fold {S} keys tb tc params sum (f : S -> TxOut -> run S) s l :
  non_htlc_outputs keys tb tc params sum = Return l ->
  insert_non_htlc_outputs keys tb tc params sum f s = fold_run f s l.
Proof.
  unfold non_htlc_outputs, insert_non_htlc_outputs.
  destruct (countersignatory_pubkeys params) as [c|]; cbn [mbind run_bind]; [|done].
  destruct (broadcaster_pubkeys params) as [b|]; cbn [mbind run_bind]; [|done].
  destruct (contest_delay params) as [d|]; cbn [mbind run_bind]; [|done].
  destruct (0 <? tc), (0 <? tb), (supports_anchors_zero_fee_htlc_tx _), (negb (sum =? 0)),
    (supports_anchor_zero_fee_commitments _); cbn [mbind run_bind mret run_ret orb app];
  repeat match goal with
  | |- context [amount_sub ?a ?b] => destruct (amount_sub a b); cbn [mbind run_bind]
  end; try done; intros [= <-]; cbn [fold_run mbind run_bind mret run_ret];
  repeat match goal with
  | |- context [f ?s ?x] => destruct (f s x); cbn [mbind run_bind mret run_ret]
  end; done.
Qed.

Context {search_laws : BinarySearchLaws}.

(** Each HTLC's index is that of its output, and the indices increase. *)
Record indexed (keys : TxCreationKeys) (ct : ChannelTypeFeatures) (outs : list TxOut)
    (hs : list HTLCOutputInCommitment) : Prop := {
  indexed_at k h : hs !! k = Some h -> exists i, transaction_output_index h = Some (Z.of_nat i) /\
    outs !! i = Some (htlc_out keys ct h);
  indexed_increasing k1 k2 h1 h2 i1 i2 : (k1 < k2)%nat -> hs !! k1 = Some h1 -> hs !! k2 = Some h2 ->
    transaction_output_index h1 = Some i1 -> transaction_output_index h2 = Some i2 -> i1 < i2;
}.

Definition bump_one (idx : Z) (h : HTLCOutputInCommitment) : HTLCOutputInCommitment :=
  match transaction_output_index h with
  | Some i => if idx <=? i then set_output_index (i + 1) h else h
  | None => h
  end.

(** Bumping from the back until an index is too small bumps every HTLC at or
    after the insertion point. *)
Lemma bump_while_spec idx rhs :
  (forall k h, rhs !! k = Some h -> exists i, transaction_output_index h = Some i /\ 0 <= i < 2 ^ 32 - 1) ->
  (forall k1 k2 h1 h2 i1 i2, (k1 < k2)%nat -> rhs !! k1 = Some h1 -> rhs !! k2 = Some h2 ->
     transaction_output_index h1 = Some i1 -> transaction_output_index h2 = Some i2 -> i2 < i1) ->
  bump_while idx rhs = Return (map (bump_one idx) rhs).
Proof.
  induction rhs as [|h rhs IH]; intros Hi Hdec; [done|]. cbn [bump_while map].
  destruct (Hi 0%nat h eq_refl) as (i & Hidx & Hr). rewrite Hidx. cbn [unwrap mbind run_bind].
  destruct (Z.leb_spec idx i) as [Hle|Hgt].
  - rewrite IH.
    + cbn. unfold bump_one at 2. rewrite Hidx, (proj2 (Z.leb_le _ _)) by done.
      rewrite wrapping_small by (unfold fits; lia). done.
    + intros k h' Hk. apply (Hi (S k) h' Hk).
    + intros k1 k2 h1 h2 i1 i2 Hk Hh1 Hh2. apply (Hdec (S k1) (S k2)); [lia|done|done].
  - unfold mret, run_ret. f_equal. f_equal.
    + unfold bump_one. by rewrite Hidx, (proj2 (Z.leb_gt _ _)).
    + rewrite <- (list_fmap_id rhs) at 1. apply list_fmap_ext. intros k h' Hk.
      destruct (Hi (S k) h' Hk) as (i' & Hi' & _).
      pose proof (Hdec 0%nat (S k) h h' i i' ltac:(lia) eq_refl Hk Hidx Hi').
      unfold bump_one. by rewrite Hi', (proj2 (Z.leb_gt _ _)) by lia.
Qed.

Lemma lookup_vec_insert {A} i (x : A) l j : (i <= length l)%nat ->
  vec_insert i x l !! j =
  if decide (j < i)%nat then l !! j else if decide (j = i) then Some x else l !! (j - 1)%nat.
Proof.
  intros Hi. unfold vec_insert. assert (length (take i l) = i) as Hl by (rewrite length_take; lia).
  case_decide; [|case_decide].
  - rewrite lookup_app_l by lia. by rewrite lookup_take_lt by lia.
  - subst j. by rewrite list_lookup_middle by done.
  - rewrite lookup_app_r, Hl by lia. destruct (j - i)%nat as [|m] eqn:E; [lia|].
    change ((x :: drop i l) !! S m) with (drop i l !! m). rewrite lookup_drop. f_equal. lia.
Qed.

Lemma out_split out outs : StronglySorted (cmp_le out_cmp) outs -> split_by (fun o => out_cmp o out) outs.
Proof.
  intros Hs i j x y Hij Hx Hy.
  assert (cmp_le out_cmp x y) as Hxy.
  { clear -Hs Hij Hx Hy. revert i j Hij Hx Hy. induction Hs as [|z l Hs IH Hz]; intros [|i] [|j] Hij Hx Hy; try (done || lia).
    - cbn in *. injection Hx as <-. rewrite Forall_forall in Hz. apply Hz. by apply list_elem_of_lookup_2 in Hy.
    - apply (IH i j); [lia|done|done]. }
  destruct (out_cmp x out) eqn:E1, (out_cmp y out) eqn:E2; try done; exfalso.
  - assert (cmp_le out_cmp y x) as Hyx.
    { apply (cmp_le_trans out_cmp _ out); unfold cmp_le; [by rewrite E2|].
      rewrite (cmp_antisym out_cmp x out), E1. done. }
    assert (out_cmp x y = Eq) as Heq.
    { unfold cmp_le in *. rewrite (cmp_antisym out_cmp x y) in Hyx. by destruct (out_cmp x y). }
    rewrite (cmp_eq out_cmp x y out Heq) in E1. congruence.
  - apply (cmp_le_trans out_cmp x y out) in Hxy; [|unfold cmp_le; by rewrite E2]. unfold cmp_le in Hxy. done.
  - apply (cmp_le_trans out_cmp x y out) in Hxy; [|unfold cmp_le; by rewrite E2]. unfold cmp_le in Hxy. done.
Qed.

Lemma insert_sorted_out out outs : StronglySorted (cmp_le out_cmp) outs ->
  let idx := search_index (fun o => out_cmp o out) outs in
  (idx <= length outs)%nat /\ StronglySorted (cmp_le out_cmp) (vec_insert idx out outs).
Proof.
  intros Hs idx. destruct (search_index_spec (fun o => out_cmp o out) outs (out_split out outs Hs)) as (Hi & Hl & Hr).
  split; [done|]. unfold vec_insert. apply insert_at_sorted; [by rewrite take_drop|exact Hl|].
  eapply Forall_impl; [exact Hr|]. intros o Ho. unfold cmp_le. simpl in Ho.
  rewrite (cmp_antisym out_cmp o out). by destruct (out_cmp o out).
Qed.

Lemma vec_insert_perm {A} i (x : A) l : vec_insert i x l ≡ₚ x :: l.
Proof. unfold vec_insert. rewrite <- Permutation_middle. by rewrite take_drop. Qed.

Lemma indexed_bound keys ct outs hs k h i : indexed keys ct outs hs -> hs !! k = Some h ->
  transaction_output_index h = Some i -> 0 <= i < Z.of_nat (length outs).
Proof.
  intros Hx Hk Hi. destruct (indexed_at _ _ _ _ Hx k h Hk) as (n & Hn & Hout).
  apply lookup_lt_Some in Hout. rewrite Hi in Hn. injection Hn as ->. lia.
Qed.

Lemma bump_one_index idx h i : transaction_output_index h = Some i ->
  transaction_output_index (bump_one idx h) = Some (if idx <=? i then i + 1 else i).
Proof. intros Hi. unfold bump_one. rewrite Hi. by destruct (idx <=? i). Qed.

Lemma bump_one_strip idx h : strip (bump_one idx h) = strip h.
Proof. unfold bump_one. destruct (transaction_output_index h); [|done]. by destruct (idx <=? z). Qed.

Lemma bump_one_out keys ct idx h : htlc_out keys ct (bump_one idx h) = htlc_out keys ct h.
Proof. rewrite <- htlc_out_strip, bump_one_strip. done. Qed.

Lemma indexed_insert keys ct outs hs out idx : (idx <= length outs)%nat -> indexed keys ct outs hs ->
  indexed keys ct (vec_insert idx out outs) (map (bump_one (Z.of_nat idx)) hs).
Proof.
  intros Hidx Hx. split.
  - intros k h'. rewrite list_lookup_fmap. intros (h & Hk & ->)%fmap_Some.
    destruct (indexed_at _ _ _ _ Hx k h Hk) as (i & Hi & Hout).
    rewrite (bump_one_index _ h _ Hi), bump_one_out.
    destruct (Z.leb_spec (Z.of_nat idx) (Z.of_nat i)) as [Hle|Hgt].
    + exists (S i). split; [f_equal; lia|]. rewrite lookup_vec_insert by done.
      do 2 (case_decide; [lia|]). by rewrite Nat.sub_succ, Nat.sub_0_r.
    + exists i. split; [done|]. rewrite lookup_vec_insert by done. case_decide; [done|lia].
  - intros k1 k2 h1' h2' i1 i2 Hk. rewrite !list_lookup_fmap.
    intros (h1 & Hh1 & ->)%fmap_Some (h2 & Hh2 & ->)%fmap_Some.
    destruct (indexed_at _ _ _ _ Hx k1 h1 Hh1) as (j1 & Hj1 & _).
    destruct (indexed_at _ _ _ _ Hx k2 h2 Hh2) as (j2 & Hj2 & _).
    pose proof (indexed_increasing _ _ _ _ Hx k1 k2 h1 h2 _ _ Hk Hh1 Hh2 Hj1 Hj2).
    rewrite (bump_one_index _ h1 _ Hj1), (bump_one_index _ h2 _ Hj2). intros [= <-] [= <-].
    destruct (Z.leb_spec (Z.of_nat idx) (Z.of_nat j1)), (Z.leb_spec (Z.of_nat idx) (Z.of_nat j2)); lia.
Qed.

Lemma insert_and_bump_spec keys ct outs hs out :
  StronglySorted (cmp_le out_cmp) outs -> indexed keys ct outs hs -> (Z.of_nat (length outs) < 2 ^ 31) ->
  exists outs' hs', insert_and_bump (outs, hs) out = Return (outs', hs') /\
    insert_only outs out = Return outs' /\ StronglySorted (cmp_le out_cmp) outs' /\
    indexed keys ct outs' hs' /\ outs' ≡ₚ out :: outs /\ map strip hs' = map strip hs.
Proof.
  intros Hs Hx Hlen. destruct (insert_sorted_out out outs Hs) as [Hidx Hs'].
  set (idx := search_index (fun o => out_cmp o out) outs) in *.
  exists (vec_insert idx out outs), (map (bump_one (Z.of_nat idx)) hs). split_and!.
  - unfold insert_and_bump. fold idx. rewrite wrapping_small by (unfold fits; lia).
    rewrite bump_while_spec.
    + cbn. by rewrite <- fmap_reverse, reverse_involutive.
    + intros k h Hk. apply list_elem_of_lookup_2 in Hk. rewrite elem_of_reverse in Hk.
      apply list_elem_of_lookup_1 in Hk as [j Hj].
      destruct (indexed_at _ _ _ _ Hx j h Hj) as (i & Hi & _). exists (Z.of_nat i). split; [done|].
      pose proof (indexed_bound _ _ _ _ _ _ _ Hx Hj Hi). lia.
    + intros k1 k2 h1 h2 i1 i2 Hk Hh1 Hh2.
      pose proof (lookup_lt_Some _ _ _ Hh1) as Hb1. pose proof (lookup_lt_Some _ _ _ Hh2) as Hb2.
      rewrite length_reverse in Hb1, Hb2.
      rewrite reverse_lookup in Hh1, Hh2 by lia. intros Hi1 Hi2.
      eapply (indexed_increasing _ _ _ _ Hx (length hs - S k2) (length hs - S k1)); [lia|done|done|done|done].
  - done.
  - done.
  - by apply indexed_insert.
  - apply vec_insert_perm.
  - rewrite map_map. apply map_ext. intros h. apply bump_one_strip.
Qed.

Lemma insert_fold_spec keys ct l outs hs :
  StronglySorted (cmp_le out_cmp) outs -> indexed keys ct outs hs ->
  (Z.of_nat (length outs + length l) < 2 ^ 31) ->
  exists outs' hs', fold_run insert_and_bump (outs, hs) l = Return (outs', hs') /\
    fold_run insert_only outs l = Return outs' /\ StronglySorted (cmp_le out_cmp) outs' /\
    indexed keys ct outs' hs' /\ outs' ≡ₚ l ++ outs /\ map strip hs' = map strip hs.
Proof.
  revert outs hs. induction l as [|out l IH]; intros outs hs Hs Hx Hlen.
  - exists outs, hs. done.
  - simpl in Hlen.
    destruct (insert_and_bump_spec keys ct outs hs out Hs Hx ltac:(lia)) as (o1 & h1 & E1 & E2 & Hs1 & Hx1 & Hp1 & Hm1).
    destruct (IH o1 h1 Hs1 Hx1) as (o2 & h2 & F1 & F2 & Hs2 & Hx2 & Hp2 & Hm2).
    { rewrite Hp1. simpl. lia. }
    exists o2, h2. cbn [fold_run]. rewrite E1, E2. cbn [mbind run_bind].
    split_and!; [done|done|done|done| |congruence].
    rewrite Hp2, Hp1. simpl. by rewrite Permutation_middle.
Qed.

(** The sorted HTLC outputs are sorted as outputs, and indexed by position. *)
Lemma sorted_outs keys ct hs : StronglySorted (cmp_le pair_cmp) (map (fun h => (htlc_out keys ct h, h)) hs) ->
  StronglySorted (cmp_le out_cmp) (map (htlc_out keys ct) hs).
Proof.
  induction hs as [|h hs IH]; [constructor|]. cbn. intros [Hs Hh]%StronglySorted_inv.
  constructor; [by apply IH|]. apply Forall_forall. rewrite Forall_forall in Hh. intros o Ho.
  apply list_elem_of_fmap in Ho as (h' & -> & Hh').
  specialize (Hh (htlc_out keys ct h', h')). unfold cmp_le, pair_cmp in *. cbn [fst snd] in Hh.
  assert (then_cmp (value (htlc_out keys ct h) ?= value (htlc_out keys ct h'))
    (slice_cmp (script_pubkey (htlc_out keys ct h)) (script_pubkey (htlc_out keys ct h'))) <> Gt) as Hout; [|exact Hout].
  intros HGt. apply Hh; [|by rewrite HGt]. apply list_elem_of_fmap. by exists h'.
Qed.

Lemma indexed_initial keys ct hs : Z.of_nat (length hs) < 2 ^ 32 ->
  indexed keys ct (map (htlc_out keys ct) hs)
    (imap (fun i => set_output_index (wrapping 32 (Z.of_nat i))) hs).
Proof.
  intros Hlen. split.
  - intros k h'. rewrite list_lookup_imap. intros (h & Hk & ->)%fmap_Some. exists k.
    pose proof (lookup_lt_Some _ _ _ Hk). cbn. rewrite wrapping_small by (unfold fits; lia).
    split; [done|]. by rewrite list_lookup_fmap, Hk.
  - intros k1 k2 h1' h2' i1 i2 Hk. rewrite !list_lookup_imap.
    intros (h1 & Hh1 & ->)%fmap_Some (h2 & Hh2 & ->)%fmap_Some. cbn. intros [= <-] [= <-].
    pose proof (lookup_lt_Some _ _ _ Hh1). pose proof (lookup_lt_Some _ _ _ Hh2).
    rewrite !wrapping_small by (unfold fits; lia). lia.
Qed.

Definition params_ok (params : DirectedChannelTransactionParameters) (b c : ChannelPublicKeys) : Prop :=
  is_populated (inner params) = true /\ broadcaster_pubkeys params = Return b /\
  countersignatory_pubkeys params = Return c.

Lemma populated_returns params : is_populated (inner params) = true ->
  exists d op, contest_delay params = Return d /\ funding_outpoint params = Return op.
Proof.
  unfold is_populated, contest_delay, funding_outpoint. intros H.
  apply andb_prop in H as [[cp ->]%bool_decide_eq_true [op ->]%bool_decide_eq_true]. cbn. eauto.
Qed.

Lemma amount_sub_ok a b : b <= a -> amount_sub a b = Return (a - b).
Proof. intros H. unfold amount_sub, checked_sub. by rewrite (proj2 (Z.leb_le _ _)). Qed.

Definition anchors_value (ct : ChannelTypeFeatures) : Z :=
  if supports_anchors_zero_fee_htlc_tx ct then ANCHOR_OUTPUT_VALUE_SATOSHI * 2 else 0.

Definition fits_channel (params : DirectedChannelTransactionParameters) (tb tc sum : Z) : Prop :=
  0 <= tb /\ 0 <= tc /\ 0 <= sum /\ sum + tb + tc <= channel_value_satoshis params.

(** The outputs inserted, at most five, take what the two balances and the
    anchors are worth; the shared anchor only takes from what is left over. *)
Lemma non_htlc_outputs_return keys tb tc params sum b c :
  params_ok params b c -> fits_channel params tb tc sum ->
  exists l, non_htlc_outputs keys tb tc params sum = Return l /\ (length l <= 5)%nat /\
    Forall (fun o => 0 <= value o) l /\
    zsum (map value l) <= Z.max (tb + tc + anchors_value (channel_type_features params))
      (if supports_anchor_zero_fee_commitments (channel_type_features params)
       then channel_value_satoshis params - sum + anchors_value (channel_type_features params) else 0).
Proof.
  intros (Hpop & Hb & Hc) (Htb & Htc & Hsum & Hfit). destruct (populated_returns params Hpop) as (d & op & Hd & _).
  unfold non_htlc_outputs, insert_non_htlc_outputs, anchors_value. rewrite Hb, Hc, Hd.
  cbn [mbind run_bind].
  set (ct := channel_type_features params).
  destruct (Z.ltb_spec 0 tc), (Z.ltb_spec 0 tb), (supports_anchors_zero_fee_htlc_tx ct), (negb (sum =? 0)),
    (supports_anchor_zero_fee_commitments ct); cbn [mbind run_bind mret run_ret orb app];
  repeat (rewrite amount_sub_ok by lia; cbn [mbind run_bind]);
  (eexists; split; [reflexivity|]; split; [cbn; lia|]; split;
   [prove_forall|];
   cbn [map zsum foldr value]; unfold ANCHOR_OUTPUT_VALUE_SATOSHI, P2A_MAX_VALUE; lia).
Qed.

Lemma non_htlc_outputs_nonempty keys tb tc params sum l :
  non_htlc_outputs keys tb tc params sum = Return l ->
  0 < tb \/ 0 < tc \/ supports_anchor_zero_fee_commitments (channel_type_features params) = true -> l <> [].
Proof.
  unfold non_htlc_outputs, insert_non_htlc_outputs.
  destruct (countersignatory_pubkeys params) as [c|]; cbn [mbind run_bind]; [|done].
  destruct (broadcaster_pubkeys params) as [b|]; cbn [mbind run_bind]; [|done].
  destruct (contest_delay params) as [d|]; cbn [mbind run_bind]; [|done].
  destruct (Z.ltb_spec 0 tc), (Z.ltb_spec 0 tb), (supports_anchors_zero_fee_htlc_tx _), (negb (sum =? 0)),
    (supports_anchor_zero_fee_commitments _); cbn [mbind run_bind mret run_ret orb app];
  repeat match goal with
  | |- context [amount_sub ?a ?b] => destruct (amount_sub a b); cbn [mbind run_bind]
  end; try done; intros [= <-]; try done; intros [?|[?|?]]; (lia || done).
Qed.

Lemma sats_nonneg hs : Forall (fun h => 0 <= amount_msat h) hs ->
  Forall (fun x => 0 <= x) (map to_bitcoin_amount hs).
Proof.
  intros Hnn. apply Forall_fmap. eapply Forall_impl; [exact Hnn|].
  intros h Hh. cbv beta in Hh. unfold compose, to_bitcoin_amount. apply Z.div_pos; lia.
Qed.

Record channel_amounts_ok (params : DirectedChannelTransactionParameters) (tb tc : Z)
    (hs : list HTLCOutputInCommitment) : Prop := {
  amounts_nonneg : Forall (fun h => 0 <= amount_msat h) hs;
  amounts_fit : fits_channel params tb tc (zsum (map to_bitcoin_amount hs));
  channel_value_u64 : channel_value_satoshis params < 2 ^ 64;
  htlc_count_ok : Z.of_nat (length hs) <= count_bound;
}.

(** The sort does not look at the output indices. *)
Lemma sorted_strip keys ct hs :
  StronglySorted (cmp_le pair_cmp) (map (fun h => (htlc_out keys ct h, h)) hs) <->
  StronglySorted (cmp_le pair_cmp) (map (fun h => (htlc_out keys ct h, h)) (map strip hs)).
Proof.
  induction hs as [|h hs IH]; [done|]. cbn [map]. split; intros [Hs Hf]%StronglySorted_inv;
    (constructor; [by apply IH|]); rewrite !List.Forall_map in *; exact Hf.
Qed.

Lemma build_outputs_spec keys tb tc hs params b c :
  params_ok params b c -> channel_amounts_ok params tb tc hs ->
  let ct := channel_type_features params in
  exists others outs hs', non_htlc_outputs keys tb tc params (zsum (map to_bitcoin_amount hs)) = Return others /\
    build_outputs_and_htlcs keys tb tc hs params = Return (outs, hs') /\
    outs ≡ₚ others ++ map (htlc_out keys ct) hs /\ StronglySorted (cmp_le out_cmp) outs /\
    map strip hs' ≡ₚ map strip hs /\ indexed keys ct outs hs' /\
    fold_run insert_only (map (htlc_out keys ct) hs') others = Return outs /\
    StronglySorted (cmp_le pair_cmp) (map (fun h => (htlc_out keys ct h, h)) hs') /\
    htlcs_value_sum hs' = zsum (map to_bitcoin_amount hs).
Proof.
  intros Hp [Hnn Hfit Hu64 Hcount] ct. destruct (build_sorted_spec keys hs ct) as (hs0 & Hsort & Hperm & Hsorted).
  destruct (non_htlc_outputs_return keys tb tc params _ b c Hp Hfit) as (others & Hothers & Hlen & _).
  assert (zsum (map to_bitcoin_amount hs) < 2 ^ 64) as Hlt by (destruct Hfit as (? & ? & ? & ?); lia).
  assert (forall l, map strip l ≡ₚ map strip hs -> htlcs_value_sum l = zsum (map to_bitcoin_amount hs)) as Hsum.
  { intros l Hl. assert (map to_bitcoin_amount l ≡ₚ map to_bitcoin_amount hs) as Hm.
    { apply (Permutation_map to_bitcoin_amount) in Hl. rewrite !map_map in Hl. exact Hl. }
    rewrite <- (zsum_perm _ _ Hm). unfold htlcs_value_sum. apply u64_sum_exact.
    - rewrite Hm. by apply sats_nonneg.
    - by rewrite (zsum_perm _ _ Hm). }
  unfold count_bound in Hcount.
  assert (length hs0 = length hs) as Hl0 by by rewrite Hperm.
  destruct (insert_fold_spec keys ct others (map (htlc_out keys ct) hs0)
    (imap (fun i => set_output_index (wrapping 32 (Z.of_nat i))) hs0)) as (outs & hs' & F1 & F2 & Hs & Hx & Hpo & Hst).
  { by apply sorted_outs. }
  { apply indexed_initial. lia. }
  { rewrite length_map. lia. }
  assert (map strip hs' = map strip hs0) as Hst'.
  { rewrite Hst. clear. apply list_eq. intros i. rewrite !list_lookup_fmap, list_lookup_imap. by destruct (hs0 !! i). }
  assert (map (htlc_out keys ct) hs' = map (htlc_out keys ct) hs0) as Ho.
  { rewrite <- (map_ext _ _ (htlc_out_strip keys ct)), <- (map_map strip), Hst', map_map. done. }
  exists others, outs, hs'. split_and!.
  - done.
  - unfold build_outputs_and_htlcs. fold ct. rewrite Hsort. rewrite (Hsum hs0) by by rewrite Hperm.
    by rewrite (insert_non_htlc_fold _ _ _ _ _ _ _ _ Hothers).
  - rewrite Hpo. by rewrite Hperm.
  - done.
  - by rewrite Hst', Hperm.
  - done.
  - by rewrite Ho.
  - apply sorted_strip. rewrite Hst'. by apply sorted_strip in Hsorted.
  - apply Hsum. by rewrite Hst', Hperm.
Qed.

Lemma commitment_new_spec number pcp tb tc feerate hs params b c keys :
  params_ok params b c -> from_channel_static_keys pcp b c = Return keys ->
  channel_amounts_ok params tb tc hs ->
  let ct := channel_type_features params in
  exists cm others outs hs' obscured txins delay,
    commitment_new number pcp tb tc feerate hs params = Return cm /\
    cm = mkCommitment number tb tc (Some delay) feerate hs' ct keys
           (mkBuilt (make_transaction obscured txins outs params)
                    (compute_txid (make_transaction obscured txins outs params))) /\
    build_inputs number params = Return (obscured, txins) /\
    contest_delay params = Return delay /\
    non_htlc_outputs keys tb tc params (zsum (map to_bitcoin_amount hs)) = Return others /\
    outs ≡ₚ others ++ map (htlc_out keys ct) hs /\ StronglySorted (cmp_le out_cmp) outs /\
    map strip hs' ≡ₚ map strip hs /\ indexed keys ct outs hs' /\
    fold_run insert_only (map (htlc_out keys ct) hs') others = Return outs /\
    StronglySorted (cmp_le pair_cmp) (map (fun h => (htlc_out keys ct h, h)) hs') /\
    htlcs_value_sum hs' = zsum (map to_bitcoin_amount hs).
Proof.
  intros Hp Hkeys Hamt ct. pose proof Hp as (Hpop & Hb & Hc).
  destruct (populated_returns params Hpop) as (d & op & Hd & Hop).
  destruct (build_outputs_spec keys tb tc hs params b c Hp Hamt)
    as (others & outs & hs' & Hothers & Hbuild & H1 & H2 & H3 & H4 & H5 & H6 & H7).
  unfold commitment_new, build_inputs. rewrite Hb, Hc. cbn [mbind run_bind]. rewrite Hkeys. cbn [mbind run_bind].
  rewrite Hbuild, Hop, Hd. cbn [mbind run_bind mret run_ret].
  do 7 eexists. split; [reflexivity|]. split; [reflexivity|]. by split_and!.
Qed.

Lemma sorted_not_left_greater keys ct hs :
  StronglySorted (cmp_le pair_cmp) (map (fun h => (htlc_out keys ct h, h)) hs) ->
  existsb (fun i => is_left_greater i (map (htlc_out keys ct) hs) hs)
    (seq 1 (length (map (htlc_out keys ct) hs) - 1)) = false.
Proof.
  intros Hs. apply not_true_is_false. intros (i & Hi%in_seq & Hg)%existsb_exists.
  rewrite length_map in Hi. unfold is_left_greater in Hg. destruct i as [|i]; [lia|].
  rewrite Nat.sub_succ, Nat.sub_0_r in Hg.
  destruct (lookup_lt_is_Some_2 hs i) as [x Hx]; [lia|]. destruct (lookup_lt_is_Some_2 hs (S i)) as [y Hy]; [lia|].
  rewrite !nth_lookup, !list_lookup_fmap, Hx, Hy in Hg. cbn [fmap option_fmap option_map default id from_option] in Hg.
  assert (cmp_le pair_cmp (htlc_out keys ct x, x) (htlc_out keys ct y, y)) as Hle; [|unfold cmp_le, pair_cmp in Hle;
    cbn [fst snd] in Hle; by destruct (then_cmp _ _)].
  clear -Hs Hx Hy. revert i Hx Hy. induction hs as [|h hs IH]; intros i Hx Hy; [done|].
  cbn in Hs. apply StronglySorted_inv in Hs as [Hs Hf]. destruct i as [|i]; [|by apply (IH Hs i)].
  cbn in Hx, Hy. injection Hx as <-. rewrite Forall_forall in Hf. apply Hf.
  apply list_elem_of_fmap. exists y. split; [done|]. by apply list_elem_of_lookup_2 in Hy.
Qed.

(** C19: the commitment transaction built for a populated channel whose balances
    and HTLCs fit in its value exists and has exactly the outputs it should: the
    HTLC outputs and the balance and anchor outputs, sorted by value and script.
    The HTLC data kept beside it is the same set of HTLCs, and the output index
    recorded for each HTLC is the position of that HTLC's own output, indices
    increasing. *)
Theorem commitment_outputs_indexed number pcp tb tc feerate hs params b c keys :
  params_ok params b c -> from_channel_static_keys pcp b c = Return keys ->
  channel_amounts_ok params tb tc hs ->
  let ct := channel_type_features params in
  exists cm others,
    commitment_new number pcp tb tc feerate hs params = Return cm /\
    non_htlc_outputs keys tb tc params (zsum (map to_bitcoin_amount hs)) = Return others /\
    tx_output (built_tx (built cm)) ≡ₚ others ++ map (htlc_out keys ct) hs /\
    StronglySorted (cmp_le out_cmp) (tx_output (built_tx (built cm))) /\
    map strip (nondust_htlcs cm) ≡ₚ map strip hs /\
    indexed keys ct (tx_output (built_tx (built cm))) (nondust_htlcs cm).
Proof.
  intros Hp Hkeys Hamt ct.
  destruct (commitment_new_spec number pcp tb tc feerate hs params b c keys Hp Hkeys Hamt)
    as (cm & others & outs & hs' & obs & txins & d & Hnew & -> & _ & _ & Hoth & H1 & H2 & H3 & H4 & _).
  eexists _, others. split; [exact Hnew|]. by split_and!.
Qed.

(** A commitment transaction the code builds passes its own verification:
    an external signer that recomputes the keys, checks the order of the HTLCs
    and rebuilds the transaction from the stored data gets the same transaction
    and accepts it. *)
Theorem commitment_verifies number pcp tb tc feerate hs params b c keys :
  params_ok params b c -> from_channel_static_keys pcp b c = Return keys ->
  channel_amounts_ok params tb tc hs ->
  exists cm, commitment_new number pcp tb tc feerate hs params = Return cm /\
    verify cm params = Return (Ok tt).
Proof.
  intros Hp Hkeys Hamt. pose proof Hp as (_ & Hb & Hc).
  destruct (commitment_new_spec number pcp tb tc feerate hs params b c keys Hp Hkeys Hamt)
    as (cm & others & outs & hs' & obs & txins & d & Hnew & -> & Hin & _ & Hoth & _ & _ & _ & _ & Hfold & Hsort & Hsum).
  eexists. split; [exact Hnew|]. unfold verify. rewrite Hb, Hc. cbn [mbind run_bind ctx_keys].
  assert (per_commitment_point keys = pcp) as ->.
  { clear -Hkeys. unfold from_channel_static_keys, derive_new in Hkeys.
    destruct (revocation_from_basepoint _ _); [|done]. cbn in Hkeys.
    destruct (derive_public_key pcp (htlc_basepoint b)); [|done]. cbn in Hkeys.
    destruct (derive_public_key pcp (htlc_basepoint c)); [|done]. cbn in Hkeys.
    destruct (derive_public_key pcp (delayed_payment_basepoint b)); [|done]. by injection Hkeys as <-. }
  rewrite Hkeys. cbn [mbind run_bind]. rewrite decide_True by done.
  unfold rebuild_transaction. cbn [commitment_number nondust_htlcs]. rewrite Hin. cbn [mbind run_bind].
  unfold build_htlc_outputs. fold (htlc_out keys (channel_type_features params)).
  change (map (fun htlc => mkTxOut _ _) hs') with (map (htlc_out keys (channel_type_features params)) hs').
  rewrite (sorted_not_left_greater keys _ hs' Hsort), Hsum.
  cbn [to_broadcaster_value_sat CommitmentTx.to_countersignatory_value_sat].
  rewrite (insert_non_htlc_fold _ _ _ _ _ _ _ _ Hoth), Hfold. cbn. by rewrite decide_True.
Qed.

(** The commitment number survives the trip on chain: what the channel
    monitor decodes from the sequence and lock time of a commitment transaction,
    with the obscuring factor of the two payment points, is the number the
    transaction was built for. *)
Theorem commitment_number_roundtrip {laws : BitcoinLaws} number pcp tb tc feerate hs params cm :
  0 <= number <= INITIAL_COMMITMENT_NUMBER ->
  commitment_new number pcp tb tc feerate hs params = Return cm ->
  exists b c, broadcaster_pubkeys params = Return b /\ countersignatory_pubkeys params = Return c /\
  decode_commitment_number
    (get_commitment_transaction_number_obscure_factor (payment_point b) (payment_point c) (is_outbound params))
    (built_tx (built cm)) = Return number.
Proof.
  intros Hn Hnew.
  assert (exists obs txins outs, build_inputs number params = Return (obs, txins) /\
            built_tx (built cm) = make_transaction obs txins outs params) as (obs & txins & outs & Hin & ->).
  { unfold commitment_new in Hnew.
    destruct (broadcaster_pubkeys params) as [b|]; [|done]. cbn in Hnew.
    destruct (countersignatory_pubkeys params) as [c|]; [|done]. cbn in Hnew.
    destruct (from_channel_static_keys pcp b c) as [keys|]; [|done]. cbn in Hnew.
    destruct (build_outputs_and_htlcs _ _ _ _ _) as [[outs hs']|]; [|done]. cbn in Hnew.
    destruct (build_inputs number params) as [[obs txins]|]; [|done]. cbn in Hnew.
    destruct (contest_delay params) as [d|]; [|done]. injection Hnew as <-. eauto. }
  by apply decode_of_build.
Qed.

End outputs_proofs.

(** ** A concrete channel *)

#[export] Instance toy_txhash : TxHash := {| compute_txid tx := [lock_time tx; Z.of_nat (length (tx_output tx))] |}.

Definition example_params (ct : ChannelTypeFeatures) : DirectedChannelTransactionParameters :=
  mkDirected (mkChannelParams (mkChannelPublicKeys 11 12 13 14 15) 144 true
    (Some (mkCounterpartyParams (mkChannelPublicKeys 21 22 23 24 25) 720))
    (Some (mkOutPoint [1] 0)) None ct 1000000) true.

Definition example_htlcs : list HTLCOutputInCommitment :=
  [mkHTLC true 5000000 500 (replicate 32 2) None; mkHTLC false 2000000 600 (replicate 32 1) None;
   mkHTLC true 5000000 400 (replicate 32 3) None].

Definition example_keys : TxCreationKeys :=
  returned (from_channel_static_keys 99 (mkChannelPublicKeys 11 12 13 14 15) (mkChannelPublicKeys 21 22 23 24 25))
    (mkTxCreationKeys 0 0 0 0 0).

Lemma example_keys_ok :
  from_channel_static_keys 99 (mkChannelPublicKeys 11 12 13 14 15) (mkChannelPublicKeys 21 22 23 24 25)
    = Return example_keys.
Proof. apply returned_eq. vm_compute. reflexivity. Qed.

Lemma example_params_ok ct :
  params_ok (example_params ct) (mkChannelPublicKeys 11 12 13 14 15) (mkChannelPublicKeys 21 22 23 24 25).
Proof. done. Qed.

Lemma example_amounts_ok ct : channel_amounts_ok (example_params ct) 600000 300000 example_htlcs.
Proof.
  split; [prove_forall; cbn; lia|repeat split; vm_compute; discriminate|done|vm_compute; discriminate].
Qed.

Lemma commitment_outputs_indexed_witness : exists cm others,
  commitment_new (bitcoin := toy_bitcoin) 7 99 600000 300000 253 example_htlcs (example_params anchors_zero_htlc_fee_and_dependencies)
    = Return cm /\
  tx_output (built_tx (built cm)) ≡ₚ
    others ++ map (htlc_out example_keys anchors_zero_htlc_fee_and_dependencies) example_htlcs.
Proof.
  destruct (commitment_outputs_indexed (bitcoin := toy_bitcoin) 7 99 600000 300000 253 example_htlcs
    (example_params anchors_zero_htlc_fee_and_dependencies) _ _ example_keys
    (example_params_ok _) example_keys_ok (example_amounts_ok _)) as (cm & others & Hnew & _ & Hperm & _).
  exists cm, others. split; [exact Hnew|exact Hperm].
Defined.

Lemma commitment_verifies_witness : exists cm,
  commitment_new (bitcoin := toy_bitcoin) 7 99 600000 300000 253 example_htlcs (example_params only_static_remote_key) = Return cm /\
  verify cm (example_params only_static_remote_key) = Return (Ok tt).
Proof.
  exact (commitment_verifies (bitcoin := toy_bitcoin) 7 99 600000 300000 253 example_htlcs (example_params only_static_remote_key) _ _
    example_keys (example_params_ok _) example_keys_ok (example_amounts_ok _)).
Defined.

Definition example_commitment : CommitmentTransaction :=
  returned (commitment_new (bitcoin := toy_bitcoin) 7 99 600000 300000 253 example_htlcs
              (example_params only_static_remote_key))
    (mkCommitment 0 0 0 None 0 [] features_empty example_keys (mkBuilt (mkTransaction 0 0 [] []) [])).

Lemma commitment_number_roundtrip_witness :
  decode_commitment_number (get_commitment_transaction_number_obscure_factor (H := toy_bitcoin) 13 23 true)
    (built_tx (built example_commitment)) = Return 7.
Proof.
  destruct (commitment_number_roundtrip (bitcoin := toy_bitcoin) 7 99 600000 300000 253 example_htlcs
    (example_params only_static_remote_key) example_commitment) as (b & c & Hb & Hc & Hd).
  - vm_compute. split; discriminate.
  - apply returned_eq. vm_compute. reflexivity.
  - injection Hb as <-. injection Hc as <-. exact Hd.
Defined.
