(* ===== verification/TxBuilder.v ===== *)
(** * The transaction builder (lightning/src/sign/tx_builder.rs)

    The computation of a commitment's balances, fees, dust exposure and of the
    amounts that may be sent or spliced out, and the construction of commitment
    transactions.  The theorems here are about the commitment statistics and the
    built transaction; AvailableBalances.v and SpliceOut.v are about the limits. *)

From Stdlib Require Import ZArith Lia Bool.
From S2P Require Import Prelude.
From S2P Require Import Features.
From S2P Require Import ChanUtils.
From S2P Require Import Keys.
From S2P Require Import Order.
From S2P Require Import Scripts.
From S2P Require Import CommitmentTx.

Local Open Scope Z_scope.

(** From ln/channel.rs. *)
Definition FEE_SPIKE_BUFFER_FEE_INCREASE_MULTIPLE : Z := 2.
Definition MIN_CHANNEL_VALUE_SATOSHIS : Z := 1000.

Definition get_v2_channel_reserve_satoshis (channel_value dust_limit : Z) (is_0reserve : bool)
    : result unit Z :=
  if channel_value <? dust_limit then Err tt
  else if is_0reserve then Ok 0
  else
    let q := channel_value / 100 in
    Ok (Z.max q dust_limit).

(** [x as i64] *)
Definition as_i64 (x : Z) : Z := (x + 2 ^ 63) mod 2 ^ 64 - 2 ^ 63.

(** ** Data *)

Record HTLCAmountDirection : Type := mkDirection {
  outbound : bool;
  htlc_amount_msat : Z;
}.

Record NextCommitmentStats : Type := mkNextStats {
  holder_balance_msat : Z;
  counterparty_balance_msat : Z;
  stats_dust_exposure_msat : Z;
  nondust_htlc_count : Z;
  stats_commit_tx_fee_sat : Z;
}.

Record AvailableBalances : Type := mkAvailable {
  inbound_capacity_msat : Z;
  outbound_capacity_msat : Z;
  next_outbound_htlc_limit_msat : Z;
  next_outbound_htlc_minimum_msat : Z;
  dust_exposure_msat : Z;
  next_splice_out_maximum_sat : Z;
}.

Record ChannelStats : Type := mkChannelStats {
  commitment_stats : NextCommitmentStats;
  available_balances : AvailableBalances;
}.

Record CommitmentStats : Type := mkCommitmentStats {
  cs_commit_tx_fee_sat : Z;
  local_balance_before_fee_msat : Z;
  remote_balance_before_fee_msat : Z;
}.

Record ChannelConstraints : Type := mkConstraints {
  holder_dust_limit_satoshis : Z;
  counterparty_selected_channel_reserve_satoshis : Z;
  counterparty_dust_limit_satoshis : Z;
  holder_selected_channel_reserve_satoshis : Z;
  counterparty_htlc_minimum_msat : Z;
  counterparty_max_htlc_value_in_flight_msat : Z;
  counterparty_max_accepted_htlcs : Z;
}.

(** ** Fees and dust *)

Definition is_dust (self : HTLCAmountDirection) (local : bool)
    (feerate_per_kw broadcaster_dust_limit_satoshis : Z) (ct : ChannelTypeFeatures) : bool :=
  let '(success_tx_fee_sat, timeout_tx_fee_sat) := second_stage_tx_fees_sat ct feerate_per_kw in
  let htlc_tx_fee_sat := if Bool.eqb (outbound self) local then timeout_tx_fee_sat else success_tx_fee_sat in
  (htlc_amount_msat self / 1000 <? broadcaster_dust_limit_satoshis + htlc_tx_fee_sat)%u64.

Definition commit_plus_htlc_tx_fees_msat (local : bool) (next_commitment_htlcs : list HTLCAmountDirection)
    (dust_buffer_feerate feerate broadcaster_dust_limit_satoshis : Z) (ct : ChannelTypeFeatures) : Z * Z :=
  let accepted_nondust_htlcs := count_if (fun htlc =>
    negb (Bool.eqb (outbound htlc) local) &&
    negb (is_dust htlc local dust_buffer_feerate broadcaster_dust_limit_satoshis ct)) next_commitment_htlcs in
  let offered_nondust_htlcs := count_if (fun htlc =>
    Bool.eqb (outbound htlc) local &&
    negb (is_dust htlc local dust_buffer_feerate broadcaster_dust_limit_satoshis ct)) next_commitment_htlcs in
  let commitment_fee_sat :=
    commit_tx_fee_sat feerate (accepted_nondust_htlcs + offered_nondust_htlcs)%u64 ct in
  let second_stage_fees_sat := htlc_tx_fees_sat feerate accepted_nondust_htlcs offered_nondust_htlcs ct in
  let total_fees_msat := ((commitment_fee_sat + second_stage_fees_sat) * 1000)%u64 in
  let extra_accepted_htlc_commitment_fee_sat :=
    commit_tx_fee_sat feerate (accepted_nondust_htlcs + 1 + offered_nondust_htlcs)%u64 ct in
  let extra_accepted_htlc_second_stage_fees_sat :=
    htlc_tx_fees_sat feerate (accepted_nondust_htlcs + 1)%u64 offered_nondust_htlcs ct in
  let extra_accepted_htlc_total_fees_msat :=
    ((extra_accepted_htlc_commitment_fee_sat + extra_accepted_htlc_second_stage_fees_sat) * 1000)%u64 in
  (total_fees_msat, extra_accepted_htlc_total_fees_msat).

Definition total_anchors_sat (ct : ChannelTypeFeatures) : Z :=
  if supports_anchors_zero_fee_htlc_tx ct then ANCHOR_OUTPUT_VALUE_SATOSHI * 2 else 0.

Definition checked_sub_from_funder (is_outbound_from_holder : bool)
    (value_to_holder value_to_counterparty value_to_subtract : Z) : result unit (Z * Z) :=
  if is_outbound_from_holder then
    v ← ok_or (checked_sub value_to_holder value_to_subtract) tt;
    Ok (v, value_to_counterparty)
  else
    v ← ok_or (checked_sub value_to_counterparty value_to_subtract) tt;
    Ok (value_to_holder, v).

Definition saturating_sub_from_funder (is_outbound_from_holder : bool)
    (value_to_holder value_to_counterparty value_to_subtract : Z) : Z * Z :=
  if is_outbound_from_holder
  then (saturating_sub value_to_holder value_to_subtract, value_to_counterparty)
  else (value_to_holder, saturating_sub value_to_counterparty value_to_subtract).

Definition get_dust_buffer_feerate (feerate_per_kw : Z) : Z :=
  let feerate_plus_quarter := (fun v => v / 1000) <$> checked_mul 32 feerate_per_kw 1250 in
  Z.max (saturating_add 32 feerate_per_kw 2530) (default (umax 32) feerate_plus_quarter).

Definition get_dust_exposure_stats (local : bool) (commitment_htlcs : list HTLCAmountDirection)
    (feerate_per_kw : Z) (dust_exposure_limiting_feerate : option Z)
    (broadcaster_dust_limit_satoshis : Z) (ct : ChannelTypeFeatures) : Z * option Z :=
  let excess_feerate := saturating_sub feerate_per_kw (default feerate_per_kw dust_exposure_limiting_feerate) in
  let dust_buffer_feerate := get_dust_buffer_feerate feerate_per_kw in
  let dust_exposure_msat := u64_sum (map htlc_amount_msat (List.filter (fun htlc =>
    is_dust htlc local dust_buffer_feerate broadcaster_dust_limit_satoshis ct) commitment_htlcs)) in
  if local || (excess_feerate =? 0) then (dust_exposure_msat, None)
  else
    let '(excess_fees_msat, extra_accepted_htlc_excess_fees_msat) :=
      commit_plus_htlc_tx_fees_msat local commitment_htlcs dust_buffer_feerate excess_feerate
        broadcaster_dust_limit_satoshis ct in
    ((dust_exposure_msat + excess_fees_msat)%u64,
     Some (dust_exposure_msat + extra_accepted_htlc_excess_fees_msat)%u64).

Definition has_output (is_outbound_from_holder : bool)
    (holder_balance_before_fee_msat counterparty_balance_before_fee_msat feerate_per_kw
     nondust_htlc_count broadcaster_dust_limit_satoshis : Z) (ct : ChannelTypeFeatures) : bool :=
  let commit_tx_fee := commit_tx_fee_sat feerate_per_kw nondust_htlc_count ct in
  let '(holder_balance_msat, counterparty_balance_msat) :=
    saturating_sub_from_funder is_outbound_from_holder holder_balance_before_fee_msat
      counterparty_balance_before_fee_msat (saturating_mul 64 commit_tx_fee 1000) in
  let dust_limit_msat := (broadcaster_dust_limit_satoshis * 1000)%u64 in
  let has_no_output :=
    (holder_balance_msat <? dust_limit_msat) && (counterparty_balance_msat <? dust_limit_msat) &&
    (nondust_htlc_count =? 0) && negb (supports_anchor_zero_fee_commitments ct) in
  negb has_no_output.

Definition htlcs_value_msat (out : bool) (htlcs : list HTLCAmountDirection) : Z :=
  u64_sum (map htlc_amount_msat (List.filter (fun htlc => Bool.eqb (outbound htlc) out) htlcs)).

Definition nondust_count (local : bool) (feerate dust_limit : Z) (ct : ChannelTypeFeatures)
    (htlcs : list HTLCAmountDirection) : Z :=
  count_if (fun htlc => negb (is_dust htlc local feerate dust_limit ct)) htlcs.

Definition get_next_commitment_stats (local is_outbound_from_holder : bool) (channel_value_satoshis
    value_to_holder_msat : Z) (next_commitment_htlcs : list HTLCAmountDirection)
    (addl_nondust_htlc_count feerate_per_kw : Z) (assume_fee_spike : bool)
    (dust_exposure_limiting_feerate : option Z) (broadcaster_dust_limit_satoshis : Z)
    (ct : ChannelTypeFeatures) : result unit NextCommitmentStats :=
  value_to_counterparty_msat ←
    ok_or (checked_sub (channel_value_satoshis * 1000)%u64 value_to_holder_msat) tt;
  let outbound_htlcs_value_msat := htlcs_value_msat true next_commitment_htlcs in
  let inbound_htlcs_value_msat := htlcs_value_msat false next_commitment_htlcs in
  value_to_holder_after_htlcs_msat ← ok_or (checked_sub value_to_holder_msat outbound_htlcs_value_msat) tt;
  value_to_counterparty_after_htlcs_msat ←
    ok_or (checked_sub value_to_counterparty_msat inbound_htlcs_value_msat) tt;
  '(holder_balance_before_fee_msat, counterparty_balance_before_fee_msat) ←
    checked_sub_from_funder is_outbound_from_holder value_to_holder_after_htlcs_msat
      value_to_counterparty_after_htlcs_msat (saturating_mul 64 (total_anchors_sat ct) 1000);
  let '(dust_exposure_msat, _) :=
    get_dust_exposure_stats local next_commitment_htlcs feerate_per_kw dust_exposure_limiting_feerate
      broadcaster_dust_limit_satoshis ct in
  let spiked_feerate :=
    if assume_fee_spike && negb (supports_anchors_zero_fee_htlc_tx ct)
    then saturating_mul 32 feerate_per_kw FEE_SPIKE_BUFFER_FEE_INCREASE_MULTIPLE else feerate_per_kw in
  let spiked_nondust_htlc_count :=
    nondust_count local spiked_feerate broadcaster_dust_limit_satoshis ct next_commitment_htlcs in
  if negb (has_output is_outbound_from_holder holder_balance_before_fee_msat
             counterparty_balance_before_fee_msat spiked_feerate spiked_nondust_htlc_count
             broadcaster_dust_limit_satoshis ct)
  then Err tt
  else
    let nondust_htlc_count :=
      nondust_count local feerate_per_kw broadcaster_dust_limit_satoshis ct next_commitment_htlcs in
    let commit_tx_fee :=
      commit_tx_fee_sat spiked_feerate (nondust_htlc_count + addl_nondust_htlc_count)%u64 ct in
    '(holder_balance_msat, counterparty_balance_msat) ←
      checked_sub_from_funder is_outbound_from_holder holder_balance_before_fee_msat
        counterparty_balance_before_fee_msat (saturating_mul 64 commit_tx_fee 1000);
    Ok (mkNextStats holder_balance_msat counterparty_balance_msat dust_exposure_msat
          (nondust_htlc_count + addl_nondust_htlc_count)%u64 commit_tx_fee).

(** ** Splicing out *)

Definition get_next_splice_out_maximum_sat (is_outbound_from_holder : bool)
    (channel_value_satoshis local_balance_before_fee_msat remote_balance_before_fee_msat
     local_nondust_htlc_count remote_nondust_htlc_count feerate_per_kw spiked_feerate : Z)
    (channel_constraints : ChannelConstraints) (ct : ChannelTypeFeatures) : Z :=
  let post_splice_delta_above_reserve_sat :=
    if is_outbound_from_holder then
      let nondust_htlc_count := Z.max local_nondust_htlc_count remote_nondust_htlc_count in
      commit_tx_fee_sat spiked_feerate (nondust_htlc_count + 1)%u64 ct
    else 0 in
  let local_balance_before_fee_sat := local_balance_before_fee_msat / 1000 in
  let next_splice_out_maximum_sat :=
    if negb (counterparty_selected_channel_reserve_satoshis channel_constraints =? 0) then
      let dividend_sat :=
        saturating_sub (saturating_sub
          (saturating_add 64 (saturating_mul 64 local_balance_before_fee_sat 100) 100)
          (saturating_mul 64 post_splice_delta_above_reserve_sat 100)) channel_value_satoshis in
      let max_splice_percentage_constraint_sat := saturating_sub dividend_sat 1 / 99 in
      let max_splice_dust_limit_constraint_sat :=
        saturating_sub (saturating_sub local_balance_before_fee_sat
          (holder_dust_limit_satoshis channel_constraints)) post_splice_delta_above_reserve_sat in
      Z.min max_splice_percentage_constraint_sat max_splice_dust_limit_constraint_sat
    else saturating_sub local_balance_before_fee_sat post_splice_delta_above_reserve_sat in
  let current_tx_fee_sat := commit_tx_fee_sat feerate_per_kw 0 ct in
  let trim_splice_out_max_if_no_outputs next_splice_out_maximum_sat nondust_htlc_count dust_limit_satoshis :=
    if negb (has_output is_outbound_from_holder
               (saturating_sub local_balance_before_fee_msat (next_splice_out_maximum_sat * 1000)%u64)
               remote_balance_before_fee_msat feerate_per_kw nondust_htlc_count dust_limit_satoshis ct)
    then
      let min_balance_sat := if is_outbound_from_holder
        then saturating_add 64 dust_limit_satoshis current_tx_fee_sat else dust_limit_satoshis in
      saturating_sub (local_balance_before_fee_msat / 1000) min_balance_sat
    else next_splice_out_maximum_sat in
  let next_splice_out_maximum_sat := trim_splice_out_max_if_no_outputs next_splice_out_maximum_sat
    local_nondust_htlc_count (holder_dust_limit_satoshis channel_constraints) in
  let next_splice_out_maximum_sat := trim_splice_out_max_if_no_outputs next_splice_out_maximum_sat
    remote_nondust_htlc_count (counterparty_dust_limit_satoshis channel_constraints) in
  if (channel_value_satoshis <? next_splice_out_maximum_sat + MIN_CHANNEL_VALUE_SATOSHIS)%u64
  then saturating_sub channel_value_satoshis MIN_CHANNEL_VALUE_SATOSHIS
  else next_splice_out_maximum_sat.

(** ** The next outbound HTLC *)

Definition adjust_capacity_for_holder_reserved_fee
    (outbound_capacity_msat local_nondust_htlc_count remote_nondust_htlc_count feerate_per_kw
     spiked_feerate : Z) (channel_constraints : ChannelConstraints) (ct : ChannelTypeFeatures) : Z :=
  let read_available_capacity nondust_htlc_count htlc_dust_limit_sat :=
    let max_commit_tx_fee_sat := commit_tx_fee_sat spiked_feerate (nondust_htlc_count + 2)%u64 ct in
    let min_commit_tx_fee_sat := commit_tx_fee_sat spiked_feerate (nondust_htlc_count + 1)%u64 ct in
    let capacity_minus_max_commitment_fee_msat :=
      saturating_sub outbound_capacity_msat (max_commit_tx_fee_sat * 1000)%u64 in
    if (capacity_minus_max_commitment_fee_msat <? htlc_dust_limit_sat * 1000)%u64 then
      let capacity_minus_min_commitment_fee_msat :=
        saturating_sub outbound_capacity_msat (min_commit_tx_fee_sat * 1000)%u64 in
      Z.min (htlc_dust_limit_sat * 1000 - 1)%u64 capacity_minus_min_commitment_fee_msat
    else capacity_minus_max_commitment_fee_msat in
  let '(real_htlc_success_tx_fee_sat, real_htlc_timeout_tx_fee_sat) :=
    second_stage_tx_fees_sat ct feerate_per_kw in
  let available_capacity_on_local_commitment := read_available_capacity local_nondust_htlc_count
    (holder_dust_limit_satoshis channel_constraints + real_htlc_timeout_tx_fee_sat)%u64 in
  let available_capacity_on_remote_commitment := read_available_capacity remote_nondust_htlc_count
    (counterparty_dust_limit_satoshis channel_constraints + real_htlc_success_tx_fee_sat)%u64 in
  Z.min available_capacity_on_local_commitment available_capacity_on_remote_commitment.

Definition adjust_capacity_for_counterparty_reserved_fee
    (outbound_capacity_msat remote_balance_before_fee_msat local_nondust_htlc_count
     remote_nondust_htlc_count feerate_per_kw : Z) (channel_constraints : ChannelConstraints)
    (ct : ChannelTypeFeatures) : Z :=
  let read_available_capacity nondust_htlc_count htlc_dust_limit_sat :=
    let commit_tx_fee := commit_tx_fee_sat feerate_per_kw (nondust_htlc_count + 1)%u64 ct in
    if (remote_balance_before_fee_msat <?
        commit_tx_fee * 1000 + holder_selected_channel_reserve_satoshis channel_constraints * 1000)%u64
    then Z.min outbound_capacity_msat (htlc_dust_limit_sat * 1000 - 1)%u64
    else outbound_capacity_msat in
  let '(real_htlc_success_tx_fee_sat, real_htlc_timeout_tx_fee_sat) :=
    second_stage_tx_fees_sat ct feerate_per_kw in
  let available_capacity_on_local_commitment := read_available_capacity local_nondust_htlc_count
    (holder_dust_limit_satoshis channel_constraints + real_htlc_timeout_tx_fee_sat)%u64 in
  let available_capacity_on_remote_commitment := read_available_capacity remote_nondust_htlc_count
    (counterparty_dust_limit_satoshis channel_constraints + real_htlc_success_tx_fee_sat)%u64 in
  Z.min available_capacity_on_local_commitment available_capacity_on_remote_commitment.

(** Returns the minimum, the capacity and the dust exposure. *)
Definition adjust_min_max_htlc_for_dust_exposure (pending_htlcs : list HTLCAmountDirection)
    (feerate_per_kw : Z) (dust_exposure_limiting_feerate : option Z) (max_dust_htlc_exposure_msat : Z)
    (channel_constraints : ChannelConstraints) (ct : ChannelTypeFeatures) (available_capacity_msat : Z)
    : Z * Z * Z :=
  let next_outbound_htlc_minimum_msat := counterparty_htlc_minimum_msat channel_constraints in
  let '(local_dust_exposure_msat, _) :=
    get_dust_exposure_stats true pending_htlcs feerate_per_kw dust_exposure_limiting_feerate
      (holder_dust_limit_satoshis channel_constraints) ct in
  let '(remote_dust_exposure_msat, extra_htlc_remote_dust_exposure_msat) :=
    get_dust_exposure_stats false pending_htlcs feerate_per_kw dust_exposure_limiting_feerate
      (counterparty_dust_limit_satoshis channel_constraints) ct in
  let dust_buffer_feerate := get_dust_buffer_feerate feerate_per_kw in
  let '(buffer_htlc_success_tx_fee_sat, buffer_htlc_timeout_tx_fee_sat) :=
    second_stage_tx_fees_sat ct dust_buffer_feerate in
  let buffer_dust_limit_success_sat :=
    (buffer_htlc_success_tx_fee_sat + counterparty_dust_limit_satoshis channel_constraints)%u64 in
  let buffer_dust_limit_timeout_sat :=
    (buffer_htlc_timeout_tx_fee_sat + holder_dust_limit_satoshis channel_constraints)%u64 in
  let available_capacity_msat :=
    match extra_htlc_remote_dust_exposure_msat with
    | Some extra_htlc_remote_dust_exposure =>
        if max_dust_htlc_exposure_msat <? extra_htlc_remote_dust_exposure
        then Z.min available_capacity_msat (buffer_dust_limit_success_sat * 1000)%u64
        else available_capacity_msat
    | None => available_capacity_msat
    end in
  let '(remaining_msat_below_dust_exposure_limit, dust_exposure_dust_limit_msat) :=
    if saturating_add 64 max_dust_htlc_exposure_msat 1 <?
       saturating_add 64 remote_dust_exposure_msat (buffer_dust_limit_success_sat * 1000)%u64
    then (Some (saturating_sub max_dust_htlc_exposure_msat remote_dust_exposure_msat),
          Z.max 0 (buffer_dust_limit_success_sat * 1000)%u64)
    else (None, 0) in
  let '(remaining_msat_below_dust_exposure_limit, dust_exposure_dust_limit_msat) :=
    if (if max_dust_htlc_exposure_msat <? 2 ^ 63 then max_dust_htlc_exposure_msat else 2 ^ 63 - 1) <?
       as_i64 (as_i64 (as_i64 local_dust_exposure_msat
                       + as_i64 (as_i64 buffer_dust_limit_timeout_sat * 1000)) - 1)
    then (Some (Z.min (default (umax 64) remaining_msat_below_dust_exposure_limit)
                      (saturating_sub max_dust_htlc_exposure_msat local_dust_exposure_msat)),
          Z.max dust_exposure_dust_limit_msat (buffer_dust_limit_timeout_sat * 1000)%u64)
    else (remaining_msat_below_dust_exposure_limit, dust_exposure_dust_limit_msat) in
  let '(next_outbound_htlc_minimum_msat, available_capacity_msat) :=
    match remaining_msat_below_dust_exposure_limit with
    | Some remaining_limit_msat =>
        if available_capacity_msat <? dust_exposure_dust_limit_msat
        then (next_outbound_htlc_minimum_msat, Z.min available_capacity_msat remaining_limit_msat)
        else (Z.max next_outbound_htlc_minimum_msat dust_exposure_dust_limit_msat, available_capacity_msat)
    | None => (next_outbound_htlc_minimum_msat, available_capacity_msat)
    end in
  let dust_exposure_msat := Z.max local_dust_exposure_msat remote_dust_exposure_msat in
  (next_outbound_htlc_minimum_msat, available_capacity_msat, dust_exposure_msat).

Definition adjust_boundaries_if_max_dust_htlc_produces_no_output (local is_outbound_from_holder : bool)
    (holder_balance_before_fee_msat counterparty_balance_before_fee_msat feerate_per_kw
     nondust_htlc_count dust_limit_satoshis : Z) (ct : ChannelTypeFeatures)
    (next_outbound_htlc_minimum_msat available_capacity_msat : Z) : Z * Z :=
  let '(htlc_success_tx_fee_sat, htlc_timeout_tx_fee_sat) := second_stage_tx_fees_sat ct feerate_per_kw in
  let min_nondust_htlc_sat :=
    (dust_limit_satoshis + (if local then htlc_timeout_tx_fee_sat else htlc_success_tx_fee_sat))%u64 in
  let max_dust_htlc_msat := saturating_sub (saturating_mul 64 min_nondust_htlc_sat 1000) 1 in
  if negb (has_output is_outbound_from_holder
             (saturating_sub holder_balance_before_fee_msat max_dust_htlc_msat)
             counterparty_balance_before_fee_msat feerate_per_kw nondust_htlc_count dust_limit_satoshis ct)
  then
    if saturating_mul 64 min_nondust_htlc_sat 1000 <=? available_capacity_msat then
      (Z.max (saturating_mul 64 min_nondust_htlc_sat 1000) next_outbound_htlc_minimum_msat,
       available_capacity_msat)
    else
      let current_tx_fee_sat := commit_tx_fee_sat feerate_per_kw 0 ct in
      let spike_buffer_tx_fee_sat := commit_tx_fee_sat feerate_per_kw 1 ct in
      let min_balance_msat :=
        if is_outbound_from_holder
        then (Z.max (dust_limit_satoshis + current_tx_fee_sat)%u64 spike_buffer_tx_fee_sat * 1000)%u64
        else (dust_limit_satoshis * 1000)%u64 in
      (next_outbound_htlc_minimum_msat,
       Z.min (saturating_sub holder_balance_before_fee_msat min_balance_msat) available_capacity_msat)
  else (next_outbound_htlc_minimum_msat, available_capacity_msat).

Definition adjust_min_max_htlc_if_max_dust_htlc_produces_no_output (is_outbound_from_holder : bool)
    (local_balance_before_fee_msat remote_balance_before_fee_msat local_nondust_htlc_count
     remote_nondust_htlc_count feerate_per_kw : Z) (channel_constraints : ChannelConstraints)
    (ct : ChannelTypeFeatures) (next_outbound_htlc_minimum_msat available_capacity_msat : Z) : Z * Z :=
  let '(next_outbound_htlc_minimum_msat, available_capacity_msat) :=
    adjust_boundaries_if_max_dust_htlc_produces_no_output true is_outbound_from_holder
      local_balance_before_fee_msat remote_balance_before_fee_msat feerate_per_kw local_nondust_htlc_count
      (holder_dust_limit_satoshis channel_constraints) ct next_outbound_htlc_minimum_msat
      available_capacity_msat in
  adjust_boundaries_if_max_dust_htlc_produces_no_output false is_outbound_from_holder
    local_balance_before_fee_msat remote_balance_before_fee_msat feerate_per_kw remote_nondust_htlc_count
    (counterparty_dust_limit_satoshis channel_constraints) ct next_outbound_htlc_minimum_msat
    available_capacity_msat.

Definition get_available_balances (is_outbound_from_holder : bool) (channel_value_satoshis
    value_to_holder_msat : Z) (pending_htlcs : list HTLCAmountDirection) (feerate_per_kw : Z)
    (dust_exposure_limiting_feerate : option Z) (max_dust_htlc_exposure_msat : Z)
    (channel_constraints : ChannelConstraints) (ct : ChannelTypeFeatures) : run AvailableBalances :=
  let spiked_feerate := saturating_mul 32 feerate_per_kw
    (if negb (supports_anchors_zero_fee_htlc_tx ct) then FEE_SPIKE_BUFFER_FEE_INCREASE_MULTIPLE else 1) in
  let local_nondust_htlc_count :=
    nondust_count true feerate_per_kw (holder_dust_limit_satoshis channel_constraints) ct pending_htlcs in
  let remote_nondust_htlc_count :=
    nondust_count false feerate_per_kw (counterparty_dust_limit_satoshis channel_constraints) ct pending_htlcs in
  let outbound_htlcs_value_msat := htlcs_value_msat true pending_htlcs in
  let inbound_htlcs_value_msat := htlcs_value_msat false pending_htlcs in
  value_to_counterparty ← unwrap (checked_sub (channel_value_satoshis * 1000)%u64 value_to_holder_msat);
  let '(local_balance_before_fee_msat, remote_balance_before_fee_msat) :=
    saturating_sub_from_funder is_outbound_from_holder
      (saturating_sub value_to_holder_msat outbound_htlcs_value_msat)
      (saturating_sub value_to_counterparty inbound_htlcs_value_msat)
      (saturating_mul 64 (total_anchors_sat ct) 1000) in
  let next_splice_out_maximum_sat :=
    get_next_splice_out_maximum_sat is_outbound_from_holder channel_value_satoshis
      local_balance_before_fee_msat remote_balance_before_fee_msat local_nondust_htlc_count
      remote_nondust_htlc_count feerate_per_kw spiked_feerate channel_constraints ct in
  let outbound_capacity_msat := saturating_sub local_balance_before_fee_msat
    (counterparty_selected_channel_reserve_satoshis channel_constraints * 1000)%u64 in
  let available_capacity_msat :=
    if is_outbound_from_holder then
      adjust_capacity_for_holder_reserved_fee outbound_capacity_msat local_nondust_htlc_count
        remote_nondust_htlc_count feerate_per_kw spiked_feerate channel_constraints ct
    else
      adjust_capacity_for_counterparty_reserved_fee outbound_capacity_msat remote_balance_before_fee_msat
        local_nondust_htlc_count remote_nondust_htlc_count feerate_per_kw channel_constraints ct in
  let '(next_outbound_htlc_minimum_msat, available_capacity_msat, dust_exposure_msat) :=
    adjust_min_max_htlc_for_dust_exposure pending_htlcs feerate_per_kw dust_exposure_limiting_feerate
      max_dust_htlc_exposure_msat channel_constraints ct available_capacity_msat in
  let available_capacity_msat := Z.min available_capacity_msat
    (saturating_sub (counterparty_max_htlc_value_in_flight_msat channel_constraints)
       outbound_htlcs_value_msat) in
  let available_capacity_msat :=
    if (count_if outbound pending_htlcs + 1 >? counterparty_max_accepted_htlcs channel_constraints)%u64
    then 0 else available_capacity_msat in
  let '(next_outbound_htlc_minimum_msat, available_capacity_msat) :=
    adjust_min_max_htlc_if_max_dust_htlc_produces_no_output is_outbound_from_holder
      local_balance_before_fee_msat remote_balance_before_fee_msat local_nondust_htlc_count
      remote_nondust_htlc_count feerate_per_kw channel_constraints ct next_outbound_htlc_minimum_msat
      available_capacity_msat in
  mret (mkAvailable
    (saturating_sub remote_balance_before_fee_msat
       (holder_selected_channel_reserve_satoshis channel_constraints * 1000)%u64)
    outbound_capacity_msat available_capacity_msat next_outbound_htlc_minimum_msat dust_exposure_msat
    next_splice_out_maximum_sat).

Definition get_channel_stats (local is_outbound_from_holder : bool) (channel_value_satoshis
    value_to_holder_msat : Z) (pending_htlcs : list HTLCAmountDirection)
    (addl_nondust_htlc_count feerate_per_kw : Z) (assume_fee_spike : bool)
    (dust_exposure_limiting_feerate : option Z) (max_dust_htlc_exposure_msat : Z)
    (channel_constraints : ChannelConstraints) (ct : ChannelTypeFeatures) : run (result unit ChannelStats) :=
  match
    (if local then
       get_next_commitment_stats true is_outbound_from_holder channel_value_satoshis value_to_holder_msat
         pending_htlcs addl_nondust_htlc_count feerate_per_kw assume_fee_spike
         dust_exposure_limiting_feerate (holder_dust_limit_satoshis channel_constraints) ct
     else
       get_next_commitment_stats false is_outbound_from_holder channel_value_satoshis value_to_holder_msat
         pending_htlcs addl_nondust_htlc_count feerate_per_kw assume_fee_spike
         dust_exposure_limiting_feerate (counterparty_dust_limit_satoshis channel_constraints) ct)
  with
  | Err e => mret (Err e)
  | Ok commitment_stats =>
      available_balances ← get_available_balances is_outbound_from_holder channel_value_satoshis
        value_to_holder_msat pending_htlcs feerate_per_kw dust_exposure_limiting_feerate
        max_dust_htlc_exposure_msat channel_constraints ct;
      mret (Ok (mkChannelStats commitment_stats available_balances))
  end.

(** ** Building the commitment transaction *)

Section build.
Context {bitcoin : Bitcoin} {scriptlib : ScriptLib} {bsearch : BinarySearch} {txhash : TxHash}.

(** The [is_dust] closure. *)
Definition build_is_dust (ct : ChannelTypeFeatures) (feerate_per_kw broadcaster_dust_limit_satoshis : Z)
    (off : bool) (amount : Z) : bool :=
  let htlc_tx_fee_sat :=
    if supports_anchors_zero_fee_htlc_tx ct then 0
    else
      let htlc_tx_weight := if off then htlc_timeout_tx_weight ct else htlc_success_tx_weight ct in
      (feerate_per_kw * htlc_tx_weight / 1000)%u64 in
  (amount / 1000 <? broadcaster_dust_limit_satoshis + htlc_tx_fee_sat)%u64.

(** The [retain] pass: both totals and the HTLCs kept. *)
Definition trim_htlcs (local : bool) (ct : ChannelTypeFeatures) (feerate dust_limit : Z)
    (htlcs : list HTLCOutputInCommitment) : Z * Z * list HTLCOutputInCommitment :=
  foldl (fun '(local_total, remote_total, kept) htlc =>
    let '(local_total, remote_total) :=
      if Bool.eqb (offered htlc) local
      then ((local_total + amount_msat htlc)%u64, remote_total)
      else (local_total, (remote_total + amount_msat htlc)%u64) in
    (local_total, remote_total,
     if build_is_dust ct feerate dust_limit (offered htlc) (amount_msat htlc) then kept else kept ++ [htlc]))
    (0, 0, []) htlcs.

(** The values of the two balance outputs and the statistics. *)
Definition commitment_balances (local is_outbound_from_holder : bool) (channel_value value_to_self_msat
    local_htlc_total_msat remote_htlc_total_msat commit_tx_fee broadcaster_dust_limit_satoshis : Z)
    (ct : ChannelTypeFeatures) : run (Z * Z * CommitmentStats) :=
  value_to_self_after_htlcs_msat ← unwrap (checked_sub value_to_self_msat local_htlc_total_msat);
  v ← unwrap (checked_sub (channel_value * 1000)%u64 value_to_self_msat);
  value_to_remote_after_htlcs_msat ← unwrap (checked_sub v remote_htlc_total_msat);
  let '(local_balance_before_fee_msat, remote_balance_before_fee_msat) :=
    saturating_sub_from_funder is_outbound_from_holder value_to_self_after_htlcs_msat
      value_to_remote_after_htlcs_msat (saturating_mul 64 (total_anchors_sat ct) 1000) in
  let '(value_to_self, value_to_remote) :=
    saturating_sub_from_funder is_outbound_from_holder (local_balance_before_fee_msat / 1000)
      (remote_balance_before_fee_msat / 1000) commit_tx_fee in
  let to_broadcaster_value_sat := if local then value_to_self else value_to_remote in
  let to_countersignatory_value_sat := if local then value_to_remote else value_to_self in
  let to_broadcaster_value_sat :=
    if broadcaster_dust_limit_satoshis <=? to_broadcaster_value_sat then to_broadcaster_value_sat else 0 in
  let to_countersignatory_value_sat :=
    if broadcaster_dust_limit_satoshis <=? to_countersignatory_value_sat
    then to_countersignatory_value_sat else 0 in
  mret (to_broadcaster_value_sat, to_countersignatory_value_sat,
        mkCommitmentStats commit_tx_fee local_balance_before_fee_msat remote_balance_before_fee_msat).

Definition build_commitment_transaction (local : bool) (number : Z) (pcp : PublicKey)
    (channel_parameters : ChannelTransactionParameters) (value_to_self_msat : Z)
    (htlcs_in_tx : list HTLCOutputInCommitment) (feerate_per_kw broadcaster_dust_limit_satoshis : Z)
    : run (CommitmentTransaction * CommitmentStats) :=
  let ct := params_channel_type_features channel_parameters in
  let '(local_htlc_total_msat, remote_htlc_total_msat, htlcs_in_tx) :=
    trim_htlcs local ct feerate_per_kw broadcaster_dust_limit_satoshis htlcs_in_tx in
  let commit_tx_fee := commit_tx_fee_sat feerate_per_kw (Z.of_nat (length htlcs_in_tx)) ct in
  '(to_broadcaster_value_sat, to_countersignatory_value_sat, stats) ←
    commitment_balances local (is_outbound_from_holder channel_parameters)
      (params_channel_value_satoshis channel_parameters) value_to_self_msat local_htlc_total_msat
      remote_htlc_total_msat commit_tx_fee broadcaster_dust_limit_satoshis ct;
  directed_parameters ← (if local then as_holder_broadcastable channel_parameters
                         else as_counterparty_broadcastable channel_parameters);
  tx ← commitment_new number pcp to_broadcaster_value_sat to_countersignatory_value_sat feerate_per_kw
         htlcs_in_tx directed_parameters;
  mret (tx, stats).

End build.

(** ** Exact arithmetic

    Amounts below the money supply, a 32-bit feerate and a bounded number of
    HTLCs keep every sum and product of the builder within 64 bits. *)

Definition TOTAL_BITCOIN_SUPPLY_SATOSHIS : Z := 21000000 * 100000000.

Record amounts_bounded (channel_value value_to_holder feerate dust_limit : Z)
    (htlcs : list HTLCAmountDirection) : Prop := {
  bound_channel : 0 <= channel_value <= TOTAL_BITCOIN_SUPPLY_SATOSHIS;
  bound_holder : 0 <= value_to_holder < 2 ^ 64;
  bound_feerate : fits 32 feerate;
  bound_dust : 0 <= dust_limit <= TOTAL_BITCOIN_SUPPLY_SATOSHIS;
  bound_amounts : Forall (fun h => 0 <= htlc_amount_msat h) htlcs;
  bound_total : zsum (map htlc_amount_msat htlcs) < 2 ^ 62;
  bound_count : Z.of_nat (length htlcs) + 4 <= count_bound;
}.

(** The exact value of the HTLCs in one direction. *)
Definition htlcs_sum (out : bool) (htlcs : list HTLCAmountDirection) : Z :=
  zsum (map htlc_amount_msat (List.filter (fun htlc => Bool.eqb (outbound htlc) out) htlcs)).

Lemma filter_nonneg (f : HTLCAmountDirection -> bool) l :
  Forall (fun h => 0 <= htlc_amount_msat h) l ->
  0 <= zsum (map htlc_amount_msat (List.filter f l)) <= zsum (map htlc_amount_msat l) /\
  Forall (fun x => 0 <= x) (map htlc_amount_msat (List.filter f l)).
Proof.
  induction 1 as [|h l Hh Hl [IH1 IH2]]; simpl; [split; [lia|constructor]|].
  destruct (f h); simpl; split; try lia; auto.
Qed.

Lemma filter_sum_exact (f : HTLCAmountDirection -> bool) l :
  Forall (fun h => 0 <= htlc_amount_msat h) l -> zsum (map htlc_amount_msat l) < 2 ^ 62 ->
  u64_sum (map htlc_amount_msat (List.filter f l)) = zsum (map htlc_amount_msat (List.filter f l)).
Proof. intros Hl Hs. destruct (filter_nonneg f l Hl). apply u64_sum_exact; [done|lia]. Qed.

Lemma htlcs_sum_partition l : htlcs_sum true l + htlcs_sum false l = zsum (map htlc_amount_msat l).
Proof.
  unfold htlcs_sum. induction l as [|h l IH]; [done|]. simpl.
  destruct (outbound h); simpl; lia.
Qed.

Lemma htlcs_value_exact out l :
  Forall (fun h => 0 <= htlc_amount_msat h) l -> zsum (map htlc_amount_msat l) < 2 ^ 62 ->
  htlcs_value_msat out l = htlcs_sum out l /\ 0 <= htlcs_sum out l < 2 ^ 62.
Proof.
  intros Hl Hs. split; [by apply filter_sum_exact|]. unfold htlcs_sum.
  destruct (filter_nonneg (fun h => Bool.eqb (outbound h) out) l Hl). lia.
Qed.

Lemma nondust_count_range local f d ct l : 0 <= nondust_count local f d ct l <= Z.of_nat (length l).
Proof. split; [apply count_if_nonneg|apply count_if_le_length]. Qed.

Lemma spiked_fits f k : fits 32 f -> 1 <= k -> fits 32 (saturating_mul 32 f k) /\ f <= saturating_mul 32 f k.
Proof. unfold fits, saturating_mul, umax. intros. split; nia. Qed.

(** [has_output] without the machine arithmetic. *)
Definition output_left (outb : bool) (h c fee n dust : Z) (ct : ChannelTypeFeatures) : Prop :=
  supports_anchor_zero_fee_commitments ct = true \/ n <> 0 \/
  dust * 1000 <= Z.max 0 (h - (if outb then fee * 1000 else 0)) \/
  dust * 1000 <= Z.max 0 (c - (if outb then 0 else fee * 1000)).

Lemma has_output_spec outb h c f n dust ct :
  fits 32 f -> 0 <= n <= count_bound -> 0 <= h -> 0 <= c ->
  0 <= dust <= TOTAL_BITCOIN_SUPPLY_SATOSHIS ->
  has_output outb h c f n dust ct = true <-> output_left outb h c (commit_fee f n ct) n dust ct.
Proof.
  intros Hf Hn Hh Hc Hd. unfold has_output, output_left, TOTAL_BITCOIN_SUPPLY_SATOSHIS in *.
  rewrite commit_tx_fee_sat_exact by done. pose proof (commit_fee_range f n ct Hf Hn) as Hfee.
  rewrite saturating_mul_exact by lia. rewrite (wrapping_small 64 (dust * 1000)) by (unfold fits; lia).
  unfold saturating_sub_from_funder, saturating_sub.
  destruct outb; rewrite negb_true_iff, !andb_false_iff, negb_false_iff, Z.eqb_neq, !Z.ltb_ge, Z.sub_0_r;
    [rewrite (Z.max_r 0 c) by done|rewrite (Z.max_r 0 h) by done]; tauto.
Qed.

(** ** The reference for a commitment's balances *)

(** Balances before the fee: what each side has once the HTLCs and the anchors,
    paid by the funder, are taken out. *)
Definition holder_before_fee (outb : bool) (value_to_holder : Z) (htlcs : list HTLCAmountDirection)
    (ct : ChannelTypeFeatures) : Z :=
  value_to_holder - htlcs_sum true htlcs - (if outb then total_anchors_sat ct * 1000 else 0).
Definition counterparty_before_fee (outb : bool) (channel_value value_to_holder : Z)
    (htlcs : list HTLCAmountDirection) (ct : ChannelTypeFeatures) : Z :=
  channel_value * 1000 - value_to_holder - htlcs_sum false htlcs
    - (if outb then 0 else total_anchors_sat ct * 1000).

Definition spike (assume : bool) (feerate : Z) (ct : ChannelTypeFeatures) : Z :=
  if assume && negb (supports_anchors_zero_fee_htlc_tx ct) then saturating_mul 32 feerate 2 else feerate.

(** When a commitment is possible. *)
Record commitment_possible (local outb : bool) (channel_value value_to_holder : Z)
    (htlcs : list HTLCAmountDirection) (addl feerate : Z) (assume : bool) (dust : Z)
    (ct : ChannelTypeFeatures) : Prop := {
  possible_split : value_to_holder <= channel_value * 1000;
  possible_out : htlcs_sum true htlcs <= value_to_holder;
  possible_in : htlcs_sum false htlcs <= channel_value * 1000 - value_to_holder;
  possible_anchors : if outb then 0 <= holder_before_fee outb value_to_holder htlcs ct
                     else 0 <= counterparty_before_fee outb channel_value value_to_holder htlcs ct;
  possible_output : output_left outb (holder_before_fee outb value_to_holder htlcs ct)
    (counterparty_before_fee outb channel_value value_to_holder htlcs ct)
    (commit_fee (spike assume feerate ct) (nondust_count local (spike assume feerate ct) dust ct htlcs) ct)
    (nondust_count local (spike assume feerate ct) dust ct htlcs) dust ct;
  possible_fee : commit_fee (spike assume feerate ct) (nondust_count local feerate dust ct htlcs + addl) ct * 1000
    <= if outb then holder_before_fee outb value_to_holder htlcs ct
       else counterparty_before_fee outb channel_value value_to_holder htlcs ct;
}.

Lemma total_anchors_range ct : 0 <= total_anchors_sat ct <= 660.
Proof.
  unfold total_anchors_sat, ANCHOR_OUTPUT_VALUE_SATOSHI.
  destruct (supports_anchors_zero_fee_htlc_tx ct); lia.
Qed.

Lemma spike_fits assume f ct : fits 32 f -> fits 32 (spike assume f ct).
Proof. intros Hf. unfold spike. case_match; [apply spiked_fits; [done|lia]|done]. Qed.

Lemma checked_sub_ok a b : b <= a -> checked_sub a b = Some (a - b).
Proof. intros. by apply checked_sub_Some. Qed.

Lemma stats_spec local outb channel_value vth htlcs addl feerate assume lim dust ct :
  amounts_bounded channel_value vth feerate dust htlcs -> 0 <= addl <= 2 ->
  let fee := commit_fee (spike assume feerate ct) (nondust_count local feerate dust ct htlcs + addl) ct in
  let possible := commitment_possible local outb channel_value vth htlcs addl feerate assume dust ct in
  match get_next_commitment_stats local outb channel_value vth htlcs addl feerate assume lim dust ct with
  | Ok st => possible /\
      st = mkNextStats (holder_before_fee outb vth htlcs ct - if outb then fee * 1000 else 0)
             (counterparty_before_fee outb channel_value vth htlcs ct - if outb then 0 else fee * 1000)
             (get_dust_exposure_stats local htlcs feerate lim dust ct).1
             (nondust_count local feerate dust ct htlcs + addl) fee
  | Err _ => ~ possible
  end.
Proof.
  intros [Hcv Hvth Hf Hd Ha Ht Hc] Haddl fee possible.
  unfold get_next_commitment_stats, TOTAL_BITCOIN_SUPPLY_SATOSHIS, count_bound in *.
  destruct (htlcs_value_exact true htlcs Ha Ht) as [-> Hout]. destruct (htlcs_value_exact false htlcs Ha Ht) as [-> Hin].
  pose proof (total_anchors_range ct) as Hanc. pose proof (nondust_count_range local feerate dust ct htlcs) as Hn.
  pose proof (nondust_count_range local (spike assume feerate ct) dust ct htlcs) as Hns.
  pose proof (spike_fits assume feerate ct Hf) as Hsf.
  rewrite (wrapping_small 64 (channel_value * 1000)) by (unfold fits; lia).
  rewrite (saturating_mul_exact 64 (total_anchors_sat ct)) by lia.
  rewrite (wrapping_small 64 (_ + addl)) by (unfold fits; lia).
  fold (spike assume feerate ct). change FEE_SPIKE_BUFFER_FEE_INCREASE_MULTIPLE with 2.
  fold (spike assume feerate ct).
  rewrite (commit_tx_fee_sat_exact (spike assume feerate ct)) by (done || unfold count_bound; lia). fold fee.
  pose proof (commit_fee_range (spike assume feerate ct) (nondust_count local feerate dust ct htlcs + addl) ct Hsf
    ltac:(unfold count_bound; lia)) as Hfee. fold fee in Hfee.
  rewrite (saturating_mul_exact 64 fee) by lia.
  destruct (Z.le_gt_cases vth (channel_value * 1000)) as [H1|H1];
    [rewrite (checked_sub_ok _ _ H1)|rewrite (proj2 (checked_sub_None _ _) H1); cbn; intros []; lia].
  cbn [ok_or mbind result_bind].
  destruct (Z.le_gt_cases (htlcs_sum true htlcs) vth) as [H2|H2];
    [rewrite (checked_sub_ok _ _ H2)|rewrite (proj2 (checked_sub_None _ _) H2); cbn; intros []; lia].
  cbn [ok_or mbind result_bind].
  destruct (Z.le_gt_cases (htlcs_sum false htlcs) (channel_value * 1000 - vth)) as [H3|H3];
    [rewrite (checked_sub_ok _ _ H3)|rewrite (proj2 (checked_sub_None _ _) H3); cbn; intros []; lia].
  cbn [ok_or mbind result_bind].
  set (h := holder_before_fee outb vth htlcs ct) in *.
  set (c := counterparty_before_fee outb channel_value vth htlcs ct) in *.
  assert (checked_sub_from_funder outb (vth - htlcs_sum true htlcs) (channel_value * 1000 - vth - htlcs_sum false htlcs)
            (total_anchors_sat ct * 1000) =
          if (if outb then 0 <=? h else 0 <=? c) then Ok (h, c) else Err tt) as ->.
  { unfold checked_sub_from_funder, checked_sub, h, c, holder_before_fee, counterparty_before_fee.
    destruct outb; [destruct (Z.leb_spec (total_anchors_sat ct * 1000) (vth - htlcs_sum true htlcs)),
      (Z.leb_spec 0 (vth - htlcs_sum true htlcs - total_anchors_sat ct * 1000))
      |destruct (Z.leb_spec (total_anchors_sat ct * 1000) (channel_value * 1000 - vth - htlcs_sum false htlcs)),
      (Z.leb_spec 0 (channel_value * 1000 - vth - htlcs_sum false htlcs - total_anchors_sat ct * 1000))];
      try lia; cbn; rewrite ?Z.sub_0_r; done. }
  destruct (if outb then 0 <=? h else 0 <=? c) eqn:H4; cbn [mbind result_bind];
    [|intros Hp; pose proof (possible_anchors _ _ _ _ _ _ _ _ _ _ Hp) as Hpa;
     change (if outb then 0 <= h else 0 <= c) in Hpa; destruct outb; lia].
  assert (0 <= h /\ 0 <= c) as [Hh Hcc].
  { unfold h, c, holder_before_fee, counterparty_before_fee in *. destruct outb; bool_to_prop; lia. }
  destruct (get_dust_exposure_stats local htlcs feerate lim dust ct) as [exp ex]. cbn [fst].
  pose proof (has_output_spec outb h c (spike assume feerate ct)
    (nondust_count local (spike assume feerate ct) dust ct htlcs) dust ct Hsf
    ltac:(unfold count_bound; lia) Hh Hcc ltac:(unfold TOTAL_BITCOIN_SUPPLY_SATOSHIS; lia)) as Hho.
  destruct (has_output _ _ _ _ _ _ _); cbn [negb];
    [|intros Hp; pose proof (proj2 Hho (possible_output _ _ _ _ _ _ _ _ _ _ Hp)); done].
  destruct Hho as [Hho _]. specialize (Hho eq_refl).
  unfold checked_sub_from_funder. destruct outb.
  - destruct (Z.le_gt_cases (fee * 1000) h) as [H5|H5];
      [rewrite (checked_sub_ok _ _ H5)|rewrite (proj2 (checked_sub_None _ _) H5); cbn; intros Hp;
       pose proof (possible_fee _ _ _ _ _ _ _ _ _ _ Hp) as Hpf; change (fee * 1000 <= h) in Hpf; lia].
    cbn. rewrite Z.sub_0_r. split; [|done]. split; try done; bool_to_prop; done.
  - destruct (Z.le_gt_cases (fee * 1000) c) as [H5|H5];
      [rewrite (checked_sub_ok _ _ H5)|rewrite (proj2 (checked_sub_None _ _) H5); cbn; intros Hp;
       pose proof (possible_fee _ _ _ _ _ _ _ _ _ _ Hp) as Hpf; change (fee * 1000 <= c) in Hpf; lia].
    cbn. rewrite Z.sub_0_r. split; [|done]. split; try done; bool_to_prop; done.
Qed.



(** ** The built transaction *)

Definition direction (local : bool) (h : HTLCOutputInCommitment) : HTLCAmountDirection :=
  mkDirection (Bool.eqb (offered h) local) (amount_msat h).

Definition feerate_matches (ct : ChannelTypeFeatures) (feerate : Z) : Prop :=
  supports_anchor_zero_fee_commitments ct = true ->
  feerate = 0 /\ supports_anchors_zero_fee_htlc_tx ct = false.

(** The two notions of dust in the code agree. *)
Lemma is_dust_agrees local ct feerate dust h : feerate_matches ct feerate ->
  is_dust (direction local h) local feerate dust ct = build_is_dust ct feerate dust (offered h) (amount_msat h).
Proof.
  intros Hz. unfold is_dust, build_is_dust, second_stage_tx_fees_sat, direction. cbn [outbound htlc_amount_msat].
  assert (Bool.eqb (Bool.eqb (offered h) local) local = offered h) as Ho by (by destruct (offered h), local).
  destruct (supports_anchors_zero_fee_htlc_tx ct) eqn:Ea; cbn [orb]; [by destruct (Bool.eqb _ _)|].
  destruct (supports_anchor_zero_fee_commitments ct) eqn:Ez.
  - destruct (Hz Ez) as [-> _]. rewrite Ho. by destruct (offered h).
  - rewrite Ho. by destruct (offered h).
Qed.

Lemma trim_htlcs_spec local ct feerate dust hs :
  Forall (fun h => 0 <= amount_msat h) hs -> zsum (map amount_msat hs) < 2 ^ 62 ->
  trim_htlcs local ct feerate dust hs =
  (htlcs_sum true (map (direction local) hs), htlcs_sum false (map (direction local) hs),
   List.filter (fun h => negb (build_is_dust ct feerate dust (offered h) (amount_msat h))) hs).
Proof.
  intros Ha Ht. unfold trim_htlcs.
  assert (forall a b kept, 0 <= a -> 0 <= b -> a + b + zsum (map amount_msat hs) < 2 ^ 63 ->
    foldl (fun '(local_total, remote_total, kept) htlc =>
      let '(local_total, remote_total) :=
        if Bool.eqb (offered htlc) local
        then ((local_total + amount_msat htlc)%u64, remote_total)
        else (local_total, (remote_total + amount_msat htlc)%u64) in
      (local_total, remote_total,
       if build_is_dust ct feerate dust (offered htlc) (amount_msat htlc) then kept else kept ++ [htlc]))
      (a, b, kept) hs =
    (a + htlcs_sum true (map (direction local) hs), b + htlcs_sum false (map (direction local) hs),
     kept ++ List.filter (fun h => negb (build_is_dust ct feerate dust (offered h) (amount_msat h))) hs)) as Hgen.
  { clear Ht. induction Ha as [|h hs Hh Hhs IH]; intros a b kept Hpa Hpb Hlt.
    - unfold htlcs_sum. simpl. by rewrite !Z.add_0_r, app_nil_r.
    - cbn [map zsum foldr] in Hlt. fold (zsum (map amount_msat hs)) in Hlt.
      assert (0 <= zsum (map amount_msat hs)) by (apply zsum_nonneg, Forall_fmap; done).
      cbn [foldl]. destruct (Bool.eqb (offered h) local) eqn:E.
      + rewrite (wrapping_small 64 (a + _)) by (unfold fits; lia). rewrite IH by lia.
        unfold htlcs_sum. cbn [map List.filter direction outbound]. rewrite E. cbn.
        destruct (build_is_dust _ _ _ _ _); cbn; rewrite <- ?app_assoc; unfold zsum;
          (apply f_equal2; [apply f_equal2|]); try done; lia.
      + rewrite (wrapping_small 64 (b + _)) by (unfold fits; lia). rewrite IH by lia.
        unfold htlcs_sum. cbn [map List.filter direction outbound]. rewrite E. cbn.
        destruct (build_is_dust _ _ _ _ _); cbn; rewrite <- ?app_assoc; unfold zsum;
          (apply f_equal2; [apply f_equal2|]); try done; lia. }
  rewrite Hgen by lia. done.
Qed.

Lemma trimmed_count local ct feerate dust hs : feerate_matches ct feerate ->
  Z.of_nat (length (List.filter (fun h => negb (build_is_dust ct feerate dust (offered h) (amount_msat h))) hs)) =
  nondust_count local feerate dust ct (map (direction local) hs).
Proof.
  intros Hz. unfold nondust_count, count_if. f_equal.
  induction hs as [|h hs IH]; [done|]. cbn [map List.filter]. rewrite (is_dust_agrees local) by done.
  destruct (build_is_dust _ _ _ _ _); cbn; [done|by f_equal].
Qed.

(** ** Second-stage transactions of the HTLCs kept *)

(** The second-stage transaction of an HTLC that is not trimmed can always
    be built: once the HTLC has its output index, [build_htlc_transaction] at the
    commitment's feerate does not panic, spends that output of the commitment
    transaction, and pays at least the dust limit, never more than the HTLC, to
    the revokeable script. *)
Theorem nondust_htlc_transaction `{ScriptLib} ct feerate dust txid delay htlc index k1 k2 :
  fits 32 feerate -> 0 <= dust <= TOTAL_BITCOIN_SUPPLY_SATOSHIS -> feerate_matches ct feerate ->
  build_is_dust ct feerate dust (offered htlc) (amount_msat htlc) = false ->
  transaction_output_index htlc = Some index ->
  exists tx txin txout, build_htlc_transaction txid feerate delay htlc ct k1 k2 = Return tx /\
    tx_input tx = [txin] /\ tx_output tx = [txout] /\
    previous_output txin = mkOutPoint txid index /\
    dust <= value txout <= to_bitcoin_amount htlc /\
    script_pubkey txout = to_p2wsh (get_revokeable_redeemscript k2 delay k1).
Proof.
  intros Hf Hd Hz Hdust Hidx. unfold build_htlc_transaction, build_htlc_input, build_htlc_output.
  rewrite Hidx. cbn [unwrap mbind run_bind mret run_ret].
  pose proof (second_stage_range ct feerate Hf) as [Hs Ht].
  assert (dust + (if offered htlc then (second_stage_tx_fees_sat ct feerate).2
                  else (second_stage_tx_fees_sat ct feerate).1) <= to_bitcoin_amount htlc) as Hge.
  { pose proof (is_dust_agrees true ct feerate dust htlc Hz) as He. rewrite Hdust in He.
    unfold is_dust, direction, to_bitcoin_amount, TOTAL_BITCOIN_SUPPLY_SATOSHIS in *. cbn in He.
    destruct (second_stage_tx_fees_sat ct feerate) as [sf tf]. cbn [fst snd] in *.
    destruct (offered htlc); cbn in He; rewrite wrapping_small in He by (unfold fits; lia); apply Z.ltb_ge in He; lia. }
  destruct (second_stage_tx_fees_sat ct feerate) as [sf tf]. cbn [fst snd] in *.
  rewrite amount_sub_ok by (destruct (offered htlc); lia). cbn [mbind run_bind mret run_ret].
  do 3 eexists. split; [reflexivity|]. split_and!; try reflexivity; cbn; destruct (offered htlc); lia.
Qed.

Lemma nondust_htlc_transaction_witness :
  exists tx txin txout, build_htlc_transaction (H := toy_bitcoin) [1] 253 144
      (mkHTLC true 5000000 500 (replicate 32 2) (Some 1)) only_static_remote_key 3 4 = Return tx /\
    tx_input tx = [txin] /\ tx_output tx = [txout] /\ previous_output txin = mkOutPoint [1] 1 /\
    354 <= value txout <= 5000 /\
    script_pubkey txout = to_p2wsh (get_revokeable_redeemscript (H := toy_bitcoin) 4 144 3).
Proof.
  apply (nondust_htlc_transaction (H := toy_bitcoin) only_static_remote_key 253 354 [1] 144
    (mkHTLC true 5000000 500 (replicate 32 2) (Some 1)) 1 3 4).
  - unfold fits. lia.
  - unfold TOTAL_BITCOIN_SUPPLY_SATOSHIS. lia.
  - intros Hz. vm_compute in Hz. discriminate Hz.
  - vm_compute. reflexivity.
  - reflexivity.
Defined.

(** ** The built transaction matches the statistics *)

Lemma sats_le_msats hs : Forall (fun h => 0 <= amount_msat h) hs ->
  1000 * zsum (map to_bitcoin_amount hs) <= zsum (map amount_msat hs) /\ 0 <= zsum (map to_bitcoin_amount hs).
Proof. induction 1 as [|h hs Hh Hhs IH]; simpl; [lia|]. unfold to_bitcoin_amount in *. dlia. Qed.

Lemma filter_amounts (f : HTLCOutputInCommitment -> bool) hs : Forall (fun h => 0 <= amount_msat h) hs ->
  Forall (fun h => 0 <= amount_msat h) (List.filter f hs) /\
  zsum (map amount_msat (List.filter f hs)) <= zsum (map amount_msat hs).
Proof.
  induction 1 as [|h hs Hh Hhs [IH1 IH2]]; simpl; [split; [constructor|lia]|].
  destruct (f h); simpl; split; auto; lia.
Qed.

Lemma directions_amounts local hs : map htlc_amount_msat (map (direction local) hs) = map amount_msat hs.
Proof. by rewrite map_map. Qed.

Section build_proofs.
Context {bitcoin : Bitcoin} {scriptlib : ScriptLib} {bsearch : BinarySearch} {txhash : TxHash}.
Context {search_laws : BinarySearchLaws}.

(** What the two balance outputs are, given that the statistics succeeded. *)
Lemma commitment_balances_spec local outb cv vts hs feerate dust ct :
  amounts_bounded cv vts feerate dust (map (direction local) hs) -> 0 < dust ->
  let l := map (direction local) hs in
  commitment_possible local outb cv vts l 0 feerate false dust ct ->
  let fee := commit_fee feerate (nondust_count local feerate dust ct l) ct in
  let h := holder_before_fee outb vts l ct in
  let c := counterparty_before_fee outb cv vts l ct in
  let hs_sat := h / 1000 - (if outb then fee else 0) in
  let cs_sat := c / 1000 - (if outb then 0 else fee) in
  let tb := if local then hs_sat else cs_sat in
  let tc := if local then cs_sat else hs_sat in
  0 <= fee /\ 0 <= hs_sat /\ 0 <= cs_sat /\ 1000 * (hs_sat + cs_sat + fee) <= h + c /\
  (nondust_count local feerate dust ct l = 0 -> supports_anchor_zero_fee_commitments ct = false ->
   dust <= hs_sat \/ dust <= cs_sat) /\
  commitment_balances local outb cv vts (htlcs_sum true l) (htlcs_sum false l) fee dust ct =
  Return (if dust <=? tb then tb else 0, if dust <=? tc then tc else 0, mkCommitmentStats fee h c).
Proof.
  intros [Hcv Hvth Hf Hd Ha Ht Hc] Hpos l [H1 H2 H3 H4 H5 H6] fee h c hs_sat cs_sat tb tc.
  pose proof (total_anchors_range ct) as Hanc. unfold TOTAL_BITCOIN_SUPPLY_SATOSHIS in *.
  unfold spike in H5, H6. cbn [andb] in H5, H6. rewrite Z.add_0_r in H6.
  change (if outb then 0 <= h else 0 <= c) in H4. change (fee * 1000 <= if outb then h else c) in H6.
  pose proof (nondust_count_range local feerate dust ct l) as Hn. fold l in Hc.
  assert (0 <= fee) as Hfee0 by (apply (commit_fee_range feerate _ ct Hf); unfold count_bound in *; lia).
  assert (0 <= h /\ 0 <= c) as [Hh Hcc].
  { unfold h, c, holder_before_fee, counterparty_before_fee in *. destruct outb; lia. }
  assert (0 <= hs_sat /\ 0 <= cs_sat /\ 1000 * (hs_sat + cs_sat + fee) <= h + c) as (Hs1 & Hs2 & Hs3).
  { unfold hs_sat, cs_sat. destruct outb; dlia. }
  split_and!; try done.
  - intros Hn0 Hz. change (output_left outb h c fee (nondust_count local feerate dust ct l) dust ct) in H5.
    destruct H5 as [H5|[H5|[H5|H5]]]; [congruence|done|left|right]; unfold hs_sat, cs_sat; destruct outb; dlia.
  - unfold commitment_balances. rewrite (checked_sub_ok _ _ H2). cbn [unwrap mbind run_bind].
    rewrite (wrapping_small 64 (cv * 1000)) by (unfold fits; lia).
    rewrite (checked_sub_ok _ _ H1). cbn [unwrap mbind run_bind].
    rewrite (checked_sub_ok _ _ H3). cbn [unwrap mbind run_bind].
    rewrite saturating_mul_exact by lia.
    assert (saturating_sub_from_funder outb (vts - htlcs_sum true l) (cv * 1000 - vts - htlcs_sum false l)
              (total_anchors_sat ct * 1000) = (h, c)) as ->.
    { unfold saturating_sub_from_funder, saturating_sub, h, c, holder_before_fee, counterparty_before_fee in *.
      destruct outb; apply f_equal2; lia. }
    assert (saturating_sub_from_funder outb (h / 1000) (c / 1000) fee = (hs_sat, cs_sat)) as ->.
    { unfold saturating_sub_from_funder, saturating_sub, hs_sat, cs_sat in *. destruct outb; apply f_equal2; lia. }
    done.
Qed.


End build_proofs.

