(* ===== verification/AvailableBalances.v ===== *)
(** * The limits on the next outbound HTLC (lightning/src/sign/tx_builder.rs)

    [get_available_balances] announces a minimum and a maximum for the next HTLC.
    Any amount between the two keeps both commitments possible, reserves and fees
    covered. *)

From Stdlib Require Import ZArith Lia Bool.
From S2P Require Import Prelude.
From S2P Require Import Features.
From S2P Require Import ChanUtils.
From S2P Require Import TxBuilder.

Local Open Scope Z_scope.

(** ** The list with one more HTLC *)

Definition next_htlc (amt : Z) : HTLCAmountDirection := mkDirection true amt.

Lemma htlcs_sum_next out amt l :
  htlcs_sum out (l ++ [next_htlc amt]) = htlcs_sum out l + (if out then amt else 0).
Proof.
  unfold htlcs_sum. rewrite List.filter_app, map_app, zsum_app. cbn. destruct out; cbn; lia.
Qed.

(** The dust threshold of an outbound HTLC on one side's commitment. *)
Definition dust_threshold (local : bool) (feerate dust : Z) (ct : ChannelTypeFeatures) : Z :=
  dust + (if local then (second_stage_tx_fees_sat ct feerate).2 else (second_stage_tx_fees_sat ct feerate).1).

Lemma threshold_range local feerate dust ct : fits 32 feerate ->
  0 <= dust <= TOTAL_BITCOIN_SUPPLY_SATOSHIS ->
  dust <= dust_threshold local feerate dust ct < 2 ^ 51 + 2 ^ 32.
Proof.
  intros Hf Hd. destruct (second_stage_range ct feerate Hf).
  unfold dust_threshold, TOTAL_BITCOIN_SUPPLY_SATOSHIS in *. destruct local; lia.
Qed.

Lemma is_dust_next local feerate dust ct amt : fits 32 feerate ->
  0 <= dust <= TOTAL_BITCOIN_SUPPLY_SATOSHIS ->
  is_dust (next_htlc amt) local feerate dust ct = (amt / 1000 <? dust_threshold local feerate dust ct).
Proof.
  intros Hf Hd. pose proof (threshold_range local feerate dust ct Hf Hd) as Ht.
  unfold is_dust, dust_threshold, next_htlc in *. destruct (second_stage_tx_fees_sat ct feerate) as [sf tf].
  cbn [outbound htlc_amount_msat fst snd] in *. destruct local; cbn [Bool.eqb] in *;
    rewrite wrapping_small by (unfold fits; lia); done.
Qed.

Lemma nondust_count_next local feerate dust ct amt l : fits 32 feerate ->
  0 <= dust <= TOTAL_BITCOIN_SUPPLY_SATOSHIS ->
  nondust_count local feerate dust ct (l ++ [next_htlc amt]) =
  nondust_count local feerate dust ct l + (if amt / 1000 <? dust_threshold local feerate dust ct then 0 else 1).
Proof.
  intros Hf Hd. unfold nondust_count. rewrite count_if_app, count_if_cons, count_if_nil, is_dust_next by done.
  destruct (amt / 1000 <? _); cbn [negb]; lia.
Qed.

(** ** Fees and reserves *)

Section fees.
Context (outb : bool) (feerate spiked : Z) (ct : ChannelTypeFeatures).
Context (Hf : fits 32 feerate) (Hsp : fits 32 spiked) (Hle : feerate <= spiked).

(** The capacity left on one commitment when the holder pays the fee: any
    amount within it leaves the fee of one more non-dust HTLC. *)
Definition holder_capacity (ocap n dl : Z) : Z :=
  let max_fee := commit_fee spiked (n + 2) ct in
  let min_fee := commit_fee spiked (n + 1) ct in
  if Z.max 0 (ocap - max_fee * 1000) <? dl * 1000
  then Z.min (dl * 1000 - 1) (Z.max 0 (ocap - min_fee * 1000))
  else Z.max 0 (ocap - max_fee * 1000).

Lemma holder_capacity_sound ocap n dl amt : 0 <= n -> 0 <= ocap -> 1 <= amt <= holder_capacity ocap n dl ->
  commit_fee spiked (n + (if amt / 1000 <? dl then 0 else 1) + 1) ct * 1000 + amt <= ocap.
Proof.
  intros Hn Ho Hamt. unfold holder_capacity in Hamt. unfold fits in Hsp.
  pose proof (commit_fee_mono spiked spiked (n + 1) (n + 2) ct ltac:(lia) ltac:(lia)) as Hm.
  destruct (Z.ltb_spec (Z.max 0 (ocap - commit_fee spiked (n + 2) ct * 1000)) (dl * 1000)) as [Hlt|Hge].
  - assert (amt / 1000 < dl) as Hdust by (apply Z.div_lt_upper_bound; lia).
    rewrite (proj2 (Z.ltb_lt _ _) Hdust). replace (n + 0 + 1) with (n + 1) by lia. lia.
  - destruct (amt / 1000 <? dl); [replace (n + 0 + 1) with (n + 1) by lia|replace (n + 1 + 1) with (n + 2) by lia]; lia.
Qed.

Lemma adjust_holder_exact ocap nl nr cons : 0 <= nl <= count_bound - 4 -> 0 <= nr <= count_bound - 4 ->
  0 <= holder_dust_limit_satoshis cons <= TOTAL_BITCOIN_SUPPLY_SATOSHIS ->
  0 <= counterparty_dust_limit_satoshis cons <= TOTAL_BITCOIN_SUPPLY_SATOSHIS -> 0 <= ocap ->
  adjust_capacity_for_holder_reserved_fee ocap nl nr feerate spiked cons ct =
  Z.min (holder_capacity ocap nl (dust_threshold true feerate (holder_dust_limit_satoshis cons) ct))
        (holder_capacity ocap nr (dust_threshold false feerate (counterparty_dust_limit_satoshis cons) ct)).
Proof.
  intros Hnl Hnr Hhd Hcd Ho. unfold adjust_capacity_for_holder_reserved_fee.
  pose proof (threshold_range true feerate _ ct Hf Hhd) as Ht1. pose proof (threshold_range false feerate _ ct Hf Hcd) as Ht2.
  unfold dust_threshold in *. destruct (second_stage_tx_fees_sat ct feerate) as [sf tf]. cbn [fst snd] in *.
  assert (forall n dl, 0 <= n <= count_bound - 4 -> 0 <= dl < 2 ^ 51 + 2 ^ 32 ->
    (let max_commit_tx_fee_sat := commit_tx_fee_sat spiked (n + 2)%u64 ct in
     let min_commit_tx_fee_sat := commit_tx_fee_sat spiked (n + 1)%u64 ct in
     let capacity_minus_max_commitment_fee_msat := saturating_sub ocap (max_commit_tx_fee_sat * 1000)%u64 in
     if (capacity_minus_max_commitment_fee_msat <? dl * 1000)%u64 then
       let capacity_minus_min_commitment_fee_msat := saturating_sub ocap (min_commit_tx_fee_sat * 1000)%u64 in
       Z.min (dl * 1000 - 1)%u64 capacity_minus_min_commitment_fee_msat
     else capacity_minus_max_commitment_fee_msat) = holder_capacity ocap n dl) as Hread.
  { intros n dl Hn Hdl. unfold count_bound in *. cbn zeta.
    rewrite !(wrapping_small 64 (n + _)) by (unfold fits; lia).
    rewrite !commit_tx_fee_sat_exact by (done || unfold count_bound; lia).
    pose proof (commit_fee_range spiked (n + 2) ct Hsp ltac:(unfold count_bound; lia)).
    pose proof (commit_fee_range spiked (n + 1) ct Hsp ltac:(unfold count_bound; lia)).
    rewrite !(wrapping_small 64 (commit_fee _ _ _ * 1000)) by (unfold fits; lia).
    rewrite (wrapping_small 64 (dl * 1000)) by (unfold fits; lia).
    unfold holder_capacity, saturating_sub. cbn zeta.
    destruct (Z.ltb_spec (Z.max 0 (ocap - commit_fee spiked (n + 2) ct * 1000)) (dl * 1000)); [|done].
    rewrite wrapping_small by (unfold fits; lia). done. }
  rewrite (wrapping_small 64 (holder_dust_limit_satoshis cons + tf)) by (unfold fits; lia).
  rewrite (wrapping_small 64 (counterparty_dust_limit_satoshis cons + sf)) by (unfold fits; lia).
  cbn zeta in *. rewrite !Hread by lia. done.
Qed.

(** The capacity left when the counterparty pays the fee. *)
Definition counterparty_capacity (ocap c n dl reserve : Z) : Z :=
  if c <? commit_fee feerate (n + 1) ct * 1000 + reserve * 1000
  then Z.min ocap (dl * 1000 - 1) else ocap.

Lemma counterparty_capacity_sound ocap c n dl reserve amt : 0 <= reserve ->
  amt <= counterparty_capacity ocap c n dl reserve ->
  amt <= ocap /\ (dl <= amt / 1000 -> commit_fee feerate (n + 1) ct * 1000 + reserve * 1000 <= c).
Proof.
  intros Hr Hamt. unfold counterparty_capacity in Hamt.
  destruct (Z.ltb_spec c (commit_fee feerate (n + 1) ct * 1000 + reserve * 1000)) as [Hlt|Hge]; [|done].
  split; [lia|]. intros Hnd. exfalso. dlia.
Qed.

Lemma adjust_counterparty_exact ocap c nl nr cons : 0 <= nl <= count_bound - 4 -> 0 <= nr <= count_bound - 4 ->
  0 < holder_dust_limit_satoshis cons <= TOTAL_BITCOIN_SUPPLY_SATOSHIS ->
  0 < counterparty_dust_limit_satoshis cons <= TOTAL_BITCOIN_SUPPLY_SATOSHIS ->
  0 <= holder_selected_channel_reserve_satoshis cons <= TOTAL_BITCOIN_SUPPLY_SATOSHIS ->
  adjust_capacity_for_counterparty_reserved_fee ocap c nl nr feerate cons ct =
  Z.min (counterparty_capacity ocap c nl (dust_threshold true feerate (holder_dust_limit_satoshis cons) ct)
           (holder_selected_channel_reserve_satoshis cons))
        (counterparty_capacity ocap c nr (dust_threshold false feerate (counterparty_dust_limit_satoshis cons) ct)
           (holder_selected_channel_reserve_satoshis cons)).
Proof.
  intros Hnl Hnr Hhd Hcd Hres. unfold adjust_capacity_for_counterparty_reserved_fee.
  pose proof (threshold_range true feerate (holder_dust_limit_satoshis cons) ct Hf ltac:(lia)) as Ht1.
  pose proof (threshold_range false feerate (counterparty_dust_limit_satoshis cons) ct Hf ltac:(lia)) as Ht2.
  unfold dust_threshold in *. destruct (second_stage_tx_fees_sat ct feerate) as [sf tf]. cbn [fst snd] in *.
  unfold TOTAL_BITCOIN_SUPPLY_SATOSHIS, count_bound in *.
  rewrite !(wrapping_small 64 (_ + 1)) by (unfold fits; lia).
  rewrite !commit_tx_fee_sat_exact by (done || unfold count_bound; lia).
  pose proof (commit_fee_range feerate (nl + 1) ct Hf ltac:(unfold count_bound; lia)).
  pose proof (commit_fee_range feerate (nr + 1) ct Hf ltac:(unfold count_bound; lia)).
  rewrite !(wrapping_small 64 (commit_fee _ _ _ * 1000)) by (unfold fits; lia).
  rewrite !(wrapping_small 64 (holder_selected_channel_reserve_satoshis cons * 1000)) by (unfold fits; lia).
  rewrite !(wrapping_small 64 (_ * 1000 + _ * 1000)) by (unfold fits; lia).
  rewrite !(wrapping_small 64 (holder_dust_limit_satoshis cons + tf)) by (unfold fits; lia).
  rewrite !(wrapping_small 64 (counterparty_dust_limit_satoshis cons + sf)) by (unfold fits; lia).
  rewrite !(wrapping_small 64 ((_ + _) * 1000)) by (unfold fits; lia).
  rewrite !(wrapping_small 64 ((_ + _) * 1000 - 1)) by (unfold fits; lia). done.
Qed.
End fees.

(** ** Outputs *)

Lemma output_left_mono outb h h' c fee n dust ct : h <= h' ->
  output_left outb h c fee n dust ct -> output_left outb h' c fee n dust ct.
Proof. unfold output_left. intros Hh. destruct outb; intros [H|[H|[H|H]]]; auto; right; right; left; lia. Qed.

(** One round of the last adjustment: the bounds only tighten, and an amount
    that is dust on this commitment leaves it an output. *)
Lemma boundaries_sound local outb h c feerate n dust ct mn cap mn' cap' :
  fits 32 feerate -> 0 <= n <= count_bound - 4 -> 0 <= dust <= TOTAL_BITCOIN_SUPPLY_SATOSHIS ->
  0 <= h -> 0 <= c ->
  adjust_boundaries_if_max_dust_htlc_produces_no_output local outb h c feerate n dust ct mn cap = (mn', cap') ->
  mn <= mn' /\ cap' <= cap /\
  forall amt, 1 <= amt <= h -> mn' <= amt <= cap' -> amt / 1000 < dust_threshold local feerate dust ct ->
    output_left outb (h - amt) c (commit_fee feerate n ct) n dust ct.
Proof.
  intros Hf Hn Hd Hh Hc Heq. unfold adjust_boundaries_if_max_dust_htlc_produces_no_output in Heq.
  pose proof (threshold_range local feerate dust ct Hf Hd) as Ht. unfold dust_threshold in *.
  destruct (second_stage_tx_fees_sat ct feerate) as [sf tf]. cbn [fst snd] in *.
  set (thr := dust + (if local then tf else sf)) in *.
  rewrite (wrapping_small 64 thr) in Heq by (unfold fits; lia).
  rewrite (saturating_mul_exact 64 thr) in Heq by lia.
  assert (0 <= saturating_sub h (saturating_sub (thr * 1000) 1)) as Hs by apply saturating_sub_nonneg.
  pose proof (has_output_spec outb _ c feerate n dust ct Hf ltac:(unfold count_bound in *; lia) Hs Hc Hd) as Hho.
  unfold count_bound, TOTAL_BITCOIN_SUPPLY_SATOSHIS in *.
  destruct (has_output _ _ _ _ _ _ _); cbn [negb] in Heq.
  - injection Heq as <- <-. split_and!; [lia|lia|]. intros amt Ha1 Ha2 Hdust.
    destruct Hho as [Hho _]. specialize (Hho eq_refl). eapply output_left_mono; [|exact Hho].
    unfold saturating_sub. dlia.
  - assert (~ output_left outb (saturating_sub h (saturating_sub (thr * 1000) 1)) c (commit_fee feerate n ct) n dust ct)
      as Hno by (intros Ho; apply Hho in Ho; done).
    destruct (Z.leb_spec (thr * 1000) cap) as [Hle|Hgt]; injection Heq as <- <-.
    + split_and!; [lia|lia|]. intros amt Ha1 Ha2 Hdust. exfalso. dlia.
    + split_and!; [lia|lia|]. intros amt Ha1 Ha2 Hdust.
      assert (n = 0) as -> by (destruct (decide (n = 0)); [done|exfalso; apply Hno; right; by left]).
      rewrite !commit_tx_fee_sat_exact in Ha2 by (done || unfold count_bound; lia).
      pose proof (commit_fee_range feerate 0 ct Hf ltac:(unfold count_bound; lia)).
      pose proof (commit_fee_range feerate 1 ct Hf ltac:(unfold count_bound; lia)).
      right; right; left. destruct outb; unfold saturating_sub in Ha2.
      * rewrite (wrapping_small 64 (dust + _)) in Ha2 by (unfold fits; lia).
        rewrite (wrapping_small 64 (_ * 1000)) in Ha2 by (unfold fits; lia). lia.
      * rewrite (wrapping_small 64 (dust * 1000)) in Ha2 by (unfold fits; lia). lia.
Qed.

(** The adjustment for dust exposure only tightens the bounds. *)
Lemma dust_adjust_tightens pend feerate lim maxdust cons ct cap mn cap' e :
  adjust_min_max_htlc_for_dust_exposure pend feerate lim maxdust cons ct cap = (mn, cap', e) ->
  counterparty_htlc_minimum_msat cons <= mn /\ cap' <= cap.
Proof.
  unfold adjust_min_max_htlc_for_dust_exposure.
  destruct (get_dust_exposure_stats true _ _ _ _ _) as [le ?].
  destruct (get_dust_exposure_stats false _ _ _ _ _) as [re ex].
  destruct (second_stage_tx_fees_sat _ _) as [sf tf]. cbn zeta.
  set (cap1 := match ex with Some _ => _ | None => cap end).
  assert (cap1 <= cap) as Hc1 by (unfold cap1; repeat case_match; lia).
  clearbody cap1. intros Heq. repeat (case_match; simplify_eq); lia.
Qed.

(** ** The whole computation *)

Record constraints_bounded (cons : ChannelConstraints) : Prop := {
  bound_holder_dust : 0 < holder_dust_limit_satoshis cons <= TOTAL_BITCOIN_SUPPLY_SATOSHIS;
  bound_counterparty_dust : 0 < counterparty_dust_limit_satoshis cons <= TOTAL_BITCOIN_SUPPLY_SATOSHIS;
  bound_counterparty_reserve :
    0 <= counterparty_selected_channel_reserve_satoshis cons <= TOTAL_BITCOIN_SUPPLY_SATOSHIS;
  bound_holder_reserve : 0 <= holder_selected_channel_reserve_satoshis cons <= TOTAL_BITCOIN_SUPPLY_SATOSHIS;
}.

Definition dust_limit_of (local : bool) (cons : ChannelConstraints) : Z :=
  if local then holder_dust_limit_satoshis cons else counterparty_dust_limit_satoshis cons.

(** The channel as it stands: both commitments are possible. *)
Record channel_sane (outb : bool) (cv vth : Z) (pend : list HTLCAmountDirection) (feerate : Z)
    (cons : ChannelConstraints) (ct : ChannelTypeFeatures) : Prop := {
  sane_cons : constraints_bounded cons;
  sane_bounds local : amounts_bounded cv vth feerate (dust_limit_of local cons) pend;
  sane_possible local :
    commitment_possible local outb cv vth pend 0 feerate false (dust_limit_of local cons) ct;
}.

Lemma before_fee_nonneg outb cv vth pend feerate cons ct : channel_sane outb cv vth pend feerate cons ct ->
  0 <= holder_before_fee outb vth pend ct /\ 0 <= counterparty_before_fee outb cv vth pend ct.
Proof.
  intros [_ _ Hp]. destruct (Hp true) as [H1 H2 H3 H4 _ _]. pose proof (total_anchors_range ct).
  unfold holder_before_fee, counterparty_before_fee in *. destruct outb; lia.
Qed.

Lemma before_fee_code outb cv vth pend feerate cons ct : channel_sane outb cv vth pend feerate cons ct ->
  checked_sub (cv * 1000)%u64 vth = Some (cv * 1000 - vth) /\
  saturating_sub_from_funder outb (saturating_sub vth (htlcs_value_msat true pend))
    (saturating_sub (cv * 1000 - vth) (htlcs_value_msat false pend)) (saturating_mul 64 (total_anchors_sat ct) 1000)
  = (holder_before_fee outb vth pend ct, counterparty_before_fee outb cv vth pend ct).
Proof.
  intros Hs. pose proof (before_fee_nonneg _ _ _ _ _ _ _ Hs) as [Hh Hc]. destruct Hs as [_ Hb Hp].
  destruct (Hb true) as [Hcv Hvth _ _ Ha Ht _]. destruct (Hp true) as [H1 H2 H3 _ _ _].
  destruct (htlcs_value_exact true pend Ha Ht) as [-> ?]. destruct (htlcs_value_exact false pend Ha Ht) as [-> ?].
  pose proof (total_anchors_range ct). unfold TOTAL_BITCOIN_SUPPLY_SATOSHIS in *.
  rewrite wrapping_small by (unfold fits; lia). split; [by apply checked_sub_ok|].
  rewrite saturating_mul_exact by lia.
  unfold saturating_sub_from_funder, saturating_sub, holder_before_fee, counterparty_before_fee in *.
  destruct outb; apply f_equal2; lia.
Qed.

Definition spiked_of (feerate : Z) (ct : ChannelTypeFeatures) : Z :=
  saturating_mul 32 feerate
    (if negb (supports_anchors_zero_fee_htlc_tx ct) then FEE_SPIKE_BUFFER_FEE_INCREASE_MULTIPLE else 1).

Lemma spiked_of_fits feerate ct : fits 32 feerate ->
  fits 32 (spiked_of feerate ct) /\ feerate <= spiked_of feerate ct.
Proof. intros Hf. apply spiked_fits; [done|]. destruct (negb _); unfold FEE_SPIKE_BUFFER_FEE_INCREASE_MULTIPLE; lia. Qed.

(** What an amount within the announced bounds satisfies, on one commitment. *)
Record amount_allowed (local outb : bool) (cv vth : Z) (pend : list HTLCAmountDirection) (feerate : Z)
    (cons : ChannelConstraints) (ct : ChannelTypeFeatures) (amt : Z) : Prop := {
  allowed_capacity : amt + counterparty_selected_channel_reserve_satoshis cons * 1000
    <= holder_before_fee outb vth pend ct;
  allowed_fee : let n := nondust_count local feerate (dust_limit_of local cons) ct (pend ++ [next_htlc amt]) in
    if outb
    then commit_fee (spiked_of feerate ct) (n + 1) ct * 1000 + amt
           + counterparty_selected_channel_reserve_satoshis cons * 1000 <= holder_before_fee outb vth pend ct
    else is_dust (next_htlc amt) local feerate (dust_limit_of local cons) ct = false ->
         commit_fee feerate n ct * 1000 + holder_selected_channel_reserve_satoshis cons * 1000
           <= counterparty_before_fee outb cv vth pend ct;
  allowed_output : is_dust (next_htlc amt) local feerate (dust_limit_of local cons) ct = true ->
    let n := nondust_count local feerate (dust_limit_of local cons) ct pend in
    output_left outb (holder_before_fee outb vth pend ct - amt) (counterparty_before_fee outb cv vth pend ct)
      (commit_fee feerate n ct) n (dust_limit_of local cons) ct;
  allowed_in_flight : htlcs_sum true pend + amt <= counterparty_max_htlc_value_in_flight_msat cons;
  allowed_count : count_if outbound pend + 1 <= counterparty_max_accepted_htlcs cons;
}.

(** The steps of [get_available_balances], named. *)
Record balance_steps (outb : bool) (cv vth : Z) (pend : list HTLCAmountDirection) (feerate : Z)
    (lim : option Z) (maxdust : Z) (cons : ChannelConstraints) (ct : ChannelTypeFeatures)
    (ab : AvailableBalances) (cap0 cap1 mn1 e : Z) : Prop := {
  step_reserved : cap0 =
    let h := holder_before_fee outb vth pend ct in
    let c := counterparty_before_fee outb cv vth pend ct in
    let nl := nondust_count true feerate (holder_dust_limit_satoshis cons) ct pend in
    let nr := nondust_count false feerate (counterparty_dust_limit_satoshis cons) ct pend in
    let ocap := saturating_sub h (counterparty_selected_channel_reserve_satoshis cons * 1000)%u64 in
    if outb then adjust_capacity_for_holder_reserved_fee ocap nl nr feerate (spiked_of feerate ct) cons ct
    else adjust_capacity_for_counterparty_reserved_fee ocap c nl nr feerate cons ct;
  step_dust : adjust_min_max_htlc_for_dust_exposure pend feerate lim maxdust cons ct cap0 = (mn1, cap1, e);
  step_output :
    let h := holder_before_fee outb vth pend ct in
    let c := counterparty_before_fee outb cv vth pend ct in
    let nl := nondust_count true feerate (holder_dust_limit_satoshis cons) ct pend in
    let nr := nondust_count false feerate (counterparty_dust_limit_satoshis cons) ct pend in
    let cap2 := Z.min cap1 (saturating_sub (counterparty_max_htlc_value_in_flight_msat cons) (htlcs_value_msat true pend)) in
    let cap3 := if (count_if outbound pend + 1 >? counterparty_max_accepted_htlcs cons)%u64 then 0 else cap2 in
    adjust_min_max_htlc_if_max_dust_htlc_produces_no_output outb h c nl nr feerate cons ct mn1 cap3
      = (next_outbound_htlc_minimum_msat ab, next_outbound_htlc_limit_msat ab);
  step_splice : next_splice_out_maximum_sat ab =
    get_next_splice_out_maximum_sat outb cv (holder_before_fee outb vth pend ct)
      (counterparty_before_fee outb cv vth pend ct)
      (nondust_count true feerate (holder_dust_limit_satoshis cons) ct pend)
      (nondust_count false feerate (counterparty_dust_limit_satoshis cons) ct pend)
      feerate (spiked_of feerate ct) cons ct;
}.

Lemma balances_steps outb cv vth pend feerate lim maxdust cons ct :
  channel_sane outb cv vth pend feerate cons ct ->
  exists ab cap0 cap1 mn1 e,
    get_available_balances outb cv vth pend feerate lim maxdust cons ct = Return ab /\
    balance_steps outb cv vth pend feerate lim maxdust cons ct ab cap0 cap1 mn1 e.
Proof.
  intros Hs. destruct (before_fee_code _ _ _ _ _ _ _ Hs) as [Hsub Hbf].
  unfold get_available_balances. rewrite Hsub. cbn [unwrap mbind run_bind]. rewrite Hbf.
  fold (spiked_of feerate ct).
  set (cap0 := if outb then _ else _).
  destruct (adjust_min_max_htlc_for_dust_exposure pend feerate lim maxdust cons ct cap0) as [[mn1 cap1] e] eqn:Hd.
  destruct (adjust_min_max_htlc_if_max_dust_htlc_produces_no_output _ _ _ _ _ _ _ _ _ _) as [mn2 cap4] eqn:Ho.
  do 5 eexists. split; [reflexivity|]. split; [reflexivity|exact Hd|exact Ho|reflexivity].
Qed.

Lemma reserved_capacity_sound (outb : bool) h c feerate cons ct (n : bool -> Z) amt :
  constraints_bounded cons -> fits 32 feerate -> (forall local, 0 <= n local <= count_bound - 4) ->
  let reserve := counterparty_selected_channel_reserve_satoshis cons in
  let ocap := saturating_sub h (reserve * 1000)%u64 in
  let spiked := spiked_of feerate ct in
  1 <= amt <= (if outb
    then adjust_capacity_for_holder_reserved_fee ocap (n true) (n false) feerate spiked cons ct
    else adjust_capacity_for_counterparty_reserved_fee ocap c (n true) (n false) feerate cons ct) ->
  amt + reserve * 1000 <= h /\
  forall local, let thr := dust_threshold local feerate (dust_limit_of local cons) ct in
    if outb
    then commit_fee spiked (n local + (if amt / 1000 <? thr then 0 else 1) + 1) ct * 1000 + amt + reserve * 1000 <= h
    else thr <= amt / 1000 ->
      commit_fee feerate (n local + 1) ct * 1000 + holder_selected_channel_reserve_satoshis cons * 1000 <= c.
Proof.
  intros [Hhd Hcd Hcr Hhr] Hf Hn reserve ocap spiked Hamt.
  destruct (spiked_of_fits feerate ct Hf) as [Hsf Hsle]. fold spiked in Hsf, Hsle.
  assert (0 <= ocap /\ (1 <= ocap -> ocap = h - reserve * 1000)) as [Ho0 Hocap].
  { unfold ocap, reserve, saturating_sub, TOTAL_BITCOIN_SUPPLY_SATOSHIS in *.
    rewrite wrapping_small by (unfold fits; lia). lia. }
  pose proof (Hn true) as Hnt. pose proof (Hn false) as Hnf. destruct outb.
  - rewrite adjust_holder_exact in Hamt by (done || lia).
    pose proof (fun dl k Hk => holder_capacity_sound spiked ct Hsf ocap k dl amt Hk Ho0) as Hsound.
    pose proof (Hsound (dust_threshold true feerate (holder_dust_limit_satoshis cons) ct) (n true) ltac:(lia) ltac:(lia)) as H1.
    pose proof (Hsound (dust_threshold false feerate (counterparty_dust_limit_satoshis cons) ct) (n false) ltac:(lia) ltac:(lia)) as H2.
    assert (forall (b : bool) m, 0 <= m <= count_bound - 4 ->
              0 <= commit_fee spiked (m + (if b then 0 else 1) + 1) ct) as Hfee
      by (intros [|] m Hm; apply commit_fee_range; done || lia).
    pose proof (Hfee (amt / 1000 <? dust_threshold true feerate (holder_dust_limit_satoshis cons) ct) (n true) Hnt).
    pose proof (Hfee (amt / 1000 <? dust_threshold false feerate (counterparty_dust_limit_satoshis cons) ct) (n false) Hnf).
    split; [lia|]. intros [|]; cbn zeta; cbn [dust_limit_of]; lia.
  - rewrite adjust_counterparty_exact in Hamt by (done || lia).
    destruct (counterparty_capacity_sound feerate ct ocap c (n true)
      (dust_threshold true feerate (holder_dust_limit_satoshis cons) ct) _ amt (proj1 Hhr) ltac:(lia)) as [H1 H2].
    destruct (counterparty_capacity_sound feerate ct ocap c (n false)
      (dust_threshold false feerate (counterparty_dust_limit_satoshis cons) ct) _ amt (proj1 Hhr) ltac:(lia)) as [H3 H4].
    split; [lia|]. intros [|]; cbn zeta; cbn [dust_limit_of]; done.
Qed.

Lemma amount_within_allowed outb cv vth pend feerate lim maxdust cons ct ab cap0 cap1 mn1 e amt :
  channel_sane outb cv vth pend feerate cons ct ->
  balance_steps outb cv vth pend feerate lim maxdust cons ct ab cap0 cap1 mn1 e ->
  1 <= amt -> next_outbound_htlc_minimum_msat ab <= amt <= next_outbound_htlc_limit_msat ab ->
  amt <= cap1 /\ amt <= cap0 /\ mn1 <= amt /\
  forall local, amount_allowed local outb cv vth pend feerate cons ct amt.
Proof.
  intros Hs Hst H1 Hamt. pose proof (before_fee_nonneg _ _ _ _ _ _ _ Hs) as [Hh Hc].
  pose proof (sane_cons _ _ _ _ _ _ _ Hs) as [Hhd Hcd Hcr Hhr].
  pose proof (sane_bounds _ _ _ _ _ _ _ Hs true) as [Hcv Hvth Hf _ Ha Ht Hcnt].
  destruct Hst as [Hcap0 Hdust Hout _]. destruct (dust_adjust_tightens _ _ _ _ _ _ _ _ _ _ Hdust) as [Hmn Hc10].
  set (h := holder_before_fee outb vth pend ct) in *. set (c := counterparty_before_fee outb cv vth pend ct) in *.
  pose proof (nondust_count_range true feerate (holder_dust_limit_satoshis cons) ct pend) as Hnl.
  pose proof (nondust_count_range false feerate (counterparty_dust_limit_satoshis cons) ct pend) as Hnr.
  set (nl := nondust_count true feerate (holder_dust_limit_satoshis cons) ct pend) in *.
  set (nr := nondust_count false feerate (counterparty_dust_limit_satoshis cons) ct pend) in *.
  unfold adjust_min_max_htlc_if_max_dust_htlc_produces_no_output in Hout. cbn zeta in Hout.
  set (cap3 := if (_ >? _)%u64 then 0 else _) in Hout.
  destruct (adjust_boundaries_if_max_dust_htlc_produces_no_output true outb h c feerate nl _ ct mn1 cap3)
    as [mn2 cap4] eqn:Hb1.
  apply boundaries_sound in Hb1 as (Hm1 & Hc1 & Hol1); [|done|lia|lia|done|done].
  apply boundaries_sound in Hout as (Hm2 & Hc2 & Hol2); [|done|lia|lia|done|done].
  destruct (htlcs_value_exact true pend Ha Ht) as [Hve Hvr].
  pose proof (count_if_le_length outbound pend) as Hco. pose proof (count_if_nonneg outbound pend) as Hcn.
  unfold count_bound in Hcnt.
  assert (amt <= cap1 /\ htlcs_sum true pend + amt <= counterparty_max_htlc_value_in_flight_msat cons /\
          count_if outbound pend + 1 <= counterparty_max_accepted_htlcs cons) as (Hac1 & Hfl & Hac).
  { assert (1 <= cap3) as Hpos by lia. unfold cap3 in *. rewrite wrapping_small in * by (unfold fits; lia).
    unfold saturating_sub in *. rewrite Hve in *.
    destruct (Z.ltb_spec (counterparty_max_accepted_htlcs cons) (count_if outbound pend + 1)); lia. }
  split_and!; [lia|lia|lia|]. assert (amt <= cap0) as Hac0 by lia.
  set (n := fun local : bool => if local then nl else nr).
  destruct (reserved_capacity_sound outb h c feerate cons ct n amt) as [Hcapa Hfees].
  { by split. }
  { done. }
  { intros [|]; unfold count_bound; cbn; lia. }
  { cbn zeta in Hcap0. cbn [n]. rewrite <- Hcap0. lia. }
  intros local. pose proof (Hfees local) as Hfee. cbn zeta in Hfee.
  assert (0 <= dust_limit_of local cons <= TOTAL_BITCOIN_SUPPLY_SATOSHIS) as Hdl by (destruct local; cbn; lia).
  assert (nondust_count local feerate (dust_limit_of local cons) ct pend = n local) as Hnloc by by destruct local.
  split.
  - exact Hcapa.
  - cbn zeta. rewrite nondust_count_next, is_dust_next, Hnloc by done. destruct outb; [exact Hfee|].
    intros Hnd%Z.ltb_ge. rewrite (proj2 (Z.ltb_ge _ _) Hnd). by apply Hfee.
  - rewrite is_dust_next by done. intros Hd%Z.ltb_lt. cbn zeta. rewrite Hnloc.
    destruct local; [apply Hol1|apply Hol2]; (done || lia).
  - exact Hfl.
  - exact Hac.
Qed.

(** ** Every amount within the bounds can be sent *)

Lemma holder_before_fee_next outb vth pend ct amt :
  holder_before_fee outb vth (pend ++ [next_htlc amt]) ct = holder_before_fee outb vth pend ct - amt.
Proof. unfold holder_before_fee. rewrite htlcs_sum_next. lia. Qed.

Lemma counterparty_before_fee_next outb cv vth pend ct amt :
  counterparty_before_fee outb cv vth (pend ++ [next_htlc amt]) ct = counterparty_before_fee outb cv vth pend ct.
Proof. unfold counterparty_before_fee. rewrite htlcs_sum_next. lia. Qed.

Lemma bounded_next outb cv vth pend feerate cons ct amt local :
  channel_sane outb cv vth pend feerate cons ct -> Z.of_nat (length pend) + 5 <= count_bound ->
  0 <= amt <= holder_before_fee outb vth pend ct ->
  amounts_bounded cv vth feerate (dust_limit_of local cons) (pend ++ [next_htlc amt]).
Proof.
  intros Hs Hlen Hamt. pose proof (sane_bounds _ _ _ _ _ _ _ Hs local) as [Hcv Hvth Hf Hd Ha Ht Hc].
  pose proof (sane_possible _ _ _ _ _ _ _ Hs local) as [H1 H2 H3 _ _ _].
  pose proof (total_anchors_range ct). pose proof (htlcs_sum_partition pend) as Hpart. split; try done.
  - apply Forall_app. split; [done|]. apply Forall_singleton. cbn. lia.
  - rewrite map_app, zsum_app. cbn. unfold holder_before_fee, TOTAL_BITCOIN_SUPPLY_SATOSHIS in *. destruct outb; lia.
  - rewrite length_app. cbn. lia.
Qed.

Lemma allowed_possible local outb cv vth pend feerate cons ct amt :
  channel_sane outb cv vth pend feerate cons ct -> 1 <= amt ->
  amount_allowed local outb cv vth pend feerate cons ct amt ->
  commitment_possible local outb cv vth (pend ++ [next_htlc amt]) (if outb then 1 else 0) feerate false
    (dust_limit_of local cons) ct.
Proof.
  intros Hs H1 [Hcap Hfee Hout _ _].
  pose proof (sane_bounds _ _ _ _ _ _ _ Hs local) as [_ _ Hf Hd _ _ _].
  pose proof (sane_possible _ _ _ _ _ _ _ Hs local) as [P1 P2 P3 P4 P5 P6].
  pose proof (before_fee_nonneg _ _ _ _ _ _ _ Hs) as [Hh Hc].
  pose proof (sane_cons _ _ _ _ _ _ _ Hs) as [_ _ Hcr Hhr].
  pose proof (total_anchors_range ct) as Hanc. cbn zeta in Hfee, Hout.
  pose proof (nondust_count_range local feerate (dust_limit_of local cons) ct pend) as Hn.
  destruct (spiked_of_fits feerate ct Hf) as [Hsf Hsle]. unfold fits in Hf.
  unfold spike in *. cbn [andb] in *.
  split; unfold spike; cbn [andb]; rewrite ?holder_before_fee_next, ?counterparty_before_fee_next, ?htlcs_sum_next.
  - done.
  - unfold holder_before_fee in Hcap. destruct outb; lia.
  - lia.
  - destruct outb; [lia|done].
  - rewrite nondust_count_next, is_dust_next in * by done.
    destruct (amt / 1000 <? _).
    + rewrite Z.add_0_r. by apply Hout.
    + right. left. lia.
  - destruct outb.
    + set (n := nondust_count _ _ _ _ (pend ++ _)) in *.
      pose proof (nondust_count_range local feerate (dust_limit_of local cons) ct (pend ++ [next_htlc amt])) as Hn'.
      fold n in Hn'. pose proof (commit_fee_mono feerate (spiked_of feerate ct) (n + 1) (n + 1) ct ltac:(lia) ltac:(lia)). lia.
    + rewrite nondust_count_next, is_dust_next in * by done.
      destruct (amt / 1000 <? _); [rewrite ?Z.add_0_r in *; lia|].
      specialize (Hfee eq_refl). rewrite Z.add_0_r. lia.
Qed.

(** C12: the announced bounds on the next HTLC are sound.  If both commitments of
    a channel are possible as it stands, then any HTLC of an amount between the
    announced minimum and maximum can be added: on both sides' commitment the
    statistics succeed again (an output is left, every balance is covered, and the
    holder who pays the fee also covers one further HTLC), the holder keeps its
    reserve, even at the spiked feerate when it is the funder, and the
    counterparty's limits on the number and the value of HTLCs hold. *)
Theorem next_htlc_bounds_sound outb cv vth pend feerate lim maxdust cons ct ab amt :
  channel_sane outb cv vth pend feerate cons ct -> Z.of_nat (length pend) + 5 <= count_bound ->
  get_available_balances outb cv vth pend feerate lim maxdust cons ct = Return ab ->
  1 <= amt -> next_outbound_htlc_minimum_msat ab <= amt <= next_outbound_htlc_limit_msat ab ->
  let reserve := counterparty_selected_channel_reserve_satoshis cons * 1000 in
  htlcs_sum true pend + amt <= counterparty_max_htlc_value_in_flight_msat cons /\
  count_if outbound pend + 1 <= counterparty_max_accepted_htlcs cons /\
  forall local, exists st,
    get_next_commitment_stats local outb cv vth (pend ++ [next_htlc amt]) (if outb then 1 else 0) feerate false
      lim (dust_limit_of local cons) ct = Ok st /\
    reserve <= holder_balance_msat st /\
    (outb = true -> reserve + commit_fee (spiked_of feerate ct) (nondust_htlc_count st) ct * 1000
                      <= holder_before_fee outb vth (pend ++ [next_htlc amt]) ct).
Proof.
  intros Hs Hlen Hget H1 Hamt reserve.
  destruct (balances_steps outb cv vth pend feerate lim maxdust cons ct Hs) as (ab' & cap0 & cap1 & mn1 & e & Hget' & Hst).
  rewrite Hget in Hget'. injection Hget' as <-.
  destruct (amount_within_allowed _ _ _ _ _ _ _ _ _ _ _ _ _ _ _ Hs Hst H1 Hamt) as (_ & _ & _ & Hall).
  split; [apply (allowed_in_flight _ _ _ _ _ _ _ _ _ (Hall true))|].
  split; [apply (allowed_count _ _ _ _ _ _ _ _ _ (Hall true))|].
  intros local. specialize (Hall local).
  pose proof (sane_cons _ _ _ _ _ _ _ Hs) as [_ _ Hcr _].
  pose proof (allowed_capacity _ _ _ _ _ _ _ _ _ Hall) as Hcap.
  pose proof (bounded_next outb cv vth pend feerate cons ct amt local Hs Hlen ltac:(lia)) as Hb.
  pose proof (allowed_possible _ _ _ _ _ _ _ _ _ Hs H1 Hall) as Hposs.
  pose proof (stats_spec local outb cv vth (pend ++ [next_htlc amt]) (if outb then 1 else 0) feerate false lim
    (dust_limit_of local cons) ct Hb ltac:(destruct outb; lia)) as Hspec.
  destruct (get_next_commitment_stats _ _ _ _ _ _ _ _ _ _ _) as [st|]; [|done].
  exists st. split; [done|]. destruct Hspec as [_ ->]. cbn [holder_balance_msat nondust_htlc_count].
  pose proof (allowed_fee _ _ _ _ _ _ _ _ _ Hall) as Hfee. cbn zeta in Hfee.
  rewrite holder_before_fee_next. unfold spike. cbn [andb].
  pose proof (bound_feerate _ _ _ _ _ Hb) as Hf. destruct (spiked_of_fits feerate ct Hf) as [Hsf Hsle].
  destruct outb; [|split; [lia|done]].
  set (n := nondust_count _ _ _ _ (pend ++ _)) in *.
  pose proof (nondust_count_range local feerate (dust_limit_of local cons) ct (pend ++ [next_htlc amt])) as Hn.
  fold n in Hn. unfold fits in Hf.
  pose proof (commit_fee_mono feerate (spiked_of feerate ct) (n + 1) (n + 1) ct ltac:(lia) ltac:(lia)).
  split; [lia|intros _; lia].
Qed.

(** A channel to evaluate: a million satoshis, one pending HTLC in each direction. *)
Definition example_constraints : ChannelConstraints := mkConstraints 354 10000 546 10000 1000 500000000 483.
Definition example_pending : list HTLCAmountDirection := [mkDirection true 50000000; mkDirection false 20000000].

Lemma example_channel_sane :
  channel_sane true 1000000 600000000 example_pending 2500 example_constraints only_static_remote_key.
Proof.
  split.
  - split; cbn; unfold TOTAL_BITCOIN_SUPPLY_SATOSHIS; lia.
  - intros [|]; (split; cbn; try (unfold TOTAL_BITCOIN_SUPPLY_SATOSHIS, fits, count_bound; lia); prove_forall; cbn; lia).
  - intros [|]; (split; vm_compute; try discriminate; right; left; discriminate).
Qed.

Definition example_available : AvailableBalances :=
  returned (get_available_balances true 1000000 600000000 example_pending 2500 None 5000000 example_constraints
    only_static_remote_key) (mkAvailable 0 0 0 0 0 0).

Lemma next_htlc_bounds_sound_witness :
  1000 <= 300000000 <= next_outbound_htlc_limit_msat example_available /\
  htlcs_sum true example_pending + 300000000 <= counterparty_max_htlc_value_in_flight_msat example_constraints.
Proof.
  split; [vm_compute; split; discriminate|].
  apply (next_htlc_bounds_sound true 1000000 600000000 example_pending 2500 None 5000000 example_constraints
    only_static_remote_key example_available 300000000).
  - exact example_channel_sane.
  - vm_compute. discriminate.
  - apply returned_eq. vm_compute. reflexivity.
  - lia.
  - vm_compute. split; discriminate.
Defined.
