(* ===== verification/DustExposure.v ===== *)
(** * Dust exposure (lightning/src/sign/tx_builder.rs)

    The value that would go to fees if a commitment confirmed: the HTLCs too small
    for an output at the buffered feerate and, on the counterparty's commitment,
    the fees above the limiting feerate.  Amounts within the bounds announced by
    [get_available_balances] keep it under the configured maximum; the one amount
    that escapes is exhibited. *)

From Stdlib Require Import ZArith Lia Bool.
From S2P Require Import Prelude.
From S2P Require Import Features.
From S2P Require Import ChanUtils.
From S2P Require Import TxBuilder.
From S2P Require Import AvailableBalances.

Local Open Scope Z_scope.

(** ** The exposure without wrap-around *)

Definition dust_value (local : bool) (feerate dust : Z) (ct : ChannelTypeFeatures) (l : list HTLCAmountDirection) : Z :=
  zsum (map htlc_amount_msat (List.filter (fun htlc =>
    is_dust htlc local (get_dust_buffer_feerate feerate) dust ct) l)).

Definition nondust_side (local accepted : bool) (feerate dust : Z) (ct : ChannelTypeFeatures)
    (l : list HTLCAmountDirection) : Z :=
  count_if (fun htlc =>
    (if accepted then negb (Bool.eqb (outbound htlc) local) else Bool.eqb (outbound htlc) local) &&
    negb (is_dust htlc local (get_dust_buffer_feerate feerate) dust ct)) l.

Definition excess_fee_msat (excess accepted offered : Z) (ct : ChannelTypeFeatures) : Z :=
  (commit_fee excess (accepted + offered) ct
   + (accepted * (second_stage_tx_fees_sat ct excess).1 + offered * (second_stage_tx_fees_sat ct excess).2)) * 1000.

Definition excess_of (feerate : Z) (lim : option Z) : Z := saturating_sub feerate (default feerate lim).

Lemma buffer_fits f : fits 32 f -> fits 32 (get_dust_buffer_feerate f) /\ f <= get_dust_buffer_feerate f.
Proof.
  unfold fits, get_dust_buffer_feerate, saturating_add, checked_mul, umax. intros Hf.
  destruct (Z.leb_spec (f * 1250) (2 ^ 32 - 1)); cbn; dlia.
Qed.

Lemma excess_fits f lim : fits 32 f -> (forall x, lim = Some x -> fits 32 x) -> fits 32 (excess_of f lim).
Proof.
  unfold fits, excess_of, saturating_sub. intros Hf Hl. destruct lim as [x|]; cbn; [|lia].
  specialize (Hl x eq_refl). lia.
Qed.

Lemma nondust_sides local f d ct l :
  0 <= nondust_side local true f d ct l /\ 0 <= nondust_side local false f d ct l /\
  nondust_side local true f d ct l + nondust_side local false f d ct l <= Z.of_nat (length l).
Proof.
  unfold nondust_side. induction l as [|h l IH]; [rewrite !count_if_nil; cbn; lia|]. rewrite !count_if_cons. cbn [length].
  destruct (Bool.eqb (outbound h) local), (is_dust h _ _ _ _); cbn [negb andb]; lia.
Qed.

Lemma excess_fee_range ex a o ct : fits 32 ex -> 0 <= a -> 0 <= o -> a + o <= count_bound ->
  0 <= excess_fee_msat ex a o ct < 2 ^ 60.
Proof.
  intros Hex Ha Ho Hs. unfold excess_fee_msat. pose proof (commit_fee_range ex (a + o) ct Hex ltac:(lia)).
  destruct (second_stage_range ct ex Hex). unfold count_bound in *. nia.
Qed.

(** The code's fee of [a] accepted and [o] offered HTLCs. *)
Lemma excess_fee_code ex a o ct : fits 32 ex -> 0 <= a -> 0 <= o -> a + o <= count_bound ->
  ((commit_tx_fee_sat ex (a + o) ct + htlc_tx_fees_sat ex a o ct) * 1000)%u64 = excess_fee_msat ex a o ct.
Proof.
  intros Hex Ha Ho Hs. pose proof (excess_fee_range ex a o ct Hex Ha Ho Hs) as Hr. unfold excess_fee_msat in *.
  rewrite commit_tx_fee_sat_exact by (done || lia). unfold htlc_tx_fees_sat.
  pose proof (commit_fee_range ex (a + o) ct Hex ltac:(lia)). destruct (second_stage_range ct ex Hex).
  destruct (second_stage_tx_fees_sat ct ex) as [sf tf]. cbn [fst snd] in *. unfold count_bound in *.
  rewrite (wrapping_small 64 (a * sf)) by (unfold fits; nia). rewrite (wrapping_small 64 (o * tf)) by (unfold fits; nia).
  rewrite (wrapping_small 64 (a * sf + o * tf)) by (unfold fits; nia).
  rewrite (wrapping_small 64 (commit_fee _ _ _ + _)) by (unfold fits; nia).
  apply wrapping_small. unfold fits. lia.
Qed.

Lemma dust_value_range local f d ct l : Forall (fun h => 0 <= htlc_amount_msat h) l ->
  0 <= dust_value local f d ct l <= zsum (map htlc_amount_msat l).
Proof. intros Hl. unfold dust_value. by destruct (filter_nonneg (fun h => is_dust h local (get_dust_buffer_feerate f) d ct) l Hl). Qed.

Lemma exposure_spec local cv vth f lim d ct l :
  amounts_bounded cv vth f d l -> (forall x, lim = Some x -> fits 32 x) ->
  get_dust_exposure_stats local l f lim d ct =
  let a := nondust_side local true f d ct l in let o := nondust_side local false f d ct l in
  let ex := excess_of f lim in
  if local || (ex =? 0) then (dust_value local f d ct l, None)
  else (dust_value local f d ct l + excess_fee_msat ex a o ct,
        Some (dust_value local f d ct l + excess_fee_msat ex (a + 1) o ct)).
Proof.
  intros [_ _ Hf _ Ha Ht Hc] Hl. unfold get_dust_exposure_stats. fold (excess_of f lim).
  rewrite filter_sum_exact by done. fold (dust_value local f d ct l). cbn zeta.
  destruct (local || (excess_of f lim =? 0)); [done|].
  pose proof (dust_value_range local f d ct l Ha). pose proof (excess_fits f lim Hf Hl) as Hex.
  destruct (nondust_sides local f d ct l) as (Hna & Hno & Hsum). unfold count_bound in *.
  unfold commit_plus_htlc_tx_fees_msat. fold (nondust_side local true f d ct l). fold (nondust_side local false f d ct l).
  set (a := nondust_side local true f d ct l) in *. set (o := nondust_side local false f d ct l) in *.
  rewrite (wrapping_small 64 (a + o)) by (unfold fits; lia).
  rewrite (wrapping_small 64 (a + 1)) by (unfold fits; lia).
  rewrite (wrapping_small 64 (a + 1 + o)) by (unfold fits; lia).
  rewrite !excess_fee_code by (done || unfold count_bound; lia).
  pose proof (excess_fee_range (excess_of f lim) a o ct Hex ltac:(lia) ltac:(lia) ltac:(unfold count_bound; lia)).
  pose proof (excess_fee_range (excess_of f lim) (a + 1) o ct Hex ltac:(lia) ltac:(lia) ltac:(unfold count_bound; lia)).
  rewrite !wrapping_small by (unfold fits; lia). done.
Qed.

(** ** One more HTLC *)

(** The amount from which an outbound HTLC is not dust at the buffered feerate. *)
Definition buffer_threshold (local : bool) (feerate : Z) (cons : ChannelConstraints) (ct : ChannelTypeFeatures) : Z :=
  dust_threshold local (get_dust_buffer_feerate feerate) (dust_limit_of local cons) ct.

Definition exposure (local : bool) (l : list HTLCAmountDirection) (feerate : Z) (lim : option Z)
    (cons : ChannelConstraints) (ct : ChannelTypeFeatures) : Z :=
  (get_dust_exposure_stats local l feerate lim (dust_limit_of local cons) ct).1.

Section next.
Context (cv vth f : Z) (lim : option Z) (cons : ChannelConstraints) (ct : ChannelTypeFeatures).
Context (l : list HTLCAmountDirection) (amt : Z) (Hl : forall x, lim = Some x -> fits 32 x).
Context (Hb : forall local, amounts_bounded cv vth f (dust_limit_of local cons) l).
Context (Hb' : forall local, amounts_bounded cv vth f (dust_limit_of local cons) (l ++ [next_htlc amt])).

Lemma dust_next local :
  is_dust (next_htlc amt) local (get_dust_buffer_feerate f) (dust_limit_of local cons) ct =
  (amt / 1000 <? buffer_threshold local f cons ct).
Proof.
  destruct (Hb local) as [_ _ Hf Hd _ _ _]. apply is_dust_next; [by apply buffer_fits|done].
Qed.

Lemma dust_value_next local :
  dust_value local f (dust_limit_of local cons) ct (l ++ [next_htlc amt]) =
  dust_value local f (dust_limit_of local cons) ct l
    + (if amt / 1000 <? buffer_threshold local f cons ct then amt else 0).
Proof.
  unfold dust_value. rewrite List.filter_app, map_app, zsum_app. cbn [List.filter]. rewrite dust_next.
  destruct (amt / 1000 <? _); cbn; lia.
Qed.

Lemma nondust_next accepted :
  nondust_side false accepted f (dust_limit_of false cons) ct (l ++ [next_htlc amt]) =
  nondust_side false accepted f (dust_limit_of false cons) ct l
    + (if amt / 1000 <? buffer_threshold false f cons ct then 0 else if accepted then 1 else 0).
Proof.
  unfold nondust_side. rewrite count_if_app, count_if_cons, count_if_nil, dust_next.
  destruct (amt / 1000 <? _), accepted; cbn; lia.
Qed.

Lemma exposure_next_local :
  exposure true (l ++ [next_htlc amt]) f lim cons ct =
  exposure true l f lim cons ct + (if amt / 1000 <? buffer_threshold true f cons ct then amt else 0).
Proof.
  unfold exposure. rewrite !(exposure_spec true cv vth) by done. cbn [orb fst]. apply dust_value_next.
Qed.

(** A dust HTLC adds its amount, any other one the excess fee of an output. *)
Lemma exposure_next_remote :
  exposure false (l ++ [next_htlc amt]) f lim cons ct =
  if amt / 1000 <? buffer_threshold false f cons ct then exposure false l f lim cons ct + amt
  else default (exposure false l f lim cons ct)
         (get_dust_exposure_stats false l f lim (dust_limit_of false cons) ct).2.
Proof.
  unfold exposure. rewrite !(exposure_spec false cv vth) by done. cbn zeta. cbn [orb].
  rewrite dust_value_next, !nondust_next. destruct (excess_of f lim =? 0); cbn [fst snd from_option].
  - destruct (amt / 1000 <? _); lia.
  - destruct (amt / 1000 <? _); cbn [from_option id]; rewrite ?Z.add_0_r; lia.
Qed.

Lemma exposure_range local : 0 <= exposure local l f lim cons ct < 2 ^ 62 + 2 ^ 60.
Proof.
  unfold exposure. rewrite (exposure_spec local cv vth) by done. cbn zeta.
  destruct (Hb local) as [_ _ Hf _ Ha Ht Hc]. pose proof (dust_value_range local f (dust_limit_of local cons) ct l Ha).
  destruct (local || _); cbn [fst]; [lia|].
  destruct (nondust_sides local f (dust_limit_of local cons) ct l) as (Hna & Hno & Hsum).
  pose proof (excess_fee_range (excess_of f lim) _ _ ct (excess_fits f lim Hf Hl) Hna Hno ltac:(lia)). lia.
Qed.
End next.

Lemma as_i64_small x : 0 <= x < 2 ^ 63 -> as_i64 x = x.
Proof. intros Hx. unfold as_i64. rewrite Z.mod_small; lia. Qed.

Lemma threshold_buffer_range local f cons ct : fits 32 f ->
  0 < dust_limit_of local cons <= TOTAL_BITCOIN_SUPPLY_SATOSHIS ->
  0 < buffer_threshold local f cons ct < 2 ^ 51 + 2 ^ 32.
Proof.
  intros Hf Hd. destruct (buffer_fits f Hf) as [Hbf _].
  pose proof (threshold_range local (get_dust_buffer_feerate f) (dust_limit_of local cons) ct Hbf ltac:(lia)).
  unfold buffer_threshold. lia.
Qed.

(** The adjustment bounds the exposure an allowed amount leads to. *)
Lemma dust_adjust_sound cv vth f lim maxdust cons ct l cap0 mn cap e amt :
  constraints_bounded cons -> (forall x, lim = Some x -> fits 32 x) -> fits 64 maxdust ->
  (forall local, amounts_bounded cv vth f (dust_limit_of local cons) l) ->
  adjust_min_max_htlc_for_dust_exposure l f lim maxdust cons ct cap0 = (mn, cap, e) ->
  1 <= amt -> mn <= amt <= cap ->
  e = Z.max (exposure true l f lim cons ct) (exposure false l f lim cons ct) /\
  (forall local, amt / 1000 < buffer_threshold local f cons ct ->
     exposure local l f lim cons ct + amt <= maxdust) /\
  (forall extra, (get_dust_exposure_stats false l f lim (dust_limit_of false cons) ct).2 = Some extra ->
     maxdust < extra -> amt <= buffer_threshold false f cons ct * 1000).
Proof.
  intros Hcons Hl Hm Hb Heq H1 Hamt. pose proof (exposure_range cv vth f lim cons ct l Hl Hb) as Hexp.
  destruct (Hb true) as [_ _ Hf _ _ _ _]. destruct Hcons as [Hhd Hcd _ _].
  pose proof (threshold_buffer_range true f cons ct Hf Hhd) as HT.
  pose proof (threshold_buffer_range false f cons ct Hf Hcd) as HS.
  pose proof (Hexp true) as He1. pose proof (Hexp false) as He2. clear Hexp.
  unfold adjust_min_max_htlc_for_dust_exposure in Heq. unfold exposure in *. cbn [dust_limit_of] in *.
  destruct (get_dust_exposure_stats true _ _ _ _ _) as [el xl] eqn:El.
  destruct (get_dust_exposure_stats false _ _ _ _ _) as [er xr] eqn:Er. cbn [fst snd] in *. cbn zeta in Heq.
  unfold buffer_threshold, dust_threshold in *. cbn [dust_limit_of] in *.
  destruct (second_stage_tx_fees_sat ct (get_dust_buffer_feerate f)) as [sf tf]. cbn [fst snd] in *.
  rewrite (Z.add_comm sf), (Z.add_comm tf) in Heq.
  set (T := holder_dust_limit_satoshis cons + tf) in *. set (S := counterparty_dust_limit_satoshis cons + sf) in *.
  rewrite (wrapping_small 64 T), (wrapping_small 64 S) in Heq by (unfold fits; lia).
  rewrite (wrapping_small 64 (T * 1000)), (wrapping_small 64 (S * 1000)) in Heq by (unfold fits; lia).
  rewrite (as_i64_small T), (as_i64_small (T * 1000)), (as_i64_small el), !as_i64_small in Heq by (rewrite ?as_i64_small; lia).
  unfold fits, saturating_add, saturating_sub, umax in *.
  set (cap1 := match xr with Some _ => _ | None => cap0 end) in *.
  assert (cap <= cap1 /\
    (amt < S * 1000 -> er + amt <= maxdust) /\ (amt < T * 1000 -> el + amt <= maxdust) /\ e = Z.max el er)
    as (Hcap & Hr & Hloc & ->).
  { destruct (Z.ltb_spec (Z.min (maxdust + 1) (2 ^ 64 - 1)) (Z.min (er + S * 1000) (2 ^ 64 - 1)));
    destruct (Z.ltb_spec (if maxdust <? 2 ^ 63 then maxdust else 2 ^ 63 - 1) (el + T * 1000 - 1)) as [Hc|Hc];
    destruct (Z.ltb_spec maxdust (2 ^ 63)); cbn [from_option id] in Heq; clearbody cap1;
    [..|injection Heq as <- <- <-; lia|injection Heq as <- <- <-; lia];
    match type of Heq with context [cap1 <? ?d] => destruct (Z.ltb_spec cap1 d) end; injection Heq as <- <- <-; lia. }
  split; [done|]. split.
  - intros [|]; cbn [dust_limit_of]; rewrite ?El, ?Er; cbn [fst]; intros Hd; [apply Hloc|apply Hr]; dlia.
  - intros extra -> Hmax. unfold cap1 in Hcap. rewrite (proj2 (Z.ltb_lt _ _) Hmax) in Hcap. lia.
Qed.

(** ** The announced bounds and the exposure *)



