(* ===== verification/SpliceOut.v ===== *)
(** * The largest splice-out (lightning/src/sign/tx_builder.rs)

    [get_next_splice_out_maximum_sat] is characterised exactly: a positive amount
    is within the announced maximum precisely when taking it out of the channel
    leaves the holder its reserve and fees, both commitments an output, and the
    channel its minimal value. *)

From Stdlib Require Import ZArith Lia Bool.
From S2P Require Import Prelude.
From S2P Require Import Features.
From S2P Require Import ChanUtils.
From S2P Require Import TxBuilder.
From S2P Require Import AvailableBalances.

Local Open Scope Z_scope.

(** ** What a splice-out must leave *)

(** The holder keeps the v2 reserve of the smaller channel, if the channel has
    reserves at all, and [delta] satoshis on top. *)
Definition reserve_kept (cv h_sat delta : Z) (cons : ChannelConstraints) (s : Z) : Prop :=
  if counterparty_selected_channel_reserve_satoshis cons =? 0 then delta <= h_sat - s
  else match get_v2_channel_reserve_satoshis (cv - s) (holder_dust_limit_satoshis cons) false with
       | Ok reserve => reserve + delta <= h_sat - s
       | Err _ => False
       end.

(** The fee a funder keeps in reserve: one more HTLC at the spiked feerate. *)
Definition splice_delta (outb : bool) (n : bool -> Z) (feerate : Z) (ct : ChannelTypeFeatures) : Z :=
  if outb then commit_fee (spiked_of feerate ct) (Z.max (n true) (n false) + 1) ct else 0.

Record splice_allowed (outb : bool) (cv h c : Z) (n : bool -> Z) (feerate : Z) (cons : ChannelConstraints)
    (ct : ChannelTypeFeatures) (s : Z) : Prop := {
  splice_balance : s <= h / 1000;
  splice_reserve : reserve_kept cv (h / 1000) (splice_delta outb n feerate ct) cons s;
  splice_output local : has_output outb (h - s * 1000) c feerate (n local) (dust_limit_of local cons) ct = true;
  splice_channel : MIN_CHANNEL_VALUE_SATOSHIS <= cv - s;
}.

(** ** The reserve *)

Definition reserve_maximum (cv h_sat delta : Z) (cons : ChannelConstraints) : Z :=
  if counterparty_selected_channel_reserve_satoshis cons =? 0 then Z.max 0 (h_sat - delta)
  else Z.min (Z.max 0 (Z.max 0 (Z.max 0 (h_sat * 100 + 100 - delta * 100) - cv) - 1) / 99)
             (Z.max 0 (Z.max 0 (h_sat - holder_dust_limit_satoshis cons) - delta)).

(** The largest amount whose percentage inequality holds is the quotient. *)
Lemma reserve_maximum_exact cv h_sat delta cons s :
  0 <= h_sat <= cv -> 0 <= delta -> 0 < holder_dust_limit_satoshis cons -> 1 <= s ->
  s <= reserve_maximum cv h_sat delta cons <-> s <= h_sat /\ reserve_kept cv h_sat delta cons s.
Proof.
  intros Hh Hd Hdust Hs. unfold reserve_maximum, reserve_kept, get_v2_channel_reserve_satoshis.
  destruct (counterparty_selected_channel_reserve_satoshis cons =? 0); [lia|].
  set (d := holder_dust_limit_satoshis cons) in *.
  destruct (Z.ltb_spec (cv - s) d) as [Hlt|Hge]; [split; [lia|by intros [_ []]]|].
  split; dlia.
Qed.

(** ** Keeping an output *)

Section trim.
Context (outb : bool) (h c feerate : Z) (ct : ChannelTypeFeatures).
Context (Hf : fits 32 feerate) (Hh : 0 <= h <= TOTAL_BITCOIN_SUPPLY_SATOSHIS * 1000) (Hc : 0 <= c).

Definition trim_splice_out (n dust m : Z) : Z :=
  if negb (has_output outb (saturating_sub h (m * 1000)%u64) c feerate n dust ct)
  then saturating_sub (h / 1000)
         (if outb then saturating_add 64 dust (commit_tx_fee_sat feerate 0 ct) else dust)
  else m.

(** The trimmed maximum admits exactly the amounts that leave an output. *)
Lemma trim_exact n dust m s : 0 <= n <= count_bound -> 0 < dust <= TOTAL_BITCOIN_SUPPLY_SATOSHIS ->
  1 <= s -> 0 <= m <= h / 1000 ->
  s <= trim_splice_out n dust m <->
  s <= m /\ has_output outb (h - s * 1000) c feerate n dust ct = true.
Proof.
  intros Hn Hd Hs Hm. unfold TOTAL_BITCOIN_SUPPLY_SATOSHIS in *.
  assert (forall x, 0 <= x <= h / 1000 -> has_output outb (h - x * 1000) c feerate n dust ct = true <->
            output_left outb (h - x * 1000) c (commit_fee feerate n ct) n dust ct) as Hspec.
  { intros x Hx. apply has_output_spec; unfold TOTAL_BITCOIN_SUPPLY_SATOSHIS; try done; dlia. }
  unfold trim_splice_out. rewrite commit_tx_fee_sat_exact by (done || unfold count_bound; lia).
  pose proof (commit_fee_range feerate 0 ct Hf ltac:(unfold count_bound; lia)) as Hfee.
  unfold saturating_add, umax.
  assert (saturating_sub h (m * 1000)%u64 = h - m * 1000) as ->.
  { unfold saturating_sub. rewrite wrapping_small by (unfold fits; dlia). dlia. }
  destruct (has_output outb (h - m * 1000) c feerate n dust ct) eqn:Ho; cbn [negb].
  - apply Hspec in Ho; [|lia]. split; [|by intros []]. intros Hsm. split; [done|]. apply Hspec; [lia|].
    eapply output_left_mono; [|exact Ho]. lia.
  - assert (~ output_left outb (h - m * 1000) c (commit_fee feerate n ct) n dust ct) as Hno
      by (rewrite <- Hspec by lia; by rewrite Ho).
    assert (n = 0) as -> by (unfold output_left in Hno; destruct (decide (n = 0)); tauto).
    unfold output_left in *. split.
    + unfold saturating_sub. intros Hle. split; [destruct outb; dlia|]. apply Hspec; [destruct outb; dlia|].
      right; right; left. destruct outb; dlia.
    + intros [Hsm Hout]. apply Hspec in Hout; [|lia].
      assert (dust * 1000 <= h - s * 1000 - (if outb then commit_fee feerate 0 ct * 1000 else 0)) as Hbal.
      { destruct Hout as [H|[H|[H|H]]]; [tauto|tauto|destruct outb; lia|tauto]. }
      unfold saturating_sub. destruct outb; dlia.
Qed.

Lemma trim_range n dust m : 0 <= n <= count_bound -> 0 < dust <= TOTAL_BITCOIN_SUPPLY_SATOSHIS ->
  0 <= m <= h / 1000 -> 0 <= trim_splice_out n dust m <= m.
Proof.
  intros Hn Hd Hm. assert (0 <= trim_splice_out n dust m) as H0.
  { unfold trim_splice_out. destruct (negb _); [apply saturating_sub_nonneg|lia]. }
  split; [done|]. destruct (Z.le_gt_cases (trim_splice_out n dust m) 0); [lia|].
  apply (trim_exact n dust m (trim_splice_out n dust m)); (done || lia).
Qed.
End trim.

(** ** The announced maximum *)

Lemma splice_maximum_exact outb cv h c (n : bool -> Z) feerate cons ct s :
  constraints_bounded cons -> fits 32 feerate -> (forall local, 0 <= n local <= count_bound - 4) ->
  0 <= cv <= TOTAL_BITCOIN_SUPPLY_SATOSHIS -> 0 <= h <= cv * 1000 -> 0 <= c -> 1 <= s ->
  s <= get_next_splice_out_maximum_sat outb cv h c (n true) (n false) feerate (spiked_of feerate ct) cons ct <->
  splice_allowed outb cv h c n feerate cons ct s.
Proof.
  intros [Hhd Hcd _ _] Hf Hn Hcv Hh Hc Hs. destruct (spiked_of_fits feerate ct Hf) as [Hsf _].
  assert (0 <= h <= TOTAL_BITCOIN_SUPPLY_SATOSHIS * 1000) as Hh' by lia.
  pose proof (Hn true) as Hnt. pose proof (Hn false) as Hnf.
  unfold get_next_splice_out_maximum_sat. cbn zeta.
  set (delta := if outb then commit_tx_fee_sat _ _ _ else 0).
  assert (delta = splice_delta outb n feerate ct /\ 0 <= delta < 2 ^ 46) as [Hde Hdr].
  { unfold delta, splice_delta. destruct outb; [|lia]. unfold count_bound in *.
    rewrite wrapping_small by (unfold fits; lia). rewrite commit_tx_fee_sat_exact by (done || unfold count_bound; lia).
    split; [done|]. apply commit_fee_range; [done|unfold count_bound; lia]. }
  set (m0 := if negb (counterparty_selected_channel_reserve_satoshis cons =? 0) then _ else _).
  assert (m0 = reserve_maximum cv (h / 1000) delta cons) as Hm0.
  { unfold m0, reserve_maximum, saturating_add, saturating_mul, saturating_sub, umax, TOTAL_BITCOIN_SUPPLY_SATOSHIS in *.
    rewrite !(Z.min_l _ (2 ^ 64 - 1)) by dlia. by destruct (counterparty_selected_channel_reserve_satoshis cons =? 0). }
  fold (trim_splice_out outb h c feerate ct (n true) (holder_dust_limit_satoshis cons) m0).
  set (m1 := trim_splice_out _ _ _ _ _ (n true) _ m0).
  fold (trim_splice_out outb h c feerate ct (n false) (counterparty_dust_limit_satoshis cons) m1).
  set (m2 := trim_splice_out _ _ _ _ _ (n false) _ m1).
  assert (0 <= m0 <= h / 1000) as Hr0.
  { rewrite Hm0. unfold reserve_maximum. destruct (_ =? 0); dlia. }
  assert (0 <= m1 <= m0) as Hr1 by (apply trim_range; (done || lia)).
  assert (0 <= m2 <= m1) as Hr2 by (apply trim_range; (done || lia)).
  rewrite (wrapping_small 64 (m2 + _)) by (unfold fits, MIN_CHANNEL_VALUE_SATOSHIS, TOTAL_BITCOIN_SUPPLY_SATOSHIS in *; dlia).
  assert (s <= (if cv <? m2 + MIN_CHANNEL_VALUE_SATOSHIS then saturating_sub cv MIN_CHANNEL_VALUE_SATOSHIS else m2)
          <-> s <= m2 /\ MIN_CHANNEL_VALUE_SATOSHIS <= cv - s) as ->.
  { unfold saturating_sub. destruct (Z.ltb_spec cv (m2 + MIN_CHANNEL_VALUE_SATOSHIS)); lia. }
  unfold m2. rewrite trim_exact by (done || lia). unfold m1. rewrite trim_exact by (done || lia).
  rewrite Hm0, reserve_maximum_exact by (done || dlia). rewrite Hde.
  split; [intros ((([? ?] & ?) & ?) & ?); split; try done; by intros [|]|].
  intros [H1 H2 H3 H4]. pose proof (H3 true). pose proof (H3 false). by split_and!.
Qed.

(** C30: the announced splice-out maximum is exact.  A positive amount is within
    it precisely when, with that amount taken out, the holder keeps the reserve of
    the smaller channel (the larger of 1% of it and the dust limit; nothing if the
    channel has no reserve) plus, as the funder, the fee of one more HTLC at the
    spiked feerate, both commitments keep an output, and the channel keeps its
    minimal value.  So the maximum is neither unsafe nor too small by a satoshi. *)
Theorem splice_out_maximum_exact outb cv vth pend feerate lim maxdust cons ct ab s :
  channel_sane outb cv vth pend feerate cons ct ->
  get_available_balances outb cv vth pend feerate lim maxdust cons ct = Return ab -> 1 <= s ->
  s <= next_splice_out_maximum_sat ab <->
  splice_allowed outb cv (holder_before_fee outb vth pend ct) (counterparty_before_fee outb cv vth pend ct)
    (fun local => nondust_count local feerate (dust_limit_of local cons) ct pend) feerate cons ct s.
Proof.
  intros Hs Hget H1.
  destruct (balances_steps outb cv vth pend feerate lim maxdust cons ct Hs) as (ab' & cap0 & cap1 & mn1 & e & Hget' & Hst).
  rewrite Hget in Hget'. injection Hget' as <-. rewrite (step_splice _ _ _ _ _ _ _ _ _ _ _ _ _ _ Hst).
  pose proof (sane_bounds _ _ _ _ _ _ _ Hs true) as [Hcv _ Hf _ Ha Ht Hc].
  pose proof (before_fee_nonneg _ _ _ _ _ _ _ Hs) as [Hh Hcc].
  pose proof (possible_split _ _ _ _ _ _ _ _ _ _ (sane_possible _ _ _ _ _ _ _ Hs true)).
  pose proof (total_anchors_range ct). destruct (htlcs_value_exact true pend Ha Ht) as [_ Ho].
  apply (splice_maximum_exact outb cv _ _
    (fun local => nondust_count local feerate (dust_limit_of local cons) ct pend)); try done.
  - apply (sane_cons _ _ _ _ _ _ _ Hs).
  - intros local. pose proof (nondust_count_range local feerate (dust_limit_of local cons) ct pend). lia.
  - split; [done|]. unfold holder_before_fee in *. destruct outb; lia.
Qed.

Lemma splice_out_maximum_exact_witness :
  splice_allowed true 1000000 (holder_before_fee true 600000000 example_pending only_static_remote_key)
    (counterparty_before_fee true 1000000 600000000 example_pending only_static_remote_key)
    (fun local => nondust_count local 2500 (dust_limit_of local example_constraints) only_static_remote_key example_pending)
    2500 example_constraints only_static_remote_key 500000.
Proof.
  apply (splice_out_maximum_exact true 1000000 600000000 example_pending 2500 None 5000000 example_constraints
    only_static_remote_key example_available 500000).
  - exact example_channel_sane.
  - apply returned_eq. vm_compute. reflexivity.
  - lia.
  - vm_compute. discriminate.
Defined.
