(* ===== verification/InteractiveTx.v ===== *)
(** * Interactive transaction construction (lightning/src/ln/interactivetxs.rs)

    The inputs and outputs two peers contribute to a transaction, the negotiation
    context that collects them message by message, and the transaction built from
    it.  The [HashMap]s are finite maps whose iteration order is the class
    [HashOrder]; the script and transaction tests of the bitcoin crate are the
    class [TxLib]. *)

From Stdlib Require Import ZArith Lia Bool.
From stdpp Require Import gmap.
From S2P Require Import Prelude.
From S2P Require Import Features.
From S2P Require Import ChanUtils.
From S2P Require Import Keys.
From S2P Require Import Order.
From S2P Require Import Scripts.
From S2P Require Import CommitmentTx.
From S2P Require Import TxBuilder.

Local Open Scope Z_scope.

(** ** What the code uses of its libraries *)

Class TxLib := {
  (** [Script::is_p2wpkh], [is_p2wsh], [is_p2tr], [is_witness_program] *)
  is_p2wpkh : bytes -> bool;
  is_p2wsh : bytes -> bool;
  is_p2tr : bytes -> bool;
  is_witness_program : bytes -> bool;
  (** [Script::witness_version], as a number *)
  witness_version : bytes -> option Z;
  (** [Script::minimal_non_dust] *)
  minimal_non_dust : bytes -> Z;
  (** the number of bytes [ScriptBuf::consensus_encode] writes *)
  consensus_encode_len : bytes -> Z;
  (** [Transaction::weight] *)
  tx_weight : Transaction -> Z;
  (** [policy::MAX_STANDARD_TX_WEIGHT], [secp256k1::constants::SCHNORR_SIGNATURE_SIZE] *)
  MAX_STANDARD_TX_WEIGHT : Z;
  SCHNORR_SIGNATURE_SIZE : Z;
}.

Class TxLibLaws `{TxLib} : Prop := {
  max_standard_weight : MAX_STANDARD_TX_WEIGHT = 400000;
}.

(** The order in which a [HashMap] yields its entries is not specified. *)
Class HashOrder := { hash_iter : forall {V}, gmap Z V -> list (Z * V) }.
Class HashOrderLaws `{HashOrder} : Prop := {
  hash_iter_perm {V} (m : gmap Z V) : hash_iter m ≡ₚ map_to_list m;
}.

Definition hash_values `{HashOrder} {V} (m : gmap Z V) : list V := (hash_iter m).*2.

#[export] Instance OutPoint_countable : Countable OutPoint.
Proof.
  refine (inj_countable' (fun o => (op_txid o, vout o)) (fun p => mkOutPoint p.1 p.2) _). by intros [].
Defined.

(** ** Constants *)

Definition MAX_RECEIVED_TX_ADD_INPUT_COUNT : Z := 4096.
Definition MAX_RECEIVED_TX_ADD_OUTPUT_COUNT : Z := 4096.
Definition MAX_INPUTS_OUTPUTS_COUNT : Z := 252.
Definition TX_COMMON_FIELDS_WEIGHT : Z := (4 + 4 + 1 + 1) * WITNESS_SCALE_FACTOR + 2.
Definition P2WPKH_WITNESS_WEIGHT : Z := 1 + 1 + MAX_STANDARD_SIGNATURE_SIZE + 1 + COMPRESSED_PUBLIC_KEY_SIZE.
Definition P2TR_KEY_PATH_WITNESS_WEIGHT `{TxLib} : Z := 1 + 1 + SCHNORR_SIGNATURE_SIZE.
Definition P2WPKH_INPUT_WEIGHT_LOWER_BOUND : Z :=
  BASE_INPUT_WEIGHT + EMPTY_SCRIPT_SIG_WEIGHT + P2WPKH_WITNESS_WEIGHT.
Definition P2WSH_INPUT_WEIGHT_LOWER_BOUND : Z := P2WPKH_INPUT_WEIGHT_LOWER_BOUND.
Definition P2TR_INPUT_WEIGHT_LOWER_BOUND `{TxLib} : Z :=
  BASE_INPUT_WEIGHT + EMPTY_SCRIPT_SIG_WEIGHT + P2TR_KEY_PATH_WITNESS_WEIGHT.
Definition UNKNOWN_SEGWIT_VERSION_INPUT_WEIGHT_LOWER_BOUND : Z := P2WPKH_INPUT_WEIGHT_LOWER_BOUND.
Definition REMOTE_FEE_TOLERANCE_PERCENT : Z := 95.

(** [fee_for_weight] of chaininterface.rs *)
Definition fee_for_weight (feerate_sat_per_1000_weight weight : Z) : Z :=
  let fee := (feerate_sat_per_1000_weight * weight)%u64 in
  fee / 1000 + (if fee mod 1000 =? 0 then 0 else 1).

(** ** Serial ids *)

Definition is_for_initiator (serial_id : Z) : bool := serial_id mod 2 =? 0.
Definition is_for_non_initiator (serial_id : Z) : bool := negb (is_for_initiator serial_id).
Definition is_serial_id_valid_for_counterparty (holder_is_initiator : bool) (serial_id : Z) : bool :=
  Bool.eqb holder_is_initiator (is_for_non_initiator serial_id).

Inductive AbortReason : Type :=
| InvalidStateTransition | UnexpectedCounterpartyMessage | ReceivedTooManyTxAddInputs
| ReceivedTooManyTxAddOutputs | IncorrectInputSequenceValue | IncorrectSerialIdParity | SerialIdUnknown
| DuplicateSerialId | PrevTxOutInvalid | ExceededMaximumSatsAllowed | ExceededNumberOfInputsOrOutputs
| TransactionTooLarge | BelowDustLimit | InvalidOutputScript | InsufficientFees
| OutputsValueExceedsInputsValue | InvalidTx | MissingFundingInput | UnexpectedFundingInput | MissingPrevTx
| UnexpectedPrevTx | MissingFundingOutput | DuplicateFundingOutput | DuplicateFundingInput
| InsufficientRbfFeerate | NegotiationInProgress | FeeRateTooHigh | ManualIntervention
| InvalidContribution (text : bytes) | RbfUnavailable (text : bytes) | InternalError (text : bytes).

(** ** Messages (lightning/src/ln/msgs.rs) *)

Record TxAddInput : Type := mkTxAddInput {
  ai_channel_id : bytes;
  ai_serial_id : Z;
  prevtx : option Transaction;
  prevtx_out : Z;
  ai_sequence : Z;
  shared_input_txid : option bytes;
}.
Record TxAddOutput : Type := mkTxAddOutput {
  ao_channel_id : bytes;
  ao_serial_id : Z;
  sats : Z;
  script : bytes;
}.
Record TxRemoveInput : Type := mkTxRemoveInput { ri_channel_id : bytes; ri_serial_id : Z }.
Record TxRemoveOutput : Type := mkTxRemoveOutput { ro_channel_id : bytes; ro_serial_id : Z }.
Record TxComplete : Type := mkTxComplete { tc_channel_id : bytes }.

(** ** Contributed inputs and outputs *)

Inductive AddingRole : Type := Local | Remote.

Record SingleOwnedInput : Type := mkSingleInput {
  single_input : TxIn;
  prev_tx : Transaction;
  single_prev_output : TxOut;
  single_satisfaction_weight : Z;
}.
Record SharedOwnedInput : Type := mkSharedInput {
  shared_input_txin : TxIn;
  shared_prev_output : TxOut;
  input_local_owned : Z;
  holder_sig_first : bool;
  shared_witness_script : bytes;
}.
Inductive InputOwned : Type :=
| InputSingle (single : SingleOwnedInput)
| InputShared (shared : SharedOwnedInput).

Definition input_remote_owned (self : SharedOwnedInput) : Z :=
  saturating_sub (value (shared_prev_output self)) (input_local_owned self).

Definition tx_in (self : InputOwned) : TxIn :=
  match self with InputSingle single => single_input single | InputShared shared => shared_input_txin shared end.
Definition input_prev_output (self : InputOwned) : TxOut :=
  match self with InputSingle single => single_prev_output single | InputShared shared => shared_prev_output shared end.
Definition into_tx_in_with_prev_output (self : InputOwned) : TxIn * TxOut :=
  match self with
  | InputSingle single => (single_input single, single_prev_output single)
  | InputShared shared => (shared_input_txin shared, shared_prev_output shared)
  end.
Definition input_value (self : InputOwned) : Z :=
  match self with
  | InputSingle single => value (single_prev_output single)
  | InputShared shared => value (shared_prev_output shared)
  end.
Definition input_is_shared (self : InputOwned) : bool :=
  match self with InputSingle _ => false | InputShared _ => true end.
Definition input_owned_local_value (self : InputOwned) (local_role : AddingRole) : Z :=
  match self with
  | InputSingle single => match local_role with Local => value (single_prev_output single) | Remote => 0 end
  | InputShared shared => input_local_owned shared
  end.
Definition input_owned_remote_value (self : InputOwned) (local_role : AddingRole) : Z :=
  match self with
  | InputSingle single => match local_role with Local => 0 | Remote => value (single_prev_output single) end
  | InputShared shared => input_remote_owned shared
  end.
(** With the default feature [grind_signatures]. *)
Definition satisfaction_weight (self : InputOwned) : Z :=
  match self with
  | InputSingle single => single_satisfaction_weight single
  | InputShared _ => EMPTY_SCRIPT_SIG_WEIGHT + FUNDING_TRANSACTION_WITNESS_WEIGHT - 1
  end.

Record InteractiveTxInput : Type := mkInteractiveInput {
  input_serial_id : Z;
  input_added_by : AddingRole;
  itx_input : InputOwned;
}.
Definition input_local_value (self : InteractiveTxInput) : Z :=
  input_owned_local_value (itx_input self) (input_added_by self).
Definition input_remote_value (self : InteractiveTxInput) : Z :=
  input_owned_remote_value (itx_input self) (input_added_by self).

Record SharedOwnedOutput : Type := mkSharedOutput { shared_tx_out : TxOut; output_local_owned : Z }.
Inductive OutputOwned : Type :=
| OutputSingle (tx_out : TxOut)
| OutputShared (output : SharedOwnedOutput).

Definition output_remote_owned (self : SharedOwnedOutput) : Z :=
  saturating_sub (value (shared_tx_out self)) (output_local_owned self).
Definition tx_out (self : OutputOwned) : TxOut :=
  match self with OutputSingle tx_out => tx_out | OutputShared output => shared_tx_out output end.
Definition output_is_shared (self : OutputOwned) : bool :=
  match self with OutputSingle _ => false | OutputShared _ => true end.
Definition output_owned_local_value (self : OutputOwned) (local_role : AddingRole) : Z :=
  match self with
  | OutputSingle tx_out => match local_role with Local => value tx_out | Remote => 0 end
  | OutputShared output => output_local_owned output
  end.
Definition output_owned_remote_value (self : OutputOwned) (local_role : AddingRole) : Z :=
  match self with
  | OutputSingle tx_out => match local_role with Local => 0 | Remote => value tx_out end
  | OutputShared output => output_remote_owned output
  end.

Record InteractiveTxOutput : Type := mkInteractiveOutput {
  output_serial_id : Z;
  output_added_by : AddingRole;
  itx_output : OutputOwned;
}.
Definition output_value (self : InteractiveTxOutput) : Z := value (tx_out (itx_output self)).
Definition output_local_value (self : InteractiveTxOutput) : Z :=
  output_owned_local_value (itx_output self) (output_added_by self).
Definition output_remote_value (self : InteractiveTxOutput) : Z :=
  output_owned_remote_value (itx_output self) (output_added_by self).

(** ** The negotiation context *)

Section context.
Context {bitcoin : Bitcoin} {txlib : TxLib} {txhash : TxHash} {order : HashOrder}.

Record NegotiationContext : Type := mkContext {
  holder_node_id : PublicKey;
  counterparty_node_id : PublicKey;
  holder_is_initiator : bool;
  received_tx_add_input_count : Z;
  received_tx_add_output_count : Z;
  inputs : gmap Z InteractiveTxInput;
  shared_funding_input : option SharedOwnedInput;
  shared_funding_output : SharedOwnedOutput;
  prevtx_outpoints : gset OutPoint;
  outputs : gmap Z InteractiveTxOutput;
  tx_locktime : Z;
  feerate_sat_per_kw : Z;
}.

(** Field updates of [&mut self]. *)
Definition set_inputs (c : NegotiationContext) (n : Z) (i : gmap Z InteractiveTxInput) (p : gset OutPoint)
    : NegotiationContext :=
  mkContext (holder_node_id c) (counterparty_node_id c) (holder_is_initiator c) n
    (received_tx_add_output_count c) i (shared_funding_input c) (shared_funding_output c) p (outputs c)
    (tx_locktime c) (feerate_sat_per_kw c).
Definition set_outputs (c : NegotiationContext) (n : Z) (o : gmap Z InteractiveTxOutput) : NegotiationContext :=
  mkContext (holder_node_id c) (counterparty_node_id c) (holder_is_initiator c)
    (received_tx_add_input_count c) n (inputs c) (shared_funding_input c) (shared_funding_output c)
    (prevtx_outpoints c) o (tx_locktime c) (feerate_sat_per_kw c).

Definition context_new (holder_node_id counterparty_node_id : PublicKey) (holder_is_initiator : bool)
    (shared_funding_input : option SharedOwnedInput) (shared_funding_output : SharedOwnedOutput)
    (tx_locktime feerate_sat_per_kw : Z) : NegotiationContext :=
  mkContext holder_node_id counterparty_node_id holder_is_initiator 0 0 ∅ shared_funding_input
    shared_funding_output ∅ ∅ tx_locktime feerate_sat_per_kw.

Definition valid_for_counterparty (self : NegotiationContext) (serial_id : Z) : bool :=
  is_serial_id_valid_for_counterparty (holder_is_initiator self) serial_id.

Definition estimate_input_satisfaction_weight (prev_output : TxOut) : Z :=
  (if is_p2wpkh (script_pubkey prev_output) then P2WPKH_INPUT_WEIGHT_LOWER_BOUND
   else if is_p2wsh (script_pubkey prev_output) then P2WSH_INPUT_WEIGHT_LOWER_BOUND
   else if is_p2tr (script_pubkey prev_output) then P2TR_INPUT_WEIGHT_LOWER_BOUND
   else UNKNOWN_SEGWIT_VERSION_INPUT_WEIGHT_LOWER_BOUND) - BASE_INPUT_WEIGHT.
Definition get_output_weight (script_pubkey : bytes) : Z :=
  ((8 + consensus_encode_len script_pubkey) * WITNESS_SCALE_FACTOR)%u64.

Definition remote_inputs_value (self : NegotiationContext) : Z :=
  foldl (fun acc '(_, input) => saturating_add 64 acc (input_remote_value input)) 0 (hash_iter (inputs self)).
Definition remote_outputs_value (self : NegotiationContext) : Z :=
  foldl (fun acc '(_, output) => saturating_add 64 acc (output_remote_value output)) 0 (hash_iter (outputs self)).
Definition remote_inputs_weight (self : NegotiationContext) : Z :=
  foldl (fun weight '(_, input) =>
      saturating_add 64 (saturating_add 64 weight BASE_INPUT_WEIGHT) (satisfaction_weight (itx_input input)))
    0 (List.filter (fun '(serial_id, _) => valid_for_counterparty self serial_id) (hash_iter (inputs self))).
Definition remote_outputs_weight (self : NegotiationContext) : Z :=
  foldl (fun weight '(_, output) =>
      saturating_add 64 weight (get_output_weight (script_pubkey (tx_out (itx_output output)))))
    0 (List.filter (fun '(serial_id, _) => valid_for_counterparty self serial_id) (hash_iter (outputs self))).
Definition remote_weight_contributed (self : NegotiationContext) : Z :=
  saturating_add 64 (saturating_add 64 (remote_inputs_weight self) (remote_outputs_weight self))
    (if negb (holder_is_initiator self) then TX_COMMON_FIELDS_WEIGHT else 0).

(** A context method that fails ends the negotiation, so that only the context
    of a success matters. *)
Definition received_tx_add_input (self : NegotiationContext) (msg : TxAddInput)
    : result AbortReason NegotiationContext :=
  if negb (valid_for_counterparty self (ai_serial_id msg)) then Err IncorrectSerialIdParity
  else
  let count := wrapping 16 (received_tx_add_input_count self + 1) in
  if MAX_RECEIVED_TX_ADD_INPUT_COUNT <? count then Err ReceivedTooManyTxAddInputs
  else if 0xFFFFFFFE <=? ai_sequence msg then Err IncorrectInputSequenceValue
  else
  '(input, prev_outpoint) ←
    match shared_input_txid msg with
    | Some shared_txid =>
        if holder_is_initiator self then Err DuplicateFundingInput
        else match prevtx msg with
        | Some _ => Err UnexpectedPrevTx
        | None =>
            match shared_funding_input self with
            | Some shared_funding_input =>
                if existsb (fun input => input_is_shared (itx_input input)) (hash_values (inputs self))
                then Err DuplicateFundingInput
                else
                let prev_outpoint := mkOutPoint shared_txid (prevtx_out msg) in
                if negb (bool_decide (prev_outpoint = previous_output (shared_input_txin shared_funding_input)))
                then Err UnexpectedFundingInput
                else Ok (InputShared shared_funding_input, prev_outpoint)
            | None => Err UnexpectedFundingInput
            end
        end
    | None =>
        match prevtx msg with
        | Some prevtx =>
            let txid := compute_txid prevtx in
            match tx_output prevtx !! Z.to_nat (prevtx_out msg) with
            | Some tx_out =>
                if negb (is_witness_program (script_pubkey tx_out)) then Err PrevTxOutInvalid
                else
                let prev_outpoint := mkOutPoint txid (prevtx_out msg) in
                let txin := mkTxIn prev_outpoint [] (ai_sequence msg) [] in
                Ok (InputSingle (mkSingleInput txin prevtx tx_out (estimate_input_satisfaction_weight tx_out)),
                    prev_outpoint)
            | None => Err PrevTxOutInvalid
            end
        | None => Err MissingPrevTx
        end
    end;
  match inputs self !! ai_serial_id msg with
  | Some _ => Err DuplicateSerialId
  | None =>
      if bool_decide (prev_outpoint ∈ prevtx_outpoints self) then Err PrevTxOutInvalid
      else Ok (set_inputs self count
                 (<[ai_serial_id msg := mkInteractiveInput (ai_serial_id msg) Remote input]> (inputs self))
                 ({[prev_outpoint]} ∪ prevtx_outpoints self))
  end.

Definition received_tx_remove_input (self : NegotiationContext) (msg : TxRemoveInput)
    : result AbortReason NegotiationContext :=
  if negb (valid_for_counterparty self (ri_serial_id msg)) then Err IncorrectSerialIdParity
  else match inputs self !! ri_serial_id msg with
  | Some _ => Ok (set_inputs self (received_tx_add_input_count self) (delete (ri_serial_id msg) (inputs self))
                    (prevtx_outpoints self))
  | None => Err SerialIdUnknown
  end.

Definition received_tx_add_output (self : NegotiationContext) (msg : TxAddOutput)
    : result AbortReason NegotiationContext :=
  if negb (valid_for_counterparty self (ao_serial_id msg)) then Err IncorrectSerialIdParity
  else
  let count := wrapping 16 (received_tx_add_output_count self + 1) in
  if MAX_RECEIVED_TX_ADD_OUTPUT_COUNT <? count then Err ReceivedTooManyTxAddOutputs
  else if sats msg <? minimal_non_dust (script msg) then Err BelowDustLimit
  else
  let outputs_value :=
    foldl (fun acc '(_, output) => saturating_add 64 acc (output_value output)) 0 (hash_iter (outputs self)) in
  if TOTAL_BITCOIN_SUPPLY_SATOSHIS <? saturating_add 64 outputs_value (sats msg) then Err ExceededMaximumSatsAllowed
  else if negb (is_p2wpkh (script msg) || is_p2wsh (script msg) ||
                match witness_version (script msg) with Some v => 1 <=? v | None => false end)
  then Err InvalidOutputScript
  else
  let txout := mkTxOut (sats msg) (script msg) in
  output ←
    (if bool_decide (txout = shared_tx_out (shared_funding_output self)) then
       if holder_is_initiator self then Err DuplicateFundingOutput
       else if existsb (fun output => output_is_shared (itx_output output)) (hash_values (outputs self))
       then Err DuplicateFundingOutput
       else Ok (OutputShared (shared_funding_output self))
     else Ok (OutputSingle txout));
  match outputs self !! ao_serial_id msg with
  | Some _ => Err DuplicateSerialId
  | None => Ok (set_outputs self count
                  (<[ao_serial_id msg := mkInteractiveOutput (ao_serial_id msg) Remote output]> (outputs self)))
  end.

Definition received_tx_remove_output (self : NegotiationContext) (msg : TxRemoveOutput)
    : result AbortReason NegotiationContext :=
  if negb (valid_for_counterparty self (ro_serial_id msg)) then Err IncorrectSerialIdParity
  else match outputs self !! ro_serial_id msg with
  | Some _ => Ok (set_outputs self (received_tx_add_output_count self) (delete (ro_serial_id msg) (outputs self)))
  | None => Err SerialIdUnknown
  end.

Definition sent_tx_add_input (self : NegotiationContext) (msg : TxAddInput) (weight : Z)
    : result AbortReason NegotiationContext :=
  '(prev_outpoint, input) ←
    match shared_input_txid msg with
    | Some shared_input_txid =>
        let prev_outpoint := mkOutPoint shared_input_txid (prevtx_out msg) in
        match shared_funding_input self with
        | Some shared_funding_input => Ok (prev_outpoint, InputShared shared_funding_input)
        | None => Err UnexpectedFundingInput
        end
    | None =>
        match prevtx msg with
        | Some prevtx =>
            let prev_outpoint := mkOutPoint (compute_txid prevtx) (prevtx_out msg) in
            prev_output ← ok_or (tx_output prevtx !! Z.to_nat (prevtx_out msg)) PrevTxOutInvalid;
            let txin := mkTxIn prev_outpoint [] (ai_sequence msg) [] in
            Ok (prev_outpoint, InputSingle (mkSingleInput txin prevtx prev_output weight))
        | None => Err MissingPrevTx
        end
    end;
  if bool_decide (prev_outpoint ∈ prevtx_outpoints self) then Err PrevTxOutInvalid
  else Ok (set_inputs self (received_tx_add_input_count self)
             (<[ai_serial_id msg := mkInteractiveInput (ai_serial_id msg) Local input]> (inputs self))
             ({[prev_outpoint]} ∪ prevtx_outpoints self)).

Definition sent_tx_add_output (self : NegotiationContext) (msg : TxAddOutput)
    : result AbortReason NegotiationContext :=
  let txout := mkTxOut (sats msg) (script msg) in
  let output :=
    if bool_decide (txout = shared_tx_out (shared_funding_output self))
    then OutputShared (shared_funding_output self) else OutputSingle txout in
  Ok (set_outputs self (received_tx_add_output_count self)
        (<[ao_serial_id msg := mkInteractiveOutput (ao_serial_id msg) Local output]> (outputs self))).

Definition sent_tx_remove_input (self : NegotiationContext) (msg : TxRemoveInput)
    : result AbortReason NegotiationContext :=
  Ok (set_inputs self (received_tx_add_input_count self) (delete (ri_serial_id msg) (inputs self))
        (prevtx_outpoints self)).

Definition sent_tx_remove_output (self : NegotiationContext) (msg : TxRemoveOutput)
    : result AbortReason NegotiationContext :=
  Ok (set_outputs self (received_tx_add_output_count self) (delete (ro_serial_id msg) (outputs self))).

(** ** The constructed transaction *)

Record TxInMetadata : Type := mkTxInMetadata { meta_serial_id : Z; meta_prev_output : TxOut }.
Record TxOutMetadata : Type := mkTxOutMetadata { out_meta_serial_id : Z }.

Definition into_txin_and_metadata (self : InteractiveTxInput) : TxIn * TxInMetadata :=
  let '(txin, prev_output) := into_tx_in_with_prev_output (itx_input self) in
  (txin, mkTxInMetadata (input_serial_id self) prev_output).
Definition into_txout_and_metadata (self : InteractiveTxOutput) : TxOut * TxOutMetadata :=
  (tx_out (itx_output self), mkTxOutMetadata (output_serial_id self)).

Definition input_is_local (holder_is_initiator : bool) (self : TxInMetadata) : bool :=
  negb (is_serial_id_valid_for_counterparty holder_is_initiator (meta_serial_id self)).
Definition output_is_local (holder_is_initiator : bool) (self : TxOutMetadata) : bool :=
  negb (is_serial_id_valid_for_counterparty holder_is_initiator (out_meta_serial_id self)).

Record ConstructedTransaction : Type := mkConstructed {
  cons_holder_is_initiator : bool;
  input_metadata : list TxInMetadata;
  output_metadata : list TxOutMetadata;
  constructed_tx : Transaction;
  shared_input_index : option Z;
  shared_output_index : Z;
}.

(** [Iterator::position] *)
Fixpoint position {A} (f : A -> bool) (l : list A) : option nat :=
  match l with
  | [] => None
  | x :: l => if f x then Some 0%nat else S <$> position f l
  end.

Definition serial_cmp {A B} (key : B -> Z) (x y : A * B) : comparison := key x.2 ?= key y.2.

(** The transaction and its indices, before the checks. *)
Definition assemble (context : NegotiationContext) : ConstructedTransaction :=
  let ins := sort_by (serial_cmp meta_serial_id)
    (map into_txin_and_metadata (hash_values (inputs context))) in
  let outs := sort_by (serial_cmp out_meta_serial_id)
    (map into_txout_and_metadata (hash_values (outputs context))) in
  let input := ins.*1 in
  let output := outs.*1 in
  let shared_input_index :=
    shared ← shared_funding_input context;
    (fun position => wrapping 16 (Z.of_nat position)) <$>
      position (fun txin => bool_decide (previous_output txin = previous_output (shared_input_txin shared))) input in
  let shared_output_index :=
    default (umax 16) ((fun position => wrapping 16 (Z.of_nat position)) <$>
      position (fun txout => bool_decide (txout = shared_tx_out (shared_funding_output context))) output) in
  mkConstructed (holder_is_initiator context) ins.*2 outs.*2
    (mkTransaction 2 (tx_locktime context) input output) shared_input_index shared_output_index.

Definition expected_witness_weight (context : NegotiationContext) : Z :=
  foldl (fun value '(_, input) =>
      saturating_sub (saturating_add 64 value (satisfaction_weight (itx_input input))) EMPTY_SCRIPT_SIG_WEIGHT)
    0 (hash_iter (inputs context)).

(** [ConstructedTransaction::new] *)
Definition constructed_new (context : NegotiationContext) : result AbortReason ConstructedTransaction :=
  let tx := assemble context in
  if remote_inputs_value context <? remote_outputs_value context then Err OutputsValueExceedsInputsValue
  else
  let remote_fees_contributed := saturating_sub (remote_inputs_value context) (remote_outputs_value context) in
  let required_remote_contribution_fee :=
    fee_for_weight (wrapping 32 ((feerate_sat_per_kw context * REMOTE_FEE_TOLERANCE_PERCENT)%u64 / 100))
      (remote_weight_contributed context) in
  if remote_fees_contributed <? required_remote_contribution_fee then Err InsufficientFees
  else if (MAX_INPUTS_OUTPUTS_COUNT <? Z.of_nat (length (tx_input (constructed_tx tx)))) ||
          (MAX_INPUTS_OUTPUTS_COUNT <? Z.of_nat (length (tx_output (constructed_tx tx))))
  then Err ExceededNumberOfInputsOrOutputs
  else if bool_decide (is_Some (shared_funding_input context)) && bool_decide (shared_input_index tx = None)
  then Err MissingFundingInput
  else if shared_output_index tx =? umax 16 then Err MissingFundingOutput
  else
  let weight := saturating_add 64 (saturating_add 64 (tx_weight (constructed_tx tx)) SEGWIT_MARKER_FLAG_WEIGHT)
    (expected_witness_weight context) in
  if MAX_STANDARD_TX_WEIGHT <? weight then Err TransactionTooLarge
  else Ok tx.

(** The sum of [Amount]s *)
Definition local_contributed_input_value (self : ConstructedTransaction) : Z :=
  u64_sum (map (fun input => value (meta_prev_output input))
    (List.filter (input_is_local (cons_holder_is_initiator self)) (input_metadata self))).
Definition remote_contributed_input_value (self : ConstructedTransaction) : Z :=
  u64_sum (map (fun input => value (meta_prev_output input))
    (List.filter (fun input => negb (input_is_local (cons_holder_is_initiator self) input)) (input_metadata self))).
End context.

(** ** The signing session's data *)

Section machine.
Context {bitcoin : Bitcoin} {scriptlib : ScriptLib} {txlib : TxLib} {txhash : TxHash} {order : HashOrder}.

Record TxSignatures : Type := mkTxSignatures {
  ts_channel_id : bytes;
  tx_hash : bytes;
  witnesses : list (list bytes);
  ts_shared_input_signature : option Signature;
}.
Record SharedInputSignature : Type := mkSharedInputSignature {
  holder_signature_first : bool;
  witness_script : bytes;
}.
Record InteractiveTxSigningSession : Type := mkSession {
  unsigned_tx : ConstructedTransaction;
  holder_sends_tx_signatures_first : bool;
  has_received_commitment_signed : bool;
  session_shared_input_signature : option SharedInputSignature;
  session_holder_tx_signatures : option TxSignatures;
  counterparty_tx_signatures : option TxSignatures;
}.

(** ** The state machine *)

Inductive StateMachine : Type :=
| Indeterminate
| SentChangeMsg (context : NegotiationContext)
| ReceivedChangeMsg (context : NegotiationContext)
| SentTxComplete (context : NegotiationContext)
| ReceivedTxComplete (context : NegotiationContext)
| NegotiationComplete (session : InteractiveTxSigningSession)
| NegotiationAborted (reason : AbortReason).

Definition machine_new (holder_node_id counterparty_node_id : PublicKey) (feerate_sat_per_kw : Z)
    (is_initiator : bool) (tx_locktime : Z) (shared_funding_input : option SharedOwnedInput)
    (shared_funding_output : SharedOwnedOutput) : StateMachine :=
  let context := context_new holder_node_id counterparty_node_id is_initiator shared_funding_input
    shared_funding_output tx_locktime feerate_sat_per_kw in
  if is_initiator then ReceivedChangeMsg context else SentChangeMsg context.

(** The [?] of a transition: a failed one aborts the negotiation. *)
Definition or_abort {A} (r : result AbortReason A) (f : A -> StateMachine) : StateMachine :=
  match r with Ok a => f a | Err reason => NegotiationAborted reason end.

(** [define_state_transitions!(RECEIVED_MSG_STATE, ..)]: the states in which it
    is our turn to send. *)
Definition sent_transition (op : NegotiationContext -> result AbortReason NegotiationContext)
    (self : StateMachine) : StateMachine :=
  match self with
  | ReceivedChangeMsg context | ReceivedTxComplete context => or_abort (op context) SentChangeMsg
  | _ => NegotiationAborted UnexpectedCounterpartyMessage
  end.
(** [define_state_transitions!(SENT_MSG_STATE, ..)]: the states in which we wait. *)
Definition received_transition (op : NegotiationContext -> result AbortReason NegotiationContext)
    (self : StateMachine) : StateMachine :=
  match self with
  | SentChangeMsg context | SentTxComplete context => or_abort (op context) ReceivedChangeMsg
  | _ => NegotiationAborted UnexpectedCounterpartyMessage
  end.

(** The transition on the second of two consecutive [tx_complete]. *)
Definition complete_transition (context : NegotiationContext)
    : result AbortReason InteractiveTxSigningSession :=
  let shared_input_signature := (fun shared_input =>
    mkSharedInputSignature (holder_sig_first shared_input) (shared_witness_script shared_input))
      <$> shared_funding_input context in
  tx ← constructed_new context;
  let local_value := local_contributed_input_value tx in
  let remote_value := remote_contributed_input_value tx in
  let holder_first :=
    if local_value =? remote_value
    then bool_decide (slice_cmp (serialize (holder_node_id context)) (serialize (counterparty_node_id context)) = Lt)
    else local_value <? remote_value in
  Ok (mkSession tx holder_first false shared_input_signature None None).

Definition machine_sent_tx_complete (self : StateMachine) : StateMachine :=
  match self with
  | ReceivedChangeMsg context => SentTxComplete context
  | ReceivedTxComplete context => or_abort (complete_transition context) NegotiationComplete
  | _ => NegotiationAborted UnexpectedCounterpartyMessage
  end.
Definition machine_received_tx_complete (self : StateMachine) : StateMachine :=
  match self with
  | SentChangeMsg context => ReceivedTxComplete context
  | SentTxComplete context => or_abort (complete_transition context) NegotiationComplete
  | _ => NegotiationAborted UnexpectedCounterpartyMessage
  end.

(** The messages of the protocol, and the transition each causes in the machine
    of the peer that sends it and of the peer that receives it.  The weight goes
    with an input one sends. *)
Inductive Message : Type :=
| MAddInput (msg : TxAddInput)
| MRemoveInput (msg : TxRemoveInput)
| MAddOutput (msg : TxAddOutput)
| MRemoveOutput (msg : TxRemoveOutput)
| MComplete (msg : TxComplete).

Definition machine_sent (msg : Message) (weight : Z) (self : StateMachine) : StateMachine :=
  match msg with
  | MAddInput msg => sent_transition (fun c => sent_tx_add_input c msg weight) self
  | MRemoveInput msg => sent_transition (fun c => sent_tx_remove_input c msg) self
  | MAddOutput msg => sent_transition (fun c => sent_tx_add_output c msg) self
  | MRemoveOutput msg => sent_transition (fun c => sent_tx_remove_output c msg) self
  | MComplete _ => machine_sent_tx_complete self
  end.
Definition machine_received (msg : Message) (self : StateMachine) : StateMachine :=
  match msg with
  | MAddInput msg => received_transition (fun c => received_tx_add_input c msg) self
  | MRemoveInput msg => received_transition (fun c => received_tx_remove_input c msg) self
  | MAddOutput msg => received_transition (fun c => received_tx_add_output c msg) self
  | MRemoveOutput msg => received_transition (fun c => received_tx_remove_output c msg) self
  | MComplete _ => machine_received_tx_complete self
  end.

(** ** The constructor: a peer that contributes given inputs and outputs *)

Inductive InteractiveTxMessageSend : Type :=
| SendTxAddInput (msg : TxAddInput)
| SendTxAddOutput (msg : TxAddOutput)
| SendTxComplete (msg : TxComplete).

Inductive HandleTxCompleteValue : Type :=
| SendTxMessage (msg : InteractiveTxMessageSend)
| HandledNegotiationComplete (msg : option InteractiveTxMessageSend) (funding_outpoint : OutPoint).

Record InteractiveTxConstructor : Type := mkConstructor {
  state_machine : StateMachine;
  ctor_is_initiator : bool;
  ctor_channel_id : bytes;
  inputs_to_contribute : list (Z * InputOwned);
  outputs_to_contribute : list (Z * OutputOwned);
  next_input_index : option nat;
  next_output_index : option nat;
}.

Definition set_machine (c : InteractiveTxConstructor) (s : StateMachine) : InteractiveTxConstructor :=
  mkConstructor s (ctor_is_initiator c) (ctor_channel_id c) (inputs_to_contribute c) (outputs_to_contribute c)
    (next_input_index c) (next_output_index c).
Definition set_next (c : InteractiveTxConstructor) (i o : option nat) : InteractiveTxConstructor :=
  mkConstructor (state_machine c) (ctor_is_initiator c) (ctor_channel_id c) (inputs_to_contribute c)
    (outputs_to_contribute c) i o.

(** [do_state_transition!] *)
Definition do_state_transition (transition : StateMachine -> StateMachine)
    : M InteractiveTxConstructor AbortReason unit :=
  fun self =>
    let self := set_machine self (transition (state_machine self)) in
    match state_machine self with
    | NegotiationAborted reason => (Err reason, self)
    | _ => (Ok tt, self)
    end.

Definition next_index {A} (index : option nat) (l : list A) : option nat :=
  index ← index; if decide (S index < length l)%nat then Some (S index) else None.

Definition next_input_to_contribute : M InteractiveTxConstructor AbortReason (option (Z * InputOwned)) :=
  fun self =>
    (Ok (index ← next_input_index self; inputs_to_contribute self !! index),
     set_next self (next_index (next_input_index self) (inputs_to_contribute self)) (next_output_index self)).
Definition next_output_to_contribute : M InteractiveTxConstructor AbortReason (option (Z * OutputOwned)) :=
  fun self =>
    (Ok (index ← next_output_index self; outputs_to_contribute self !! index),
     set_next self (next_input_index self) (next_index (next_output_index self) (outputs_to_contribute self))).

Definition input_message (channel_id : bytes) (serial_id : Z) (input : InputOwned) : TxAddInput :=
  match input with
  | InputSingle single =>
      mkTxAddInput channel_id serial_id (Some (prev_tx single)) (vout (previous_output (single_input single)))
        (sequence (single_input single)) None
  | InputShared shared =>
      mkTxAddInput channel_id serial_id None (vout (previous_output (shared_input_txin shared)))
        (sequence (shared_input_txin shared)) (Some (op_txid (previous_output (shared_input_txin shared))))
  end.
Definition output_message (channel_id : bytes) (serial_id : Z) (output : OutputOwned) : TxAddOutput :=
  mkTxAddOutput channel_id serial_id (value (tx_out output)) (script_pubkey (tx_out output)).

Definition maybe_send_message : M InteractiveTxConstructor AbortReason InteractiveTxMessageSend :=
  self ← get_state;
  let channel_id := ctor_channel_id self in
  next ← next_input_to_contribute;
  match next with
  | Some (serial_id, input) =>
      let msg := input_message channel_id serial_id input in
      _ ← do_state_transition (machine_sent (MAddInput msg) (satisfaction_weight input));
      mret (SendTxAddInput msg)
  | None =>
      next ← next_output_to_contribute;
      match next with
      | Some (serial_id, output) =>
          let msg := output_message channel_id serial_id output in
          _ ← do_state_transition (machine_sent (MAddOutput msg) 0);
          mret (SendTxAddOutput msg)
      | None =>
          let msg := mkTxComplete channel_id in
          _ ← do_state_transition (machine_sent (MComplete msg) 0);
          mret (SendTxComplete msg)
      end
  end.

(** [handle_tx_add_input], [handle_tx_remove_input], [handle_tx_add_output] and
    [handle_tx_remove_output] *)
Definition handle_change (msg : Message) : M InteractiveTxConstructor AbortReason InteractiveTxMessageSend :=
  _ ← do_state_transition (machine_received msg);
  maybe_send_message.
Definition handle_tx_add_input (msg : TxAddInput) := handle_change (MAddInput msg).
Definition handle_tx_remove_input (msg : TxRemoveInput) := handle_change (MRemoveInput msg).
Definition handle_tx_add_output (msg : TxAddOutput) := handle_change (MAddOutput msg).
Definition handle_tx_remove_output (msg : TxRemoveOutput) := handle_change (MRemoveOutput msg).

Definition constructed_funding_outpoint (self : ConstructedTransaction) : OutPoint :=
  mkOutPoint (compute_txid (constructed_tx self)) (shared_output_index self).

Definition handle_tx_complete (msg : TxComplete) : M InteractiveTxConstructor AbortReason HandleTxCompleteValue :=
  _ ← do_state_transition (machine_received (MComplete msg));
  self ← get_state;
  match state_machine self with
  | ReceivedTxComplete _ =>
      msg_send ← maybe_send_message;
      self ← get_state;
      match state_machine self with
      | NegotiationComplete session =>
          mret (HandledNegotiationComplete (Some msg_send) (constructed_funding_outpoint (unsigned_tx session)))
      | SentChangeMsg _ => mret (SendTxMessage msg_send)
      | _ => throw InvalidStateTransition
      end
  | NegotiationComplete session =>
      mret (HandledNegotiationComplete None (constructed_funding_outpoint (unsigned_tx session)))
  | _ => throw InvalidStateTransition
  end.

Definition into_signing_session (self : InteractiveTxConstructor) : run InteractiveTxSigningSession :=
  match state_machine self with NegotiationComplete s => Return s | _ => Panic end.

(** [contributed_inputs] and [contributed_outputs] of the constructor *)
Definition ctor_contributed_inputs (self : InteractiveTxConstructor) : list OutPoint :=
  map (fun '(_, input) => previous_output (tx_in input))
    (List.filter (fun '(_, input) => negb (input_is_shared input)) (inputs_to_contribute self)).
Definition ctor_contributed_outputs (self : InteractiveTxConstructor) : list bytes :=
  map (fun '(_, output) => script_pubkey (tx_out output))
    (List.filter (fun '(_, output) => negb (output_is_shared output)) (outputs_to_contribute self)).

(** ** Making a constructor *)

(** [EntropySource::get_secure_random_bytes], the source threaded. *)
Section entropy.
Context {ES : Type} (get_secure_random_bytes : ES -> bytes * ES).

Definition from_be_u64 (l : bytes) : Z := foldl (fun acc b => acc * 256 + b) 0 l.

Definition generate_holder_serial_id (es : ES) (is_initiator : bool) : Z * ES :=
  let '(rand_bytes, es) := get_secure_random_bytes es in
  let serial_id := from_be_u64 (take 8 rand_bytes) in
  (if negb (Bool.eqb (is_for_initiator serial_id) is_initiator) then Z.lxor serial_id 1 else serial_id, es).

(** Serial ids for a list, one call of the source each. *)
Fixpoint with_serial_ids {A} (es : ES) (is_initiator : bool) (l : list A) : list (Z * A) * ES :=
  match l with
  | [] => ([], es)
  | x :: l =>
      let '(serial_id, es) := generate_holder_serial_id es is_initiator in
      let '(rest, es) := with_serial_ids es is_initiator l in
      ((serial_id, x) :: rest, es)
  end.

(** [ConfirmedUtxo] of util/wallet_utils.rs *)
Record ConfirmedUtxo : Type := mkConfirmedUtxo {
  utxo_outpoint : OutPoint;
  utxo_output : TxOut;
  utxo_satisfaction_weight : Z;
  utxo_sequence : Z;
  utxo_prevtx : Transaction;
}.

Record InteractiveTxConstructorArgs : Type := mkArgs {
  args_holder_node_id : PublicKey;
  args_counterparty_node_id : PublicKey;
  args_channel_id : bytes;
  args_feerate_sat_per_kw : Z;
  funding_tx_locktime : Z;
  args_inputs_to_contribute : list ConfirmedUtxo;
  args_shared_funding_input : option SharedOwnedInput;
  args_shared_funding_output : SharedOwnedOutput;
  args_outputs_to_contribute : list TxOut;
}.

Definition utxo_input (utxo : ConfirmedUtxo) : InputOwned :=
  InputSingle (mkSingleInput (mkTxIn (utxo_outpoint utxo) [] (utxo_sequence utxo) []) (utxo_prevtx utxo)
    (utxo_output utxo) (utxo_satisfaction_weight utxo)).

Definition constructor_new (es : ES) (args : InteractiveTxConstructorArgs) (is_initiator : bool)
    : InteractiveTxConstructor * ES :=
  let machine := machine_new (args_holder_node_id args) (args_counterparty_node_id args)
    (args_feerate_sat_per_kw args) is_initiator (funding_tx_locktime args) (args_shared_funding_input args)
    (args_shared_funding_output args) in
  let '(inputs, es) := with_serial_ids es is_initiator (map utxo_input (args_inputs_to_contribute args)) in
  let '(inputs, es) :=
    match args_shared_funding_input args with
    | Some shared =>
        if is_initiator then
          let '(serial_id, es) := generate_holder_serial_id es is_initiator in
          (inputs ++ [(serial_id, InputShared shared)], es)
        else (inputs, es)
    | None => (inputs, es)
    end in
  let inputs := sort_by (fun x y : Z * InputOwned => x.1 ?= y.1) inputs in
  let '(outputs, es) := with_serial_ids es is_initiator (map OutputSingle (args_outputs_to_contribute args)) in
  let '(outputs, es) :=
    if is_initiator then
      let '(serial_id, es) := generate_holder_serial_id es is_initiator in
      (outputs ++ [(serial_id, OutputShared (args_shared_funding_output args))], es)
    else (outputs, es) in
  let outputs := sort_by (fun x y : Z * OutputOwned => x.1 ?= y.1) outputs in
  let next_input_index := if decide (inputs = []) then None else Some 0%nat in
  let next_output_index := if decide (outputs = []) then None else Some 0%nat in
  (mkConstructor machine is_initiator (args_channel_id args) inputs outputs next_input_index next_output_index, es).

Definition new_for_outbound (es : ES) (args : InteractiveTxConstructorArgs)
    : InteractiveTxConstructor * option InteractiveTxMessageSend * ES :=
  let '(constructor, es) := constructor_new es args true in
  match maybe_send_message constructor with
  | (Ok message, constructor) => (constructor, Some message, es)
  | (Err _, constructor) => (constructor, None, es)
  end.
Definition new_for_inbound (es : ES) (args : InteractiveTxConstructorArgs) : InteractiveTxConstructor * ES :=
  constructor_new es args false.
End entropy.
End machine.

(** ** A concrete instance *)

#[export] Instance list_order : HashOrder := {| hash_iter V m := map_to_list m |}.
#[export] Instance list_order_laws : HashOrderLaws.
Proof. by split. Qed.
(** Another order: the entries the other way round. *)
Definition reverse_order : HashOrder := {| hash_iter V m := reverse (map_to_list m) |}.
Lemma reverse_order_laws : HashOrderLaws (H := reverse_order).
Proof. split. intros V m. cbn. apply reverse_Permutation. Qed.

(** Witness programs as Bitcoin encodes them: a version opcode and a push of 20
    or 32 bytes. *)
#[export] Instance toy_txlib : TxLib := {|
  is_p2wpkh s := bool_decide (take 2 s = [0; 20]) && (Z.of_nat (length s) =? 22);
  is_p2wsh s := bool_decide (take 2 s = [0; 32]) && (Z.of_nat (length s) =? 34);
  is_p2tr s := bool_decide (take 2 s = [81; 32]) && (Z.of_nat (length s) =? 34);
  is_witness_program s := match s with v :: n :: rest => (Z.of_nat (length rest) =? n) | _ => false end;
  witness_version s := match s with 0 :: _ => Some 0 | v :: _ => Some (v - 80) | [] => None end;
  minimal_non_dust s := if bool_decide (take 2 s = [0; 20]) then 294 else 330;
  consensus_encode_len s := 1 + Z.of_nat (length s);
  tx_weight tx := 4 * (10 + 41 * Z.of_nat (length (tx_input tx))
    + zsum (map (fun out => 9 + Z.of_nat (length (script_pubkey out))) (tx_output tx)));
  MAX_STANDARD_TX_WEIGHT := 400000;
  SCHNORR_SIGNATURE_SIZE := 64;
|}.
#[export] Instance toy_txlib_laws : TxLibLaws.
Proof. by split. Qed.

(** An entropy source that counts. *)
Definition counter_source (n : Z) : bytes * Z := (replicate 7 0 ++ [n] ++ replicate 24 0, n + 2).

Definition p2wsh_of (x : Z) : bytes := [0; 32] ++ replicate 32 x.
Definition p2wpkh_of (x : Z) : bytes := [0; 20] ++ replicate 20 x.

(** The initiator spends an output of 200,000 satoshis into a channel of 100,000
    and takes change; the acceptor adds an input and an output of its own. *)
Definition example_prevtx (locktime : Z) : Transaction :=
  mkTransaction 2 locktime [] [mkTxOut 200000 (p2wpkh_of 5); mkTxOut 7000 (p2wpkh_of 6)].
Definition example_utxo (locktime v : Z) : ConfirmedUtxo :=
  mkConfirmedUtxo (mkOutPoint (compute_txid (example_prevtx locktime)) v)
    (mkTxOut (if v =? 0 then 200000 else 7000) (p2wpkh_of (5 + v))) 112 0xFFFFFFFD (example_prevtx locktime).
Definition example_funding : TxOut := mkTxOut 100000 (p2wsh_of 9).
Definition example_args_a : InteractiveTxConstructorArgs :=
  mkArgs 11 22 [7] 1000 500 [example_utxo 1 0] None (mkSharedOutput example_funding 100000)
    [mkTxOut 95000 (p2wpkh_of 1)].
Definition example_args_b : InteractiveTxConstructorArgs :=
  mkArgs 22 11 [7] 1000 500 [example_utxo 2 1] None (mkSharedOutput example_funding 0)
    [mkTxOut 6000 (p2wpkh_of 2)].
