(* ===== verification/Negotiation.v ===== *)
(** * The negotiation is sound (lightning/src/ln/interactivetxs.rs)

    The invariant of the negotiation context over every message, what a completed
    negotiation guarantees about the transaction, the order of the messages, and
    two places where the code departs from what its comments say. *)

From Stdlib Require Import ZArith Lia Bool Sorting.Sorted.
From stdpp Require Import gmap relations.
From S2P Require Import Prelude.
From S2P Require Import Features.
From S2P Require Import Keys.
From S2P Require Import Order.
From S2P Require Import Scripts.
From S2P Require Import CommitmentTx.
From S2P Require Import TxBuilder.
From S2P Require Import InteractiveTx.

Local Open Scope Z_scope.

(** ** The order of the messages *)

Section turns.
Context {bitcoin : Bitcoin} {scriptlib : ScriptLib} {txlib : TxLib} {txhash : TxHash} {order : HashOrder}.

Inductive event : Type := Sent (msg : Message) (weight : Z) | Received (msg : Message).

Definition machine_step (s : StateMachine) (e : event) : StateMachine :=
  match e with Sent msg weight => machine_sent msg weight s | Received msg => machine_received msg s end.
Definition machine_run (s : StateMachine) (es : list event) : StateMachine := foldl machine_step s es.

Definition is_aborted (s : StateMachine) : bool := match s with NegotiationAborted _ => true | _ => false end.
Definition is_complete (s : StateMachine) : bool := match s with NegotiationComplete _ => true | _ => false end.
Definition is_sent (e : event) : bool := match e with Sent _ _ => true | Received _ => false end.
Definition event_complete (e : event) : bool :=
  match e with Sent (MComplete _) _ | Received (MComplete _) => true | _ => false end.

(** The turn of a live machine, and whether the last message was a [tx_complete]. *)
Definition turn (s : StateMachine) : option (bool * bool) :=
  match s with
  | ReceivedChangeMsg _ => Some (true, false)
  | ReceivedTxComplete _ => Some (true, true)
  | SentChangeMsg _ => Some (false, false)
  | SentTxComplete _ => Some (false, true)
  | _ => None
  end.

Lemma turn_step s e :
  match turn s with
  | Some (mine, completed) =>
      is_aborted (machine_step s e) = true \/
      (is_sent e = mine /\
       if completed && event_complete e then is_complete (machine_step s e) = true
       else turn (machine_step s e) = Some (negb mine, event_complete e))
  | None => is_aborted (machine_step s e) = true
  end.
Proof.
  destruct e as [msg w|msg], msg, s; cbn; auto;
    unfold or_abort; (destruct (complete_transition _); cbn; auto) ||
    (match goal with |- context [match ?x with Ok _ => _ | Err _ => _ end] => destruct x; cbn; auto end).
Qed.

Lemma run_aborted es s : is_aborted s = true -> is_aborted (machine_run s es) = true.
Proof.
  revert s. induction es as [|e es IH]; intros s Hs; [done|]. apply IH.
  pose proof (turn_step s e) as H. by destruct s.
Qed.

Lemma run_complete es s : is_complete s = true -> is_aborted (machine_run s es) = false -> es = [].
Proof.
  destruct es as [|e es]; [done|]. cbn. intros Hs Hr. pose proof (turn_step s e) as H.
  destruct s; try done. cbn in H. rewrite run_aborted in Hr; done.
Qed.

(** Messages alternate from a given turn on, and two consecutive [tx_complete]
    are the last ones. *)
Fixpoint turns (mine completed : bool) (es : list event) (finished : bool) : Prop :=
  match es with
  | [] => finished = false
  | e :: es => is_sent e = mine /\
      if completed && event_complete e then es = [] /\ finished = true
      else turns (negb mine) (event_complete e) es finished
  end.

Lemma run_turns es s mine completed : turn s = Some (mine, completed) ->
  is_aborted (machine_run s es) = false ->
  turns mine completed es (is_complete (machine_run s es)).
Proof.
  revert s mine completed. induction es as [|e es IH]; intros s mine completed Ht Hr; cbn.
  - by destruct s.
  - pose proof (turn_step s e) as H. rewrite Ht in H. cbn in Hr.
    destruct H as [H|[Hs H]]; [rewrite run_aborted in Hr; done|]. split; [done|].
    destruct (completed && event_complete e).
    + pose proof (run_complete es _ H Hr) as ->. by split.
    + by apply IH.
Qed.

Lemma turns_spec mine completed es finished : turns mine completed es finished ->
  (forall i e, es !! i = Some e -> is_sent e = xorb mine (Nat.odd i)) /\
  (finished = true <-> exists pre e2, es = pre ++ [e2] /\ event_complete e2 = true /\
     match last pre with Some e1 => event_complete e1 = true | None => completed = true end).
Proof.
  revert mine completed. induction es as [|e es IH]; intros mine completed; cbn.
  - intros ->. split; [done|]. split; [done|]. intros (pre & e2 & H & _). by destruct pre.
  - intros [Hs H]. destruct (completed && event_complete e) eqn:Hc.
    + destruct H as [-> ->]. apply andb_true_iff in Hc as [-> Hc]. split.
      * intros [|i] e'; [|done]. intros [= <-]. cbn. by rewrite xorb_false_r.
      * split; [|done]. intros _. by exists [], e.
    + apply IH in H as [Halt Hfin]. split.
      * intros [|i] e'; cbn; [intros [= <-]; by rewrite xorb_false_r|].
        intros He'. rewrite (Halt i e' He'), Nat.odd_succ, <- Nat.negb_odd. by destruct mine, (Nat.odd i).
      * rewrite Hfin. split.
        -- intros (pre & e2 & -> & He2 & Hl). exists (e :: pre), e2. split_and!; [done|done|].
           destruct pre as [|e' pre]; [done|]. rewrite last_cons_cons.
           destruct (last (e' :: pre)) eqn:E; [done|]. by apply last_None in E.
        -- intros (pre & e2 & Heq & He2 & Hl). destruct pre as [|e' pre]; cbn in Heq; injection Heq as <- ->.
           ++ cbn in Hl. by rewrite Hl, He2 in Hc.
           ++ exists pre, e2. split_and!; [done|done|]. destruct pre as [|e'' pre]; [done|].
              rewrite last_cons_cons in Hl. destruct (last (e'' :: pre)) eqn:E; [done|]. by apply last_None in E.
Qed.

End turns.

(** ** The invariant of the context *)

Section invariant.
Context {bitcoin : Bitcoin} {scriptlib : ScriptLib} {txlib : TxLib} {txhash : TxHash} {order : HashOrder}.
Context {order_laws : HashOrderLaws}.

(** What the counterparty may add. *)
Definition remote_input_ok (c : NegotiationContext) (input : InputOwned) : Prop :=
  match input with
  | InputSingle single =>
      sequence (single_input single) < 0xFFFFFFFE /\
      is_witness_program (script_pubkey (single_prev_output single)) = true
  | InputShared shared => shared_funding_input c = Some shared
  end.
Definition standard_script (spk : bytes) : Prop :=
  is_p2wpkh spk = true \/ is_p2wsh spk = true \/ exists v, witness_version spk = Some v /\ 1 <= v.
Definition remote_output_ok (out : TxOut) : Prop :=
  minimal_non_dust (script_pubkey out) <= value out <= TOTAL_BITCOIN_SUPPLY_SATOSHIS /\
  standard_script (script_pubkey out).

Definition role_of (c : NegotiationContext) (k : Z) : AddingRole :=
  if valid_for_counterparty c k then Remote else Local.

Record context_inv (c : NegotiationContext) : Prop := {
  inv_input_key : map_Forall (fun k i => input_serial_id i = k) (inputs c);
  inv_output_key : map_Forall (fun k o => output_serial_id o = k) (outputs c);
  inv_input_role : map_Forall (fun k i => input_added_by i = role_of c k) (inputs c);
  inv_output_role : map_Forall (fun k o => output_added_by o = role_of c k) (outputs c);
  inv_outpoint : map_Forall (fun _ i => previous_output (tx_in (itx_input i)) ∈ prevtx_outpoints c) (inputs c);
  inv_distinct k1 k2 i1 i2 : inputs c !! k1 = Some i1 -> inputs c !! k2 = Some i2 ->
    previous_output (tx_in (itx_input i1)) = previous_output (tx_in (itx_input i2)) -> k1 = k2;
  inv_remote_input : map_Forall (fun _ i => input_added_by i = Remote -> remote_input_ok c (itx_input i)) (inputs c);
  inv_remote_output : map_Forall (fun _ o => output_added_by o = Remote -> remote_output_ok (tx_out (itx_output o)))
    (outputs c);
  inv_shared_output : map_Forall (fun _ o => forall s, itx_output o = OutputShared s -> s = shared_funding_output c)
    (outputs c);
  inv_output_typed : map_Forall (fun _ o => 0 <= output_value o) (outputs c);
  inv_counts : 0 <= received_tx_add_input_count c <= MAX_RECEIVED_TX_ADD_INPUT_COUNT /\
    0 <= received_tx_add_output_count c <= MAX_RECEIVED_TX_ADD_OUTPUT_COUNT;
}.

(** The fields no message changes. *)
Definition same_config (c c' : NegotiationContext) : Prop :=
  holder_node_id c' = holder_node_id c /\ counterparty_node_id c' = counterparty_node_id c /\
  holder_is_initiator c' = holder_is_initiator c /\ shared_funding_input c' = shared_funding_input c /\
  shared_funding_output c' = shared_funding_output c /\ tx_locktime c' = tx_locktime c /\
  feerate_sat_per_kw c' = feerate_sat_per_kw c.

#[local] Instance same_config_preorder : PreOrder same_config.
Proof. split; [done|]. intros c1 c2 c3 H1 H2. unfold same_config in *. intuition congruence. Qed.

Lemma context_new_inv hid cid init sin sout locktime feerate :
  context_inv (context_new hid cid init sin sout locktime feerate).
Proof.
  split; cbn; try apply map_Forall_empty; [done|].
  unfold MAX_RECEIVED_TX_ADD_INPUT_COUNT, MAX_RECEIVED_TX_ADD_OUTPUT_COUNT. lia.
Qed.

(** Adding an input with a fresh outpoint, by the peer whose parity it has. *)
Lemma add_input_inv c k n role input op :
  context_inv c -> role = role_of c k -> op = previous_output (tx_in input) -> op ∉ prevtx_outpoints c ->
  (role = Remote -> remote_input_ok c input) -> 0 <= n <= MAX_RECEIVED_TX_ADD_INPUT_COUNT ->
  context_inv (set_inputs c n (<[k := mkInteractiveInput k role input]> (inputs c)) ({[op]} ∪ prevtx_outpoints c)).
Proof.
  intros [H1 H2 H3 H4 H5 H6 H7 H8 H9 H10 H11] Hrole Hop Hnew Hok Hn. split; cbn; try done.
  - by apply map_Forall_insert_2.
  - by apply map_Forall_insert_2.
  - apply map_Forall_insert_2; [cbn; rewrite Hop; apply elem_of_union_l; by apply elem_of_singleton|].
    eapply map_Forall_impl; [exact H5|]. intros. by apply elem_of_union_r.
  - intros k1 k2 i1 i2 Hi1 Hi2 Heq. rewrite lookup_insert_Some in Hi1, Hi2.
    destruct Hi1 as [[<- <-]|[Hne1 Hi1]], Hi2 as [[<- <-]|[Hne2 Hi2]]; cbn in *; try done.
    + exfalso. apply Hnew. rewrite Hop, Heq. exact (H5 _ _ Hi2).
    + exfalso. apply Hnew. rewrite Hop, <- Heq. exact (H5 _ _ Hi1).
    + by apply (H6 k1 k2 i1 i2).
  - by apply map_Forall_insert_2.
  - split; [done|apply H11].
Qed.

Lemma remove_input_inv c k : context_inv c ->
  context_inv (set_inputs c (received_tx_add_input_count c) (delete k (inputs c)) (prevtx_outpoints c)).
Proof.
  intros [H1 H2 H3 H4 H5 H6 H7 H8 H9 H10 H11]. split; cbn; try done; try by apply map_Forall_delete.
  intros k1 k2 i1 i2 Hi1 Hi2. apply lookup_delete_Some in Hi1 as [_ Hi1]. apply lookup_delete_Some in Hi2 as [_ Hi2].
  by apply H6.
Qed.

Lemma add_output_inv c k n role output :
  context_inv c -> role = role_of c k -> (role = Remote -> remote_output_ok (tx_out output)) ->
  (forall s, output = OutputShared s -> s = shared_funding_output c) -> 0 <= value (tx_out output) ->
  0 <= n <= MAX_RECEIVED_TX_ADD_OUTPUT_COUNT ->
  context_inv (set_outputs c n (<[k := mkInteractiveOutput k role output]> (outputs c))).
Proof.
  intros [H1 H2 H3 H4 H5 H6 H7 H8 H9 H10 H11] Hrole Hok Hsh Hv Hn. split; cbn; try done; try by apply map_Forall_insert_2.
  split; [apply H11|done].
Qed.

Lemma remove_output_inv c k : context_inv c ->
  context_inv (set_outputs c (received_tx_add_output_count c) (delete k (outputs c))).
Proof. intros [H1 H2 H3 H4 H5 H6 H7 H8 H9 H10 H11]. split; cbn; try done; by apply map_Forall_delete. Qed.

(** ** What each message does *)

(** The input a message denotes. *)
Definition message_input (c : NegotiationContext) (m : TxAddInput) : option (TxIn * TxOut) :=
  match shared_input_txid m with
  | Some _ => (fun s => (shared_input_txin s, shared_prev_output s)) <$> shared_funding_input c
  | None =>
      tx ← prevtx m; out ← tx_output tx !! Z.to_nat (prevtx_out m);
      Some (mkTxIn (mkOutPoint (compute_txid tx) (prevtx_out m)) [] (ai_sequence m) [], out)
  end.

Lemma tx_in_view input : (into_tx_in_with_prev_output input).1 = tx_in input.
Proof. by destruct input. Qed.

Lemma received_add_input_ok c m c' : received_tx_add_input c m = Ok c' ->
  exists input op n,
    c' = set_inputs c n (<[ai_serial_id m := mkInteractiveInput (ai_serial_id m) Remote input]> (inputs c))
           ({[op]} ∪ prevtx_outpoints c) /\
    0 <= n <= MAX_RECEIVED_TX_ADD_INPUT_COUNT /\ role_of c (ai_serial_id m) = Remote /\
    inputs c !! ai_serial_id m = None /\ (op ∉ prevtx_outpoints c) /\ op = previous_output (tx_in input) /\
    remote_input_ok c input /\ message_input c m = Some (into_tx_in_with_prev_output input).
Proof.
  unfold received_tx_add_input, role_of, message_input. intros H.
  destruct (valid_for_counterparty c (ai_serial_id m)); [|done]. cbn [negb] in H.
  set (n := wrapping 16 (received_tx_add_input_count c + 1)) in *.
  assert (0 <= n) by (apply Z.mod_pos_bound; lia).
  destruct (Z.ltb_spec MAX_RECEIVED_TX_ADD_INPUT_COUNT n); [done|].
  destruct (Z.leb_spec 0xFFFFFFFE (ai_sequence m)); [done|].
  match type of H with (mbind _ ?x) = _ => set (r := x) in H end.
  assert (forall input op, r = Ok (input, op) ->
    op = previous_output (tx_in input) /\ remote_input_ok c input /\
    message_input c m = Some (into_tx_in_with_prev_output input)) as Hr.
  { unfold r, message_input. intros input op Heq. destruct (shared_input_txid m) as [txid|].
    - destruct (holder_is_initiator c); [done|]. destruct (prevtx m); [done|].
      destruct (shared_funding_input c) as [s|] eqn:Es; [|done]. destruct (existsb _ _); [done|].
      case_bool_decide as Hop; [|done]. cbn in Heq. injection Heq as <- <-. cbn. by rewrite Hop.
    - destruct (prevtx m) as [tx|]; [|done]. destruct (tx_output tx !! _) as [out|] eqn:Eo; [|done].
      destruct (is_witness_program _) eqn:Ew; [|done]. cbn in Heq. injection Heq as <- <-. cbn.
      rewrite Eo. cbn. split_and!; done || lia. }
  destruct r as [[input op]|]; [|done]. cbn in H. destruct (Hr input op eq_refl) as (Hop & Hok & Hm).
  destruct (inputs c !! ai_serial_id m); [done|]. case_bool_decide; [done|]. injection H as <-.
  exists input, op, n. split_and!; done || lia.
Qed.

Lemma sent_add_input_ok c m w c' : sent_tx_add_input c m w = Ok c' ->
  exists input op,
    c' = set_inputs c (received_tx_add_input_count c)
           (<[ai_serial_id m := mkInteractiveInput (ai_serial_id m) Local input]> (inputs c))
           ({[op]} ∪ prevtx_outpoints c) /\
    (op ∉ prevtx_outpoints c) /\ message_input c m = Some (into_tx_in_with_prev_output input) /\
    op = match shared_input_txid m with
         | Some txid => mkOutPoint txid (prevtx_out m)
         | None => previous_output (tx_in input)
         end.
Proof.
  unfold sent_tx_add_input, message_input. intros H. destruct (shared_input_txid m) as [txid|].
  - destruct (shared_funding_input c) as [s|]; [|done]. cbn in H. case_bool_decide; [done|]. injection H as <-.
    by exists (InputShared s), (mkOutPoint txid (prevtx_out m)).
  - destruct (prevtx m) as [tx|]; [|done]. cbn in *. destruct (tx_output tx !! _) as [out|]; [|done]. cbn in *.
    case_bool_decide; [done|]. injection H as <-. by do 2 eexists.
Qed.

Lemma total_at_least (l : list (Z * InteractiveTxOutput)) acc : 0 <= acc ->
  Forall (fun p => 0 <= output_value p.2) l ->
  0 <= foldl (fun acc '(_, output) => saturating_add 64 acc (output_value output)) acc l.
Proof.
  revert acc. induction l as [|[k o] l IH]; intros acc Ha Hl; [done|]. cbn.
  apply Forall_cons in Hl as [Ho Hl]. apply IH; [|done]. unfold saturating_add, umax. cbn in Ho. lia.
Qed.

Lemma received_add_output_ok c m c' : context_inv c -> received_tx_add_output c m = Ok c' -> 0 <= sats m ->
  exists output n,
    c' = set_outputs c n (<[ao_serial_id m := mkInteractiveOutput (ao_serial_id m) Remote output]> (outputs c)) /\
    0 <= n <= MAX_RECEIVED_TX_ADD_OUTPUT_COUNT /\ role_of c (ao_serial_id m) = Remote /\
    outputs c !! ao_serial_id m = None /\ tx_out output = mkTxOut (sats m) (script m) /\
    remote_output_ok (tx_out output) /\ (forall s, output = OutputShared s -> s = shared_funding_output c).
Proof.
  unfold received_tx_add_output, role_of. intros Hinv H Hsats.
  destruct (valid_for_counterparty c (ao_serial_id m)); [|done]. cbn [negb] in H.
  set (n := wrapping 16 (received_tx_add_output_count c + 1)) in *.
  assert (0 <= n) by (apply Z.mod_pos_bound; lia).
  destruct (Z.ltb_spec MAX_RECEIVED_TX_ADD_OUTPUT_COUNT n); [done|].
  destruct (Z.ltb_spec (sats m) (minimal_non_dust (script m))); [done|].
  match type of H with context [saturating_add 64 ?t _] => set (total := t) in H end.
  assert (0 <= total) as Htot.
  { apply total_at_least; [done|]. apply Forall_forall. intros [k o] Hin. rewrite (hash_iter_perm (outputs c)) in Hin.
    apply elem_of_map_to_list in Hin. exact (inv_output_typed _ Hinv k o Hin). }
  destruct (Z.ltb_spec TOTAL_BITCOIN_SUPPLY_SATOSHIS (saturating_add 64 total (sats m))) as [|Hsup]; [done|].
  assert (sats m <= TOTAL_BITCOIN_SUPPLY_SATOSHIS).
  { unfold saturating_add, umax, TOTAL_BITCOIN_SUPPLY_SATOSHIS in *. lia. }
  destruct (negb _) eqn:Hstd; [done|]. apply negb_false_iff, orb_true_iff in Hstd.
  assert (remote_output_ok (mkTxOut (sats m) (script m))) as Hok.
  { split; [cbn; lia|]. unfold standard_script. cbn. destruct Hstd as [Hs|Hs]; [apply orb_true_iff in Hs; tauto|].
    destruct (witness_version (script m)) as [v|]; [|done]. right; right. exists v. split; [done|lia]. }
  assert (exists output, tx_out output = mkTxOut (sats m) (script m) /\
    (forall s, output = OutputShared s -> s = shared_funding_output c) /\
    match outputs c !! ao_serial_id m with
    | Some _ => Err DuplicateSerialId
    | None => Ok (set_outputs c n (<[ao_serial_id m := mkInteractiveOutput (ao_serial_id m) Remote output]> (outputs c)))
    end = Ok c') as (output & Hout & Hsh & H').
  { case_bool_decide as Heq.
    - destruct (holder_is_initiator c); [done|]. destruct (existsb _ _); [done|]. cbn in H.
      exists (OutputShared (shared_funding_output c)). split_and!; [done| |done]. by intros s [= <-].
    - by exists (OutputSingle (mkTxOut (sats m) (script m))). }
  destruct (outputs c !! ao_serial_id m); [done|]. injection H' as <-.
  exists output, n. rewrite Hout. split_and!; done || lia.
Qed.

(** A message whose amounts are unsigned. *)
Definition msg_typed (m : Message) : Prop := match m with MAddOutput m => 0 <= sats m | _ => True end.

(** A message the holder may send: its serial id has the holder's parity and a
    shared input is the expected one. *)
Definition sent_ok (c : NegotiationContext) (m : Message) : Prop :=
  match m with
  | MAddInput m => role_of c (ai_serial_id m) = Local /\
      forall txid s, shared_input_txid m = Some txid -> shared_funding_input c = Some s ->
        mkOutPoint txid (prevtx_out m) = previous_output (shared_input_txin s)
  | MAddOutput m => role_of c (ao_serial_id m) = Local /\ 0 <= sats m
  | _ => True
  end.

Definition good (c0 c : NegotiationContext) : Prop := context_inv c /\ same_config c0 c.

Definition machine_good (c0 : NegotiationContext) (s : StateMachine) : Prop :=
  match s with
  | SentChangeMsg c | ReceivedChangeMsg c | SentTxComplete c | ReceivedTxComplete c => good c0 c
  | NegotiationComplete session => exists c, good c0 c /\ complete_transition c = Ok session
  | _ => True
  end.

Lemma same_config_role c0 c k : same_config c0 c -> role_of c k = role_of c0 k.
Proof. intros (_ & _ & H & _). unfold role_of, valid_for_counterparty. by rewrite H. Qed.

Lemma transition_good c0 c (op : NegotiationContext -> result AbortReason NegotiationContext) (f : NegotiationContext -> StateMachine) :
  (forall c', op c = Ok c' -> good c0 c') -> (forall c', good c0 c' -> machine_good c0 (f c')) ->
  machine_good c0 (or_abort (op c) f).
Proof. intros Hop Hf. unfold or_abort. destruct (op c); [auto|done]. Qed.

Lemma complete_good c0 c : good c0 c -> machine_good c0 (or_abort (complete_transition c) NegotiationComplete).
Proof. intros Hg. unfold or_abort. destruct (complete_transition c) eqn:E; [by exists c|done]. Qed.

Lemma received_good c0 m s : msg_typed m -> machine_good c0 s -> machine_good c0 (machine_received m s).
Proof.
  intros Hm Hs.
  assert (forall op : NegotiationContext -> result AbortReason NegotiationContext, (forall c c', good c0 c -> op c = Ok c' -> good c0 c') ->
            machine_good c0 (received_transition op s)) as Htr.
  { intros op Hop. destruct s as [|c|c|c|c| |]; try done; cbn in *; (apply transition_good; [intros c'; by apply Hop|done]). }
  destruct m as [m|m|m|m|m]; cbn [machine_received]; try apply Htr.
  - intros c c' [Hi Hc] H. apply received_add_input_ok in H as (input & op & n & -> & Hn & Hr & _ & Hnew & Hop & Hok & _).
    split; [|by etrans; [exact Hc|]]. by apply add_input_inv.
  - intros c c' [Hi Hc] H. unfold received_tx_remove_input in H. destruct (negb _); [done|].
    destruct (inputs c !! _); [|done]. injection H as <-. split; [by apply remove_input_inv|by etrans; [exact Hc|]].
  - intros c c' [Hi Hc] H. apply (received_add_output_ok c m c' Hi) in H as (output & n & -> & Hn & Hr & _ & Hout & Hok & Hsh); [|done].
    split; [|by etrans; [exact Hc|]]. apply add_output_inv; try done. by rewrite Hout.
  - intros c c' [Hi Hc] H. unfold received_tx_remove_output in H. destruct (negb _); [done|].
    destruct (outputs c !! _); [|done]. injection H as <-. split; [by apply remove_output_inv|by etrans; [exact Hc|]].
  - destruct s; try done. by apply complete_good.
Qed.

Lemma message_input_shared c m input s : message_input c m = Some (into_tx_in_with_prev_output input) ->
  shared_funding_input c = Some s -> is_Some (shared_input_txid m) ->
  previous_output (tx_in input) = previous_output (shared_input_txin s).
Proof.
  unfold message_input. intros H Hs [txid Ht]. rewrite Ht, Hs in H. cbn in H. injection H as H.
  by rewrite <- (tx_in_view input), <- H.
Qed.

Lemma sent_good c0 m w s : sent_ok c0 m -> machine_good c0 s -> machine_good c0 (machine_sent m w s).
Proof.
  intros Hm Hs.
  assert (forall op : NegotiationContext -> result AbortReason NegotiationContext, (forall c c', good c0 c -> op c = Ok c' -> good c0 c') ->
            machine_good c0 (sent_transition op s)) as Htr.
  { intros op Hop. destruct s as [|c|c|c|c| |]; try done; cbn in *; (apply transition_good; [intros c'; by apply Hop|done]). }
  destruct m as [m|m|m|m|m]; cbn [machine_sent]; try apply Htr.
  - destruct Hm as [Hrole Hsh]. intros c c' [Hi Hc] H.
    apply sent_add_input_ok in H as (input & op & -> & Hnew & Hmi & Hop).
    split; [|by etrans; [exact Hc|]]. apply add_input_inv; try done.
    + by rewrite (same_config_role c0 c).
    + rewrite Hop. destruct (shared_input_txid m) as [txid|] eqn:E; [|done].
      destruct (shared_funding_input c) as [s'|] eqn:Es; [|by unfold message_input in Hmi; rewrite E, Es in Hmi].
      rewrite (message_input_shared c m input s' Hmi Es) by (by rewrite E). apply (Hsh txid s' eq_refl).
      destruct Hc as (_ & _ & _ & Hsi & _). by rewrite <- Hsi.
    + apply (inv_counts _ Hi).
  - intros c c' [Hi Hc] [= <-]. split; [by apply remove_input_inv|by etrans; [exact Hc|]].
  - destruct Hm as [Hrole Hsats]. intros c c' [Hi Hc] [= <-]. split; [|by etrans; [exact Hc|]].
    apply add_output_inv; try done.
    + by rewrite (same_config_role c0 c).
    + intros s'. case_bool_decide; [by intros [= <-]|done].
    + case_bool_decide as Heq; [by cbn; rewrite <- Heq|done].
    + apply (inv_counts _ Hi).
  - intros c c' [Hi Hc] [= <-]. split; [by apply remove_output_inv|by etrans; [exact Hc|]].
  - destruct s; try done. by apply complete_good.
Qed.
End invariant.

(** ** The transaction of a completed negotiation *)

Section values.
Context {order : HashOrder} {order_laws : HashOrderLaws}.

Lemma elem_of_hash_values {V} (m : gmap Z V) v : v ∈ hash_values m <-> exists k, m !! k = Some v.
Proof.
  unfold hash_values. rewrite hash_iter_perm, list_elem_of_fmap. split.
  - intros ([k v'] & -> & Hin). exists k. by apply elem_of_map_to_list.
  - intros [k Hk]. exists (k, v). split; [done|]. by apply elem_of_map_to_list.
Qed.

Lemma hash_values_length {V} (m : gmap Z V) : length (hash_values m) = size m.
Proof. unfold hash_values. rewrite length_fmap, hash_iter_perm. apply length_map_to_list. Qed.

Lemma NoDup_map_values {V B} (g : V -> B) (m : gmap Z V) :
  (forall k1 k2 v1 v2, m !! k1 = Some v1 -> m !! k2 = Some v2 -> g v1 = g v2 -> k1 = k2) ->
  NoDup (map g (hash_values m)).
Proof.
  intros Hinj. unfold hash_values. rewrite hash_iter_perm. change (map g) with (fmap (M:=list) g).
  rewrite <- list_fmap_compose. apply NoDup_fmap_2_strong; [|apply NoDup_map_to_list].
  intros [k1 v1] [k2 v2] H1 H2 Heq. apply elem_of_map_to_list in H1, H2. cbn in Heq.
  pose proof (Hinj k1 k2 v1 v2 H1 H2 Heq) as ->. congruence.
Qed.
End values.

Lemma sorted_strict {A} (key : A -> Z) l :
  StronglySorted (cmp_le (fun x y => key x ?= key y)) l -> NoDup (map key l) -> StronglySorted Z.lt (map key l).
Proof.
  induction 1 as [|x l Hl IH Hx]; cbn; intros Hnd; [constructor|]. apply NoDup_cons in Hnd as [Hn Hnd].
  constructor; [by apply IH|]. apply Forall_map. rewrite Forall_forall in Hx. apply Forall_forall. intros y Hy.
  specialize (Hx y Hy). unfold cmp_le in Hx. change (key x <= key y) in Hx.
  assert (key x <> key y) by (intros Heq; apply Hn; rewrite Heq; by apply list_elem_of_fmap_2). lia.
Qed.

#[export] Instance serial_cmp_laws {A B} (key : B -> Z) : CmpLaws (@serial_cmp A B key).
Proof. exact (Z_cmp_laws (fun p : A * B => key p.2)). Qed.

Lemma position_Some {A} (f : A -> bool) l i : position f l = Some i -> exists x, l !! i = Some x /\ f x = true.
Proof.
  revert i. induction l as [|x l IH]; intros i; cbn; [done|]. destruct (f x) eqn:E.
  - intros [= <-]. by exists x.
  - destruct (position f l) as [j|]; [|done]. intros [= <-]. by apply IH.
Qed.

Lemma position_lt {A} (f : A -> bool) l i : position f l = Some i -> (i < length l)%nat.
Proof. intros H. apply position_Some in H as (x & Hx & _). by eapply lookup_lt_Some. Qed.

Section assembled.
Context {bitcoin : Bitcoin} {scriptlib : ScriptLib} {txlib : TxLib} {txhash : TxHash} {order : HashOrder}.
Context {order_laws : HashOrderLaws}.

Definition sorted_inputs (c : NegotiationContext) : list (TxIn * TxInMetadata) :=
  sort_by (serial_cmp meta_serial_id) (map into_txin_and_metadata (hash_values (inputs c))).
Definition sorted_outputs (c : NegotiationContext) : list (TxOut * TxOutMetadata) :=
  sort_by (serial_cmp out_meta_serial_id) (map into_txout_and_metadata (hash_values (outputs c))).

Lemma sorted_inputs_elem c p : p ∈ sorted_inputs c <->
  exists k i, inputs c !! k = Some i /\ p = into_txin_and_metadata i.
Proof.
  unfold sorted_inputs. rewrite sort_by_perm, list_elem_of_fmap.
  split; [intros (i & -> & [k Hk]%elem_of_hash_values); by exists k, i|].
  intros (k & i & Hk & ->). exists i. split; [done|]. apply elem_of_hash_values. by exists k.
Qed.
Lemma sorted_outputs_elem c p : p ∈ sorted_outputs c <->
  exists k o, outputs c !! k = Some o /\ p = into_txout_and_metadata o.
Proof.
  unfold sorted_outputs. rewrite sort_by_perm, list_elem_of_fmap.
  split; [intros (o & -> & [k Hk]%elem_of_hash_values); by exists k, o|].
  intros (k & o & Hk & ->). exists o. split; [done|]. apply elem_of_hash_values. by exists k.
Qed.

Lemma txin_metadata i : into_txin_and_metadata i =
  (tx_in (itx_input i), mkTxInMetadata (input_serial_id i) (into_tx_in_with_prev_output (itx_input i)).2).
Proof. unfold into_txin_and_metadata. by destruct (itx_input i). Qed.

Lemma sorted_inputs_serial c : context_inv c ->
  StronglySorted Z.lt (map meta_serial_id (sorted_inputs c).*2).
Proof.
  intros Hi. change (map meta_serial_id) with (fmap (M:=list) meta_serial_id). rewrite <- list_fmap_compose.
  apply sorted_strict.
  - exact (sort_by_sorted (serial_cmp meta_serial_id) _).
  - change (map ?f) with (fmap (M:=list) f). unfold sorted_inputs. rewrite sort_by_perm.
    change (map ?f) with (fmap (M:=list) f). rewrite <- list_fmap_compose. apply NoDup_map_values.
    intros k1 k2 v1 v2 H1 H2. cbn. rewrite !txin_metadata. cbn.
    rewrite (inv_input_key _ Hi _ _ H1), (inv_input_key _ Hi _ _ H2). done.
Qed.
Lemma sorted_outputs_serial c : context_inv c ->
  StronglySorted Z.lt (map out_meta_serial_id (sorted_outputs c).*2).
Proof.
  intros Hi. change (map out_meta_serial_id) with (fmap (M:=list) out_meta_serial_id). rewrite <- list_fmap_compose.
  apply sorted_strict.
  - exact (sort_by_sorted (serial_cmp out_meta_serial_id) _).
  - change (map ?f) with (fmap (M:=list) f). unfold sorted_outputs. rewrite sort_by_perm.
    change (map ?f) with (fmap (M:=list) f). rewrite <- list_fmap_compose. apply NoDup_map_values.
    intros k1 k2 v1 v2 H1 H2. cbn.
    rewrite (inv_output_key _ Hi _ _ H1), (inv_output_key _ Hi _ _ H2). done.
Qed.

Lemma sorted_inputs_outpoints c : context_inv c -> NoDup (map previous_output (sorted_inputs c).*1).
Proof.
  intros Hi. change (map ?f) with (fmap (M:=list) f). unfold sorted_inputs. rewrite sort_by_perm.
  change (map ?f) with (fmap (M:=list) f). rewrite <- !list_fmap_compose. apply NoDup_map_values.
  intros k1 k2 v1 v2 H1 H2. cbn. rewrite !txin_metadata. cbn. by apply (inv_distinct _ Hi).
Qed.

(** What a completed negotiation guarantees. *)
Record valid_constructed (init : bool) (locktime : Z) (sin : option SharedOwnedInput) (sout : SharedOwnedOutput)
    (t : ConstructedTransaction) : Prop := {
  valid_header : cons_holder_is_initiator t = init /\ version (constructed_tx t) = 2 /\
    lock_time (constructed_tx t) = locktime;
  valid_size : Z.of_nat (length (tx_input (constructed_tx t))) <= 252 /\
    Z.of_nat (length (tx_output (constructed_tx t))) <= 252 /\
    tx_weight (constructed_tx t) + 2 <= MAX_STANDARD_TX_WEIGHT;
  (** no output is spent twice *)
  valid_outpoints : NoDup (map previous_output (tx_input (constructed_tx t)));
  (** inputs and outputs come in the order of their serial ids *)
  valid_input_order : StronglySorted Z.lt (map meta_serial_id (input_metadata t));
  valid_output_order : StronglySorted Z.lt (map out_meta_serial_id (output_metadata t));
  (** the funding output, and the funding input of a splice, are there *)
  valid_shared_output :
    tx_output (constructed_tx t) !! Z.to_nat (shared_output_index t) = Some (shared_tx_out sout);
  valid_shared_input s : sin = Some s -> exists i txin, shared_input_index t = Some i /\
    tx_input (constructed_tx t) !! Z.to_nat i = Some txin /\
    previous_output txin = previous_output (shared_input_txin s);
  (** what the counterparty added can be replaced by fee, spends a witness
      program, and pays to standard outputs above dust *)
  valid_remote_input i txin meta : tx_input (constructed_tx t) !! i = Some txin -> input_metadata t !! i = Some meta ->
    input_is_local init meta = false ->
    (sequence txin < 0xFFFFFFFE /\ is_witness_program (script_pubkey (meta_prev_output meta)) = true) \/
    (exists s, sin = Some s /\ txin = shared_input_txin s);
  valid_remote_output i out meta : tx_output (constructed_tx t) !! i = Some out -> output_metadata t !! i = Some meta ->
    output_is_local init meta = false -> remote_output_ok out;
}.

Lemma role_of_local c k : role_of c k = Remote <->
  negb (is_serial_id_valid_for_counterparty (holder_is_initiator c) k) = false.
Proof. unfold role_of, valid_for_counterparty. by destruct (is_serial_id_valid_for_counterparty _ _). Qed.

Lemma lookup_pair {A B} (l : list (A * B)) i a b : l.*1 !! i = Some a -> l.*2 !! i = Some b -> (a, b) ∈ l.
Proof.
  rewrite !list_lookup_fmap. destruct (l !! i) as [[a' b']|] eqn:E; [|done]. cbn. intros [= ->] [= ->].
  by eapply list_elem_of_lookup_2.
Qed.

Lemma constructed_ok c t : constructed_new c = Ok t ->
  t = assemble c /\ Z.of_nat (length (sorted_inputs c)) <= 252 /\ Z.of_nat (length (sorted_outputs c)) <= 252 /\
  (is_Some (shared_funding_input c) -> is_Some (shared_input_index t)) /\ shared_output_index t <> umax 16 /\
  saturating_add 64 (saturating_add 64 (tx_weight (constructed_tx t)) 2) (expected_witness_weight c)
    <= MAX_STANDARD_TX_WEIGHT /\
  remote_outputs_value c <= remote_inputs_value c /\
  fee_for_weight (wrapping 32 ((feerate_sat_per_kw c * REMOTE_FEE_TOLERANCE_PERCENT)%u64 / 100))
    (remote_weight_contributed c) <= saturating_sub (remote_inputs_value c) (remote_outputs_value c).
Proof.
  unfold constructed_new. intros H.
  destruct (Z.ltb_spec (remote_inputs_value c) (remote_outputs_value c)); [done|].
  match type of H with (if ?a <? ?b then _ else _) = _ => destruct (Z.ltb_spec a b); [done|] end.
  destruct (_ || _) eqn:Hsz; [done|]. apply orb_false_iff in Hsz as [Hi Ho].
  change (tx_input (constructed_tx (assemble c))) with (sorted_inputs c).*1 in Hi.
  change (tx_output (constructed_tx (assemble c))) with (sorted_outputs c).*1 in Ho.
  rewrite length_fmap in Hi. rewrite length_fmap in Ho.
  destruct (bool_decide _ && bool_decide _) eqn:Hsh; [done|].
  destruct (Z.eqb_spec (shared_output_index (assemble c)) (umax 16)); [done|].
  match type of H with (if ?a <? ?b then _ else _) = _ => destruct (Z.ltb_spec a b); [done|] end.
  injection H as <-. unfold MAX_INPUTS_OUTPUTS_COUNT in *. split_and!; try done; try lia.
  intros Hs. apply andb_false_iff in Hsh as [Hsh|Hsh]; [by apply bool_decide_eq_false in Hsh|].
  apply bool_decide_eq_false in Hsh. by apply not_eq_None_Some.
Qed.

Lemma expected_weight_nonneg c : 0 <= expected_witness_weight c.
Proof.
  unfold expected_witness_weight. generalize (hash_iter (inputs c)). intros l.
  assert (forall acc, 0 <= acc -> 0 <= foldl (fun value '(_, input) => saturating_sub (saturating_add 64 value
    (satisfaction_weight (itx_input input))) ChanUtils.EMPTY_SCRIPT_SIG_WEIGHT) acc l) as H; [|by apply H].
  induction l as [|[k i] l IH]; intros acc Ha; [done|]. cbn. apply IH. apply saturating_sub_nonneg.
Qed.

Lemma small_index l : Z.of_nat l <= 252 -> forall p, (p < l)%nat -> Z.to_nat (wrapping 16 (Z.of_nat p)) = p.
Proof. intros Hl p Hp. rewrite wrapping_small by (unfold fits; lia). lia. Qed.

Lemma complete_valid {txlaws : TxLibLaws} c session : context_inv c -> complete_transition c = Ok session ->
  valid_constructed (holder_is_initiator c) (tx_locktime c) (shared_funding_input c) (shared_funding_output c)
    (unsigned_tx session).
Proof.
  intros Hinv H. unfold complete_transition in H. destruct (constructed_new c) as [t|] eqn:Hnew; [|done].
  cbn in H. injection H as <-. cbn [unsigned_tx].
  destruct (constructed_ok c t Hnew) as (-> & Hli & Hlo & Hsi & Hso & Hw & _ & _).
  split; cbn [constructed_tx cons_holder_is_initiator version lock_time input_metadata output_metadata assemble];
    fold (sorted_inputs c); fold (sorted_outputs c).
  - done.
  - cbn [tx_input tx_output]. rewrite !length_fmap. split_and!; [done|done|].
    pose proof (expected_weight_nonneg c). rewrite max_standard_weight in *.
    change (constructed_tx (assemble c)) with (mkTransaction 2 (tx_locktime c) (sorted_inputs c).*1 (sorted_outputs c).*1) in Hw.
    unfold saturating_add, umax in Hw. lia.
  - by apply sorted_inputs_outpoints.
  - by apply sorted_inputs_serial.
  - by apply sorted_outputs_serial.
  - cbn [tx_output]. unfold assemble in Hso |- *. cbn [shared_output_index] in Hso |- *.
    fold (sorted_outputs c) in Hso |- *.
    destruct (position _ (sorted_outputs c).*1) as [p|] eqn:Hp; [|done]. cbn [fmap option_fmap option_map from_option id].
    pose proof (position_lt _ _ _ Hp) as Hlt. rewrite length_fmap in Hlt. rewrite (small_index _ Hlo p Hlt).
    apply position_Some in Hp as (x & Hx & Heq). apply bool_decide_eq_true in Heq. by rewrite Hx, Heq.
  - intros s Hs. unfold assemble in Hsi |- *. cbn [tx_input shared_input_index] in *. rewrite Hs in Hsi |- *.
    cbn [mbind option_bind] in *. fold (sorted_inputs c) in Hsi |- *.
    destruct (position _ (sorted_inputs c).*1) as [p|] eqn:Hp; [|by destruct Hsi]. cbn [fmap option_fmap option_map].
    pose proof (position_lt _ _ _ Hp) as Hlt. rewrite length_fmap in Hlt.
    apply position_Some in Hp as (x & Hx & Heq). apply bool_decide_eq_true in Heq.
    exists (wrapping 16 (Z.of_nat p)), x. rewrite (small_index _ Hli p Hlt). done.
  - intros i txin meta Htx Hmeta Hloc. pose proof (lookup_pair _ _ _ _ Htx Hmeta) as Hin.
    apply sorted_inputs_elem in Hin as (k & inp & Hk & Heq). rewrite txin_metadata in Heq. injection Heq as -> ->.
    unfold input_is_local in Hloc. cbn in Hloc. rewrite (inv_input_key _ Hinv _ _ Hk) in Hloc.
    apply role_of_local in Hloc. rewrite <- (inv_input_role _ Hinv _ _ Hk) in Hloc.
    pose proof (inv_remote_input _ Hinv _ _ Hk Hloc) as Hok. destruct (itx_input inp) as [single|s]; cbn in *; [by left|].
    right. by exists s.
  - intros i out meta Htx Hmeta Hloc. pose proof (lookup_pair _ _ _ _ Htx Hmeta) as Hin.
    apply sorted_outputs_elem in Hin as (k & o & Hk & Heq). injection Heq as -> ->.
    unfold output_is_local in Hloc. cbn in Hloc. rewrite (inv_output_key _ Hinv _ _ Hk) in Hloc.
    apply role_of_local in Hloc. rewrite <- (inv_output_role _ Hinv _ _ Hk) in Hloc.
    exact (inv_remote_output _ Hinv _ _ Hk Hloc).
Qed.
End assembled.

(** ** Constructors *)

Section constructors.
Context {bitcoin : Bitcoin} {scriptlib : ScriptLib} {txlib : TxLib} {txhash : TxHash} {order : HashOrder}.
Context {order_laws : HashOrderLaws} {txlaws : TxLibLaws}.

Record ctor_good (c0 : NegotiationContext) (ctor : InteractiveTxConstructor) : Prop := {
  good_machine : machine_good c0 (state_machine ctor);
  good_inputs : Forall (fun p => role_of c0 p.1 = Local /\
    forall s, p.2 = InputShared s -> shared_funding_input c0 = Some s) (inputs_to_contribute ctor);
  good_outputs : Forall (fun p => role_of c0 p.1 = Local /\ 0 <= value (tx_out p.2)) (outputs_to_contribute ctor);
}.

Lemma transition_ctor_good c0 ctor f : ctor_good c0 ctor ->
  machine_good c0 (f (state_machine ctor)) -> ctor_good c0 (do_state_transition f ctor).2.
Proof.
  intros [_ Hi Ho] Hm. unfold do_state_transition. cbn.
  destruct (f (state_machine ctor)) eqn:E; by split; cbn; rewrite ?E.
Qed.

Lemma transition_bind {A} f (k : unit -> M InteractiveTxConstructor AbortReason A) ctor c0 :
  ctor_good c0 ctor -> machine_good c0 (f (state_machine ctor)) ->
  (forall ctor', ctor_good c0 ctor' -> ctor_good c0 (k tt ctor').2) ->
  ctor_good c0 ((do_state_transition f ≫= k) ctor).2.
Proof.
  intros Hc Hm Hk. pose proof (transition_ctor_good c0 ctor f Hc Hm) as H. unfold mbind, M_bind.
  destruct (do_state_transition f ctor) as [[[]|e] ctor'] eqn:E; [by apply Hk|done].
Qed.

Lemma maybe_send_good c0 ctor : ctor_good c0 ctor -> ctor_good c0 (maybe_send_message ctor).2.
Proof.
  intros Hc. pose proof Hc as [Hm Hi Ho]. unfold maybe_send_message, get_state, next_input_to_contribute.
  unfold mbind at 1 2, M_bind at 1 2.
  destruct (mbind _ (next_input_index ctor)) as [[k input]|] eqn:Ei; cbn.
  - assert (role_of c0 k = Local /\ forall s, input = InputShared s -> shared_funding_input c0 = Some s) as [Hk Hs].
    { destruct (next_input_index ctor) as [i|]; [|done]. cbn in Ei. rewrite Forall_forall in Hi.
      exact (Hi (k, input) (list_elem_of_lookup_2 _ _ _ Ei)). }
    apply transition_bind; [by split|cbn|done]. apply (sent_good c0 (MAddInput _)); [|done]. split.
    + by destruct input.
    + intros txid s Htx Hsf. destruct input as [single|s']; [done|]. specialize (Hs s' eq_refl).
      assert (s' = s) as -> by congruence. cbn in *. injection Htx as <-. by destruct (previous_output _).
  - unfold next_output_to_contribute. unfold mbind at 1, M_bind at 1. cbn.
    destruct (mbind _ (next_output_index ctor)) as [[k output]|] eqn:Eo; cbn.
    + assert (role_of c0 k = Local /\ 0 <= value (tx_out output)) as [Hk Hv].
      { destruct (next_output_index ctor) as [i|]; [|done]. cbn in Eo. rewrite Forall_forall in Ho.
        exact (Ho (k, output) (list_elem_of_lookup_2 _ _ _ Eo)). }
      apply transition_bind; [by split|cbn|done]. by apply (sent_good c0 (MAddOutput _)).
    + apply transition_bind; [by split|cbn|done]. by apply (sent_good c0 (MComplete (mkTxComplete (ctor_channel_id ctor))) 0).
Qed.

Lemma handle_change_good c0 m ctor : msg_typed m -> ctor_good c0 ctor -> ctor_good c0 (handle_change m ctor).2.
Proof.
  intros Hm Hc. apply transition_bind; [done| |].
  - apply received_good; [done|apply Hc].
  - intros ctor' Hc'. by apply maybe_send_good.
Qed.

Lemma handle_complete_good c0 m ctor : ctor_good c0 ctor -> ctor_good c0 (handle_tx_complete m ctor).2.
Proof.
  intros Hc. apply transition_bind; [done| |].
  - apply (received_good c0 (MComplete m)); [done|apply Hc].
  - intros ctor' Hc'. unfold get_state. unfold mbind at 1, M_bind at 1. cbn.
    destruct (state_machine ctor') eqn:E; try done.
    pose proof (maybe_send_good c0 ctor' Hc') as H. unfold mbind, M_bind.
    destruct (maybe_send_message ctor') as [[msg|e] ctor'']; [|done]. cbn in *. by destruct (state_machine ctor'').
Qed.

(** *** New constructors *)

Section entropy.
Context {ES : Type} (source : ES -> bytes * ES).

Lemma is_for_initiator_even k : is_for_initiator k = Z.even k.
Proof. unfold is_for_initiator. rewrite Zmod_even. by destruct (Z.even k). Qed.

Lemma generated_serial_id es init : is_for_initiator (generate_holder_serial_id source es init).1 = init.
Proof.
  unfold generate_holder_serial_id. destruct (source es) as [b es']. cbn. set (k := from_be_u64 _).
  destruct (negb (Bool.eqb (is_for_initiator k) init)) eqn:E.
  - rewrite is_for_initiator_even in *. rewrite <- Z.negb_odd, <- Z.bit0_odd, Z.lxor_spec, Z.bit0_odd.
    change (Z.testbit 1 0) with true. rewrite <- Z.negb_odd in E. by destruct (Z.odd k), init.
  - by destruct (is_for_initiator k), init.
Qed.

Lemma serial_ids_role {A} es init (l : list A) :
  Forall (fun p => is_for_initiator p.1 = init) (with_serial_ids source es init l).1 /\
  (with_serial_ids source es init l).1.*2 = l.
Proof.
  revert es. induction l as [|x l IH]; intros es; cbn; [by split|].
  pose proof (generated_serial_id es init) as Hk. destruct (generate_holder_serial_id source es init) as [k es'].
  specialize (IH es'). destruct (with_serial_ids source es' init l) as [rest es'']. cbn in *.
  destruct IH as [IH1 ->]. split; [|done]. by constructor.
Qed.

Definition args_context (args : InteractiveTxConstructorArgs) (init : bool) : NegotiationContext :=
  context_new (args_holder_node_id args) (args_counterparty_node_id args) init (args_shared_funding_input args)
    (args_shared_funding_output args) (funding_tx_locktime args) (args_feerate_sat_per_kw args).

Lemma args_role args init k : is_for_initiator k = init -> role_of (args_context args init) k = Local.
Proof.
  intros Hk. unfold role_of, valid_for_counterparty, is_serial_id_valid_for_counterparty, is_for_non_initiator. cbn.
  rewrite Hk. by destruct init.
Qed.

(** Amounts are unsigned. *)
Definition args_typed (args : InteractiveTxConstructorArgs) : Prop :=
  Forall (fun out => 0 <= value out) (args_outputs_to_contribute args) /\
  0 <= value (shared_tx_out (args_shared_funding_output args)).

Lemma constructor_new_good es args init : args_typed args ->
  ctor_good (args_context args init) (constructor_new source es args init).1.
Proof.
  intros [Hout Hsout]. unfold constructor_new.
  pose proof (serial_ids_role es init (map utxo_input (args_inputs_to_contribute args))) as [Hin Hinv].
  destruct (with_serial_ids source es init _) as [ins es1]. cbn in Hin, Hinv.
  set (r := match args_shared_funding_input args with Some _ => _ | None => _ end).
  assert (Forall (fun p => role_of (args_context args init) p.1 = Local /\
    forall s, p.2 = InputShared s -> args_shared_funding_input args = Some s) r.1) as Hr.
  { assert (Forall (fun p : Z * InputOwned => role_of (args_context args init) p.1 = Local /\
      forall s, p.2 = InputShared s -> args_shared_funding_input args = Some s) ins) as Hins.
    { apply Forall_forall. intros p Hp. rewrite Forall_forall in Hin. split; [by apply args_role, Hin|].
      intros s Hs. assert (p.2 ∈ map utxo_input (args_inputs_to_contribute args)) as Hu
        by (rewrite <- Hinv; by apply list_elem_of_fmap_2).
      apply list_elem_of_fmap in Hu as (u & Hu & _). rewrite Hs in Hu. done. }
    unfold r. destruct (args_shared_funding_input args) as [s|] eqn:Es; [|done]. destruct init; [|done].
    pose proof (generated_serial_id es1 true) as Hk. destruct (generate_holder_serial_id source es1 true) as [k es2].
    cbn in *. apply Forall_app. split; [done|]. apply Forall_singleton. split; [by apply args_role|]. by intros s' [= <-]. }
  destruct r as [ins' es2]. cbn in Hr.
  pose proof (serial_ids_role es2 init (map OutputSingle (args_outputs_to_contribute args))) as [Hon Honv].
  destruct (with_serial_ids source es2 init _) as [outs es3]. cbn in Hon, Honv.
  set (r2 := if init then _ else _).
  assert (Forall (fun p => role_of (args_context args init) p.1 = Local /\ 0 <= value (tx_out p.2)) r2.1) as Hr2.
  { assert (Forall (fun p : Z * OutputOwned => role_of (args_context args init) p.1 = Local /\
      0 <= value (tx_out p.2)) outs) as Houts.
    { apply Forall_forall. intros p Hp. rewrite Forall_forall in Hon. split; [by apply args_role, Hon|].
      assert (p.2 ∈ map OutputSingle (args_outputs_to_contribute args)) as Hu
        by (rewrite <- Honv; by apply list_elem_of_fmap_2).
      apply list_elem_of_fmap in Hu as (u & -> & Hu). rewrite Forall_forall in Hout. by apply Hout. }
    unfold r2. destruct init; [|done].
    pose proof (generated_serial_id es3 true) as Hk. destruct (generate_holder_serial_id source es3 true) as [k es4].
    cbn in *. apply Forall_app. split; [done|]. apply Forall_singleton. split; [by apply args_role|done]. }
  destruct r2 as [outs' es4]. cbn in Hr2. split; cbn [state_machine inputs_to_contribute outputs_to_contribute fst].
  - assert (good (args_context args init) (args_context args init)) as Hg by (split; [apply context_new_inv|done]).
    unfold machine_new. by destruct init.
  - rewrite sort_by_perm. exact Hr.
  - rewrite sort_by_perm. exact Hr2.
Qed.

(** The constructors a peer can reach: a new one, and whatever messages the
    counterparty sends, in any order. *)
Inductive ctor_reachable (es : ES) (args : InteractiveTxConstructorArgs) : bool -> InteractiveTxConstructor -> Prop :=
| reach_outbound : ctor_reachable es args true (new_for_outbound source es args).1.1
| reach_inbound : ctor_reachable es args false (new_for_inbound source es args).1
| reach_add_input init ctor m : ctor_reachable es args init ctor ->
    ctor_reachable es args init (handle_tx_add_input m ctor).2
| reach_remove_input init ctor m : ctor_reachable es args init ctor ->
    ctor_reachable es args init (handle_tx_remove_input m ctor).2
| reach_add_output init ctor m : ctor_reachable es args init ctor -> 0 <= sats m ->
    ctor_reachable es args init (handle_tx_add_output m ctor).2
| reach_remove_output init ctor m : ctor_reachable es args init ctor ->
    ctor_reachable es args init (handle_tx_remove_output m ctor).2
| reach_complete init ctor m : ctor_reachable es args init ctor ->
    ctor_reachable es args init (handle_tx_complete m ctor).2.

Lemma reachable_good es args init ctor : args_typed args -> ctor_reachable es args init ctor ->
  ctor_good (args_context args init) ctor.
Proof.
  intros Ha. induction 1 as [| |init ctor m _ IH|init ctor m _ IH|init ctor m _ IH Hs|init ctor m _ IH|init ctor m _ IH].
  - unfold new_for_outbound. pose proof (constructor_new_good es args true Ha) as H.
    destruct (constructor_new source es args true) as [ctor es']. cbn in H.
    pose proof (maybe_send_good _ _ H) as H'. by destruct (maybe_send_message ctor) as [[msg|e] ctor'].
  - by apply constructor_new_good.
  - by apply handle_change_good.
  - by apply handle_change_good.
  - by apply handle_change_good.
  - by apply handle_change_good.
  - by apply handle_complete_good.
Qed.

(** C18: whatever the counterparty sends, a transaction the negotiation completes
    with is sound: at most 252 inputs and 252 outputs and a standard weight; no
    outpoint spent twice; inputs and outputs in the order of their serial ids; the
    funding output, and the funding input of a splice, present at the recorded
    indices; and every input the counterparty added signals replaceability and
    spends a witness program, every output it added is standard and between the
    dust limit and the money supply. *)
Theorem negotiated_transaction_valid es args init ctor session :
  args_typed args -> ctor_reachable es args init ctor -> into_signing_session ctor = Return session ->
  valid_constructed init (funding_tx_locktime args) (args_shared_funding_input args)
    (args_shared_funding_output args) (unsigned_tx session).
Proof.
  intros Ha Hr Hs. pose proof (good_machine _ _ (reachable_good es args init ctor Ha Hr)) as Hg.
  unfold into_signing_session in Hs. destruct (state_machine ctor); try done. injection Hs as <-. cbn in Hg.
  destruct Hg as (c & [Hinv (_ & _ & H1 & H2 & H3 & H4 & _)] & Hcomp). cbn in *.
  rewrite <- H1, <- H2, <- H3, <- H4. by apply complete_valid.
Qed.
End entropy.
End constructors.

(** ** Fees *)

Section fees.
Context {bitcoin : Bitcoin} {scriptlib : ScriptLib} {txlib : TxLib} {txhash : TxHash} {order : HashOrder}.
Context {order_laws : HashOrderLaws}.

Lemma saturating_fold_le {V} (f : V -> Z) (l : list (Z * V)) acc :
  foldl (fun acc '(_, v) => saturating_add 64 acc (f v)) acc l <= acc + zsum (map f l.*2).
Proof.
  revert acc. induction l as [|[k v] l IH]; intros acc; [cbn; lia|].
  change (zsum (map f ((k, v) :: l).*2)) with (f v + zsum (map f l.*2)). cbn [foldl].
  specialize (IH (saturating_add 64 acc (f v))). unfold saturating_add, umax in *. lia.
Qed.

Lemma saturating_fold_exact {V} (f : V -> Z) (l : list (Z * V)) acc :
  Forall (fun v => 0 <= f v) l.*2 -> acc + zsum (map f l.*2) < 2 ^ 64 ->
  foldl (fun acc '(_, v) => saturating_add 64 acc (f v)) acc l = acc + zsum (map f l.*2).
Proof.
  revert acc. induction l as [|[k v] l IH]; intros acc Hl Hs; [cbn; lia|].
  change (zsum (map f ((k, v) :: l).*2)) with (f v + zsum (map f l.*2)) in *. cbn [foldl].
  apply Forall_cons in Hl as [Hv Hl]. pose proof (zsum_nonneg (map f l.*2) ltac:(by apply Forall_map)).
  unfold saturating_add, umax. rewrite Z.min_l by lia. rewrite IH by (done || lia). lia.
Qed.

Lemma zsum_upper (b : Z) l : Forall (fun x => x <= b) l -> zsum l <= b * Z.of_nat (length l).
Proof. induction 1 as [|x l Hx Hl IH]; [cbn; lia|]. change (zsum (x :: l)) with (x + zsum l). cbn [length]. lia. Qed.

Lemma remote_output_value_range c k o : context_inv c -> outputs c !! k = Some o ->
  0 <= output_local_owned (shared_funding_output c) ->
  0 <= value (shared_tx_out (shared_funding_output c)) <= TOTAL_BITCOIN_SUPPLY_SATOSHIS ->
  0 <= output_remote_value o <= TOTAL_BITCOIN_SUPPLY_SATOSHIS.
Proof.
  intros Hinv Hk Hown Hval. unfold output_remote_value, output_owned_remote_value, TOTAL_BITCOIN_SUPPLY_SATOSHIS in *.
  destruct (itx_output o) as [out|s] eqn:Eo.
  - destruct (output_added_by o) eqn:Er; [lia|].
    pose proof (inv_remote_output _ Hinv _ _ Hk Er) as [[_ Hle] _]. pose proof (inv_output_typed _ Hinv _ _ Hk) as Hty.
    unfold output_value, TOTAL_BITCOIN_SUPPLY_SATOSHIS in *. rewrite Eo in Hty, Hle. cbn in *. lia.
  - rewrite (inv_shared_output _ Hinv _ _ Hk s Eo). unfold output_remote_owned, saturating_sub. lia.
Qed.

End fees.

(** ** Witnesses *)

Definition empty_session : InteractiveTxSigningSession :=
  mkSession (mkConstructed true [] [] (mkTransaction 0 0 [] []) None 0) false false None None None.

Definition example_complete : TxComplete := mkTxComplete [7].
Definition example_events : list event :=
  [Sent (MAddOutput (mkTxAddOutput [7] 2 100000 (p2wsh_of 9))) 0; Received (MComplete example_complete);
   Sent (MComplete example_complete) 0].


(** The initiator of the example, whose counterparty adds nothing. *)
Definition example_ctor : InteractiveTxConstructor :=
  let h c := (handle_tx_complete example_complete c).2 in
  h (h (h (new_for_outbound counter_source 2 example_args_a).1.1)).
Definition example_session : InteractiveTxSigningSession :=
  returned (into_signing_session example_ctor) empty_session.

Lemma negotiated_transaction_valid_witness :
  valid_constructed true 500 None (mkSharedOutput example_funding 100000) (unsigned_tx example_session).
Proof.
  apply (negotiated_transaction_valid counter_source 2 example_args_a true example_ctor example_session).
  - split; [prove_forall|]; cbn; lia.
  - do 3 apply reach_complete. apply reach_outbound.
  - apply returned_eq. vm_compute. reflexivity.
Defined.

(** The acceptor of the example, after the initiator's three messages. *)
Definition example_machine : StateMachine :=
  machine_run (machine_new (bitcoin := toy_bitcoin) 22 11 1000 false 500 None (mkSharedOutput example_funding 0))
    [Received (MAddInput (mkTxAddInput [7] 2 (Some (example_prevtx 1)) 0 0xFFFFFFFD None)); Sent (MComplete example_complete) 0;
     Received (MAddOutput (mkTxAddOutput [7] 4 95000 (p2wpkh_of 1))); Sent (MComplete example_complete) 0;
     Received (MAddOutput (mkTxAddOutput [7] 6 100000 (p2wsh_of 9))); Sent (MComplete example_complete) 0].
Definition example_start : NegotiationContext := context_new (bitcoin := toy_bitcoin) 22 11 false None (mkSharedOutput example_funding 0) 500 1000.
Definition example_context : NegotiationContext :=
  match example_machine with SentTxComplete c => c | _ => example_start end.

Lemma example_context_good : good example_start example_context.
Proof.
  assert (machine_good example_start example_machine) as Hg.
  { unfold example_machine, machine_run. cbn [foldl machine_step].
    repeat first [apply sent_good; [done|] | apply received_good; [cbn; lia|]].
    split; [apply context_new_inv|done]. }
  unfold example_context. assert (turn example_machine = Some (false, true)) as Ht by (vm_compute; reflexivity).
  destruct example_machine; try done.
Qed.


(** ** Inputs that come back *)

Section removed.
Context {bitcoin : Bitcoin} {scriptlib : ScriptLib} {txlib : TxLib} {txhash : TxHash} {order : HashOrder}.

(** An input the counterparty added and removed cannot be added again: removing
    it leaves its outpoint among those already seen, so a second [tx_add_input] for
    it aborts the negotiation, under whatever serial id it comes. *)
Theorem removed_input_cannot_return c m c1 rm c2 m2 c3 :
  received_tx_add_input c m = Ok c1 -> received_tx_remove_input c1 rm = Ok c2 ->
  (fun input => previous_output input.1) <$> message_input c m2 =
    (fun input => previous_output input.1) <$> message_input c m ->
  received_tx_add_input c2 m2 <> Ok c3.
Proof.
  intros Hadd Hrm Hm Hadd'.
  apply received_add_input_ok in Hadd as (input & op & n & -> & _ & _ & _ & _ & Hop & _ & Hin).
  unfold received_tx_remove_input in Hrm. destruct (negb _); [done|]. destruct (inputs _ !! _); [|done].
  injection Hrm as <-.
  apply received_add_input_ok in Hadd' as (input' & op' & n' & _ & _ & _ & _ & Hnew & Hop' & _ & Hin').
  change (message_input c m2 = Some (into_tx_in_with_prev_output input')) in Hin'.
  rewrite Hin, Hin' in Hm. cbn in Hm. injection Hm as Hm. apply Hnew. cbn [set_inputs prevtx_outpoints].
  apply elem_of_union_l, elem_of_singleton. by rewrite Hop, Hop', <- !tx_in_view.
Qed.
End removed.

Definition example_add : TxAddInput := mkTxAddInput [7] 2 (Some (example_prevtx 1)) 0 0xFFFFFFFD None.
Definition example_added : NegotiationContext :=
  match received_tx_add_input example_start example_add with Ok c => c | Err _ => example_start end.
Definition example_removed : NegotiationContext :=
  match received_tx_remove_input example_added (mkTxRemoveInput [7] 2) with Ok c => c | Err _ => example_start end.

Lemma removed_input_cannot_return_witness :
  is_ok (received_tx_add_input example_removed (mkTxAddInput [7] 4 (Some (example_prevtx 1)) 0 0 None)) = false.
Proof.
  destruct (received_tx_add_input example_removed _) as [c3|] eqn:E; [exfalso; revert E|reflexivity].
  apply (removed_input_cannot_return example_start example_add example_added (mkTxRemoveInput [7] 2)).
  - assert (is_ok (received_tx_add_input example_start example_add) = true) as H by (vm_compute; reflexivity).
    unfold example_added. destruct (received_tx_add_input example_start example_add); [reflexivity|discriminate H].
  - assert (is_ok (received_tx_remove_input example_added (mkTxRemoveInput [7] 2)) = true) as H by (vm_compute; reflexivity).
    unfold example_removed. destruct (received_tx_remove_input example_added _); [reflexivity|discriminate H].
  - reflexivity.
Defined.

(** ** The funding output of a splice, spent as an ordinary input *)

(** A splice of a channel of 200,000 satoshis into one of the same size; the
    holder, not the initiator, owns 150,000 of it before and after.  The initiator
    adds the channel's funding output either as the shared input or, with the
    transaction that created it, as an input of its own. *)
Definition splice_prevtx : Transaction := mkTransaction 2 1 [] [mkTxOut 200000 (p2wsh_of 8)].
Definition splice_outpoint : OutPoint := mkOutPoint (compute_txid splice_prevtx) 0.
Definition splice_start : NegotiationContext :=
  context_new (bitcoin := toy_bitcoin) 22 11 false
    (Some (mkSharedInput (mkTxIn splice_outpoint [] 0xFFFFFFFD []) (mkTxOut 200000 (p2wsh_of 8)) 150000 true []))
    (mkSharedOutput (mkTxOut 200000 (p2wsh_of 9)) 150000) 500 1000.
Definition splice_add (shared : bool) : TxAddInput :=
  if shared then mkTxAddInput [7] 2 None 0 0xFFFFFFFD (Some (compute_txid splice_prevtx))
  else mkTxAddInput [7] 2 (Some splice_prevtx) 0 0xFFFFFFFD None.
Definition splice_result (shared : bool) : result AbortReason ConstructedTransaction :=
  c ← received_tx_add_input splice_start (splice_add shared);
  c ← received_tx_add_output c (mkTxAddOutput [7] 4 200000 (p2wsh_of 9));
  constructed_new c.

