(* ===== verification/Agreement.v ===== *)
(** * The two peers agree (lightning/src/ln/interactivetxs.rs)

    Two state machines that exchange messages keep mirrored contexts, whatever
    the iteration orders of their hash maps, so that when both complete they hold
    the same transaction and exactly one of them sends its signatures first.  Two
    constructors that talk to each other always come to an end. *)

From Stdlib Require Import ZArith Lia Bool Sorting.Sorted.
From stdpp Require Import gmap relations.
From S2P Require Import Prelude.
From S2P Require Import Features.
From S2P Require Import Keys.
From S2P Require Import Order.
From S2P Require Import Scripts.
From S2P Require Import CommitmentTx.
From S2P Require Import TxBuilder.
From S2P Require Import InteractiveTx.
From S2P Require Import Negotiation.

Local Open Scope Z_scope.

(** ** Mirrored contexts *)

Section mirror.
Context {bitcoin : Bitcoin} {scriptlib : ScriptLib} {txlib : TxLib} {txhash : TxHash}.

(** What both peers see of an input or an output. *)
Definition input_view (i : InteractiveTxInput) : Z * (TxIn * TxOut) :=
  (input_serial_id i, into_tx_in_with_prev_output (itx_input i)).
Definition output_view (o : InteractiveTxOutput) : Z * TxOut := (output_serial_id o, tx_out (itx_output o)).
Definition shared_view (s : SharedOwnedInput) : TxIn * TxOut := (shared_input_txin s, shared_prev_output s).

Record mirror (ida idb : PublicKey) (a b : NegotiationContext) : Prop := {
  mirror_role : holder_is_initiator b = negb (holder_is_initiator a);
  mirror_ids : holder_node_id a = ida /\ counterparty_node_id a = idb /\ holder_node_id b = idb /\
    counterparty_node_id b = ida;
  mirror_locktime : tx_locktime b = tx_locktime a;
  mirror_sin : shared_view <$> shared_funding_input a = shared_view <$> shared_funding_input b;
  mirror_sout : shared_tx_out (shared_funding_output a) = shared_tx_out (shared_funding_output b);
  mirror_inputs : input_view <$> inputs a = input_view <$> inputs b;
  mirror_outputs : output_view <$> outputs a = output_view <$> outputs b;
  mirror_input_key : map_Forall (fun k i => input_serial_id i = k) (inputs a);
  mirror_output_key : map_Forall (fun k o => output_serial_id o = k) (outputs a);
}.

Lemma view_key {V W} (key : W -> Z) (view : V -> W) (m m' : gmap Z V) :
  view <$> m = view <$> m' -> map_Forall (fun k v => key (view v) = k) m -> map_Forall (fun k v => key (view v) = k) m'.
Proof.
  intros Heq Hm k v Hv. assert ((view <$> m) !! k = Some (view v)) as H by (by rewrite Heq, lookup_fmap, Hv).
  rewrite lookup_fmap in H. destruct (m !! k) as [v'|] eqn:E; [|done]. injection H as <-. by apply Hm.
Qed.

Lemma mirror_sym ida idb a b : mirror ida idb a b -> mirror idb ida b a.
Proof.
  intros [H1 (H2 & H2' & H2'' & H2''') H3 H4 H5 H6 H7 H8 H9]. split; try done.
  - by rewrite H1, negb_involutive.
  - exact (view_key fst input_view _ _ H6 H8).
  - exact (view_key fst output_view _ _ H7 H9).
Qed.

Lemma mirror_message_input ida idb a b m : mirror ida idb a b -> message_input a m = message_input b m.
Proof. intros Hm. unfold message_input. destruct (shared_input_txid m); [|done]. apply (mirror_sin _ _ _ _ Hm). Qed.

Section steps.
Context {oa ob : HashOrder}.

Lemma mirror_add_input ida idb a b a' b' m w : mirror ida idb a b -> sent_tx_add_input a m w = Ok a' ->
  received_tx_add_input (order := ob) b m = Ok b' -> mirror ida idb a' b'.
Proof.
  intros Hm Ha Hb. apply sent_add_input_ok in Ha as (ia & opa & -> & _ & Hia & _).
  apply received_add_input_ok in Hb as (ib & opb & n & -> & _ & _ & _ & _ & _ & _ & Hib).
  rewrite (mirror_message_input ida idb a b m Hm), Hib in Hia. injection Hia as Hview.
  destruct Hm as [H1 H2 H3 H4 H5 H6 H7 H8 H9]. split; cbn; try done; [|by apply map_Forall_insert_2].
  rewrite !fmap_insert, H6. f_equal. unfold input_view. cbn. by rewrite Hview.
Qed.

Lemma mirror_remove_input ida idb a b a' b' m : mirror ida idb a b -> sent_tx_remove_input a m = Ok a' ->
  received_tx_remove_input b m = Ok b' -> mirror ida idb a' b'.
Proof.
  intros Hm [= <-] Hb. unfold received_tx_remove_input in Hb. destruct (negb _); [done|].
  destruct (inputs b !! _); [|done]. injection Hb as <-.
  destruct Hm as [H1 H2 H3 H4 H5 H6 H7 H8 H9]. split; cbn; try done; [by rewrite !fmap_delete, H6|by apply map_Forall_delete].
Qed.

Lemma received_add_output_shape c m c' : received_tx_add_output (order := ob) c m = Ok c' ->
  exists output n, tx_out output = mkTxOut (sats m) (script m) /\
    c' = set_outputs c n (<[ao_serial_id m := mkInteractiveOutput (ao_serial_id m) Remote output]> (outputs c)).
Proof.
  unfold received_tx_add_output. intros H. destruct (negb (valid_for_counterparty _ _)); [done|].
  do 3 (destruct (_ <? _); [done|]). destruct (negb _); [done|]. case_bool_decide as Heq.
  - destruct (holder_is_initiator c); [done|]. destruct (existsb _ _); [done|]. cbn in H.
    destruct (outputs c !! _); [done|]. injection H as <-.
    exists (OutputShared (shared_funding_output c)). eexists. by split.
  - cbn in H. destruct (outputs c !! _); [done|]. injection H as <-.
    exists (OutputSingle (mkTxOut (sats m) (script m))). eexists. by split.
Qed.

Lemma mirror_add_output ida idb a b a' b' m : mirror ida idb a b -> sent_tx_add_output a m = Ok a' ->
  received_tx_add_output (order := ob) b m = Ok b' -> mirror ida idb a' b'.
Proof.
  intros Hm [= <-] Hb. apply received_add_output_shape in Hb as (out & n & Hout & ->).
  destruct Hm as [H1 H2 H3 H4 H5 H6 H7 H8 H9]. split; cbn; try done; [|by apply map_Forall_insert_2].
  rewrite !fmap_insert, H7. f_equal. unfold output_view. cbn. rewrite Hout.
  case_bool_decide as Heq; [|done]. cbn. by rewrite <- Heq.
Qed.

Lemma mirror_remove_output ida idb a b a' b' m : mirror ida idb a b -> sent_tx_remove_output a m = Ok a' ->
  received_tx_remove_output b m = Ok b' -> mirror ida idb a' b'.
Proof.
  intros Hm [= <-] Hb. unfold received_tx_remove_output in Hb. destruct (negb _); [done|].
  destruct (outputs b !! _); [|done]. injection Hb as <-.
  destruct Hm as [H1 H2 H3 H4 H5 H6 H7 H8 H9]. split; cbn; try done; [by rewrite !fmap_delete, H7|by apply map_Forall_delete].
Qed.

(** ** Mirrored contexts build the same transaction *)

Context {oa_laws : HashOrderLaws (H := oa)} {ob_laws : HashOrderLaws (H := ob)}.

Lemma view_values {V W} (o : HashOrder) (laws : HashOrderLaws (H := o)) (view : V -> W) (m : gmap Z V) :
  map view (hash_values (H := o) m) ≡ₚ (map_to_list (view <$> m)).*2.
Proof.
  unfold hash_values. rewrite map_to_list_fmap. change (map view) with (fmap (M:=list) view).
  rewrite <- !list_fmap_compose. rewrite hash_iter_perm. apply Permutation_refl'. apply list_fmap_ext.
  by intros i [k v] _.
Qed.

(** Sorting by a key that determines the elements does not depend on the order
    of the input. *)
Lemma sort_values_eq {V W P} (cmp : P -> P -> comparison) `{!CmpLaws cmp} (f : W -> P) (view : V -> W)
    (m m' : gmap Z V) :
  view <$> m = view <$> m' ->
  (forall k k' v v', m !! k = Some v -> m !! k' = Some v' -> cmp (f (view v)) (f (view v')) = Eq -> k = k') ->
  sort_by cmp (map (fun v => f (view v)) (hash_values (H := oa) m)) =
  sort_by cmp (map (fun v => f (view v)) (hash_values (H := ob) m')).
Proof.
  intros Heq Hkey. apply (sorted_unique cmp).
  - rewrite !sort_by_perm. rewrite <- !(map_map view f). by rewrite !view_values, Heq.
  - intros x y. rewrite !sort_by_perm. intros Hx Hy Hcmp.
    apply list_elem_of_fmap in Hx as (v & -> & [k Hk]%elem_of_hash_values).
    apply list_elem_of_fmap in Hy as (v' & -> & [k' Hk']%elem_of_hash_values).
    pose proof (Hkey k k' v v' Hk Hk' Hcmp) as ->. congruence.
  - apply sort_by_sorted. done.
  - apply sort_by_sorted. done.
Qed.

Lemma mirror_sorted_inputs ida idb a b : mirror ida idb a b -> sorted_inputs (order := oa) a = sorted_inputs (order := ob) b.
Proof.
  intros Hm. unfold sorted_inputs.
  set (f := fun w : Z * (TxIn * TxOut) => (w.2.1, mkTxInMetadata w.1 w.2.2)).
  assert (forall i, into_txin_and_metadata i = f (input_view i)) as Hf by (intros i; unfold f; cbn; by destruct (itx_input i) eqn:E; unfold into_txin_and_metadata; rewrite E).
  rewrite !(map_ext _ _ Hf). apply sort_values_eq; [apply serial_cmp_laws|apply (mirror_inputs _ _ _ _ Hm)|].
  intros k k' v v' Hk Hk'. unfold serial_cmp, f. cbn. intros Hc%Z.compare_eq_iff.
  by rewrite <- (mirror_input_key _ _ _ _ Hm k v Hk), Hc, (mirror_input_key _ _ _ _ Hm k' v' Hk').
Qed.

Lemma mirror_sorted_outputs ida idb a b : mirror ida idb a b -> sorted_outputs (order := oa) a = sorted_outputs (order := ob) b.
Proof.
  intros Hm. unfold sorted_outputs.
  set (f := fun w : Z * TxOut => (w.2, mkTxOutMetadata w.1)).
  change (map into_txout_and_metadata) with (map (fun o => f (output_view o))).
  apply sort_values_eq; [apply serial_cmp_laws|apply (mirror_outputs _ _ _ _ Hm)|].
  intros k k' v v' Hk Hk'. unfold serial_cmp, f. cbn. intros Hc%Z.compare_eq_iff.
  by rewrite <- (mirror_output_key _ _ _ _ Hm k v Hk), Hc, (mirror_output_key _ _ _ _ Hm k' v' Hk').
Qed.

(** The same transaction, seen from the other side. *)
Record same_transaction (t t' : ConstructedTransaction) : Prop := {
  same_tx : constructed_tx t' = constructed_tx t;
  same_role : cons_holder_is_initiator t' = negb (cons_holder_is_initiator t);
  same_input_metadata : input_metadata t' = input_metadata t;
  same_output_metadata : output_metadata t' = output_metadata t;
  same_input_index : shared_input_index t' = shared_input_index t;
  same_output_index : shared_output_index t' = shared_output_index t;
}.

Lemma mirror_assemble ida idb a b : mirror ida idb a b -> same_transaction (assemble (order := oa) a) (assemble (order := ob) b).
Proof.
  intros Hm. pose proof (mirror_sorted_inputs ida idb a b Hm) as Hi. pose proof (mirror_sorted_outputs ida idb a b Hm) as Ho.
  destruct Hm as [H1 H2 H3 H4 H5 _ _ _ _]. split; cbn [assemble constructed_tx cons_holder_is_initiator
    input_metadata output_metadata shared_input_index shared_output_index];
    fold (sorted_inputs (order := oa) a); fold (sorted_outputs (order := oa) a);
    fold (sorted_inputs (order := ob) b); fold (sorted_outputs (order := ob) b); rewrite ?Hi, ?Ho, ?H3; try done.
  - destruct (shared_funding_input a) as [sa|], (shared_funding_input b) as [sb|]; try done.
    cbn in *. injection H4 as Hv _. by rewrite Hv.
  - by rewrite H5.
Qed.

Lemma local_remote_swap t t' : same_transaction t t' ->
  local_contributed_input_value t' = remote_contributed_input_value t /\
  remote_contributed_input_value t' = local_contributed_input_value t.
Proof.
  intros [_ Hr Hi _ _ _]. unfold local_contributed_input_value, remote_contributed_input_value. rewrite Hr, Hi.
  assert (forall init meta, input_is_local (negb init) meta = negb (input_is_local init meta)) as Hl.
  { intros init meta. unfold input_is_local, is_serial_id_valid_for_counterparty.
    by destruct init, (is_for_non_initiator _). }
  split; do 2 f_equal; apply List.filter_ext; intros meta; rewrite Hl; by rewrite ?negb_involutive.
Qed.

Lemma slice_cmp_opposite l r : l <> r ->
  bool_decide (slice_cmp r l = Lt) = negb (bool_decide (slice_cmp l r = Lt)).
Proof.
  intros Hne. rewrite (cmp_antisym slice_cmp l r). destruct (slice_cmp l r) eqn:E; try done.
  by apply slice_cmp_Eq in E.
Qed.

Lemma mirror_complete ida idb a b sa sb : mirror ida idb a b ->
  complete_transition (order := oa) a = Ok sa -> complete_transition (order := ob) b = Ok sb ->
  same_transaction (unsigned_tx sa) (unsigned_tx sb) /\
  (serialize ida <> serialize idb ->
   holder_sends_tx_signatures_first sb = negb (holder_sends_tx_signatures_first sa)).
Proof.
  unfold complete_transition. intros Hm Ha Hb.
  destruct (constructed_new (order := oa) a) as [ta|] eqn:Ea; [|done].
  destruct (constructed_new (order := ob) b) as [tb|] eqn:Eb; [|done].
  cbn in Ha, Hb. injection Ha as <-. injection Hb as <-. cbn [unsigned_tx holder_sends_tx_signatures_first].
  apply constructed_ok in Ea as (-> & _). apply constructed_ok in Eb as (-> & _).
  pose proof (mirror_assemble ida idb a b Hm) as Hs. split; [done|]. intros Hne.
  destruct (local_remote_swap _ _ Hs) as [-> ->].
  destruct Hm as [_ (-> & -> & -> & ->) _ _ _ _ _ _ _]. rewrite (Z.eqb_sym (remote_contributed_input_value _)).
  set (la := local_contributed_input_value (assemble (order := oa) a)).
  set (ra := remote_contributed_input_value (assemble (order := oa) a)).
  destruct (Z.eqb_spec la ra) as [|Hv]; [by apply slice_cmp_opposite|].
  destruct (Z.ltb_spec ra la), (Z.ltb_spec la ra); done || lia.
Qed.
End steps.
End mirror.

(** ** Two machines exchanging messages *)

Section joint.
Context {bitcoin : Bitcoin} {scriptlib : ScriptLib} {txlib : TxLib} {txhash : TxHash}.

(** The machines of two peers between messages. *)
Definition in_sync (ida idb : PublicKey) (sa sb : StateMachine) : Prop :=
  match sa, sb with
  | NegotiationAborted _, _ | _, NegotiationAborted _ => True
  | ReceivedChangeMsg a, SentChangeMsg b | SentChangeMsg a, ReceivedChangeMsg b
  | ReceivedTxComplete a, SentTxComplete b | SentTxComplete a, ReceivedTxComplete b => mirror ida idb a b
  | NegotiationComplete x, NegotiationComplete y =>
      same_transaction (unsigned_tx x) (unsigned_tx y) /\
      (serialize ida <> serialize idb ->
       holder_sends_tx_signatures_first y = negb (holder_sends_tx_signatures_first x))
  | _, _ => False
  end.

Lemma in_sync_sym ida idb sa sb : in_sync ida idb sa sb -> in_sync idb ida sb sa.
Proof.
  destruct sa, sb; cbn; try done; try apply mirror_sym. intros [[H1 H2 H3 H4 H5 H6] Hf]. split.
  - by split; rewrite ?H2, ?negb_involutive.
  - intros Hne. rewrite Hf by congruence. by rewrite negb_involutive.
Qed.

Lemma in_sync_aborted ida idb sa reason : in_sync ida idb sa (NegotiationAborted reason).
Proof. by destruct sa. Qed.

Section orders.
Context {oa ob : HashOrder} {oa_laws : HashOrderLaws (H := oa)} {ob_laws : HashOrderLaws (H := ob)}.

Lemma transition_sync ida idb sa sb (opa opb : NegotiationContext -> result AbortReason NegotiationContext) :
  in_sync ida idb sa sb ->
  (forall a b a' b', mirror ida idb a b -> opa a = Ok a' -> opb b = Ok b' -> mirror ida idb a' b') ->
  in_sync ida idb (sent_transition opa sa) (received_transition opb sb).
Proof.
  intros Hs Hop. destruct sa as [|a|a|a|a| |], sb as [|b|b|b|b| |]; try done; cbn [sent_transition received_transition];
    try apply in_sync_aborted; unfold or_abort; (destruct (opa a) eqn:Ea; [|done]); (destruct (opb b) eqn:Eb; [|apply in_sync_aborted]);
    cbn in *; by eapply Hop.
Qed.

Lemma complete_sync ida idb a b : mirror ida idb a b ->
  in_sync ida idb (or_abort (complete_transition (order := oa) a) NegotiationComplete)
    (or_abort (complete_transition (order := ob) b) NegotiationComplete).
Proof.
  intros Hm. unfold or_abort. destruct (complete_transition (order := oa) a) eqn:Ea; [|done].
  destruct (complete_transition (order := ob) b) eqn:Eb; [|done]. exact (mirror_complete _ _ _ _ _ _ Hm Ea Eb).
Qed.

Lemma send_sync ida idb m w sa sb : in_sync ida idb sa sb ->
  in_sync ida idb (machine_sent (order := oa) m w sa) (machine_received (order := ob) m sb).
Proof.
  intros Hs. destruct m as [m|m|m|m|m]; cbn [machine_sent machine_received].
  - apply transition_sync; [done|]. intros a b a' b'. apply mirror_add_input.
  - apply transition_sync; [done|]. intros a b a' b'. apply mirror_remove_input.
  - apply transition_sync; [done|]. intros a b a' b'. apply mirror_add_output.
  - apply transition_sync; [done|]. intros a b a' b'. apply mirror_remove_output.
  - destruct sa, sb; try done; cbn in Hs; try apply in_sync_aborted. by apply complete_sync.
Qed.
End orders.
End joint.

Section agreement.
Context {bitcoin : Bitcoin} {scriptlib : ScriptLib} {txlib : TxLib} {txhash : TxHash}.
Context {oa ob : HashOrder} {oa_laws : HashOrderLaws (H := oa)} {ob_laws : HashOrderLaws (H := ob)}.

(** A message of either peer reaches the other one. *)
Inductive joint_step : StateMachine * StateMachine -> StateMachine * StateMachine -> Prop :=
| a_sends m w sa sb : joint_step (sa, sb) (machine_sent (order := oa) m w sa, machine_received (order := ob) m sb)
| b_sends m w sa sb : joint_step (sa, sb) (machine_received (order := oa) m sa, machine_sent (order := ob) m w sb).

Lemma joint_sync ida idb p q : rtc joint_step p q -> in_sync ida idb p.1 p.2 -> in_sync ida idb q.1 q.2.
Proof.
  induction 1 as [|p q r Hstep _ IH]; [done|]. intros Hs. apply IH. destruct Hstep; cbn in *.
  - by apply send_sync.
  - apply in_sync_sym, send_sync. by apply in_sync_sym.
Qed.

Lemma new_in_sync ida idb fa fb locktime sia sib soa sob :
  shared_view <$> sia = shared_view <$> sib -> shared_tx_out soa = shared_tx_out sob ->
  in_sync ida idb (machine_new ida idb fa true locktime sia soa) (machine_new idb ida fb false locktime sib sob).
Proof. intros Hi Ho. cbn. split; cbn; try done; apply map_Forall_empty. Qed.

(** C15: the two peers agree.  Whatever messages they exchange and however their
    hash maps are ordered, if both complete the negotiation they hold the same
    transaction with the same serial ids and the same funding indices, and, their
    node ids being different, exactly one of them is to send its signatures
    first, so that the exchange of signatures cannot deadlock. *)
Theorem peers_agree ida idb fa fb locktime sia sib soa sob x y :
  shared_view <$> sia = shared_view <$> sib -> shared_tx_out soa = shared_tx_out sob ->
  rtc joint_step
    (machine_new ida idb fa true locktime sia soa, machine_new idb ida fb false locktime sib sob)
    (NegotiationComplete x, NegotiationComplete y) ->
  same_transaction (unsigned_tx x) (unsigned_tx y) /\
  (serialize ida <> serialize idb ->
   holder_sends_tx_signatures_first y = negb (holder_sends_tx_signatures_first x)).
Proof.
  intros Hi Ho Hr. exact (joint_sync ida idb _ _ Hr (new_in_sync ida idb fa fb locktime sia sib soa sob Hi Ho)).
Qed.
End agreement.

(** ** Two constructors talking to each other *)

Section exchange.
Context {bitcoin : Bitcoin} {scriptlib : ScriptLib} {txlib : TxLib} {txhash : TxHash}.

Definition to_message (msg : InteractiveTxMessageSend) : Message :=
  match msg with
  | SendTxAddInput m => MAddInput m
  | SendTxAddOutput m => MAddOutput m
  | SendTxComplete m => MComplete m
  end.

(** The answer of a peer to a message. *)
Definition deliver (order : HashOrder) (msg : InteractiveTxMessageSend)
    : M InteractiveTxConstructor AbortReason (option InteractiveTxMessageSend) :=
  match msg with
  | SendTxAddInput m => answer ← handle_tx_add_input m; mret (Some answer)
  | SendTxAddOutput m => answer ← handle_tx_add_output m; mret (Some answer)
  | SendTxComplete m =>
      value ← handle_tx_complete m;
      mret match value with
           | SendTxMessage answer => Some answer
           | HandledNegotiationComplete answer _ => answer
           end
  end.

Inductive outcome : Type :=
| Completed (last first : InteractiveTxConstructor)
| Aborted (reason : AbortReason)
| OutOfFuel.

(** [msg] is on its way from [s] to [r]. *)
Fixpoint exchange (fuel : nat) (os or : HashOrder) (s r : InteractiveTxConstructor) (msg : InteractiveTxMessageSend)
    : outcome :=
  match fuel with
  | O => OutOfFuel
  | S fuel =>
      match deliver or msg r with
      | (Err reason, _) => Aborted reason
      | (Ok None, r) => Completed s r
      | (Ok (Some answer), r) => exchange fuel or os r s answer
      end
  end.

Definition rest {A} (index : option nat) (l : list A) : nat :=
  match index with Some i => length l - i | None => 0 end.
(** The inputs and outputs still to be sent. *)
Definition remaining (c : InteractiveTxConstructor) : nat :=
  rest (next_input_index c) (inputs_to_contribute c) + rest (next_output_index c) (outputs_to_contribute c).

Definition index_ok {A} (index : option nat) (l : list A) : Prop :=
  match index with Some i => (i < length l)%nat | None => True end.
Definition indices_ok (c : InteractiveTxConstructor) : Prop :=
  index_ok (next_input_index c) (inputs_to_contribute c) /\ index_ok (next_output_index c) (outputs_to_contribute c).

Definition is_change (msg : InteractiveTxMessageSend) : bool :=
  match msg with SendTxComplete _ => false | _ => true end.

Lemma next_index_ok {A} (index : option nat) (l : list A) : index_ok (next_index index l) l.
Proof. destruct index as [i|]; cbn; [|done]. by case_decide. Qed.

Lemma next_index_rest {A} (i : nat) (l : list A) : (i < length l)%nat ->
  S (rest (next_index (Some i) l) l) = rest (Some i) l.
Proof. intros Hi. cbn. case_decide; cbn; lia. Qed.

Lemma transition_cases f c :
  (exists reason, do_state_transition f c = (Err reason, set_machine c (f (state_machine c)))) \/
  (is_aborted (f (state_machine c)) = false /\ do_state_transition f c = (Ok tt, set_machine c (f (state_machine c)))).
Proof.
  unfold do_state_transition. cbn. destruct (f (state_machine c)); eauto.
Qed.

(** What a constructor sends, and how much is left. *)
Definition sent_spec (order : HashOrder) (c : InteractiveTxConstructor) (msg : InteractiveTxMessageSend)
    (c' : InteractiveTxConstructor) : Prop :=
  indices_ok c' /\ (exists w, state_machine c' = machine_sent (to_message msg) w (state_machine c)) /\
  is_aborted (state_machine c') = false /\
  if is_change msg then S (remaining c') = remaining c else remaining c = 0%nat /\ remaining c' = 0%nat.

Lemma maybe_send_spec (order : HashOrder) c msg c' : indices_ok c ->
  maybe_send_message c = (Ok msg, c') -> sent_spec order c msg c'.
Proof.
  intros [Hi Ho] H. unfold maybe_send_message, get_state, next_input_to_contribute in H.
  unfold mbind at 1 2 in H. unfold M_bind at 1 2 in H.
  destruct (next_input_index c) as [i|] eqn:Ei; cbn [mbind option_bind] in H.
  - cbn in Hi. destruct (lookup_lt_is_Some_2 _ _ Hi) as [[k input] Hk]. rewrite Hk in H.
    unfold mbind, M_bind in H. match type of H with context [do_state_transition ?f ?d] =>
      destruct (transition_cases f d) as [[reason E]|[Hab E]]; rewrite E in H end; [done|]. injection H as <- <-.
    split_and!; [split; [exact (next_index_ok (Some i) _)|exact Ho]|by eexists|exact Hab|].
    unfold remaining. rewrite Ei, <- (next_index_rest i (inputs_to_contribute c) Hi). done.
  - unfold next_output_to_contribute in H. unfold mbind at 1 in H. unfold M_bind at 1 in H.
    cbn [next_output_index set_next outputs_to_contribute] in H.
    destruct (next_output_index c) as [i|] eqn:Eo; cbn [mbind option_bind] in H.
    + cbn in Ho. destruct (lookup_lt_is_Some_2 _ _ Ho) as [[k output] Hk]. rewrite Hk in H.
      unfold mbind, M_bind in H. match type of H with context [do_state_transition ?f ?d] =>
        destruct (transition_cases f d) as [[reason E]|[Hab E]]; rewrite E in H end; [done|]. injection H as <- <-.
      split_and!; [split; [done|exact (next_index_ok (Some i) _)]|by exists 0|exact Hab|].
      unfold remaining. rewrite Ei, Eo. exact (next_index_rest i (outputs_to_contribute c) Ho).
    + unfold mbind, M_bind in H. match type of H with context [do_state_transition ?f ?d] =>
        destruct (transition_cases f d) as [[reason E]|[Hab E]]; rewrite E in H end; [done|]. injection H as <- <-.
      split_and!; [done|by exists 0|exact Hab|]. unfold remaining. by rewrite Ei, Eo.
Qed.

(** [msg] is on its way from [s] to [r]: the machines were in sync before [s]
    sent it. *)
Definition in_flight (os : HashOrder) (ida idb : PublicKey) (s r : InteractiveTxConstructor)
    (msg : InteractiveTxMessageSend) : Prop :=
  exists s0 w, in_sync ida idb s0 (state_machine r) /\
    state_machine s = machine_sent (to_message msg) w s0 /\ is_aborted (state_machine s) = false.

(** A bound on the messages to come. *)
Definition measure (s r : InteractiveTxConstructor) (msg : InteractiveTxMessageSend) : nat :=
  if is_change msg then 2 * (remaining s + remaining r) + 2
  else match state_machine r with
       | SentTxComplete _ => 0
       | _ => 2 * (remaining s + remaining r) + 1
       end.

Lemma sent_change_state (order : HashOrder) msg w s0 : is_change msg = true ->
  is_aborted (machine_sent (to_message msg) w s0) = false ->
  exists c, machine_sent (to_message msg) w s0 = SentChangeMsg c.
Proof.
  intros Hc Ha. destruct msg as [m|m|m]; [| |done]; cbn in *; destruct s0; try done; cbn in *;
    unfold or_abort in *; case_match; eauto; done.
Qed.

Lemma remaining_machine c s : remaining (set_machine c s) = remaining c.
Proof. done. Qed.

Section orders.
Context {os or : HashOrder} {os_laws : HashOrderLaws (H := os)} {or_laws : HashOrderLaws (H := or)}.

Lemma answer_in_flight ida idb s r r1 msg answer r' :
  in_flight os ida idb s r msg ->
  r1 = set_machine r (machine_received (order := or) (to_message msg) (state_machine r)) ->
  sent_spec or r1 answer r' -> in_flight or idb ida r' s answer.
Proof.
  intros (s0 & w & Hsync & Hs & Hab) -> (_ & [w' Hs'] & Hab' & _). exists (state_machine
    (set_machine r (machine_received (order := or) (to_message msg) (state_machine r)))), w'.
  split_and!; [|done|done]. apply in_sync_sym. rewrite Hs. by apply send_sync.
Qed.

Lemma deliver_change ida idb s r msg : is_change msg = true -> indices_ok r -> in_flight os ida idb s r msg ->
  match deliver or msg r with
  | (Err _, _) => True
  | (Ok None, _) => False
  | (Ok (Some answer), r') =>
      in_flight or idb ida r' s answer /\ indices_ok r' /\ (measure r' s answer < measure s r msg)%nat
  end.
Proof.
  intros Hc Hi Hf.
  assert (deliver or msg r = (answer ← handle_change (to_message msg); mret (Some answer)) r) as ->
    by (by destruct msg).
  unfold handle_change. unfold mbind, M_bind.
  destruct (transition_cases (machine_received (to_message msg)) r) as [[reason ->]|[Hab ->]]; [done|].
  set (r1 := set_machine r _). destruct (maybe_send_message r1) as [[answer|e] r'] eqn:E; [|done]. cbn.
  apply maybe_send_spec in E as Hspec; [|exact Hi].
  split; [by eapply answer_in_flight|]. destruct Hspec as (Hi' & _ & _ & Hrem). split; [done|].
  destruct Hf as (s0 & w & _ & Hs & Hsa). rewrite Hs in Hsa.
  destruct (sent_change_state os msg w s0 Hc Hsa) as [c Hsc].
  unfold measure. rewrite Hc, Hs, Hsc. change (remaining r1) with (remaining r) in Hrem.
  destruct (is_change answer); lia.
Qed.

Lemma deliver_complete ida idb s r m : indices_ok r -> in_flight os ida idb s r (SendTxComplete m) ->
  match deliver or (SendTxComplete m) r with
  | (Err _, _) => True
  | (Ok None, r') => in_sync ida idb (state_machine s) (state_machine r') /\ is_complete (state_machine s) = true /\
      is_complete (state_machine r') = true
  | (Ok (Some answer), r') =>
      in_flight or idb ida r' s answer /\ indices_ok r' /\
      (measure r' s answer < measure s r (SendTxComplete m))%nat
  end.
Proof.
  intros Hi Hf. unfold deliver, handle_tx_complete. unfold mbind, M_bind.
  destruct (transition_cases (machine_received (MComplete m)) r) as [[reason ->]|[Hab ->]]; [done|].
  set (r1 := set_machine r _). unfold get_state.
  pose proof Hf as (s0 & w & Hsync & Hs & Hsa).
  pose proof (send_sync (oa := os) (ob := or) ida idb (MComplete m) w s0 (state_machine r) Hsync) as Hsync'.
  change (to_message (SendTxComplete m)) with (MComplete m) in Hs. rewrite <- Hs in Hsync'.
  change (machine_received (MComplete m) (state_machine r)) with (state_machine r1) in Hsync'.
  destruct (state_machine r1) as [|c|c|c|c|x|e] eqn:E1; try done.
  - assert (exists c', state_machine s = SentTxComplete c') as [c' Es]
      by (cbn in Hsync'; destruct (state_machine s); try done; by eexists).
    destruct (maybe_send_message r1) as [[answer|e] r'] eqn:E; [|done]. cbn.
    apply maybe_send_spec in E as Hspec; [|exact Hi].
    assert (in_flight or idb ida r' s answer) as Hf' by (by eapply (answer_in_flight ida idb s r r1)).
    destruct Hspec as (Hi' & [w' Hs'] & Hab' & Hrem). change (remaining r1) with (remaining r) in Hrem.
    assert (measure r' s answer < measure s r (SendTxComplete m))%nat as Hmu.
    { unfold measure. cbn [is_change].
      assert (match state_machine r with SentTxComplete _ => False | _ => True end) as Hr.
      { assert (state_machine r1 = machine_received_tx_complete (state_machine r)) as Hr1 by done. rewrite E1 in Hr1.
        destruct (state_machine r); try done. cbn in Hr1. unfold or_abort in Hr1. by destruct (complete_transition _). }
      rewrite Es. destruct (is_change answer); [|destruct (state_machine r); done || lia].
      destruct (state_machine r); done || lia. }
    destruct (state_machine r') eqn:E'; cbn; done.
  - cbn in Hsync'. destruct (state_machine s); try done. cbn [M_bind M_ret mret]. change (in_sync ida idb (NegotiationComplete session) (state_machine r1) /\ true = true /\ is_complete (state_machine r1) = true). by rewrite E1.
Qed.
End orders.

(** Both peers hold the same transaction and one of them signs first. *)
Definition agreed (ida idb : PublicKey) (x y : InteractiveTxConstructor) : Prop :=
  exists sx sy, into_signing_session x = Return sx /\ into_signing_session y = Return sy /\
    same_transaction (unsigned_tx sx) (unsigned_tx sy) /\
    (serialize ida <> serialize idb ->
     holder_sends_tx_signatures_first sy = negb (holder_sends_tx_signatures_first sx)).

Lemma sync_agreed ida idb x y : in_sync ida idb (state_machine x) (state_machine y) ->
  is_complete (state_machine x) = true -> is_complete (state_machine y) = true -> agreed ida idb x y.
Proof.
  intros Hs Hx Hy. unfold agreed, into_signing_session.
  destruct (state_machine x) as [| | | | |sx|], (state_machine y) as [| | | | |sy|]; try done.
  exists sx, sy. cbn in Hs. tauto.
Qed.

Lemma agreed_ids ida idb x y : agreed ida idb x y -> agreed idb ida x y.
Proof. intros (sx & sy & H1 & H2 & H3 & H4). exists sx, sy. split_and!; [done..|]. intros Hne. apply H4. congruence. Qed.

Lemma exchange_spec fuel (os or : HashOrder) ida idb s r msg :
  HashOrderLaws (H := os) -> HashOrderLaws (H := or) ->
  in_flight os ida idb s r msg -> indices_ok s -> indices_ok r -> (measure s r msg < fuel)%nat ->
  match exchange fuel os or s r msg with
  | OutOfFuel => False
  | Aborted _ => True
  | Completed x y => agreed ida idb x y
  end.
Proof.
  revert os or ida idb s r msg. induction fuel as [|fuel IH]; intros os or ida idb s r msg Hos Hor Hf His Hir Hmu; [lia|].
  cbn [exchange]. destruct (is_change msg) eqn:Hc.
  - pose proof (deliver_change ida idb s r msg Hc Hir Hf) as Hd.
    destruct (deliver or msg r) as [[[answer|]|e] r']; try done. destruct Hd as (Hf' & Hi' & Hmu').
    specialize (IH or os idb ida r' s answer Hor Hos Hf' Hi' His ltac:(lia)).
    destruct (exchange _ _ _ _ _ _); try done. by apply agreed_ids.
  - destruct msg as [m|m|m]; try done. pose proof (deliver_complete ida idb s r m Hir Hf) as Hd.
    destruct (deliver or (SendTxComplete m) r) as [[[answer|]|e] r']; try done.
    + destruct Hd as (Hf' & Hi' & Hmu').
      specialize (IH or os idb ida r' s answer Hor Hos Hf' Hi' His ltac:(lia)).
      destruct (exchange _ _ _ _ _ _); try done. by apply agreed_ids.
    + destruct Hd as (Hs & Hcs & Hcr). by apply sync_agreed.
Qed.

(** *** From the constructors' arguments *)

Section args.
Context {ES : Type} (source : ES -> bytes * ES).

Lemma with_serial_ids_length {A} es init (l : list A) : length (with_serial_ids source es init l).1 = length l.
Proof.
  revert es. induction l as [|x l IH]; intros es; cbn; [done|].
  destruct (generate_holder_serial_id source es init) as [k es']. specialize (IH es').
  destruct (with_serial_ids source es' init l) as [rest' es'']. cbn in *. by rewrite IH.
Qed.

Lemma start_index {A} (l : list A) :
  index_ok (if decide (l = []) then None else Some 0%nat) l /\
  rest (if decide (l = []) then None else Some 0%nat) l = length l.
Proof. case_decide as H; [by rewrite H|]. destruct l; [done|]. cbn. lia. Qed.

Lemma constructor_new_indices es args init :
  let c := (constructor_new source es args init).1 in
  indices_ok c /\
  (remaining c <= length (args_inputs_to_contribute args) + length (args_outputs_to_contribute args) + 2)%nat /\
  state_machine c = machine_new (args_holder_node_id args) (args_counterparty_node_id args)
    (args_feerate_sat_per_kw args) init (funding_tx_locktime args) (args_shared_funding_input args)
    (args_shared_funding_output args).
Proof.
  unfold constructor_new.
  pose proof (with_serial_ids_length es init (map utxo_input (args_inputs_to_contribute args))) as Hl.
  destruct (with_serial_ids source es init _) as [ins es1]. rewrite length_map in Hl. cbn in Hl.
  set (r := match args_shared_funding_input args with Some _ => _ | None => _ end).
  assert (length r.1 <= length (args_inputs_to_contribute args) + 1)%nat as Hr.
  { unfold r. destruct (args_shared_funding_input args); [destruct init|]; cbn; try lia.
    destruct (generate_holder_serial_id source es1 true). cbn. rewrite length_app. cbn. lia. }
  destruct r as [ins' es2]. cbn in Hr.
  pose proof (with_serial_ids_length es2 init (map OutputSingle (args_outputs_to_contribute args))) as Hlo.
  destruct (with_serial_ids source es2 init _) as [outs es3]. rewrite length_map in Hlo. cbn in Hlo.
  set (r2 := if init then _ else _).
  assert (length r2.1 <= length (args_outputs_to_contribute args) + 1)%nat as Hr2.
  { unfold r2. destruct init; cbn; try lia.
    destruct (generate_holder_serial_id source es3 true). cbn. rewrite length_app. cbn. lia. }
  destruct r2 as [outs' es4]. cbn in Hr2. cbn [fst].
  destruct (start_index (sort_by (fun x y : Z * InputOwned => x.1 ?= y.1) ins')) as [Hi1 Hi2].
  destruct (start_index (sort_by (fun x y : Z * OutputOwned => x.1 ?= y.1) outs')) as [Ho1 Ho2].
  split_and!; [by split| |done]. unfold remaining. cbn [next_input_index next_output_index inputs_to_contribute outputs_to_contribute].
  rewrite Hi2, Ho2, !sort_by_perm. lia.
Qed.
End args.

(** C26: two peers that follow the protocol always come to an end, and to the same
    one.  Whatever inputs and outputs they bring, after at most two messages for
    each of them and a constant more the negotiation is aborted or completed, and
    when it is completed both peers have a signing session for the same
    transaction, exactly one of them first to sign. *)
Theorem negotiation_terminates {ES} (source_a source_b : ES -> bytes * ES) (oa ob : HashOrder)
    es_a es_b args_a args_b a msg es_a' fuel :
  HashOrderLaws (H := oa) -> HashOrderLaws (H := ob) ->
  args_counterparty_node_id args_a = args_holder_node_id args_b ->
  args_counterparty_node_id args_b = args_holder_node_id args_a ->
  funding_tx_locktime args_a = funding_tx_locktime args_b ->
  shared_view <$> args_shared_funding_input args_a = shared_view <$> args_shared_funding_input args_b ->
  shared_tx_out (args_shared_funding_output args_a) = shared_tx_out (args_shared_funding_output args_b) ->
  new_for_outbound (order := oa) source_a es_a args_a = (a, Some msg, es_a') ->
  (2 * (length (args_inputs_to_contribute args_a) + length (args_outputs_to_contribute args_a) +
        length (args_inputs_to_contribute args_b) + length (args_outputs_to_contribute args_b)) + 11 <= fuel)%nat ->
  match exchange fuel oa ob a (new_for_inbound source_b es_b args_b).1 msg with
  | OutOfFuel => False
  | Aborted _ => True
  | Completed x y => agreed (args_holder_node_id args_a) (args_holder_node_id args_b) x y
  end.
Proof.
  intros Hoa Hob Hida Hidb Hlock Hsi Hso Hnew Hfuel. unfold new_for_outbound in Hnew.
  destruct (constructor_new_indices source_a es_a args_a true) as (Hia & Hra & Hma).
  destruct (constructor_new source_a es_a args_a true) as [a0 es]. cbn in Hia, Hra, Hma.
  destruct (maybe_send_message a0) as [[m|e] a1] eqn:Esend; [|done]. injection Hnew as <- <- <-.
  apply maybe_send_spec in Esend as (Hia' & [w Hs] & Hab & Hrem); [|done].
  destruct (constructor_new_indices source_b es_b args_b false) as (Hib & Hrb & Hmb).
  unfold new_for_inbound. set (b := (constructor_new source_b es_b args_b false).1) in *.
  apply exchange_spec; try done.
  - exists (state_machine a0), w. split_and!; [|done|done]. rewrite Hma, Hmb, Hida, Hidb, Hlock.
    by apply new_in_sync.
  - unfold measure. rewrite Hmb. cbn [machine_new]. destruct (is_change m); lia.
Qed.
End exchange.

(** ** Examples *)

Definition session_of (s : StateMachine) : InteractiveTxSigningSession :=
  match s with NegotiationComplete session => session | _ => empty_session end.
Lemma session_of_complete s : is_complete s = true -> s = NegotiationComplete (session_of s).
Proof. by destruct s. Qed.

(** The initiator adds an input and the funding output, the acceptor nothing. *)
Definition example_pair : StateMachine * StateMachine :=
  (machine_new (bitcoin := toy_bitcoin) 11 22 1000 true 500 None (mkSharedOutput example_funding 100000),
   machine_new (bitcoin := toy_bitcoin) 22 11 1000 false 500 None (mkSharedOutput example_funding 0)).
Definition example_send (from_a : bool) (m : Message) (p : StateMachine * StateMachine) : StateMachine * StateMachine :=
  if from_a then (machine_sent (order := list_order) m 0 p.1, machine_received (order := reverse_order) m p.2)
  else (machine_received (order := list_order) m p.1, machine_sent (order := reverse_order) m 0 p.2).
Definition example_agreed : StateMachine * StateMachine :=
  foldl (fun p '(from_a, m) => example_send from_a m p) example_pair
    [(true, MAddInput (mkTxAddInput [7] 2 (Some (example_prevtx 1)) 0 0xFFFFFFFD None)); (false, MComplete example_complete);
     (true, MAddOutput (mkTxAddOutput [7] 2 100000 (p2wsh_of 9))); (false, MComplete example_complete);
     (true, MComplete example_complete)].
Lemma example_joint_step from_a m p : joint_step (oa := list_order) (ob := reverse_order) p (example_send from_a m p).
Proof. destruct p, from_a; [apply a_sends|apply b_sends]. Qed.

Lemma peers_agree_witness :
  (is_complete example_agreed.1 = true /\ is_complete example_agreed.2 = true) /\
  same_transaction (unsigned_tx (session_of example_agreed.1)) (unsigned_tx (session_of example_agreed.2)).
Proof.
  assert (is_complete example_agreed.1 = true /\ is_complete example_agreed.2 = true) as [H1 H2]
    by (split; vm_compute; reflexivity).
  split; [done|].
  apply (peers_agree (oa_laws := list_order_laws) (ob_laws := reverse_order_laws)
    (bitcoin := toy_bitcoin) 11 22 1000 1000 500 None None
    (mkSharedOutput example_funding 100000) (mkSharedOutput example_funding 0)); [done|done|].
  rewrite <- (session_of_complete _ H1), <- (session_of_complete _ H2).
  rewrite <- surjective_pairing. unfold example_agreed. cbn [foldl].
  do 5 (eapply rtc_r; [|apply example_joint_step]).
  apply rtc_refl.
Defined.

Definition example_outcome : outcome :=
  exchange 20 list_order reverse_order (new_for_outbound counter_source 2 example_args_a).1.1
    (new_for_inbound counter_source 2 example_args_b).1
    (default (SendTxComplete example_complete) (new_for_outbound counter_source 2 example_args_a).1.2).

Lemma negotiation_terminates_witness :
  match example_outcome with Completed x y => agreed (bitcoin := toy_bitcoin) 11 22 x y | _ => False end.
Proof.
  assert (match example_outcome with Completed _ _ => true | _ => false end = true) as Hc by (vm_compute; reflexivity).
  assert (bool_decide (is_Some (new_for_outbound counter_source 2 example_args_a).1.2) = true) as Hm
    by (vm_compute; reflexivity).
  apply bool_decide_eq_true in Hm as [msg Hm].
  pose proof (negotiation_terminates counter_source counter_source list_order reverse_order 2 2
    example_args_a example_args_b (new_for_outbound counter_source 2 example_args_a).1.1 msg
    (new_for_outbound counter_source 2 example_args_a).2 20
    list_order_laws reverse_order_laws eq_refl eq_refl eq_refl eq_refl eq_refl) as H.
  unfold example_outcome in *. rewrite Hm in *. cbn [default] in *.
  destruct (exchange _ _ _ _ _ _); try done. apply H; [|cbn; lia].
  rewrite <- Hm. by destruct (new_for_outbound _ _ _) as [[? ?] ?].
Defined.
