(* ===== verification/SigningSession.v ===== *)
(** * The signing session (lightning/src/ln/interactivetxs.rs)

    The exchange of [tx_signatures] for a negotiated transaction: which witnesses
    a peer owes, when it may reveal them, and the signed transaction.  Signature
    parsing, sighashes and verification of the bitcoin crate are the class
    [SigLib]. *)

From Stdlib Require Import ZArith Lia Bool.
From stdpp Require Import gmap.
From S2P Require Import Prelude.
From S2P Require Import Features.
From S2P Require Import Keys.
From S2P Require Import Order.
From S2P Require Import Scripts.
From S2P Require Import CommitmentTx.
From S2P Require Import InteractiveTx.
From S2P Require Import Negotiation.
From S2P Require Import Agreement.

Local Open Scope Z_scope.

Inductive TapSighashType : Type := TapDefault | TapAll | TapOther.

Class SigLib `{ScriptLib} := {
  (** [PublicKey::from_slice] *)
  pubkey_from_slice : bytes -> option PublicKey;
  (** [ecdsa::Signature::from_slice], and whether it is SIGHASH_ALL *)
  ecdsa_from_slice : bytes -> option (Signature * bool);
  (** [SighashCache::p2wpkh_signature_hash], [Secp256k1::verify_ecdsa] *)
  p2wpkh_signature_hash : Transaction -> nat -> bytes -> Z -> option bytes;
  verify_ecdsa : bytes -> Signature -> PublicKey -> bool;
  (** the bytes [script.instructions().nth(1)] pushes *)
  second_push : bytes -> option bytes;
  (** [XOnlyPublicKey::from_slice], [taproot::Signature::from_slice] *)
  XOnlyPublicKey : Type;
  xonly_from_slice : bytes -> option XOnlyPublicKey;
  SchnorrSignature : Type;
  taproot_from_slice : bytes -> option (SchnorrSignature * TapSighashType);
  (** [SighashCache::taproot_key_spend_signature_hash], [Secp256k1::verify_schnorr] *)
  taproot_key_spend_signature_hash : Transaction -> nat -> list TxOut -> TapSighashType -> option bytes;
  verify_schnorr : SchnorrSignature -> bytes -> XOnlyPublicKey -> bool;
}.

(** The error strings, by their cause. *)
Inductive WitnessError : Type :=
| EmptyWitness | WrongElementCount (count : nat) | InvalidPublicKey | InvalidSignature | WrongSighashType
| SighashFailed | VerificationFailed | InvalidScriptPubKey | UnsupportedScript.
Inductive SessionError : Type :=
| AlreadyReceivedTxSignatures | WitnessCountMismatch | MissingSharedInputSignature
| UnexpectedSharedInputSignature | HolderWitnessesAlreadyProvided | TransactionMalleated
| ProvidedWitnessCount (given required : nat) | NoSharedInput | HolderWitnessesMissing
| SharedInputSignatureAlreadyProvided | InvalidWitness (index : nat) (error : WitnessError).

(** ** Witnesses *)

Section session.
Context {bitcoin : Bitcoin} {scriptlib : ScriptLib} {siglib : SigLib} {txlib : TxLib} {txhash : TxHash}.

(** The two [filter]s on the enumerated inputs: added by the given side, and not
    the shared input. *)
Definition picked (self : ConstructedTransaction) (local : bool) (index : nat) (input : TxInMetadata) : bool :=
  Bool.eqb (input_is_local (cons_holder_is_initiator self) input) local &&
  match shared_input_index self with Some shared_index => negb (Z.of_nat index =? shared_index) | None => true end.

Definition set_witness (txin : TxIn) (w : list bytes) : TxIn :=
  mkTxIn (previous_output txin) (script_sig txin) (sequence txin) w.

(** The inputs, their metadata and the witnesses, walked together. *)
Fixpoint add_witnesses_from (pick : nat -> TxInMetadata -> bool) (index : nat) (input : list TxIn)
    (metadata : list TxInMetadata) (ws : list (list bytes)) : list TxIn :=
  match input, metadata with
  | txin :: input, meta :: metadata =>
      if pick index meta then
        match ws with
        | w :: ws => set_witness txin w :: add_witnesses_from pick (S index) input metadata ws
        | [] => txin :: input
        end
      else txin :: add_witnesses_from pick (S index) input metadata ws
  | input, _ => input
  end.
Definition add_witnesses (self : ConstructedTransaction) (local : bool) (transaction : Transaction)
    (ws : list (list bytes)) : Transaction :=
  mkTransaction (version transaction) (lock_time transaction)
    (add_witnesses_from (picked self local) 0 (tx_input transaction) (input_metadata self) ws)
    (tx_output transaction).
Definition add_local_witnesses (self : ConstructedTransaction) := add_witnesses self true.
Definition add_remote_witnesses (self : ConstructedTransaction) := add_witnesses self false.

(** The witness of the shared input: a 2-of-2 multisig. *)
Definition shared_witness (holder_sig counterparty_sig : Signature) (shared_input_sig : SharedInputSignature)
    : list bytes :=
  let holder := signature_bytes holder_sig SighashAll in
  let counterparty := signature_bytes counterparty_sig SighashAll in
  [] :: (if holder_signature_first shared_input_sig then [holder; counterparty] else [counterparty; holder])
    ++ [witness_script shared_input_sig].

Definition finalize (self : ConstructedTransaction) (holder_tx_signatures counterparty_tx_signatures : TxSignatures)
    (shared_input_sig : option SharedInputSignature) : run (option Transaction) :=
  let tx := add_local_witnesses self (constructed_tx self) (witnesses holder_tx_signatures) in
  let tx := add_remote_witnesses self tx (witnesses counterparty_tx_signatures) in
  match shared_input_index self with
  | None => Return (Some tx)
  | Some shared_input_index =>
      match ts_shared_input_signature holder_tx_signatures, ts_shared_input_signature counterparty_tx_signatures,
        shared_input_sig with
      | Some holder_sig, Some counterparty_sig, Some shared_input_sig =>
          txin ← unwrap (tx_input tx !! Z.to_nat shared_input_index);
          let txin := set_witness txin (shared_witness holder_sig counterparty_sig shared_input_sig) in
          mret (Some (mkTransaction (version tx) (lock_time tx)
            (<[Z.to_nat shared_input_index := txin]> (tx_input tx)) (tx_output tx)))
      | _, _, _ => Return None
      end
  end.

(** [contributed_inputs] and [contributed_outputs] of the constructed transaction *)
Definition contributed_inputs (self : ConstructedTransaction) : list OutPoint :=
  map (fun p => previous_output (p.2).1)
    (List.filter (fun p => picked self true p.1 (p.2).2)
       (imap (fun index p => (index, p)) (zip (tx_input (constructed_tx self)) (input_metadata self)))).
Definition contributed_outputs (self : ConstructedTransaction) : list bytes :=
  map (fun p => script_pubkey (p.2).1)
    (List.filter (fun p => output_is_local (cons_holder_is_initiator self) (p.2).2 &&
                           negb (Z.of_nat p.1 =? shared_output_index self))
       (imap (fun index p => (index, p)) (zip (tx_output (constructed_tx self)) (output_metadata self)))).

(** ** Queries *)

Definition inputs_count (self : InteractiveTxSigningSession) (local : bool) : nat :=
  length (List.filter (fun p => picked (unsigned_tx self) local p.1 p.2)
    (imap (fun index input => (index, input)) (input_metadata (unsigned_tx self)))).
Definition remote_inputs_count (self : InteractiveTxSigningSession) : nat := inputs_count self false.
Definition local_inputs_count (self : InteractiveTxSigningSession) : nat := inputs_count self true.
Definition local_outputs_count (self : InteractiveTxSigningSession) : nat :=
  length (List.filter (output_is_local (cons_holder_is_initiator (unsigned_tx self))) (output_metadata (unsigned_tx self))).
Definition has_local_contribution (self : InteractiveTxSigningSession) : bool :=
  (0 <? Z.of_nat (local_inputs_count self)) || (0 <? Z.of_nat (local_outputs_count self)).

Definition shared_input (self : InteractiveTxSigningSession) : option TxInMetadata :=
  index ← shared_input_index (unsigned_tx self); input_metadata (unsigned_tx self) !! Z.to_nat index.
Definition has_received_tx_signatures (self : InteractiveTxSigningSession) : bool :=
  bool_decide (is_Some (counterparty_tx_signatures self)).
Definition has_holder_witnesses (self : InteractiveTxSigningSession) : bool :=
  bool_decide (is_Some (session_holder_tx_signatures self)).
Definition awaiting_holder_shared_input_signature (self : InteractiveTxSigningSession) : bool :=
  match session_holder_tx_signatures self with
  | Some tx_signatures =>
      bool_decide (is_Some (shared_input self)) && bool_decide (ts_shared_input_signature tx_signatures = None)
  | None => false
  end.

(** The holder's signatures, once they may be revealed. *)
Definition holder_tx_signatures (self : InteractiveTxSigningSession) : option TxSignatures :=
  tx_signatures ← session_holder_tx_signatures self;
  if negb (bool_decide (shared_input self = None) || bool_decide (is_Some (ts_shared_input_signature tx_signatures)))
  then None
  else if (has_received_commitment_signed self && holder_sends_tx_signatures_first self) || has_received_tx_signatures self
  then Some tx_signatures
  else None.

Definition signed_tx (self : InteractiveTxSigningSession) : run (option Transaction) :=
  match holder_tx_signatures self, counterparty_tx_signatures self with
  | Some holder_tx_signatures, Some counterparty_tx_signatures =>
      finalize (unsigned_tx self) holder_tx_signatures counterparty_tx_signatures (session_shared_input_signature self)
  | _, _ => Return None
  end.

(** ** Checking the holder's witnesses *)

Definition bad_ecdsa (element : bytes) : bool :=
  (70 <=? Z.of_nat (length element)) && (Z.of_nat (length element) <=? 73) &&
  negb (match ecdsa_from_slice element with Some (_, sighash_all) => sighash_all | None => true end).
Definition bad_schnorr (element : bytes) : bool :=
  (Z.of_nat (length element) =? 65) &&
  negb (match taproot_from_slice element with Some (_, TapAll) => true | Some _ => false | None => true end).

(** One round of the loop of [verify_interactive_tx_signatures] *)
Definition verify_witness (built_tx : Transaction) (prev_outputs : list TxOut) (input_idx : nat)
    (prev_output : TxOut) (w : list bytes) : result WitnessError unit :=
  let spk := script_pubkey prev_output in
  if bool_decide (w = []) then Err EmptyWitness
  else if is_p2wpkh spk then
    match w with
    | [sig; key] =>
        pubkey ← ok_or (pubkey_from_slice key) InvalidPublicKey;
        '(sig, sighash_all) ← ok_or (ecdsa_from_slice sig) InvalidSignature;
        if negb sighash_all then Err WrongSighashType
        else
        sighash ← ok_or (p2wpkh_signature_hash built_tx input_idx spk (value prev_output)) SighashFailed;
        if verify_ecdsa sighash sig pubkey then Ok tt else Err VerificationFailed
    | _ => Err (WrongElementCount (length w))
    end
  else
  match is_p2tr spk, w with
  | true, [sig] =>
      push ← ok_or (second_push spk) InvalidScriptPubKey;
      pubkey ← ok_or (xonly_from_slice push) InvalidPublicKey;
      '(sig, sighash_type) ← ok_or (taproot_from_slice sig) InvalidSignature;
      match sighash_type with
      | TapOther => Err WrongSighashType
      | _ =>
          sighash ← ok_or (taproot_key_spend_signature_hash built_tx input_idx prev_outputs sighash_type) SighashFailed;
          if verify_schnorr sig sighash pubkey then Ok tt else Err VerificationFailed
      end
  | p2tr, w =>
      if is_p2wsh spk then if existsb bad_ecdsa w then Err WrongSighashType else Ok tt
      else if p2tr then if existsb bad_schnorr w then Err WrongSighashType else Ok tt
      else Err UnsupportedScript
  end.

Fixpoint verify_from (pick : nat -> TxInMetadata -> bool) (built_tx : Transaction) (prev_outputs : list TxOut)
    (index : nat) (metadata : list TxInMetadata) (ws : list (list bytes)) : result SessionError unit :=
  match metadata with
  | [] => Ok tt
  | meta :: metadata =>
      if pick index meta then
        match ws with
        | [] => Ok tt
        | w :: ws =>
            match verify_witness built_tx prev_outputs index (meta_prev_output meta) w with
            | Ok _ => verify_from pick built_tx prev_outputs (S index) metadata ws
            | Err e => Err (InvalidWitness index e)
            end
        end
      else verify_from pick built_tx prev_outputs (S index) metadata ws
  end.
Definition verify_interactive_tx_signatures (self : InteractiveTxSigningSession) (ws : list (list bytes))
    : result SessionError unit :=
  let t := unsigned_tx self in
  verify_from (picked t true) (constructed_tx t) (map meta_prev_output (input_metadata t)) 0 (input_metadata t) ws.

(** ** Operations *)

Definition set_holder (s : InteractiveTxSigningSession) (sigs : option TxSignatures) : InteractiveTxSigningSession :=
  mkSession (unsigned_tx s) (holder_sends_tx_signatures_first s) (has_received_commitment_signed s)
    (session_shared_input_signature s) sigs (counterparty_tx_signatures s).
Definition set_counterparty (s : InteractiveTxSigningSession) (sigs : option TxSignatures) : InteractiveTxSigningSession :=
  mkSession (unsigned_tx s) (holder_sends_tx_signatures_first s) (has_received_commitment_signed s)
    (session_shared_input_signature s) (session_holder_tx_signatures s) sigs.

Definition received_commitment_signed (self : InteractiveTxSigningSession) : InteractiveTxSigningSession :=
  mkSession (unsigned_tx self) (holder_sends_tx_signatures_first self) true
    (session_shared_input_signature self) (session_holder_tx_signatures self) (counterparty_tx_signatures self).

(** What an operation that may end the signing returns: the signatures to send
    and the signed transaction. *)
Definition session_result : Type := result SessionError (option TxSignatures * option Transaction).

Definition received_tx_signatures (self : InteractiveTxSigningSession) (tx_signatures : TxSignatures)
    : run (session_result * InteractiveTxSigningSession) :=
  if has_received_tx_signatures self then Return (Err AlreadyReceivedTxSignatures, self)
  else if negb (bool_decide (remote_inputs_count self = length (witnesses tx_signatures)))
  then Return (Err WitnessCountMismatch, self)
  else if bool_decide (is_Some (shared_input self)) && bool_decide (ts_shared_input_signature tx_signatures = None)
  then Return (Err MissingSharedInputSignature, self)
  else if bool_decide (shared_input self = None) && bool_decide (is_Some (ts_shared_input_signature tx_signatures))
  then Return (Err UnexpectedSharedInputSignature, self)
  else
  let self := set_counterparty self (Some tx_signatures) in
  let to_send := if negb (holder_sends_tx_signatures_first self) then holder_tx_signatures self else None in
  funding_tx_opt ← signed_tx self;
  mret (Ok (to_send, funding_tx_opt), self).

Definition provide_holder_witnesses (self : InteractiveTxSigningSession) (channel_id funding_txid_signed : bytes)
    (ws : list (list bytes)) : run (session_result * InteractiveTxSigningSession) :=
  if has_holder_witnesses self then Return (Err HolderWitnessesAlreadyProvided, self)
  else if negb (bool_decide (funding_txid_signed = compute_txid (constructed_tx (unsigned_tx self))))
  then Return (Err TransactionMalleated, self)
  else if negb (bool_decide (length ws = local_inputs_count self))
  then Return (Err (ProvidedWitnessCount (length ws) (local_inputs_count self)), self)
  else
  match verify_interactive_tx_signatures self ws with
  | Err e => Return (Err e, self)
  | Ok _ =>
      let self := set_holder self (Some (mkTxSignatures channel_id funding_txid_signed ws None)) in
      let to_send := holder_tx_signatures self in
      funding_tx_opt ← signed_tx self;
      mret (Ok (to_send, funding_tx_opt), self)
  end.

Definition provide_holder_shared_input_signature (self : InteractiveTxSigningSession) (signature : Signature)
    : run (session_result * InteractiveTxSigningSession) :=
  if bool_decide (shared_input self = None) then Return (Err NoSharedInput, self)
  else
  match session_holder_tx_signatures self with
  | None => Return (Err HolderWitnessesMissing, self)
  | Some sigs =>
      match ts_shared_input_signature sigs with
      | Some _ => Return (Err SharedInputSignatureAlreadyProvided, self)
      | None =>
          let self := set_holder self
            (Some (mkTxSignatures (ts_channel_id sigs) (tx_hash sigs) (witnesses sigs) (Some signature))) in
          funding_tx_opt ← signed_tx self;
          mret (Ok (holder_tx_signatures self, funding_tx_opt), self)
      end
  end.
End session.

(** ** Placing witnesses *)

Section witnesses.

(** What a transaction id commits to. *)
Definition unsigned_input (txin : TxIn) : OutPoint * bytes * Z := (previous_output txin, script_sig txin, sequence txin).
Definition same_unsigned (tx tx' : Transaction) : Prop :=
  version tx' = version tx /\ lock_time tx' = lock_time tx /\ tx_output tx' = tx_output tx /\
  map unsigned_input (tx_input tx') = map unsigned_input (tx_input tx).

(** The witnesses of the picked inputs, in order. *)
Fixpoint picked_witnesses (pick : nat -> TxInMetadata -> bool) (index : nat) (input : list TxIn)
    (metadata : list TxInMetadata) : list (list bytes) :=
  match input, metadata with
  | txin :: input, meta :: metadata =>
      if pick index meta then witness txin :: picked_witnesses pick (S index) input metadata
      else picked_witnesses pick (S index) input metadata
  | _, _ => []
  end.
Fixpoint count_picked (pick : nat -> TxInMetadata -> bool) (index : nat) (metadata : list TxInMetadata) : nat :=
  match metadata with
  | [] => 0
  | meta :: metadata => (if pick index meta then 1 else 0) + count_picked pick (S index) metadata
  end.

Definition disjoint_picks (p q : nat -> TxInMetadata -> bool) : Prop :=
  forall index meta, p index meta = true -> q index meta = false.

Lemma add_witnesses_unsigned pick index input metadata ws :
  map unsigned_input (add_witnesses_from pick index input metadata ws) = map unsigned_input input.
Proof.
  revert index metadata ws. induction input as [|txin input IH]; intros index [|meta metadata] ws; cbn; try done.
  destruct (pick index meta); [destruct ws|]; cbn; by rewrite ?IH.
Qed.

Lemma add_witnesses_length pick index input metadata ws :
  length (add_witnesses_from pick index input metadata ws) = length input.
Proof.
  rewrite <- (length_map unsigned_input), add_witnesses_unsigned. apply length_map.
Qed.

Lemma picked_own pick index input metadata ws : length input = length metadata ->
  length ws = count_picked pick index metadata ->
  picked_witnesses pick index (add_witnesses_from pick index input metadata ws) metadata = ws.
Proof.
  revert index metadata ws. induction input as [|txin input IH]; intros index [|meta metadata] ws Hl Hw; cbn in *; try done.
  - by destruct ws.
  - destruct (pick index meta) eqn:E.
    + destruct ws as [|w ws]; [done|]. cbn. rewrite E. f_equal. apply IH; cbn in *; lia.
    + cbn. rewrite E. apply IH; lia.
Qed.

Lemma picked_other p q index input metadata ws : disjoint_picks p q ->
  picked_witnesses q index (add_witnesses_from p index input metadata ws) metadata = picked_witnesses q index input metadata.
Proof.
  intros Hd. revert index metadata ws. induction input as [|txin input IH]; intros index [|meta metadata] ws; cbn; try done.
  destruct (p index meta) eqn:E.
  - rewrite (Hd _ _ E). destruct ws; cbn; rewrite (Hd _ _ E); [done|by apply IH].
  - cbn. by rewrite IH.
Qed.

Lemma picked_insert pick index input metadata j txin :
  (forall meta, metadata !! j = Some meta -> pick (index + j)%nat meta = false) ->
  picked_witnesses pick index (<[j := txin]> input) metadata = picked_witnesses pick index input metadata.
Proof.
  revert index metadata j. induction input as [|t input IH]; intros index [|meta metadata] j Hj; try done.
  - by destruct j.
  - destruct j as [|j].
    + specialize (Hj meta eq_refl). rewrite Nat.add_0_r in Hj. cbn. by rewrite Hj.
    + change (<[S j := txin]> (t :: input)) with (t :: <[j := txin]> input). cbn. rewrite IH; [done|].
      intros m Hm. rewrite Nat.add_succ_comm. by apply Hj.
Qed.

Lemma add_witnesses_comm p q index input metadata ws ws' : disjoint_picks p q ->
  add_witnesses_from p index (add_witnesses_from q index input metadata ws') metadata ws =
  add_witnesses_from q index (add_witnesses_from p index input metadata ws) metadata ws'.
Proof.
  intros Hd. revert index metadata ws ws'. induction input as [|txin input IH]; intros index [|meta metadata] ws ws'; cbn; try done.
  destruct (p index meta) eqn:Ep.
  - rewrite (Hd _ _ Ep). cbn. rewrite Ep. destruct ws; cbn; rewrite (Hd _ _ Ep); [done|]. by rewrite IH.
  - destruct (q index meta) eqn:Eq; [destruct ws'|]; cbn; rewrite Ep, ?Eq; [done|by rewrite IH|by rewrite IH].
Qed.

Lemma add_witnesses_lookup pick index input metadata ws j :
  (forall meta, metadata !! j = Some meta -> pick (index + j)%nat meta = false) ->
  add_witnesses_from pick index input metadata ws !! j = input !! j.
Proof.
  revert index metadata ws j. induction input as [|t input IH]; intros index [|meta metadata] ws j Hj; try done.
  destruct j as [|j].
  - specialize (Hj meta eq_refl). rewrite Nat.add_0_r in Hj. cbn. by rewrite Hj.
  - assert (forall m, metadata !! j = Some m -> pick (S index + j)%nat m = false) as Hj'
      by (intros m Hm; rewrite Nat.add_succ_comm; by apply Hj).
    cbn. destruct (pick index meta); [destruct ws; [done|]|]; cbn; by apply IH.
Qed.
End witnesses.

(** ** The signed transaction *)

Section signed.
Context {bitcoin : Bitcoin} {scriptlib : ScriptLib} {siglib : SigLib} {txlib : TxLib} {txhash : TxHash}.

Lemma picked_disjoint t : disjoint_picks (picked t true) (picked t false) /\ disjoint_picks (picked t false) (picked t true).
Proof. split; intros index meta; unfold picked; by destruct (input_is_local _ _). Qed.

Lemma picked_shared t local i meta : shared_input_index t = Some i -> 0 <= i -> picked t local (Z.to_nat i) meta = false.
Proof.
  intros Hi H0. unfold picked. rewrite Hi, Z2Nat.id by done. by rewrite Z.eqb_refl, andb_false_r.
Qed.

Lemma count_picked_filter pick k metadata :
  length (List.filter (fun p => pick p.1 p.2) (imap (fun index (m : TxInMetadata) => ((k + index)%nat, m)) metadata)) =
  count_picked pick k metadata.
Proof.
  revert k. induction metadata as [|m metadata IH]; intros k; [done|]. cbn. rewrite Nat.add_0_r.
  specialize (IH (S k)).
  rewrite <- IH. rewrite (imap_ext _ (fun index (m : TxInMetadata) => ((S k + index)%nat, m)))
    by (intros i x _; cbn; by rewrite Nat.add_succ_r).
  by destruct (pick k m).
Qed.

Lemma inputs_count_picked s local :
  inputs_count s local = count_picked (picked (unsigned_tx s) local) 0 (input_metadata (unsigned_tx s)).
Proof. unfold inputs_count. rewrite <- count_picked_filter. done. Qed.

(** A transaction as the negotiation leaves it. *)
Record constructed_wf (t : ConstructedTransaction) : Prop := {
  wf_length : length (tx_input (constructed_tx t)) = length (input_metadata t);
  wf_shared i : shared_input_index t = Some i -> 0 <= i /\ (Z.to_nat i < length (input_metadata t))%nat;
}.

(** Every witness where it belongs, and nothing else changed. *)
Record signed_by (t : ConstructedTransaction) (holder counterparty : TxSignatures) (shared : option SharedInputSignature)
    (tx : Transaction) : Prop := {
  signed_unsigned : same_unsigned (constructed_tx t) tx;
  signed_local : picked_witnesses (picked t true) 0 (tx_input tx) (input_metadata t) = witnesses holder;
  signed_remote : picked_witnesses (picked t false) 0 (tx_input tx) (input_metadata t) = witnesses counterparty;
  signed_shared i : shared_input_index t = Some i -> exists txin hs cs sh,
    ts_shared_input_signature holder = Some hs /\ ts_shared_input_signature counterparty = Some cs /\
    shared = Some sh /\ tx_input tx !! Z.to_nat i = Some txin /\ witness txin = shared_witness hs cs sh;
}.

Definition all_witnesses (t : ConstructedTransaction) (h c : TxSignatures) : list TxIn :=
  add_witnesses_from (picked t false) 0
    (add_witnesses_from (picked t true) 0 (tx_input (constructed_tx t)) (input_metadata t) (witnesses h))
    (input_metadata t) (witnesses c).

Lemma all_witnesses_placed t h c : constructed_wf t ->
  length (witnesses h) = count_picked (picked t true) 0 (input_metadata t) ->
  length (witnesses c) = count_picked (picked t false) 0 (input_metadata t) ->
  map unsigned_input (all_witnesses t h c) = map unsigned_input (tx_input (constructed_tx t)) /\
  picked_witnesses (picked t true) 0 (all_witnesses t h c) (input_metadata t) = witnesses h /\
  picked_witnesses (picked t false) 0 (all_witnesses t h c) (input_metadata t) = witnesses c.
Proof.
  intros [Hl _] Hh Hc. unfold all_witnesses. destruct (picked_disjoint t) as [Hd Hd']. split_and!.
  - by rewrite !add_witnesses_unsigned.
  - rewrite (picked_other (picked t false)) by done. by apply picked_own.
  - apply picked_own; [|done]. by rewrite add_witnesses_length.
Qed.

Lemma finalize_spec t h c shared : constructed_wf t ->
  length (witnesses h) = count_picked (picked t true) 0 (input_metadata t) ->
  length (witnesses c) = count_picked (picked t false) 0 (input_metadata t) ->
  (is_Some (shared_input_index t) ->
   is_Some (ts_shared_input_signature h) /\ is_Some (ts_shared_input_signature c) /\ is_Some shared) ->
  exists tx, finalize t h c shared = Return (Some tx) /\ signed_by t h c shared tx.
Proof.
  intros Hwf Hh Hc Hsh. destruct (all_witnesses_placed t h c Hwf Hh Hc) as (Hu & Hpt & Hpf).
  unfold finalize. cbn [tx_input add_remote_witnesses add_local_witnesses add_witnesses].
  fold (all_witnesses t h c). destruct (shared_input_index t) as [i|] eqn:Ei.
  - destruct (Hsh ltac:(done)) as ([hs Ehs] & [cs Ecs] & [sh Esh]). rewrite Ehs, Ecs, Esh.
    destruct (wf_shared t Hwf i Ei) as [H0 Hlt]. rewrite <- (wf_length t Hwf) in Hlt.
    assert (length (all_witnesses t h c) = length (tx_input (constructed_tx t))) as Hlen
      by (unfold all_witnesses; by rewrite !add_witnesses_length).
    destruct (lookup_lt_is_Some_2 (all_witnesses t h c) (Z.to_nat i)) as [txin Htx]; [lia|].
    rewrite Htx. cbn [unwrap mbind run_bind]. eexists. split; [reflexivity|].
    split; cbn [tx_input version lock_time tx_output add_remote_witnesses add_local_witnesses add_witnesses].
    + split_and!; [done..|]. cbn [tx_input]. rewrite <- Hu.
      change (map unsigned_input) with (fmap (M:=list) unsigned_input). rewrite list_fmap_insert.
      apply list_insert_id. rewrite list_lookup_fmap, Htx. done.
    + rewrite picked_insert; [done|]. intros meta _. by apply picked_shared.
    + rewrite picked_insert; [done|]. intros meta _. by apply picked_shared.
    + rewrite Ei. intros i' [= <-]. exists (set_witness txin (shared_witness hs cs sh)), hs, cs, sh.
      split_and!; [done|done|done| |].
      * apply list_lookup_insert_eq. lia.
      * done.
  - eexists. split; [reflexivity|]. split; [by split_and!|done|done|by rewrite Ei].
Qed.

(** ** The invariant of a session *)

Record session_inv (s : InteractiveTxSigningSession) : Prop := {
  sinv_wf : constructed_wf (unsigned_tx s);
  sinv_shared : is_Some (shared_input_index (unsigned_tx s)) -> is_Some (session_shared_input_signature s);
  sinv_holder h : session_holder_tx_signatures s = Some h ->
    length (witnesses h) = local_inputs_count s /\ verify_interactive_tx_signatures s (witnesses h) = Ok tt /\
    tx_hash h = compute_txid (constructed_tx (unsigned_tx s)) /\
    (is_Some (ts_shared_input_signature h) -> is_Some (shared_input s));
  sinv_counterparty c : counterparty_tx_signatures s = Some c ->
    length (witnesses c) = remote_inputs_count s /\
    (is_Some (shared_input s) <-> is_Some (ts_shared_input_signature c));
}.

(** The operations of a session. *)
Inductive session_step : InteractiveTxSigningSession -> InteractiveTxSigningSession -> Prop :=
| step_commitment_signed s : session_step s (received_commitment_signed s)
| step_tx_signatures s m r s' : received_tx_signatures s m = Return (r, s') -> session_step s s'
| step_witnesses s cid txid ws r s' : provide_holder_witnesses s cid txid ws = Return (r, s') -> session_step s s'
| step_shared_signature s sig r s' : provide_holder_shared_input_signature s sig = Return (r, s') -> session_step s s'.

Lemma shared_input_index_Some s : constructed_wf (unsigned_tx s) ->
  is_Some (shared_input s) <-> is_Some (shared_input_index (unsigned_tx s)).
Proof.
  intros Hwf. unfold shared_input. destruct (shared_input_index (unsigned_tx s)) as [i|] eqn:E; cbn; [|done].
  split; [done|]. intros _. apply lookup_lt_is_Some_2. by apply (wf_shared _ Hwf).
Qed.

Lemma received_tx_signatures_ok s m r s' : received_tx_signatures s m = Return (Ok r, s') ->
  counterparty_tx_signatures s = None /\ s' = set_counterparty s (Some m) /\
  remote_inputs_count s = length (witnesses m) /\
  (is_Some (shared_input s) <-> is_Some (ts_shared_input_signature m)) /\
  r.1 = (if negb (holder_sends_tx_signatures_first s) then holder_tx_signatures s' else None) /\
  signed_tx s' = Return r.2.
Proof.
  unfold received_tx_signatures, has_received_tx_signatures. intros H. case_bool_decide as H1; [done|].
  case_bool_decide as H2; [|done]. cbn [negb] in H. rewrite eq_None_not_Some.
  destruct (bool_decide _ && bool_decide _) eqn:H3; [done|].
  destruct (bool_decide (shared_input s = None) && _) eqn:H4; [done|].
  destruct (signed_tx (set_counterparty s (Some m))) as [o|] eqn:E; [|done]. cbn in H. injection H as <- <-.
  split_and!; try done. destruct (shared_input s), (ts_shared_input_signature m); done.
Qed.

Lemma provide_holder_witnesses_ok s cid txid ws r s' : provide_holder_witnesses s cid txid ws = Return (Ok r, s') ->
  session_holder_tx_signatures s = None /\ s' = set_holder s (Some (mkTxSignatures cid txid ws None)) /\
  txid = compute_txid (constructed_tx (unsigned_tx s)) /\ length ws = local_inputs_count s /\
  verify_interactive_tx_signatures s ws = Ok tt /\ r.1 = holder_tx_signatures s'.
Proof.
  unfold provide_holder_witnesses, has_holder_witnesses. intros H. case_bool_decide as H1; [done|].
  case_bool_decide as H2; [|done]. case_bool_decide as H3; [|done]. cbn [negb] in H. rewrite eq_None_not_Some.
  destruct (verify_interactive_tx_signatures s ws) as [[]|] eqn:Hv; [|done].
  destruct (signed_tx _) eqn:E; [|done]. cbn in H. injection H as <- <-. done.
Qed.

Lemma provide_shared_signature_ok s sig r s' : provide_holder_shared_input_signature s sig = Return (Ok r, s') ->
  exists h, session_holder_tx_signatures s = Some h /\ is_Some (shared_input s) /\
    s' = set_holder s (Some (mkTxSignatures (ts_channel_id h) (tx_hash h) (witnesses h) (Some sig))) /\
    r.1 = holder_tx_signatures s'.
Proof.
  unfold provide_holder_shared_input_signature. intros H. case_bool_decide as H1; [done|].
  destruct (session_holder_tx_signatures s) as [h|]; [|done]. destruct (ts_shared_input_signature h); [done|].
  destruct (signed_tx _) eqn:E; [|done]. cbn in H. injection H as <- <-. exists h.
  split_and!; try done. by apply not_eq_None_Some.
Qed.

(** A failed operation leaves the session as it was. *)
Lemma received_tx_signatures_err s m e s' : received_tx_signatures s m = Return (Err e, s') -> s' = s.
Proof.
  unfold received_tx_signatures. intros H. destruct (has_received_tx_signatures s); [congruence|].
  destruct (negb _); [congruence|]. destruct (_ && _); [congruence|]. destruct (_ && _); [congruence|].
  by destruct (signed_tx _).
Qed.
Lemma provide_holder_witnesses_err s cid txid ws e s' : provide_holder_witnesses s cid txid ws = Return (Err e, s') -> s' = s.
Proof.
  unfold provide_holder_witnesses. intros H. destruct (has_holder_witnesses s); [congruence|].
  destruct (negb _); [congruence|]. destruct (negb _); [congruence|].
  destruct (verify_interactive_tx_signatures s ws); [by destruct (signed_tx _)|congruence].
Qed.
Lemma provide_shared_signature_err s sig e s' : provide_holder_shared_input_signature s sig = Return (Err e, s') -> s' = s.
Proof.
  unfold provide_holder_shared_input_signature. intros H. destruct (bool_decide _); [congruence|].
  destruct (session_holder_tx_signatures s) as [h|]; [|congruence]. destruct (ts_shared_input_signature h); [congruence|].
  by destruct (signed_tx _).
Qed.

Lemma step_inv s s' : session_step s s' -> session_inv s -> session_inv s' /\ unsigned_tx s' = unsigned_tx s.
Proof.
  intros Hstep Hinv. destruct Hstep as [s|s m [r|e] s' H|s cid txid ws [r|e] s' H|s sig [r|e] s' H].
  - split; [|done]. by destruct Hinv.
  - apply received_tx_signatures_ok in H as (_ & -> & Hn & Hsh & _). split; [|done].
    destruct Hinv as [H1 H2 H3 H4]. split; cbn; try done. by intros c [= <-].
  - by apply received_tx_signatures_err in H as ->.
  - apply provide_holder_witnesses_ok in H as (_ & -> & Htx & Hn & Hv & _). split; [|done].
    destruct Hinv as [H1 H2 H3 H4]. split; cbn; try done. intros h [= <-]. split_and!; try done. by intros [].
  - by apply provide_holder_witnesses_err in H as ->.
  - apply provide_shared_signature_ok in H as (h & Hh & Hs & -> & _). split; [|done].
    destruct Hinv as [H1 H2 H3 H4]. split; cbn; try done. intros h' [= <-].
    destruct (H3 h Hh) as (G1 & G2 & G3 & _). done.
  - by apply provide_shared_signature_err in H as ->.
Qed.

Lemma steps_inv s s' : rtc session_step s s' -> session_inv s -> session_inv s' /\ unsigned_tx s' = unsigned_tx s.
Proof.
  induction 1 as [|s s1 s' Hstep _ IH]; [done|]. intros Hinv. destruct (step_inv _ _ Hstep Hinv) as [H1 H2].
  destruct (IH H1) as [H3 H4]. split; [done|]. congruence.
Qed.

Lemma released s h : holder_tx_signatures s = Some h ->
  session_holder_tx_signatures s = Some h /\
  ((has_received_commitment_signed s = true /\ holder_sends_tx_signatures_first s = true) \/
   is_Some (counterparty_tx_signatures s)) /\
  (is_Some (shared_input s) -> is_Some (ts_shared_input_signature h)).
Proof.
  unfold holder_tx_signatures, has_received_tx_signatures. destruct (session_holder_tx_signatures s) as [h'|]; [|done]. cbn.
  destruct (negb _) eqn:E1; [done|]. apply negb_false_iff, orb_true_iff in E1.
  destruct (_ && _ || _) eqn:E2; [|done]. intros [= <-]. apply orb_true_iff in E2. rewrite !bool_decide_eq_true in *.
  rewrite andb_true_iff in E2. split_and!; [done|tauto|]. intros [x Hx]. destruct E1 as [E1|E1]; congruence.
Qed.

Lemma signed_tx_spec s : session_inv s ->
  (exists o, signed_tx s = Return o) /\
  (forall h c, holder_tx_signatures s = Some h -> counterparty_tx_signatures s = Some c ->
     exists tx, signed_tx s = Return (Some tx) /\
       signed_by (unsigned_tx s) h c (session_shared_input_signature s) tx).
Proof.
  intros Hinv.
  assert (forall h c, holder_tx_signatures s = Some h -> counterparty_tx_signatures s = Some c ->
     exists tx, signed_tx s = Return (Some tx) /\
       signed_by (unsigned_tx s) h c (session_shared_input_signature s) tx) as Hmain.
  { intros h c Hh Hc. unfold signed_tx. rewrite Hh, Hc. destruct (released s h Hh) as (Hsh & _ & Hs).
    destruct (sinv_holder s Hinv h Hsh) as (Hn & _). destruct (sinv_counterparty s Hinv c Hc) as (Hm & Hsc).
    unfold local_inputs_count, remote_inputs_count in *. rewrite inputs_count_picked in Hn, Hm.
    pose proof (shared_input_index_Some s (sinv_wf s Hinv)) as Hsi.
    apply finalize_spec; [apply Hinv|done|done|]. intros Hi. split_and!; [by apply Hs, Hsi|by apply Hsc, Hsi|].
    by apply (sinv_shared s Hinv). }
  split; [|done]. unfold signed_tx. destruct (holder_tx_signatures s) as [h|] eqn:Hh; [|by eexists].
  destruct (counterparty_tx_signatures s) as [c|] eqn:Hc; [|by eexists].
  destruct (Hmain h c eq_refl eq_refl) as (tx & Htx & _). unfold signed_tx in Htx. rewrite Hh, Hc in Htx. by eexists.
Qed.

Lemma complete_session_inv {order : HashOrder} c s : complete_transition c = Ok s -> session_inv s.
Proof.
  unfold complete_transition. intros H. destruct (constructed_new c) as [t|] eqn:Hnew; [|done].
  cbn in H. injection H as <-. destruct (constructed_ok c t Hnew) as (-> & Hli & _).
  split; cbn [unsigned_tx session_shared_input_signature session_holder_tx_signatures counterparty_tx_signatures]; try done.
  - split; [cbn; by rewrite !length_fmap|].
    intros i. unfold assemble. cbn [shared_input_index input_metadata]. fold (sorted_inputs c).
    destruct (shared_funding_input c) as [s|]; [|done]. cbn [mbind option_bind].
    destruct (position _ _) as [p|] eqn:Hp; [|done]. intros [= <-]. apply position_lt in Hp.
    rewrite length_fmap. rewrite length_fmap in Hp. rewrite (small_index _ Hli p Hp). split; [|done]. apply Z.mod_pos_bound. lia.
  - unfold assemble. cbn [shared_input_index]. destruct (shared_funding_input c); [done|]. by intros [].
Qed.

(** C14: a signing session reveals nothing early and signs nothing else.  From a
    completed negotiation on, whatever the holder and the counterparty provide in
    whatever order: no operation panics on the signed transaction; the holder's
    signatures are released only once they are complete, verified and for the
    negotiated transaction, and only after the counterparty's commitment when the
    holder signs first, or after the counterparty's own signatures; and a signed
    transaction is the negotiated one with each peer's witnesses, in order, on
    the inputs that peer added, and both signatures on the funding input. *)
Theorem signing_session_sound {order : HashOrder} c s0 s :
  complete_transition c = Ok s0 -> rtc session_step s0 s ->
  (exists o, signed_tx s = Return o) /\
  (forall h, holder_tx_signatures s = Some h ->
     tx_hash h = compute_txid (constructed_tx (unsigned_tx s0)) /\
     verify_interactive_tx_signatures s (witnesses h) = Ok tt /\
     ((has_received_commitment_signed s = true /\ holder_sends_tx_signatures_first s = true) \/
      is_Some (counterparty_tx_signatures s))) /\
  (forall tx, signed_tx s = Return (Some tx) ->
     exists h c, holder_tx_signatures s = Some h /\ counterparty_tx_signatures s = Some c /\
       signed_by (unsigned_tx s0) h c (session_shared_input_signature s) tx).
Proof.
  intros Hc Hr. destruct (steps_inv _ _ Hr (complete_session_inv c s0 Hc)) as [Hinv <-].
  destruct (signed_tx_spec s Hinv) as [Hret Hsig]. split; [done|]. split.
  - intros h Hh. destruct (released s h Hh) as (Hsh & Hor & _).
    destruct (sinv_holder s Hinv h Hsh) as (_ & Hv & Ht & _). done.
  - intros tx Htx. destruct (holder_tx_signatures s) as [h|] eqn:Eh; [|by unfold signed_tx in Htx; rewrite Eh in Htx].
    destruct (counterparty_tx_signatures s) as [cs|] eqn:Ec; [|by unfold signed_tx in Htx; rewrite Eh, Ec in Htx].
    destruct (Hsig h cs eq_refl eq_refl) as (tx' & Htx' & Hby). exists h, cs. split_and!; try done. congruence.
Qed.

(** ** The exchange of signatures *)

Lemma picked_swap t t' local index meta : same_transaction t t' ->
  picked t' local index meta = picked t (negb local) index meta.
Proof.
  intros [_ Hr _ _ Hi _]. unfold picked, input_is_local, is_serial_id_valid_for_counterparty. rewrite Hr, Hi.
  by destruct (cons_holder_is_initiator t), (is_for_non_initiator _), local.
Qed.

Lemma add_witnesses_ext p q index input metadata ws : (forall i m, p i m = q i m) ->
  add_witnesses_from p index input metadata ws = add_witnesses_from q index input metadata ws.
Proof.
  intros H. revert index metadata ws. induction input as [|t input IH]; intros index [|m metadata] ws; cbn; try done.
  rewrite H. destruct (q index m); [destruct ws|]; by rewrite ?IH.
Qed.

Lemma all_witnesses_swap t t' h c : same_transaction t t' -> all_witnesses t' c h = all_witnesses t h c.
Proof.
  intros Hs. unfold all_witnesses. rewrite (same_tx _ _ Hs), (same_input_metadata _ _ Hs).
  rewrite (add_witnesses_ext (picked t' false) (picked t true)) by (intros; by apply picked_swap).
  rewrite (add_witnesses_ext (picked t' true) (picked t false)) by (intros; by apply picked_swap).
  apply add_witnesses_comm, picked_disjoint.
Qed.

(** The two peers' views of the funding input's witness. *)
Definition mirrored_signature (a b : option SharedInputSignature) : Prop :=
  match a, b with
  | Some a, Some b => witness_script b = witness_script a /\ holder_signature_first b = negb (holder_signature_first a)
  | None, None => True
  | _, _ => False
  end.

Lemma finalize_swap t t' h c a b : same_transaction t t' -> mirrored_signature a b ->
  finalize t' c h b = finalize t h c a.
Proof.
  intros Hs Hm. unfold finalize, add_remote_witnesses, add_local_witnesses, add_witnesses.
  cbn [tx_input version lock_time tx_output].
  fold (all_witnesses t h c). fold (all_witnesses t' c h).
  rewrite (all_witnesses_swap t t' h c Hs), (same_tx _ _ Hs), (same_input_index _ _ Hs).
  destruct (shared_input_index t) as [i|]; [|done].
  destruct (ts_shared_input_signature c) as [cs|], (ts_shared_input_signature h) as [hs|], a as [a|], b as [b|]; try done.
  destruct Hm as [Hw Hf]. unfold shared_witness. rewrite Hw, Hf.
  by destruct (holder_signature_first a).
Qed.

(** A session whose holder has provided everything and which waits for the
    counterparty's signatures. *)
Record ready (s : InteractiveTxSigningSession) (h : TxSignatures) : Prop := {
  ready_inv : session_inv s;
  ready_commitment : has_received_commitment_signed s = true;
  ready_holder : session_holder_tx_signatures s = Some h;
  ready_shared : awaiting_holder_shared_input_signature s = false;
  ready_counterparty : counterparty_tx_signatures s = None;
}.

Lemma ready_signature s h : ready s h -> is_Some (shared_input s) <-> is_Some (ts_shared_input_signature h).
Proof.
  intros [Hinv _ Hh Hs _]. destruct (sinv_holder s Hinv h Hh) as (_ & _ & _ & Himp). split; [|done].
  unfold awaiting_holder_shared_input_signature in Hs. rewrite Hh in Hs. intros Hsome.
  destruct (ts_shared_input_signature h); [done|]. rewrite bool_decide_eq_true_2 in Hs by done. done.
Qed.

Lemma ready_released s h : ready s h ->
  (forall c, holder_tx_signatures (set_counterparty s (Some c)) = Some h) /\
  holder_tx_signatures s = if holder_sends_tx_signatures_first s then Some h else None.
Proof.
  intros Hr. pose proof (ready_signature s h Hr) as Hsig. destruct Hr as [Hinv Hcs Hh Hs Hc].
  unfold holder_tx_signatures, has_received_tx_signatures, shared_input in *.
  cbn [set_counterparty unsigned_tx session_holder_tx_signatures counterparty_tx_signatures has_received_commitment_signed
    holder_sends_tx_signatures_first]. rewrite Hh, Hcs, Hc. cbn [mbind option_bind].
  assert (negb (bool_decide ((index ← shared_input_index (unsigned_tx s); input_metadata (unsigned_tx s) !! Z.to_nat index) = None)
            || bool_decide (is_Some (ts_shared_input_signature h))) = false) as Hneg.
  { apply negb_false_iff, orb_true_iff. rewrite !bool_decide_eq_true, eq_None_not_Some.
    destruct (ts_shared_input_signature h); [by right|]. left. intros Hx. by apply Hsig in Hx. }
  split.
  - intros c. cbn [mbind option_bind] in Hneg. rewrite Hneg. by rewrite orb_true_r.
  - cbn [mbind option_bind] in Hneg. rewrite Hneg. rewrite orb_false_r. done.
Qed.

Lemma deliver_signatures s t h c : ready s h -> ready t c -> same_transaction (unsigned_tx t) (unsigned_tx s) ->
  received_tx_signatures s c =
  tx ← finalize (unsigned_tx s) h c (session_shared_input_signature s);
  Return (Ok (if negb (holder_sends_tx_signatures_first s) then Some h else None, tx), set_counterparty s (Some c)).
Proof.
  intros Hrs Hrt Hsame. destruct (ready_released s h Hrs) as [Hrel _].
  pose proof (ready_signature t c Hrt) as Hsig. unfold received_tx_signatures, has_received_tx_signatures.
  rewrite (ready_counterparty s h Hrs). rewrite bool_decide_eq_false_2 by (by intros []).
  destruct (sinv_holder t (ready_inv t c Hrt) c (ready_holder t c Hrt)) as (Hn & _).
  assert (remote_inputs_count s = length (witnesses c)) as ->.
  { rewrite Hn. unfold remote_inputs_count, local_inputs_count. rewrite !inputs_count_picked.
    rewrite (same_input_metadata _ _ Hsame). rewrite <- !count_picked_filter. f_equal. apply List.filter_ext.
    intros [i m]. cbn. by rewrite (picked_swap (unsigned_tx t)). }
  rewrite bool_decide_eq_true_2 by done. cbn [negb].
  assert (shared_input s = shared_input t) as Hsi.
  { unfold shared_input. by rewrite (same_input_index _ _ Hsame), (same_input_metadata _ _ Hsame). }
  rewrite Hsi. assert (bool_decide (is_Some (shared_input t)) && bool_decide (ts_shared_input_signature c = None) = false) as ->.
  { apply andb_false_iff. rewrite !bool_decide_eq_false. destruct (ts_shared_input_signature c); [by right|].
    left. intros Hx. by apply Hsig in Hx. }
  assert (bool_decide (shared_input t = None) && bool_decide (is_Some (ts_shared_input_signature c)) = false) as ->.
  { apply andb_false_iff. rewrite !bool_decide_eq_false. destruct (shared_input t); [by left|].
    right. intros Hx. by apply Hsig in Hx. }
  unfold signed_tx. rewrite Hrel. cbn [set_counterparty counterparty_tx_signatures unsigned_tx
    session_shared_input_signature holder_sends_tx_signatures_first]. done.
Qed.

(** C28: the exchange of signatures comes through.  Take the sessions of two peers
    that negotiated the same transaction, exactly one of them to sign first, each
    with its commitment received and its witnesses provided.  The first one may
    send its signatures and the second one may not yet; when the second receives
    them it answers with its own and has the signed transaction; when the first
    receives the answer it has the same signed transaction. *)
Theorem signing_completes x y hx hy :
  ready x hx -> ready y hy -> same_transaction (unsigned_tx x) (unsigned_tx y) ->
  holder_sends_tx_signatures_first x = true -> holder_sends_tx_signatures_first y = false ->
  mirrored_signature (session_shared_input_signature x) (session_shared_input_signature y) ->
  holder_tx_signatures x = Some hx /\ holder_tx_signatures y = None /\
  exists tx,
    received_tx_signatures y hx = Return (Ok (Some hy, Some tx), set_counterparty y (Some hx)) /\
    received_tx_signatures x hy = Return (Ok (None, Some tx), set_counterparty x (Some hy)) /\
    signed_by (unsigned_tx x) hx hy (session_shared_input_signature x) tx.
Proof.
  intros Hx Hy Hs Hfx Hfy Hm. pose proof (ready_released x hx Hx) as [_ ->]. pose proof (ready_released y hy Hy) as [_ ->].
  rewrite Hfx, Hfy. split; [done|]. split; [done|].
  assert (same_transaction (unsigned_tx y) (unsigned_tx x)) as Hs'
    by (destruct Hs as [H1 H2 H3 H4 H5 H6]; split; try done; by rewrite H2, negb_involutive).
  rewrite (deliver_signatures y x hy hx Hy Hx Hs), (deliver_signatures x y hx hy Hx Hy Hs').
  rewrite (finalize_swap (unsigned_tx x) (unsigned_tx y) hx hy _ _ Hs Hm). rewrite Hfx, Hfy. cbn [negb].
  pose proof (ready_inv x hx Hx) as Hinv.
  destruct (sinv_holder x Hinv hx (ready_holder x hx Hx)) as (Hn & _).
  destruct (sinv_holder y (ready_inv y hy Hy) hy (ready_holder y hy Hy)) as (Hny & _).
  unfold local_inputs_count in *. rewrite inputs_count_picked in Hn, Hny.
  destruct (finalize_spec (unsigned_tx x) hx hy (session_shared_input_signature x)) as (tx & Hfin & Hby).
  - apply Hinv.
  - done.
  - rewrite Hny, (same_input_metadata _ _ Hs). rewrite <- !count_picked_filter. f_equal. apply List.filter_ext.
    intros [i m]. cbn. by rewrite (picked_swap (unsigned_tx x)).
  - intros Hi. pose proof (shared_input_index_Some x (sinv_wf x Hinv)) as Hsi.
    pose proof (shared_input_index_Some y (sinv_wf y (ready_inv y hy Hy))) as Hsiy. rewrite (same_input_index _ _ Hs) in Hsiy.
    split_and!; [by apply (ready_signature x hx Hx), Hsi|by apply (ready_signature y hy Hy), Hsiy|by apply (sinv_shared x Hinv)].
  - exists tx. rewrite Hfin. done.
Qed.
End signed.

(** ** A concrete instance *)

(** Signatures that add the hash to the key. *)
#[export] Instance toy_siglib : SigLib (H0 := toy_scripts) := {|
  pubkey_from_slice l := head l;
  ecdsa_from_slice l := s ← head l; Some ((s : Signature (ScriptLib := toy_scripts)), true);
  p2wpkh_signature_hash tx index spk v := Some [v];
  verify_ecdsa hash sig key := bool_decide (head hash = Some ((sig : Z) - (key : Z)));
  second_push s := Some (drop 2 s);
  XOnlyPublicKey := bytes;
  xonly_from_slice l := Some l;
  SchnorrSignature := bytes;
  taproot_from_slice l := Some (l, TapDefault);
  taproot_key_spend_signature_hash tx index prevs ty := Some [];
  verify_schnorr sig hash key := bool_decide (sig = key);
|}.

(** The acceptor of the negotiation's example: its commitment is signed, it
    provides its (empty) witnesses and receives those of the counterparty. *)
Definition example_signing : InteractiveTxSigningSession :=
  match complete_transition example_context with Ok s => s | Err _ => empty_session end.
Definition stepped (r : run (session_result * InteractiveTxSigningSession)) : InteractiveTxSigningSession :=
  (returned r (Ok (None, None), empty_session)).2.
Lemma stepped_eq r : is_return r = true -> r = Return ((returned r (Ok (None, None), empty_session)).1, stepped r).
Proof. by destruct r as [[]|]. Qed.
Definition example_txid : bytes := compute_txid (constructed_tx (unsigned_tx example_signing)).
Definition example_provided : InteractiveTxSigningSession :=
  stepped (provide_holder_witnesses (received_commitment_signed example_signing) [7] example_txid []).
Definition example_signed : InteractiveTxSigningSession :=
  stepped (received_tx_signatures example_provided (mkTxSignatures [7] example_txid [[[1]; [2]]] None)).

Lemma example_provided_eq : is_return
  (provide_holder_witnesses (received_commitment_signed example_signing) [7] example_txid []) = true.
Proof. vm_compute. reflexivity. Qed.
Lemma example_signed_eq : is_return
  (received_tx_signatures example_provided (mkTxSignatures [7] example_txid [[[1]; [2]]] None)) = true.
Proof. vm_compute. reflexivity. Qed.
Lemma example_signed_steps : rtc session_step example_signing example_signed.
Proof.
  apply (rtc_l _ _ _ _ (step_commitment_signed _)).
  apply (rtc_l _ _ _ _ (step_witnesses _ _ _ _ _ _ (stepped_eq _ example_provided_eq))).
  exact (rtc_once _ _ (step_tx_signatures _ _ _ _ (stepped_eq _ example_signed_eq))).
Qed.

Lemma signing_session_sound_witness :
  (exists o, signed_tx example_signed = Return o) /\
  forall tx, signed_tx example_signed = Return (Some tx) -> exists h c,
    holder_tx_signatures example_signed = Some h /\ counterparty_tx_signatures example_signed = Some c /\
    signed_by (unsigned_tx example_signing) h c (session_shared_input_signature example_signed) tx.
Proof.
  destruct (signing_session_sound example_context example_signing example_signed) as (H1 & _ & H3).
  - assert (is_ok (complete_transition example_context) = true) as H by (vm_compute; reflexivity).
    unfold example_signing. destruct (complete_transition example_context); [reflexivity|discriminate H].
  - exact example_signed_steps.
  - exact (conj H1 H3).
Defined.

(** Two peers that each bring an input: [example_outcome] of the negotiation. *)
Definition example_sessions : InteractiveTxSigningSession * InteractiveTxSigningSession :=
  match example_outcome with
  | Completed x y => (returned (into_signing_session x) empty_session, returned (into_signing_session y) empty_session)
  | _ => (empty_session, empty_session)
  end.

(** A ready session without a funding input, by evaluation. *)
Definition plain_ready (s : InteractiveTxSigningSession) (h : TxSignatures) : bool :=
  bool_decide (length (tx_input (constructed_tx (unsigned_tx s))) = length (input_metadata (unsigned_tx s))) &&
  bool_decide (shared_input_index (unsigned_tx s) = None) &&
  bool_decide (length (witnesses h) = local_inputs_count s) &&
  is_ok (verify_interactive_tx_signatures s (witnesses h)) &&
  bool_decide (tx_hash h = compute_txid (constructed_tx (unsigned_tx s))) &&
  negb (bool_decide (is_Some (ts_shared_input_signature h))) &&
  has_received_commitment_signed s && negb (bool_decide (is_Some (counterparty_tx_signatures s))).

Lemma plain_ready_spec s h : plain_ready s h = true -> session_holder_tx_signatures s = Some h -> ready s h.
Proof.
  unfold plain_ready. rewrite !andb_true_iff, !negb_true_iff, !bool_decide_eq_true, !bool_decide_eq_false.
  intros (((((((H1 & H2) & H3) & H4) & H5) & H6) & H7) & H8) Hh.
  assert (shared_input s = None) as Hsi by (unfold shared_input; by rewrite H2).
  apply eq_None_not_Some in H8. split; [split| | | |]; try done.
  - split; [done|]. by rewrite H2.
  - rewrite H2. by intros [].
  - rewrite Hh. intros h' [= <-]. split_and!; try done. by destruct (verify_interactive_tx_signatures s _) as [[]|].
  - by rewrite H8.
  - unfold awaiting_holder_shared_input_signature. by rewrite Hh, Hsi.
Qed.

Definition example_signature (amount key : Z) : TxSignatures :=
  mkTxSignatures [7] (compute_txid (constructed_tx (unsigned_tx example_sessions.1))) [[[amount + key]; [key]]] None.
Definition example_ready (s : InteractiveTxSigningSession) (h : TxSignatures) : InteractiveTxSigningSession :=
  stepped (provide_holder_witnesses (received_commitment_signed s) (ts_channel_id h) (tx_hash h) (witnesses h)).
Definition example_first : InteractiveTxSigningSession := example_ready example_sessions.2 (example_signature 7000 5).
Definition example_second : InteractiveTxSigningSession := example_ready example_sessions.1 (example_signature 200000 1).

Lemma example_ready_holder :
  session_holder_tx_signatures example_first = Some (example_signature 7000 5) /\
  session_holder_tx_signatures example_second = Some (example_signature 200000 1).
Proof.
  split; [vm_cast_no_check (eq_refl (Some (example_signature 7000 5)))|
          vm_cast_no_check (eq_refl (Some (example_signature 200000 1)))].
Qed.
Lemma example_same : same_transaction (unsigned_tx example_first) (unsigned_tx example_second).
Proof. split; match goal with |- _ = ?rhs => vm_cast_no_check (eq_refl rhs) end. Qed.

Lemma signing_completes_witness : exists tx,
  received_tx_signatures example_second (example_signature 7000 5) =
    Return (Ok (Some (example_signature 200000 1), Some tx), set_counterparty example_second (Some (example_signature 7000 5))) /\
  received_tx_signatures example_first (example_signature 200000 1) =
    Return (Ok (None, Some tx), set_counterparty example_first (Some (example_signature 200000 1))).
Proof.
  destruct (signing_completes example_first example_second (example_signature 7000 5) (example_signature 200000 1))
    as (_ & _ & tx & H1 & H2 & _).
  - apply plain_ready_spec; [vm_compute; reflexivity|exact (proj1 example_ready_holder)].
  - apply plain_ready_spec; [vm_compute; reflexivity|exact (proj2 example_ready_holder)].
  - exact example_same.
  - vm_compute. reflexivity.
  - vm_compute. reflexivity.
  - vm_cast_no_check I.
  - exists tx. exact (conj H1 H2).
Defined.
