(* ===== verification/ChannelState.v ===== *)
(** * The states of a channel and of its HTLCs

    The data types of lightning/src/ln/channel.rs on which the commitment
    protocol runs: the states of inbound and outbound HTLCs, the updates waiting
    in the holding cell, the states of a fee update, and [ChannelState] with its
    flag words and its [u32] encoding.  The flag words are the [u32]s of the
    source and the flag operations are its bit operations. *)

From S2P Require Import Prelude.
From S2P Require Import Keys.

Open Scope Z_scope.

(** ** Payloads

    Data the channel stores and hands over without looking inside: the onion,
    the source of an outbound HTLC, the error packets, the forwarding
    instructions of an HTLC, and the few accessors it uses on them.  A time is a
    [Z], in milliseconds. *)

Class Payloads := {
  OnionPacket : Type;
  HTLCSource : Type;
  (** [HTLCSource::static_invoice], [HTLCSource::PreviousHopData], [SentHTLCId::from_source] *)
  StaticInvoice : Type;
  static_invoice : HTLCSource -> option StaticInvoice;
  HTLCPreviousHopData : Type;
  previous_hop_data : HTLCSource -> option HTLCPreviousHopData;
  SentHTLCId : Type;
  sent_htlc_id : HTLCSource -> SentHTLCId;
  (** the data and the attribution data of an [update_fail_htlc] *)
  OnionErrorPacket : Type;
  AttributionData : Type;
  HTLCFailReason : Type;
  (** [HTLCFailReason::set_hold_time] *)
  set_hold_time : Z -> HTLCFailReason -> HTLCFailReason;
  PendingHTLCInfo : Type;
  (** the fields of [InboundUpdateAdd::Forwarded] *)
  ForwardedHop : Type;
  BlindedMessagePath : Type;
  PaymentClaimDetails : Type;
}.

Section states.
Context {bitcoin : Bitcoin} {payloads : Payloads}.

(** ** Messages

    The [channel_id] that every message carries is the same for one channel and
    is left out. *)

(** The optional fields of an [update_add_htlc], which travel unchanged from
    [send_htlc] to the message. *)
Record HTLCExtras := mkExtras {
  skimmed_fee_msat : option Z;
  blinding_point : option PublicKey;
  hold_htlc : option unit;
  accountable : bool;
  pq_onion_trail : option bytes;
  pq_blinded_ct : option bytes;
}.

Record UpdateAddHTLC := mkUpdateAdd {
  add_htlc_id : Z;
  add_amount_msat : Z;
  add_payment_hash : bytes;
  add_cltv_expiry : Z;
  add_onion_routing_packet : OnionPacket;
  add_extras : HTLCExtras;
}.
Record UpdateFulfillHTLC := mkUpdateFulfill {
  fulfill_htlc_id : Z;
  fulfill_payment_preimage : bytes;
  fulfill_attribution_data : option AttributionData;
}.
Record UpdateFailHTLC := mkUpdateFail { fail_htlc_id : Z; fail_packet : OnionErrorPacket }.
Record UpdateFailMalformedHTLC := mkUpdateFailMalformed {
  malformed_htlc_id : Z;
  malformed_sha256_of_onion : bytes;
  malformed_failure_code : Z;
}.

(** ** HTLC states *)

(** From ln/channelmanager.rs. *)
Inductive HTLCFailureMsg :=
| Relay (msg : UpdateFailHTLC)
| Malformed (msg : UpdateFailMalformedHTLC).
Inductive PendingHTLCStatus :=
| StatusForward (info : PendingHTLCInfo)
| StatusFail (msg : HTLCFailureMsg).

Inductive FeeUpdateState :=
| FeeRemoteAnnounced
| FeeAwaitingRemoteRevokeToAnnounce
| FeeOutbound.

#[export] Instance FeeUpdateState_eq : EqDecision FeeUpdateState.
Proof. solve_decision. Defined.

Inductive InboundHTLCRemovalReason :=
| FailRelay (err_packet : OnionErrorPacket)
| FailMalformed (sha256_of_onion : bytes) (failure_code : Z)
| Fulfill (preimage : bytes) (attribution_data : option AttributionData).

Inductive InboundHTLCResolution :=
| Resolved (pending_htlc_status : PendingHTLCStatus)
| Pending (update_add_htlc : UpdateAddHTLC).

Inductive InboundUpdateAdd :=
| WithOnion (update_add_htlc : UpdateAddHTLC)
| Forwarded (hop : ForwardedHop)
| Legacy.

Inductive InboundHTLCState :=
| RemoteAnnounced (res : InboundHTLCResolution)
| AwaitingRemoteRevokeToAnnounce (res : InboundHTLCResolution)
| AwaitingAnnouncedRemoteRevoke (res : InboundHTLCResolution)
| InboundCommitted (update_add_htlc : InboundUpdateAdd)
| LocalRemoved (reason : InboundHTLCRemovalReason).

Definition inbound_included (state : InboundHTLCState) (generated_by_local : bool) : bool :=
  match state with
  | RemoteAnnounced _ => negb generated_by_local
  | AwaitingRemoteRevokeToAnnounce _ => negb generated_by_local
  | AwaitingAnnouncedRemoteRevoke _ => true
  | InboundCommitted _ => true
  | LocalRemoved _ => negb generated_by_local
  end.

Definition inbound_preimage (state : InboundHTLCState) : option bytes :=
  match state with
  | LocalRemoved (Fulfill preimage _) => Some preimage
  | _ => None
  end.

Definition should_hold_htlc (state : InboundHTLCState) : bool :=
  match state with
  | RemoteAnnounced res | AwaitingRemoteRevokeToAnnounce res | AwaitingAnnouncedRemoteRevoke res =>
      match res with
      | Pending update_add_htlc => bool_decide (is_Some (hold_htlc (add_extras update_add_htlc)))
      | Resolved _ => false
      end
  | InboundCommitted _ | LocalRemoved _ => false
  end.

Record InboundHTLCOutput := mkInbound {
  in_htlc_id : Z;
  in_amount_msat : Z;
  in_cltv_expiry : Z;
  in_payment_hash : bytes;
  in_state : InboundHTLCState;
}.

Inductive OutboundHTLCOutcome :=
| Success (preimage : bytes) (attribution_data : option AttributionData)
| Failure (reason : HTLCFailReason).

Inductive OutboundHTLCState :=
| LocalAnnounced (onion : OnionPacket)
| OutboundCommitted
| RemoteRemoved (outcome : OutboundHTLCOutcome)
| AwaitingRemoteRevokeToRemove (outcome : OutboundHTLCOutcome)
| AwaitingRemovedRemoteRevoke (outcome : OutboundHTLCOutcome).

Definition outbound_included (state : OutboundHTLCState) (generated_by_local : bool) : bool :=
  match state with
  | LocalAnnounced _ => generated_by_local
  | OutboundCommitted => true
  | RemoteRemoved _ => generated_by_local
  | AwaitingRemoteRevokeToRemove _ => generated_by_local
  | AwaitingRemovedRemoteRevoke _ => false
  end.

Definition outbound_preimage (state : OutboundHTLCState) : option bytes :=
  match state with
  | RemoteRemoved (Success preimage _)
  | AwaitingRemoteRevokeToRemove (Success preimage _)
  | AwaitingRemovedRemoteRevoke (Success preimage _) => Some preimage
  | _ => None
  end.

Record OutboundHTLCOutput := mkOutbound {
  out_htlc_id : Z;
  out_amount_msat : Z;
  out_cltv_expiry : Z;
  out_payment_hash : bytes;
  out_state : OutboundHTLCState;
  out_source : HTLCSource;
  out_extras : HTLCExtras;
  out_send_timestamp : option Z;
}.

Inductive HTLCUpdateAwaitingACK :=
| AddHTLC (amount_msat cltv_expiry : Z) (payment_hash : bytes) (source : HTLCSource)
    (onion_routing_packet : OnionPacket) (extras : HTLCExtras)
| ClaimHTLC (payment_preimage : bytes) (attribution_data : option AttributionData) (htlc_id : Z)
| FailHTLC (htlc_id : Z) (err_packet : OnionErrorPacket)
| FailMalformedHTLC (htlc_id failure_code : Z) (sha256_of_onion : bytes).

End states.

(** ** Flag words

    [define_state_flags!] generates one [u32] newtype per group of flags; its
    operations are the same for every group but for the mask [ALL]. *)

Module state_flags.
Definition OUR_INIT_SENT : Z := Z.shiftl 1 0.
Definition THEIR_INIT_SENT : Z := Z.shiftl 1 1.
Definition FUNDING_NEGOTIATED : Z := Z.shiftl 1 2.
Definition AWAITING_CHANNEL_READY : Z := Z.shiftl 1 3.
Definition THEIR_CHANNEL_READY : Z := Z.shiftl 1 4.
Definition OUR_CHANNEL_READY : Z := Z.shiftl 1 5.
Definition CHANNEL_READY : Z := Z.shiftl 1 6.
Definition PEER_DISCONNECTED : Z := Z.shiftl 1 7.
Definition MONITOR_UPDATE_IN_PROGRESS : Z := Z.shiftl 1 8.
Definition AWAITING_REMOTE_REVOKE : Z := Z.shiftl 1 9.
Definition REMOTE_SHUTDOWN_SENT : Z := Z.shiftl 1 10.
Definition LOCAL_SHUTDOWN_SENT : Z := Z.shiftl 1 11.
Definition SHUTDOWN_COMPLETE : Z := Z.shiftl 1 12.
Definition WAITING_FOR_BATCH : Z := Z.shiftl 1 13.
Definition LOCAL_STFU_SENT : Z := Z.shiftl 1 14.
Definition REMOTE_STFU_SENT : Z := Z.shiftl 1 15.
Definition QUIESCENT : Z := Z.shiftl 1 16.
End state_flags.

(** [!x] on [u32]. *)
Definition not_u32 (x : Z) : Z := umax 32 - x.

Definition flags_from_u32 (all flags : Z) : result unit Z :=
  if negb (Z.land flags (not_u32 all) =? 0) then Err tt else Ok flags.
Definition is_set (flags flag : Z) : bool := Z.land flags flag =? flag.
Definition set_flag (flags flag : Z) : Z := Z.lor flags flag.
Definition clear_flag (flags flag : Z) : Z := Z.land flags (not_u32 flag).

Definition FundedStateFlags_ALL : Z :=
  Z.lor state_flags.PEER_DISCONNECTED (Z.lor state_flags.MONITOR_UPDATE_IN_PROGRESS
    (Z.lor state_flags.REMOTE_SHUTDOWN_SENT state_flags.LOCAL_SHUTDOWN_SENT)).
Definition NegotiatingFundingFlags_ALL : Z :=
  Z.lor state_flags.OUR_INIT_SENT state_flags.THEIR_INIT_SENT.
Definition FundingNegotiatedFlags_ALL : Z := FundedStateFlags_ALL.
Definition AwaitingChannelReadyFlags_ALL : Z :=
  Z.lor state_flags.THEIR_CHANNEL_READY (Z.lor state_flags.OUR_CHANNEL_READY
    (Z.lor state_flags.WAITING_FOR_BATCH FundedStateFlags_ALL)).
Definition ChannelReadyFlags_ALL : Z :=
  Z.lor state_flags.AWAITING_REMOTE_REVOKE (Z.lor state_flags.LOCAL_STFU_SENT
    (Z.lor state_flags.REMOTE_STFU_SENT (Z.lor state_flags.QUIESCENT FundedStateFlags_ALL))).

Inductive ChannelState :=
| NegotiatingFunding (flags : Z)
| FundingNegotiated (flags : Z)
| AwaitingChannelReady (flags : Z)
| ChannelReady (flags : Z)
| ShutdownComplete.

#[export] Instance ChannelState_eq : EqDecision ChannelState.
Proof. solve_decision. Defined.

Definition from_u32 (state : Z) : result unit ChannelState :=
  if state =? state_flags.SHUTDOWN_COMPLETE then Ok ShutdownComplete
  else if Z.land state state_flags.FUNDING_NEGOTIATED =? state_flags.FUNDING_NEGOTIATED then
    flags ← flags_from_u32 FundingNegotiatedFlags_ALL (clear_flag state state_flags.FUNDING_NEGOTIATED);
    mret (FundingNegotiated flags)
  else if Z.land state state_flags.AWAITING_CHANNEL_READY =? state_flags.AWAITING_CHANNEL_READY then
    flags ← flags_from_u32 AwaitingChannelReadyFlags_ALL
              (clear_flag state state_flags.AWAITING_CHANNEL_READY);
    mret (AwaitingChannelReady flags)
  else if Z.land state state_flags.CHANNEL_READY =? state_flags.CHANNEL_READY then
    flags ← flags_from_u32 ChannelReadyFlags_ALL (clear_flag state state_flags.CHANNEL_READY);
    mret (ChannelReady flags)
  else match flags_from_u32 NegotiatingFundingFlags_ALL state with
       | Ok flags => Ok (NegotiatingFunding flags)
       | Err _ => Err tt
       end.

Definition to_u32 (state : ChannelState) : Z :=
  match state with
  | NegotiatingFunding flags => flags
  | FundingNegotiated flags => Z.lor state_flags.FUNDING_NEGOTIATED flags
  | AwaitingChannelReady flags => Z.lor state_flags.AWAITING_CHANNEL_READY flags
  | ChannelReady flags => Z.lor state_flags.CHANNEL_READY flags
  | ShutdownComplete => state_flags.SHUTDOWN_COMPLETE
  end.

(** [impl_state_flag!] for the flags of every funded state, of
    [AwaitingChannelReady] and of [ChannelReady]; the setters leave the other
    states alone. *)
Definition funded_get (flag : Z) (state : ChannelState) : bool :=
  match state with
  | FundingNegotiated flags | AwaitingChannelReady flags | ChannelReady flags => is_set flags flag
  | _ => false
  end.
Definition funded_update (f : Z -> Z) (state : ChannelState) : ChannelState :=
  match state with
  | FundingNegotiated flags => FundingNegotiated (f flags)
  | AwaitingChannelReady flags => AwaitingChannelReady (f flags)
  | ChannelReady flags => ChannelReady (f flags)
  | _ => state
  end.
Definition awaiting_get (flag : Z) (state : ChannelState) : bool :=
  match state with AwaitingChannelReady flags => is_set flags flag | _ => false end.
Definition awaiting_update (f : Z -> Z) (state : ChannelState) : ChannelState :=
  match state with AwaitingChannelReady flags => AwaitingChannelReady (f flags) | _ => state end.
Definition ready_get (flag : Z) (state : ChannelState) : bool :=
  match state with ChannelReady flags => is_set flags flag | _ => false end.
Definition ready_update (f : Z -> Z) (state : ChannelState) : ChannelState :=
  match state with ChannelReady flags => ChannelReady (f flags) | _ => state end.

Definition is_peer_disconnected := funded_get state_flags.PEER_DISCONNECTED.
Definition set_peer_disconnected := funded_update (fun f => set_flag f state_flags.PEER_DISCONNECTED).
Definition clear_peer_disconnected := funded_update (fun f => clear_flag f state_flags.PEER_DISCONNECTED).
Definition is_monitor_update_in_progress := funded_get state_flags.MONITOR_UPDATE_IN_PROGRESS.
Definition set_monitor_update_in_progress :=
  funded_update (fun f => set_flag f state_flags.MONITOR_UPDATE_IN_PROGRESS).
Definition clear_monitor_update_in_progress :=
  funded_update (fun f => clear_flag f state_flags.MONITOR_UPDATE_IN_PROGRESS).
Definition is_local_shutdown_sent := funded_get state_flags.LOCAL_SHUTDOWN_SENT.
Definition set_local_shutdown_sent := funded_update (fun f => set_flag f state_flags.LOCAL_SHUTDOWN_SENT).
Definition is_remote_shutdown_sent := funded_get state_flags.REMOTE_SHUTDOWN_SENT.
Definition set_remote_shutdown_sent := funded_update (fun f => set_flag f state_flags.REMOTE_SHUTDOWN_SENT).
Definition is_our_channel_ready := awaiting_get state_flags.OUR_CHANNEL_READY.
Definition set_our_channel_ready := awaiting_update (fun f => set_flag f state_flags.OUR_CHANNEL_READY).
Definition is_their_channel_ready := awaiting_get state_flags.THEIR_CHANNEL_READY.
Definition set_their_channel_ready := awaiting_update (fun f => set_flag f state_flags.THEIR_CHANNEL_READY).
Definition is_waiting_for_batch := awaiting_get state_flags.WAITING_FOR_BATCH.
Definition clear_waiting_for_batch := awaiting_update (fun f => clear_flag f state_flags.WAITING_FOR_BATCH).
Definition is_awaiting_remote_revoke := ready_get state_flags.AWAITING_REMOTE_REVOKE.
Definition set_awaiting_remote_revoke := ready_update (fun f => set_flag f state_flags.AWAITING_REMOTE_REVOKE).
Definition clear_awaiting_remote_revoke :=
  ready_update (fun f => clear_flag f state_flags.AWAITING_REMOTE_REVOKE).
Definition is_local_stfu_sent := ready_get state_flags.LOCAL_STFU_SENT.
Definition set_local_stfu_sent := ready_update (fun f => set_flag f state_flags.LOCAL_STFU_SENT).
Definition clear_local_stfu_sent := ready_update (fun f => clear_flag f state_flags.LOCAL_STFU_SENT).
Definition is_remote_stfu_sent := ready_get state_flags.REMOTE_STFU_SENT.
Definition set_remote_stfu_sent := ready_update (fun f => set_flag f state_flags.REMOTE_STFU_SENT).
Definition clear_remote_stfu_sent := ready_update (fun f => clear_flag f state_flags.REMOTE_STFU_SENT).
Definition is_quiescent := ready_get state_flags.QUIESCENT.
Definition set_quiescent := ready_update (fun f => set_flag f state_flags.QUIESCENT).
Definition clear_quiescent := ready_update (fun f => clear_flag f state_flags.QUIESCENT).

Definition is_both_sides_shutdown (state : ChannelState) : bool :=
  is_local_shutdown_sent state && is_remote_shutdown_sent state.

Definition is_channel_ready (state : ChannelState) : bool :=
  match state with ChannelReady _ => true | _ => false end.

Definition can_generate_new_commitment (state : ChannelState) : bool :=
  match state with
  | ChannelReady flags =>
      negb (is_set flags state_flags.AWAITING_REMOTE_REVOKE) &&
      negb (is_set flags state_flags.LOCAL_STFU_SENT) &&
      negb (is_set flags state_flags.QUIESCENT) &&
      negb (is_set flags state_flags.MONITOR_UPDATE_IN_PROGRESS) &&
      negb (is_set flags state_flags.PEER_DISCONNECTED)
  | _ => false
  end.

(** ** The flag words bit by bit *)

Lemma bit_of_flag n i : 0 <= n -> 0 <= i -> Z.testbit (Z.shiftl 1 n) i = (i =? n).
Proof.
  intros Hn Hi. rewrite Z.shiftl_mul_pow2, Z.mul_1_l, Z.pow2_bits_eqb by lia. apply Z.eqb_sym.
Qed.

Lemma is_set_bit f n : 0 <= n -> is_set f (Z.shiftl 1 n) = Z.testbit f n.
Proof.
  intros Hn. unfold is_set. apply eq_true_iff_eq. rewrite Z.eqb_eq. split.
  - intros Heq. assert (Z.testbit (Z.land f (Z.shiftl 1 n)) n = true) as Hb.
    { by rewrite Heq, bit_of_flag, Z.eqb_refl by lia. }
    rewrite Z.land_spec in Hb. by apply andb_true_iff in Hb as [? _].
  - intros Hb. apply Z.bits_inj'. intros i Hi. rewrite Z.land_spec, bit_of_flag by lia.
    destruct (Z.eqb_spec i n); [subst; by rewrite Hb|by rewrite andb_false_r].
Qed.

Lemma not_u32_bit x i : fits 32 x -> 0 <= i -> Z.testbit (not_u32 x) i = (i <? 32) && negb (Z.testbit x i).
Proof.
  intros Hx Hi. unfold not_u32, umax. replace (2 ^ 32 - 1 - x) with (Z.ldiff (Z.ones 32) x).
  - rewrite Z.ldiff_spec. destruct (Z.ltb_spec i 32).
    + by rewrite Z.ones_spec_low by lia.
    + by rewrite Z.ones_spec_high by lia.
  - symmetry. rewrite <- Z.sub_nocarry_ldiff; [done|]. apply Z.bits_inj'. intros j Hj.
    rewrite Z.ldiff_spec, Z.bits_0. destruct (Z.ltb_spec j 32).
    + rewrite Z.ones_spec_low by lia. by rewrite andb_false_r.
    + rewrite <- (Z.mod_small x (2 ^ 32)) by done. by rewrite Z.mod_pow2_bits_high by lia.
Qed.

Lemma set_flag_bit f n i : 0 <= n -> 0 <= i ->
  Z.testbit (set_flag f (Z.shiftl 1 n)) i = Z.testbit f i || (i =? n).
Proof. intros. unfold set_flag. by rewrite Z.lor_spec, bit_of_flag. Qed.

Lemma shiftl_fits n : 0 <= n < 32 -> fits 32 (Z.shiftl 1 n).
Proof.
  intros. unfold fits. rewrite Z.shiftl_mul_pow2, Z.mul_1_l by lia.
  split; [apply Z.pow_nonneg; lia|apply Z.pow_lt_mono_r; lia].
Qed.

Lemma clear_flag_bit f n i : 0 <= n < 32 -> 0 <= i ->
  Z.testbit (clear_flag f (Z.shiftl 1 n)) i = Z.testbit f i && (i <? 32) && negb (i =? n).
Proof.
  intros. unfold clear_flag.
  rewrite Z.land_spec, not_u32_bit, bit_of_flag by (try apply shiftl_fits; lia). by rewrite andb_assoc.
Qed.

Lemma fits_bit x i : fits 32 x -> 32 <= i -> Z.testbit x i = false.
Proof.
  intros Hx Hi. rewrite <- (Z.mod_small x (2 ^ 32)) by done. by rewrite Z.mod_pow2_bits_high by lia.
Qed.

Lemma bits_fits x : 0 <= x -> (forall i, 32 <= i -> Z.testbit x i = false) -> fits 32 x.
Proof.
  intros Hx Hb. split; [done|]. destruct (Z.lt_ge_cases x (2 ^ 32)) as [|Hge]; [done|].
  assert (0 < x) as Hpos by lia.
  assert (32 <= Z.log2 x) as Hlog. { rewrite <- (Z.log2_pow2 32) by lia. apply Z.log2_le_mono. lia. }
  pose proof (Z.bit_log2 x Hpos) as Ht. by rewrite Hb in Ht.
Qed.

(** A flag word with no bit outside its group. *)
Definition flags_wf (all flags : Z) : Prop := fits 32 flags /\ Z.land flags (not_u32 all) = 0.

Lemma flags_wf_bit all f : fits 32 all -> fits 32 f ->
  (flags_wf all f <-> forall i, 0 <= i -> Z.testbit f i = true -> Z.testbit all i = true).
Proof.
  intros Ha Hf. unfold flags_wf. split.
  - intros [_ Hl] i Hi Hb. destruct (Z.lt_ge_cases i 32) as [Hlt|]; [|by rewrite fits_bit in Hb].
    apply (f_equal (fun x => Z.testbit x i)) in Hl.
    rewrite Z.land_spec, Hb, not_u32_bit, Z.bits_0 in Hl by done.
    apply Z.ltb_lt in Hlt. rewrite Hlt in Hl. simpl in Hl. by apply negb_false_iff in Hl.
  - intros Hb. split; [done|]. apply Z.bits_inj'. intros i Hi. rewrite Z.land_spec, not_u32_bit, Z.bits_0 by done.
    destruct (Z.testbit f i) eqn:Hfi; [|done]. by rewrite (Hb i Hi Hfi), andb_false_r.
Qed.

Definition channel_state_wf (state : ChannelState) : Prop :=
  match state with
  | NegotiatingFunding flags => flags_wf NegotiatingFundingFlags_ALL flags
  | FundingNegotiated flags => flags_wf FundingNegotiatedFlags_ALL flags
  | AwaitingChannelReady flags => flags_wf AwaitingChannelReadyFlags_ALL flags
  | ChannelReady flags => flags_wf ChannelReadyFlags_ALL flags
  | ShutdownComplete => True
  end.

Lemma wf_bit_off all f i : fits 32 all -> flags_wf all f -> 0 <= i -> Z.testbit all i = false -> Z.testbit f i = false.
Proof.
  intros Ha Hf Hi Hb. destruct (Z.testbit f i) eqn:Hfi; [|done].
  by rewrite (proj1 (flags_wf_bit all f Ha (proj1 Hf)) Hf i Hi Hfi) in Hb.
Qed.

Lemma tag_clear n f : 0 <= n < 32 -> fits 32 f -> Z.testbit f n = false ->
  clear_flag (Z.lor (Z.shiftl 1 n) f) (Z.shiftl 1 n) = f.
Proof.
  intros Hn Hf Hb. apply Z.bits_inj'. intros i Hi.
  rewrite clear_flag_bit, Z.lor_spec, bit_of_flag by lia. destruct (Z.eqb_spec i n) as [->|].
  - by rewrite andb_false_r.
  - simpl. destruct (Z.ltb_spec i 32); [by rewrite !andb_true_r|]. by rewrite fits_bit.
Qed.

Lemma clear_tag n v : 0 <= n < 32 -> fits 32 v -> Z.testbit v n = true ->
  Z.lor (Z.shiftl 1 n) (clear_flag v (Z.shiftl 1 n)) = v.
Proof.
  intros Hn Hv Hb. apply Z.bits_inj'. intros i Hi.
  rewrite Z.lor_spec, clear_flag_bit, bit_of_flag by lia. destruct (Z.eqb_spec i n) as [->|]; [done|].
  simpl. destruct (Z.ltb_spec i 32); [by rewrite !andb_true_r|]. by rewrite fits_bit.
Qed.

Lemma clear_flag_fits n v : 0 <= n < 32 -> fits 32 v -> fits 32 (clear_flag v (Z.shiftl 1 n)).
Proof.
  intros Hn Hv. apply bits_fits.
  - unfold clear_flag. apply Z.land_nonneg. left. apply Hv.
  - intros i Hi. rewrite clear_flag_bit, fits_bit by (done || lia). done.
Qed.

Lemma set_flag_fits n v : 0 <= n < 32 -> fits 32 v -> fits 32 (set_flag v (Z.shiftl 1 n)).
Proof.
  intros Hn Hv. apply bits_fits.
  - unfold set_flag. apply Z.lor_nonneg. split; [apply Hv|]. apply shiftl_fits. lia.
  - intros i Hi. rewrite set_flag_bit, fits_bit by (done || lia). simpl. apply Z.eqb_neq. lia.
Qed.

Lemma clear_flag_wf all n v : fits 32 all -> 0 <= n < 32 -> flags_wf all v -> flags_wf all (clear_flag v (Z.shiftl 1 n)).
Proof.
  intros Ha Hn Hv. pose proof (clear_flag_fits n v Hn (proj1 Hv)).
  apply flags_wf_bit; [done..|]. intros i Hi. rewrite clear_flag_bit by done.
  intros [[Hb _]%andb_prop _]%andb_prop. by apply (flags_wf_bit all v Ha (proj1 Hv)).
Qed.

Lemma set_flag_wf all n v : fits 32 all -> 0 <= n < 32 -> Z.testbit all n = true ->
  flags_wf all v -> flags_wf all (set_flag v (Z.shiftl 1 n)).
Proof.
  intros Ha Hn Hb Hv. pose proof (set_flag_fits n v Hn (proj1 Hv)).
  apply flags_wf_bit; [done..|]. intros i Hi. rewrite set_flag_bit by lia.
  intros [Hbi| ->%Z.eqb_eq]%orb_prop; [|done]. by apply (flags_wf_bit all v Ha (proj1 Hv)).
Qed.

Lemma flags_from_u32_Ok all v f : fits 32 v -> flags_from_u32 all v = Ok f <-> f = v /\ flags_wf all v.
Proof.
  intros Hv. unfold flags_from_u32, flags_wf. destruct (Z.eqb_spec (Z.land v (not_u32 all)) 0); simpl;
    (split; [intros [=]|intros [-> []]]); subst; (done || by split).
Qed.

Lemma negotiating_fits : fits 32 NegotiatingFundingFlags_ALL.
Proof. by split. Qed.
Lemma funding_fits : fits 32 FundingNegotiatedFlags_ALL.
Proof. by split. Qed.
Lemma awaiting_fits : fits 32 AwaitingChannelReadyFlags_ALL.
Proof. by split. Qed.
Lemma ready_fits : fits 32 ChannelReadyFlags_ALL.
Proof. by split. Qed.
#[export] Hint Resolve negotiating_fits funding_fits awaiting_fits ready_fits : ldk.

Lemma from_u32_tagged all n f : fits 32 all -> flags_wf all f -> 0 <= n < 32 -> Z.testbit all n = false ->
  flags_from_u32 all (clear_flag (Z.lor (Z.shiftl 1 n) f) (Z.shiftl 1 n)) = Ok f.
Proof.
  intros Ha Hf Hn Hb. rewrite tag_clear; [|lia|apply Hf|apply (wf_bit_off all f); (done || lia)].
  apply flags_from_u32_Ok; [apply Hf|done].
Qed.

Lemma tagged_bit n f i : 0 <= n -> 0 <= i -> Z.testbit (Z.lor (Z.shiftl 1 n) f) i = (i =? n) || Z.testbit f i.
Proof. intros. by rewrite Z.lor_spec, bit_of_flag. Qed.

Lemma not_shutdown_complete v i : 0 <= i -> i <> 12 -> Z.testbit v i = true ->
  (v =? state_flags.SHUTDOWN_COMPLETE) = false.
Proof.
  intros Hi Hne Hb. apply Z.eqb_neq. intros ->. unfold state_flags.SHUTDOWN_COMPLETE in Hb.
  rewrite bit_of_flag in Hb by lia. by apply Z.eqb_eq in Hb.
Qed.

Ltac bit_off H := match type of H with flags_wf ?all ?f =>
  rewrite (fun i => wf_bit_off all f i ltac:(auto with ldk) H); [|lia|reflexivity] end.

Ltac unfold_tags := unfold from_u32, state_flags.FUNDING_NEGOTIATED, state_flags.AWAITING_CHANNEL_READY,
  state_flags.CHANNEL_READY.

Lemma land_eq_bit f n : 0 <= n -> (Z.land f (Z.shiftl 1 n) =? Z.shiftl 1 n) = Z.testbit f n.
Proof. apply is_set_bit. Qed.

Lemma state_decodes state : channel_state_wf state -> from_u32 (to_u32 state) = Ok state.
Proof.
  destruct state as [f|f|f|f|]; cbn [to_u32 channel_state_wf]; unfold_tags; intros Hwf; try done.
  - assert ((f =? state_flags.SHUTDOWN_COMPLETE) = false) as ->.
    { apply Z.eqb_neq. intros ->. by destruct Hwf. }
    rewrite !land_eq_bit by lia. bit_off Hwf. bit_off Hwf. bit_off Hwf.
    rewrite (proj2 (flags_from_u32_Ok _ _ f (proj1 Hwf))); done.
  - rewrite (not_shutdown_complete _ 2); [|lia|done|by rewrite tagged_bit].
    rewrite !land_eq_bit, !tagged_bit by lia. simpl.
    by rewrite (from_u32_tagged _ 2 f funding_fits Hwf).
  - rewrite (not_shutdown_complete _ 3); [|lia|done|by rewrite tagged_bit].
    rewrite !land_eq_bit, !tagged_bit by lia. bit_off Hwf. simpl.
    by rewrite (from_u32_tagged _ 3 f awaiting_fits Hwf).
  - rewrite (not_shutdown_complete _ 6); [|lia|done|by rewrite tagged_bit].
    rewrite !land_eq_bit, !tagged_bit by lia. bit_off Hwf. bit_off Hwf. simpl.
    by rewrite (from_u32_tagged _ 6 f ready_fits Hwf).
Qed.

Lemma state_encodes v state : fits 32 v -> from_u32 v = Ok state ->
  channel_state_wf state /\ to_u32 state = v.
Proof.
  intros Hv. unfold_tags. rewrite !land_eq_bit by lia.
  destruct (Z.eqb_spec v state_flags.SHUTDOWN_COMPLETE) as [->|_]; [by intros [= <-]|].
  destruct (Z.testbit v 2) eqn:H2; [|destruct (Z.testbit v 3) eqn:H3; [|destruct (Z.testbit v 6) eqn:H6]].
  4: { destruct (flags_from_u32 _ _) as [f|] eqn:Hf; [|done]. intros [= <-].
       apply flags_from_u32_Ok in Hf as [-> ?]; done. }
  all: match goal with |- context [flags_from_u32 _ ?c] => destruct (flags_from_u32 _ c) as [f|] eqn:Hf end; [|done].
  all: intros [= <-]; apply flags_from_u32_Ok in Hf as [-> ?]; [|apply clear_flag_fits; (done || lia)].
  all: split; [done|]; simpl; by apply clear_tag.
Qed.

(** C33: the [u32] a channel is persisted as stands for its state: every state
    whose flag words hold only flags of their group is read back as it was
    written, a word that is read denotes such a state and is what that state is
    written as, and the operations that set and clear flags stay within such
    states. *)
Theorem channel_state_u32_roundtrip :
  (forall state, channel_state_wf state -> from_u32 (to_u32 state) = Ok state) /\
  (forall v state, fits 32 v -> from_u32 v = Ok state -> channel_state_wf state /\ to_u32 state = v) /\
  (forall state, channel_state_wf state ->
     Forall (fun f => channel_state_wf (f state))
       [set_peer_disconnected; clear_peer_disconnected; set_monitor_update_in_progress;
        clear_monitor_update_in_progress; set_local_shutdown_sent; set_remote_shutdown_sent;
        set_our_channel_ready; set_their_channel_ready; clear_waiting_for_batch;
        set_awaiting_remote_revoke; clear_awaiting_remote_revoke; set_local_stfu_sent;
        clear_local_stfu_sent; set_remote_stfu_sent; clear_remote_stfu_sent; set_quiescent;
        clear_quiescent]).
Proof.
  split; [apply state_decodes|]. split; [apply state_encodes|]. intros state Hwf.
  prove_forall; destruct state; try apply Hwf; simpl;
    (apply clear_flag_wf || apply set_flag_wf); try done; (lia || auto with ldk).
Qed.

(** ** Flags after setting and clearing flags *)

Lemma is_set_set f n m : 0 <= n -> 0 <= m ->
  is_set (set_flag f (Z.shiftl 1 m)) (Z.shiftl 1 n) = is_set f (Z.shiftl 1 n) || (n =? m).
Proof. intros. rewrite !is_set_bit by lia. by rewrite set_flag_bit. Qed.

Lemma is_set_clear f n m : 0 <= n < 32 -> 0 <= m < 32 ->
  is_set (clear_flag f (Z.shiftl 1 m)) (Z.shiftl 1 n) = is_set f (Z.shiftl 1 n) && negb (n =? m).
Proof.
  intros Hn Hm. rewrite !is_set_bit by lia. rewrite clear_flag_bit by lia.
  apply proj2, Z.ltb_lt in Hn. by rewrite Hn, andb_true_r.
Qed.

Ltac flag_solve s :=
  destruct s; try reflexivity;
  first [refine (eq_trans (is_set_set _ _ _ _ _) _) | refine (eq_trans (is_set_clear _ _ _ _ _) _)];
  solve [lia | cbn; by rewrite ?orb_false_r, ?andb_true_r].

Lemma is_peer_disconnected_set_awaiting_remote_revoke s : is_peer_disconnected (set_awaiting_remote_revoke s) = is_peer_disconnected s.
Proof. flag_solve s. Qed.
Lemma is_peer_disconnected_clear_awaiting_remote_revoke s : is_peer_disconnected (clear_awaiting_remote_revoke s) = is_peer_disconnected s.
Proof. flag_solve s. Qed.
Lemma is_peer_disconnected_set_monitor_update_in_progress s : is_peer_disconnected (set_monitor_update_in_progress s) = is_peer_disconnected s.
Proof. flag_solve s. Qed.
Lemma is_peer_disconnected_clear_monitor_update_in_progress s : is_peer_disconnected (clear_monitor_update_in_progress s) = is_peer_disconnected s.
Proof. flag_solve s. Qed.
Lemma is_monitor_update_in_progress_set_awaiting_remote_revoke s : is_monitor_update_in_progress (set_awaiting_remote_revoke s) = is_monitor_update_in_progress s.
Proof. flag_solve s. Qed.
Lemma is_monitor_update_in_progress_clear_awaiting_remote_revoke s : is_monitor_update_in_progress (clear_awaiting_remote_revoke s) = is_monitor_update_in_progress s.
Proof. flag_solve s. Qed.
Lemma is_monitor_update_in_progress_set_peer_disconnected s : is_monitor_update_in_progress (set_peer_disconnected s) = is_monitor_update_in_progress s.
Proof. flag_solve s. Qed.
Lemma is_local_shutdown_sent_set_awaiting_remote_revoke s : is_local_shutdown_sent (set_awaiting_remote_revoke s) = is_local_shutdown_sent s.
Proof. flag_solve s. Qed.
Lemma is_local_shutdown_sent_clear_awaiting_remote_revoke s : is_local_shutdown_sent (clear_awaiting_remote_revoke s) = is_local_shutdown_sent s.
Proof. flag_solve s. Qed.
Lemma is_local_shutdown_sent_set_monitor_update_in_progress s : is_local_shutdown_sent (set_monitor_update_in_progress s) = is_local_shutdown_sent s.
Proof. flag_solve s. Qed.
Lemma is_local_shutdown_sent_clear_monitor_update_in_progress s : is_local_shutdown_sent (clear_monitor_update_in_progress s) = is_local_shutdown_sent s.
Proof. flag_solve s. Qed.
Lemma is_local_shutdown_sent_set_peer_disconnected s : is_local_shutdown_sent (set_peer_disconnected s) = is_local_shutdown_sent s.
Proof. flag_solve s. Qed.
Lemma is_remote_shutdown_sent_set_awaiting_remote_revoke s : is_remote_shutdown_sent (set_awaiting_remote_revoke s) = is_remote_shutdown_sent s.
Proof. flag_solve s. Qed.
Lemma is_remote_shutdown_sent_clear_awaiting_remote_revoke s : is_remote_shutdown_sent (clear_awaiting_remote_revoke s) = is_remote_shutdown_sent s.
Proof. flag_solve s. Qed.
Lemma is_remote_shutdown_sent_set_monitor_update_in_progress s : is_remote_shutdown_sent (set_monitor_update_in_progress s) = is_remote_shutdown_sent s.
Proof. flag_solve s. Qed.
Lemma is_remote_shutdown_sent_clear_monitor_update_in_progress s : is_remote_shutdown_sent (clear_monitor_update_in_progress s) = is_remote_shutdown_sent s.
Proof. flag_solve s. Qed.
Lemma is_remote_shutdown_sent_set_peer_disconnected s : is_remote_shutdown_sent (set_peer_disconnected s) = is_remote_shutdown_sent s.
Proof. flag_solve s. Qed.
Lemma is_awaiting_remote_revoke_set_monitor_update_in_progress s : is_awaiting_remote_revoke (set_monitor_update_in_progress s) = is_awaiting_remote_revoke s.
Proof. flag_solve s. Qed.
Lemma is_awaiting_remote_revoke_clear_monitor_update_in_progress s : is_awaiting_remote_revoke (clear_monitor_update_in_progress s) = is_awaiting_remote_revoke s.
Proof. flag_solve s. Qed.
Lemma is_awaiting_remote_revoke_set_peer_disconnected s : is_awaiting_remote_revoke (set_peer_disconnected s) = is_awaiting_remote_revoke s.
Proof. flag_solve s. Qed.
Lemma is_local_stfu_sent_set_awaiting_remote_revoke s : is_local_stfu_sent (set_awaiting_remote_revoke s) = is_local_stfu_sent s.
Proof. flag_solve s. Qed.
Lemma is_local_stfu_sent_clear_awaiting_remote_revoke s : is_local_stfu_sent (clear_awaiting_remote_revoke s) = is_local_stfu_sent s.
Proof. flag_solve s. Qed.
Lemma is_local_stfu_sent_set_monitor_update_in_progress s : is_local_stfu_sent (set_monitor_update_in_progress s) = is_local_stfu_sent s.
Proof. flag_solve s. Qed.
Lemma is_local_stfu_sent_clear_monitor_update_in_progress s : is_local_stfu_sent (clear_monitor_update_in_progress s) = is_local_stfu_sent s.
Proof. flag_solve s. Qed.
Lemma is_local_stfu_sent_set_peer_disconnected s : is_local_stfu_sent (set_peer_disconnected s) = is_local_stfu_sent s.
Proof. flag_solve s. Qed.
Lemma is_remote_stfu_sent_set_awaiting_remote_revoke s : is_remote_stfu_sent (set_awaiting_remote_revoke s) = is_remote_stfu_sent s.
Proof. flag_solve s. Qed.
Lemma is_remote_stfu_sent_clear_awaiting_remote_revoke s : is_remote_stfu_sent (clear_awaiting_remote_revoke s) = is_remote_stfu_sent s.
Proof. flag_solve s. Qed.
Lemma is_remote_stfu_sent_set_monitor_update_in_progress s : is_remote_stfu_sent (set_monitor_update_in_progress s) = is_remote_stfu_sent s.
Proof. flag_solve s. Qed.
Lemma is_remote_stfu_sent_clear_monitor_update_in_progress s : is_remote_stfu_sent (clear_monitor_update_in_progress s) = is_remote_stfu_sent s.
Proof. flag_solve s. Qed.
Lemma is_remote_stfu_sent_set_peer_disconnected s : is_remote_stfu_sent (set_peer_disconnected s) = is_remote_stfu_sent s.
Proof. flag_solve s. Qed.
Lemma is_quiescent_set_awaiting_remote_revoke s : is_quiescent (set_awaiting_remote_revoke s) = is_quiescent s.
Proof. flag_solve s. Qed.
Lemma is_quiescent_clear_awaiting_remote_revoke s : is_quiescent (clear_awaiting_remote_revoke s) = is_quiescent s.
Proof. flag_solve s. Qed.
Lemma is_quiescent_set_monitor_update_in_progress s : is_quiescent (set_monitor_update_in_progress s) = is_quiescent s.
Proof. flag_solve s. Qed.
Lemma is_quiescent_clear_monitor_update_in_progress s : is_quiescent (clear_monitor_update_in_progress s) = is_quiescent s.
Proof. flag_solve s. Qed.
Lemma is_quiescent_set_peer_disconnected s : is_quiescent (set_peer_disconnected s) = is_quiescent s.
Proof. flag_solve s. Qed.
#[export] Hint Rewrite is_peer_disconnected_set_awaiting_remote_revoke
  is_peer_disconnected_clear_awaiting_remote_revoke
  is_peer_disconnected_set_monitor_update_in_progress
  is_peer_disconnected_clear_monitor_update_in_progress
  is_monitor_update_in_progress_set_awaiting_remote_revoke
  is_monitor_update_in_progress_clear_awaiting_remote_revoke
  is_monitor_update_in_progress_set_peer_disconnected
  is_local_shutdown_sent_set_awaiting_remote_revoke
  is_local_shutdown_sent_clear_awaiting_remote_revoke
  is_local_shutdown_sent_set_monitor_update_in_progress
  is_local_shutdown_sent_clear_monitor_update_in_progress
  is_local_shutdown_sent_set_peer_disconnected
  is_remote_shutdown_sent_set_awaiting_remote_revoke
  is_remote_shutdown_sent_clear_awaiting_remote_revoke
  is_remote_shutdown_sent_set_monitor_update_in_progress
  is_remote_shutdown_sent_clear_monitor_update_in_progress
  is_remote_shutdown_sent_set_peer_disconnected
  is_awaiting_remote_revoke_set_monitor_update_in_progress
  is_awaiting_remote_revoke_clear_monitor_update_in_progress
  is_awaiting_remote_revoke_set_peer_disconnected
  is_local_stfu_sent_set_awaiting_remote_revoke
  is_local_stfu_sent_clear_awaiting_remote_revoke
  is_local_stfu_sent_set_monitor_update_in_progress
  is_local_stfu_sent_clear_monitor_update_in_progress
  is_local_stfu_sent_set_peer_disconnected
  is_remote_stfu_sent_set_awaiting_remote_revoke
  is_remote_stfu_sent_clear_awaiting_remote_revoke
  is_remote_stfu_sent_set_monitor_update_in_progress
  is_remote_stfu_sent_clear_monitor_update_in_progress
  is_remote_stfu_sent_set_peer_disconnected
  is_quiescent_set_awaiting_remote_revoke
  is_quiescent_clear_awaiting_remote_revoke
  is_quiescent_set_monitor_update_in_progress
  is_quiescent_clear_monitor_update_in_progress
  is_quiescent_set_peer_disconnected : ldk.

Lemma is_channel_ready_set_awaiting_remote_revoke s : is_channel_ready (set_awaiting_remote_revoke s) = is_channel_ready s.
Proof. by destruct s. Qed.
Lemma is_channel_ready_clear_awaiting_remote_revoke s : is_channel_ready (clear_awaiting_remote_revoke s) = is_channel_ready s.
Proof. by destruct s. Qed.
Lemma is_channel_ready_set_monitor_update_in_progress s : is_channel_ready (set_monitor_update_in_progress s) = is_channel_ready s.
Proof. by destruct s. Qed.
Lemma is_channel_ready_clear_monitor_update_in_progress s : is_channel_ready (clear_monitor_update_in_progress s) = is_channel_ready s.
Proof. by destruct s. Qed.
Lemma is_channel_ready_set_peer_disconnected s : is_channel_ready (set_peer_disconnected s) = is_channel_ready s.
Proof. by destruct s. Qed.

Lemma awaiting_after_set s : is_awaiting_remote_revoke (set_awaiting_remote_revoke s) = is_channel_ready s.
Proof. destruct s; try done. refine (eq_trans (is_set_set _ _ _ _ _) _); [lia..|]. apply orb_true_r. Qed.
Lemma awaiting_after_clear s : is_awaiting_remote_revoke (clear_awaiting_remote_revoke s) = false.
Proof. destruct s; try done. refine (eq_trans (is_set_clear _ _ _ _ _) _); [lia..|]. apply andb_false_r. Qed.
Lemma in_progress_after_set s : is_channel_ready s = true ->
  is_monitor_update_in_progress (set_monitor_update_in_progress s) = true.
Proof. destruct s; try done. intros _. refine (eq_trans (is_set_set _ _ _ _ _) _); [lia..|]. apply orb_true_r. Qed.
Lemma in_progress_after_clear s : is_monitor_update_in_progress (clear_monitor_update_in_progress s) = false.
Proof. destruct s; try done; (refine (eq_trans (is_set_clear _ _ _ _ _) _); [lia..|]; apply andb_false_r). Qed.
Lemma disconnected_after_set s : is_channel_ready s = true -> is_peer_disconnected (set_peer_disconnected s) = true.
Proof. destruct s; try done. intros _. refine (eq_trans (is_set_set _ _ _ _ _) _); [lia..|]. apply orb_true_r. Qed.

(** [can_generate_new_commitment] by the flags of the state. *)
Lemma can_generate_flags s : can_generate_new_commitment s = true ->
  is_channel_ready s = true /\ is_awaiting_remote_revoke s = false /\ is_local_stfu_sent s = false /\
  is_quiescent s = false /\ is_monitor_update_in_progress s = false /\ is_peer_disconnected s = false.
Proof. destruct s; try done. cbn. intros Hs. bool_to_prop. by destruct_and? Hs. Qed.

#[export] Hint Rewrite is_channel_ready_set_awaiting_remote_revoke is_channel_ready_clear_awaiting_remote_revoke
  is_channel_ready_set_monitor_update_in_progress is_channel_ready_clear_monitor_update_in_progress is_channel_ready_set_peer_disconnected awaiting_after_set
  awaiting_after_clear in_progress_after_clear : ldk.
