(* ===== verification/Channel.v ===== *)
(** * Channel data and commitment construction (lightning/src/ln/channel.rs)

    The state of a funded channel ([FundedChannel] with its [ChannelContext],
    [FundingScope]s and [HolderCommitmentPoint]), the reading side of the
    commitment protocol: which HTLCs, balances and feerate the next commitment
    transaction of either side has, the statistics checked before an update is
    sent or accepted, and the validation of a received [commitment_signed].
    ChannelOps.v holds the operations that change the state. *)

From Stdlib Require Import ZArith Lia Bool.
From S2P Require Import Prelude.
From S2P Require Import Features.
From S2P Require Import ChanUtils.
From S2P Require Import CommitmentSecrets.
From S2P Require Import Keys.
From S2P Require Import Order.
From S2P Require Import Scripts.
From S2P Require Import CommitmentTx.
From S2P Require Import TxBuilder.
From S2P Require Import ChannelState.

Local Open Scope Z_scope.

Definition CONCURRENT_INBOUND_HTLC_FEE_BUFFER : Z := 2.

(** ** Signatures

    From the bitcoin and secp256k1 crates.  [p2wsh_signature_hash] fails when the
    input index is out of range. *)

Class EcdsaLib `{ScriptLib} := {
  p2wsh_signature_hash : Transaction -> nat -> bytes -> Z -> EcdsaSighashType -> option bytes;
  sign : bytes -> SecretKey -> Signature;
  verify_ecdsa : bytes -> Signature -> PublicKey -> bool;
}.

(** ** Fallible code that may panic *)

Definition and_then {E A B} (m : run (result E A)) (f : A -> run (result E B)) : run (result E B) :=
  match m with
  | Return (Ok a) => f a
  | Return (Err e) => Return (Err e)
  | Panic => Panic
  end.
Definition map_err {E F A} (m : run (result E A)) (f : E -> F) : run (result F A) :=
  match m with
  | Return (Ok a) => Return (Ok a)
  | Return (Err e) => Return (Err (f e))
  | Panic => Panic
  end.
Definition lift_run {E A} (m : run A) : run (result E A) := a ← m; mret (Ok a).
(** [if c { return Err(e) }] *)
Definition err_if {E} (c : bool) (e : E) : run (result E unit) := Return (if c then Err e else Ok tt).
(** [iter.try_for_each(f)] *)
Fixpoint try_for_each {E A} (f : A -> run (result E unit)) (l : list A) : run (result E unit) :=
  match l with
  | [] => Return (Ok tt)
  | x :: l => and_then (f x) (fun _ => try_for_each f l)
  end.
(** [iter.map(f).collect()] *)
Fixpoint run_map {A B} (f : A -> run B) (l : list A) : run (list B) :=
  match l with
  | [] => mret []
  | x :: l => y ← f x; cons y <$> run_map f l
  end.

Declare Scope channel_scope.
Notation "x '←?' m ; k" := (and_then m (fun x => k))
  (at level 20, m at level 100, k at level 200, format "x  '←?'  m ;  '/' k") : channel_scope.
Notation "' pat '←?' m ; k" := (and_then m (fun pat => k))
  (at level 20, pat pattern, m at level 100, k at level 200, format "' pat  '←?'  m ;  '/' k") : channel_scope.
Notation "m ;;? k" := (and_then m (fun _ => k)) (at level 100, k at level 200, right associativity) : channel_scope.
Local Open Scope channel_scope.

(** ** Fee estimates (lightning/src/chain/chaininterface.rs) *)

Inductive ConfirmationTarget :=
| MaximumFeeEstimate
| UrgentOnChainSweep
| MinAllowedAnchorChannelRemoteFee
| MinAllowedNonAnchorChannelRemoteFee
| AnchorChannelFee
| NonAnchorChannelFee
| ChannelCloseMinimum
| OutputSpendingFee.

Definition FEERATE_FLOOR_SATS_PER_KW : Z := 253.

(** The user's [FeeEstimator::get_est_sat_per_1000_weight]. *)
Definition FeeEstimator : Type := ConfirmationTarget -> Z.

Definition bounded_sat_per_1000_weight (est : FeeEstimator) (target : ConfirmationTarget) : Z :=
  Z.max (est target) FEERATE_FLOOR_SATS_PER_KW.

Inductive MaxDustHTLCExposure :=
| FixedLimitMsat (limit : Z)
| FeeRateMultiplier (multiplier : Z).

(** ** Errors *)

Inductive ErrorReason :=
| WhileQuiescent | NotOperational | NeedsReestablish | ClosingInProgress
| ZeroAmountAdd | BelowOurMinimum | SkippedHTLCId | CltvInSeconds
| AboveChannelValue | AddOverdraws | TooManyHTLCs | TooMuchInFlight | BelowReserve | LocalExhausted
| WrongPreimage | RemovedBeforeCommitted | RemovedTwice | RemovedUnknown
| CannotAffordFee | RemoteExhausted | DustExposureOnOurs | DustExposureOnTheirs
| NoOutputs | BadCommitmentSignature | WrongHTLCSignatureCount | BadHTLCSignature | SignerRejectedCommitment
| BatchExpected | StaleFundingTxid | BatchWithoutTxid | BatchDuplicateTxid | BatchIncomplete
| CannotAdvancePoint
| InvalidSecret | SecretPointMismatch | UnexpectedRevocation | SignerRejectedRevocation | SecretChainMismatch
| NotTheFunder | ZeroFeeChannelUpdate | ZeroFeeChannelFeerate | FeerateTooLow
| AlreadyResolved | NoSuchPendingHTLC | AlreadyClaimed | AlreadyFailing
| SigningFailed
| SendFailed (reason : SendError)
with SendError :=
| ChannelNotReady | ZeroAmount | ChannelBalanceOverdrawn | HTLCMinimum | HTLCMaximum | PeerOffline.

(** The message of a [ChannelError] is its cause; the numbers it quotes are left out. *)
Inductive ChannelError :=
| Ignore (e : ErrorReason)
| WarnAndDisconnect (e : ErrorReason)
| Close (e : ErrorReason).

(** ** Channel state *)

Inductive RAACommitmentOrder := CommitmentFirst | RevokeAndACKFirst.
#[export] Instance RAACommitmentOrder_eq : EqDecision RAACommitmentOrder.
Proof. solve_decision. Defined.

Inductive AnnouncementSigsState := NotSent | MessageSent | SigsCommitted | PeerReceived.
#[export] Instance AnnouncementSigsState_eq : EqDecision AnnouncementSigsState.
Proof. solve_decision. Defined.

Section data.
Context {bitcoin : Bitcoin} {scriptlib : ScriptLib} {payloads : Payloads}.

Record HolderCommitmentPoint := mkHolderPoint {
  next_transaction_number : Z;
  current_point : option PublicKey;
  next_point : PublicKey;
  pending_next_point : option PublicKey;
  previous_revoked_point : option PublicKey;
  last_revoked_point : option PublicKey;
}.

Record HolderCommitmentTransaction := mkHolderCommitment {
  holder_inner : CommitmentTransaction;
  counterparty_sig : Signature;
  counterparty_htlc_sigs : list Signature;
  holder_sig_first : bool;
}.

Record CommitmentHTLCData := mkHTLCData {
  data_nondust_htlc_sources : list HTLCSource;
  data_dust_htlcs : list (HTLCOutputInCommitment * option HTLCSource);
}.

(** The steps the commitment protocol sends to the channel monitor
    (lightning/src/chain/channelmonitor.rs). *)
Inductive ChannelMonitorUpdateStep :=
| LatestHolderCommitmentTXInfo (commitment_tx : HolderCommitmentTransaction)
    (htlc_outputs : list (HTLCOutputInCommitment * option Signature * option HTLCSource))
    (claimed_htlcs : list (SentHTLCId * bytes)) (nondust_htlc_sources : list HTLCSource)
| LatestHolderCommitment (commitment_txs : list HolderCommitmentTransaction)
    (htlc_data : CommitmentHTLCData) (claimed_htlcs : list (SentHTLCId * bytes))
| LatestCounterpartyCommitmentTXInfo (commitment_txid : bytes)
    (htlc_outputs : list (HTLCOutputInCommitment * option HTLCSource)) (commitment_number : Z)
    (their_per_commitment_point : PublicKey) (feerate_per_kw to_broadcaster_value_sat
     to_countersignatory_value_sat : option Z)
| LatestCounterpartyCommitment (commitment_txs : list CommitmentTransaction) (htlc_data : CommitmentHTLCData)
| PaymentPreimageStep (payment_preimage : bytes) (payment_info : option PaymentClaimDetails)
| CommitmentSecret (idx : Z) (secret : bytes).

Record ChannelMonitorUpdate := mkMonitorUpdate {
  update_id : Z;
  updates : list ChannelMonitorUpdateStep;
}.

(** What both peers agreed on when the channel was opened; no operation here changes it. *)
Record ChannelLimits := mkLimits {
  our_dust_limit_satoshis : Z;
  their_dust_limit_satoshis : Z;
  our_max_htlc_value_in_flight_msat : Z;
  their_max_htlc_value_in_flight_msat : Z;
  our_htlc_minimum_msat : Z;
  their_htlc_minimum_msat : Z;
  our_max_accepted_htlcs : Z;
  their_max_accepted_htlcs : Z;
  max_dust_htlc_exposure : MaxDustHTLCExposure;
}.

Record FundingScope := mkFunding {
  value_to_self_msat : Z;
  their_selected_channel_reserve_satoshis : option Z;
  our_selected_channel_reserve_satoshis : Z;
  channel_transaction_parameters : ChannelTransactionParameters;
}.

Record ChannelContext := mkContext {
  limits : ChannelLimits;
  channel_state : ChannelState;
  announcement_sigs_state : AnnouncementSigsState;
  latest_monitor_update_id : Z;
  counterparty_next_commitment_transaction_number : Z;
  pending_inbound_htlcs : list InboundHTLCOutput;
  pending_outbound_htlcs : list OutboundHTLCOutput;
  holding_cell_htlc_updates : list HTLCUpdateAwaitingACK;
  resend_order : RAACommitmentOrder;
  monitor_pending_channel_ready : bool;
  monitor_pending_revoke_and_ack : bool;
  monitor_pending_commitment_signed : bool;
  monitor_pending_forwards : list (PendingHTLCInfo * Z);
  monitor_pending_failures : list (HTLCSource * bytes * HTLCFailReason);
  monitor_pending_finalized_fulfills : list (HTLCSource * option AttributionData);
  monitor_pending_update_adds : list UpdateAddHTLC;
  signer_pending_revoke_and_ack : bool;
  signer_pending_commitment_update : bool;
  pending_update_fee : option (Z * FeeUpdateState);
  holding_cell_update_fee : option Z;
  next_holder_htlc_id : Z;
  next_counterparty_htlc_id : Z;
  feerate_per_kw : Z;
  update_time_counter : Z;
  (** [last_sent_closing_fee.is_some()] *)
  closing_fee_sent : bool;
  expecting_peer_commitment_signed : bool;
  counterparty_next_commitment_point : option PublicKey;
  counterparty_current_commitment_point : option PublicKey;
  commitment_secrets : CounterpartyCommitmentSecrets;
  sent_message_awaiting_response : option Z;
  blocked_monitor_updates : list ChannelMonitorUpdate;
}.

(** [pending_funding] are the [FundingScope]s of the negotiated splices. *)
Record FundedChannel := mkChannel {
  context : ChannelContext;
  funding : FundingScope;
  pending_funding : list FundingScope;
  holder_commitment_point : HolderCommitmentPoint;
}.

(** The channel's signer, the trait [EcdsaChannelSigner]; [None] is a signer that
    is not ready. *)
Record ChannelSigner := mkSigner {
  get_per_commitment_point : Z -> option PublicKey;
  release_commitment_secret : Z -> option bytes;
  validate_holder_commitment : HolderCommitmentTransaction -> list bytes -> bool;
  validate_counterparty_revocation : Z -> SecretKey -> bool;
  sign_counterparty_commitment : ChannelTransactionParameters -> CommitmentTransaction ->
    list bytes -> list bytes -> run (option (Signature * list Signature));
}.

Record CommitmentSigned := mkCommitmentSigned {
  cs_signature : Signature;
  cs_htlc_signatures : list Signature;
  cs_funding_txid : option bytes;
}.
Record RevokeAndACK := mkRevokeAndACK {
  raa_per_commitment_secret : bytes;
  raa_next_per_commitment_point : PublicKey;
  raa_release_htlc_message_paths : list (Z * BlindedMessagePath);
}.
Record CommitmentUpdate := mkCommitmentUpdate {
  update_add_htlcs : list UpdateAddHTLC;
  update_fulfill_htlcs : list UpdateFulfillHTLC;
  update_fail_htlcs : list UpdateFailHTLC;
  update_fail_malformed_htlcs : list UpdateFailMalformedHTLC;
  update_fee_msg : option Z;
  commitment_signed_msgs : list CommitmentSigned;
}.

(** ** Funding scopes *)

Definition funding_is_outbound (self : FundingScope) : bool :=
  is_outbound_from_holder (channel_transaction_parameters self).
Definition get_value_satoshis (self : FundingScope) : Z :=
  params_channel_value_satoshis (channel_transaction_parameters self).
Definition get_channel_type (self : FundingScope) : ChannelTypeFeatures :=
  params_channel_type_features (channel_transaction_parameters self).
Definition get_funding_txid (self : FundingScope) : option bytes :=
  op_txid <$> params_funding_outpoint (channel_transaction_parameters self).
Definition get_counterparty_pubkeys (self : FundingScope) : run ChannelPublicKeys :=
  pubkeys <$> unwrap (counterparty_parameters (channel_transaction_parameters self)).
Definition get_counterparty_selected_contest_delay (self : FundingScope) : option Z :=
  selected_contest_delay <$> counterparty_parameters (channel_transaction_parameters self).
Definition get_funding_redeemscript (self : FundingScope) : run bytes :=
  counterparty ← get_counterparty_pubkeys self;
  mret (make_funding_redeemscript
    (funding_pubkey (holder_pubkeys (channel_transaction_parameters self))) (funding_pubkey counterparty)).

(** ** Statistics of the next commitments *)

Definition get_dust_exposure_limiting_feerate (est : FeeEstimator) (ct : ChannelTypeFeatures) : option Z :=
  if supports_anchor_zero_fee_commitments ct then None
  else Some (bounded_sat_per_1000_weight est MaximumFeeEstimate).

Definition get_max_dust_htlc_exposure_msat (self : ChannelContext) (limiting_feerate : option Z) : Z :=
  match max_dust_htlc_exposure (limits self) with
  | FeeRateMultiplier multiplier => saturating_mul 64 (default 250 limiting_feerate) multiplier
  | FixedLimitMsat limit => limit
  end.

Definition in_next_commitment (local : bool) (htlc : InboundHTLCOutput) : bool :=
  match in_state htlc, local with
  | LocalRemoved _, false => false
  | _, _ => true
  end.
Definition out_next_commitment (local include_counterparty_unknown_htlcs : bool)
    (htlc : OutboundHTLCOutput) : bool :=
  match out_state htlc, local with
  | LocalAnnounced _, _ => include_counterparty_unknown_htlcs
  | OutboundCommitted, _ => true
  | RemoteRemoved _, true => false
  | RemoteRemoved _, false => true
  | AwaitingRemoteRevokeToRemove _, _ => false
  | AwaitingRemovedRemoteRevoke _, _ => false
  end.

Definition get_next_commitment_htlcs (self : ChannelContext) (local : bool)
    (htlc_candidate : option HTLCAmountDirection) (include_counterparty_unknown_htlcs : bool)
    : list HTLCAmountDirection :=
  let inbound := map (fun htlc => mkDirection false (in_amount_msat htlc))
    (List.filter (in_next_commitment local) (pending_inbound_htlcs self)) in
  let outbound := map (fun htlc => mkDirection true (out_amount_msat htlc))
    (List.filter (out_next_commitment local include_counterparty_unknown_htlcs)
       (pending_outbound_htlcs self)) in
  let holding_cell := omap (fun htlc => match htlc with
    | AddHTLC amount_msat _ _ _ _ _ => Some (mkDirection true amount_msat)
    | _ => None
    end) (holding_cell_htlc_updates self) in
  option_list htlc_candidate ++ inbound ++ outbound ++
    (if include_counterparty_unknown_htlcs then holding_cell else []).

Definition inbound_claimed (local : bool) (htlc : InboundHTLCOutput) : bool :=
  match in_state htlc, local with
  | LocalRemoved (Fulfill _ _), true => false
  | LocalRemoved (Fulfill _ _), false => true
  | _, _ => false
  end.
Definition outbound_claimed (local : bool) (htlc : OutboundHTLCOutput) : bool :=
  match out_state htlc, local with
  | RemoteRemoved (Success _ _), true => true
  | RemoteRemoved (Success _ _), false => false
  | AwaitingRemoteRevokeToRemove (Success _ _), _ => true
  | AwaitingRemovedRemoteRevoke (Success _ _), _ => true
  | _, _ => false
  end.

Definition get_next_commitment_value_to_self_msat (self : ChannelContext) (local : bool)
    (funding : FundingScope) : Z :=
  let inbound_claimed_htlc_msat := u64_sum (map in_amount_msat
    (List.filter (inbound_claimed local) (pending_inbound_htlcs self))) in
  let outbound_claimed_htlc_msat := u64_sum (map out_amount_msat
    (List.filter (outbound_claimed local) (pending_outbound_htlcs self))) in
  saturating_add 64 (saturating_sub (value_to_self_msat funding) outbound_claimed_htlc_msat)
    inbound_claimed_htlc_msat.

Definition get_channel_constraints (self : ChannelContext) (funding : FundingScope) : ChannelConstraints :=
  mkConstraints
    (our_dust_limit_satoshis (limits self))
    (default 0 (their_selected_channel_reserve_satoshis funding))
    (their_dust_limit_satoshis (limits self))
    (our_selected_channel_reserve_satoshis funding)
    (their_htlc_minimum_msat (limits self))
    (their_max_htlc_value_in_flight_msat (limits self))
    (their_max_accepted_htlcs (limits self)).

(** [get_next_local_commitment_stats] for [local], [get_next_remote_commitment_stats] otherwise. *)
Definition next_commitment_stats (local : bool) (self : ChannelContext) (funding : FundingScope)
    (htlc_candidate : option HTLCAmountDirection) (include_counterparty_unknown_htlcs : bool)
    (addl_nondust_htlc_count feerate : Z) (assume_fee_spike : bool)
    (dust_exposure_limiting_feerate : option Z)
    : run (result unit (ChannelStats * list HTLCAmountDirection)) :=
  let next_commitment_htlcs :=
    get_next_commitment_htlcs self local htlc_candidate include_counterparty_unknown_htlcs in
  let next_value_to_self_msat := get_next_commitment_value_to_self_msat self local funding in
  let max_dust_htlc_exposure_msat := get_max_dust_htlc_exposure_msat self dust_exposure_limiting_feerate in
  stats ← get_channel_stats local (funding_is_outbound funding) (get_value_satoshis funding)
    next_value_to_self_msat next_commitment_htlcs addl_nondust_htlc_count feerate assume_fee_spike
    dust_exposure_limiting_feerate max_dust_htlc_exposure_msat (get_channel_constraints self funding)
    (get_channel_type funding);
  mret (match stats with
        | Ok stats => Ok (stats, next_commitment_htlcs)
        | Err e => Err e
        end).
Definition get_next_local_commitment_stats := next_commitment_stats true.
Definition get_next_remote_commitment_stats := next_commitment_stats false.

(** ** Checking updates *)

Definition validate_update_add_htlc (self : ChannelContext) (funding : FundingScope) (msg : UpdateAddHTLC)
    (est : FeeEstimator) : run (result ChannelError unit) :=
  err_if (add_amount_msat msg >? get_value_satoshis funding * 1000)%u64 (Close AboveChannelValue) ;;?
  let limiting_feerate := get_dust_exposure_limiting_feerate est (get_channel_type funding) in
  let candidate := Some (mkDirection false (add_amount_msat msg)) in
  '(remote_stats, remote_htlcs) ←? map_err
    (get_next_remote_commitment_stats self funding candidate false 0 (feerate_per_kw self) false
       limiting_feerate) (fun _ => Close AddOverdraws);
  let inbound_htlcs_count := count_if (fun htlc => negb (outbound htlc)) remote_htlcs in
  let inbound_htlcs_value_msat :=
    u64_sum (map htlc_amount_msat (List.filter (fun htlc => negb (outbound htlc)) remote_htlcs)) in
  err_if (our_max_accepted_htlcs (limits self) <? inbound_htlcs_count) (Close TooManyHTLCs) ;;?
  err_if (our_max_htlc_value_in_flight_msat (limits self) <? inbound_htlcs_value_msat)
    (Close TooMuchInFlight) ;;?
  err_if (counterparty_balance_msat (commitment_stats remote_stats) <?
          our_selected_channel_reserve_satoshis funding * 1000)%u64 (Close BelowReserve) ;;?
  _ ←? map_err
    (get_next_local_commitment_stats self funding candidate false 0 (feerate_per_kw self) false
       limiting_feerate) (fun _ => Close LocalExhausted);
  mret (Ok tt).

Definition validate_update_fee (self : ChannelContext) (funding : FundingScope) (est : FeeEstimator)
    (new_feerate_per_kw : Z) : run (result ChannelError unit) :=
  let limiting_feerate := get_dust_exposure_limiting_feerate est (get_channel_type funding) in
  '(local_stats, _) ←? map_err
    (get_next_local_commitment_stats self funding None false 0 new_feerate_per_kw false limiting_feerate)
    (fun _ => Close CannotAffordFee);
  _ ←? Return (ok_or (checked_sub (counterparty_balance_msat (commitment_stats local_stats))
                        (our_selected_channel_reserve_satoshis funding * 1000)%u64) (Close CannotAffordFee));
  '(remote_stats, _) ←? map_err
    (get_next_remote_commitment_stats self funding None false 0 new_feerate_per_kw false limiting_feerate)
    (fun _ => Close RemoteExhausted);
  let max_dust := get_max_dust_htlc_exposure_msat self limiting_feerate in
  err_if (max_dust <? stats_dust_exposure_msat (commitment_stats local_stats)) (Close DustExposureOnOurs) ;;?
  err_if (max_dust <? stats_dust_exposure_msat (commitment_stats remote_stats)) (Close DustExposureOnTheirs) ;;?
  mret (Ok tt).

(** [false] stands for the early [return false]s. *)
Definition can_send_update_fee (self : ChannelContext) (funding : FundingScope) (feerate : Z)
    (est : FeeEstimator) : run bool :=
  let limiting_feerate := get_dust_exposure_limiting_feerate est (get_channel_type funding) in
  remote ← get_next_remote_commitment_stats self funding None true CONCURRENT_INBOUND_HTLC_FEE_BUFFER
             feerate false limiting_feerate;
  match remote with
  | Err _ => mret false
  | Ok (remote_stats, _) =>
      reserve ← unwrap (their_selected_channel_reserve_satoshis funding);
      if (holder_balance_msat (commitment_stats remote_stats) <? reserve * 1000)%u64 then mret false
      else
        let max_dust := get_max_dust_htlc_exposure_msat self limiting_feerate in
        if max_dust <? stats_dust_exposure_msat (commitment_stats remote_stats) then mret false
        else
          local ← get_next_local_commitment_stats self funding None true
                    CONCURRENT_INBOUND_HTLC_FEE_BUFFER feerate false limiting_feerate;
          match local with
          | Err _ => mret false
          | Ok (local_stats, _) =>
              mret (negb (max_dust <? stats_dust_exposure_msat (commitment_stats local_stats)))
          end
  end.

Inductive AcceptError := AcceptOverdrawn | DustLimitCounterparty | DustLimitHolder | FeeSpikeBuffer.

Definition can_accept_incoming_htlc (self : ChannelContext) (funding : FundingScope)
    (limiting_feerate : option Z) : run (result AcceptError unit) :=
  let fee_spike_buffer_htlc :=
    if supports_anchor_zero_fee_commitments (get_channel_type funding) then 0 else 1 in
  let feerate := Z.max (feerate_per_kw self) (default 0 (fst <$> pending_update_fee self)) in
  '(local_stats, _) ←? map_err
    (get_next_local_commitment_stats self funding None true fee_spike_buffer_htlc feerate false
       limiting_feerate) (fun _ => AcceptOverdrawn);
  '(remote_stats, _) ←? map_err
    (get_next_remote_commitment_stats self funding None true fee_spike_buffer_htlc feerate false
       limiting_feerate) (fun _ => AcceptOverdrawn);
  let max_dust := get_max_dust_htlc_exposure_msat self limiting_feerate in
  err_if (max_dust <? stats_dust_exposure_msat (commitment_stats remote_stats)) DustLimitCounterparty ;;?
  err_if (max_dust <? stats_dust_exposure_msat (commitment_stats local_stats)) DustLimitHolder ;;?
  if negb (funding_is_outbound funding) then
    '(remote_stats, _) ←? map_err
      (get_next_remote_commitment_stats self funding None true fee_spike_buffer_htlc feerate true
         limiting_feerate) (fun _ => FeeSpikeBuffer);
    err_if (counterparty_balance_msat (commitment_stats remote_stats) <?
            our_selected_channel_reserve_satoshis funding * 1000)%u64 FeeSpikeBuffer
  else mret (Ok tt).

Definition check_remote_fee (ct : ChannelTypeFeatures) (est : FeeEstimator) (feerate : Z)
    (cur_feerate_per_kw : option Z) : result ChannelError unit :=
  if supports_anchor_zero_fee_commitments ct then
    if negb (feerate =? 0) then Err (Close ZeroFeeChannelFeerate) else Ok tt
  else
    let lower_limit_conf_target :=
      if supports_anchors_zero_fee_htlc_tx ct then MinAllowedAnchorChannelRemoteFee
      else MinAllowedNonAnchorChannelRemoteFee in
    let lower_limit := bounded_sat_per_1000_weight est lower_limit_conf_target in
    if feerate <? lower_limit then
      match cur_feerate_per_kw with
      | Some cur_feerate => if cur_feerate <? feerate then Ok tt else Err (Close FeerateTooLow)
      | None => Err (Close FeerateTooLow)
      end
    else Ok tt.

Definition get_available_balances_for_scope (self : ChannelContext) (funding : FundingScope)
    (est : FeeEstimator) : run (result unit AvailableBalances) :=
  let limiting_feerate := get_dust_exposure_limiting_feerate est (get_channel_type funding) in
  '(remote_stats, _) ←? get_next_remote_commitment_stats self funding None true 0 (feerate_per_kw self) false
                           limiting_feerate;
  mret (Ok (available_balances remote_stats)).

(** ** Building a commitment transaction *)

Definition get_commitment_feerate (self : ChannelContext) (funding : FundingScope)
    (generated_by_local : bool) : run Z :=
  match pending_update_fee self with
  | Some (feerate, update_state) =>
      use_it ← match update_state with
               | FeeRemoteAnnounced | FeeAwaitingRemoteRevokeToAnnounce => mret (negb generated_by_local)
               | FeeOutbound => if funding_is_outbound funding then mret generated_by_local else Panic
               end;
      mret (if use_it : bool then feerate else feerate_per_kw self)
  | None => mret (feerate_per_kw self)
  end.

Record CommitmentData := mkCommitmentData {
  cd_tx : CommitmentTransaction;
  htlcs_included : list (HTLCOutputInCommitment * option HTLCSource);
  outbound_htlc_preimages : list bytes;
  inbound_htlc_preimages : list bytes;
}.

(** [get_htlc_in_commitment!] *)
Definition inbound_in_commitment (local : bool) (htlc : InboundHTLCOutput) : HTLCOutputInCommitment :=
  mkHTLC (Bool.eqb false local) (in_amount_msat htlc) (in_cltv_expiry htlc) (in_payment_hash htlc) None.
Definition outbound_in_commitment (local : bool) (htlc : OutboundHTLCOutput) : HTLCOutputInCommitment :=
  mkHTLC (Bool.eqb true local) (out_amount_msat htlc) (out_cltv_expiry htlc) (out_payment_hash htlc) None.

(** The HTLCs of either direction that a commitment generated by one side
    contains, and those it does not contain because they were claimed. *)
Definition in_included (generated_by_local : bool) (htlc : InboundHTLCOutput) : bool :=
  inbound_included (in_state htlc) generated_by_local.
Definition out_included (generated_by_local : bool) (htlc : OutboundHTLCOutput) : bool :=
  outbound_included (out_state htlc) generated_by_local.
Definition in_settled (generated_by_local : bool) (htlc : InboundHTLCOutput) : bool :=
  negb (in_included generated_by_local htlc) && bool_decide (is_Some (inbound_preimage (in_state htlc))).
Definition out_settled (generated_by_local : bool) (htlc : OutboundHTLCOutput) : bool :=
  negb (out_included generated_by_local htlc) && bool_decide (is_Some (outbound_preimage (out_state htlc))).

Definition commitment_htlcs (self : ChannelContext) (local generated_by_local : bool)
    : list (HTLCOutputInCommitment * option HTLCSource) :=
  map (fun htlc => (inbound_in_commitment local htlc, None))
    (List.filter (in_included generated_by_local) (pending_inbound_htlcs self)) ++
  map (fun htlc => (outbound_in_commitment local htlc, Some (out_source htlc)))
    (List.filter (out_included generated_by_local) (pending_outbound_htlcs self)).

Definition commitment_value_to_self_msat (self : ChannelContext) (funding : FundingScope)
    (generated_by_local : bool) : run Z :=
  let value_to_self_claimed_msat := u64_sum (map in_amount_msat
    (List.filter (in_settled generated_by_local) (pending_inbound_htlcs self))) in
  let value_to_remote_claimed_msat := u64_sum (map out_amount_msat
    (List.filter (out_settled generated_by_local) (pending_outbound_htlcs self))) in
  unwrap (checked_sub (value_to_self_msat funding + value_to_self_claimed_msat)%u64
            value_to_remote_claimed_msat).

(** The index of one HTLC of the transaction goes to the first HTLC with the
    same data that has none yet. *)
Fixpoint assign_output_index (nondust_htlc : HTLCOutputInCommitment) (index : Z)
    (htlcs : list (HTLCOutputInCommitment * option HTLCSource))
    : option (list (HTLCOutputInCommitment * option HTLCSource)) :=
  match htlcs with
  | [] => None
  | (htlc, source) :: htlcs =>
      if bool_decide (transaction_output_index htlc = None) && is_data_equal htlc nondust_htlc
      then Some ((set_output_index index htlc, source) :: htlcs)
      else cons (htlc, source) <$> assign_output_index nondust_htlc index htlcs
  end.
Fixpoint assign_output_indices (nondust_htlcs : list HTLCOutputInCommitment)
    (htlcs : list (HTLCOutputInCommitment * option HTLCSource))
    : run (list (HTLCOutputInCommitment * option HTLCSource)) :=
  match nondust_htlcs with
  | [] => mret htlcs
  | nondust_htlc :: nondust_htlcs =>
      index ← unwrap (transaction_output_index nondust_htlc);
      htlcs ← unwrap (assign_output_index nondust_htlc index htlcs);
      assign_output_indices nondust_htlcs htlcs
  end.

Definition output_index_cmp (a b : HTLCOutputInCommitment * option HTLCSource) : comparison :=
  match transaction_output_index a.1, transaction_output_index b.1 with
  | None, Some _ => Gt
  | Some _, None => Lt
  | Some l, Some r => l ?= r
  | None, None => Eq
  end.

Context {bsearch : BinarySearch} {txhash : TxHash}.

(** [ChannelContext::build_commitment_transaction] *)
Definition build_commitment_data (self : ChannelContext) (funding : FundingScope) (commitment_number : Z)
    (per_commitment_point : PublicKey) (local generated_by_local : bool) : run CommitmentData :=
  let broadcaster_dust_limit_sat :=
    if local then our_dust_limit_satoshis (limits self) else their_dust_limit_satoshis (limits self) in
  feerate ← get_commitment_feerate self funding generated_by_local;
  let included := commitment_htlcs self local generated_by_local in
  let inbound_preimages := omap (fun htlc =>
    if in_included generated_by_local htlc then None else inbound_preimage (in_state htlc))
    (pending_inbound_htlcs self) in
  let outbound_preimages := omap (fun htlc => outbound_preimage (out_state htlc))
    (pending_outbound_htlcs self) in
  value_to_self ← commitment_value_to_self_msat self funding generated_by_local;
  '(tx, _) ← build_commitment_transaction local commitment_number per_commitment_point
    (channel_transaction_parameters funding) value_to_self (map fst included) feerate
    broadcaster_dust_limit_sat;
  included ← assign_output_indices (nondust_htlcs tx) included;
  mret (mkCommitmentData tx (sort_by output_index_cmp included) outbound_preimages inbound_preimages).

(** ** Checking a commitment_signed *)

Context {ecdsa : EcdsaLib}.

Definition get_sighash_all (tx : Transaction) (funding_redeemscript : bytes) (channel_value_satoshis : Z)
    : run bytes :=
  unwrap (p2wsh_signature_hash tx 0 funding_redeemscript channel_value_satoshis SighashAll).

Definition htlc_sighash_type (ct : ChannelTypeFeatures) : EcdsaSighashType :=
  if supports_anchors_zero_fee_htlc_tx ct || supports_anchor_zero_fee_commitments ct
  then SinglePlusAnyoneCanPay else SighashAll.

(** What is signed for the transaction that spends an HTLC output. *)
Definition htlc_sighash (commitment_txid : bytes) (feerate contest_delay : Z)
    (htlc : HTLCOutputInCommitment) (ct : ChannelTypeFeatures) (keys : TxCreationKeys) : run bytes :=
  htlc_tx ← build_htlc_transaction commitment_txid feerate contest_delay htlc ct
              (broadcaster_delayed_payment_key keys) (revocation_key keys);
  unwrap (p2wsh_signature_hash htlc_tx 0 (get_htlc_redeemscript htlc ct keys) (to_bitcoin_amount htlc)
            (htlc_sighash_type ct)).

Definition holder_commitment_new (commitment_tx : CommitmentTransaction) (sig : Signature)
    (htlc_sigs : list Signature) (holder_funding_key counterparty_funding_key : PublicKey)
    : HolderCommitmentTransaction :=
  mkHolderCommitment commitment_tx sig htlc_sigs
    (match slice_cmp (serialize holder_funding_key) (serialize counterparty_funding_key) with
     | Lt => true | _ => false end).

Definition check_htlc_signature (funding : FundingScope) (tx : CommitmentTransaction)
    (htlc_sig : HTLCOutputInCommitment * Signature) : run (result ChannelError unit) :=
  let '(htlc, sig) := htlc_sig in
  _ ← unwrap (transaction_output_index htlc);
  delay ← unwrap (get_counterparty_selected_contest_delay funding);
  sighash ← htlc_sighash (built_txid (built tx)) (ctx_feerate_per_kw tx) delay htlc
              (get_channel_type funding) (ctx_keys tx);
  err_if (negb (verify_ecdsa sighash sig (countersignatory_htlc_key (ctx_keys tx)))) (Close BadHTLCSignature).

Definition validate_commitment_signed (signer : ChannelSigner) (self : ChannelContext)
    (funding : FundingScope) (transaction_number : Z) (commitment_point : PublicKey)
    (msg : CommitmentSigned) (est : FeeEstimator)
    : run (result ChannelError
             (HolderCommitmentTransaction * list (HTLCOutputInCommitment * option HTLCSource))) :=
  funding_script ←? lift_run (get_funding_redeemscript funding);
  commitment_data ←? lift_run
    (build_commitment_data self funding transaction_number commitment_point true false);
  let tx := cd_tx commitment_data in
  err_if (bool_decide (tx_output (built_tx (built tx)) = [])) (Close NoOutputs) ;;?
  sighash ←? lift_run (get_sighash_all (built_tx (built tx)) funding_script (get_value_satoshis funding));
  counterparty ←? lift_run (get_counterparty_pubkeys funding);
  err_if (negb (verify_ecdsa sighash (cs_signature msg) (funding_pubkey counterparty)))
    (Close BadCommitmentSignature) ;;?
  match pending_update_fee self with
  | Some (new_feerate_per_kw, FeeRemoteAnnounced) => validate_update_fee self funding est new_feerate_per_kw
  | _ => mret (Ok tt)
  end ;;?
  err_if (negb (length (cs_htlc_signatures msg) =? length (nondust_htlcs tx))%nat)
    (Close WrongHTLCSignatureCount) ;;?
  try_for_each (check_htlc_signature funding tx) (zip (nondust_htlcs tx) (cs_htlc_signatures msg)) ;;?
  let holder_commitment_tx := holder_commitment_new tx (cs_signature msg) (cs_htlc_signatures msg)
    (funding_pubkey (holder_pubkeys (channel_transaction_parameters funding))) (funding_pubkey counterparty) in
  err_if (negb (validate_holder_commitment signer holder_commitment_tx
                  (outbound_htlc_preimages commitment_data))) (Close SignerRejectedCommitment) ;;?
  mret (Ok (holder_commitment_tx, htlcs_included commitment_data)).

End data.
