(* ===== verification/Signer.v ===== *)
(** * The in-memory signer (lightning/src/sign/mod.rs)

    [InMemorySigner]: the channel's secret keys, the per-commitment secrets it
    derives from its seed, the signatures it makes for the peer's commitment
    transactions and, once a commitment is on chain, for spending from it: the
    penalty for a revoked commitment, second-stage and direct claims of HTLCs,
    anchors, the cooperative close and the splice of the funding output.

    Randomness: a signature that consumes entropy takes the bytes drawn for it
    as an argument ([sign_with_aux_rand] of lightning/src/crypto/utils.rs in a
    build without [grind_signatures]). *)

From Stdlib Require Import ZArith Lia Bool.
From S2P Require Import Prelude.
From S2P Require Import Features.
From S2P Require Import CommitmentSecrets.
From S2P Require Import Keys.
From S2P Require Import Order.
From S2P Require Import Scripts.
From S2P Require Import CommitmentTx.
From S2P Require Import ChannelState.
From S2P Require Import Channel.

Local Open Scope Z_scope.
Local Open Scope channel_scope.

(** [Secp256k1::sign_ecdsa_with_noncedata]; every signature verifies. *)
Class NonceLib `{EcdsaLib} := {
  sign_ecdsa_with_noncedata : bytes -> SecretKey -> bytes -> Signature;
}.
Class EcdsaLaws `{NonceLib} : Prop := {
  verify_sign msg k : verify_ecdsa msg (sign msg k) (from_secret_key k) = true;
  verify_noncedata msg k aux :
    verify_ecdsa msg (sign_ecdsa_with_noncedata msg k aux) (from_secret_key k) = true;
}.

(** [ScriptBuf::new_p2pkh] *)
Class P2pkhLib := { new_p2pkh : bytes -> bytes }.

Section signer.
Context {bitcoin : Bitcoin} {scriptlib : ScriptLib} {payloads : Payloads}.
Context {ecdsa : EcdsaLib} {nonces : NonceLib}.

Record InMemorySigner := mkInMemorySigner {
  base_funding_key : SecretKey;
  revocation_base_key : SecretKey;
  payment_key_v1 : SecretKey;
  payment_key_v2 : SecretKey;
  v2_remote_key_derivation : bool;
  delayed_payment_base_key : SecretKey;
  htlc_base_key : SecretKey;
  commitment_seed : bytes;
}.

Definition sign_with_aux_rand (msg : bytes) (sk : SecretKey) (entropy : bytes) : Signature :=
  sign_ecdsa_with_noncedata msg sk entropy.

(** ** Keys *)

Definition compute_funding_key_tweak (base_funding_secret_key : SecretKey) (splice_parent_funding_txid : bytes)
    : run Scalar :=
  unwrap (scalar_from_be_bytes (sha256 (splice_parent_funding_txid ++ secret_bytes base_funding_secret_key))).

(** [MaybeTweakedSecretKey::with_tweak] *)
Definition with_tweak (self : SecretKey) (tweak : option Scalar) : run SecretKey :=
  match tweak with
  | Some tweak => unwrap (secret_add_tweak self tweak)
  | None => mret self
  end.

Definition funding_key (self : InMemorySigner) (splice_parent : option bytes) : run SecretKey :=
  tweak ← match splice_parent with
          | Some txid =>
              base ← with_tweak (base_funding_key self) None;
              Some <$> compute_funding_key_tweak base txid
          | None => mret None
          end;
  with_tweak (base_funding_key self) tweak.

Definition per_commitment_secret (self : InMemorySigner) (idx : Z) : bytes :=
  build_commitment_secret sha256 (commitment_seed self) idx.

Definition in_memory_per_commitment_point (self : InMemorySigner) (idx : Z) : run PublicKey :=
  from_secret_key <$> unwrap (secret_from_slice (per_commitment_secret self idx)).

Definition signer_pubkeys (self : InMemorySigner) : ChannelPublicKeys :=
  let payment_key := if v2_remote_key_derivation self then payment_key_v2 self else payment_key_v1 self in
  mkChannelPublicKeys (from_secret_key (base_funding_key self)) (from_secret_key (revocation_base_key self))
    (from_secret_key payment_key) (from_secret_key (delayed_payment_base_key self))
    (from_secret_key (htlc_base_key self)).

Definition new_funding_pubkey (self : InMemorySigner) (splice_parent : bytes) : run PublicKey :=
  from_secret_key <$> funding_key self (Some splice_parent).

(** ** The peer's commitment *)

Definition counterparty_pubkeys (params : ChannelTransactionParameters) : option ChannelPublicKeys :=
  pubkeys <$> counterparty_parameters params.

(** [assert!(channel_parameters.is_populated())] *)
Definition assert_populated (params : ChannelTransactionParameters) : run unit :=
  if is_populated params then mret tt else Panic.

(** The script of the funding output, from our key and the peer's. *)
Definition funding_script_of (funding_key : SecretKey) (params : ChannelTransactionParameters) : run bytes :=
  counterparty_keys ← unwrap (counterparty_pubkeys params);
  mret (make_funding_redeemscript (from_secret_key funding_key) (funding_pubkey counterparty_keys)).

Definition sign_built_commitment (built : BuiltCommitmentTransaction) (funding_key : SecretKey)
    (funding_redeemscript : bytes) (channel_value : Z) : run Signature :=
  sighash ← get_sighash_all (built_tx built) funding_redeemscript channel_value;
  mret (sign sighash funding_key).

(** One round of the loop over the HTLCs. *)
Definition sign_commitment_htlc (self : InMemorySigner) (params : ChannelTransactionParameters)
    (commitment_tx : CommitmentTransaction) (htlc : HTLCOutputInCommitment) : run Signature :=
  let ct := params_channel_type_features params in
  let keys := ctx_keys commitment_tx in
  sighash ← htlc_sighash (built_txid (built commitment_tx)) (ctx_feerate_per_kw commitment_tx)
              (holder_selected_contest_delay params) htlc ct keys;
  holder_htlc_key ← derive_private_key (per_commitment_point keys) (htlc_base_key self);
  mret (sign sighash holder_htlc_key).

Definition in_memory_sign_counterparty_commitment (self : InMemorySigner)
    (params : ChannelTransactionParameters) (commitment_tx : CommitmentTransaction)
    (inbound_htlc_preimages outbound_htlc_preimages : list bytes) : run (option (Signature * list Signature)) :=
  assert_populated params ;;
  funding_key ← funding_key self (splice_parent_funding_txid params);
  channel_funding_redeemscript ← funding_script_of funding_key params;
  commitment_sig ← sign_built_commitment (built commitment_tx) funding_key channel_funding_redeemscript
    (params_channel_value_satoshis params);
  htlc_sigs ← run_map (sign_commitment_htlc self params commitment_tx) (nondust_htlcs commitment_tx);
  mret (Some (commitment_sig, htlc_sigs)).

(** Our own commitment, when we broadcast it. *)
Definition sign_holder_commitment (self : InMemorySigner) (params : ChannelTransactionParameters)
    (commitment_tx : HolderCommitmentTransaction) (entropy : bytes) : run (result unit Signature) :=
  assert_populated params ;;
  funding_key ← funding_key self (splice_parent_funding_txid params);
  funding_redeemscript ← funding_script_of funding_key params;
  sighash ← get_sighash_all (built_tx (built (holder_inner commitment_tx))) funding_redeemscript
              (params_channel_value_satoshis params);
  mret (Ok (sign_with_aux_rand sighash funding_key entropy)).

(** ** Spending from a commitment *)

(** The hash signed for one input that spends a P2WSH output. *)
Definition input_sighash (tx : Transaction) (input : nat) (witness_script : bytes) (amount : Z) : run bytes :=
  unwrap (p2wsh_signature_hash tx input witness_script amount SighashAll).

Definition sign_justice_revoked_output (self : InMemorySigner) (params : ChannelTransactionParameters)
    (justice_tx : Transaction) (input : nat) (amount : Z) (per_commitment_key : SecretKey) (entropy : bytes)
    : run (result unit Signature) :=
  assert_populated params ;;
  revocation_key ← derive_private_revocation_key per_commitment_key (revocation_base_key self);
  let per_commitment_point := from_secret_key per_commitment_key in
  revocation_pubkey ← revocation_from_basepoint (revocation_basepoint (holder_pubkeys params)) per_commitment_point;
  counterparty_keys ← unwrap (counterparty_pubkeys params);
  counterparty_delayedpubkey ← derive_public_key per_commitment_point
    (delayed_payment_basepoint counterparty_keys);
  let witness_script := get_revokeable_redeemscript revocation_pubkey (holder_selected_contest_delay params)
    counterparty_delayedpubkey in
  sighash ← input_sighash justice_tx input witness_script amount;
  mret (Ok (sign_with_aux_rand sighash revocation_key entropy)).

(** The script of an HTLC output of the peer's commitment. *)
Definition counterparty_htlc_script (params : ChannelTransactionParameters) (htlc : HTLCOutputInCommitment)
    (per_commitment_point : PublicKey) : run bytes :=
  revocation_pubkey ← revocation_from_basepoint (revocation_basepoint (holder_pubkeys params)) per_commitment_point;
  counterparty_keys ← unwrap (counterparty_pubkeys params);
  counterparty_htlcpubkey ← derive_public_key per_commitment_point (htlc_basepoint counterparty_keys);
  holder_htlcpubkey ← derive_public_key per_commitment_point (htlc_basepoint (holder_pubkeys params));
  mret (get_htlc_redeemscript_with_explicit_keys htlc (params_channel_type_features params)
    counterparty_htlcpubkey holder_htlcpubkey revocation_pubkey).

Definition sign_justice_revoked_htlc (self : InMemorySigner) (params : ChannelTransactionParameters)
    (justice_tx : Transaction) (input : nat) (amount : Z) (per_commitment_key : SecretKey)
    (htlc : HTLCOutputInCommitment) (entropy : bytes) : run (result unit Signature) :=
  assert_populated params ;;
  revocation_key ← derive_private_revocation_key per_commitment_key (revocation_base_key self);
  witness_script ← counterparty_htlc_script params htlc (from_secret_key per_commitment_key);
  sighash ← input_sighash justice_tx input witness_script amount;
  mret (Ok (sign_with_aux_rand sighash revocation_key entropy)).

Definition sign_counterparty_htlc_transaction (self : InMemorySigner) (params : ChannelTransactionParameters)
    (htlc_tx : Transaction) (input : nat) (amount : Z) (per_commitment_point : PublicKey)
    (htlc : HTLCOutputInCommitment) (entropy : bytes) : run (result unit Signature) :=
  assert_populated params ;;
  htlc_key ← derive_private_key per_commitment_point (htlc_base_key self);
  witness_script ← counterparty_htlc_script params htlc per_commitment_point;
  sighash ← input_sighash htlc_tx input witness_script amount;
  mret (Ok (sign_with_aux_rand sighash htlc_key entropy)).

(** An HTLC output of our own commitment; the index of the commitment is left out. *)
Record HTLCDescriptor := mkHTLCDescriptor {
  desc_parameters : ChannelTransactionParameters;
  desc_commitment_txid : bytes;
  desc_per_commitment_point : PublicKey;
  desc_feerate_per_kw : Z;
  desc_htlc : HTLCOutputInCommitment;
  desc_preimage : option bytes;
  desc_counterparty_sig : Signature;
}.

Definition desc_witness_script (self : HTLCDescriptor) : run bytes :=
  channel_params ← as_holder_broadcastable (desc_parameters self);
  broadcaster_keys ← broadcaster_pubkeys channel_params;
  counterparty_keys ← countersignatory_pubkeys channel_params;
  broadcaster_htlc_key ← derive_public_key (desc_per_commitment_point self) (htlc_basepoint broadcaster_keys);
  counterparty_htlc_key ← derive_public_key (desc_per_commitment_point self) (htlc_basepoint counterparty_keys);
  counterparty_revocation_key ← revocation_from_basepoint (revocation_basepoint counterparty_keys)
    (desc_per_commitment_point self);
  mret (get_htlc_redeemscript_with_explicit_keys (desc_htlc self) (channel_type_features channel_params)
    broadcaster_htlc_key counterparty_htlc_key counterparty_revocation_key).

Definition desc_outpoint (self : HTLCDescriptor) : run OutPoint :=
  index ← unwrap (transaction_output_index (desc_htlc self));
  mret (mkOutPoint (desc_commitment_txid self) index).
Definition desc_previous_utxo (self : HTLCDescriptor) : run TxOut :=
  script ← desc_witness_script self;
  mret (mkTxOut (to_bitcoin_amount (desc_htlc self)) (to_p2wsh script)).
Definition desc_unsigned_tx_input (self : HTLCDescriptor) : run TxIn :=
  build_htlc_input (desc_commitment_txid self) (desc_htlc self)
    (params_channel_type_features (desc_parameters self)).
Definition desc_tx_output (self : HTLCDescriptor) : run TxOut :=
  channel_params ← as_holder_broadcastable (desc_parameters self);
  broadcaster_keys ← broadcaster_pubkeys channel_params;
  counterparty_keys ← countersignatory_pubkeys channel_params;
  broadcaster_delayed_key ← derive_public_key (desc_per_commitment_point self)
    (delayed_payment_basepoint broadcaster_keys);
  counterparty_revocation_key ← revocation_from_basepoint (revocation_basepoint counterparty_keys)
    (desc_per_commitment_point self);
  delay ← contest_delay channel_params;
  build_htlc_output (desc_feerate_per_kw self) delay (desc_htlc self) (channel_type_features channel_params)
    broadcaster_delayed_key counterparty_revocation_key.
Definition desc_tx_input_witness (self : HTLCDescriptor) (signature : Signature) (witness_script : bytes)
    : list bytes :=
  build_htlc_input_witness signature (desc_counterparty_sig self) (desc_preimage self) witness_script
    (params_channel_type_features (desc_parameters self)).

Definition sign_holder_htlc_transaction (self : InMemorySigner) (htlc_tx : Transaction) (input : nat)
    (descriptor : HTLCDescriptor) (entropy : bytes) : run (result unit Signature) :=
  assert_populated (desc_parameters descriptor) ;;
  witness_script ← desc_witness_script descriptor;
  match p2wsh_signature_hash htlc_tx input witness_script (to_bitcoin_amount (desc_htlc descriptor)) SighashAll with
  | None => mret (Err tt)
  | Some sighash =>
      our_htlc_private_key ← derive_private_key (desc_per_commitment_point descriptor) (htlc_base_key self);
      mret (Ok (sign_with_aux_rand sighash our_htlc_private_key entropy))
  end.

(** [ClosingTransaction]'s built transaction. *)
Definition sign_closing_transaction (self : InMemorySigner) (params : ChannelTransactionParameters)
    (closing_tx : Transaction) : run (result unit Signature) :=
  assert_populated params ;;
  funding_key ← funding_key self (splice_parent_funding_txid params);
  channel_funding_redeemscript ← funding_script_of funding_key params;
  sighash ← get_sighash_all closing_tx channel_funding_redeemscript (params_channel_value_satoshis params);
  mret (Ok (sign sighash funding_key)).

Definition sign_holder_keyed_anchor_input (self : InMemorySigner) (params : ChannelTransactionParameters)
    (anchor_tx : Transaction) (input : nat) (entropy : bytes) : run (result unit Signature) :=
  assert_populated params ;;
  let witness_script := get_keyed_anchor_redeemscript (funding_pubkey (holder_pubkeys params)) in
  sighash ← input_sighash anchor_tx input witness_script ANCHOR_OUTPUT_VALUE_SATOSHI;
  funding_key ← funding_key self (splice_parent_funding_txid params);
  mret (Ok (sign_with_aux_rand sighash funding_key entropy)).

Definition sign_splice_shared_input (self : InMemorySigner) (params : ChannelTransactionParameters)
    (tx : Transaction) (input_index : nat) : run (result unit Signature) :=
  assert_populated params ;;
  txin ← unwrap (tx_input tx !! input_index);
  outpoint ← unwrap (params_funding_outpoint params);
  (if decide (previous_output txin = outpoint) then mret tt else Panic) ;;
  funding_key ← funding_key self (splice_parent_funding_txid params);
  funding_redeemscript ← funding_script_of funding_key params;
  sighash ← input_sighash tx input_index funding_redeemscript (params_channel_value_satoshis params);
  mret (Ok (sign sighash funding_key)).

(** *** Descriptors of spendable outputs *)

Record StaticPaymentOutputDescriptor := mkStaticPayment {
  static_outpoint : OutPoint;
  static_output : TxOut;
  static_parameters : option ChannelTransactionParameters;
}.
Record DelayedPaymentOutputDescriptor := mkDelayedPayment {
  delayed_outpoint : OutPoint;
  delayed_per_commitment_point : PublicKey;
  delayed_to_self_delay : Z;
  delayed_output : TxOut;
  delayed_revocation_pubkey : PublicKey;
}.

(** The checks both functions start with. *)
Definition spends_outpoint (spend_tx : Transaction) (input_idx : nat) (outpoint : OutPoint) : option TxIn :=
  txin ← tx_input spend_tx !! input_idx;
  if bool_decide (script_sig txin = []) && bool_decide (previous_output txin = outpoint) then Some txin else None.

Definition sign_counterparty_payment_input `{P2pkhLib} (self : InMemorySigner) (spend_tx : Transaction)
    (input_idx : nat) (descriptor : StaticPaymentOutputDescriptor) (entropy : bytes)
    : run (result unit (list bytes)) :=
  match spends_outpoint spend_tx input_idx (static_outpoint descriptor) with
  | None => mret (Err tt)
  | Some _ =>
      let ct := default only_static_remote_key (params_channel_type_features <$> static_parameters descriptor) in
      let point_v1 := from_secret_key (payment_key_v1 self) in
      let point_v2 := from_secret_key (payment_key_v2 self) in
      let spk := script_pubkey (static_output descriptor) in
      let choice :=
        if decide (get_countersigner_payment_script ct point_v1 = spk) then Some (point_v1, payment_key_v1 self)
        else if decide (get_countersigner_payment_script ct point_v2 = spk)
        then Some (point_v2, payment_key_v2 self) else None in
      match choice with
      | None => mret (Err tt)
      | Some (remotepubkey, payment_key) =>
          let witness_script :=
            if supports_anchors_zero_fee_htlc_tx ct
            then get_to_countersigner_keyed_anchor_redeemscript remotepubkey
            else new_p2pkh (hash160 (serialize remotepubkey)) in
          sighash ← input_sighash spend_tx input_idx witness_script (value (static_output descriptor));
          let remotesig := sign_with_aux_rand sighash payment_key entropy in
          let payment_script :=
            if supports_anchors_zero_fee_htlc_tx ct then to_p2wsh witness_script
            else new_p2wpkh (hash160 (serialize remotepubkey)) in
          if decide (payment_script = spk) then
            mret (Ok [signature_bytes remotesig SighashAll;
                      if supports_anchors_zero_fee_htlc_tx ct then witness_script else serialize remotepubkey])
          else mret (Err tt)
      end
  end.

Definition sign_dynamic_p2wsh_input (self : InMemorySigner) (spend_tx : Transaction) (input_idx : nat)
    (descriptor : DelayedPaymentOutputDescriptor) (entropy : bytes) : run (result unit (list bytes)) :=
  match spends_outpoint spend_tx input_idx (delayed_outpoint descriptor) with
  | None => mret (Err tt)
  | Some txin =>
      if decide (sequence txin = delayed_to_self_delay descriptor) then
        delayed_payment_key ← derive_private_key (delayed_per_commitment_point descriptor)
          (delayed_payment_base_key self);
        let delayed_payment_pubkey := from_secret_key delayed_payment_key in
        let witness_script := get_revokeable_redeemscript (delayed_revocation_pubkey descriptor)
          (delayed_to_self_delay descriptor) delayed_payment_pubkey in
        sighash ← input_sighash spend_tx input_idx witness_script (value (delayed_output descriptor));
        let local_delayedsig := sign_with_aux_rand sighash delayed_payment_key entropy in
        if decide (script_pubkey (delayed_output descriptor) = to_p2wsh witness_script) then
          mret (Ok [signature_bytes local_delayedsig SighashAll; []; witness_script])
        else mret (Err tt)
      else mret (Err tt)
  end.

(** ** As the signer of a channel *)

(** A seed whose derived secret is no valid key panics in the source; the
    probability is negligible and here the signer is then not ready. *)
Definition in_memory_channel_signer (self : InMemorySigner) : ChannelSigner := {|
  get_per_commitment_point idx :=
    match in_memory_per_commitment_point self idx with Return point => Some point | Panic => None end;
  release_commitment_secret idx := Some (per_commitment_secret self idx);
  validate_holder_commitment _ _ := true;
  validate_counterparty_revocation _ _ := true;
  sign_counterparty_commitment := in_memory_sign_counterparty_commitment self;
|}.

(** ** The signatures verify *)

Context {blaws : BitcoinLaws} {elaws : EcdsaLaws}.

(** The signer holds the keys the parameters name. *)
Record owns (self : InMemorySigner) (params : ChannelTransactionParameters) (k : SecretKey) : Prop := {
  owns_funding : funding_key self (splice_parent_funding_txid params) = Return k;
  owns_funding_pubkey : from_secret_key k = funding_pubkey (holder_pubkeys params);
  owns_revocation : revocation_basepoint (holder_pubkeys params) = from_secret_key (revocation_base_key self);
  owns_htlc : htlc_basepoint (holder_pubkeys params) = from_secret_key (htlc_base_key self);
}.

(** The parameters of the two peers describe one channel. *)
Record mirrored (ours theirs : ChannelTransactionParameters) : Prop := {
  mirrored_theirs : counterparty_parameters theirs =
    Some (mkCounterpartyParams (holder_pubkeys ours) (holder_selected_contest_delay ours));
  mirrored_ours : counterparty_parameters ours =
    Some (mkCounterpartyParams (holder_pubkeys theirs) (holder_selected_contest_delay theirs));
  mirrored_funder : is_outbound_from_holder theirs = negb (is_outbound_from_holder ours);
  mirrored_outpoint : params_funding_outpoint theirs = params_funding_outpoint ours;
  mirrored_type : params_channel_type_features theirs = params_channel_type_features ours;
  mirrored_value : params_channel_value_satoshis theirs = params_channel_value_satoshis ours;
}.

Lemma sign_htlcs_verify self params scope tx htlcs hk :
  mirrored params (channel_transaction_parameters scope) ->
  derive_private_key (per_commitment_point (ctx_keys tx)) (htlc_base_key self) = Return hk ->
  countersignatory_htlc_key (ctx_keys tx) = from_secret_key hk ->
  Forall (fun htlc => is_Some (transaction_output_index htlc) /\
    is_return (htlc_sighash (built_txid (built tx)) (ctx_feerate_per_kw tx) (holder_selected_contest_delay params)
      htlc (params_channel_type_features params) (ctx_keys tx)) = true) htlcs ->
  exists sigs, run_map (sign_commitment_htlc self params tx) htlcs = Return sigs /\ length sigs = length htlcs /\
    try_for_each (check_htlc_signature scope tx) (zip htlcs sigs) = Return (Ok tt).
Proof.
  intros Hm Hk Hpub Hall. induction Hall as [|htlc htlcs [[i Hi] Hs] Hall (sigs & Hmap & Hlen & Htry)];
    [by exists []|].
  destruct (htlc_sighash _ _ _ htlc _ _) as [h|] eqn:Hh; [|done]. exists (sign h hk :: sigs).
  assert (sign_commitment_htlc self params tx htlc = Return (sign h hk)) as Hone
    by (unfold sign_commitment_htlc; cbn zeta; by rewrite Hh, Hk).
  assert (check_htlc_signature scope tx (htlc, sign h hk) = Return (Ok tt)) as Hcheck.
  { unfold check_htlc_signature, get_counterparty_selected_contest_delay, get_channel_type.
    rewrite (mirrored_theirs _ _ Hm), (mirrored_type _ _ Hm), Hi.
    cbn [unwrap mbind run_bind fmap option_fmap option_map selected_contest_delay]. rewrite Hh. cbn.
    by rewrite Hpub, verify_sign. }
  split_and!.
  - cbn [run_map]. rewrite Hone. cbn. by rewrite Hmap.
  - cbn. by rewrite Hlen.
  - cbn [zip_with try_for_each]. by rewrite Hcheck.
Qed.

(** C16: what the signer signs passes the peer's checks.  For the transaction of
    the peer's commitment, whose keys come from the two sides' base points, the
    signer returns one signature per HTLC output, the first signature verifies
    under our funding key over the hash the peer computes from its own
    parameters, and every HTLC signature passes [check_htlc_signature] on the
    peer's side. *)
Theorem signed_commitment_verifies self params scope tx k theirs keys sighash :
  is_populated params = true -> owns self params k ->
  mirrored params (channel_transaction_parameters scope) ->
  counterparty_pubkeys params = Some theirs ->
  from_channel_static_keys (per_commitment_point (ctx_keys tx)) theirs (holder_pubkeys params) = Return keys ->
  ctx_keys tx = keys ->
  get_sighash_all (built_tx (built tx)) (make_funding_redeemscript (funding_pubkey theirs)
    (funding_pubkey (holder_pubkeys params))) (params_channel_value_satoshis params) = Return sighash ->
  Forall (fun htlc => is_Some (transaction_output_index htlc) /\
    is_return (htlc_sighash (built_txid (built tx)) (ctx_feerate_per_kw tx) (holder_selected_contest_delay params)
      htlc (params_channel_type_features params) (ctx_keys tx)) = true) (nondust_htlcs tx) ->
  exists sig sigs counterparty,
    sign_counterparty_commitment (in_memory_channel_signer self) params tx [] [] = Return (Some (sig, sigs)) /\
    (script ← get_funding_redeemscript scope;
     get_sighash_all (built_tx (built tx)) script (get_value_satoshis scope)) = Return sighash /\
    get_counterparty_pubkeys scope = Return counterparty /\
    verify_ecdsa sighash sig (funding_pubkey counterparty) = true /\
    length sigs = length (nondust_htlcs tx) /\
    try_for_each (check_htlc_signature scope tx) (zip (nondust_htlcs tx) sigs) = Return (Ok tt).
Proof.
  intros Hpop [Hfk Hfp _ Hhb] Hm Ht Hkeys Hctx Hsig Hall.
  unfold from_channel_static_keys, derive_new in Hkeys. rewrite Hhb, derive_public_of_private in Hkeys.
  destruct (revocation_from_basepoint _ _) as [rk|]; [|done]. cbn in Hkeys.
  destruct (derive_public_key _ (htlc_basepoint theirs)) as [bk|]; [|done]. cbn in Hkeys.
  destruct (derive_private_key _ (htlc_base_key self)) as [hk|] eqn:Hhk; [|done]. cbn in Hkeys.
  destruct (derive_public_key _ (delayed_payment_basepoint theirs)) as [dk|]; [|done]. cbn in Hkeys.
  injection Hkeys as Hkeys.
  assert (countersignatory_htlc_key (ctx_keys tx) = from_secret_key hk) as Hck by (by rewrite Hctx, <- Hkeys).
  destruct (sign_htlcs_verify self params scope tx _ hk Hm Hhk Hck Hall) as (sigs & Hmap & Hlen & Htry).
  assert (theirs = holder_pubkeys (channel_transaction_parameters scope)) as ->.
  { unfold counterparty_pubkeys in Ht. rewrite (mirrored_ours _ _ Hm) in Ht. by injection Ht. }
  exists (sign sighash k), sigs, (holder_pubkeys params). split_and!; [| | | |done|done].
  - cbn. unfold in_memory_sign_counterparty_commitment, assert_populated, funding_script_of, sign_built_commitment.
    rewrite Hpop, Hfk, Ht. cbn. rewrite Hfp, funding_script_sym, Hsig. cbn. by rewrite Hmap.
  - unfold get_funding_redeemscript, get_counterparty_pubkeys, get_value_satoshis.
    rewrite (mirrored_theirs _ _ Hm), (mirrored_value _ _ Hm). exact Hsig.
  - unfold get_counterparty_pubkeys. by rewrite (mirrored_theirs _ _ Hm).
  - rewrite <- Hfp. apply verify_sign.
Qed.

(** C17: a revoked commitment can be punished, and a live one claimed from.  Once
    the peer's per-commitment secret is known, the signatures the signer makes for
    the peer's delayed balance and for any HTLC output verify under the
    revocation key of that commitment, over the very scripts the commitment's
    outputs pay to; and before that, the signature for an HTLC output verifies
    under our HTLC key of that commitment. *)
Theorem commitment_outputs_spendable self params k theirs secret keys tx input amount htlc aux h1 h2 :
  is_populated params = true -> owns self params k -> counterparty_pubkeys params = Some theirs ->
  from_channel_static_keys (from_secret_key secret) theirs (holder_pubkeys params) = Return keys ->
  let ct := params_channel_type_features params in
  input_sighash tx input (get_revokeable_redeemscript (revocation_key keys) (holder_selected_contest_delay params)
    (broadcaster_delayed_payment_key keys)) amount = Return h1 ->
  input_sighash tx input (get_htlc_redeemscript htlc ct keys) amount = Return h2 ->
  exists sig1 sig2 sig3,
    sign_justice_revoked_output self params tx input amount secret aux = Return (Ok sig1) /\
    verify_ecdsa h1 sig1 (revocation_key keys) = true /\
    sign_justice_revoked_htlc self params tx input amount secret htlc aux = Return (Ok sig2) /\
    verify_ecdsa h2 sig2 (revocation_key keys) = true /\
    sign_counterparty_htlc_transaction self params tx input amount (from_secret_key secret) htlc aux =
      Return (Ok sig3) /\
    verify_ecdsa h2 sig3 (countersignatory_htlc_key keys) = true.
Proof.
  intros Hpop [_ _ Hrev Hhb] Ht Hkeys ct H1 H2.
  unfold from_channel_static_keys, derive_new in Hkeys.
  rewrite Hrev, revocation_public_of_private, Hhb, (derive_public_of_private _ (htlc_base_key self)) in Hkeys.
  destruct (derive_private_revocation_key secret (revocation_base_key self)) as [rk|] eqn:Hrk; [|done]. cbn in Hkeys.
  destruct (derive_public_key _ (htlc_basepoint theirs)) as [bk|] eqn:Hbk; [|done]. cbn in Hkeys.
  destruct (derive_private_key _ (htlc_base_key self)) as [hk|] eqn:Hhk; [|done]. cbn in Hkeys.
  destruct (derive_public_key _ (delayed_payment_basepoint theirs)) as [dk|] eqn:Hdk; [|done]. cbn in Hkeys.
  injection Hkeys as <-. unfold get_htlc_redeemscript in H2.
  cbn [revocation_key broadcaster_delayed_payment_key broadcaster_htlc_key countersignatory_htlc_key] in *.
  assert (counterparty_htlc_script params htlc (from_secret_key secret) =
    Return (get_htlc_redeemscript_with_explicit_keys htlc ct bk (from_secret_key hk) (from_secret_key rk))) as Hscript.
  { unfold counterparty_htlc_script. rewrite Hrev, revocation_public_of_private, Hrk, Ht. cbn.
    rewrite Hbk, Hhb, derive_public_of_private, Hhk. done. }
  exists (sign_with_aux_rand h1 rk aux), (sign_with_aux_rand h2 rk aux), (sign_with_aux_rand h2 hk aux).
  split_and!; try apply verify_noncedata.
  - unfold sign_justice_revoked_output, assert_populated. rewrite Hpop, Hrk, Hrev, revocation_public_of_private, Hrk, Ht.
    cbn -[input_sighash]. rewrite Hdk. cbn -[input_sighash]. by rewrite H1.
  - unfold sign_justice_revoked_htlc, assert_populated. rewrite Hpop, Hrk, Hscript. cbn -[input_sighash]. by rewrite H2.
  - unfold sign_counterparty_htlc_transaction, assert_populated. rewrite Hpop, Hhk, Hscript.
    cbn -[input_sighash]. by rewrite H2.
Qed.

End signer.

(** ** A concrete channel *)

#[export] Instance toy_ecdsa : EcdsaLib (H0 := toy_scripts) := {|
  p2wsh_signature_hash tx input script amount _ :=
    if (input <? length (tx_input tx))%nat
    then Some [foldl (fun acc b => (3 * acc + b) mod 65536) (amount + lock_time tx) script] else None;
  sign msg k := k + zsum msg;
  verify_ecdsa msg sig pk := sig =? pk + zsum msg;
|}.
#[export] Instance toy_nonces : NonceLib (H1 := toy_ecdsa) := {|
  sign_ecdsa_with_noncedata msg k _ := k + zsum msg;
|}.
#[export] Instance toy_ecdsa_laws : EcdsaLaws (H2 := toy_nonces).
Proof. split; intros; apply Z.eqb_refl. Qed.

Definition example_alice : InMemorySigner (bitcoin := toy_bitcoin) :=
  mkInMemorySigner 11 12 13 13 false 14 15 (replicate 32 7).
Definition example_bob : InMemorySigner (bitcoin := toy_bitcoin) :=
  mkInMemorySigner 21 22 23 23 false 24 25 (replicate 32 8).

Definition example_parameters (ours theirs : InMemorySigner (bitcoin := toy_bitcoin)) (our_delay their_delay : Z)
    (outbound : bool) : ChannelTransactionParameters :=
  mkChannelParams (signer_pubkeys ours) our_delay outbound
    (Some (mkCounterpartyParams (signer_pubkeys theirs) their_delay))
    (Some (mkOutPoint [1] 0)) None only_static_remote_key 1000000.
Definition alice_parameters : ChannelTransactionParameters := example_parameters example_alice example_bob 144 720 true.
Definition bob_parameters : ChannelTransactionParameters := example_parameters example_bob example_alice 720 144 false.
Definition bob_scope : FundingScope := mkFunding 400000000 (Some 10000) 10000 bob_parameters.

(** A commitment of Bob's that Alice signs. *)
Definition bob_commitment : CommitmentTransaction :=
  returned (commitment_new (bitcoin := toy_bitcoin) 7 99 600000 300000 253 example_htlcs
              (mkDirected alice_parameters false))
    (mkCommitment 0 0 0 None 0 [] features_empty example_keys (mkBuilt (mkTransaction 0 0 [] []) [])).

Lemma alice_owns : owns example_alice alice_parameters 11.
Proof. by split. Qed.
Lemma alice_bob_mirrored : mirrored alice_parameters bob_parameters.
Proof. by split. Qed.

Lemma signed_commitment_verifies_witness : exists sig sigs,
  sign_counterparty_commitment (in_memory_channel_signer example_alice) alice_parameters bob_commitment [] [] =
    Return (Some (sig, sigs)) /\
  length sigs = 3%nat /\
  try_for_each (check_htlc_signature bob_scope bob_commitment) (zip (nondust_htlcs bob_commitment) sigs) =
    Return (Ok tt).
Proof.
  destruct (signed_commitment_verifies example_alice alice_parameters bob_scope bob_commitment 11
    (signer_pubkeys example_bob) (ctx_keys bob_commitment)
    (returned (get_sighash_all (built_tx (built bob_commitment)) (make_funding_redeemscript (H := toy_bitcoin) 21 11) 1000000) []))
    as (sig & sigs & cp & Hsign & _ & _ & _ & Hlen & Htry).
  - reflexivity.
  - exact alice_owns.
  - exact alice_bob_mirrored.
  - reflexivity.
  - vm_compute. reflexivity.
  - reflexivity.
  - apply returned_eq. vm_compute. reflexivity.
  - apply List.Forall_forall. intros htlc Hin.
    assert (forallb (fun htlc => bool_decide (is_Some (transaction_output_index htlc)) &&
      is_return (htlc_sighash (ecdsa := toy_ecdsa) (built_txid (built bob_commitment)) 253 144 htlc
        only_static_remote_key (ctx_keys bob_commitment))) (nondust_htlcs bob_commitment) = true) as Hall
      by (vm_compute; reflexivity).
    rewrite forallb_forall in Hall. specialize (Hall htlc Hin). apply andb_prop in Hall as [Hidx Hret].
    split; [by apply bool_decide_eq_true in Hidx|exact Hret].
  - exists sig, sigs. split; [exact Hsign|]. split; [|exact Htry]. rewrite Hlen. vm_compute. reflexivity.
Defined.

Lemma commitment_outputs_spendable_witness : exists sig,
  sign_justice_revoked_output example_alice alice_parameters (built_tx (built bob_commitment)) 0 600000 99 [] =
    Return (Ok sig).
Proof.
  set (keys := ctx_keys bob_commitment).
  set (script := get_revokeable_redeemscript (revocation_key keys) 144 (broadcaster_delayed_payment_key keys)).
  destruct (commitment_outputs_spendable example_alice alice_parameters 11 (signer_pubkeys example_bob) 99 keys
    (built_tx (built bob_commitment)) 0 600000 example_htlc []
    (returned (input_sighash (built_tx (built bob_commitment)) 0 script 600000) [])
    (returned (input_sighash (built_tx (built bob_commitment)) 0
       (get_htlc_redeemscript example_htlc only_static_remote_key keys) 600000) []))
    as (sig & _ & _ & Hsig & _).
  - reflexivity.
  - exact alice_owns.
  - reflexivity.
  - vm_compute. reflexivity.
  - apply returned_eq. vm_compute. reflexivity.
  - apply returned_eq. vm_compute. reflexivity.
  - exists sig. exact Hsig.
Defined.
