(* ===== verification/ChannelOps.v ===== *)
(** * The commitment protocol (lightning/src/ln/channel.rs)

    The operations of a [FundedChannel] that change its state: adding and
    removing HTLCs and updating the fee, locally and on the peer's message,
    committing to the changes ([commitment_signed] and [revoke_and_ack]) in both
    directions, the holding cell, pausing for the channel monitor, and resending.

    An operation is a function from the channel to an outcome and the channel it
    leaves behind, on the error path too; it may panic.  The signer, the fee
    estimator and the clock are what they are during the call: [Env]. *)

From Stdlib Require Import ZArith Lia Bool.
From S2P Require Import Prelude.
From S2P Require Import Features.
From S2P Require Import CommitmentSecrets.
From S2P Require Import Keys.
From S2P Require Import Order.
From S2P Require Import Scripts.
From S2P Require Import CommitmentTx.
From S2P Require Import TxBuilder.
From S2P Require Import ChannelState.
From S2P Require Import Channel.

Local Open Scope Z_scope.
Local Open Scope channel_scope.

(** ** Updating fields *)

(** [self.field = v] on a copy. *)
Ltac set_field proj v c :=
  let t := constr:(mkContext (limits c) (channel_state c) (announcement_sigs_state c)
    (latest_monitor_update_id c) (counterparty_next_commitment_transaction_number c)
    (pending_inbound_htlcs c) (pending_outbound_htlcs c) (holding_cell_htlc_updates c) (resend_order c)
    (monitor_pending_channel_ready c) (monitor_pending_revoke_and_ack c)
    (monitor_pending_commitment_signed c) (monitor_pending_forwards c) (monitor_pending_failures c)
    (monitor_pending_finalized_fulfills c) (monitor_pending_update_adds c)
    (signer_pending_revoke_and_ack c) (signer_pending_commitment_update c) (pending_update_fee c)
    (holding_cell_update_fee c) (next_holder_htlc_id c) (next_counterparty_htlc_id c) (feerate_per_kw c)
    (update_time_counter c) (closing_fee_sent c) (expecting_peer_commitment_signed c)
    (counterparty_next_commitment_point c) (counterparty_current_commitment_point c)
    (commitment_secrets c) (sent_message_awaiting_response c) (blocked_monitor_updates c)) in
  let t := eval pattern (proj c) in t in
  match t with ?g _ => let r := eval cbv beta in (g v) in exact r end.

Section setters.
Context {bitcoin : Bitcoin} {scriptlib : ScriptLib} {payloads : Payloads}.

Definition with_channel_state v c : ChannelContext := ltac:(set_field channel_state v c).
Definition with_announcement_sigs_state v c : ChannelContext := ltac:(set_field announcement_sigs_state v c).
Definition with_latest_monitor_update_id v c : ChannelContext := ltac:(set_field latest_monitor_update_id v c).
Definition with_counterparty_number v c : ChannelContext :=
  ltac:(set_field counterparty_next_commitment_transaction_number v c).
Definition with_inbound v c : ChannelContext := ltac:(set_field pending_inbound_htlcs v c).
Definition with_outbound v c : ChannelContext := ltac:(set_field pending_outbound_htlcs v c).
Definition with_holding_cell v c : ChannelContext := ltac:(set_field holding_cell_htlc_updates v c).
Definition with_resend_order v c : ChannelContext := ltac:(set_field resend_order v c).
Definition with_monitor_pending_revoke_and_ack v c : ChannelContext :=
  ltac:(set_field monitor_pending_revoke_and_ack v c).
Definition with_monitor_pending_commitment_signed v c : ChannelContext :=
  ltac:(set_field monitor_pending_commitment_signed v c).
Definition with_monitor_pending_channel_ready v c : ChannelContext :=
  ltac:(set_field monitor_pending_channel_ready v c).
Definition with_monitor_pending_forwards v c : ChannelContext := ltac:(set_field monitor_pending_forwards v c).
Definition with_monitor_pending_failures v c : ChannelContext := ltac:(set_field monitor_pending_failures v c).
Definition with_monitor_pending_finalized_fulfills v c : ChannelContext :=
  ltac:(set_field monitor_pending_finalized_fulfills v c).
Definition with_monitor_pending_update_adds v c : ChannelContext :=
  ltac:(set_field monitor_pending_update_adds v c).
Definition with_signer_pending_revoke_and_ack v c : ChannelContext :=
  ltac:(set_field signer_pending_revoke_and_ack v c).
Definition with_signer_pending_commitment_update v c : ChannelContext :=
  ltac:(set_field signer_pending_commitment_update v c).
Definition with_pending_update_fee v c : ChannelContext := ltac:(set_field pending_update_fee v c).
Definition with_holding_cell_update_fee v c : ChannelContext := ltac:(set_field holding_cell_update_fee v c).
Definition with_next_holder_htlc_id v c : ChannelContext := ltac:(set_field next_holder_htlc_id v c).
Definition with_next_counterparty_htlc_id v c : ChannelContext := ltac:(set_field next_counterparty_htlc_id v c).
Definition with_feerate_per_kw v c : ChannelContext := ltac:(set_field feerate_per_kw v c).
Definition with_update_time_counter v c : ChannelContext := ltac:(set_field update_time_counter v c).
Definition with_closing_fee_sent v c : ChannelContext := ltac:(set_field closing_fee_sent v c).
Definition with_expecting_peer_commitment_signed v c : ChannelContext :=
  ltac:(set_field expecting_peer_commitment_signed v c).
Definition with_counterparty_next_commitment_point v c : ChannelContext :=
  ltac:(set_field counterparty_next_commitment_point v c).
Definition with_counterparty_current_commitment_point v c : ChannelContext :=
  ltac:(set_field counterparty_current_commitment_point v c).
Definition with_commitment_secrets v c : ChannelContext := ltac:(set_field commitment_secrets v c).
Definition with_sent_message_awaiting_response v c : ChannelContext :=
  ltac:(set_field sent_message_awaiting_response v c).
Definition with_blocked_monitor_updates v c : ChannelContext := ltac:(set_field blocked_monitor_updates v c).

Definition with_in_state v (htlc : InboundHTLCOutput) : InboundHTLCOutput :=
  mkInbound (in_htlc_id htlc) (in_amount_msat htlc) (in_cltv_expiry htlc) (in_payment_hash htlc) v.
Definition with_out_state v (htlc : OutboundHTLCOutput) : OutboundHTLCOutput :=
  mkOutbound (out_htlc_id htlc) (out_amount_msat htlc) (out_cltv_expiry htlc) (out_payment_hash htlc) v
    (out_source htlc) (out_extras htlc) (out_send_timestamp htlc).
Definition with_value_to_self v (f : FundingScope) : FundingScope :=
  mkFunding v (their_selected_channel_reserve_satoshis f) (our_selected_channel_reserve_satoshis f)
    (channel_transaction_parameters f).

Definition with_context v (c : FundedChannel) : FundedChannel :=
  mkChannel v (funding c) (pending_funding c) (holder_commitment_point c).
Definition with_holder_commitment_point v (c : FundedChannel) : FundedChannel :=
  mkChannel (context c) (funding c) (pending_funding c) v.

End setters.

(** ** Outcomes *)

Definition Chan `{ScriptLib, Payloads} (E A : Type) : Type :=
  FundedChannel -> run (result E A * FundedChannel).

Section monad.
Context {bitcoin : Bitcoin} {scriptlib : ScriptLib} {payloads : Payloads}.

#[export] Instance Chan_ret {E} : MRet (Chan E) := fun A a c => Return (Ok a, c).
#[export] Instance Chan_bind {E} : MBind (Chan E) := fun A B f m c =>
  match m c with
  | Return (Ok a, c') => f a c'
  | Return (Err e, c') => Return (Err e, c')
  | Panic => Panic
  end.
Definition get {E A} (f : FundedChannel -> A) : Chan E A := fun c => Return (Ok (f c), c).
Definition get_context {E A} (f : ChannelContext -> A) : Chan E A := get (fun c => f (context c)).
Definition modify {E} (f : FundedChannel -> FundedChannel) : Chan E unit := fun c => Return (Ok tt, f c).
Definition update {E} (f : ChannelContext -> ChannelContext) : Chan E unit :=
  modify (fun c => with_context (f (context c)) c).
Definition fail {E A} (e : E) : Chan E A := fun c => Return (Err e, c).
Definition bail_when {E} (b : bool) (e : E) : Chan E unit := if b then fail e else mret tt.
Definition panic {E A} : Chan E A := fun c => Panic.
(** [assert!] *)
Definition assert_that {E} (b : bool) : Chan E unit := if b then mret tt else panic.
(** Code that reads the channel, may fail and may panic. *)
Definition check {E A} (f : FundedChannel -> run (result E A)) : Chan E A := fun c =>
  r ← f c; mret (r, c).
Definition reading {E A} (f : FundedChannel -> run A) : Chan E A := check (fun c => lift_run (f c)).
(** The error of a call, as a value. *)
Definition catch {E F A} (m : Chan E A) : Chan F (result E A) := fun c =>
  match m c with
  | Return (r, c') => Return (Ok r, c')
  | Panic => Panic
  end.
End monad.

(** What a call may consult besides the channel. *)
Record Env `{ScriptLib, Payloads} := mkEnv {
  fee_estimator : FeeEstimator;
  holder_signer : ChannelSigner;
  (** [duration_since_epoch()] *)
  now : option Z;
}.
Arguments mkEnv {_ _ _} _ _ _.

Section operations.
Context {bitcoin : Bitcoin} {scriptlib : ScriptLib} {payloads : Payloads}.
Context {bsearch : BinarySearch} {txhash : TxHash} {ecdsa : EcdsaLib}.

(** ** The holder's commitment point *)

Definition commitment_point_new (signer : ChannelSigner) : option HolderCommitmentPoint :=
  next ← get_per_commitment_point signer INITIAL_COMMITMENT_NUMBER;
  mret (mkHolderPoint INITIAL_COMMITMENT_NUMBER None next
          (get_per_commitment_point signer (INITIAL_COMMITMENT_NUMBER - 1)) None None).

Definition can_advance (self : HolderCommitmentPoint) : bool :=
  bool_decide (is_Some (pending_next_point self)).

Definition try_resolve_pending (signer : ChannelSigner) (self : HolderCommitmentPoint)
    : HolderCommitmentPoint :=
  if negb (can_advance self) then
    match get_per_commitment_point signer (next_transaction_number self - 1)%u64 with
    | Some point => mkHolderPoint (next_transaction_number self) (current_point self) (next_point self)
                      (Some point) (previous_revoked_point self) (last_revoked_point self)
    | None => self
    end
  else self.

Definition advance (signer : ChannelSigner) (self : HolderCommitmentPoint)
    : result unit HolderCommitmentPoint :=
  match pending_next_point self with
  | Some next => Ok (try_resolve_pending signer
      (mkHolderPoint (next_transaction_number self - 1)%u64 (Some (next_point self)) next None
         (last_revoked_point self) (current_point self)))
  | None => Err tt
  end.

(** ** Monitor updates *)

Definition monitor_updating_paused {E} (resend_raa resend_commitment resend_channel_ready : bool)
    (pending_forwards : list (PendingHTLCInfo * Z))
    (pending_fails : list (HTLCSource * bytes * HTLCFailReason))
    (pending_finalized_claimed_htlcs : list (HTLCSource * option AttributionData)) : Chan E unit :=
  update (fun c => with_monitor_pending_revoke_and_ack (monitor_pending_revoke_and_ack c || resend_raa) c) ;;
  update (fun c =>
    with_monitor_pending_commitment_signed (monitor_pending_commitment_signed c || resend_commitment) c) ;;
  update (fun c =>
    with_monitor_pending_channel_ready (monitor_pending_channel_ready c || resend_channel_ready) c) ;;
  update (fun c => with_monitor_pending_forwards (monitor_pending_forwards c ++ pending_forwards) c) ;;
  update (fun c => with_monitor_pending_failures (monitor_pending_failures c ++ pending_fails) c) ;;
  update (fun c => with_monitor_pending_finalized_fulfills
                     (monitor_pending_finalized_fulfills c ++ pending_finalized_claimed_htlcs) c) ;;
  update (fun c => with_channel_state (set_monitor_update_in_progress (channel_state c)) c).

Definition push_ret_blockable_mon_update {E} (upd : ChannelMonitorUpdate)
    : Chan E (option ChannelMonitorUpdate) :=
  blocked ← get_context blocked_monitor_updates;
  match blocked with
  | [] => mret (Some upd)
  | _ => update (with_blocked_monitor_updates (blocked ++ [upd])) ;; mret None
  end.

Definition unblock_next_blocked_monitor_update {E} : Chan E (option (ChannelMonitorUpdate * bool)) :=
  blocked ← get_context blocked_monitor_updates;
  match blocked with
  | [] => mret None
  | upd :: rest =>
      update (with_blocked_monitor_updates rest) ;;
      mret (Some (upd, bool_decide (rest <> [])))
  end.

Definition bump_monitor_update_id {E} : Chan E Z :=
  id ← get_context latest_monitor_update_id;
  update (with_latest_monitor_update_id (id + 1)%u64) ;;
  mret (id + 1)%u64.

(** ** Committing to the pending updates *)

Definition build_commitment_no_state_update (c : FundedChannel) (funding : FundingScope)
    : run (list (HTLCOutputInCommitment * option HTLCSource) * CommitmentTransaction) :=
  point ← unwrap (counterparty_next_commitment_point (context c));
  commitment_data ← build_commitment_data (context c) funding
    (counterparty_next_commitment_transaction_number (context c)) point false true;
  mret (htlcs_included commitment_data, cd_tx commitment_data).

(** What a new commitment for the peer does to the HTLCs that waited for it. *)
Definition commit_inbound_htlc (htlc : InboundHTLCOutput) : InboundHTLCOutput :=
  match in_state htlc with
  | AwaitingRemoteRevokeToAnnounce forward_info =>
      with_in_state (AwaitingAnnouncedRemoteRevoke forward_info) htlc
  | _ => htlc
  end.
Definition commit_outbound_htlc (htlc : OutboundHTLCOutput) : OutboundHTLCOutput :=
  match out_state htlc with
  | AwaitingRemoteRevokeToRemove outcome => with_out_state (AwaitingRemovedRemoteRevoke outcome) htlc
  | _ => htlc
  end.
Definition commit_fee {E} : Chan E unit :=
  pending ← get_context pending_update_fee;
  match pending with
  | Some (feerate, FeeAwaitingRemoteRevokeToAnnounce) =>
      update (with_feerate_per_kw feerate) ;; update (with_pending_update_fee None)
  | _ => mret tt
  end.

(** The sources of the HTLCs we sent, by whether they have an output; the HTLCs
    are seen from the side that broadcasts. *)
Fixpoint nondust_sources (ours_offered : bool)
    (htlcs : list (HTLCOutputInCommitment * option HTLCSource)) : run (list HTLCSource) :=
  match htlcs with
  | [] => mret []
  | (htlc, source) :: htlcs =>
      if bool_decide (is_Some (transaction_output_index htlc)) && Bool.eqb (offered htlc) ours_offered then
        source ← unwrap source;
        cons source <$> nondust_sources ours_offered htlcs
      else nondust_sources ours_offered htlcs
  end.
Definition dust_htlcs (htlcs : list (HTLCOutputInCommitment * option HTLCSource))
    : list (HTLCOutputInCommitment * option HTLCSource) :=
  List.filter (fun '(htlc, _) => bool_decide (transaction_output_index htlc = None)) htlcs.

Definition counterparty_commitment_step (c : FundedChannel) : run ChannelMonitorUpdateStep :=
  match pending_funding c with
  | [] =>
      '(htlcs, tx) ← build_commitment_no_state_update c (funding c);
      point ← unwrap (counterparty_next_commitment_point (context c));
      mret (LatestCounterpartyCommitmentTXInfo (built_txid (built tx)) htlcs
              (counterparty_next_commitment_transaction_number (context c)) point
              (Some (ctx_feerate_per_kw tx)) (Some (to_broadcaster_value_sat tx))
              (Some (to_countersignatory_value_sat tx)))
  | _ =>
      built ← run_map (build_commitment_no_state_update c) (funding c :: pending_funding c);
      '(htlcs, _) ← unwrap (head built);
      sources ← nondust_sources false htlcs;
      mret (LatestCounterpartyCommitment (map snd built) (mkHTLCData sources (dust_htlcs htlcs)))
  end.

Definition build_commitment_no_status_check {E} : Chan E ChannelMonitorUpdate :=
  update (fun c => with_inbound (map commit_inbound_htlc (pending_inbound_htlcs c)) c) ;;
  update (fun c => with_outbound (map commit_outbound_htlc (pending_outbound_htlcs c)) c) ;;
  commit_fee ;;
  update (with_resend_order RevokeAndACKFirst) ;;
  step ← reading counterparty_commitment_step;
  update (fun c => if decide (announcement_sigs_state c = MessageSent)
                   then with_announcement_sigs_state SigsCommitted c else c) ;;
  id ← bump_monitor_update_id;
  update (fun c => with_channel_state (set_awaiting_remote_revoke (channel_state c)) c) ;;
  mret (mkMonitorUpdate id [step]).

(** The steps of a commitment join an update that has its number already. *)
Definition append_commitment {E} (monitor_update : ChannelMonitorUpdate) : Chan E ChannelMonitorUpdate :=
  additional_update ← build_commitment_no_status_check;
  update (with_latest_monitor_update_id (update_id monitor_update)) ;;
  mret (mkMonitorUpdate (update_id monitor_update) (updates monitor_update ++ updates additional_update)).

(** ** Sending HTLCs and fees *)

Definition channel_get_available_balances (est : FeeEstimator) (c : FundedChannel)
    : run (result unit AvailableBalances) :=
  init ←? get_available_balances_for_scope (context c) (funding c) est;
  foldl (fun acc funding =>
    acc ←? acc;
    e ←? get_available_balances_for_scope (context c) funding est;
    mret (Ok (mkAvailable
      (Z.min (inbound_capacity_msat acc) (inbound_capacity_msat e))
      (Z.min (outbound_capacity_msat acc) (outbound_capacity_msat e))
      (Z.min (next_outbound_htlc_limit_msat acc) (next_outbound_htlc_limit_msat e))
      (Z.max (next_outbound_htlc_minimum_msat acc) (next_outbound_htlc_minimum_msat e))
      (Z.max (dust_exposure_msat acc) (dust_exposure_msat e))
      (Z.min (next_splice_out_maximum_sat acc) (next_splice_out_maximum_sat e)))))
    (Return (Ok init)) (pending_funding c).

Definition send_htlc (env : Env) (amount cltv : Z) (hash : bytes) (source : HTLCSource)
    (onion_routing_packet : OnionPacket) (force_holding_cell : bool) (extras : HTLCExtras)
    : Chan SendError bool :=
  state ← get_context channel_state;
  bail_when (negb (is_channel_ready state) || is_local_shutdown_sent state || is_remote_shutdown_sent state)
    ChannelNotReady ;;
  bail_when (amount =? 0) ZeroAmount ;;
  balances ← check (fun c => map_err (channel_get_available_balances (fee_estimator env) c)
                                     (fun _ => ChannelBalanceOverdrawn));
  bail_when (amount <? next_outbound_htlc_minimum_msat balances) HTLCMinimum ;;
  bail_when (next_outbound_htlc_limit_msat balances <? amount) HTLCMaximum ;;
  bail_when (is_peer_disconnected state) PeerOffline ;;
  let need_holding_cell := negb (can_generate_new_commitment state) in
  if force_holding_cell || need_holding_cell then
    update (fun c => with_holding_cell
      (holding_cell_htlc_updates c ++ [AddHTLC amount cltv hash source onion_routing_packet extras]) c) ;;
    mret false
  else
    update (fun c => with_outbound (pending_outbound_htlcs c ++
      [mkOutbound (next_holder_htlc_id c) amount cltv hash (LocalAnnounced onion_routing_packet) source
         extras (now env)]) c) ;;
    update (fun c => with_next_holder_htlc_id (next_holder_htlc_id c + 1)%u64 c) ;;
    mret true.

(** Forwarded HTLCs are never held at the next hop. *)
Definition queue_add_htlc (env : Env) (amount : Z) (hash : bytes) (cltv : Z) (source : HTLCSource)
    (onion_routing_packet : OnionPacket) (skimmed : option Z) (blinding : option PublicKey)
    (accountable : bool) (trail ct : option bytes) : Chan SendError unit :=
  can_add_htlc ← send_htlc env amount cltv hash source onion_routing_packet true
                   (mkExtras skimmed blinding None accountable trail ct);
  assert_that (negb can_add_htlc).

Definition send_htlc_and_commit (env : Env) (amount : Z) (hash : bytes) (cltv : Z) (source : HTLCSource)
    (onion_routing_packet : OnionPacket) (skimmed : option Z) (hold_htlc accountable : bool)
    (trail ct : option bytes) : Chan ChannelError (option ChannelMonitorUpdate) :=
  send_res ← catch (send_htlc env amount cltv hash source onion_routing_packet false
    (mkExtras skimmed None (if hold_htlc then Some tt else None) accountable trail ct));
  match send_res with
  | Err e => fail (Ignore (SendFailed e))
  | Ok true =>
      monitor_update ← build_commitment_no_status_check;
      monitor_updating_paused false true false [] [] [] ;;
      push_ret_blockable_mon_update monitor_update
  | Ok false => mret None
  end.

Definition is_usable (self : ChannelContext) : bool :=
  is_channel_ready (channel_state self) && negb (is_local_shutdown_sent (channel_state self)) &&
  negb (is_remote_shutdown_sent (channel_state self)) && negb (monitor_pending_channel_ready self).
Definition is_live (self : ChannelContext) : bool :=
  is_usable self && negb (is_peer_disconnected (channel_state self)).

(** [iter.all(f)] *)
Fixpoint run_all {A} (f : A -> run bool) (l : list A) : run bool :=
  match l with
  | [] => mret true
  | x :: l => b ← f x; if b : bool then run_all f l else mret false
  end.

(** The [update_fee] message is its feerate. *)
Definition send_update_fee {E} (env : Env) (feerate : Z) (force_holding_cell : bool) : Chan E (option Z) :=
  outbound ← get (fun c => funding_is_outbound (funding c));
  assert_that outbound ;;
  usable ← get_context is_usable;
  assert_that usable ;;
  live ← get_context is_live;
  assert_that live ;;
  can_send ← reading (fun c => run_all (fun funding =>
    can_send_update_fee (context c) funding feerate (fee_estimator env)) (funding c :: pending_funding c));
  if negb can_send then mret None
  else
    state ← get_context channel_state;
    if force_holding_cell || negb (can_generate_new_commitment state) then
      update (with_holding_cell_update_fee (Some feerate)) ;; mret None
    else
      update (with_pending_update_fee (Some (feerate, FeeOutbound))) ;; mret (Some feerate).

Definition queue_update_fee {E} (env : Env) (feerate : Z) : Chan E unit :=
  msg_opt ← send_update_fee env feerate true;
  assert_that (bool_decide (msg_opt = None)).

(** ** Removing HTLCs *)

Inductive UpdateFulfillFetch :=
| NewClaim (monitor_update : ChannelMonitorUpdate) (htlc_value_msat : Z) (update_blocked : bool)
| DuplicateClaim.
Inductive UpdateFulfillCommitFetch :=
| NewCommittedClaim (monitor_update : ChannelMonitorUpdate) (htlc_value_msat : Z)
| DuplicateCommittedClaim.

Definition is_in_committed (htlc : InboundHTLCOutput) : bool :=
  match in_state htlc with InboundCommitted _ => true | _ => false end.

(** The first update of the holding cell about this HTLC, if any. *)
Definition awaiting_htlc_id (upd : HTLCUpdateAwaitingACK) : option Z :=
  match upd with
  | AddHTLC _ _ _ _ _ _ => None
  | ClaimHTLC _ _ htlc_id | FailHTLC htlc_id _ | FailMalformedHTLC htlc_id _ _ => Some htlc_id
  end.
Definition find_awaiting (htlc_id : Z) (updates : list HTLCUpdateAwaitingACK) : option HTLCUpdateAwaitingACK :=
  snd <$> list_find (fun upd => awaiting_htlc_id upd = Some htlc_id) updates.

Definition set_inbound_state {E} (idx : nat) (state : InboundHTLCState) : Chan E unit :=
  update (fun c => with_inbound (alter (with_in_state state) idx (pending_inbound_htlcs c)) c).

Definition get_update_fulfill_htlc {E} (htlc_id : Z) (payment_preimage : bytes)
    (payment_info : option PaymentClaimDetails) (attribution_data : option AttributionData)
    : Chan E UpdateFulfillFetch :=
  state ← get_context channel_state;
  assert_that (is_channel_ready state) ;;
  inbound ← get_context pending_inbound_htlcs;
  match list_find (fun htlc => in_htlc_id htlc = htlc_id) inbound with
  | None => mret DuplicateClaim
  | Some (pending_idx, htlc) =>
      match in_state htlc with
      | LocalRemoved _ => mret DuplicateClaim
      | _ =>
          id ← bump_monitor_update_id;
          let monitor_update := mkMonitorUpdate id [PaymentPreimageStep payment_preimage payment_info] in
          let htlc_value_msat := in_amount_msat htlc in
          if negb (can_generate_new_commitment state) then
            updates ← get_context holding_cell_htlc_updates;
            match find_awaiting htlc_id updates with
            | Some (ClaimHTLC _ _ _) =>
                update (fun c => with_latest_monitor_update_id (latest_monitor_update_id c - 1)%u64 c) ;;
                mret DuplicateClaim
            | Some _ => mret (NewClaim monitor_update htlc_value_msat true)
            | None =>
                update (with_holding_cell
                  (updates ++ [ClaimHTLC payment_preimage attribution_data htlc_id])) ;;
                mret (NewClaim monitor_update htlc_value_msat true)
            end
          else if is_in_committed htlc then
            set_inbound_state pending_idx (LocalRemoved (Fulfill payment_preimage attribution_data)) ;;
            mret (NewClaim monitor_update htlc_value_msat false)
          else mret (NewClaim monitor_update htlc_value_msat true)
      end
  end.

Definition bump_update_id (upd : ChannelMonitorUpdate) : ChannelMonitorUpdate :=
  mkMonitorUpdate (update_id upd + 1)%u64 (updates upd).

Definition get_update_fulfill_htlc_and_commit {E} (htlc_id : Z) (payment_preimage : bytes)
    (payment_info : option PaymentClaimDetails) (attribution_data : option AttributionData)
    : Chan E UpdateFulfillCommitFetch :=
  release_cs_monitor ← get_context (fun c => bool_decide (blocked_monitor_updates c = []));
  fetch ← get_update_fulfill_htlc htlc_id payment_preimage payment_info attribution_data;
  match fetch with
  | DuplicateClaim => mret DuplicateCommittedClaim
  | NewClaim monitor_update htlc_value_msat update_blocked =>
      monitor_update ←
        (if release_cs_monitor && negb update_blocked then append_commitment monitor_update
         else
           blocked ← get_context blocked_monitor_updates;
           let new_mon_id := default (update_id monitor_update) (update_id <$> head blocked) in
           update (with_blocked_monitor_updates (map bump_update_id blocked)) ;;
           (if negb update_blocked then
              upd ← build_commitment_no_status_check;
              update (fun c => with_blocked_monitor_updates (blocked_monitor_updates c ++ [upd]) c)
            else mret tt) ;;
           mret (mkMonitorUpdate new_mon_id (updates monitor_update)));
      monitor_updating_paused false (negb update_blocked) false [] [] [] ;;
      mret (NewCommittedClaim monitor_update htlc_value_msat)
  end.

(** The trait [FailHTLCContents]. *)
Class FailHTLCContents (E : Type) := {
  FailMessage : Type;
  to_message : E -> Z -> FailMessage;
  to_inbound_htlc_state : E -> InboundHTLCState;
  to_htlc_update_awaiting_ack : E -> Z -> HTLCUpdateAwaitingACK;
}.
#[export] Instance fail_packet_contents : FailHTLCContents OnionErrorPacket := {|
  FailMessage := UpdateFailHTLC;
  to_message self htlc_id := mkUpdateFail htlc_id self;
  to_inbound_htlc_state self := LocalRemoved (FailRelay self);
  to_htlc_update_awaiting_ack self htlc_id := FailHTLC htlc_id self;
|}.
#[export] Instance fail_malformed_contents : FailHTLCContents (bytes * Z) := {|
  FailMessage := UpdateFailMalformedHTLC;
  to_message self htlc_id := mkUpdateFailMalformed htlc_id self.1 self.2;
  to_inbound_htlc_state self := LocalRemoved (FailMalformed self.1 self.2);
  to_htlc_update_awaiting_ack self htlc_id := FailMalformedHTLC htlc_id self.2 self.1;
|}.

(** The scan of [fail_htlc] for the index of the HTLC. *)
Fixpoint find_committed (htlc_id : Z) (idx : nat) (htlcs : list InboundHTLCOutput) (found : option nat)
    : result ChannelError (option nat) :=
  match htlcs with
  | [] => Ok found
  | htlc :: htlcs =>
      if in_htlc_id htlc =? htlc_id then
        match in_state htlc with
        | InboundCommitted _ => find_committed htlc_id (S idx) htlcs (Some idx)
        | LocalRemoved _ => Err (Ignore AlreadyResolved)
        | _ => Err (Ignore NoSuchPendingHTLC)
        end
      else find_committed htlc_id (S idx) htlcs found
  end.

Definition fail_htlc {E} `{FailHTLCContents E} (htlc_id : Z) (err_contents : E) (force_holding_cell : bool)
    : Chan ChannelError (option FailMessage) :=
  state ← get_context channel_state;
  assert_that (is_channel_ready state) ;;
  found ← check (fun c => mret (find_committed htlc_id 0 (pending_inbound_htlcs (context c)) None));
  match found with
  | None => fail (Ignore NoSuchPendingHTLC)
  | Some pending_idx =>
      if force_holding_cell || negb (can_generate_new_commitment state) then
        updates ← get_context holding_cell_htlc_updates;
        match find_awaiting htlc_id updates with
        | Some (ClaimHTLC _ _ _) => fail (Ignore AlreadyClaimed)
        | Some _ => fail (Ignore AlreadyFailing)
        | None =>
            update (with_holding_cell (updates ++ [to_htlc_update_awaiting_ack err_contents htlc_id])) ;;
            mret None
        end
      else
        set_inbound_state pending_idx (to_inbound_htlc_state err_contents) ;;
        mret (Some (to_message err_contents htlc_id))
  end.

(** [queue_fail_htlc] and [queue_fail_malformed_htlc] *)
Definition queue_fail {E} `{FailHTLCContents E} (htlc_id : Z) (err_contents : E) : Chan ChannelError unit :=
  msg_opt ← fail_htlc htlc_id err_contents true;
  assert_that (match msg_opt with None => true | Some _ => false end).
Definition queue_fail_htlc (htlc_id : Z) (err_packet : OnionErrorPacket) : Chan ChannelError unit :=
  queue_fail htlc_id err_packet.
Definition queue_fail_malformed_htlc (htlc_id failure_code : Z) (sha256_of_onion : bytes)
    : Chan ChannelError unit :=
  queue_fail htlc_id (sha256_of_onion, failure_code).

(** ** The peer's updates *)

Definition update_add_htlc (env : Env) (msg : UpdateAddHTLC) : Chan ChannelError unit :=
  state ← get_context channel_state;
  bail_when (is_remote_stfu_sent state || is_quiescent state) (WarnAndDisconnect WhileQuiescent) ;;
  bail_when (negb (is_channel_ready state)) (Close NotOperational) ;;
  bail_when (is_remote_shutdown_sent state) (Close NotOperational) ;;
  bail_when (is_peer_disconnected state) (Close NeedsReestablish) ;;
  bail_when (add_amount_msat msg =? 0) (Close ZeroAmountAdd) ;;
  minimum ← get_context (fun c => our_htlc_minimum_msat (limits c));
  bail_when (add_amount_msat msg <? minimum) (Close BelowOurMinimum) ;;
  next_id ← get_context next_counterparty_htlc_id;
  bail_when (negb (next_id =? add_htlc_id msg)) (Close SkippedHTLCId) ;;
  bail_when (500000000 <=? add_cltv_expiry msg) (Close CltvInSeconds) ;;
  check (fun c => try_for_each (fun funding =>
    validate_update_add_htlc (context c) funding msg (fee_estimator env)) (funding c :: pending_funding c)) ;;
  update (fun c => with_next_counterparty_htlc_id (next_counterparty_htlc_id c + 1)%u64 c) ;;
  update (fun c => with_inbound (pending_inbound_htlcs c ++
    [mkInbound (add_htlc_id msg) (add_amount_msat msg) (add_cltv_expiry msg) (add_payment_hash msg)
       (RemoteAnnounced (Pending msg))]) c).

(** The HTLC as it was, with the list in which it is marked. *)
Fixpoint mark_removed (htlc_id : Z) (outcome : OutboundHTLCOutcome) (htlcs : list OutboundHTLCOutput)
    : result ChannelError (OutboundHTLCOutput * list OutboundHTLCOutput) :=
  match htlcs with
  | [] => Err (Close RemovedUnknown)
  | htlc :: htlcs =>
      if out_htlc_id htlc =? htlc_id then
        if match outcome with
           | Success preimage _ => bool_decide (sha256 preimage <> out_payment_hash htlc)
           | Failure _ => false
           end then Err (Close WrongPreimage)
        else match out_state htlc with
             | LocalAnnounced _ => Err (Close RemovedBeforeCommitted)
             | OutboundCommitted =>
                 let htlc := with_out_state (RemoteRemoved outcome) htlc in Ok (htlc, htlc :: htlcs)
             | AwaitingRemoteRevokeToRemove _ | AwaitingRemovedRemoteRevoke _ | RemoteRemoved _ =>
                 Err (Close RemovedTwice)
             end
      else '(found, htlcs) ← mark_removed htlc_id outcome htlcs; Ok (found, htlc :: htlcs)
  end.

Definition mark_outbound_htlc_removed (htlc_id : Z) (outcome : OutboundHTLCOutcome)
    : Chan ChannelError OutboundHTLCOutput :=
  '(htlc, htlcs) ← check (fun c => mret (mark_removed htlc_id outcome (pending_outbound_htlcs (context c))));
  update (with_outbound htlcs) ;; mret htlc.

(** The checks that open the handlers of the three removal messages. *)
Definition check_removal_allowed : Chan ChannelError unit :=
  state ← get_context channel_state;
  bail_when (is_remote_stfu_sent state || is_quiescent state) (WarnAndDisconnect WhileQuiescent) ;;
  bail_when (negb (is_channel_ready state)) (Close NotOperational) ;;
  bail_when (is_peer_disconnected state) (Close NeedsReestablish).

Definition update_fulfill_htlc (msg : UpdateFulfillHTLC)
    : Chan ChannelError (HTLCSource * Z * option Z * option Z) :=
  check_removal_allowed ;;
  htlc ← mark_outbound_htlc_removed (fulfill_htlc_id msg)
           (Success (fulfill_payment_preimage msg) (fulfill_attribution_data msg));
  mret (out_source htlc, out_amount_msat htlc, skimmed_fee_msat (out_extras htlc), out_send_timestamp htlc).

Definition update_fail_htlc (msg : UpdateFailHTLC) (fail_reason : HTLCFailReason) : Chan ChannelError unit :=
  check_removal_allowed ;;
  mark_outbound_htlc_removed (fail_htlc_id msg) (Failure fail_reason) ;; mret tt.

Definition update_fail_malformed_htlc (msg : UpdateFailMalformedHTLC) (fail_reason : HTLCFailReason)
    : Chan ChannelError unit :=
  check_removal_allowed ;;
  mark_outbound_htlc_removed (malformed_htlc_id msg) (Failure fail_reason) ;; mret tt.

(** The message is its feerate. *)
Definition update_fee (env : Env) (feerate : Z) : Chan ChannelError unit :=
  outbound ← get (fun c => funding_is_outbound (funding c));
  bail_when outbound (Close NotTheFunder) ;;
  state ← get_context channel_state;
  bail_when (is_peer_disconnected state) (Close NeedsReestablish) ;;
  bail_when (is_remote_stfu_sent state || is_quiescent state) (WarnAndDisconnect WhileQuiescent) ;;
  ct ← get (fun c => get_channel_type (funding c));
  bail_when (supports_anchor_zero_fee_commitments ct) (WarnAndDisconnect ZeroFeeChannelUpdate) ;;
  check (fun c => try_for_each (fun funding => mret (check_remote_fee (get_channel_type funding)
    (fee_estimator env) feerate (Some (feerate_per_kw (context c))))) (funding c :: pending_funding c)) ;;
  update (with_pending_update_fee (Some (feerate, FeeRemoteAnnounced))) ;;
  update (fun c => with_update_time_counter (wrapping 32 (update_time_counter c + 1)) c).

(** ** The peer's commitment_signed *)

Definition commitment_signed_check_state : Chan ChannelError unit :=
  state ← get_context channel_state;
  bail_when (is_quiescent state) (WarnAndDisconnect WhileQuiescent) ;;
  bail_when (negb (is_channel_ready state)) (Close NotOperational) ;;
  bail_when (is_peer_disconnected state) (Close NeedsReestablish) ;;
  closing ← get_context closing_fee_sent;
  bail_when (is_both_sides_shutdown state && closing) (Close ClosingInProgress).

(** What the peer's signature does to the updates it covers. *)
Definition signed_inbound_htlc (htlc : InboundHTLCOutput) : InboundHTLCOutput :=
  match in_state htlc with
  | RemoteAnnounced htlc_resolution => with_in_state (AwaitingRemoteRevokeToAnnounce htlc_resolution) htlc
  | _ => htlc
  end.
Definition signed_outbound_htlc (htlc : OutboundHTLCOutput) : OutboundHTLCOutput :=
  match out_state htlc with
  | RemoteRemoved outcome => with_out_state (AwaitingRemoteRevokeToRemove outcome) htlc
  | _ => htlc
  end.
Definition is_remote_announced (htlc : InboundHTLCOutput) : bool :=
  match in_state htlc with RemoteAnnounced _ => true | _ => false end.
Definition is_remote_removed (htlc : OutboundHTLCOutput) : bool :=
  match out_state htlc with RemoteRemoved _ => true | _ => false end.
Definition claimed_htlc (htlc : OutboundHTLCOutput) : option (SentHTLCId * bytes) :=
  match out_state htlc with
  | RemoteRemoved (Success preimage _) => Some (sent_htlc_id (out_source htlc), preimage)
  | _ => None
  end.
Definition fee_remote_announced (pending : option (Z * FeeUpdateState)) : bool :=
  match pending with Some (_, FeeRemoteAnnounced) => true | _ => false end.
Definition signed_fee (pending : option (Z * FeeUpdateState)) : option (Z * FeeUpdateState) :=
  match pending with
  | Some (feerate, FeeRemoteAnnounced) => Some (feerate, FeeAwaitingRemoteRevokeToAnnounce)
  | _ => pending
  end.

Definition with_claimed_htlcs (claimed : list (SentHTLCId * bytes)) (step : ChannelMonitorUpdateStep)
    : ChannelMonitorUpdateStep :=
  match step with
  | LatestHolderCommitmentTXInfo tx outputs _ sources => LatestHolderCommitmentTXInfo tx outputs claimed sources
  | LatestHolderCommitment txs data _ => LatestHolderCommitment txs data claimed
  | _ => step
  end.

Definition commitment_signed_update_monitor (env : Env) (step : ChannelMonitorUpdateStep)
    : Chan ChannelError (option ChannelMonitorUpdate) :=
  point ← get holder_commitment_point;
  match advance (holder_signer env) point with
  | Err _ => fail (Close CannotAdvancePoint)
  | Ok point =>
      modify (with_holder_commitment_point point) ;;
      need_commitment ← get_context (fun c => fee_remote_announced (pending_update_fee c) ||
        existsb is_remote_announced (pending_inbound_htlcs c) ||
        existsb is_remote_removed (pending_outbound_htlcs c));
      claimed_htlcs ← get_context (fun c => omap claimed_htlc (pending_outbound_htlcs c));
      update (fun c => with_pending_update_fee (signed_fee (pending_update_fee c)) c) ;;
      update (fun c => with_inbound (map signed_inbound_htlc (pending_inbound_htlcs c)) c) ;;
      update (fun c => with_outbound (map signed_outbound_htlc (pending_outbound_htlcs c)) c) ;;
      id ← bump_monitor_update_id;
      let monitor_update := mkMonitorUpdate id [with_claimed_htlcs claimed_htlcs step] in
      update (with_expecting_peer_commitment_signed false) ;;
      update (with_resend_order CommitmentFirst) ;;
      state ← get_context channel_state;
      let need_commitment_signed := need_commitment && negb (is_awaiting_remote_revoke state) in
      if is_monitor_update_in_progress state then
        update (with_monitor_pending_revoke_and_ack true) ;;
        monitor_update ←
          (if need_commitment_signed then
             update (with_monitor_pending_commitment_signed true) ;; append_commitment monitor_update
           else mret monitor_update);
        push_ret_blockable_mon_update monitor_update
      else
        monitor_update ←
          (if need_commitment_signed then append_commitment monitor_update else mret monitor_update);
        monitor_updating_paused true need_commitment_signed false [] [] [] ;;
        push_ret_blockable_mon_update monitor_update
  end.

Definition commitment_signed (env : Env) (msg : CommitmentSigned)
    : Chan ChannelError (option ChannelMonitorUpdate) :=
  commitment_signed_check_state ;;
  pending ← get pending_funding;
  bail_when (bool_decide (pending <> [])) (Close BatchExpected) ;;
  match cs_funding_txid msg with
  | Some funding_txid =>
      locked_funding_txid ← reading (fun c => unwrap (get_funding_txid (funding c)));
      bail_when (bool_decide (funding_txid <> locked_funding_txid)) (Ignore StaleFundingTxid)
  | None => mret tt
  end ;;
  '(commitment_tx, htlcs) ← check (fun c => validate_commitment_signed (holder_signer env) (context c)
    (funding c) (next_transaction_number (holder_commitment_point c))
    (next_point (holder_commitment_point c)) msg (fee_estimator env));
  sources ← reading (fun _ => nondust_sources true htlcs);
  commitment_signed_update_monitor env (LatestHolderCommitmentTXInfo commitment_tx
    (map (fun '(htlc, source) => (htlc, None, source)) (dust_htlcs htlcs)) [] sources).

(** The batch by its funding txids; a [BTreeMap] in the source. *)
Fixpoint batch_messages (batch : list CommitmentSigned) (messages : list (bytes * CommitmentSigned))
    : result ChannelError (list (bytes * CommitmentSigned)) :=
  match batch with
  | [] => Ok messages
  | msg :: batch =>
      match cs_funding_txid msg with
      | None => Err (Close BatchWithoutTxid)
      | Some funding_txid =>
          if decide (funding_txid ∈ messages.*1) then Err (Close BatchDuplicateTxid)
          else batch_messages batch (messages ++ [(funding_txid, msg)])
      end
  end.

Definition validate_batch (env : Env) (c : FundedChannel) (messages : list (bytes * CommitmentSigned))
    (funding : FundingScope)
    : run (result ChannelError
             (HolderCommitmentTransaction * list (HTLCOutputInCommitment * option HTLCSource))) :=
  funding_txid ←? lift_run (unwrap (get_funding_txid funding));
  '(_, msg) ←? Return (ok_or (snd <$> list_find (fun entry => entry.1 = funding_txid) messages)
                         (Close BatchIncomplete));
  validate_commitment_signed (holder_signer env) (context c) funding
    (next_transaction_number (holder_commitment_point c)) (next_point (holder_commitment_point c)) msg
    (fee_estimator env).

Fixpoint try_map {E A B} (f : A -> run (result E B)) (l : list A) : run (result E (list B)) :=
  match l with
  | [] => mret (Ok [])
  | x :: l => y ←? f x; ys ←? try_map f l; mret (Ok (y :: ys))
  end.

Definition commitment_signed_batch (env : Env) (batch : list CommitmentSigned)
    : Chan ChannelError (option ChannelMonitorUpdate) :=
  commitment_signed_check_state ;;
  messages ← check (fun _ => mret (batch_messages batch []));
  validated ← check (fun c => try_map (validate_batch env c messages) (funding c :: pending_funding c));
  '(_, htlcs) ← reading (fun _ => unwrap (head validated));
  sources ← reading (fun _ => nondust_sources true htlcs);
  commitment_signed_update_monitor env
    (LatestHolderCommitment (map fst validated) (mkHTLCData sources (dust_htlcs htlcs)) []).

(** ** The holding cell *)

(** What one drained update contributes: the HTLC to fail backwards if any, the
    monitor steps, and whether it produced a message. *)
Definition free_holding_cell_update (env : Env) (htlc_update : HTLCUpdateAwaitingACK)
    : Chan ChannelError (list (HTLCSource * bytes) * list ChannelMonitorUpdateStep * bool) :=
  match htlc_update with
  | AddHTLC amount cltv hash source onion_routing_packet extras =>
      sent ← catch (send_htlc env amount cltv hash source onion_routing_packet false extras);
      match sent with
      | Ok _ => mret ([], [], true)
      | Err _ => mret ([(source, hash)], [], false)
      end
  | ClaimHTLC payment_preimage attribution_data htlc_id =>
      fulfill ← get_update_fulfill_htlc htlc_id payment_preimage None attribution_data;
      match fulfill with
      | NewClaim monitor_update _ _ => mret ([], updates monitor_update, true)
      | DuplicateClaim => panic
      end
  | FailHTLC htlc_id err_packet =>
      res ← catch (fail_htlc htlc_id err_packet false);
      match res with
      | Ok _ => mret ([], [], true)
      | Err (Ignore _) => mret ([], [], false)
      | Err _ => panic
      end
  | FailMalformedHTLC htlc_id failure_code sha256_of_onion =>
      res ← catch (fail_htlc htlc_id (sha256_of_onion, failure_code) false);
      match res with
      | Ok _ => mret ([], [], true)
      | Err (Ignore _) => mret ([], [], false)
      | Err _ => panic
      end
  end.

Fixpoint free_holding_cell_updates (env : Env) (htlc_updates : list HTLCUpdateAwaitingACK)
    : Chan ChannelError (list (HTLCSource * bytes) * list ChannelMonitorUpdateStep * bool) :=
  match htlc_updates with
  | [] => mret ([], [], false)
  | htlc_update :: htlc_updates =>
      '(fails, steps, sent) ← free_holding_cell_update env htlc_update;
      '(fails', steps', sent') ← free_holding_cell_updates env htlc_updates;
      mret (fails ++ fails', steps ++ steps', sent || sent')
  end.

Definition free_holding_cell_htlcs (env : Env)
    : Chan ChannelError (option ChannelMonitorUpdate * list (HTLCSource * bytes)) :=
  state ← get_context channel_state;
  assert_that (is_channel_ready state) ;;
  assert_that (negb (is_monitor_update_in_progress state)) ;;
  assert_that (negb (is_quiescent state)) ;;
  htlc_updates ← get_context holding_cell_htlc_updates;
  held_fee ← get_context holding_cell_update_fee;
  if negb (bool_decide (htlc_updates = [])) || bool_decide (is_Some held_fee) then
    id ← get_context (fun c => latest_monitor_update_id c + 1)%u64;
    update (with_holding_cell []) ;;
    '(htlcs_to_fail, steps, sent) ← free_holding_cell_updates env htlc_updates;
    fee_msg ← match held_fee with
              | Some feerate =>
                  update (with_holding_cell_update_fee None) ;; send_update_fee env feerate false
              | None => mret None
              end;
    if negb sent && bool_decide (fee_msg = None) then mret (None, htlcs_to_fail)
    else
      monitor_update ← append_commitment (mkMonitorUpdate id steps);
      monitor_updating_paused false true false [] [] [] ;;
      monitor_update ← push_ret_blockable_mon_update monitor_update;
      mret (monitor_update, htlcs_to_fail)
  else mret (None, []).

Definition maybe_free_holding_cell_htlcs (env : Env)
    : Chan ChannelError (option ChannelMonitorUpdate * list (HTLCSource * bytes)) :=
  state ← get_context channel_state;
  if is_channel_ready state && can_generate_new_commitment state then free_holding_cell_htlcs env
  else mret (None, []).

(** ** The peer's revoke_and_ack *)

Definition revoke_and_ack_check_state : Chan ChannelError unit :=
  state ← get_context channel_state;
  bail_when (is_quiescent state) (WarnAndDisconnect WhileQuiescent) ;;
  bail_when (negb (is_channel_ready state)) (Close NotOperational) ;;
  bail_when (is_peer_disconnected state) (Close NeedsReestablish) ;;
  closing ← get_context closing_fee_sent;
  bail_when (is_both_sides_shutdown state && closing) (Close ClosingInProgress).

(** The secret is checked and stored; its index is returned. *)
Definition accept_revocation (env : Env) (msg : RevokeAndACK) : Chan ChannelError Z :=
  revoke_and_ack_check_state ;;
  secret ← check (fun _ => mret (ok_or (secret_from_slice (raa_per_commitment_secret msg))
                                    (Close InvalidSecret)));
  current_point ← get_context counterparty_current_commitment_point;
  bail_when (match current_point with
             | Some point => bool_decide (from_secret_key secret <> point)
             | None => false
             end) (Close SecretPointMismatch) ;;
  state ← get_context channel_state;
  bail_when (negb (is_awaiting_remote_revoke state)) (Close UnexpectedRevocation) ;;
  number ← get_context (fun c => counterparty_next_commitment_transaction_number c + 1)%u64;
  bail_when (negb (validate_counterparty_revocation (holder_signer env) number secret))
    (Close SignerRejectedRevocation) ;;
  secrets ← check (fun c => mret (match provide_secret sha256 number (raa_per_commitment_secret msg)
                                          (commitment_secrets (context c)) with
                                  | Ok secrets => Ok secrets
                                  | Err _ => Err (Close SecretChainMismatch)
                                  end));
  update (with_commitment_secrets secrets) ;;
  mret number.

(** *** The HTLCs after a revocation *)

Definition HOLD_TIME_UNIT_MILLIS : Z := 100.
Definition hold_time_since (env : Env) (send_timestamp : option Z) : option Z :=
  t ← send_timestamp;
  now ← now env;
  mret (Z.min (saturating_sub now t / HOLD_TIME_UNIT_MILLIS) (umax 32)).

Definition is_local_removed (htlc : InboundHTLCOutput) : bool :=
  match in_state htlc with LocalRemoved _ => true | _ => false end.
Definition is_removed_revoked (htlc : OutboundHTLCOutput) : bool :=
  match out_state htlc with AwaitingRemovedRemoteRevoke _ => true | _ => false end.
Definition is_local_announced (htlc : OutboundHTLCOutput) : bool :=
  match out_state htlc with LocalAnnounced _ => true | _ => false end.

(** [value_to_self_msat_diff], an [i64], over the HTLCs that are dropped. *)
Definition inbound_diff (diff : Z) (htlc : InboundHTLCOutput) : Z :=
  match in_state htlc with
  | LocalRemoved (Fulfill _ _) => as_i64 (diff + as_i64 (in_amount_msat htlc))
  | _ => diff
  end.
Definition outbound_diff (diff : Z) (htlc : OutboundHTLCOutput) : Z :=
  match out_state htlc with
  | AwaitingRemovedRemoteRevoke (Success _ _) => as_i64 (diff - as_i64 (out_amount_msat htlc))
  | _ => diff
  end.
Definition value_to_self_msat_diff (inbound : list InboundHTLCOutput) (outbound : list OutboundHTLCOutput) : Z :=
  foldl outbound_diff (foldl inbound_diff 0 inbound) outbound.
Definition apply_diff (diff : Z) (f : FundingScope) : FundingScope :=
  with_value_to_self (wrapping 64 (as_i64 (as_i64 (value_to_self_msat f) + diff))) f.

Definition revoked_htlc (env : Env) (htlc : OutboundHTLCOutput) : option (HTLCSource * bytes * HTLCFailReason) :=
  match out_state htlc with
  | AwaitingRemovedRemoteRevoke (Failure reason) =>
      let reason := match hold_time_since env (out_send_timestamp htlc) with
                    | Some hold_time => set_hold_time hold_time reason
                    | None => reason
                    end in
      Some (out_source htlc, out_payment_hash htlc, reason)
  | _ => None
  end.
Definition finalized_htlc (htlc : OutboundHTLCOutput) : option (HTLCSource * option AttributionData) :=
  match out_state htlc with
  | AwaitingRemovedRemoteRevoke (Success _ attribution_data) => Some (out_source htlc, attribution_data)
  | _ => None
  end.

(** The promotion of an inbound HTLC, and what the rest of the node learns of it. *)
Definition revoked_inbound_htlc (htlc : InboundHTLCOutput) : InboundHTLCOutput :=
  match in_state htlc with
  | AwaitingRemoteRevokeToAnnounce resolution => with_in_state (AwaitingAnnouncedRemoteRevoke resolution) htlc
  | AwaitingAnnouncedRemoteRevoke (Resolved (StatusFail (Relay msg))) =>
      with_in_state (LocalRemoved (FailRelay (fail_packet msg))) htlc
  | AwaitingAnnouncedRemoteRevoke (Resolved (StatusFail (Malformed msg))) =>
      with_in_state (LocalRemoved (FailMalformed (malformed_sha256_of_onion msg)
                                     (malformed_failure_code msg))) htlc
  | AwaitingAnnouncedRemoteRevoke (Resolved (StatusForward _)) => with_in_state (InboundCommitted Legacy) htlc
  | AwaitingAnnouncedRemoteRevoke (Pending update_add_htlc) =>
      with_in_state (InboundCommitted (WithOnion update_add_htlc)) htlc
  | _ => htlc
  end.
Definition forward_info (htlc : InboundHTLCOutput) : option (PendingHTLCInfo * Z) :=
  match in_state htlc with
  | AwaitingAnnouncedRemoteRevoke (Resolved (StatusForward info)) => Some (info, in_htlc_id htlc)
  | _ => None
  end.
Definition committed_add (htlc : InboundHTLCOutput) : option UpdateAddHTLC :=
  match in_state htlc with
  | AwaitingAnnouncedRemoteRevoke (Pending update_add_htlc) => Some update_add_htlc
  | _ => None
  end.
Definition inbound_requires_commitment (htlc : InboundHTLCOutput) : bool :=
  match in_state htlc with
  | AwaitingRemoteRevokeToAnnounce _ => true
  | AwaitingAnnouncedRemoteRevoke (Resolved (StatusFail _)) => true
  | _ => false
  end.

Definition revoked_outbound_htlc (htlc : OutboundHTLCOutput) : OutboundHTLCOutput :=
  match out_state htlc with
  | LocalAnnounced _ => with_out_state OutboundCommitted htlc
  | AwaitingRemoteRevokeToRemove outcome => with_out_state (AwaitingRemovedRemoteRevoke outcome) htlc
  | _ => htlc
  end.
Definition outbound_requires_commitment (htlc : OutboundHTLCOutput) : bool :=
  match out_state htlc with AwaitingRemoteRevokeToRemove _ => true | _ => false end.
Definition release_paths (msg : RevokeAndACK) (htlc : OutboundHTLCOutput)
    : list (StaticInvoice * BlindedMessagePath) :=
  omap (fun '(htlc_id, blinded_path) =>
    if out_htlc_id htlc =? htlc_id then
      match static_invoice (out_source htlc), hold_htlc (out_extras htlc) with
      | Some invoice, Some _ => Some (invoice, blinded_path)
      | _, _ => None
      end
    else None) (raa_release_htlc_message_paths msg).

(** The fee update after a revocation; the result is [require_commitment]. *)
Definition revoke_fee {E} : Chan E bool :=
  pending ← get_context pending_update_fee;
  match pending with
  | Some (feerate, FeeOutbound) =>
      update (with_feerate_per_kw feerate) ;;
      update (with_pending_update_fee None) ;;
      update (with_expecting_peer_commitment_signed true) ;;
      mret false
  | Some (feerate, FeeAwaitingRemoteRevokeToAnnounce) =>
      update (with_feerate_per_kw feerate) ;;
      update (with_pending_update_fee None) ;;
      mret true
  | Some (_, FeeRemoteAnnounced) | None => mret false
  end.

(** [return_with_htlcs_to_fail!] *)
Definition release_or_block {E} (release_monitor : bool) (monitor_update : ChannelMonitorUpdate)
    : Chan E (option ChannelMonitorUpdate) :=
  if negb release_monitor then
    update (fun c => with_blocked_monitor_updates (blocked_monitor_updates c ++ [monitor_update]) c) ;;
    mret None
  else mret (Some monitor_update).

(** The lists of HTLCs, the balances and the fee step forward. *)
Definition step_htlcs (env : Env)
    : Chan ChannelError (bool * list (PendingHTLCInfo * Z) * list (HTLCSource * bytes * HTLCFailReason) *
                         list (HTLCSource * option AttributionData) * list UpdateAddHTLC) :=
  inbound ← get_context pending_inbound_htlcs;
  outbound ← get_context pending_outbound_htlcs;
  let kept_inbound := List.filter (fun htlc => negb (is_local_removed htlc)) inbound in
  let kept_outbound := List.filter (fun htlc => negb (is_removed_revoked htlc)) outbound in
  update (with_inbound (map revoked_inbound_htlc kept_inbound)) ;;
  update (with_outbound (map revoked_outbound_htlc kept_outbound)) ;;
  update (fun c => with_expecting_peer_commitment_signed (expecting_peer_commitment_signed c ||
    existsb is_local_removed inbound || existsb is_local_announced kept_outbound) c) ;;
  let diff := value_to_self_msat_diff inbound outbound in
  modify (fun c => mkChannel (context c) (apply_diff diff (funding c)) (map (apply_diff diff) (pending_funding c))
                     (holder_commitment_point c)) ;;
  fee_requires ← revoke_fee;
  mret (existsb inbound_requires_commitment kept_inbound ||
        existsb outbound_requires_commitment kept_outbound || fee_requires,
        omap forward_info kept_inbound, omap (revoked_htlc env) outbound, omap finalized_htlc outbound,
        omap committed_add kept_inbound).

(** The answer to a revocation: the holding cell is freed, or else the updates
    that waited for the revocation are committed to.  The result is the update
    with the steps added and whether there is a commitment to send. *)
Definition commit_after_revocation (env : Env) (monitor_update : ChannelMonitorUpdate)
    (require_commitment : bool)
    : Chan ChannelError (ChannelMonitorUpdate * bool * list (HTLCSource * bytes)) :=
  '(freed, htlcs_to_fail) ← maybe_free_holding_cell_htlcs env;
  match freed with
  | Some additional_update =>
      update (with_latest_monitor_update_id (update_id monitor_update)) ;;
      mret (mkMonitorUpdate (update_id monitor_update) (updates monitor_update ++ updates additional_update),
            true, htlcs_to_fail)
  | None =>
      if require_commitment then
        monitor_update ← append_commitment monitor_update;
        mret (monitor_update, true, htlcs_to_fail)
      else mret (monitor_update, false, htlcs_to_fail)
  end.

Definition revoke_and_ack (env : Env) (msg : RevokeAndACK) (hold_mon_update : bool)
    : Chan ChannelError (list (HTLCSource * bytes) * list (StaticInvoice * BlindedMessagePath) *
                         option ChannelMonitorUpdate) :=
  number ← accept_revocation env msg;
  id ← bump_monitor_update_id;
  let monitor_update := mkMonitorUpdate id [CommitmentSecret number (raa_per_commitment_secret msg)] in
  update (fun c => with_channel_state (clear_awaiting_remote_revoke (channel_state c)) c) ;;
  update (with_sent_message_awaiting_response None) ;;
  update (fun c => with_counterparty_current_commitment_point (counterparty_next_commitment_point c) c) ;;
  update (with_counterparty_next_commitment_point (Some (raa_next_per_commitment_point msg))) ;;
  update (fun c => with_counterparty_number (counterparty_next_commitment_transaction_number c - 1)%u64 c) ;;
  update (fun c => if decide (announcement_sigs_state c = SigsCommitted)
                   then with_announcement_sigs_state PeerReceived c else c) ;;
  static_invoices ← get_context (fun c => mjoin (map (release_paths msg)
    (List.filter (fun htlc => negb (is_removed_revoked htlc)) (pending_outbound_htlcs c))));
  '(require_commitment, to_forward_infos, revoked_htlcs, finalized_claimed_htlcs, pending_update_adds) ←
    step_htlcs env;
  release_monitor ← get_context (fun c => bool_decide (blocked_monitor_updates c = []) && negb hold_mon_update);
  update (fun c => with_monitor_pending_update_adds (monitor_pending_update_adds c ++ pending_update_adds) c) ;;
  '(monitor_update, committed, htlcs_to_fail) ← commit_after_revocation env monitor_update require_commitment;
  monitor_updating_paused false committed false to_forward_infos revoked_htlcs finalized_claimed_htlcs ;;
  released ← release_or_block release_monitor monitor_update;
  mret (htlcs_to_fail, static_invoices, released).

(** ** Sending and resending *)

Definition get_last_revoke_and_ack {E} (env : Env) (path_for_release_htlc : Z -> BlindedMessagePath)
    : Chan E (option RevokeAndACK) :=
  modify (fun c => with_holder_commitment_point
    (try_resolve_pending (holder_signer env) (holder_commitment_point c)) c) ;;
  point ← get holder_commitment_point;
  let per_commitment_secret :=
    release_commitment_secret (holder_signer env) (next_transaction_number point + 2)%u64 in
  match per_commitment_secret, can_advance point with
  | Some secret, true =>
      held ← get_context (fun c =>
        List.filter (fun htlc => should_hold_htlc (in_state htlc)) (pending_inbound_htlcs c));
      update (with_signer_pending_revoke_and_ack false) ;;
      mret (Some (mkRevokeAndACK secret (next_point point)
        (map (fun htlc => (in_htlc_id htlc, path_for_release_htlc (in_htlc_id htlc))) held)))
  | _, _ => update (with_signer_pending_revoke_and_ack true) ;; mret None
  end.

(** [ChannelError::Ignore] when the signer is not ready. *)
Definition send_commitment_no_state_update_for_funding (env : Env) (c : FundedChannel)
    (funding : FundingScope) : run (result ChannelError CommitmentSigned) :=
  point ←? lift_run (unwrap (counterparty_next_commitment_point (context c)));
  commitment_data ←? lift_run (build_commitment_data (context c) funding
    (counterparty_next_commitment_transaction_number (context c)) point false true);
  res ←? lift_run (sign_counterparty_commitment (holder_signer env) (channel_transaction_parameters funding)
    (cd_tx commitment_data) (inbound_htlc_preimages commitment_data)
    (outbound_htlc_preimages commitment_data));
  '(signature, htlc_signatures) ←? Return (ok_or res (Ignore SigningFailed));
  mret (Ok (mkCommitmentSigned signature htlc_signatures (get_funding_txid funding))).

Definition send_commitment_no_state_update (env : Env) (c : FundedChannel)
    : run (result ChannelError (list CommitmentSigned)) :=
  try_map (send_commitment_no_state_update_for_funding env c) (funding c :: pending_funding c).

(** The messages for the updates the last commitment made. *)
Definition add_message (htlc : OutboundHTLCOutput) : option UpdateAddHTLC :=
  match out_state htlc with
  | LocalAnnounced onion_packet =>
      Some (mkUpdateAdd (out_htlc_id htlc) (out_amount_msat htlc) (out_payment_hash htlc)
              (out_cltv_expiry htlc) onion_packet (out_extras htlc))
  | _ => None
  end.
Definition fulfill_message (htlc : InboundHTLCOutput) : option UpdateFulfillHTLC :=
  match in_state htlc with
  | LocalRemoved (Fulfill preimage attribution_data) =>
      Some (mkUpdateFulfill (in_htlc_id htlc) preimage attribution_data)
  | _ => None
  end.
Definition fail_message (htlc : InboundHTLCOutput) : option UpdateFailHTLC :=
  match in_state htlc with
  | LocalRemoved (FailRelay err_packet) => Some (mkUpdateFail (in_htlc_id htlc) err_packet)
  | _ => None
  end.
Definition fail_malformed_message (htlc : InboundHTLCOutput) : option UpdateFailMalformedHTLC :=
  match in_state htlc with
  | LocalRemoved (FailMalformed sha256_of_onion failure_code) =>
      Some (mkUpdateFailMalformed (in_htlc_id htlc) sha256_of_onion failure_code)
  | _ => None
  end.

(** [None] when the signer is not ready. *)
Definition get_last_commitment_update_for_send {E} (env : Env) : Chan E (option CommitmentUpdate) :=
  outbound ← get_context pending_outbound_htlcs;
  inbound ← get_context pending_inbound_htlcs;
  fee ← get (fun c => if funding_is_outbound (funding c) then fst <$> pending_update_fee (context c) else None);
  signed ← reading (send_commitment_no_state_update env);
  match signed with
  | Ok commitment_signed =>
      update (with_signer_pending_commitment_update false) ;;
      mret (Some (mkCommitmentUpdate (omap add_message outbound) (omap fulfill_message inbound)
        (omap fail_message inbound) (omap fail_malformed_message inbound) fee commitment_signed))
  | Err _ => update (with_signer_pending_commitment_update true) ;; mret None
  end.

Record MonitorRestoreUpdates := mkRestore {
  restored_raa : option RevokeAndACK;
  restored_commitment_update : option CommitmentUpdate;
  commitment_order : RAACommitmentOrder;
  accepted_htlcs : list (PendingHTLCInfo * Z);
  failed_htlcs : list (HTLCSource * bytes * HTLCFailReason);
  finalized_claimed_htlcs : list (HTLCSource * option AttributionData);
  pending_update_adds : list UpdateAddHTLC;
  committed_outbound_htlc_sources : list (HTLCPreviousHopData * Z);
}.

(** When the order in which the two messages were generated cannot be kept
    because the signer holds back the first, the second waits for it. *)
Definition hold_back_second {E} (raa : option RevokeAndACK) (commitment_update : option CommitmentUpdate)
    : Chan E (option RevokeAndACK * option CommitmentUpdate) :=
  order ← get_context resend_order;
  commitment_waits ← get_context signer_pending_commitment_update;
  raa ← (if decide (order = CommitmentFirst /\ commitment_waits = true /\ is_Some raa) then
           update (with_signer_pending_revoke_and_ack true) ;; mret None
         else mret raa);
  raa_waits ← get_context signer_pending_revoke_and_ack;
  commitment_update ←
    (if decide (order = RevokeAndACKFirst /\ raa_waits = true /\ is_Some commitment_update) then
       update (with_signer_pending_commitment_update true) ;; mret None
     else mret commitment_update);
  mret (raa, commitment_update).

Definition committed_source (htlc : OutboundHTLCOutput) : option (HTLCPreviousHopData * Z) :=
  match out_state htlc with
  | LocalAnnounced _ =>
      prev_hop ← previous_hop_data (out_source htlc); mret (prev_hop, out_amount_msat htlc)
  | _ => None
  end.

(** Of a channel past its funding: what concerns the funding transaction, its
    signatures, [channel_ready] and the announcement is left out. *)
Definition monitor_updating_restored {E} (env : Env) (path_for_release_htlc : Z -> BlindedMessagePath)
    : Chan E MonitorRestoreUpdates :=
  state ← get_context channel_state;
  assert_that (is_monitor_update_in_progress state) ;;
  update (fun c => with_channel_state (clear_monitor_update_in_progress (channel_state c)) c) ;;
  blocked ← get_context blocked_monitor_updates;
  assert_that (bool_decide (length blocked = 0%nat)) ;;
  accepted ← get_context monitor_pending_forwards;
  update (with_monitor_pending_forwards []) ;;
  failed ← get_context monitor_pending_failures;
  update (with_monitor_pending_failures []) ;;
  finalized ← get_context monitor_pending_finalized_fulfills;
  update (with_monitor_pending_finalized_fulfills []) ;;
  adds ← get_context monitor_pending_update_adds;
  update (with_monitor_pending_update_adds []) ;;
  sources ← get_context (fun c => omap committed_source (pending_outbound_htlcs c));
  if is_peer_disconnected state then
    update (with_monitor_pending_revoke_and_ack false) ;;
    update (with_monitor_pending_commitment_signed false) ;;
    mret (mkRestore None None RevokeAndACKFirst accepted failed finalized adds sources)
  else
    send_raa ← get_context monitor_pending_revoke_and_ack;
    raa ← (if send_raa : bool then get_last_revoke_and_ack env path_for_release_htlc else mret None);
    send_commitment ← get_context monitor_pending_commitment_signed;
    commitment_update ←
      (if send_commitment : bool then get_last_commitment_update_for_send env else mret None);
    '(raa, commitment_update) ← hold_back_second raa commitment_update;
    update (with_monitor_pending_revoke_and_ack false) ;;
    update (with_monitor_pending_commitment_signed false) ;;
    order ← get_context resend_order;
    mret (mkRestore raa commitment_update order accepted failed finalized adds sources).

(** The part of [signer_maybe_unblocked] that resends for the commitment protocol. *)
Definition signer_maybe_unblocked {E} (env : Env) (path_for_release_htlc : Z -> BlindedMessagePath)
    : Chan E (option RevokeAndACK * option CommitmentUpdate * RAACommitmentOrder) :=
  modify (fun c => with_holder_commitment_point
    (try_resolve_pending (holder_signer env) (holder_commitment_point c)) c) ;;
  commitment_waits ← get_context signer_pending_commitment_update;
  commitment_update ←
    (if commitment_waits : bool then get_last_commitment_update_for_send env else mret None);
  raa_waits ← get_context signer_pending_revoke_and_ack;
  raa ← (if raa_waits : bool then get_last_revoke_and_ack env path_for_release_htlc else mret None);
  '(raa, commitment_update) ← hold_back_second raa commitment_update;
  update (fun c => if decide (is_Some raa) then with_monitor_pending_revoke_and_ack false c else c) ;;
  order ← get_context resend_order;
  mret (raa, commitment_update, order).

(** ** Disconnection *)

Definition disconnected_outbound_htlc (htlc : OutboundHTLCOutput) : OutboundHTLCOutput :=
  match out_state htlc with
  | RemoteRemoved _ => with_out_state OutboundCommitted htlc
  | _ => htlc
  end.

(** Of a channel past its funding, which can always be resumed. *)
Definition remove_uncommitted_htlcs_and_mark_paused {E} : Chan E unit :=
  state ← get_context channel_state;
  assert_that (negb (bool_decide (state = ShutdownComplete))) ;;
  update (with_sent_message_awaiting_response None) ;;
  if is_peer_disconnected state then mret tt
  else
    update (fun c => if decide (announcement_sigs_state c = MessageSent \/ announcement_sigs_state c = SigsCommitted)
                     then with_announcement_sigs_state NotSent c else c) ;;
    update (with_closing_fee_sent false) ;;
    inbound ← get_context pending_inbound_htlcs;
    update (with_inbound (List.filter (fun htlc => negb (is_remote_announced htlc)) inbound)) ;;
    update (fun c => with_next_counterparty_htlc_id
      (next_counterparty_htlc_id c - count_if is_remote_announced inbound)%u64 c) ;;
    update (fun c => if fee_remote_announced (pending_update_fee c) then with_pending_update_fee None c else c) ;;
    update (fun c => with_outbound (map disconnected_outbound_htlc (pending_outbound_htlcs c)) c) ;;
    update (fun c => with_channel_state (set_peer_disconnected (channel_state c)) c).

End operations.
