(* ===== verification/ChannelExample.v ===== *)
(** * A concrete channel between two in-memory signers

    Alice funded the channel; both sides are ready and no HTLC was sent yet.
    The examples of the following files run on it. *)

From Stdlib Require Import ZArith Lia Bool.
From S2P Require Import Prelude.
From S2P Require Import Features.
From S2P Require Import CommitmentSecrets.
From S2P Require Import Keys.
From S2P Require Import Order.
From S2P Require Import Scripts.
From S2P Require Import CommitmentTx.
From S2P Require Import TxBuilder.
From S2P Require Import ChannelState.
From S2P Require Import Channel.
From S2P Require Import Signer.
From S2P Require Import ChannelOps.

Local Open Scope Z_scope.

#[export] Instance toy_payloads : Payloads := {|
  OnionPacket := unit;
  HTLCSource := Z;
  StaticInvoice := unit;
  static_invoice _ := None;
  HTLCPreviousHopData := Z;
  previous_hop_data source := if 0 <? source then Some source else None;
  SentHTLCId := Z;
  sent_htlc_id source := source;
  OnionErrorPacket := bytes;
  AttributionData := bytes;
  HTLCFailReason := bytes;
  set_hold_time _ reason := reason;
  PendingHTLCInfo := unit;
  ForwardedHop := unit;
  BlindedMessagePath := unit;
  PaymentClaimDetails := unit;
|}.

Definition example_point (signer : InMemorySigner (bitcoin := toy_bitcoin)) (idx : Z) : Z :=
  returned (in_memory_per_commitment_point signer idx) 0.

Definition example_limits : ChannelLimits :=
  mkLimits 354 354 1000000000 1000000000 1 1 50 50 (FixedLimitMsat 50000000).

(** A peer [ours] facing [theirs], after the initial commitments. *)
Definition example_context (theirs : InMemorySigner (bitcoin := toy_bitcoin)) : ChannelContext :=
  mkContext example_limits (ChannelReady 0) NotSent 0 (INITIAL_COMMITMENT_NUMBER - 1) [] [] []
    RevokeAndACKFirst false false false [] [] [] [] false false None None 0 0 253 0 false false
    (Some (example_point theirs (INITIAL_COMMITMENT_NUMBER - 1)))
    (Some (example_point theirs INITIAL_COMMITMENT_NUMBER)) secrets_new None [].
Definition example_holder_point (ours : InMemorySigner (bitcoin := toy_bitcoin)) : HolderCommitmentPoint :=
  mkHolderPoint (INITIAL_COMMITMENT_NUMBER - 1) (Some (example_point ours INITIAL_COMMITMENT_NUMBER))
    (example_point ours (INITIAL_COMMITMENT_NUMBER - 1))
    (Some (example_point ours (INITIAL_COMMITMENT_NUMBER - 2))) None None.

Definition alice_channel : FundedChannel :=
  mkChannel (example_context example_bob) (mkFunding 600000000 (Some 10000) 10000 alice_parameters) []
    (example_holder_point example_alice).
Definition bob_channel : FundedChannel :=
  mkChannel (example_context example_alice) bob_scope [] (example_holder_point example_bob).

Definition alice_env : Env :=
  mkEnv (fun _ => 253) (in_memory_channel_signer example_alice) (Some 1000).
Definition bob_env : Env :=
  mkEnv (fun _ => 253) (in_memory_channel_signer example_bob) (Some 1000).
