(* ===== verification/ChannelRuns.v ===== *)
(** * Runs of a channel

    The calls that drive a channel during its operation ([Op]): the local API of
    the channel manager, the peer's messages, the completion of monitor updates,
    the signer becoming ready and a disconnection.  A run is any sequence of
    calls with any arguments and any answers of the signer and the fee
    estimator, so what holds of every run holds against every peer.

    [ends m c Q] says that [m], started in [c], panics or ends with [Q].  The
    theorem of this file is about the numbering of monitor updates. *)

From Stdlib Require Import ZArith Lia Bool.
From S2P Require Import Prelude.
From S2P Require Import Features.
From S2P Require Import CommitmentSecrets.
From S2P Require Import Keys.
From S2P Require Import Order.
From S2P Require Import Scripts.
From S2P Require Import CommitmentTx.
From S2P Require Import TxBuilder.
From S2P Require Import ChannelState.
From S2P Require Import Channel.
From S2P Require Import Signer.
From S2P Require Import ChannelOps.
From S2P Require Import ChannelExample.

Local Open Scope Z_scope.
Local Open Scope channel_scope.

Section runs.
Context {bitcoin : Bitcoin} {scriptlib : ScriptLib} {payloads : Payloads}.
Context {bsearch : BinarySearch} {txhash : TxHash} {ecdsa : EcdsaLib}.

(** ** Calls *)

Inductive Op :=
| OpSend (amount : Z) (hash : bytes) (cltv : Z) (source : HTLCSource) (onion : OnionPacket)
    (skimmed : option Z) (hold accountable : bool) (trail ct : option bytes)
| OpQueueAdd (amount : Z) (hash : bytes) (cltv : Z) (source : HTLCSource) (onion : OnionPacket)
    (skimmed : option Z) (blinding : option PublicKey) (accountable : bool) (trail ct : option bytes)
| OpClaim (htlc_id : Z) (preimage : bytes) (info : option PaymentClaimDetails)
    (attribution_data : option AttributionData)
| OpQueueFail (htlc_id : Z) (packet : OnionErrorPacket)
| OpQueueFailMalformed (htlc_id failure_code : Z) (sha256_of_onion : bytes)
| OpQueueFee (feerate : Z)
| OpFreeHoldingCell
| OpRecvAdd (msg : UpdateAddHTLC)
| OpRecvFulfill (msg : UpdateFulfillHTLC)
| OpRecvFail (msg : UpdateFailHTLC) (reason : HTLCFailReason)
| OpRecvFailMalformed (msg : UpdateFailMalformedHTLC) (reason : HTLCFailReason)
| OpRecvFee (feerate : Z)
| OpRecvCommitmentSigned (msg : CommitmentSigned)
| OpRecvCommitmentSignedBatch (batch : list CommitmentSigned)
| OpRecvRevokeAndACK (msg : RevokeAndACK) (hold_mon_update : bool)
| OpUnblock
| OpRestored (path : Z -> BlindedMessagePath)
| OpSignerUnblocked (path : Z -> BlindedMessagePath)
| OpDisconnect.

(** A call, for the monitor updates it hands out. *)
Definition apply_op (env : Env) (op : Op) : Chan ChannelError (option ChannelMonitorUpdate) :=
  match op with
  | OpSend amount hash cltv source onion skimmed hold accountable trail ct =>
      send_htlc_and_commit env amount hash cltv source onion skimmed hold accountable trail ct
  | OpQueueAdd amount hash cltv source onion skimmed blinding accountable trail ct =>
      res ← catch (queue_add_htlc env amount hash cltv source onion skimmed blinding accountable trail ct);
      match res with Ok _ => mret None | Err e => fail (Ignore (SendFailed e)) end
  | OpClaim htlc_id preimage info attribution_data =>
      res ← get_update_fulfill_htlc_and_commit htlc_id preimage info attribution_data;
      mret (match res with NewCommittedClaim upd _ => Some upd | DuplicateCommittedClaim => None end)
  | OpQueueFail htlc_id packet => queue_fail_htlc htlc_id packet ;; mret None
  | OpQueueFailMalformed htlc_id code sha => queue_fail_malformed_htlc htlc_id code sha ;; mret None
  | OpQueueFee feerate => queue_update_fee env feerate ;; mret None
  | OpFreeHoldingCell => '(upd, _) ← maybe_free_holding_cell_htlcs env; mret upd
  | OpRecvAdd msg => update_add_htlc env msg ;; mret None
  | OpRecvFulfill msg => update_fulfill_htlc msg ;; mret None
  | OpRecvFail msg reason => update_fail_htlc msg reason ;; mret None
  | OpRecvFailMalformed msg reason => update_fail_malformed_htlc msg reason ;; mret None
  | OpRecvFee feerate => update_fee env feerate ;; mret None
  | OpRecvCommitmentSigned msg => commitment_signed env msg
  | OpRecvCommitmentSignedBatch batch => commitment_signed_batch env batch
  | OpRecvRevokeAndACK msg hold => '(_, _, upd) ← revoke_and_ack env msg hold; mret upd
  | OpUnblock => res ← unblock_next_blocked_monitor_update; mret (fst <$> res)
  | OpRestored path => monitor_updating_restored env path ;; mret None
  | OpSignerUnblocked path => signer_maybe_unblocked env path ;; mret None
  | OpDisconnect => remove_uncommitted_htlcs_and_mark_paused ;; mret None
  end.

(** The updates handed out along a run; a call that fails hands out none and the
    run goes on from the state it left. *)
Fixpoint run_ops (ops : list (Env * Op)) (c : FundedChannel)
    : run (list ChannelMonitorUpdate * FundedChannel) :=
  match ops with
  | [] => Return ([], c)
  | (env, op) :: ops =>
      '(res, c) ← apply_op env op c;
      '(upds, c) ← run_ops ops c;
      mret (match res with Ok (Some upd) => upd :: upds | _ => upds end, c)
  end.

(** ** Reasoning about calls *)

Definition ends {E A} (m : Chan E A) (c : FundedChannel) (Q : result E A -> FundedChannel -> Prop) : Prop :=
  forall r c', m c = Return (r, c') -> Q r c'.

Lemma ends_mono {E A} (m : Chan E A) c (Q Q' : result E A -> FundedChannel -> Prop) :
  ends m c Q -> (forall r c', Q r c' -> Q' r c') -> ends m c Q'.
Proof. intros H HQ r c' Hm. apply HQ, H, Hm. Qed.

Lemma ends_ret {E A} (a : A) c (Q : result E A -> _ -> Prop) : Q (Ok a) c -> ends (mret a) c Q.
Proof. intros H r c' [= <- <-]. done. Qed.
Lemma ends_bind {E A B} (m : Chan E A) (f : A -> Chan E B) c Q :
  ends m c (fun r c' => match r with Ok a => ends (f a) c' Q | Err e => Q (Err e) c' end) ->
  ends (m ≫= f) c Q.
Proof.
  intros H r c'. unfold mbind, Chan_bind. destruct (m c) as [[[a|e] c1]|] eqn:Hm; [| |done].
  - apply (H (Ok a) c1 Hm).
  - intros [= <- <-]. apply (H (Err e) c1 Hm).
Qed.
Lemma ends_get {E A} (f : FundedChannel -> A) c (Q : result E A -> _ -> Prop) : Q (Ok (f c)) c -> ends (get f) c Q.
Proof. intros H r c' [= <- <-]. done. Qed.
Lemma ends_get_context {E A} (f : ChannelContext -> A) c (Q : result E A -> _ -> Prop) :
  Q (Ok (f (context c))) c -> ends (get_context f) c Q.
Proof. intros H r c' [= <- <-]. done. Qed.
Lemma ends_modify {E} f c (Q : result E unit -> _ -> Prop) : Q (Ok tt) (f c) -> ends (modify f) c Q.
Proof. intros H r c' [= <- <-]. done. Qed.
Lemma ends_update {E} f c (Q : result E unit -> _ -> Prop) :
  Q (Ok tt) (with_context (f (context c)) c) -> ends (update f) c Q.
Proof. intros H r c' [= <- <-]. done. Qed.
Lemma ends_fail {E A} (e : E) c (Q : result E A -> _ -> Prop) : Q (Err e) c -> ends (fail e) c Q.
Proof. intros H r c' [= <- <-]. done. Qed.
Lemma ends_panic {E A} c (Q : result E A -> _ -> Prop) : ends panic c Q.
Proof. done. Qed.
Lemma ends_bail {E} b (e : E) c (Q : result E unit -> _ -> Prop) :
  (b = true -> Q (Err e) c) -> (b = false -> Q (Ok tt) c) -> ends (bail_when b e) c Q.
Proof. destruct b; intros H1 H2 r c' [= <- <-]; auto. Qed.
Lemma ends_assert {E} b c (Q : result E unit -> _ -> Prop) : (b = true -> Q (Ok tt) c) -> ends (assert_that b) c Q.
Proof. destruct b; [|done]. intros H r c' [= <- <-]; auto. Qed.
Lemma ends_check {E A} (f : FundedChannel -> run (result E A)) c (Q : result E A -> _ -> Prop) :
  (forall r, f c = Return r -> Q r c) -> ends (check f) c Q.
Proof. intros H r c'. unfold check. cbn. destruct (f c) as [r'|] eqn:Hf; [|done]. intros [= <- <-]. by apply H. Qed.
Lemma ends_reading {E A} (f : FundedChannel -> run A) c (Q : result E A -> _ -> Prop) :
  (forall a, f c = Return a -> Q (Ok a) c) -> ends (reading f) c Q.
Proof.
  intros H. apply ends_check. intros r. unfold lift_run. cbn. destruct (f c) as [a|] eqn:Hf; [|done].
  intros [= <-]. by apply H.
Qed.
Lemma ends_catch {E F A} (m : Chan E A) c (Q : result F (result E A) -> _ -> Prop) :
  ends m c (fun r c' => Q (Ok r) c') -> ends (catch m) c Q.
Proof. intros H r c'. unfold catch. destruct (m c) as [[r1 c1]|] eqn:Hm; [|done]. intros [= <- <-]. by apply H. Qed.
Lemma ends_if {E A} (b : bool) (m1 m2 : Chan E A) c Q :
  (b = true -> ends m1 c Q) -> (b = false -> ends m2 c Q) -> ends (if b then m1 else m2) c Q.
Proof. destruct b; auto. Qed.

End runs.

(** One step of the program a goal [ends m c Q] is about. *)
Ltac ends_step :=
  match goal with
  | |- ends (mbind _ _) _ _ => apply ends_bind
  | |- ends (mret _) _ _ => apply ends_ret
  | |- ends (get _) _ _ => apply ends_get
  | |- ends (get_context _) _ _ => apply ends_get_context
  | |- ends (modify _) _ _ => apply ends_modify
  | |- ends (update _) _ _ => apply ends_update
  | |- ends (fail _) _ _ => apply ends_fail
  | |- ends panic _ _ => apply ends_panic
  | |- ends (bail_when _ _) _ _ => apply ends_bail; intros ?
  | |- ends (assert_that _) _ _ => apply ends_assert; intros ?
  | |- ends (check _) _ _ => apply ends_check; intros [?|?] ?
  | |- ends (reading _) _ _ => apply ends_reading; intros ? ?
  | |- ends (catch _) _ _ => apply ends_catch
  | |- ends (if _ then _ else _) _ _ => apply ends_if; intros ?
  | |- ends (match ?x with _ => _ end) _ _ => destruct x eqn:?
  end; cbv beta iota zeta.
Ltac ends_go := repeat ends_step.
(** Use what is known of a call. *)
Tactic Notation "ends_call" uconstr(spec) := eapply ends_mono; [apply spec|cbv beta; intros].

Section numbering.
Context {bitcoin : Bitcoin} {scriptlib : ScriptLib} {payloads : Payloads}.
Context {bsearch : BinarySearch} {txhash : TxHash} {ecdsa : EcdsaLib}.

(** ** The numbering of monitor updates *)

(** What the numbering depends on. *)
Definition monitor_view (c : FundedChannel) : Z * list ChannelMonitorUpdate * bool * bool :=
  (latest_monitor_update_id (context c), blocked_monitor_updates (context c),
   is_monitor_update_in_progress (channel_state (context c)), is_channel_ready (channel_state (context c))).

Ltac view_solve := unfold monitor_view in *; cbn in *; autorewrite with ldk in *; congruence.

Lemma send_htlc_view env amount cltv hash source onion force extras c :
  ends (send_htlc env amount cltv hash source onion force extras) c
    (fun _ c' => monitor_view c' = monitor_view c).
Proof. unfold send_htlc. ends_go; view_solve. Qed.

Lemma send_update_fee_view {E} env feerate force c :
  ends (E := E) (send_update_fee env feerate force) c
    (fun r c' => exists m, r = Ok m /\ monitor_view c' = monitor_view c).
Proof. unfold send_update_fee. ends_go; eexists; (split; [done|]); view_solve. Qed.

Lemma fail_htlc_view {X} `{!FailHTLCContents X} htlc_id (contents : X) force c :
  ends (fail_htlc htlc_id contents force) c (fun _ c' => monitor_view c' = monitor_view c).
Proof. unfold fail_htlc, set_inbound_state. ends_go; view_solve. Qed.

Lemma mark_removed_view htlc_id outcome c :
  ends (mark_outbound_htlc_removed htlc_id outcome) c (fun _ c' => monitor_view c' = monitor_view c).
Proof. unfold mark_outbound_htlc_removed. ends_go; view_solve. Qed.

Lemma build_commitment_view {E} c :
  ends (E := E) build_commitment_no_status_check c (fun r c' =>
    exists upd, r = Ok upd /\ update_id upd = (latest_monitor_update_id (context c) + 1)%u64 /\
      monitor_view c' = ((latest_monitor_update_id (context c) + 1)%u64, blocked_monitor_updates (context c),
                         is_monitor_update_in_progress (channel_state (context c)),
                         is_channel_ready (channel_state (context c)))).
Proof.
  unfold build_commitment_no_status_check, commit_fee, bump_monitor_update_id. ends_go;
    eexists; (split; [done|]); unfold monitor_view; cbn; repeat case_match; cbn; autorewrite with ldk; done.
Qed.

Lemma append_commitment_view {E} upd c :
  ends (E := E) (append_commitment upd) c (fun r c' =>
    exists upd', r = Ok upd' /\ update_id upd' = update_id upd /\
      monitor_view c' = (update_id upd, blocked_monitor_updates (context c),
                         is_monitor_update_in_progress (channel_state (context c)),
                         is_channel_ready (channel_state (context c)))).
Proof.
  unfold append_commitment. ends_step. ends_call @build_commitment_view.
  destruct H as (upd' & -> & Hid & Hv). ends_go. eexists. split_and!; [done..|]. view_solve.
Qed.

Lemma paused_view {E} b1 b2 b3 l1 l2 l3 c :
  ends (E := E) (monitor_updating_paused b1 b2 b3 l1 l2 l3) c (fun r c' => r = Ok tt /\
    latest_monitor_update_id (context c') = latest_monitor_update_id (context c) /\
    blocked_monitor_updates (context c') = blocked_monitor_updates (context c) /\
    is_channel_ready (channel_state (context c')) = is_channel_ready (channel_state (context c)) /\
    (is_channel_ready (channel_state (context c)) = true ->
     is_monitor_update_in_progress (channel_state (context c')) = true)).
Proof.
  unfold monitor_updating_paused. ends_go. cbn. split_and!; try done.
  - by autorewrite with ldk.
  - apply in_progress_after_set.
Qed.

(** *** Numbered updates *)

Definition numbered (base : Z) (upds : list ChannelMonitorUpdate) : Prop :=
  forall i upd, upds !! i = Some upd -> update_id upd = wrapping 64 (base + 1 + Z.of_nat i).

(** The updates up to [base] were handed out, the blocked ones follow, and while
    there are any the channel is paused. *)
Record numbering (base : Z) (c : FundedChannel) : Prop := {
  numbering_blocked : numbered base (blocked_monitor_updates (context c));
  numbering_latest : latest_monitor_update_id (context c) =
    wrapping 64 (base + Z.of_nat (length (blocked_monitor_updates (context c))));
  numbering_paused : blocked_monitor_updates (context c) <> [] ->
    is_monitor_update_in_progress (channel_state (context c)) = true /\
    is_channel_ready (channel_state (context c)) = true;
}.

Definition numbered_outcome (base : Z) (r : result ChannelError (option ChannelMonitorUpdate))
    (c : FundedChannel) : Prop :=
  match r with
  | Ok (Some upd) => update_id upd = wrapping 64 (base + 1) /\ numbering (base + 1) c
  | _ => numbering base c
  end.

Lemma wrapping_succ x : (wrapping 64 x + 1)%u64 = wrapping 64 (x + 1).
Proof. unfold wrapping. by rewrite Zplus_mod_idemp_l. Qed.

Lemma numbered_snoc base upds upd : numbered base upds ->
  update_id upd = wrapping 64 (base + Z.of_nat (length upds) + 1) -> numbered base (upds ++ [upd]).
Proof.
  intros Hn Hu i u [Hi|[Hi [Hj <-]%list_lookup_singleton_Some]]%lookup_app_Some; [by apply Hn|].
  rewrite Hu. f_equal. lia.
Qed.

Lemma numbering_view base c c' : monitor_view c' = monitor_view c -> numbering base c -> numbering base c'.
Proof.
  intros Hv [Hb Hl Hp]. unfold monitor_view in Hv.
  assert (blocked_monitor_updates (context c') = blocked_monitor_updates (context c)) as Hbl by congruence.
  split; rewrite ?Hbl; [done|congruence|]. intros Hne. destruct (Hp Hne). split; congruence.
Qed.

Lemma numbering_blocked_nil base c : numbering base c ->
  is_monitor_update_in_progress (channel_state (context c)) = false -> blocked_monitor_updates (context c) = [].
Proof.
  intros [_ _ Hp] Hf. destruct (blocked_monitor_updates (context c)) as [|u l]; [done|].
  destruct Hp as [Hp _]; [done|]. congruence.
Qed.

(** A new update takes the next number and is handed out, or joins the blocked ones. *)
Lemma numbering_release base c c' upd : numbering base c -> blocked_monitor_updates (context c) = [] ->
  update_id upd = (latest_monitor_update_id (context c) + 1)%u64 ->
  latest_monitor_update_id (context c') = (latest_monitor_update_id (context c) + 1)%u64 ->
  blocked_monitor_updates (context c') = [] -> numbered_outcome base (Ok (Some upd)) c'.
Proof.
  intros [Hb Hl Hp] Hbl Hu Hl' Hbl'. rewrite Hbl in Hl. cbn in Hl.
  rewrite Hl, wrapping_succ in Hu, Hl'. cbn. split; [rewrite Hu; f_equal; lia|].
  split; rewrite ?Hbl'; cbn; [done| |done]. rewrite Hl'. f_equal. lia.
Qed.

Lemma numbering_block base c c' upd : numbering base c ->
  update_id upd = (latest_monitor_update_id (context c) + 1)%u64 ->
  latest_monitor_update_id (context c') = (latest_monitor_update_id (context c) + 1)%u64 ->
  blocked_monitor_updates (context c') = blocked_monitor_updates (context c) ++ [upd] ->
  is_monitor_update_in_progress (channel_state (context c')) = true ->
  is_channel_ready (channel_state (context c')) = true -> numbering base c'.
Proof.
  intros [Hb Hl Hp] Hu Hl' Hbl' Hpr Hr. rewrite Hl, wrapping_succ in Hu, Hl'. split; rewrite ?Hbl'; [| |done].
  - by apply numbered_snoc.
  - rewrite Hl', length_app. cbn. f_equal. lia.
Qed.

(** [push_ret_blockable_mon_update] does one or the other. *)
Lemma push_ret_numbering base c0 c upd : numbering base c0 ->
  update_id upd = (latest_monitor_update_id (context c0) + 1)%u64 ->
  latest_monitor_update_id (context c) = (latest_monitor_update_id (context c0) + 1)%u64 ->
  blocked_monitor_updates (context c) = blocked_monitor_updates (context c0) ->
  is_monitor_update_in_progress (channel_state (context c)) = true ->
  is_channel_ready (channel_state (context c)) = true ->
  ends (push_ret_blockable_mon_update upd) c (numbered_outcome base).
Proof.
  intros Hn Hu Hl Hb Hp Hr. unfold push_ret_blockable_mon_update. ends_go.
  - by apply (numbering_release base c0); try congruence.
  - apply (numbering_block base c0 _ upd); cbn; try done. by rewrite <- Hb.
Qed.

(** *** Claims and the holding cell *)

Lemma wrapping_pred x : fits 64 x -> ((x + 1)%u64 - 1)%u64 = x.
Proof.
  intros Hx. unfold wrapping. rewrite Zminus_mod_idemp_l. replace (x + 1 - 1) with x by lia.
  by apply wrapping_small.
Qed.

Lemma numbering_fits base c : numbering base c -> fits 64 (latest_monitor_update_id (context c)).
Proof. intros [_ -> _]. by apply wrapping_fits. Qed.

Definition claim_view (c : FundedChannel) (r : UpdateFulfillFetch) (c' : FundedChannel) : Prop :=
  match r with
  | DuplicateClaim => monitor_view c' = monitor_view c
  | NewClaim upd _ blocked =>
      update_id upd = (latest_monitor_update_id (context c) + 1)%u64 /\
      monitor_view c' = ((latest_monitor_update_id (context c) + 1)%u64, blocked_monitor_updates (context c),
                         is_monitor_update_in_progress (channel_state (context c)),
                         is_channel_ready (channel_state (context c))) /\
      is_channel_ready (channel_state (context c)) = true /\
      (blocked = false -> can_generate_new_commitment (channel_state (context c)) = true)
  end.

Lemma get_update_fulfill_view {E} htlc_id preimage info data c :
  fits 64 (latest_monitor_update_id (context c)) ->
  ends (E := E) (get_update_fulfill_htlc htlc_id preimage info data) c (fun r c' =>
    exists fetch, r = Ok fetch /\ claim_view c fetch c').
Proof.
  intros Hf. unfold get_update_fulfill_htlc, bump_monitor_update_id, set_inbound_state.
  ends_go; eexists; (split; [done|]); unfold claim_view, monitor_view in *; cbn; bool_to_prop;
    rewrite ?wrapping_pred by done; split_and?; (done || congruence).
Qed.

(** Freed updates leave everything but the counter, which a claim bumps. *)
Definition freed_view (c : FundedChannel) {X Y} (r : result ChannelError (X * Y * bool)) (c' : FundedChannel)
    : Prop :=
  exists x y sent, r = Ok (x, y, sent) /\ fits 64 (latest_monitor_update_id (context c')) /\
    blocked_monitor_updates (context c') = blocked_monitor_updates (context c) /\
    is_monitor_update_in_progress (channel_state (context c')) =
      is_monitor_update_in_progress (channel_state (context c)) /\
    is_channel_ready (channel_state (context c')) = is_channel_ready (channel_state (context c)) /\
    (sent = false -> latest_monitor_update_id (context c') = latest_monitor_update_id (context c)).

Lemma freed_same {X Y} (x : X) (y : Y) sent c c' : fits 64 (latest_monitor_update_id (context c)) ->
  monitor_view c' = monitor_view c -> freed_view c (Ok (x, y, sent)) c'.
Proof. intros Hf Hv. unfold monitor_view in Hv. exists x, y, sent. split_and!; (done || congruence). Qed.

Lemma free_update_view env upd c : fits 64 (latest_monitor_update_id (context c)) ->
  ends (free_holding_cell_update env upd) c (freed_view c).
Proof.
  intros Hf. destruct upd; cbn [free_holding_cell_update].
  - ends_step. apply ends_catch. ends_call @send_htlc_view. destruct r; ends_go; by apply freed_same.
  - ends_step. ends_call (get_update_fulfill_view htlc_id payment_preimage None attribution_data c Hf).
    destruct H as (fetch & -> & Hv). destruct fetch as [u v b|]; ends_go.
    destruct Hv as (Hu & Hv & _ & _). unfold monitor_view in Hv. eexists _, _, _. split; [done|].
    split_and!; try congruence. assert (latest_monitor_update_id (context c') = (latest_monitor_update_id (context c) + 1)%u64)
      as -> by congruence. by apply wrapping_fits.
  - ends_step. apply ends_catch. ends_call @fail_htlc_view. destruct r as [?|[]]; ends_go; by apply freed_same.
  - ends_step. apply ends_catch. ends_call @fail_htlc_view. destruct r as [?|[]]; ends_go; by apply freed_same.
Qed.

Lemma free_updates_view env upds c : fits 64 (latest_monitor_update_id (context c)) ->
  ends (free_holding_cell_updates env upds) c (freed_view c).
Proof.
  revert c. induction upds as [|upd upds IH]; intros c Hf; cbn [free_holding_cell_updates].
  { ends_go. by apply freed_same. }
  ends_step. ends_call (free_update_view env upd c Hf).
  destruct H as (x & y & sent & -> & Hf' & Hb & Hp & Hr & Hl). cbv beta iota.
  ends_step. ends_call (IH c' Hf'). destruct H as (x' & y' & sent' & -> & Hf'' & Hb' & Hp' & Hr' & Hl').
  ends_go. eexists _, _, _. split; [done|]. split_and!; try congruence.
  intros [-> ->]%orb_false_elim. rewrite Hl', Hl; done.
Qed.

Lemma free_holding_cell_view env c : blocked_monitor_updates (context c) = [] ->
  fits 64 (latest_monitor_update_id (context c)) ->
  ends (free_holding_cell_htlcs env) c (fun r c' => exists o fails, r = Ok (o, fails) /\
    is_channel_ready (channel_state (context c')) = is_channel_ready (channel_state (context c)) /\
    match o with
    | None => monitor_view c' = monitor_view c
    | Some upd => update_id upd = (latest_monitor_update_id (context c) + 1)%u64 /\
        latest_monitor_update_id (context c') = (latest_monitor_update_id (context c) + 1)%u64 /\
        blocked_monitor_updates (context c') = []
    end).
Proof.
  intros Hb Hf. unfold free_holding_cell_htlcs. ends_go; [|eexists _, _; done].
  ends_call (free_updates_view env (holding_cell_htlc_updates (context c))
    (with_context (with_holding_cell [] (context c)) c) Hf).
  destruct H3 as (x & y & sent & -> & Hf' & Hb' & Hp' & Hr' & Hl'). cbv beta iota. cbn in Hb', Hp', Hr', Hl'.
  ends_step. apply (ends_mono _ _ (fun r c2 => exists m, r = Ok m /\ monitor_view c2 = monitor_view c')).
  { ends_go; [|by eexists]. ends_call @send_update_fee_view. done. }
  intros r c2 (m & -> & Hv2). unfold monitor_view in Hv2. ends_step.
  - ends_go. exists None, x. split; [done|]. bool_to_prop. unfold monitor_view.
    destruct H3 as [-> _]. split; [congruence|]. specialize (Hl' eq_refl). congruence.
  - ends_step. ends_call @append_commitment_view. destruct H4 as (u & -> & Hu & Hv3). cbn [update_id] in *.
    ends_step. ends_call @paused_view. destruct H4 as (-> & Hl4 & Hb4 & Hr4 & _).
    unfold monitor_view in Hv3. unfold push_ret_blockable_mon_update. ends_go; eexists _, _; (split; [done|]).
    + split; [congruence|]. cbn in *. split_and!; congruence.
    + exfalso. congruence.
Qed.

Lemma maybe_free_view env c : fits 64 (latest_monitor_update_id (context c)) ->
  (is_monitor_update_in_progress (channel_state (context c)) = false ->
   blocked_monitor_updates (context c) = []) ->
  ends (maybe_free_holding_cell_htlcs env) c (fun r c' => exists o fails, r = Ok (o, fails) /\
    is_channel_ready (channel_state (context c')) = is_channel_ready (channel_state (context c)) /\
    match o with
    | None => monitor_view c' = monitor_view c
    | Some upd => blocked_monitor_updates (context c) = [] /\
        update_id upd = (latest_monitor_update_id (context c) + 1)%u64 /\
        latest_monitor_update_id (context c') = (latest_monitor_update_id (context c) + 1)%u64 /\
        blocked_monitor_updates (context c') = []
    end).
Proof.
  intros Hf Hn. unfold maybe_free_holding_cell_htlcs. ends_go; [|by eexists _, _].
  apply andb_prop in H as [_ (_ & _ & _ & _ & Hp & _)%can_generate_flags].
  pose proof (Hn Hp) as Hb. ends_call (free_holding_cell_view env c Hb Hf).
  destruct H as (o & fails & -> & Hr & H). exists o, fails. split_and!; [done..|]. by destruct o.
Qed.

(** *** The calls that hand out updates *)

Lemma send_and_commit_numbering env base amount hash cltv source onion skimmed hold acc trail ct c :
  numbering base c ->
  ends (send_htlc_and_commit env amount hash cltv source onion skimmed hold acc trail ct) c (numbered_outcome base).
Proof.
  intros Hn. unfold send_htlc_and_commit. ends_step. apply ends_catch.
  eapply ends_mono.
  { instantiate (1 := fun r c' => monitor_view c' = monitor_view c /\
      (r = Ok true -> is_channel_ready (channel_state (context c)) = true)).
    unfold send_htlc. ends_go; (split; [view_solve|]); intros; try done; bool_to_prop; by destruct_and?. }
  intros r c1 [Hv Hr]. destruct r as [[]|]; ends_go.
  2-3: by eapply numbering_view.
  specialize (Hr eq_refl). unfold monitor_view in Hv.
  ends_call @build_commitment_view. destruct H as (u & -> & Hu & Hv2). unfold monitor_view in Hv2.
  ends_step. ends_call @paused_view. destruct H as (-> & Hl & Hb & Hr' & Hp).
  apply (push_ret_numbering base c); try congruence. apply Hp. congruence.
Qed.

Lemma numbered_bump base l : numbered base l -> numbered (base + 1) (map bump_update_id l).
Proof.
  intros Hl i upd. rewrite list_lookup_fmap. destruct (l !! i) as [u|] eqn:Hu; [|done]. intros [= <-].
  cbn. rewrite (Hl i u Hu), wrapping_succ. f_equal. lia.
Qed.

(** A claim overtakes the blocked updates: it takes the number of the first. *)
Lemma claim_overtakes base c c1 c2 upd : numbering base c -> claim_view c (NewClaim upd 0 true) c1 ->
  latest_monitor_update_id (context c2) = latest_monitor_update_id (context c1) ->
  blocked_monitor_updates (context c2) = map bump_update_id (blocked_monitor_updates (context c1)) ->
  is_monitor_update_in_progress (channel_state (context c2)) = true ->
  is_channel_ready (channel_state (context c2)) = true ->
  wrapping 64 (base + 1) = default (update_id upd) (update_id <$> head (blocked_monitor_updates (context c1))) /\
  numbering (base + 1) c2.
Proof.
  intros [Hb Hl Hp] (Hu & Hv & Hr & _) Hl2 Hb2 Hp2 Hr2. unfold monitor_view in Hv.
  assert (latest_monitor_update_id (context c1) = (latest_monitor_update_id (context c) + 1)%u64) as Hl1 by congruence.
  assert (blocked_monitor_updates (context c1) = blocked_monitor_updates (context c)) as Hb1 by congruence.
  rewrite Hl, wrapping_succ in Hl1. rewrite Hb1 in *. split.
  - destruct (blocked_monitor_updates (context c)) as [|u l] eqn:Hbl; cbn.
    + rewrite Hu, Hl. cbn. rewrite wrapping_succ. f_equal. lia.
    + rewrite (Hb 0%nat u) by done. f_equal. lia.
  - split; rewrite ?Hb2; [by apply numbered_bump| |done].
    rewrite Hl2, Hl1, length_map. f_equal. lia.
Qed.

Lemma claim_numbering base htlc_id preimage info data c : numbering base c ->
  ends (res ← get_update_fulfill_htlc_and_commit htlc_id preimage info data;
        mret (match res with NewCommittedClaim upd _ => Some upd | DuplicateCommittedClaim => None end))
    c (numbered_outcome base).
Proof.
  intros Hn. ends_step. unfold get_update_fulfill_htlc_and_commit. ends_step. ends_step. ends_step.
  ends_call (get_update_fulfill_view htlc_id preimage info data c (numbering_fits base c Hn)).
  destruct H as (fetch & -> & Hv). destruct fetch as [upd v blocked|]; ends_go; [| | |by eapply numbering_view].
  - (* committed at once: nothing is blocked *)
    apply andb_prop in H as [Hb%bool_decide_eq_true ->%negb_true_iff].
    destruct Hv as (Hu & Hv & Hr & _). unfold monitor_view in Hv.
    ends_call @append_commitment_view. destruct H as (u & -> & Hu' & Hv'). unfold monitor_view in Hv'.
    ends_step. ends_call @paused_view. destruct H as (-> & Hl & Hb' & Hr' & _). ends_go.
    apply (numbering_release base c); cbn; congruence.
  - exfalso. apply negb_true_iff in H0 as ->. rewrite andb_true_r in H. apply bool_decide_eq_false in H.
    destruct Hv as (_ & _ & _ & Hc). specialize (Hc eq_refl).
    apply can_generate_flags in Hc as (_ & _ & _ & _ & Hc & _). apply H. by eapply numbering_blocked_nil.
  - ends_call @paused_view. destruct H1 as (-> & Hl & Hb' & Hr' & Hp). ends_go.
    apply negb_false_iff in H0 as ->.
    pose proof Hv as (Hu & Hv' & Hr & _). unfold monitor_view in Hv'. cbn in Hl, Hb', Hr', Hp |- *.
    destruct (claim_overtakes base c c' c'0 upd Hn Hv Hl Hb'); [apply Hp; congruence|congruence|]. by split.
Qed.

Lemma commitment_signed_numbering env base step c : numbering base c ->
  is_channel_ready (channel_state (context c)) = true ->
  ends (commitment_signed_update_monitor env step) c (numbered_outcome base).
Proof.
  intros Hn Hr. unfold commitment_signed_update_monitor, bump_monitor_update_id. ends_go; [| | | |done].
  - ends_call @append_commitment_view. destruct H1 as (u & -> & Hu & Hv). unfold monitor_view in Hv.
    cbn in Hv, Hu, H, H0. apply (push_ret_numbering base c); congruence.
  - apply (push_ret_numbering base c); done.
  - ends_call @append_commitment_view. destruct H1 as (u & -> & Hu & Hv). unfold monitor_view in Hv.
    cbn in Hv, Hu. ends_step. ends_call @paused_view. destruct H1 as (-> & Hl & Hb & Hr' & Hp).
    apply (push_ret_numbering base c); try congruence. apply Hp. congruence.
  - ends_call @paused_view. destruct H1 as (-> & Hl & Hb & Hr' & Hp). cbn in Hl, Hb, Hr', Hp.
    apply (push_ret_numbering base c); try (done || congruence). by apply Hp.
Qed.

Lemma accept_revocation_view env msg c :
  ends (accept_revocation env msg) c (fun r c' => monitor_view c' = monitor_view c /\
    (is_ok r = true -> is_channel_ready (channel_state (context c)) = true)).
Proof.
  unfold accept_revocation, revoke_and_ack_check_state. ends_go; (split; [view_solve|]); try done.
  all: intros _; bool_to_prop; done.
Qed.

Lemma step_htlcs_view env c :
  ends (step_htlcs env) c (fun r c' => is_ok r = true /\ monitor_view c' = monitor_view c).
Proof. unfold step_htlcs, revoke_fee. ends_go; done. Qed.

Lemma commit_after_revocation_view env upd require c : fits 64 (update_id upd) ->
  latest_monitor_update_id (context c) = update_id upd ->
  (is_monitor_update_in_progress (channel_state (context c)) = false ->
   blocked_monitor_updates (context c) = []) ->
  ends (commit_after_revocation env upd require) c (fun r c' => exists upd' b fails, r = Ok (upd', b, fails) /\
    update_id upd' = update_id upd /\ latest_monitor_update_id (context c') = update_id upd /\
    blocked_monitor_updates (context c') = blocked_monitor_updates (context c) /\
    is_channel_ready (channel_state (context c')) = is_channel_ready (channel_state (context c))).
Proof.
  intros Hf Hl Hb. unfold commit_after_revocation. ends_step.
  ends_call (maybe_free_view env c); [by rewrite Hl|done|].
  destruct H as (o & fails & -> & Hr & Ho). destruct o as [u|]; ends_go.
  - destruct Ho as (Hb1 & _ & _ & Hb2). cbn. eexists _, _, _. split; [done|]. cbn. split_and!; congruence.
  - unfold monitor_view in Ho. ends_call @append_commitment_view. destruct H0 as (u & -> & Hu & Hv).
    unfold monitor_view in Hv. ends_go. eexists _, _, _. split; [done|]. split_and!; congruence.
  - unfold monitor_view in Ho. eexists _, _, _. split; [done|]. split_and!; congruence.
Qed.

Lemma revoke_and_ack_numbering env base msg hold c : numbering base c ->
  ends ('(_, _, upd) ← revoke_and_ack env msg hold; mret upd) c (numbered_outcome base).
Proof.
  intros Hn. ends_step. unfold revoke_and_ack, bump_monitor_update_id. ends_step.
  ends_call (accept_revocation_view env msg c). destruct H as [Hv Hr]. destruct r as [number|e]; cbv beta iota;
    [|by eapply numbering_view].
  specialize (Hr eq_refl). ends_go.
  match goal with |- ends _ ?s _ => assert (monitor_view s = ((latest_monitor_update_id (context c) + 1)%u64,
    blocked_monitor_updates (context c), is_monitor_update_in_progress (channel_state (context c)), true)) as Hv2;
    [|generalize dependent s; intros c2 Hv2] end.
  { unfold monitor_view in *. cbn. case_match; cbn; autorewrite with ldk; congruence. }
  assert (latest_monitor_update_id (context c') = latest_monitor_update_id (context c)) as -> by (unfold monitor_view in Hv; congruence).
  clear Hv. ends_call (step_htlcs_view env c2). destruct H as [Hok Hv]. rewrite Hv2 in Hv.
  destruct r as [[[[[require fwd] revoked] fin] adds]|]; [|done]. unfold monitor_view in Hv. ends_go.
  match goal with |- ends _ ?s _ => assert (monitor_view s = monitor_view c'0) as Hv3 by done;
    generalize dependent s; intros c3 Hv3 end.
  unfold monitor_view in Hv3. ends_call (commit_after_revocation_view env _ require c3);
    [by apply wrapping_fits|cbn; congruence|intros Hp; rewrite <- (numbering_blocked_nil base c Hn); congruence|].
  destruct H as (u & b & fails & -> & Hu & Hl & Hb & Hr3). cbn [update_id] in Hu, Hl. ends_step.
  ends_call @paused_view. destruct H as (-> & Hl4 & Hb4 & Hr4 & Hp4). unfold release_or_block. ends_go.
  - apply (numbering_block base c _ u); cbn; try congruence. apply Hp4. congruence.
  - apply negb_false_iff, andb_prop in H as [H%bool_decide_eq_true _].
    apply (numbering_release base c); congruence.
Qed.

(** *** Resending *)

Lemma last_raa_view {E} env path c :
  ends (E := E) (get_last_revoke_and_ack env path) c (fun _ c' => monitor_view c' = monitor_view c).
Proof. unfold get_last_revoke_and_ack. ends_go; done. Qed.
Lemma last_commitment_view {E} env c :
  ends (E := E) (get_last_commitment_update_for_send env) c (fun _ c' => monitor_view c' = monitor_view c).
Proof. unfold get_last_commitment_update_for_send. ends_go; done. Qed.
Lemma hold_back_view {E} raa upd c :
  ends (E := E) (hold_back_second raa upd) c (fun _ c' => monitor_view c' = monitor_view c).
Proof. unfold hold_back_second. ends_go; done. Qed.

Ltac view_call lem :=
  eapply ends_mono; [apply lem|let r := fresh in intros r ? ?; destruct r as [?|?]; cbv beta iota].
Ltac resend_go := repeat first
  [ ends_step
  | match goal with
    | |- ends (get_last_revoke_and_ack _ _) _ _ => view_call @last_raa_view
    | |- ends (get_last_commitment_update_for_send _) _ _ => view_call @last_commitment_view
    | |- ends (hold_back_second _ _) _ _ => view_call @hold_back_view
    end ].

Lemma restored_view {E} env path c :
  ends (E := E) (monitor_updating_restored env path) c (fun _ c' =>
    latest_monitor_update_id (context c') = latest_monitor_update_id (context c) /\
    blocked_monitor_updates (context c') = [] /\ blocked_monitor_updates (context c) = []).
Proof.
  unfold monitor_updating_restored.
  assert (forall l : list ChannelMonitorUpdate, bool_decide (length l = 0%nat) = true -> l = []) as Hnil.
  { intros l ->%bool_decide_eq_true%nil_length_inv. done. }
  resend_go; unfold monitor_view in *; cbn in *;
    match goal with H : bool_decide _ = true |- _ => apply Hnil in H end; split_and!; congruence.
Qed.

Lemma signer_unblocked_view {E} env path c :
  ends (E := E) (signer_maybe_unblocked env path) c (fun _ c' => monitor_view c' = monitor_view c).
Proof.
  unfold signer_maybe_unblocked. resend_go; try case_match; unfold monitor_view in *; cbn in *; congruence.
Qed.

(** *** Every call *)

Lemma apply_op_numbering env op base c : numbering base c -> ends (apply_op env op) c (numbered_outcome base).
Proof.
  intros Hn. pose proof (fun c' H => numbering_view base c c' H Hn) as Hsame.
  destruct op; cbn [apply_op].
  - by apply send_and_commit_numbering.
  - ends_step. apply ends_catch. unfold queue_add_htlc. ends_step. ends_call @send_htlc_view.
    destruct r; ends_go; by apply Hsame.
  - by apply claim_numbering.
  - unfold queue_fail_htlc, queue_fail. ends_step. ends_step. ends_call @fail_htlc_view.
    destruct r; ends_go; by apply Hsame.
  - unfold queue_fail_malformed_htlc, queue_fail. ends_step. ends_step. ends_call @fail_htlc_view.
    destruct r; ends_go; by apply Hsame.
  - unfold queue_update_fee. ends_step. ends_step. ends_call @send_update_fee_view.
    destruct H as (m & -> & Hv). ends_go. by apply Hsame.
  - ends_step. ends_call (maybe_free_view env c); [by eapply numbering_fits|by eapply numbering_blocked_nil|].
    destruct H as (o & fails & -> & Hr & Ho). ends_go. destruct o as [u|]; [|by apply Hsame].
    destruct Ho as (? & ? & ? & ?). by apply (numbering_release base c).
  - unfold update_add_htlc. ends_go; by apply Hsame.
  - unfold update_fulfill_htlc, check_removal_allowed. ends_go; try by apply Hsame.
    ends_call @mark_removed_view. destruct r; ends_go; by apply Hsame.
  - unfold update_fail_htlc, check_removal_allowed. ends_go; try by apply Hsame.
    ends_call @mark_removed_view. destruct r; ends_go; by apply Hsame.
  - unfold update_fail_malformed_htlc, check_removal_allowed. ends_go; try by apply Hsame.
    ends_call @mark_removed_view. destruct r; ends_go; by apply Hsame.
  - unfold update_fee. ends_go; by apply Hsame.
  - unfold commitment_signed, commitment_signed_check_state. ends_go; try by apply Hsame.
    all: apply commitment_signed_numbering; [done|]; by bool_to_prop.
  - unfold commitment_signed_batch, commitment_signed_check_state. ends_go; try by apply Hsame.
    apply commitment_signed_numbering; [done|]; by bool_to_prop.
  - by apply revoke_and_ack_numbering.
  - unfold unblock_next_blocked_monitor_update. ends_go; [done|]. cbn. destruct Hn as [Hb Hl Hp].
    rewrite Heql in *. split.
    + rewrite (Hb 0%nat c0) by done. f_equal. lia.
    + split; cbn; [|rewrite Hl; f_equal; cbn; lia|by intros _; apply Hp].
      intros i u Hi. rewrite (Hb (S i) u) by done. f_equal. lia.
  - ends_step. ends_call @restored_view. destruct H as (Hl & Hb' & Hb). destruct Hn as [_ Hl' _].
    assert (numbering base c') by (split; rewrite Hb'; [done|by rewrite Hl, Hl', Hb|done]).
    destruct r; ends_go; done.
  - ends_step. ends_call @signer_unblocked_view. destruct r; ends_go; by apply Hsame.
  - unfold remove_uncommitted_htlcs_and_mark_paused. ends_go; apply Hsame; unfold monitor_view; cbn;
      repeat case_match; cbn; autorewrite with ldk; done.
Qed.

Lemma numbered_app base l1 l2 : numbered base l1 -> numbered (base + Z.of_nat (length l1)) l2 ->
  numbered base (l1 ++ l2).
Proof.
  intros H1 H2 i upd [Hi|[Hlen Hi]]%lookup_app_Some; [by apply H1|].
  rewrite (H2 _ _ Hi). f_equal. lia.
Qed.

Lemma run_numbering ops : forall base c upds c', numbering base c -> run_ops ops c = Return (upds, c') ->
  numbered base upds /\ numbering (base + Z.of_nat (length upds)) c'.
Proof.
  induction ops as [|[env op] ops IH]; intros base c upds c' Hn; cbn [run_ops].
  { intros [= <- <-]. cbn. rewrite Z.add_0_r. done. }
  pose proof (apply_op_numbering env op base c Hn) as Hop. unfold ends in Hop. cbn.
  destruct (apply_op env op c) as [[res c1]|]; [|done]. specialize (Hop _ _ eq_refl). cbn.
  destruct (run_ops ops c1) as [[upds2 c2]|] eqn:Hrun; [|done]. cbn. intros [= <- <-].
  destruct res as [[upd|]|e]; cbn in Hop; [|by apply (IH base c1)..].
  destruct Hop as [Hid Hn1]. destruct (IH _ _ _ _ Hn1 Hrun) as [H1 H2]. split.
  - intros [|i] u; cbn; [intros [= <-]; rewrite Hid; f_equal; lia|].
    intros Hu. rewrite (H1 _ _ Hu). f_equal. lia.
  - cbn [length]. replace (base + Z.of_nat (S (length upds2))) with (base + 1 + Z.of_nat (length upds2)) by lia. done.
Qed.

Lemma numbered_ids base l : numbered base l ->
  map update_id l = map (fun i => wrapping 64 (base + 1 + Z.of_nat i)) (seq 0 (length l)).
Proof.
  intros Hl. apply list_eq. intros i. rewrite !list_lookup_fmap. destruct (l !! i) as [u|] eqn:Hu; cbn.
  - rewrite lookup_seq_lt by (by apply lookup_lt_is_Some_1; eexists). cbn. by rewrite (Hl _ _ Hu).
  - rewrite lookup_seq_ge; [done|]. by apply lookup_ge_None_1.
Qed.

(** C2: the channel numbers its monitor updates without gaps and in the order in
    which it hands them out, which the channel monitor relies on.  Whatever the
    peer sends, whatever the local calls and the signer do and whichever updates
    are held back, along a run of the channel that does not panic the updates
    handed out so far, followed by those still held back, carry consecutive
    numbers ([u64], so wrapping) from the number the channel started with, and
    while updates are held back the channel stays paused. *)
Theorem monitor_updates_contiguous ops c upds c' :
  blocked_monitor_updates (context c) = [] ->
  fits 64 (latest_monitor_update_id (context c)) ->
  run_ops ops c = Return (upds, c') ->
  map update_id (upds ++ blocked_monitor_updates (context c')) =
    map (fun i => wrapping 64 (latest_monitor_update_id (context c) + 1 + Z.of_nat i))
        (seq 0 (length (upds ++ blocked_monitor_updates (context c')))) /\
  latest_monitor_update_id (context c') =
    wrapping 64 (latest_monitor_update_id (context c) +
                 Z.of_nat (length (upds ++ blocked_monitor_updates (context c')))) /\
  (blocked_monitor_updates (context c') <> [] ->
   is_monitor_update_in_progress (channel_state (context c')) = true).
Proof.
  intros Hb Hf Hrun. assert (numbering (latest_monitor_update_id (context c)) c) as Hn.
  { split; rewrite Hb; [done| |done]. cbn. by rewrite Z.add_0_r, wrapping_small. }
  destruct (run_numbering _ _ _ _ _ Hn Hrun) as [H1 [H2 H3 H4]]. split_and!.
  - apply numbered_ids. by apply numbered_app.
  - rewrite H3, length_app. f_equal. lia.
  - intros Hne. by apply H4.
Qed.

End numbering.

(** ** An example

    Alice sends an HTLC; Bob revokes and commits; Bob offers one too. *)

Definition example_add (amount id : Z) : UpdateAddHTLC :=
  mkUpdateAdd id amount (replicate 32 3) 600 tt (mkExtras None None None false None None).
Definition example_ops : list (Env * Op) := map (pair alice_env) [
  OpSend (payloads := toy_payloads) 5000000 (replicate 32 2) 500 7 tt None false false None None;
  OpRestored (fun _ => tt);
  OpRecvRevokeAndACK (mkRevokeAndACK (per_commitment_secret example_bob INITIAL_COMMITMENT_NUMBER)
    (example_point example_bob (INITIAL_COMMITMENT_NUMBER - 2)) []) true;
  OpRecvAdd (example_add 3000000 0);
  OpQueueAdd 2000000 (replicate 32 4) 500 8 tt None None false None None].

Definition example_run : list ChannelMonitorUpdate * FundedChannel :=
  returned (run_ops example_ops alice_channel) ([], alice_channel).

Lemma monitor_updates_contiguous_witness :
  map update_id (example_run.1 ++ blocked_monitor_updates (context example_run.2)) = [1; 2].
Proof.
  destruct (monitor_updates_contiguous example_ops alice_channel example_run.1 example_run.2) as [H _].
  - reflexivity.
  - unfold fits. cbn. lia.
  - rewrite <- surjective_pairing. apply returned_eq. vm_compute. reflexivity.
  - rewrite H. vm_compute. reflexivity.
Defined.
