(* ===== verification/ChannelSolvency.v ===== *)
(** * Solvency

    Whatever a peer sends, the balances of a channel stay within the channel:
    neither side's HTLCs in a commitment transaction exceed what that side owns,
    so the subtractions of the code that builds commitment transactions, which
    panic below zero, never do.

    The argument is one invariant ([solvent]) of seven linear inequalities
    between a funding scope's [value_to_self_msat] and sums over the pending
    HTLCs and the holding cell by state, kept by every call. *)

From Stdlib Require Import ZArith Lia Bool.
From S2P Require Import Prelude.
From S2P Require Import Features.
From S2P Require Import ChanUtils.
From S2P Require Import CommitmentSecrets.
From S2P Require Import Keys.
From S2P Require Import Order.
From S2P Require Import Scripts.
From S2P Require Import CommitmentTx.
From S2P Require Import TxBuilder.
From S2P Require Import AvailableBalances.
From S2P Require Import ChannelState.
From S2P Require Import Channel.
From S2P Require Import Signer.
From S2P Require Import ChannelOps.
From S2P Require Import ChannelExample.
From S2P Require Import ChannelRuns.

Local Open Scope Z_scope.
Local Open Scope channel_scope.

(** ** Weighted sums *)

Fixpoint wsum {A} (w : A -> Z) (l : list A) : Z :=
  match l with [] => 0 | x :: l => w x + wsum w l end.

Lemma wsum_app {A} (w : A -> Z) l1 l2 : wsum w (l1 ++ l2) = wsum w l1 + wsum w l2.
Proof. induction l1 as [|x l1 IH]; cbn; [done|]. rewrite IH. lia. Qed.
Lemma wsum_map {A B} (w : B -> Z) (f : A -> B) l : wsum w (map f l) = wsum (fun x => w (f x)) l.
Proof. induction l as [|x l IH]; cbn; congruence. Qed.
Lemma wsum_filter {A} (w : A -> Z) (p : A -> bool) l :
  wsum w (List.filter p l) = wsum (fun x => if p x then w x else 0) l.
Proof. induction l as [|x l IH]; cbn; [done|]. destruct (p x); cbn; lia. Qed.
Lemma wsum_le {A} (P : A -> Prop) (w w' : A -> Z) l : Forall P l -> (forall x, P x -> w x <= w' x) ->
  wsum w l <= wsum w' l.
Proof. intros Hl Hw. induction Hl as [|x l Hx Hl IH]; cbn; [lia|]. specialize (Hw x Hx). lia. Qed.
Lemma wsum_add {A} (w1 w2 : A -> Z) l : wsum (fun x => w1 x + w2 x) l = wsum w1 l + wsum w2 l.
Proof. induction l as [|x l IH]; cbn; lia. Qed.
Lemma wsum_ext {A} (w w' : A -> Z) l : (forall x, w x = w' x) -> wsum w l = wsum w' l.
Proof. intros H. induction l as [|x l IH]; cbn; congruence. Qed.
Lemma wsum_zero {A} l : wsum (fun _ : A => 0) l = 0.
Proof. induction l as [|x l IH]; cbn; lia. Qed.
Lemma wsum_nonneg {A} (P : A -> Prop) (w : A -> Z) l : Forall P l -> (forall x, P x -> 0 <= w x) -> 0 <= wsum w l.
Proof. intros Hl Hw. rewrite <- (wsum_zero l). by apply (wsum_le P). Qed.
Lemma wsum_alter {A} (w : A -> Z) f i l x : l !! i = Some x ->
  wsum w (alter f i l) = wsum w l - w x + w (f x).
Proof.
  revert i. induction l as [|y l IH]; intros [|i]; cbn; try done; [intros [= ->]; lia|].
  intros Hi. specialize (IH i Hi). lia.
Qed.
Lemma Forall_kept {A} (P : A -> Prop) (p : A -> bool) l : Forall P l -> Forall P (List.filter p l).
Proof. induction 1 as [|x l Hx Hl IH]; cbn; [done|]. destruct (p x); by try constructor. Qed.
Lemma wsum_zsum {A} (w : A -> Z) l : zsum (map w l) = wsum w l.
Proof. induction l as [|x l IH]; cbn; [done|]. by rewrite <- IH. Qed.

Section solvency.
Context {bitcoin : Bitcoin} {scriptlib : ScriptLib} {payloads : Payloads}.
Context {bsearch : BinarySearch} {txhash : TxHash} {ecdsa : EcdsaLib}.

(** ** What each HTLC counts for *)

Definition is_success (outcome : OutboundHTLCOutcome) : bool :=
  match outcome with Success _ _ => true | Failure _ => false end.

(** Outbound: counted against the next commitments we send, those already sent,
    those we receive; claimed in what we receive and what we send; claimed and
    out of every commitment. *)
Definition out_next (h : OutboundHTLCOutput) : Z :=
  match out_state h with
  | LocalAnnounced _ | OutboundCommitted | RemoteRemoved _ => out_amount_msat h
  | AwaitingRemoteRevokeToRemove o | AwaitingRemovedRemoteRevoke o =>
      if is_success o then out_amount_msat h else 0
  end.
Definition out_sent (h : OutboundHTLCOutput) : Z :=
  match out_state h with
  | LocalAnnounced _ | OutboundCommitted | RemoteRemoved _ | AwaitingRemoteRevokeToRemove _ => out_amount_msat h
  | AwaitingRemovedRemoteRevoke o => if is_success o then out_amount_msat h else 0
  end.
Definition out_received (h : OutboundHTLCOutput) : Z :=
  match out_state h with
  | LocalAnnounced _ => 0
  | OutboundCommitted | RemoteRemoved _ => out_amount_msat h
  | AwaitingRemoteRevokeToRemove o | AwaitingRemovedRemoteRevoke o =>
      if is_success o then out_amount_msat h else 0
  end.
Definition out_claimed_received (h : OutboundHTLCOutput) : Z :=
  match out_state h with
  | LocalAnnounced _ | OutboundCommitted => 0
  | RemoteRemoved o | AwaitingRemoteRevokeToRemove o | AwaitingRemovedRemoteRevoke o =>
      if is_success o then out_amount_msat h else 0
  end.
Definition out_claimed_sent (h : OutboundHTLCOutput) : Z :=
  match out_state h with
  | LocalAnnounced _ | OutboundCommitted | RemoteRemoved _ => 0
  | AwaitingRemoteRevokeToRemove o | AwaitingRemovedRemoteRevoke o =>
      if is_success o then out_amount_msat h else 0
  end.
Definition out_gone (h : OutboundHTLCOutput) : Z :=
  match out_state h with
  | AwaitingRemovedRemoteRevoke o => if is_success o then out_amount_msat h else 0
  | _ => 0
  end.

(** Inbound: claimed by us; in the commitments we send or claimed; signed by the
    peer at least once. *)
Definition in_fulfilled (h : InboundHTLCOutput) : Z :=
  match in_state h with LocalRemoved (Fulfill _ _) => in_amount_msat h | _ => 0 end.
Definition in_sent (h : InboundHTLCOutput) : Z :=
  match in_state h with
  | AwaitingAnnouncedRemoteRevoke _ | InboundCommitted _ | LocalRemoved (Fulfill _ _) => in_amount_msat h
  | _ => 0
  end.
Definition in_signed (h : InboundHTLCOutput) : Z :=
  match in_state h with RemoteAnnounced _ => 0 | _ => in_amount_msat h end.

Definition held_amount (u : HTLCUpdateAwaitingACK) : Z :=
  match u with AddHTLC amount _ _ _ _ _ => amount | _ => 0 end.

(** ** The invariant *)

Definition channel_total (f : FundingScope) : Z := get_value_satoshis f * 1000.

Record scope_solvent (inb : list InboundHTLCOutput) (out : list OutboundHTLCOutput)
    (held : list HTLCUpdateAwaitingACK) (f : FundingScope) : Prop := {
  scope_value : 0 <= get_value_satoshis f <= TOTAL_BITCOIN_SUPPLY_SATOSHIS;
  scope_within : value_to_self_msat f <= channel_total f;
  scope_next : wsum held_amount held + wsum out_next out <= value_to_self_msat f + wsum in_fulfilled inb;
  scope_out_sent : wsum out_sent out <= value_to_self_msat f + wsum in_fulfilled inb;
  scope_out_received : wsum out_received out <= value_to_self_msat f;
  scope_in_sent : value_to_self_msat f + wsum in_sent inb <= channel_total f + wsum out_gone out;
  scope_in_received :
    value_to_self_msat f + wsum in_amount_msat inb <= channel_total f + wsum out_claimed_received out;
  scope_in_signed : value_to_self_msat f + wsum in_signed inb <= channel_total f + wsum out_claimed_sent out;
}.

Definition in_nonneg (h : InboundHTLCOutput) : Prop := 0 <= in_amount_msat h.
Definition out_nonneg (h : OutboundHTLCOutput) : Prop := 0 <= out_amount_msat h.
Definition held_nonneg (u : HTLCUpdateAwaitingACK) : Prop := 0 <= held_amount u.

Record ledger_ok (inb : list InboundHTLCOutput) (out : list OutboundHTLCOutput)
    (held : list HTLCUpdateAwaitingACK) (fs : list FundingScope) : Prop := {
  ledger_in : Forall in_nonneg inb;
  ledger_out : Forall out_nonneg out;
  ledger_held : Forall held_nonneg held;
  ledger_scopes : Forall (scope_solvent inb out held) fs;
}.

Create HintDb weights.
#[local] Hint Unfold in_nonneg out_nonneg held_nonneg out_next out_sent out_received out_claimed_received
  out_claimed_sent out_gone in_fulfilled in_sent in_signed is_success
  signed_inbound_htlc signed_outbound_htlc commit_inbound_htlc commit_outbound_htlc
  revoked_inbound_htlc revoked_outbound_htlc disconnected_outbound_htlc
  is_local_removed is_removed_revoked is_remote_announced outbound_requires_commitment : weights.
Ltac weigh := intros;
  repeat match goal with
    | h : InboundHTLCOutput |- _ => destruct h as [? ? ? ? []]
    | h : OutboundHTLCOutput |- _ => destruct h as [? ? ? ? [] ? ? ?]
    end;
  autounfold with weights in *; cbn in *; try discriminate; repeat (case_match; cbn in *; try discriminate); lia.
(** [weigh_in w w' l]: the inbound weights compare pointwise; likewise for the others. *)
Ltac weigh_in w w' l :=
  let H := fresh "Hw" in assert (wsum w l <= wsum w' l) as H by
    (apply (wsum_le in_nonneg); [done|]; weigh).
Ltac weigh_out w w' l :=
  let H := fresh "Hw" in assert (wsum w l <= wsum w' l) as H by
    (apply (wsum_le out_nonneg); [done|]; weigh).

(** Nothing is counted below zero. *)
Lemma sums_nonneg inb out held : Forall in_nonneg inb -> Forall out_nonneg out -> Forall held_nonneg held ->
  0 <= wsum held_amount held /\ 0 <= wsum in_fulfilled inb /\ wsum in_fulfilled inb <= wsum in_sent inb /\
  0 <= wsum out_gone out /\ wsum out_gone out <= wsum out_claimed_sent out /\
  wsum out_claimed_sent out <= wsum out_claimed_received out /\
  wsum out_claimed_received out <= wsum out_received out.
Proof.
  intros Hi Ho Hh. split_and!.
  - by apply (wsum_nonneg held_nonneg).
  - apply (wsum_nonneg in_nonneg); [done|]. weigh.
  - apply (wsum_le in_nonneg); [done|]. weigh.
  - apply (wsum_nonneg out_nonneg); [done|]. weigh.
  - apply (wsum_le out_nonneg); [done|]. weigh.
  - apply (wsum_le out_nonneg); [done|]. weigh.
  - apply (wsum_le out_nonneg); [done|]. weigh.
Qed.

(** *** Steps of the ledger *)

Lemma ledger_hold inb out held fs u : ledger_ok inb out held fs -> held_nonneg u ->
  Forall (fun f => wsum held_amount held + wsum out_next out + held_amount u
                   <= value_to_self_msat f + wsum in_fulfilled inb) fs ->
  ledger_ok inb out (held ++ [u]) fs.
Proof.
  intros [Hi Ho Hh Hs] Hu Hroom. split; [done..|by apply Forall_app_2; [|constructor]|].
  rewrite Forall_forall in *. intros f Hf.
  destruct (Hs f Hf). specialize (Hroom f Hf). split; try done. rewrite wsum_app. cbn. lia.
Qed.

Lemma ledger_drain inb out held fs : ledger_ok inb out held fs -> ledger_ok inb out [] fs.
Proof.
  intros [Hi Ho Hh Hs]. split; [done..|constructor|]. destruct (sums_nonneg inb out held Hi Ho Hh) as [H0 _].
  eapply Forall_impl; [done|]. intros f []. split; try done. cbn. lia.
Qed.

(** A new HTLC of ours: nothing may be waiting for a revocation. *)
Lemma ledger_send inb out held fs h onion : ledger_ok inb out held fs -> out_nonneg h ->
  out_state h = LocalAnnounced onion -> Forall (fun h => outbound_requires_commitment h = false) out ->
  Forall (fun f => wsum held_amount held + wsum out_next out + out_amount_msat h
                   <= value_to_self_msat f + wsum in_fulfilled inb) fs ->
  ledger_ok inb (out ++ [h]) held fs.
Proof.
  intros [Hi Ho Hh Hs] Hn Hst Hwait Hroom. split; [done|by apply Forall_app_2; [|constructor]|done|].
  assert (wsum out_sent out <= wsum out_next out) as Hle.
  { apply (wsum_le (fun h => outbound_requires_commitment h = false)); [done|]. unfold outbound_requires_commitment. weigh. }
  destruct (sums_nonneg inb out held Hi Ho Hh) as (H0 & _).
  rewrite Forall_forall in *. intros f Hf. destruct (Hs f Hf). specialize (Hroom f Hf).
  split; try done; rewrite wsum_app; cbn [wsum]; weigh.
Qed.

Lemma ledger_add inb out held fs h res : ledger_ok inb out held fs -> in_nonneg h ->
  in_state h = RemoteAnnounced res ->
  Forall (fun f => value_to_self_msat f + wsum in_amount_msat inb + in_amount_msat h
                   <= channel_total f + wsum out_claimed_received out) fs ->
  ledger_ok (inb ++ [h]) out held fs.
Proof.
  intros [Hi Ho Hh Hs] Hn Hst Hroom. split; [by apply Forall_app_2; [|constructor]|done..|].
  rewrite Forall_forall in *. intros f Hf. destruct (Hs f Hf). specialize (Hroom f Hf).
  split; try done; rewrite wsum_app; cbn [wsum]; weigh.
Qed.

(** We resolve a committed inbound HTLC, the peer one of ours. *)
Lemma ledger_resolve inb out held fs i h reason : ledger_ok inb out held fs ->
  inb !! i = Some h -> is_in_committed h = true ->
  ledger_ok (alter (with_in_state (LocalRemoved reason)) i inb) out held fs.
Proof.
  intros [Hi Ho Hh Hs] Hl Hst. unfold is_in_committed in Hst.
  assert (in_nonneg h) as Hn by (rewrite Forall_forall in Hi; apply Hi; by eapply list_elem_of_lookup_2).
  split; [|done..|].
  { apply Forall_alter; [done|]. intros x Hx. by rewrite Hl in Hx; injection Hx as <-. }
  eapply Forall_impl; [done|]. intros f [].
  split; try done; rewrite !(wsum_alter _ _ _ _ _ Hl); weigh.
Qed.

Lemma ledger_removed inb pre h post held fs outcome : ledger_ok inb (pre ++ h :: post) held fs ->
  out_state h = OutboundCommitted ->
  ledger_ok inb (pre ++ with_out_state (RemoteRemoved outcome) h :: post) held fs.
Proof.
  intros [Hi Ho Hh Hs] Hst. apply Forall_app in Ho as [Ho1 [Hn Ho2]%Forall_cons].
  split; [done|by apply Forall_app_2; [|constructor]|done|].
  eapply Forall_impl; [done|]. intros f []. rewrite wsum_app in *; cbn [wsum] in *.
  split; try done; rewrite wsum_app in *; cbn [wsum] in *; weigh.
Qed.

(** The peer's signature, our commitment, a disconnection: maps over both lists. *)
Lemma ledger_signed inb out held fs : ledger_ok inb out held fs ->
  ledger_ok (map signed_inbound_htlc inb) (map signed_outbound_htlc out) held fs.
Proof.
  intros [Hi Ho Hh Hs]. split; [by apply Forall_map; eapply Forall_impl; [done|]; weigh..|done|].
  weigh_out (fun h => out_next (signed_outbound_htlc h)) out_next out.
  weigh_out (fun h => out_sent (signed_outbound_htlc h)) out_sent out.
  weigh_out (fun h => out_received (signed_outbound_htlc h)) out_received out.
  weigh_out out_gone (fun h => out_gone (signed_outbound_htlc h)) out.
  weigh_out out_claimed_received (fun h => out_claimed_received (signed_outbound_htlc h)) out.
  weigh_out out_claimed_received (fun h => out_claimed_sent (signed_outbound_htlc h)) out.
  weigh_in in_fulfilled (fun h => in_fulfilled (signed_inbound_htlc h)) inb.
  weigh_in (fun h => in_sent (signed_inbound_htlc h)) in_sent inb.
  weigh_in (fun h => in_amount_msat (signed_inbound_htlc h)) in_amount_msat inb.
  weigh_in (fun h => in_signed (signed_inbound_htlc h)) in_amount_msat inb.
  eapply Forall_impl; [done|]. intros f []. split; rewrite ?wsum_map; try done; lia.
Qed.

Lemma ledger_commit inb out held fs : ledger_ok inb out held fs ->
  ledger_ok (map commit_inbound_htlc inb) (map commit_outbound_htlc out) held fs.
Proof.
  intros [Hi Ho Hh Hs]. split; [by apply Forall_map; eapply Forall_impl; [done|]; weigh..|done|].
  weigh_out (fun h => out_next (commit_outbound_htlc h)) out_next out.
  weigh_out (fun h => out_sent (commit_outbound_htlc h)) out_sent out.
  weigh_out (fun h => out_received (commit_outbound_htlc h)) out_received out.
  weigh_out out_claimed_sent (fun h => out_gone (commit_outbound_htlc h)) out.
  weigh_out out_claimed_received (fun h => out_claimed_received (commit_outbound_htlc h)) out.
  weigh_out out_claimed_sent (fun h => out_claimed_sent (commit_outbound_htlc h)) out.
  weigh_in in_fulfilled (fun h => in_fulfilled (commit_inbound_htlc h)) inb.
  weigh_in (fun h => in_sent (commit_inbound_htlc h)) in_signed inb.
  weigh_in (fun h => in_amount_msat (commit_inbound_htlc h)) in_amount_msat inb.
  weigh_in (fun h => in_signed (commit_inbound_htlc h)) in_signed inb.
  eapply Forall_impl; [done|]. intros f []. split; rewrite ?wsum_map; try done; lia.
Qed.

Lemma ledger_disconnect inb out held fs : ledger_ok inb out held fs ->
  ledger_ok (List.filter (fun h => negb (is_remote_announced h)) inb) (map disconnected_outbound_htlc out) held fs.
Proof.
  intros [Hi Ho Hh Hs].
  assert (forall w, wsum w (List.filter (fun h => negb (is_remote_announced h)) inb) =
                    wsum (fun h => if negb (is_remote_announced h) then w h else 0) inb) as Hf
    by (intros; apply wsum_filter).
  split; [by apply Forall_kept|by apply Forall_map; eapply Forall_impl; [done|]; weigh|done|].
  weigh_out (fun h => out_next (disconnected_outbound_htlc h)) out_next out.
  weigh_out (fun h => out_sent (disconnected_outbound_htlc h)) out_sent out.
  weigh_out (fun h => out_received (disconnected_outbound_htlc h)) out_received out.
  weigh_out out_gone (fun h => out_gone (disconnected_outbound_htlc h)) out.
  weigh_out out_claimed_sent (fun h => out_claimed_received (disconnected_outbound_htlc h)) out.
  weigh_out out_claimed_sent (fun h => out_claimed_sent (disconnected_outbound_htlc h)) out.
  weigh_in in_fulfilled (fun h => if negb (is_remote_announced h) then in_fulfilled h else 0) inb.
  weigh_in (fun h => if negb (is_remote_announced h) then in_sent h else 0) in_sent inb.
  weigh_in (fun h => if negb (is_remote_announced h) then in_amount_msat h else 0) in_signed inb.
  weigh_in (fun h => if negb (is_remote_announced h) then in_signed h else 0) in_signed inb.
  eapply Forall_impl; [done|]. intros f []. split; rewrite ?wsum_map, ?Hf; try done; lia.
Qed.

(** A revocation: the balances move by what was fulfilled on either side. *)
Lemma as_i64_mod x : as_i64 x mod 2 ^ 64 = x mod 2 ^ 64.
Proof. unfold as_i64. rewrite Zminus_mod_idemp_l. f_equal. lia. Qed.

Lemma diff_mod inb out :
  value_to_self_msat_diff inb out mod 2 ^ 64 = (wsum in_fulfilled inb - wsum out_gone out) mod 2 ^ 64.
Proof.
  assert (forall d, foldl inbound_diff d inb mod 2 ^ 64 = (d + wsum in_fulfilled inb) mod 2 ^ 64) as Hin.
  { induction inb as [|h inb IH]; intros d; cbn [foldl wsum]; [f_equal; lia|]. rewrite IH.
    unfold inbound_diff, in_fulfilled at 2. destruct (in_state h) as [| | | |[]]; try (f_equal; lia).
    rewrite <- Zplus_mod_idemp_l, as_i64_mod, Zplus_mod_idemp_l, <- Zplus_mod_idemp_l, <- (Zplus_mod_idemp_r (as_i64 _)),
      as_i64_mod, Zplus_mod_idemp_r, Zplus_mod_idemp_l. f_equal. lia. }
  assert (forall d, foldl outbound_diff d out mod 2 ^ 64 = (d - wsum out_gone out) mod 2 ^ 64) as Hout.
  { induction out as [|h out IH]; intros d; cbn [foldl wsum]; [f_equal; lia|]. rewrite IH.
    unfold outbound_diff, out_gone at 2. destruct (out_state h) as [| | | |[]]; cbn; try (f_equal; lia).
    rewrite <- Zminus_mod_idemp_l, as_i64_mod, Zminus_mod_idemp_l, <- Zminus_mod_idemp_l, <- (Zminus_mod_idemp_r _ (as_i64 _)),
      as_i64_mod, Zminus_mod_idemp_r, Zminus_mod_idemp_l. f_equal. lia. }
  unfold value_to_self_msat_diff. rewrite Hout, <- Zminus_mod_idemp_l, Hin, Zminus_mod_idemp_l. f_equal.
Qed.

Lemma apply_diff_exact inb out f :
  0 <= value_to_self_msat f + wsum in_fulfilled inb - wsum out_gone out < 2 ^ 64 ->
  value_to_self_msat (apply_diff (value_to_self_msat_diff inb out) f) =
  value_to_self_msat f + wsum in_fulfilled inb - wsum out_gone out.
Proof.
  intros Hr. cbn. unfold wrapping. rewrite as_i64_mod, <- Zplus_mod_idemp_l, as_i64_mod, Zplus_mod_idemp_l,
    <- Zplus_mod_idemp_r, diff_mod, Zplus_mod_idemp_r. rewrite Z.mod_small by lia. lia.
Qed.

Definition revoked_inbound (inb : list InboundHTLCOutput) : list InboundHTLCOutput :=
  map revoked_inbound_htlc (List.filter (fun h => negb (is_local_removed h)) inb).
Definition revoked_outbound (out : list OutboundHTLCOutput) : list OutboundHTLCOutput :=
  map revoked_outbound_htlc (List.filter (fun h => negb (is_removed_revoked h)) out).

Lemma wsum_revoked_in w inb : wsum w (revoked_inbound inb) =
  wsum (fun h => if negb (is_local_removed h) then w (revoked_inbound_htlc h) else 0) inb.
Proof. unfold revoked_inbound. by rewrite wsum_map, wsum_filter. Qed.
Lemma wsum_revoked_out w out : wsum w (revoked_outbound out) =
  wsum (fun h => if negb (is_removed_revoked h) then w (revoked_outbound_htlc h) else 0) out.
Proof. unfold revoked_outbound. by rewrite wsum_map, wsum_filter. Qed.

(** What each sum loses besides what leaves the channel. *)
Lemma revoked_out_sums out : Forall out_nonneg out ->
  let out' := revoked_outbound out in
  wsum out_next out' + wsum out_gone out <= wsum out_next out /\
  wsum out_sent out' + wsum out_gone out <= wsum out_sent out /\
  wsum out_received out' + wsum out_gone out <= wsum out_sent out /\
  wsum out_claimed_sent out <= wsum out_gone out' + wsum out_gone out /\
  wsum out_claimed_received out <= wsum out_claimed_received out' + wsum out_gone out /\
  wsum out_claimed_sent out <= wsum out_claimed_sent out' + wsum out_gone out.
Proof.
  intros Ho out'. unfold out'. rewrite !wsum_revoked_out, <- !wsum_add.
  split_and!; (apply (wsum_le out_nonneg); [done|weigh]).
Qed.
Lemma revoked_in_sums inb : Forall in_nonneg inb ->
  let inb' := revoked_inbound inb in
  0 <= wsum in_fulfilled inb' /\
  wsum in_sent inb' + wsum in_fulfilled inb <= wsum in_signed inb /\
  wsum in_amount_msat inb' + wsum in_fulfilled inb <= wsum in_amount_msat inb /\
  wsum in_signed inb' + wsum in_fulfilled inb <= wsum in_signed inb.
Proof.
  intros Hi inb'. unfold inb'. rewrite !wsum_revoked_in, <- !wsum_add. split_and!.
  1: apply (wsum_nonneg in_nonneg); [done|weigh].
  all: apply (wsum_le in_nonneg); [done|weigh].
Qed.

Lemma ledger_revoke inb out held fs : ledger_ok inb out held fs ->
  ledger_ok (revoked_inbound inb) (revoked_outbound out) held
    (map (apply_diff (value_to_self_msat_diff inb out)) fs).
Proof.
  intros [Hi Ho Hh Hs].
  destruct (sums_nonneg inb out held Hi Ho Hh) as (H1 & H2 & H3 & H4 & H5 & H6 & H7).
  destruct (revoked_out_sums out Ho) as (O1 & O2 & O3 & O4 & O5 & O6).
  destruct (revoked_in_sums inb Hi) as (I0 & I1 & I2 & I3).
  split; [apply Forall_map, Forall_kept; eapply Forall_impl; [done|]; weigh..|done|].
  apply Forall_map. eapply Forall_impl; [done|]. intros f [Sv Sw Sn Sos Sor Sis Sir Sig].
  unfold channel_total, TOTAL_BITCOIN_SUPPLY_SATOSHIS in *.
  pose proof (apply_diff_exact inb out f ltac:(lia)) as Hv.
  split; unfold channel_total; rewrite ?Hv; change (get_value_satoshis (apply_diff _ f)) with (get_value_satoshis f);
    unfold TOTAL_BITCOIN_SUPPLY_SATOSHIS; lia.
Qed.

(** ** What the checks establish *)

(** The sums of the statistics. *)
Lemma wsum_u64 {A} (amount : A -> Z) (p : A -> bool) l : Forall (fun x => 0 <= amount x) l ->
  wsum (fun x => if p x then amount x else 0) l < 2 ^ 64 ->
  u64_sum (map amount (List.filter p l)) = wsum (fun x => if p x then amount x else 0) l.
Proof.
  intros Hl Hb. rewrite <- wsum_filter in *. rewrite u64_sum_exact; [apply wsum_zsum| |by rewrite wsum_zsum].
  apply Forall_map. by apply Forall_kept.
Qed.

Definition held_directions (held : list HTLCUpdateAwaitingACK) : list HTLCAmountDirection :=
  omap (fun htlc => match htlc with
    | AddHTLC amount_msat _ _ _ _ _ => Some (mkDirection true amount_msat)
    | _ => None
    end) held.

Lemma htlcs_wsum out l :
  htlcs_sum out l = wsum (fun h => if Bool.eqb (outbound h) out then htlc_amount_msat h else 0) l.
Proof. unfold htlcs_sum. by rewrite wsum_zsum, wsum_filter. Qed.
Lemma directions_sum {A} (b out : bool) (amount : A -> Z) (p : A -> bool) l :
  htlcs_sum out (map (fun x => mkDirection b (amount x)) (List.filter p l)) =
  if Bool.eqb b out then wsum (fun x => if p x then amount x else 0) l else 0.
Proof.
  rewrite htlcs_wsum, wsum_map, wsum_filter. cbn [outbound htlc_amount_msat].
  destruct (Bool.eqb b out); [done|].
  transitivity (wsum (fun _ : A => 0) l); [|apply wsum_zero]. apply wsum_ext. intros x. by destruct (p x).
Qed.
Lemma held_sum out held : htlcs_sum out (held_directions held) = if out then wsum held_amount held else 0.
Proof.
  rewrite htlcs_wsum. induction held as [|u held IH]; cbn; [by destruct out|].
  unfold held_directions in IH. destruct u; cbn; rewrite IH; by destruct out.
Qed.
Lemma htlcs_sum_app out l1 l2 : htlcs_sum out (l1 ++ l2) = htlcs_sum out l1 + htlcs_sum out l2.
Proof. by rewrite !htlcs_wsum, wsum_app. Qed.

Lemma directions_nonneg c local cand unk : Forall in_nonneg (pending_inbound_htlcs c) ->
  Forall out_nonneg (pending_outbound_htlcs c) -> Forall held_nonneg (holding_cell_htlc_updates c) ->
  (forall d, cand = Some d -> 0 <= htlc_amount_msat d) ->
  Forall (fun h => 0 <= htlc_amount_msat h) (get_next_commitment_htlcs c local cand unk).
Proof.
  intros Hi Ho Hh Hc. unfold get_next_commitment_htlcs. repeat apply Forall_app_2.
  - destruct cand as [d|]; [|constructor]. constructor; [by apply Hc|constructor].
  - apply Forall_map, Forall_kept. done.
  - apply Forall_map, Forall_kept. done.
  - destruct unk; [|constructor]. induction Hh as [|u held Hu Hh IH]; [constructor|]. destruct u; cbn; try done.
    by constructor.
Qed.

Lemma htlcs_value_sum out l : Forall (fun h => 0 <= htlc_amount_msat h) l -> htlcs_sum out l < 2 ^ 64 ->
  htlcs_value_msat out l = htlcs_sum out l.
Proof. intros Hl Hb. apply u64_sum_exact; [|done]. by apply Forall_map, Forall_kept. Qed.

(** Every adjustment of the limit for the next HTLC only lowers it. *)
Lemma wrapping_nonneg x : 0 <= wrapping 64 x.
Proof. by apply (wrapping_fits 64). Qed.
Lemma sub_lowers a b : 0 <= a -> 0 <= saturating_sub a (wrapping 64 b) <= a.
Proof. pose proof (wrapping_nonneg b). unfold saturating_sub. lia. Qed.

Lemma holder_fee_lowers cap nl nr f sf cons ct : 0 <= cap ->
  adjust_capacity_for_holder_reserved_fee cap nl nr f sf cons ct <= cap.
Proof.
  intros Hc. unfold adjust_capacity_for_holder_reserved_fee.
  destruct (second_stage_tx_fees_sat ct f) as [s t]. cbn zeta.
  match goal with |- Z.min (if _ then Z.min _ (saturating_sub _ (wrapping _ ?a)) else
    saturating_sub _ (wrapping _ ?b)) _ <= _ =>
    pose proof (sub_lowers cap a Hc); pose proof (sub_lowers cap b Hc) end.
  case_match; lia.
Qed.
Lemma counterparty_fee_lowers cap rb nl nr f cons ct :
  adjust_capacity_for_counterparty_reserved_fee cap rb nl nr f cons ct <= cap.
Proof.
  unfold adjust_capacity_for_counterparty_reserved_fee.
  destruct (second_stage_tx_fees_sat ct f) as [s t]. cbn zeta. case_match; lia.
Qed.
Lemma boundaries_lower local outb h c f n dust ct mn cap mn' cap' :
  adjust_boundaries_if_max_dust_htlc_produces_no_output local outb h c f n dust ct mn cap = (mn', cap') ->
  cap' <= cap.
Proof.
  unfold adjust_boundaries_if_max_dust_htlc_produces_no_output.
  destruct (second_stage_tx_fees_sat ct f) as [s t]. cbn zeta. repeat case_match; intros; simplify_eq; lia.
Qed.
Lemma funder_lowers outb h c x h' c' : 0 <= h -> 0 <= x ->
  saturating_sub_from_funder outb h c x = (h', c') -> 0 <= h' <= h.
Proof. unfold saturating_sub_from_funder, saturating_sub. destruct outb; intros; simplify_eq; lia. Qed.

Lemma limit_within_balance outb cv vth pend feerate lim maxdust cons ct ab :
  get_available_balances outb cv vth pend feerate lim maxdust cons ct = Return ab ->
  next_outbound_htlc_limit_msat ab <= saturating_sub vth (htlcs_value_msat true pend).
Proof.
  unfold get_available_balances. cbn zeta.
  destruct (checked_sub _ vth) as [vtc|]; [|done]. cbn [unwrap mbind run_bind].
  destruct (saturating_sub_from_funder _ _ _ _) as [lb rb] eqn:Hb.
  apply funder_lowers in Hb; [|unfold saturating_sub; lia|pose proof (total_anchors_range ct);
    unfold saturating_mul, umax; lia].
  set (cap := if outb then adjust_capacity_for_holder_reserved_fee _ _ _ _ _ _ _ else _).
  assert (cap <= lb) as Hcap.
  { pose proof (sub_lowers lb (counterparty_selected_channel_reserve_satoshis cons * 1000) ltac:(lia)).
    unfold cap. destruct outb; (etrans; [apply holder_fee_lowers || apply counterparty_fee_lowers|]); lia. }
  clearbody cap. destruct (adjust_min_max_htlc_for_dust_exposure _ _ _ _ _ _ _) as [[mn cap1] e] eqn:Hd.
  apply dust_adjust_tightens in Hd as [_ Hd].
  destruct (adjust_min_max_htlc_if_max_dust_htlc_produces_no_output _ _ _ _ _ _ _ _ _ _) as [mn2 cap2] eqn:Ho.
  unfold adjust_min_max_htlc_if_max_dust_htlc_produces_no_output in Ho.
  destruct (adjust_boundaries_if_max_dust_htlc_produces_no_output true _ _ _ _ _ _ _ _ _) as [mn3 cap3] eqn:Ho1.
  apply boundaries_lower in Ho, Ho1. intros [= <-]. cbn. revert Ho1. case_match; intros; lia.
Qed.

(** The balance the statistics start from. *)
Definition context_ok (c : ChannelContext) (fs : list FundingScope) : Prop :=
  ledger_ok (pending_inbound_htlcs c) (pending_outbound_htlcs c) (holding_cell_htlc_updates c) fs.

Lemma next_value_exact c f fs local : context_ok c fs -> f ∈ fs ->
  get_next_commitment_value_to_self_msat c local f =
  value_to_self_msat f - wsum (if local then out_claimed_received else out_claimed_sent) (pending_outbound_htlcs c)
  + (if local then 0 else wsum in_fulfilled (pending_inbound_htlcs c)).
Proof.
  intros [Hi Ho Hh Hs] Hf. rewrite Forall_forall in Hs. destruct (Hs f Hf).
  destruct (sums_nonneg _ _ _ Hi Ho Hh) as (H1 & H2 & H3 & H4 & H5 & H6 & H7).
  unfold get_next_commitment_value_to_self_msat, channel_total, TOTAL_BITCOIN_SUPPLY_SATOSHIS in *.
  assert (wsum (fun h => if inbound_claimed local h then in_amount_msat h else 0) (pending_inbound_htlcs c) =
          if local then 0 else wsum in_fulfilled (pending_inbound_htlcs c)) as Hic.
  { destruct local; [transitivity (wsum (fun _ : InboundHTLCOutput => 0) (pending_inbound_htlcs c));
      [|apply wsum_zero]|]; apply wsum_ext; unfold inbound_claimed; weigh. }
  assert (wsum (fun h => if outbound_claimed local h then out_amount_msat h else 0) (pending_outbound_htlcs c) =
          wsum (if local then out_claimed_received else out_claimed_sent) (pending_outbound_htlcs c)) as Hoc.
  { apply wsum_ext. unfold outbound_claimed. destruct local; weigh. }
  rewrite (wsum_u64 out_amount_msat), Hoc; [|done|rewrite Hoc; destruct local; lia].
  rewrite (wsum_u64 in_amount_msat), Hic; [|done|rewrite Hic; destruct local; lia].
  unfold saturating_add, saturating_sub, umax. destruct local; lia.
Qed.

Lemma next_stats_inv local c f cand unk addl feerate spike lim st l :
  next_commitment_stats local c f cand unk addl feerate spike lim = Return (Ok (st, l)) ->
  exists dust, is_ok (get_next_commitment_stats local (funding_is_outbound f) (get_value_satoshis f)
      (get_next_commitment_value_to_self_msat c local f) (get_next_commitment_htlcs c local cand unk)
      addl feerate spike lim dust (get_channel_type f)) = true /\
    get_available_balances (funding_is_outbound f) (get_value_satoshis f)
      (get_next_commitment_value_to_self_msat c local f) (get_next_commitment_htlcs c local cand unk)
      feerate lim (get_max_dust_htlc_exposure_msat c lim) (get_channel_constraints c f) (get_channel_type f) =
      Return (available_balances st).
Proof.
  unfold next_commitment_stats, get_channel_stats. cbn zeta.
  intros Heq. exists (if local then our_dust_limit_satoshis (limits c) else their_dust_limit_satoshis (limits c)).
  revert Heq. destruct local; cbn [holder_dust_limit_satoshis counterparty_dust_limit_satoshis get_channel_constraints].
  all: destruct (get_next_commitment_stats _ _ _ _ _ _ _ _ _ _ _); [|done]; cbn [mbind run_bind];
       destruct (get_available_balances _ _ _ _ _ _ _ _ _) as [ab|]; [|done]; cbn; intros [= <- <-]; done.
Qed.

(** An amount within the limit fits next to everything we offered. *)
Lemma scope_limit c f fs est ab amount : context_ok c fs -> f ∈ fs ->
  get_available_balances_for_scope c f est = Return (Ok ab) ->
  0 < amount -> amount <= next_outbound_htlc_limit_msat ab ->
  wsum held_amount (holding_cell_htlc_updates c) + wsum out_next (pending_outbound_htlcs c) + amount
    <= value_to_self_msat f + wsum in_fulfilled (pending_inbound_htlcs c).
Proof.
  intros Hok Hf. unfold get_available_balances_for_scope, get_next_remote_commitment_stats. cbn zeta.
  destruct (next_commitment_stats false c f None true 0 _ false _) as [[[st l]|]|] eqn:Hst; [|done..].
  intros [= <-] Hpos Hle. apply next_stats_inv in Hst as (dust & _ & Hab).
  apply limit_within_balance in Hab. rewrite (next_value_exact c f fs) in Hab by done.
  destruct Hok as [Hi Ho Hh Hs]. rewrite Forall_forall in Hs. destruct (Hs f Hf).
  destruct (sums_nonneg _ _ _ Hi Ho Hh) as (H1 & H2 & H3 & H4 & H5 & H6 & H7).
  assert (htlcs_sum true (get_next_commitment_htlcs c false None true) + wsum out_claimed_sent (pending_outbound_htlcs c)
    = wsum held_amount (holding_cell_htlc_updates c) + wsum out_next (pending_outbound_htlcs c)) as Hsum.
  { unfold get_next_commitment_htlcs. rewrite !htlcs_sum_app, !directions_sum, (held_sum true). cbn.
    rewrite (wsum_ext out_next (fun h => (if out_next_commitment false true h then out_amount_msat h else 0) +
      out_claimed_sent h)) by (unfold out_next_commitment; weigh). rewrite wsum_add. unfold htlcs_sum. cbn. lia. }
  unfold channel_total, TOTAL_BITCOIN_SUPPLY_SATOSHIS in *.
  rewrite htlcs_value_sum in Hab; [|by apply directions_nonneg|lia].
  unfold saturating_sub in Hab. lia.
Qed.

Lemma scopes_limit c est ab : channel_get_available_balances est c = Return (Ok ab) ->
  Forall (fun f => exists ab', get_available_balances_for_scope (context c) f est = Return (Ok ab') /\
    next_outbound_htlc_limit_msat ab <= next_outbound_htlc_limit_msat ab') (funding c :: pending_funding c).
Proof.
  unfold channel_get_available_balances.
  destruct (get_available_balances_for_scope _ (funding c) est) as [[ab0|]|] eqn:H0; [|done..]. cbn [and_then].
  match goal with |- foldl ?g _ _ = _ -> _ => set (step := g) end.
  assert (forall fs (r : run (result unit AvailableBalances)), (forall x, r <> Return (Ok x)) ->
    forall x, foldl step r fs <> Return (Ok x)) as Hbad.
  { induction fs as [|f fs IH]; intros r Hr x; cbn [foldl]; [done|]. apply IH.
    intros y. destruct r as [[z|]|]; [by destruct (Hr z)|done..]. }
  assert (forall fs acc ab, foldl step (Return (Ok acc)) fs = Return (Ok ab) ->
    next_outbound_htlc_limit_msat ab <= next_outbound_htlc_limit_msat acc /\
    Forall (fun f => exists ab', get_available_balances_for_scope (context c) f est = Return (Ok ab') /\
      next_outbound_htlc_limit_msat ab <= next_outbound_htlc_limit_msat ab') fs) as Hfold.
  { induction fs as [|f fs IH]; intros acc ab'; cbn [foldl]; [intros [= <-]; split; [lia|constructor]|].
    unfold step at 2. cbn [and_then].
    destruct (get_available_balances_for_scope (context c) f est) as [[e|]|] eqn:He;
      [|intros Hx; by apply Hbad in Hx..].
    cbn. intros [Hl Hfs]%IH. cbn in Hl. split; [lia|]. constructor; [|done]. exists e. split; [done|lia]. }
  intros [Hl Hfs]%Hfold. constructor; [by exists ab0|done].
Qed.

Lemma room_for_amount c est ab amount : context_ok (context c) (funding c :: pending_funding c) ->
  channel_get_available_balances est c = Return (Ok ab) -> 0 < amount ->
  amount <= next_outbound_htlc_limit_msat ab ->
  Forall (fun f => wsum held_amount (holding_cell_htlc_updates (context c)) +
      wsum out_next (pending_outbound_htlcs (context c)) + amount
    <= value_to_self_msat f + wsum in_fulfilled (pending_inbound_htlcs (context c)))
    (funding c :: pending_funding c).
Proof.
  intros Hok Hab Hpos Hle. apply scopes_limit in Hab. rewrite Forall_forall in *.
  intros f Hf. destruct (Hab f Hf) as (ab' & Hab' & Hle').
  by eapply (scope_limit _ f _ est ab'); [done..|lia].
Qed.

(** A validated [update_add_htlc] fits next to everything the peer offered. *)
Lemma validated_room c f fs msg est : context_ok c fs -> f ∈ fs -> 0 <= add_amount_msat msg ->
  validate_update_add_htlc c f msg est = Return (Ok tt) ->
  value_to_self_msat f + wsum in_amount_msat (pending_inbound_htlcs c) + add_amount_msat msg
    <= channel_total f + wsum out_claimed_received (pending_outbound_htlcs c).
Proof.
  intros Hok Hf Hpos. unfold validate_update_add_htlc, err_if, get_next_local_commitment_stats. cbn zeta.
  destruct (Z.ltb_spec (wrapping 64 (get_value_satoshis f * 1000)) (add_amount_msat msg)) as [|Hle]; [done|].
  cbn [and_then mret run_ret]. destruct (get_next_remote_commitment_stats _ _ _ _ _ _ _ _) as [[[rst rl]|]|]; [|done..].
  cbn. repeat match goal with |- context [if ?b then Err _ else Ok tt] => destruct b; [done|]; cbn end.
  destruct (next_commitment_stats true c f _ false 0 _ false _) as [[[st l]|]|] eqn:Hst; [|done..]. intros _.
  apply next_stats_inv in Hst as (dust & Hok' & _). rewrite (next_value_exact c f fs) in Hok' by done.
  destruct Hok as [Hi Ho Hh Hs]. rewrite Forall_forall in Hs. destruct (Hs f Hf).
  destruct (sums_nonneg _ _ _ Hi Ho Hh) as (H1 & H2 & H3 & H4 & H5 & H6 & H7).
  unfold channel_total, TOTAL_BITCOIN_SUPPLY_SATOSHIS in *. rewrite wrapping_small in Hle by (unfold fits; lia).
  set (l' := get_next_commitment_htlcs c true _ false) in *.
  assert (htlcs_sum false l' = wsum in_amount_msat (pending_inbound_htlcs c) + add_amount_msat msg) as Hsum.
  { unfold l', get_next_commitment_htlcs. rewrite !htlcs_sum_app, !directions_sum. cbn.
    rewrite (wsum_ext (fun x => if in_next_commitment true x then in_amount_msat x else 0) in_amount_msat)
      by (unfold in_next_commitment; weigh). unfold htlcs_sum. cbn. unfold zsum. cbn. lia. }
  assert (Forall (fun h => 0 <= htlc_amount_msat h) l') as Hnn
    by (apply directions_nonneg; try done; by intros ? [= <-]).
  clearbody l'. revert Hok'. unfold get_next_commitment_stats. rewrite (wrapping_small 64 (get_value_satoshis f * 1000)) by (unfold fits; lia).
  destruct (checked_sub (get_value_satoshis f * 1000) _) as [vtc|] eqn:Hc1; [|done]. cbn -[checked_sub htlcs_value_msat].
  destruct (checked_sub _ (htlcs_value_msat true l')) as [vh|]; [|done]. cbn -[checked_sub htlcs_value_msat].
  rewrite htlcs_value_sum, Hsum; [|done|lia].
  destruct (checked_sub vtc _) as [vc|] eqn:Hc2; [|done]. intros _.
  unfold checked_sub in Hc1, Hc2. repeat case_match; simplify_eq; lia.
Qed.

(** ** The calls *)

Record solvent (c : FundedChannel) : Prop := {
  solvent_ready : is_channel_ready (channel_state (context c)) = true;
  solvent_ledger : context_ok (context c) (funding c :: pending_funding c);
  (** Nothing waits for a revocation that is not awaited. *)
  solvent_waits : is_awaiting_remote_revoke (channel_state (context c)) = false ->
    Forall (fun h => outbound_requires_commitment h = false) (pending_outbound_htlcs (context c));
}.

(** What solvency depends on. *)
Definition ledger_view (c : FundedChannel) :=
  (pending_inbound_htlcs (context c), pending_outbound_htlcs (context c), holding_cell_htlc_updates (context c),
   funding c, pending_funding c, is_awaiting_remote_revoke (channel_state (context c)),
   is_channel_ready (channel_state (context c))).
Ltac ledger_solve := unfold ledger_view in *; cbn in *; repeat case_match; cbn; autorewrite with ldk; congruence.

Lemma solvent_view c c' : ledger_view c' = ledger_view c -> solvent c -> solvent c'.
Proof.
  unfold ledger_view. intros Hv [Hr Hl Hw].
  injection Hv as Hi Ho Hh Hf Hp Ha Hre. split.
  - congruence.
  - unfold context_ok. rewrite Hi, Ho, Hh, Hf, Hp. exact Hl.
  - rewrite Ha, Ho. exact Hw.
Qed.

Ltac same_ledger := multimatch goal with
  | H : solvent ?c |- solvent _ => apply (solvent_view c); [ledger_solve|exact H]
  end.

Lemma send_htlc_solvent env amount cltv hash source onion force extras c : solvent c -> 0 <= amount ->
  ends (send_htlc env amount cltv hash source onion force extras) c (fun r c' => solvent c').
Proof.
  intros Hs Ha. pose proof Hs as [Hr Hl Hw]. unfold send_htlc. ends_go; try done.
  all: match goal with H : context [channel_get_available_balances ?e ?x] |- _ =>
         destruct (channel_get_available_balances e x) as [[ab|]|] eqn:Hab; cbn in H; simplify_eq end.
  all: bool_to_prop; pose proof (fun Hp => room_for_amount _ _ _ amount Hl Hab Hp H3) as Hroom.
  all: specialize (Hroom ltac:(lia)).
  - split; [done| |done]. by apply ledger_hold.
  - bool_to_prop. destruct H5 as [_ H5]. apply can_generate_flags in H5 as (_ & Hawait & _).
    split; [done| |].
    + cbn. eapply ledger_send; [done|done|done|by apply Hw|done].
    + intros _. apply Forall_app_2; [by apply Hw|]. by constructor.
Qed.

Lemma build_commitment_solvent {E} c : is_channel_ready (channel_state (context c)) = true ->
  context_ok (context c) (funding c :: pending_funding c) ->
  ends (E := E) build_commitment_no_status_check c (fun _ c' => solvent c').
Proof.
  intros Hr Hl. pose proof (ledger_commit _ _ _ _ Hl) as Hl'.
  assert (Forall (fun h => outbound_requires_commitment h = false)
            (map commit_outbound_htlc (pending_outbound_htlcs (context c)))) as Hn.
  { apply Forall_map, Forall_true. weigh. }
  unfold build_commitment_no_status_check, commit_fee, bump_monitor_update_id. ends_go;
    cbn; split; cbn; try case_match; cbn; autorewrite with ldk; done.
Qed.

Lemma append_commitment_solvent {E} upd c : is_channel_ready (channel_state (context c)) = true ->
  context_ok (context c) (funding c :: pending_funding c) ->
  ends (E := E) (append_commitment upd) c (fun _ c' => solvent c').
Proof.
  intros Hr Hl. unfold append_commitment. ends_step. ends_call (build_commitment_solvent c Hr Hl).
  destruct r; ends_go; same_ledger.
Qed.

Lemma paused_ledger {E} b1 b2 b3 l1 l2 l3 c :
  ends (E := E) (monitor_updating_paused b1 b2 b3 l1 l2 l3) c (fun _ c' => ledger_view c' = ledger_view c).
Proof. unfold monitor_updating_paused. ends_go. ledger_solve. Qed.
Lemma push_ret_ledger {E} upd c :
  ends (E := E) (push_ret_blockable_mon_update upd) c (fun _ c' => ledger_view c' = ledger_view c).
Proof. unfold push_ret_blockable_mon_update. ends_go; ledger_solve. Qed.
Lemma send_update_fee_ledger {E} env feerate force c :
  ends (E := E) (send_update_fee env feerate force) c (fun _ c' => ledger_view c' = ledger_view c).
Proof. unfold send_update_fee. ends_go; ledger_solve. Qed.

(** *** Removing HTLCs *)

Lemma solvent_resolve c c' i h reason : solvent c -> pending_inbound_htlcs (context c) !! i = Some h ->
  is_in_committed h = true ->
  ledger_view c' = ledger_view (with_context (with_inbound
    (alter (with_in_state (LocalRemoved reason)) i (pending_inbound_htlcs (context c))) (context c)) c) ->
  solvent c'.
Proof.
  intros [Hr Hl Hw] Hi Hc Hv. eapply solvent_view; [exact Hv|]. split; [done| |done].
  by eapply ledger_resolve.
Qed.

Lemma solvent_keep c c' u : solvent c -> held_amount u = 0 ->
  ledger_view c' = ledger_view (with_context (with_holding_cell
    (holding_cell_htlc_updates (context c) ++ [u]) (context c)) c) -> solvent c'.
Proof.
  intros [Hr Hl Hw] Hu Hv. eapply solvent_view; [exact Hv|]. split; [done| |done].
  apply (ledger_hold _ _ _ _ u Hl); [unfold held_nonneg; lia|]. destruct Hl as [_ _ _ Hs].
  eapply Forall_impl; [done|]. intros f []. lia.
Qed.

Lemma find_committed_spec htlc_id l : forall k found i, find_committed htlc_id k l found = Ok (Some i) ->
  found = Some i \/ exists j h, i = (k + j)%nat /\ l !! j = Some h /\ is_in_committed h = true.
Proof.
  induction l as [|h l IH]; intros k found i; cbn [find_committed]; [intros [= ->]; by left|].
  assert (forall found', find_committed htlc_id (S k) l found' = Ok (Some i) -> found' = Some i \/
    exists j x, i = (k + j)%nat /\ (h :: l) !! j = Some x /\ is_in_committed x = true) as Hrec.
  { intros found' [?|(j & x & -> & Hj & Hx)]%IH; [by left|]. right. exists (S j), x. split_and!; [lia|done..]. }
  destruct (in_htlc_id h =? htlc_id); [|apply Hrec].
  destruct (in_state h) eqn:Hst; try done. intros [[= <-]|?]%Hrec; [|by right].
  right. exists 0%nat, h. unfold is_in_committed. rewrite Hst. split_and!; [lia|done..].
Qed.

(** Both kinds of failure remove the HTLC without fulfilling it. *)
Class FailsHTLC (X : Type) `{!FailHTLCContents X} := {
  fails_state (x : X) : exists reason, to_inbound_htlc_state x = LocalRemoved reason;
  fails_held (x : X) id : held_amount (to_htlc_update_awaiting_ack x id) = 0;
}.
#[local] Instance packet_fails : FailsHTLC OnionErrorPacket.
Proof. split; [|done]. by eexists. Qed.
#[local] Instance malformed_fails : FailsHTLC (bytes * Z).
Proof. split; [|done]. by eexists. Qed.

Lemma fail_htlc_solvent {X} `{!FailHTLCContents X, !FailsHTLC X} htlc_id (contents : X) force c : solvent c ->
  ends (fail_htlc htlc_id contents force) c (fun _ c' => solvent c').
Proof.
  intros Hs. unfold fail_htlc, set_inbound_state. ends_go; try done.
  - by apply (solvent_keep c _ (to_htlc_update_awaiting_ack contents htlc_id)); [|apply fails_held|].
  - injection H0 as Hf. subst. apply find_committed_spec in Hf as [?|(j & h & -> & Hj & Hc)]; [done|].
    destruct (fails_state contents) as [reason Hre]. rewrite Hre.
    eapply (solvent_resolve c _ j h reason); try done.
Qed.

Lemma get_update_fulfill_solvent {E} htlc_id preimage info data c : solvent c ->
  ends (E := E) (get_update_fulfill_htlc htlc_id preimage info data) c (fun _ c' => solvent c').
Proof.
  intros Hs. unfold get_update_fulfill_htlc, bump_monitor_update_id, set_inbound_state. ends_go; try done;
    try same_ledger; try by apply (solvent_keep c _ (ClaimHTLC preimage data htlc_id)).
  all: match goal with H : list_find _ _ = Some (?j, ?h) |- _ => apply list_find_Some in H as (Hj & _);
         by apply (solvent_resolve c _ j h (Fulfill preimage data)) end.
Qed.

Lemma claim_solvent {E} htlc_id preimage info data c : solvent c ->
  ends (E := E) (get_update_fulfill_htlc_and_commit htlc_id preimage info data) c (fun _ c' => solvent c').
Proof.
  intros Hs. unfold get_update_fulfill_htlc_and_commit. ends_step. ends_step. ends_step.
  ends_call (get_update_fulfill_solvent htlc_id preimage info data c Hs).
  destruct r as [[upd v b|]|]; ends_go; try done.
  - ends_call @append_commitment_solvent; [apply H|apply H|]. destruct r; ends_go; [|done].
    ends_call @paused_ledger. destruct r; ends_go; same_ledger.
  - match goal with |- ends _ ?s _ => assert (solvent s) as Hs' by same_ledger end.
    ends_call @build_commitment_solvent; [apply Hs'|apply Hs'|].
    destruct r; ends_go; [|done]. ends_call @paused_ledger. destruct r; ends_go; same_ledger.
  - ends_call @paused_ledger. destruct r; ends_go; same_ledger.
Qed.

(** *** The holding cell *)

Lemma free_update_solvent env upd c : solvent c -> held_nonneg upd ->
  ends (free_holding_cell_update env upd) c (fun _ c' => solvent c').
Proof.
  intros Hs Hn. destruct upd; cbn [free_holding_cell_update].
  - ends_step. apply ends_catch. ends_call @send_htlc_solvent; [done|exact Hn|]. destruct r; ends_go; done.
  - ends_step. ends_call @get_update_fulfill_solvent; [done|]. destruct r as [[]|]; ends_go; done.
  - ends_step. apply ends_catch. ends_call @fail_htlc_solvent; [apply _|done|].
    destruct r as [?|[]]; ends_go; done.
  - ends_step. apply ends_catch. ends_call @fail_htlc_solvent; [apply _|done|].
    destruct r as [?|[]]; ends_go; done.
Qed.

Lemma free_updates_solvent env upds c : solvent c -> Forall held_nonneg upds ->
  ends (free_holding_cell_updates env upds) c (fun _ c' => solvent c').
Proof.
  intros Hs Hn. revert c Hs. induction Hn as [|upd upds Hu Hn IH]; intros c Hs; cbn [free_holding_cell_updates].
  { ends_go. done. }
  ends_step. ends_call (free_update_solvent env upd c Hs Hu). destruct r as [[[x y] sent]|]; [|done]. cbv beta iota.
  ends_step. ends_call (IH c' H). destruct r as [[[x' y'] sent']|]; [|done]. ends_go. done.
Qed.

Lemma free_holding_cell_solvent env c : solvent c ->
  ends (free_holding_cell_htlcs env) c (fun _ c' => solvent c').
Proof.
  intros Hs. unfold free_holding_cell_htlcs. ends_go; [|done].
  ends_call (free_updates_solvent env (holding_cell_htlc_updates (context c))
    (with_context (with_holding_cell [] (context c)) c)).
  { split; [apply Hs| |apply Hs]. eapply ledger_drain, Hs. }
  { apply Hs. }
  destruct r as [[[x y] sent]|]; [|done]. cbv beta iota. ends_step.
  apply (ends_mono _ _ (fun _ c2 => ledger_view c2 = ledger_view c')).
  { ends_go; [|done]. ends_call @send_update_fee_ledger. ledger_solve. }
  intros r c2 Hv. assert (solvent c2) as Hs2 by same_ledger. destruct r; [|done]. ends_go; [done|].
  ends_call @append_commitment_solvent; [apply Hs2..|]. destruct r as [u|]; [|done]. cbv beta iota.
  ends_step. ends_call @paused_ledger. destruct r; [|same_ledger]. cbv beta iota. ends_step. ends_call @push_ret_ledger.
  destruct r; ends_go; same_ledger.
Qed.

Lemma maybe_free_solvent env c : solvent c ->
  ends (maybe_free_holding_cell_htlcs env) c (fun _ c' => solvent c').
Proof. intros Hs. unfold maybe_free_holding_cell_htlcs. ends_go; [|done]. by apply free_holding_cell_solvent. Qed.

(** *** The peer's messages *)

Lemma try_for_each_Forall {E A} (f : A -> run (result E unit)) l : try_for_each f l = Return (Ok tt) ->
  Forall (fun x => f x = Return (Ok tt)) l.
Proof.
  induction l as [|x l IH]; cbn; [constructor|]. destruct (f x) as [[[]|]|] eqn:Hx; cbn; try done.
  intros Hl. constructor; [done|by apply IH].
Qed.

Lemma update_add_solvent env msg c : solvent c -> 0 <= add_amount_msat msg ->
  ends (update_add_htlc env msg) c (fun _ c' => solvent c').
Proof.
  intros Hs Ha. unfold update_add_htlc. ends_go; try done.
  match goal with H : () |- _ => destruct H end.
  match goal with H : try_for_each _ _ = _ |- _ => apply try_for_each_Forall in H as Hv end.
  pose proof Hs as [Hr Hl Hw]. split; [done| |done]. cbn. eapply ledger_add; [done|done|done|].
  rewrite Forall_forall in *. intros f Hf.
  apply (validated_room (context c) f (funding c :: pending_funding c) msg (fee_estimator env)); [done..|].
  by apply Hv.
Qed.

Lemma mark_removed_spec htlc_id outcome l : forall h l', mark_removed htlc_id outcome l = Ok (h, l') ->
  exists pre x post, l = pre ++ x :: post /\ out_state x = OutboundCommitted /\
    l' = pre ++ with_out_state (RemoteRemoved outcome) x :: post.
Proof.
  induction l as [|x l IH]; intros h l'; cbn [mark_removed]; [done|]. destruct (out_htlc_id x =? htlc_id).
  - case_match; [done|]. destruct (out_state x) eqn:Hst; try done. intros [= <- <-]. by exists [], x, l.
  - destruct (mark_removed htlc_id outcome l) as [[found rest]|] eqn:Hm; [|done]. cbn. intros [= <- <-].
    destruct (IH _ _ eq_refl) as (pre & y & post & -> & Hst & ->). by exists (x :: pre), y, post.
Qed.

Lemma mark_removed_solvent htlc_id outcome c : solvent c ->
  ends (mark_outbound_htlc_removed htlc_id outcome) c (fun _ c' => solvent c').
Proof.
  intros Hs. unfold mark_outbound_htlc_removed. ends_go; try done.
  injection H as (pre & x & post & Hout & Hst & ->)%mark_removed_spec. pose proof Hs as [Hr Hl Hw].
  unfold context_ok in Hl. rewrite Hout in *. split; [done| |].
  - by apply ledger_removed.
  - intros Ha. specialize (Hw Ha). apply Forall_app in Hw as [Hw1 [_ Hw2]%Forall_cons].
    apply Forall_app_2; [done|]. by constructor.
Qed.

Lemma signed_nothing_waits out : existsb is_remote_removed out = false ->
  Forall (fun h => outbound_requires_commitment h = false) out ->
  Forall (fun h => outbound_requires_commitment h = false) (map signed_outbound_htlc out).
Proof.
  intros Hex Hout. apply Forall_map. induction Hout as [|h out Hh Hout IH]; [constructor|]. cbn in Hex.
  apply orb_false_elim in Hex as [Hr Hex]. constructor; [|by apply IH].
  unfold outbound_requires_commitment, signed_outbound_htlc, is_remote_removed in *. by destruct (out_state h) eqn:E; rewrite ?E.
Qed.

Lemma signed_awaits c need : solvent c ->
  (need || existsb is_remote_removed (pending_outbound_htlcs (context c))) &&
    negb (is_awaiting_remote_revoke (channel_state (context c))) = false ->
  is_awaiting_remote_revoke (channel_state (context c)) = false ->
  Forall (fun h => outbound_requires_commitment h = false)
    (map signed_outbound_htlc (pending_outbound_htlcs (context c))).
Proof.
  intros [_ _ Hw] Hn Ha. rewrite Ha, andb_true_r in Hn. apply orb_false_elim in Hn as [_ Hn].
  by apply signed_nothing_waits, Hw.
Qed.

Lemma commitment_signed_solvent env step c : solvent c ->
  ends (commitment_signed_update_monitor env step) c (fun _ c' => solvent c').
Proof.
  intros Hs. pose proof Hs as [Hr Hl Hw]. pose proof (ledger_signed _ _ _ _ Hl) as Hl'.
  unfold commitment_signed_update_monitor, bump_monitor_update_id. ends_go; [| | | |done].
  all: match goal with |- ends _ ?s _ =>
    assert (is_channel_ready (channel_state (context s)) = true /\
            context_ok (context s) (funding s :: pending_funding s)) as [Hr2 Hl2] by done end.
  - ends_call @append_commitment_solvent; [done|done|]. destruct r; [|done]. ends_call @push_ret_ledger. same_ledger.
  - ends_call @push_ret_ledger. eapply solvent_view; [done|]. split; [done|done|].
    by eapply (signed_awaits c).
  - ends_call @append_commitment_solvent; [done|done|]. destruct r; [|done]. cbv beta iota. ends_step.
    ends_call @paused_ledger. destruct r; ends_go; [ends_call @push_ret_ledger|]; same_ledger.
  - match goal with |- ends _ ?s _ => assert (solvent s) as Hs2 end.
    { split; [done|done|]. by eapply (signed_awaits c). }
    ends_call @paused_ledger. destruct r; [ends_call @push_ret_ledger|]; same_ledger.
Qed.

(** *** Revocations *)

Lemma accept_revocation_ledger env msg c :
  ends (accept_revocation env msg) c (fun _ c' => ledger_view c' = ledger_view c).
Proof. unfold accept_revocation, revoke_and_ack_check_state. ends_go; ledger_solve. Qed.

Lemma step_htlcs_solvent env c : is_channel_ready (channel_state (context c)) = true ->
  context_ok (context c) (funding c :: pending_funding c) ->
  ends (step_htlcs env) c (fun _ c' => solvent c').
Proof.
  intros Hr Hl. pose proof (ledger_revoke _ _ _ _ Hl) as Hl'.
  assert (Forall (fun h => outbound_requires_commitment h = false)
            (revoked_outbound (pending_outbound_htlcs (context c)))) as Hn.
  { apply Forall_map, Forall_kept, Forall_true. weigh. }
  unfold step_htlcs, revoke_fee. ends_go; by split.
Qed.

Lemma revoke_and_ack_solvent env msg hold c : solvent c ->
  ends (revoke_and_ack env msg hold) c (fun _ c' => solvent c').
Proof.
  intros Hs. unfold revoke_and_ack, bump_monitor_update_id. ends_step. ends_call @accept_revocation_ledger.
  assert (solvent c') as [Hr Hl _] by same_ledger. destruct r; [|same_ledger]. ends_go.
  ends_call @step_htlcs_solvent; [by case_match; cbn; autorewrite with ldk|by case_match|].
  destruct r as [[[[[require fwd] revoked] fin] adds]|]; [|done]. ends_go.
  unfold commit_after_revocation. ends_step. ends_call @maybe_free_solvent; [same_ledger|].
  destruct r as [[freed fails]|]; [|done]. cbv beta iota.
  apply (ends_mono _ _ (fun _ c2 => solvent c2)).
  { ends_go; try same_ledger. ends_call @append_commitment_solvent; [apply H1..|].
    destruct r; ends_go; done. }
  intros [[[upd b] fails']|] c2 Hs2; [|done]. cbv beta iota. ends_step. ends_call @paused_ledger.
  destruct r; [|same_ledger]. unfold release_or_block. ends_go; same_ledger.
Qed.

(** *** Resending and disconnecting *)

Lemma last_raa_ledger {E} env path c :
  ends (E := E) (get_last_revoke_and_ack env path) c (fun _ c' => ledger_view c' = ledger_view c).
Proof. unfold get_last_revoke_and_ack. ends_go; done. Qed.
Lemma last_commitment_ledger {E} env c :
  ends (E := E) (get_last_commitment_update_for_send env) c (fun _ c' => ledger_view c' = ledger_view c).
Proof. unfold get_last_commitment_update_for_send. ends_go; done. Qed.
Lemma hold_back_ledger {E} raa upd c :
  ends (E := E) (hold_back_second raa upd) c (fun _ c' => ledger_view c' = ledger_view c).
Proof. unfold hold_back_second. ends_go; done. Qed.

Ltac ledger_call lem :=
  eapply ends_mono; [apply lem|let r := fresh in intros r ? ?; destruct r as [?|?]; cbv beta iota].
Ltac resend_go := repeat first
  [ ends_step
  | match goal with
    | |- ends (get_last_revoke_and_ack _ _) _ _ => ledger_call @last_raa_ledger
    | |- ends (get_last_commitment_update_for_send _) _ _ => ledger_call @last_commitment_ledger
    | |- ends (hold_back_second _ _) _ _ => ledger_call @hold_back_ledger
    end ].

Lemma restored_ledger {E} env path c :
  ends (E := E) (monitor_updating_restored env path) c (fun _ c' => ledger_view c' = ledger_view c).
Proof.
  unfold monitor_updating_restored. resend_go; unfold ledger_view in *; cbn in *; autorewrite with ldk in *; congruence.
Qed.
Lemma signer_unblocked_ledger {E} env path c :
  ends (E := E) (signer_maybe_unblocked env path) c (fun _ c' => ledger_view c' = ledger_view c).
Proof. unfold signer_maybe_unblocked. resend_go; ledger_solve. Qed.

Lemma disconnect_solvent {E} c : solvent c ->
  ends (E := E) remove_uncommitted_htlcs_and_mark_paused c (fun _ c' => solvent c').
Proof.
  intros Hs. pose proof Hs as [Hr Hl Hw]. pose proof (ledger_disconnect _ _ _ _ Hl) as Hl'.
  unfold remove_uncommitted_htlcs_and_mark_paused. ends_go; [same_ledger|].
  split; cbn; repeat (case_match; cbn); autorewrite with ldk; try done.
  all: intros Ha; apply Forall_map; eapply Forall_impl; [by apply Hw|]; weigh.
Qed.

(** *** Runs *)

(** The amounts of a call are [u64]s. *)
Definition op_typed (op : Op) : Prop :=
  match op with
  | OpSend amount _ _ _ _ _ _ _ _ _ | OpQueueAdd amount _ _ _ _ _ _ _ _ _ => fits 64 amount
  | OpRecvAdd msg => fits 64 (add_amount_msat msg)
  | _ => True
  end.

Lemma apply_op_solvent env op c : solvent c -> op_typed op -> ends (apply_op env op) c (fun _ c' => solvent c').
Proof.
  intros Hs Ht. destruct op; cbn [apply_op op_typed] in *; unfold fits in Ht; try apply proj1 in Ht.
  - unfold send_htlc_and_commit. ends_step. apply ends_catch. ends_call (send_htlc_solvent); [done..|].
    destruct r as [[]|]; ends_go; try done. ends_call @build_commitment_solvent; [apply H..|].
    destruct r; [|done]. cbv beta iota. ends_step. ends_call @paused_ledger. destruct r; [|same_ledger].
    ends_call @push_ret_ledger. same_ledger.
  - ends_step. apply ends_catch. unfold queue_add_htlc. ends_step. ends_call @send_htlc_solvent; [done..|].
    destruct r; ends_go; done.
  - ends_step. ends_call @claim_solvent; [done|]. destruct r; ends_go; done.
  - unfold queue_fail_htlc, queue_fail. ends_step. ends_step. ends_call @fail_htlc_solvent; [apply _|done|].
    destruct r; ends_go; done.
  - unfold queue_fail_malformed_htlc, queue_fail. ends_step. ends_step. ends_call @fail_htlc_solvent; [apply _|done|].
    destruct r; ends_go; done.
  - unfold queue_update_fee. ends_step. ends_step. ends_call @send_update_fee_ledger. destruct r; ends_go; same_ledger.
  - ends_step. ends_call @maybe_free_solvent; [done|]. destruct r as [[]|]; ends_go; done.
  - ends_step. ends_call @update_add_solvent; [done..|]. destruct r; ends_go; done.
  - unfold update_fulfill_htlc, check_removal_allowed. ends_go; try done.
    ends_call @mark_removed_solvent; [done|]. destruct r; ends_go; done.
  - unfold update_fail_htlc, check_removal_allowed. ends_go; try done.
    ends_call @mark_removed_solvent; [done|]. destruct r; ends_go; done.
  - unfold update_fail_malformed_htlc, check_removal_allowed. ends_go; try done.
    ends_call @mark_removed_solvent; [done|]. destruct r; ends_go; done.
  - unfold update_fee. ends_go; same_ledger.
  - unfold commitment_signed, commitment_signed_check_state. ends_go; try done.
    all: by apply commitment_signed_solvent.
  - unfold commitment_signed_batch, commitment_signed_check_state. ends_go; try done.
    by apply commitment_signed_solvent.
  - ends_step. ends_call @revoke_and_ack_solvent; [done|]. destruct r as [[[]]|]; ends_go; done.
  - unfold unblock_next_blocked_monitor_update. ends_go; same_ledger.
  - ends_step. ends_call @restored_ledger. destruct r; ends_go; same_ledger.
  - ends_step. ends_call @signer_unblocked_ledger. destruct r; ends_go; same_ledger.
  - ends_step. ends_call @disconnect_solvent; [done|]. destruct r; ends_go; done.
Qed.

Lemma run_solvent ops : forall c upds c', solvent c -> Forall (fun op => op_typed op.2) ops ->
  run_ops ops c = Return (upds, c') -> solvent c'.
Proof.
  induction ops as [|[env op] ops IH]; intros c upds c' Hs Ht; cbn [run_ops]; [by intros [= <- <-]|].
  apply Forall_cons in Ht as [Hop Ht].
  pose proof (apply_op_solvent env op c Hs Hop) as Hend. unfold ends in Hend. cbn.
  destruct (apply_op env op c) as [[res c1]|]; [|done]. specialize (Hend _ _ eq_refl). cbn.
  destruct (run_ops ops c1) as [[upds2 c2]|] eqn:Hrun; [|done]. cbn. intros [= <- <-]. by eapply IH.
Qed.

(** ** The commitments *)

(** What a commitment generated by one side holds in HTLCs offered by us and by
    the peer. *)
Definition committed_out (c : ChannelContext) (generated_by_local : bool) : Z :=
  zsum (map out_amount_msat (List.filter (out_included generated_by_local) (pending_outbound_htlcs c))).
Definition committed_in (c : ChannelContext) (generated_by_local : bool) : Z :=
  zsum (map in_amount_msat (List.filter (in_included generated_by_local) (pending_inbound_htlcs c))).

Lemma committed_out_wsum c gen : committed_out c gen =
  wsum (fun h => if out_included gen h then out_amount_msat h else 0) (pending_outbound_htlcs c).
Proof. unfold committed_out. by rewrite wsum_zsum, wsum_filter. Qed.
Lemma committed_in_wsum c gen : committed_in c gen =
  wsum (fun h => if in_included gen h then in_amount_msat h else 0) (pending_inbound_htlcs c).
Proof. unfold committed_in. by rewrite wsum_zsum, wsum_filter. Qed.

(** The balance a commitment starts from. *)
Lemma commitment_value_exact c f fs (gen : bool) : context_ok c fs -> f ∈ fs ->
  let v := value_to_self_msat f +
    (if gen then wsum in_fulfilled (pending_inbound_htlcs c) - wsum out_gone (pending_outbound_htlcs c)
     else - wsum out_claimed_received (pending_outbound_htlcs c)) in
  commitment_value_to_self_msat c f gen = Return v /\
  0 <= committed_out c gen <= v /\ 0 <= committed_in c gen <= channel_total f - v.
Proof.
  intros [Hi Ho Hh Hs] Hf v. rewrite Forall_forall in Hs. destruct (Hs f Hf).
  destruct (sums_nonneg _ _ _ Hi Ho Hh) as (H1 & H2 & H3 & H4 & H5 & H6 & H7).
  rewrite committed_out_wsum, committed_in_wsum.
  unfold commitment_value_to_self_msat, channel_total, TOTAL_BITCOIN_SUPPLY_SATOSHIS in *.
  assert (wsum (fun h => if in_settled gen h then in_amount_msat h else 0) (pending_inbound_htlcs c) =
          if gen then wsum in_fulfilled (pending_inbound_htlcs c) else 0) as Hin.
  { destruct gen; [|transitivity (wsum (fun _ : InboundHTLCOutput => 0) (pending_inbound_htlcs c));
      [|apply wsum_zero]]; apply wsum_ext; unfold in_settled, in_included; weigh. }
  assert (wsum (fun h => if out_settled gen h then out_amount_msat h else 0) (pending_outbound_htlcs c) =
          wsum (if gen then out_gone else out_claimed_received) (pending_outbound_htlcs c)) as Hout.
  { apply wsum_ext. unfold out_settled, out_included. destruct gen; weigh. }
  rewrite (wsum_u64 out_amount_msat), Hout; [|done|rewrite Hout; destruct gen; lia].
  rewrite (wsum_u64 in_amount_msat), Hin; [|done|rewrite Hin; destruct gen; lia].
  rewrite wrapping_small by (unfold fits; destruct gen; lia).
  assert (wsum (fun h => if out_included gen h then out_amount_msat h else 0) (pending_outbound_htlcs c) +
    wsum (if gen then out_gone else out_claimed_received) (pending_outbound_htlcs c) <=
    wsum (if gen then out_sent else out_received) (pending_outbound_htlcs c)) as Hco.
  { rewrite <- wsum_add. apply (wsum_le out_nonneg); [done|]. unfold out_included. destruct gen; weigh. }
  assert (wsum (fun h => if in_included gen h then in_amount_msat h else 0) (pending_inbound_htlcs c) +
    (if gen then wsum in_fulfilled (pending_inbound_htlcs c) else 0) <=
    wsum (if gen then in_sent else in_amount_msat) (pending_inbound_htlcs c)) as Hci.
  { destruct gen; [rewrite <- wsum_add|rewrite Z.add_0_r]; (apply (wsum_le in_nonneg); [done|]);
      unfold in_included; weigh. }
  assert (0 <= wsum (fun h => if out_included gen h then out_amount_msat h else 0) (pending_outbound_htlcs c))
    by (apply (wsum_nonneg out_nonneg); [done|]; unfold out_included; weigh).
  assert (0 <= wsum (fun h => if in_included gen h then in_amount_msat h else 0) (pending_inbound_htlcs c))
    by (apply (wsum_nonneg in_nonneg); [done|]; unfold in_included; weigh).
  rewrite checked_sub_ok by (destruct gen; lia). cbn [unwrap].
  unfold v. split; [f_equal; destruct gen; lia|]. destruct gen; lia.
Qed.

(** The totals of the [retain] pass are these sums. *)
Lemma commitment_directions c local gen : map (direction local) (map fst (commitment_htlcs c local gen)) =
  map (fun h => mkDirection false (in_amount_msat h)) (List.filter (in_included gen) (pending_inbound_htlcs c)) ++
  map (fun h => mkDirection true (out_amount_msat h)) (List.filter (out_included gen) (pending_outbound_htlcs c)).
Proof.
  unfold commitment_htlcs. rewrite !map_app, !map_map. f_equal; apply map_ext; intros h; cbn;
    unfold direction; cbn; by destruct local.
Qed.

Lemma commitment_totals c f fs local gen feerate dust : context_ok c fs -> f ∈ fs ->
  exists kept, trim_htlcs local (get_channel_type f) feerate dust (map fst (commitment_htlcs c local gen)) =
    (committed_out c gen, committed_in c gen, kept).
Proof.
  intros Hok Hf. destruct (commitment_value_exact c f fs gen Hok Hf) as (_ & Hout & Hin).
  destruct Hok as [Hi Ho _ Hs]. rewrite Forall_forall in Hs. destruct (Hs f Hf) as [Hv _ _ _ _ _ _ _].
  set (hs := map fst (commitment_htlcs c local gen)).
  assert (forall out, htlcs_sum out (map (direction local) hs) =
    if out then committed_out c gen else committed_in c gen) as Hsum.
  { intros out. unfold hs. rewrite commitment_directions, htlcs_sum_app, !directions_sum,
      committed_out_wsum, committed_in_wsum. destruct out; cbn; lia. }
  eexists. rewrite trim_htlcs_spec, !Hsum; [done| |].
  - unfold hs, commitment_htlcs. rewrite map_app, !map_map. apply Forall_app_2; by apply Forall_map, Forall_kept.
  - rewrite <- (directions_amounts local), <- htlcs_sum_partition, !Hsum.
    unfold channel_total, TOTAL_BITCOIN_SUPPLY_SATOSHIS in *. lia.
Qed.

Lemma balances_exist local outb cv v out inb fee dust ct : 0 <= cv <= TOTAL_BITCOIN_SUPPLY_SATOSHIS ->
  0 <= out <= v -> 0 <= inb <= cv * 1000 - v ->
  is_return (commitment_balances local outb cv v out inb fee dust ct) = true.
Proof.
  unfold TOTAL_BITCOIN_SUPPLY_SATOSHIS. intros Hcv Ho Hi. unfold commitment_balances.
  rewrite (wrapping_small 64 (cv * 1000)) by (unfold fits; lia).
  rewrite !checked_sub_ok by lia. cbn [unwrap mbind run_bind].
  rewrite !checked_sub_ok by lia. cbn [unwrap mbind run_bind].
  by repeat case_match.
Qed.

(** A channel with no updates yet. *)
Record channel_opened (c : FundedChannel) : Prop := {
  opened_ready : is_channel_ready (channel_state (context c)) = true;
  opened_inbound : pending_inbound_htlcs (context c) = [];
  opened_outbound : pending_outbound_htlcs (context c) = [];
  opened_held : holding_cell_htlc_updates (context c) = [];
  opened_scopes : Forall (fun f => 0 <= get_value_satoshis f <= TOTAL_BITCOIN_SUPPLY_SATOSHIS /\
    0 <= value_to_self_msat f <= channel_total f) (funding c :: pending_funding c);
}.

Lemma opened_solvent c : channel_opened c -> solvent c.
Proof.
  intros [Hr Hi Ho Hh Hs]. split; [done| |by rewrite Ho].
  unfold context_ok. rewrite Hi, Ho, Hh. split; [constructor..|].
  eapply Forall_impl; [done|]. intros f [Hv Hw]. split; cbn; lia.
Qed.


End solvency.

(** ** An example *)

