(* ===== verification/Ser.v ===== *)
(** * Encodings (lightning/src/util/ser.rs, lightning/src/util/ser_macros.rs)

    Integers, variable-length integers and TLV streams.  A value is written to a
    list of bytes; a reader is a computation on the bytes not yet read, in the
    monad [M], so that what was consumed is known on the error path too.  The
    macros that generate the code of a TLV stream are one definition each over
    the list of its fields. *)

From Stdlib Require Import ZArith Lia Bool Sorting.Sorted.
From S2P Require Import Prelude.
From S2P Require Import Keys.

Local Open Scope Z_scope.

(** ** Readers *)

Inductive DecodeError : Type :=
| UnknownVersion
| UnknownRequiredFeature
| InvalidValue
| ShortRead
| BadLengthDescriptor
| IoError
| UnsupportedCompression
| DangerousValue.

#[export] Instance DecodeError_eq : EqDecision DecodeError.
Proof. solve_decision. Defined.

Definition reader (A : Type) : Type := M bytes DecodeError A.

(** [Read::read_exact]; what a failed read leaves is consumed. *)
Definition read_exact (n : nat) : reader bytes := fun r =>
  if (n <=? length r)%nat then (Ok (take n r), drop n r) else (Err ShortRead, []).

(** ** Integers *)

(** [to_be_bytes], [from_be_bytes] of an integer of [n] bytes *)
Fixpoint to_be (n : nat) (x : Z) : bytes :=
  match n with
  | O => []
  | S n => (x / 256 ^ Z.of_nat n) mod 256 :: to_be n x
  end.
Definition from_be (l : bytes) : Z := foldl (fun acc b => acc * 256 + b) 0 l.

Definition read_be (n : nat) : reader Z := bs ← read_exact n; mret (from_be bs).

(** [leading_zeros] of an integer of [w] bits *)
Definition leading_zeros (w x : Z) : Z := if x =? 0 then w else w - 1 - Z.log2 x.

(** [HighZeroBytesDroppedBigSize], of an integer of [n] bytes *)
Definition high_zero_write (n : nat) (x : Z) : bytes :=
  drop (Z.to_nat (leading_zeros (8 * Z.of_nat n) x / 8)) (to_be n x).
Definition high_zero_read (n : nat) : reader Z := fun r =>
  let bs := take n r in
  match bs with
  | [] => (Ok 0, [])
  | b :: _ => if b =? 0 then (Err InvalidValue, drop n r) else (Ok (from_be bs), drop n r)
  end.

(** [BigSize] *)
Definition bigsize_write (x : Z) : bytes :=
  if x <=? 252 then [x]
  else if x <=? 65535 then 253 :: to_be 2 x
  else if x <=? 4294967295 then 254 :: to_be 4 x
  else 255 :: to_be 8 x.

Definition bigsize_read : reader Z :=
  n ← read_be 1;
  if n =? 255 then x ← read_be 8; bail_if (x <? 4294967296) InvalidValue ;; mret x
  else if n =? 254 then x ← read_be 4; bail_if (x <? 65536) InvalidValue ;; mret x
  else if n =? 253 then x ← read_be 2; bail_if (x <? 253) InvalidValue ;; mret x
  else mret n.

(** [CollectionLength] *)
Definition collection_length_write (x : Z) : bytes :=
  if x <? 65535 then to_be 2 x else to_be 2 65535 ++ to_be 8 (x - 65535).

Definition collection_length_read : reader Z :=
  val ← read_be 2;
  if val =? 65535 then
    x ← read_be 8;
    if x + 65535 <=? umax 64 then mret (x + 65535) else throw InvalidValue
  else mret val.

(** ** TLV streams *)

(** The fields of a TLV stream: the reader of each known type, which says how the
    value read changes the fields, the types that are required, and the types
    handed to the closure for custom records. *)
Record tlv_fields (T : Type) : Type := mkFields {
  field : Z -> option (reader (T -> T));
  required : list Z;
  custom : Z -> bytes -> option (T -> T);
}.
Arguments mkFields {T} field required custom.
Arguments field {T} t typ.
Arguments required {T} t.
Arguments custom {T} t typ value.

(** A field that is set to what [read] reads. *)
Definition set_field {T A} (read : reader A) (set : A -> T -> T) : option (reader (T -> T)) :=
  Some (fun r => match read r with
                 | (Ok x, r') => (Ok (set x), r')
                 | (Err e, r') => (Err e, r')
                 end).

(** [WithoutLength<Vec<u8>>]: all that is left *)
Definition read_rest : reader bytes := fun r => (Ok r, []).

(** [_encode_tlv] and [_encode_tlv_stream], of the records that are present *)
Definition encode_tlv (tlv : Z * bytes) : bytes :=
  bigsize_write tlv.1 ++ bigsize_write (Z.of_nat (length tlv.2)) ++ tlv.2.
Definition encode_tlv_stream (tlvs : list (Z * bytes)) : bytes := mjoin (map encode_tlv tlvs).
(** [_encode_varint_length_prefixed_tlv] *)
Definition encode_length_prefixed (tlvs : list (Z * bytes)) : bytes :=
  bigsize_write (Z.of_nat (length (encode_tlv_stream tlvs))) ++ encode_tlv_stream tlvs.

Section tlv.
Context {T : Type}.
Implicit Types (F : tlv_fields T) (s : T).

(** What a [FixedLengthReader] of [len] bytes gives of the unread bytes, and
    whether there are fewer. *)
Definition limited (len : Z) (r : bytes) : bytes * bytes * bool :=
  if Z.of_nat (length r) <? len then (r, [], true)
  else (take (Z.to_nat len) r, drop (Z.to_nat len) r, false).

(** The [match] on the type of a record. *)
Definition decode_tlv F (typ len : Z) : reader (T -> T) := fun r =>
  let '(value, rest, short) := limited len r in
  let eat_remaining f := if short : bool then (Err ShortRead, rest) else (Ok f, rest) in
  match field F typ with
  | Some read =>
      match read value with
      | (Err e, _) => (Err e, rest)
      | (Ok f, unread) =>
          if short then (Err ShortRead, rest)
          else if bool_decide (unread = []) then (Ok f, rest) else (Err InvalidValue, rest)
      end
  | None =>
      match custom F typ value with
      | Some f => eat_remaining f
      | None => if Z.even typ then (Err UnknownRequiredFeature, rest) else eat_remaining id
      end
  end.

Definition before (last_seen : option Z) (typ : Z) : bool :=
  match last_seen with None => true | Some t => t <? typ end.

(** The loop of [_decode_tlv_stream_range] over a whole stream.  Every record has
    at least two bytes, so as many rounds as bytes are enough. *)
Fixpoint decode_tlvs F (rounds : nat) (last_seen : option Z) s : reader T := fun r =>
  match rounds, bigsize_read r with
  | _, (Err ShortRead, r') =>
      if bool_decide (r = [])
      then if existsb (before last_seen) (required F) then (Err InvalidValue, []) else (Ok s, [])
      else (Err ShortRead, r')
  | _, (Err e, r') => (Err e, r')
  | O, (Ok _, r') => (Err IoError, r')
  | S rounds, (Ok typ, r') =>
      if negb (before last_seen typ) then (Err InvalidValue, r')
      else if existsb (fun t => before last_seen t && (t <? typ)) (required F) then (Err InvalidValue, r')
      else match bigsize_read r' with
           | (Err e, r') => (Err e, r')
           | (Ok len, r') =>
               match decode_tlv F typ len r' with
               | (Err e, r') => (Err e, r')
               | (Ok f, r') => decode_tlvs F rounds (Some typ) (f s) r'
               end
           end
  end.

Definition decode_tlv_stream F s : reader T := fun r => decode_tlvs F (length r) None s r.

(** [read_tlv_fields]: a stream behind its length. *)
Definition read_tlv_fields F s : reader T := fun r =>
  match bigsize_read r with
  | (Err e, r') => (Err e, r')
  | (Ok len, r') =>
      let '(stream, rest, short) := limited len r' in
      match decode_tlv_stream F s stream with
      | (Err e, _) => (Err e, rest)
      | (Ok s, _) => if short : bool then (Err ShortRead, rest) else (Ok s, rest)
      end
  end.
End tlv.

(** ** Sequencing *)

Lemma bind_Ok {S E A B} (m : M S E A) (f : A -> M S E B) s a s' :
  m s = (Ok a, s') -> (m ≫= f) s = f a s'.
Proof. unfold mbind, M_bind. by intros ->. Qed.

Lemma read_bind {A B} (m : reader A) (f : A -> reader B) r a r' :
  m r = (Ok a, r') -> @mbind reader M_bind A B f m r = f a r'.
Proof. apply bind_Ok. Qed.

Lemma bind_inv {S E A B} (m : M S E A) (f : A -> M S E B) s b s'' : (m ≫= f) s = (Ok b, s'') ->
  exists a s', m s = (Ok a, s') /\ f a s' = (Ok b, s'').
Proof. unfold mbind, M_bind. destruct (m s) as [[a|e] s'] eqn:E1; [|done]. eauto. Qed.

Lemma bail_if_false {S E} c (e : E) (s : S) : c = false -> bail_if c e s = (Ok tt, s).
Proof. by intros ->. Qed.

Lemma bail_if_Ok {S E} c (e : E) (s s' : S) u : bail_if c e s = (Ok u, s') -> c = false /\ s' = s.
Proof. unfold bail_if. by destruct c; intros [=]. Qed.

(** ** Integers: round trips and unique encodings *)

Lemma to_be_length n x : length (to_be n x) = n.
Proof. induction n; simpl; auto. Qed.

Lemma to_be_fits n x : Forall (fits 8) (to_be n x).
Proof. induction n; simpl; constructor; [apply Z.mod_pos_bound; lia|done]. Qed.

Lemma from_be_acc l acc : foldl (fun acc b => acc * 256 + b) acc l = acc * 256 ^ Z.of_nat (length l) + from_be l.
Proof.
  unfold from_be. revert acc. induction l as [|b l IH]; intros acc; cbn [foldl length]; [lia|].
  rewrite IH, (IH (0 * 256 + b)). replace (Z.of_nat (S (length l))) with (Z.of_nat (length l) + 1) by lia.
  rewrite Z.pow_add_r by lia. lia.
Qed.

Lemma from_be_cons b l : from_be (b :: l) = b * 256 ^ Z.of_nat (length l) + from_be l.
Proof. unfold from_be at 1. cbn [foldl]. rewrite from_be_acc. lia. Qed.

Lemma from_be_app l k : from_be (l ++ k) = from_be l * 256 ^ Z.of_nat (length k) + from_be k.
Proof. unfold from_be at 1. rewrite foldl_app. apply from_be_acc. Qed.

Lemma from_be_range l : Forall (fits 8) l -> 0 <= from_be l < 256 ^ Z.of_nat (length l).
Proof.
  induction 1 as [|b l Hb Hl IH]; [done|]. rewrite from_be_cons. cbn [length].
  replace (Z.of_nat (S (length l))) with (Z.of_nat (length l) + 1) by lia. rewrite Z.pow_add_r by lia.
  unfold fits in Hb. nia.
Qed.

Lemma from_to_be n x : 0 <= x < 256 ^ Z.of_nat n -> from_be (to_be n x) = x.
Proof.
  revert x. assert (forall x, 0 <= x -> from_be (to_be n x) = x mod 256 ^ Z.of_nat n) as H.
  { induction n as [|n IH]; intros x Hx; [by rewrite Z.mod_1_r|]. cbn [to_be].
    rewrite from_be_cons, to_be_length, IH by done.
    replace (Z.of_nat (S n)) with (Z.of_nat n + 1) by lia. rewrite Z.pow_add_r by lia.
    rewrite (Z.rem_mul_r x (256 ^ Z.of_nat n) (256 ^ 1)) by lia. rewrite Z.pow_1_r. lia. }
  intros x Hx. rewrite H by lia. by apply Z.mod_small.
Qed.

Lemma to_be_shift n m a x : (n <= m)%nat -> to_be n (a * 256 ^ Z.of_nat m + x) = to_be n x.
Proof.
  induction n as [|n IH]; intros Hn; [done|]. cbn [to_be]. rewrite IH by lia. f_equal.
  replace (Z.of_nat m) with (Z.of_nat (m - S n) + 1 + Z.of_nat n) by lia.
  rewrite !Z.pow_add_r, !Z.mul_assoc, Z.div_add_l by lia.
  replace (a * 256 ^ Z.of_nat (m - S n) * 256 ^ 1) with (a * 256 ^ Z.of_nat (m - S n) * 256) by lia.
  by rewrite Z.add_comm, Z.mod_add by lia.
Qed.

Lemma to_from_be l : Forall (fits 8) l -> to_be (length l) (from_be l) = l.
Proof.
  induction 1 as [|b l Hb Hl IH]; [done|]. cbn [length to_be]. rewrite from_be_cons.
  pose proof (from_be_range l Hl) as Hr. f_equal.
  - rewrite Z.div_add_l, (Z.div_small (from_be l)), Z.add_0_r by lia. by apply Z.mod_small.
  - by rewrite to_be_shift.
Qed.

Lemma read_exact_app n bs r : length bs = n -> read_exact n (bs ++ r) = (Ok bs, r).
Proof.
  intros <-. unfold read_exact. rewrite (proj2 (Nat.leb_le _ _)) by (rewrite length_app; lia).
  by rewrite take_app_length, drop_app_length.
Qed.

Lemma read_exact_Ok n r bs r' : read_exact n r = (Ok bs, r') -> r = bs ++ r' /\ length bs = n.
Proof.
  unfold read_exact. destruct (Nat.leb_spec n (length r)); intros [=]; subst.
  by rewrite take_drop, length_take_le.
Qed.

Lemma read_be_app n x r : 0 <= x < 256 ^ Z.of_nat n -> read_be n (to_be n x ++ r) = (Ok x, r).
Proof.
  intros Hx. unfold read_be, mbind, M_bind, mret, M_ret. rewrite read_exact_app by apply to_be_length. by rewrite from_to_be.
Qed.

Lemma read_be_Ok n r x r' : Forall (fits 8) r -> read_be n r = (Ok x, r') ->
  r = to_be n x ++ r' /\ 0 <= x < 256 ^ Z.of_nat n.
Proof.
  intros Hr. unfold read_be, mbind, M_bind, mret, M_ret. destruct (read_exact n r) as [[bs|e] r1] eqn:E; cbn; intros [=]; subst.
  apply read_exact_Ok in E as [-> <-]. apply Forall_app in Hr as [Hb _]. split; [by rewrite to_from_be|].
  by apply from_be_range.
Qed.

Lemma read_be_1 b r : read_be 1 (b :: r) = (Ok b, r).
Proof. done. Qed.

Lemma read_be_short n r e r' : read_be n r = (Err e, r') -> e = ShortRead.
Proof. unfold read_be, mbind, M_bind, read_exact. destruct (n <=? length r)%nat; [done|congruence]. Qed.

(** A [BigSize] that is written is read back, and nothing else is read as it. *)
Lemma bigsize_write_read x r : fits 64 x -> bigsize_read (bigsize_write x ++ r) = (Ok x, r).
Proof.
  unfold fits, bigsize_write, bigsize_read. intros Hx.
  destruct (Z.leb_spec x 252); [|destruct (Z.leb_spec x 65535); [|destruct (Z.leb_spec x 4294967295)]].
  1: { cbn [app]. rewrite (bind_Ok _ _ _ x r) by done.
       by rewrite !(proj2 (Z.eqb_neq _ _)) by lia. }
  all: rewrite <- app_comm_cons; erewrite bind_Ok by apply read_be_1; cbn [Z.eqb Pos.eqb];
    erewrite bind_Ok by (apply read_be_app; cbn; lia); by erewrite bind_Ok by (apply bail_if_false; lia).
Qed.

Lemma read_minimal_Ok n low r x r' : Forall (fits 8) r ->
  (x ← read_be n; bail_if (x <? low) InvalidValue ;; mret x) r = (Ok x, r') ->
  r = to_be n x ++ r' /\ low <= x < 256 ^ Z.of_nat n.
Proof.
  intros Hr (y & r1 & Hy & (? & r2 & [Hlow ->]%bail_if_Ok & [= -> ->])%bind_inv)%bind_inv.
  apply read_be_Ok in Hy as [-> ?]; [|done]. split; [done|lia].
Qed.

Lemma bigsize_read_Ok r x r' : Forall (fits 8) r -> bigsize_read r = (Ok x, r') ->
  r = bigsize_write x ++ r' /\ fits 64 x.
Proof.
  unfold bigsize_read, bigsize_write, fits. destruct r as [|b r]; [done|].
  intros [Hb Hr]%Forall_cons. erewrite bind_Ok by apply read_be_1. unfold fits in Hb.
  destruct (Z.eqb_spec b 255) as [->|]; [|destruct (Z.eqb_spec b 254) as [->|];
    [|destruct (Z.eqb_spec b 253) as [->|]]].
  1-3: intros E; apply read_minimal_Ok in E as [-> Hx]; [|done]; cbn in Hx; split; [|lia];
    by rewrite !(proj2 (Z.leb_gt _ _)), ?(proj2 (Z.leb_le _ _)) by lia.
  intros [= -> ->]. rewrite (proj2 (Z.leb_le _ _)) by lia. split; [done|lia].
Qed.

Lemma drop_to_be n k x : drop k (to_be n x) = to_be (n - k) x.
Proof. revert k. induction n as [|n IH]; intros [|k]; cbn; [done..|apply IH]. Qed.

(** The number of bytes an integer needs. *)
Definition byte_length (x : Z) : nat := if x =? 0 then 0 else Z.to_nat (Z.log2 x / 8 + 1).

Lemma byte_length_spec x : 0 < x ->
  256 ^ Z.of_nat (byte_length x - 1) <= x < 256 ^ Z.of_nat (byte_length x) /\ (1 <= byte_length x)%nat.
Proof.
  intros Hx. unfold byte_length. rewrite (proj2 (Z.eqb_neq x 0)) by lia.
  pose proof (Z.log2_spec x Hx) as [H1 H2]. pose proof (Z.log2_nonneg x).
  assert (0 <= Z.log2 x / 8) by dlia. rewrite Nat2Z.inj_sub, Z2Nat.id by lia.
  change 256 with (2 ^ 8). rewrite <- !Z.pow_mul_r by lia. split_and!; [| |lia].
  - etransitivity; [|exact H1]. apply Z.pow_le_mono_r; dlia.
  - eapply Z.lt_le_trans; [exact H2|]. apply Z.pow_le_mono_r; dlia.
Qed.

Lemma high_zero_write_bytes n x : 0 <= x < 256 ^ Z.of_nat n -> high_zero_write n x = to_be (byte_length x) x.
Proof.
  intros Hx. unfold high_zero_write, leading_zeros, byte_length. rewrite drop_to_be.
  destruct (Z.eqb_spec x 0) as [->|Hn].
  - rewrite Z.mul_comm, Z.div_mul, Nat2Z.id, Nat.sub_diag by lia. done.
  - f_equal. assert (Z.log2 x / 8 < Z.of_nat n) as Hl.
    { apply Z.div_lt_upper_bound; [lia|]. apply Z.log2_lt_pow2; [lia|]. rewrite Z.pow_mul_r by lia. apply Hx. }
    pose proof (Z.log2_nonneg x). dlia.
Qed.

Lemma high_zero_write_read n x : 0 <= x < 256 ^ Z.of_nat n ->
  high_zero_read n (high_zero_write n x) = (Ok x, []).
Proof.
  intros Hx. rewrite high_zero_write_bytes by done. destruct (decide (x = 0)) as [->|Hn]; [by destruct n|].
  destruct (byte_length_spec x) as [Hb H1]; [lia|].
  assert (byte_length x <= n)%nat as Hl.
  { destruct (decide (byte_length x <= n)%nat); [done|].
    assert (256 ^ Z.of_nat n <= 256 ^ Z.of_nat (byte_length x - 1)) by (apply Z.pow_le_mono_r; lia). lia. }
  unfold high_zero_read. rewrite take_ge, drop_ge by (rewrite to_be_length; lia).
  destruct (byte_length x) as [|k] eqn:E; [lia|]. cbn [to_be]. replace (S k - 1)%nat with k in Hb by lia.
  assert (x / 256 ^ Z.of_nat k < 256).
  { apply Z.div_lt_upper_bound; [lia|]. replace (Z.of_nat (S k)) with (Z.of_nat k + 1) in Hb by lia.
    rewrite Z.pow_add_r in Hb by lia. lia. }
  assert (1 <= x / 256 ^ Z.of_nat k) by (apply Z.div_le_lower_bound; lia).
  rewrite Z.mod_small, (proj2 (Z.eqb_neq _ _)) by lia. do 2 f_equal.
  pose proof (from_to_be (S k) x ltac:(lia)) as Hf. cbn [to_be] in Hf. by rewrite Z.mod_small in Hf by lia.
Qed.

Lemma high_zero_read_Ok n r x r' : (0 < n)%nat -> Forall (fits 8) r -> high_zero_read n r = (Ok x, r') ->
  0 <= x < 256 ^ Z.of_nat n /\ r' = drop n r /\ take n r = high_zero_write n x.
Proof.
  intros Hn Hr. unfold high_zero_read.
  assert (Forall (fits 8) (take n r)) as Ht by by apply Forall_take.
  assert (length (take n r) <= n)%nat as Hl by (rewrite length_take; lia).
  destruct (take n r) as [|b bs] eqn:E.
  { intros [=]; subst. destruct n as [|n]; [lia|]. destruct r; [|done].
    pose proof (Z.pow_pos_nonneg 256 (Z.of_nat (S n))). rewrite high_zero_write_bytes by lia.
    split_and!; [lia..|done|done]. }
  destruct (Z.eqb_spec b 0); intros [=]; subst.
  assert (from_be (b :: bs) < 256 ^ Z.of_nat n /\ 0 < from_be (b :: bs)) as [Hx H0].
  { pose proof (from_be_range _ Ht). assert (256 ^ Z.of_nat (length (b :: bs)) <= 256 ^ Z.of_nat n)
      by (apply Z.pow_le_mono_r; lia). rewrite from_be_cons in *. apply Forall_cons in Ht as [Hb Hbs].
    pose proof (from_be_range _ Hbs). unfold fits in Hb. nia. }
  split; [lia|]. split; [done|]. rewrite high_zero_write_bytes by lia.
  assert (byte_length (from_be (b :: bs)) = length (b :: bs)) as ->; [|by rewrite to_from_be].
  destruct (byte_length_spec (from_be (b :: bs))) as [Hs H1]; [done|].
  apply Forall_cons in Ht as Hc. destruct Hc as [Hb Hbs]. pose proof (from_be_range _ Hbs) as Hr'.
  pose proof (from_be_range _ Ht) as Hr2. rewrite from_be_cons in Hs, Hr2. unfold fits in Hb. cbn [length] in *.
  destruct (Nat.lt_trichotomy (byte_length (from_be (b :: bs))) (S (length bs))) as [H|[H|H]]; [|done|]; exfalso.
  - assert (256 ^ Z.of_nat (byte_length (from_be (b :: bs))) <= 256 ^ Z.of_nat (length bs))
      by (apply Z.pow_le_mono_r; lia). rewrite from_be_cons in *. nia.
  - assert (256 ^ Z.of_nat (S (length bs)) <= 256 ^ Z.of_nat (byte_length (from_be (b :: bs)) - 1))
      by (apply Z.pow_le_mono_r; lia). rewrite from_be_cons in *. nia.
Qed.

Lemma collection_length_write_read x r : fits 64 x -> collection_length_read (collection_length_write x ++ r) = (Ok x, r).
Proof.
  unfold fits, collection_length_write, collection_length_read. intros Hx. destruct (Z.ltb_spec x 65535).
  - erewrite bind_Ok by (apply read_be_app; cbn; lia). by rewrite (proj2 (Z.eqb_neq _ _)) by lia.
  - rewrite <- app_assoc. erewrite bind_Ok by (apply read_be_app; cbn; lia). cbn [Z.eqb Pos.eqb].
    erewrite bind_Ok by (apply read_be_app; cbn; lia). replace (x - 65535 + 65535) with x by lia.
    by rewrite (proj2 (Z.leb_le _ _)) by (unfold umax; lia).
Qed.

(** ** TLV streams: what is accepted *)

Section tlv_spec.
Context {T : Type}.
Implicit Types (F : tlv_fields T) (s : T) (tlvs : list (Z * bytes)).

(** What one record does, when it is accepted: the reader of a known type reads
    the value to its end, and an unknown type is odd. *)
Definition handle F (tlv : Z * bytes) : option (T -> T) :=
  match field F tlv.1 with
  | Some read => match read tlv.2 with (Ok f, []) => Some f | _ => None end
  | None => match custom F tlv.1 tlv.2 with
            | Some f => Some f
            | None => if Z.even tlv.1 then None else Some id
            end
  end.
Fixpoint handle_all F tlvs s : option T :=
  match tlvs with
  | [] => Some s
  | tlv :: tlvs => f ← handle F tlv; handle_all F tlvs (f s)
  end.

Fixpoint ascending (last_seen : option Z) tlvs : Prop :=
  match tlvs with
  | [] => True
  | tlv :: tlvs => before last_seen tlv.1 = true /\ ascending (Some tlv.1) tlvs
  end.

Definition tlv_fits (tlv : Z * bytes) : Prop := fits 64 tlv.1 /\ fits 64 (Z.of_nat (length tlv.2)).

Lemma handle_set F typ value {A} (read : reader A) set x : field F typ = set_field read set ->
  read value = (Ok x, []) -> handle F (typ, value) = Some (set x).
Proof. intros Hf Hr. unfold handle. cbn [fst snd]. rewrite Hf. cbn. by rewrite Hr. Qed.

Lemma limited_app (value rest : bytes) : limited (Z.of_nat (length value)) (value ++ rest) = (value, rest, false).
Proof.
  unfold limited. rewrite (proj2 (Z.ltb_ge _ _)) by (rewrite length_app; lia).
  by rewrite Nat2Z.id, take_app_length, drop_app_length.
Qed.

Lemma decode_tlv_app F typ (value rest : bytes) : decode_tlv F typ (Z.of_nat (length value)) (value ++ rest) =
  match handle F (typ, value) with
  | Some f => (Ok f, rest)
  | None => (match field F typ with
             | Some read => match (read value).1 with Err e => Err e | Ok _ => Err InvalidValue end
             | None => Err UnknownRequiredFeature
             end, rest)
  end.
Proof.
  unfold decode_tlv, handle. rewrite limited_app. cbn [fst snd]. destruct (field F typ) as [read|].
  - by destruct (read value) as [[f|e] [|b u]]; [rewrite bool_decide_true|rewrite bool_decide_false| |].
  - destruct (custom F typ value); [done|]. by destruct (Z.even typ).
Qed.

Lemma decode_tlv_handled F typ (value rest : bytes) f : handle F (typ, value) = Some f ->
  decode_tlv F typ (Z.of_nat (length value)) (value ++ rest) = (Ok f, rest).
Proof. intros H. by rewrite decode_tlv_app, H. Qed.

Lemma decode_tlv_Ok F typ len r f r' : 0 <= len -> decode_tlv F typ len r = (Ok f, r') ->
  exists value : bytes, r = value ++ r' /\ len = Z.of_nat (length value) /\ handle F (typ, value) = Some f.
Proof.
  intros Hlen H. assert (exists value rest : bytes, r = value ++ rest /\ len = Z.of_nat (length value)) as (value & rest & -> & ->).
  { revert H. unfold decode_tlv, limited. destruct (Z.ltb_spec (Z.of_nat (length r)) len).
    - destruct (field F typ) as [read|]; [destruct (read r) as [[]]; done|].
      destruct (custom F typ r); [done|]. by destruct (Z.even typ).
    - intros _. exists (take (Z.to_nat len) r), (drop (Z.to_nat len) r). rewrite take_drop, length_take. split; [done|lia]. }
  rewrite decode_tlv_app in H. destruct (handle F (typ, value)) as [g|] eqn:E.
  - injection H as -> ->. eauto.
  - destruct (field F typ) as [read|]; [|done]. by destruct (read value) as [[]].
Qed.

Lemma bigsize_write_cons x : exists b bs, bigsize_write x = b :: bs.
Proof. unfold bigsize_write. repeat case_match; eauto. Qed.

Lemma ascending_above last_seen tlvs q : ascending last_seen tlvs -> q ∈ map fst tlvs -> before last_seen q = true.
Proof.
  revert last_seen. induction tlvs as [|[t v] tlvs IH]; intros last_seen; cbn; [by rewrite elem_of_nil|].
  intros [Hb Ha] [->|Hq]%elem_of_cons; [done|]. specialize (IH _ Ha Hq). destruct last_seen; cbn in *; [lia|done].
Qed.

Lemma existsb_none {A} (f : A -> bool) l : (forall x, x ∈ l -> f x = true -> False) -> existsb f l = false.
Proof.
  intros H. apply not_true_iff_false. rewrite existsb_exists. intros (x & Hx & Hf).
  apply list_elem_of_In in Hx. eauto.
Qed.

(** Round by round: the stream is accepted exactly when it is the encoding of
    ascending records, all required types among them, that are all accepted. *)
Lemma decode_tlvs_complete F rounds last_seen s s' tlvs : (length tlvs <= rounds)%nat ->
  Forall tlv_fits tlvs -> ascending last_seen tlvs ->
  (forall q, q ∈ required F -> before last_seen q = true -> q ∈ map fst tlvs) ->
  handle_all F tlvs s = Some s' -> decode_tlvs F rounds last_seen s (encode_tlv_stream tlvs) = (Ok s', []).
Proof.
  revert rounds last_seen s. induction tlvs as [|[typ value] tlvs IH]; intros rounds last_seen s Hlen Hfit Hasc Hreq Hall.
  { cbn in Hall. injection Hall as ->. assert (existsb (before last_seen) (required F) = false) as Hnone.
    { apply existsb_none. intros q Hq Hb. by apply (Hreq q Hq), elem_of_nil in Hb. }
    destruct rounds; cbn -[existsb]; by rewrite Hnone. }
  apply Forall_cons in Hfit as [[Ht Hv] Hfit]. destruct Hasc as [Hb Hasc]. cbn [fst snd] in *.
  cbn in Hall. destruct (handle F (typ, value)) as [f|] eqn:Hh; [|done]. cbn in Hall.
  destruct rounds as [|rounds]; [cbn in Hlen; lia|]. cbn [decode_tlvs encode_tlv_stream map mjoin list_join].
  unfold encode_tlv at 1. cbn [fst snd]. rewrite <- !app_assoc, bigsize_write_read by done. rewrite Hb. cbn [negb].
  rewrite existsb_none.
  - rewrite bigsize_write_read by done. rewrite (decode_tlv_handled _ _ _ _ f) by done.
    apply IH; [cbn in Hlen; lia|done..| |done]. intros q Hq Hqt. cbn in Hqt.
    assert (before last_seen q = true) as Hbq by (destruct last_seen; cbn in *; [lia|done]).
    specialize (Hreq q Hq Hbq). cbn in Hreq. apply elem_of_cons in Hreq as [->|]; [lia|done].
  - intros q Hq [Hbq Hlt]%andb_prop. specialize (Hreq q Hq Hbq). cbn in Hreq. apply elem_of_cons in Hreq as [->|Hin]; [lia|].
    pose proof (ascending_above _ _ _ Hasc Hin) as Habove. cbn in Habove. lia.
Qed.

Lemma decode_tlvs_sound F rounds last_seen s s' r r' : Forall (fits 8) r ->
  decode_tlvs F rounds last_seen s r = (Ok s', r') ->
  r' = [] /\ exists tlvs, r = encode_tlv_stream tlvs /\ Forall tlv_fits tlvs /\ ascending last_seen tlvs /\
    (forall q, q ∈ required F -> before last_seen q = true -> q ∈ map fst tlvs) /\
    handle_all F tlvs s = Some s'.
Proof.
  revert last_seen s r. induction rounds as [|rounds IH]; intros last_seen s r Hr; cbn [decode_tlvs];
    (destruct (bigsize_read r) as [[typ|e] r1] eqn:Et;
     [|destruct e; try done; case_bool_decide as Hnil; [|done]; destruct (existsb _ _) eqn:Hex; [done|];
       intros [= <- <-]; split; [done|]; exists []; subst r; split_and!; [done..|constructor|done| |done];
       intros q Hq Hb; exfalso; apply not_true_iff_false in Hex; apply Hex, existsb_exists; exists q;
       split; [by apply list_elem_of_In|done]]); [done|].
  destruct (before last_seen typ) eqn:Hb; [|done]. cbn [negb].
  destruct (existsb _ (required F)) eqn:Hex; [done|].
  apply bigsize_read_Ok in Et as [-> Htyp]; [|done]. apply Forall_app in Hr as [_ Hr].
  destruct (bigsize_read r1) as [[len|] r2] eqn:El; [|done].
  apply bigsize_read_Ok in El as [-> Hlen]; [|done]. apply Forall_app in Hr as [_ Hr].
  destruct (decode_tlv F typ len r2) as [[f|] r3] eqn:Ed; [|done].
  apply decode_tlv_Ok in Ed as (value & -> & -> & Hh); [|unfold fits in Hlen; lia].
  apply Forall_app in Hr as [_ Hr]. intros H. destruct (IH _ _ _ Hr H) as (-> & tlvs & -> & Hf & Ha & Hq & Hall).
  split; [done|]. exists ((typ, value) :: tlvs). split_and!.
  - cbn. unfold encode_tlv. cbn. by rewrite <- !app_assoc.
  - by constructor.
  - done.
  - intros q Hin Hbq. cbn. apply elem_of_cons. destruct (Z.lt_trichotomy q typ) as [Hlt|[->|Hlt]]; [|by left|].
    + exfalso. apply not_true_iff_false in Hex. apply Hex, existsb_exists. exists q.
      split; [by apply list_elem_of_In|]. rewrite Hbq. cbn. by apply Z.ltb_lt.
    + right. apply Hq; [done|]. by apply Z.ltb_lt.
  - cbn. by rewrite Hh.
Qed.

Lemma encode_tlv_stream_length tlvs : (length tlvs <= length (encode_tlv_stream tlvs))%nat.
Proof.
  induction tlvs as [|[typ value] tlvs IH]; [done|]. change (encode_tlv_stream ((typ, value) :: tlvs))
    with (encode_tlv (typ, value) ++ encode_tlv_stream tlvs). unfold encode_tlv. cbn [fst snd].
  destruct (bigsize_write_cons typ) as (b & bs & ->). rewrite !length_app. cbn [length]. lia.
Qed.

Lemma decode_tlv_stream_complete F s s' tlvs : Forall tlv_fits tlvs -> ascending None tlvs ->
  (forall q, q ∈ required F -> q ∈ map fst tlvs) -> handle_all F tlvs s = Some s' ->
  decode_tlv_stream F s (encode_tlv_stream tlvs) = (Ok s', []).
Proof. intros Hf Ha Hq Hall. unfold decode_tlv_stream. apply decode_tlvs_complete; auto using encode_tlv_stream_length. Qed.

Lemma read_tlv_fields_complete F s s' tlvs rest : Forall tlv_fits tlvs -> ascending None tlvs ->
  (forall q, q ∈ required F -> q ∈ map fst tlvs) -> handle_all F tlvs s = Some s' ->
  fits 64 (Z.of_nat (length (encode_tlv_stream tlvs))) ->
  read_tlv_fields F s (encode_length_prefixed tlvs ++ rest) = (Ok s', rest).
Proof.
  intros Hf Ha Hq Hall Hlen. unfold read_tlv_fields, encode_length_prefixed.
  rewrite <- app_assoc, bigsize_write_read, limited_app by done.
  by rewrite (decode_tlv_stream_complete F s s' tlvs) by done.
Qed.

(** C25: a TLV stream is accepted exactly when BOLT 1 says so.  Of a string of
    bytes, [decode_tlv_stream] yields the fields [s'] if and only if the string is
    the encoding of records of strictly ascending types, minimally encoded, that
    contain every required type, and each of them is either of a known type whose
    reader accepts the value and reads it to its end, or taken by the closure for
    custom records, or of an unknown odd type, which is skipped; the fields are
    what those records set, in order.  In particular a stream that is written is
    read back, and different streams are not confused. *)
Theorem tlv_stream_exact F s s' r : Forall (fits 8) r ->
  (decode_tlv_stream F s r = (Ok s', []) <->
   exists tlvs, r = encode_tlv_stream tlvs /\ Forall tlv_fits tlvs /\ ascending None tlvs /\
     (forall q, q ∈ required F -> q ∈ map fst tlvs) /\ handle_all F tlvs s = Some s').
Proof.
  intros Hr. unfold decode_tlv_stream. split.
  - intros (_ & tlvs & -> & Hf & Ha & Hq & Hall)%decode_tlvs_sound; [|done]. exists tlvs. split_and!; auto.
  - intros (tlvs & -> & Hf & Ha & Hq & Hall). apply decode_tlvs_complete; auto using encode_tlv_stream_length.
Qed.

End tlv_spec.

(** ** An example: an optional and a required field *)

Definition example_fields : tlv_fields (option Z * option Z) :=
  mkFields (fun typ =>
    if typ =? 1 then Some (fun r => match high_zero_read 8 r with
                                    | (Ok x, r') => (Ok (fun s => (Some x, s.2)), r')
                                    | (Err e, r') => (Err e, r')
                                    end)
    else if typ =? 2 then Some (fun r => match read_be 4 r with
                                         | (Ok x, r') => (Ok (fun s => (s.1, Some x)), r')
                                         | (Err e, r') => (Err e, r')
                                         end)
    else None) [2] (fun _ _ => None).

Lemma tlv_stream_exact_witness : exists tlvs, [1; 2; 3; 232; 2; 4; 0; 0; 0; 5; 21; 1; 0] = encode_tlv_stream tlvs /\
  Forall tlv_fits tlvs /\ ascending None tlvs /\ (forall q, q ∈ required example_fields -> q ∈ map fst tlvs) /\
  handle_all example_fields tlvs (None, None) = Some (Some 1000, Some 5).
Proof.
  apply (proj1 (tlv_stream_exact example_fields (None, None) (Some 1000, Some 5)
    [1; 2; 3; 232; 2; 4; 0; 0; 0; 5; 21; 1; 0] ltac:(prove_forall; unfold fits; lia))). vm_compute. reflexivity.
Defined.
