(* ===== verification/Onion.v ===== *)
(** * Onion packets (lightning/src/ln/onion_utils.rs)

    The keys of the hops of a path, the packet the sender wraps them in, layer by
    layer, and what a hop does to peel one layer.  Payments, trampolines and onion
    messages share this code; it is modelled for payloads that are any bytes, and
    a reader of them.  ChaCha20, HMAC-SHA256 and the ECDH of secp256k1 are the
    class [OnionCrypto]. *)

From Stdlib Require Import ZArith Lia Bool.
From stdpp Require Import strings.
From S2P Require Import Prelude.
From S2P Require Import Keys.
From S2P Require Import Ser.

Local Open Scope Z_scope.

(** ** Failure codes *)

Inductive LocalHTLCFailureReason : Type :=
| TemporaryNodeFailure | PermanentNodeFailure | RequiredNodeFeature | InvalidOnionVersion | InvalidOnionHMAC
| InvalidOnionKey | TemporaryChannelFailure | PermanentChannelFailure | RequiredChannelFeature
| UnknownNextPeer | AmountBelowMinimum | FeeInsufficient | IncorrectCLTVExpiry | CLTVExpiryTooSoon
| IncorrectPaymentDetails | FinalIncorrectCLTVExpiry | FinalIncorrectHTLCAmount | ChannelDisabled
| CLTVExpiryTooFar | InvalidOnionPayload | MPPTimeout | InvalidOnionBlinding
| UnknownFailureCode (code : Z)
| ForwardExpiryBuffer | InvalidTrampolineForward | PaymentClaimBuffer | DustLimitHolder
| DustLimitCounterparty | FeeSpikeBuffer | PrivateChannelForward | RealSCIDForward | ChannelNotReady
| InvalidKeysendPreimage | InvalidTrampolinePayload | PaymentSecretRequired | OutgoingCLTVTooSoon
| ChannelClosed | OnChainTimeout | ZeroAmount | HTLCMinimum | HTLCMaximum | PeerOffline
| ChannelBalanceOverdrawn | TemporaryTrampolineFailure | TrampolineFeeOrExpiryInsufficient
| UnknownNextTrampoline.

#[export] Instance LocalHTLCFailureReason_eq : EqDecision LocalHTLCFailureReason.
Proof. solve_decision. Defined.

Definition BADONION : Z := 32768.
Definition PERM : Z := 16384.
Definition NODE : Z := 8192.
Definition UPDATE : Z := 4096.

Definition failure_code (self : LocalHTLCFailureReason) : Z :=
  match self with
  | TemporaryNodeFailure | ForwardExpiryBuffer => Z.lor NODE 2
  | PermanentNodeFailure => Z.lor (Z.lor PERM NODE) 2
  | RequiredNodeFeature | PaymentSecretRequired => Z.lor (Z.lor PERM NODE) 3
  | InvalidOnionVersion => Z.lor (Z.lor BADONION PERM) 4
  | InvalidOnionHMAC => Z.lor (Z.lor BADONION PERM) 5
  | InvalidOnionKey => Z.lor (Z.lor BADONION PERM) 6
  | TemporaryChannelFailure | DustLimitHolder | DustLimitCounterparty | FeeSpikeBuffer | ChannelNotReady
  | ZeroAmount | HTLCMinimum | HTLCMaximum | PeerOffline | ChannelBalanceOverdrawn => Z.lor UPDATE 7
  | PermanentChannelFailure | ChannelClosed | OnChainTimeout => Z.lor PERM 8
  | RequiredChannelFeature => Z.lor PERM 9
  | UnknownNextPeer | PrivateChannelForward | RealSCIDForward | InvalidTrampolineForward => Z.lor PERM 10
  | AmountBelowMinimum => Z.lor UPDATE 11
  | FeeInsufficient => Z.lor UPDATE 12
  | IncorrectCLTVExpiry => Z.lor UPDATE 13
  | CLTVExpiryTooSoon | OutgoingCLTVTooSoon => Z.lor UPDATE 14
  | IncorrectPaymentDetails | PaymentClaimBuffer | InvalidKeysendPreimage => Z.lor PERM 15
  | FinalIncorrectCLTVExpiry => 18
  | FinalIncorrectHTLCAmount => 19
  | ChannelDisabled => Z.lor UPDATE 20
  | CLTVExpiryTooFar => 21
  | InvalidOnionPayload | InvalidTrampolinePayload => Z.lor PERM 22
  | MPPTimeout => 23
  | InvalidOnionBlinding => Z.lor (Z.lor BADONION PERM) 24
  | TemporaryTrampolineFailure => Z.lor NODE 25
  | TrampolineFeeOrExpiryInsufficient => Z.lor NODE 26
  | UnknownNextTrampoline => Z.lor PERM 27
  | UnknownFailureCode code => code
  end.

(** [From<u16>]: the first variant of the list with this code. *)
Definition bolt4_reasons : list LocalHTLCFailureReason :=
  [TemporaryNodeFailure; PermanentNodeFailure; RequiredNodeFeature; InvalidOnionVersion; InvalidOnionHMAC;
   InvalidOnionKey; TemporaryChannelFailure; PermanentChannelFailure; RequiredChannelFeature; UnknownNextPeer;
   AmountBelowMinimum; FeeInsufficient; IncorrectCLTVExpiry; CLTVExpiryTooSoon; IncorrectPaymentDetails;
   FinalIncorrectCLTVExpiry; FinalIncorrectHTLCAmount; ChannelDisabled; CLTVExpiryTooFar; InvalidOnionPayload;
   MPPTimeout; InvalidOnionBlinding; TemporaryTrampolineFailure; TrampolineFeeOrExpiryInsufficient;
   UnknownNextTrampoline].
Definition reason_from_u16 (value : Z) : LocalHTLCFailureReason :=
  default (UnknownFailureCode value)
    (snd <$> list_find (fun reason => value = failure_code reason) bolt4_reasons).

(** ** Cryptography *)

(** The bytes of a literal such as [b"rho"]. *)
Definition tag (s : string) : bytes :=
  map (fun c => Z.of_N (Ascii.N_of_ascii c)) (String.list_ascii_of_string s).

Class OnionCrypto `{Bitcoin} := {
  (** byte [i] of the ChaCha20 keystream of a key, with a zero nonce *)
  chacha20 : bytes -> nat -> Z;
  hmac_sha256 : bytes -> bytes -> bytes;
  (** [SharedSecret::new(public, secret).secret_bytes()] *)
  shared_secret : PublicKey -> SecretKey -> bytes;
  (** [PublicKey::from_slice] *)
  public_from_slice : bytes -> option PublicKey;
}.

Class OnionCryptoLaws `{OnionCrypto} : Prop := {
  chacha20_byte k i : fits 8 (chacha20 k i);
  hmac_length k m : length (hmac_sha256 k m) = 32%nat;
  hmac_bytes k m : Forall (fits 8) (hmac_sha256 k m);
  (** An HMAC is not all zero, up to a probability of [2^-256]. *)
  hmac_nonzero k m : hmac_sha256 k m <> replicate 32 0;
  (** Diffie-Hellman *)
  shared_secret_sym a b : shared_secret (from_secret_key a) b = shared_secret (from_secret_key b) a;
  public_slice k : public_from_slice (serialize k) = Some k;
  (** As a hash, an HMAC is a valid secret key, and a key times a valid key is one. *)
  hmac_secret k m : is_Some (secret_from_slice (hmac_sha256 k m));
  secret_mul_some s l k t : secret_from_slice l = Some k -> scalar_from_be_bytes l = Some t ->
    is_Some (secret_mul_tweak s t);
}.

Section onion.
Context `{OnionCrypto}.

(** [ChaCha20::new(key, nonce, seek)] and [apply_keystream] on [l] *)
Definition apply_keystream (key : bytes) (seek : nat) (l : bytes) : bytes :=
  zip_with Z.lxor l (map (chacha20 key) (seq seek (length l))).

(** The HMAC keys are ASCII tags.  A shared secret has 32 bytes. *)
Definition gen_rho_from_shared_secret (ss : bytes) : bytes := hmac_sha256 (tag "rho") ss.
Definition gen_mu_from_shared_secret (ss : bytes) : bytes := hmac_sha256 (tag "mu") ss.
Definition gen_um_from_shared_secret (ss : bytes) : bytes := hmac_sha256 (tag "um") ss.
Definition gen_ammag_from_shared_secret (ss : bytes) : bytes := hmac_sha256 (tag "ammag") ss.
Definition gen_ammagext_from_shared_secret (ss : bytes) : bytes := hmac_sha256 (tag "ammagext") ss.
Definition gen_rho_mu_from_shared_secret (ss : bytes) : bytes * bytes :=
  (gen_rho_from_shared_secret ss, gen_mu_from_shared_secret ss).

(** [PublicKey::read] *)
Definition read_public_key : reader PublicKey :=
  buf ← read_exact 33;
  match public_from_slice buf with Some k => mret k | None => throw InvalidValue end.

(** ** Keys *)

Definition blinding_factor (public : PublicKey) (ss : bytes) : bytes := sha256 (serialize public ++ ss).

Definition next_hop_pubkey (curr_pubkey : PublicKey) (ss : bytes) : run (option PublicKey) :=
  t ← unwrap (scalar_from_be_bytes (blinding_factor curr_pubkey ss));
  mret (public_mul_tweak curr_pubkey t).

(** The shared secret and the ephemeral key of every hop. *)
Fixpoint construct_onion_keys_generic (pubkeys : list PublicKey) (blinded_priv : SecretKey)
    : run (list (bytes * PublicKey)) :=
  match pubkeys with
  | [] => mret []
  | pubkey :: pubkeys =>
      let ss := shared_secret pubkey blinded_priv in
      let blinded_pub := from_secret_key blinded_priv in
      t ← unwrap (scalar_from_be_bytes (blinding_factor blinded_pub ss));
      next_priv ← unwrap (secret_mul_tweak blinded_priv t);
      rest ← construct_onion_keys_generic pubkeys next_priv;
      mret ((ss, blinded_pub) :: rest)
  end.

Record OnionKeys := mkOnionKeys {
  ephemeral_pubkey : PublicKey;
  rho : bytes;
  mu : bytes;
}.

Definition onion_keys_of (ss : bytes) (ephemeral : PublicKey) : OnionKeys :=
  mkOnionKeys ephemeral (gen_rho_from_shared_secret ss) (gen_mu_from_shared_secret ss).

(** ** Construction *)

Definition ONION_DATA_LEN : nat := 20 * 65.

(** What the packet will carry at its end when the last hop peels it: the filler. *)
Fixpoint filler_from (count i pos len : nat) (hops : list (bytes * OnionKeys)) (res : bytes) : result unit bytes :=
  match hops with
  | [] => Ok res
  | (payload, keys) :: hops =>
      let seek_pos := (len - pos)%nat in
      let pos := (pos + length payload + 32)%nat in
      if (len <? pos)%nat then Err tt
      else if (i =? count - 1)%nat then Ok res
      else filler_from count (S i) pos len hops (apply_keystream (rho keys) seek_pos (resize pos 0 res))
  end.

Definition shift_slice_right (arr : bytes) (amt : nat) : run bytes :=
  if (length arr <? amt)%nat then Panic else Return (replicate amt 0 ++ take (length arr - amt) arr).

Definition tagged (associated_data : option bytes) (packet_data : bytes) : bytes :=
  packet_data ++ default [] associated_data.

(** One layer: the payload and the HMAC of the layer inside go to the front. *)
Definition wrap_layer (payload : bytes) (keys : OnionKeys) (packet_data hmac : bytes) : run bytes :=
  shifted ← shift_slice_right packet_data (length payload + 32);
  mret (apply_keystream (rho keys) 0 (payload ++ hmac ++ drop (length payload + 32) shifted)).

Definition overwrite_tail (packet_data filler : bytes) : result unit bytes :=
  if (length packet_data <? length filler)%nat then Err tt
  else Ok (take (length packet_data - length filler) packet_data ++ filler).

(** The loop over the hops, the last one first. *)
Fixpoint wrap_layers (innermost : bool) (filler : bytes) (associated_data : option bytes)
    (hops : list (bytes * OnionKeys)) (packet_data hmac : bytes) : run (result unit (bytes * bytes)) :=
  match hops with
  | [] => mret (Ok (packet_data, hmac))
  | (payload, keys) :: hops =>
      wrapped ← wrap_layer payload keys packet_data hmac;
      match (if innermost then overwrite_tail wrapped filler else Ok wrapped) with
      | Err e => mret (Err e)
      | Ok packet_data =>
          wrap_layers false filler associated_data hops packet_data
            (hmac_sha256 (mu keys) (tagged associated_data packet_data))
      end
  end.

Definition construct_onion_packet_with_init_noise (payloads : list bytes) (onion_keys : list OnionKeys)
    (packet_data : bytes) (associated_data : option bytes) : run (result unit (PublicKey * bytes * bytes)) :=
  if bool_decide (payloads = []) then mret (Err tt)
  else
    let hops := zip payloads onion_keys in
    match filler_from (length payloads) 0 0 (length packet_data) hops [] with
    | Err e => mret (Err e)
    | Ok filler =>
        wrapped ← wrap_layers true filler associated_data (reverse hops) packet_data (replicate 32 0);
        match wrapped with
        | Err e => mret (Err e)
        | Ok (packet_data, hmac) =>
            first ← unwrap (head onion_keys);
            mret (Ok (ephemeral_pubkey first, packet_data, hmac))
        end
    end.

(** The noise a packet starts with. *)
Definition init_noise (prng_seed : bytes) (len : nat) : bytes := apply_keystream prng_seed 0 (replicate len 0).

(** ** Peeling *)

Inductive OnionDecodeErr : Type :=
| Malformed (reason : LocalHTLCFailureReason)
| Relay (reason : LocalHTLCFailureReason) (ss : bytes) (trampoline_ss : option bytes).

Definition payload_reason (e : DecodeError) : LocalHTLCFailureReason :=
  match e with
  | UnknownVersion => InvalidOnionVersion
  | UnknownRequiredFeature | InvalidValue | ShortRead => InvalidOnionPayload
  | _ => TemporaryNodeFailure
  end.

(** [next_len] is the length of the packet for the next hop, [NextPacketBytes::new]. *)
Definition decode_next_hop {R} (read : reader R) (next_len : nat -> nat) (ss hop_data hmac_bytes : bytes)
    (payment_hash : option bytes) : run (result OnionDecodeErr (R * option (bytes * bytes))) :=
  let '(rho, mu) := gen_rho_mu_from_shared_secret ss in
  if negb (bool_decide (hmac_sha256 mu (tagged payment_hash hop_data) = hmac_bytes))
  then mret (Err (Malformed InvalidOnionHMAC))
  else match read (apply_keystream rho 0 hop_data) with
  | (Err err, _) => mret (Err (Relay (payload_reason err) ss None))
  | (Ok msg, unread) =>
      match read_exact 32 unread with
      | (Err _, _) => mret (Err (Relay InvalidOnionPayload ss None))
      | (Ok hmac, unread) =>
          if bool_decide (hmac = replicate 32 0) then mret (Ok (msg, None))
          else if (next_len (length hop_data) <? length unread)%nat then Panic
          else mret (Ok (msg, Some (hmac, unread ++
                 apply_keystream rho (length hop_data)
                   (replicate (next_len (length hop_data) - length unread) 0))))
      end
  end.

(** ** Layers

    [onion_layers hops data hmac] says what [data], authenticated by [hmac],
    unfolds to when the hops peel it one after the other. *)

Context {laws : OnionCryptoLaws}.

Lemma apply_keystream_length k s l : length (apply_keystream k s l) = length l.
Proof. unfold apply_keystream. rewrite length_zip_with, length_map, length_seq. lia. Qed.

Lemma apply_keystream_app k s l1 l2 :
  apply_keystream k s (l1 ++ l2) = apply_keystream k s l1 ++ apply_keystream k (s + length l1) l2.
Proof.
  unfold apply_keystream. rewrite length_app, seq_app, map_app.
  by rewrite zip_with_app by by rewrite length_map, length_seq.
Qed.

Lemma apply_keystream_twice k s l : apply_keystream k s (apply_keystream k s l) = l.
Proof.
  unfold apply_keystream at 1. rewrite apply_keystream_length. unfold apply_keystream.
  generalize s. induction l as [|x l IH]; intros s'; [done|]. cbn. rewrite IH.
  by rewrite Z.lxor_assoc, Z.lxor_nilpotent, Z.lxor_0_r.
Qed.

Lemma take_apply_keystream n k s l : take n (apply_keystream k s l) = apply_keystream k s (take n l).
Proof.
  destruct (Nat.le_ge_cases (length l) n) as [Hl|Hl].
  - by rewrite !take_ge by (rewrite ?apply_keystream_length; lia).
  - rewrite <- (take_drop n l) at 1. rewrite apply_keystream_app, take_app_length'; [done|].
    rewrite apply_keystream_length, length_take. lia.
Qed.

Lemma drop_apply_keystream n k s l : drop n (apply_keystream k s l) = apply_keystream k (s + n) (drop n l).
Proof.
  destruct (Nat.le_ge_cases (length l) n) as [Hl|Hl].
  - by rewrite !drop_ge by (rewrite ?apply_keystream_length; lia).
  - rewrite <- (take_drop n l) at 1. rewrite apply_keystream_app, drop_app_length';
      [|rewrite apply_keystream_length, length_take; lia].
    f_equal. rewrite length_take. lia.
Qed.

Fixpoint onion_layers (associated_data : option bytes) (len : nat) (hops : list (bytes * OnionKeys))
    (data hmac : bytes) : Prop :=
  match hops with
  | [] => True
  | (payload, keys) :: hops =>
      length data = len /\ hmac = hmac_sha256 (mu keys) (tagged associated_data data) /\
      exists next_hmac unread,
        apply_keystream (rho keys) 0 data = payload ++ next_hmac ++ unread /\ length next_hmac = 32%nat /\
        match hops with
        | [] => next_hmac = replicate 32 0
        | _ => next_hmac <> replicate 32 0 /\
               onion_layers associated_data len hops
                 (unread ++ apply_keystream (rho keys) len (replicate (len - length unread) 0)) next_hmac
        end
  end.

(** The layers from the outside in. *)
Fixpoint layers_of (filler : bytes) (associated_data : option bytes) (hops : list (bytes * OnionKeys))
    (noise : bytes) : run (result unit (bytes * bytes)) :=
  match hops with
  | [] => mret (Ok (noise, replicate 32 0))
  | (payload, keys) :: hops =>
      inner ← layers_of filler associated_data hops noise;
      match inner with
      | Err e => mret (Err e)
      | Ok (packet_data, hmac) =>
          wrapped ← wrap_layer payload keys packet_data hmac;
          match (if bool_decide (hops = []) then overwrite_tail wrapped filler else Ok wrapped) with
          | Err e => mret (Err e)
          | Ok packet_data =>
              mret (Ok (packet_data, hmac_sha256 (mu keys) (tagged associated_data packet_data)))
          end
      end
  end.

Lemma wrap_layers_app innermost filler ad hops1 hops2 data hmac :
  wrap_layers innermost filler ad (hops1 ++ hops2) data hmac =
  (res ← wrap_layers innermost filler ad hops1 data hmac;
   match res with
   | Err e => mret (Err e)
   | Ok (data, hmac) => wrap_layers (innermost && bool_decide (hops1 = [])) filler ad hops2 data hmac
   end).
Proof.
  revert innermost data hmac. induction hops1 as [|[p k] hops1 IH]; intros innermost data hmac.
  { cbn. by rewrite andb_true_r. }
  cbn [wrap_layers app]. destruct (wrap_layer p k data hmac) as [w|]; [|done]. cbn.
  destruct (if innermost then _ else _) as [d|]; [|done]. rewrite IH.
  by rewrite andb_false_r.
Qed.

Lemma wrap_layers_reverse filler ad hops noise :
  wrap_layers true filler ad (reverse hops) noise (replicate 32 0) = layers_of filler ad hops noise.
Proof.
  induction hops as [|[p k] hops IH]; [done|]. rewrite reverse_cons, wrap_layers_app, IH. cbn [layers_of].
  destruct (layers_of filler ad hops noise) as [[[d h]|]|]; [|done..]. cbn.
  assert (bool_decide (reverse hops = []) = bool_decide (hops = [])) as ->.
  { apply bool_decide_ext. split; [|by intros ->]. intros E. by rewrite <- (reverse_involutive hops), E. }
  destruct (wrap_layer p k d h); [|done]. cbn. by destruct (if bool_decide (hops = []) then _ else _).
Qed.

Lemma wrap_layer_plain payload keys data hmac : length hmac = 32%nat ->
  (length payload + 32 <= length data)%nat ->
  wrap_layer payload keys data hmac =
    Return (apply_keystream (rho keys) 0 (payload ++ hmac ++ take (length data - (length payload + 32)) data)).
Proof.
  intros Hh Hl. unfold wrap_layer, shift_slice_right. rewrite (proj2 (Nat.ltb_ge _ _)) by lia. cbn.
  by rewrite drop_app_length' by by rewrite length_replicate.
Qed.

(** The innermost layer, whose end the filler replaces. *)
Lemma innermost_layer ad payload keys noise filler :
  (length filler + length payload + 32 <= length noise)%nat ->
  exists data, layers_of filler ad [(payload, keys)] noise =
      Return (Ok (data, hmac_sha256 (mu keys) (tagged ad data))) /\
    length data = length noise /\ drop (length noise - length filler) data = filler /\
    exists unread, apply_keystream (rho keys) 0 data = payload ++ replicate 32 0 ++ unread.
Proof.
  intros Hlen. cbn -[wrap_layer overwrite_tail replicate].
  rewrite wrap_layer_plain by (rewrite ?length_replicate; lia). cbn -[overwrite_tail replicate].
  unfold overwrite_tail. rewrite apply_keystream_length, !length_app, length_replicate, length_take.
  rewrite (proj2 (Nat.ltb_ge _ _)) by lia. eexists. split; [done|].
  set (l := (length payload + (32 + (length noise - (length payload + 32)) `min` length noise))%nat).
  assert (l = length noise) as -> by lia.
  set (plain := payload ++ _ ++ _).
  assert (length plain = length noise) as Hplain
    by (unfold plain; rewrite !length_app, length_replicate, length_take; lia).
  split_and!.
  - rewrite length_app, length_take, apply_keystream_length. lia.
  - rewrite drop_app_length'; [done|]. rewrite length_take, apply_keystream_length. lia.
  - rewrite apply_keystream_app, take_apply_keystream, apply_keystream_twice.
    rewrite <- (take_drop (length payload + 32) (take _ plain)), <- app_assoc, take_take, Nat.min_l by lia.
    assert (take (length payload + 32) plain = payload ++ replicate 32 0) as ->.
    { unfold plain. by rewrite app_assoc, take_app_length' by by rewrite length_app, length_replicate. }
    rewrite <- !app_assoc. eauto.
Qed.

(** One layer around others. *)
Lemma outer_layer payload keys hmac inner pos res :
  length hmac = 32%nat -> length res = pos -> (pos + length payload + 32 <= length inner)%nat ->
  drop (length inner - (pos + length payload + 32)) inner =
    apply_keystream (rho keys) (length inner - pos) (resize (pos + length payload + 32) 0 res) ->
  exists data, wrap_layer payload keys inner hmac = Return data /\ length data = length inner /\
    drop (length inner - pos) data = res /\
    exists unread, apply_keystream (rho keys) 0 data = payload ++ hmac ++ unread /\
      inner = unread ++ apply_keystream (rho keys) (length inner) (replicate (length inner - length unread) 0).
Proof.
  intros Hh Hres Hlen Hin. rewrite wrap_layer_plain by lia. eexists. split; [done|].
  rewrite apply_keystream_length, apply_keystream_twice. split_and!.
  - rewrite !length_app, length_take. lia.
  - rewrite drop_apply_keystream, app_assoc, Nat.add_0_l.
    rewrite drop_app_ge by (rewrite length_app; lia). rewrite length_app, Hh.
    replace (length inner - (length payload + 32))%nat with (length inner - pos - (length payload + 32) + pos)%nat at 1 by lia.
    rewrite <- take_drop_commute.
    replace (length inner - pos - (length payload + 32))%nat with (length inner - (pos + length payload + 32))%nat by lia.
    rewrite Hin, take_apply_keystream, apply_keystream_twice, resize_ge, <- Hres by lia. by rewrite take_app_length.
  - eexists. split; [done|].
    rewrite length_take, Nat.min_l by lia.
    rewrite <- (take_drop (length inner - (length payload + 32)) inner) at 1. f_equal.
    replace (length inner - (length payload + 32))%nat with (length inner - (pos + length payload + 32) + pos)%nat at 1 by lia.
    rewrite <- drop_drop, Hin, drop_apply_keystream, resize_ge, <- Hres, drop_app_length by lia.
    f_equal; [lia|]. f_equal. lia.
Qed.

Lemma layers_of_peel ad (noise filler : bytes) (hops : list (bytes * OnionKeys)) : hops <> [] ->
  forall count i pos (res : bytes),
  length res = pos -> (i + length hops)%nat = count ->
  filler_from count i pos (length noise) hops res = Ok filler ->
  exists data hmac, layers_of filler ad hops noise = Return (Ok (data, hmac)) /\
    onion_layers ad (length noise) hops data hmac /\ length hmac = 32%nat /\ hmac <> replicate 32 0 /\
    length data = length noise /\ drop (length noise - pos) data = res.
Proof.
  induction hops as [|[payload keys] hops IH]; [done|]. intros _ count i pos res Hres Hcount. cbn [filler_from].
  destruct (Nat.ltb_spec (length noise) (pos + length payload + 32)); [done|].
  destruct hops as [|hop hops].
  - cbn in Hcount. rewrite (proj2 (Nat.eqb_eq _ _)) by lia. intros [= ->].
    destruct (innermost_layer ad payload keys noise filler) as (data & Hd & Hlen & Hdrop & unread & Hu); [lia|].
    exists data, (hmac_sha256 (mu keys) (tagged ad data)). subst pos. split_and!; try done.
    + split_and!; [done..|]. exists (replicate 32 0), unread. rewrite length_replicate. done.
    + apply hmac_length.
    + apply hmac_nonzero.
  - cbn in Hcount. rewrite (proj2 (Nat.eqb_neq _ _)) by lia. intros Hf.
    apply IH in Hf as (inner & hmac & Hl & Hlayers & Hh & Hz & Hilen & Hidrop);
      [|done|by rewrite apply_keystream_length, length_resize|cbn; lia].
    rewrite <- Hilen in Hidrop. destruct (outer_layer payload keys hmac inner pos res) as
      (data & Hw & Hlen & Hdrop & unread & Hu & Hnext); [done..|lia|done|].
    exists data, (hmac_sha256 (mu keys) (tagged ad data)). cbn [layers_of] in Hl |- *. rewrite Hl. cbn -[onion_layers].
    rewrite Hw. cbn -[onion_layers]. rewrite Hilen in *. split_and!; try done; [|apply hmac_length|apply hmac_nonzero].
    split_and!; [done..|]. exists hmac, unread. split_and!; [done..|]. by rewrite <- Hnext.
Qed.

Lemma filler_exists len payloads : forall (keys : list OnionKeys) i pos (res : bytes),
  length payloads = length keys -> length res = pos ->
  (pos + sum_list_with (fun p : bytes => length p + 32)%nat payloads <= len)%nat ->
  exists filler, filler_from (i + length payloads) i pos len (zip payloads keys) res = Ok filler.
Proof.
  induction payloads as [|p payloads IH]; intros [|k keys] i pos res Hlen Hr Hs; try done; [by eexists|].
  cbn [zip zip_with filler_from]. cbn in Hlen, Hs.
  rewrite (proj2 (Nat.ltb_ge _ _)) by lia. case_match; [by eexists|].
  cbn [length]. replace (i + S (length payloads))%nat with (S i + length payloads)%nat by lia.
  apply IH; [lia|by rewrite apply_keystream_length, length_resize|lia].
Qed.

(** A path whose payloads fit the packet always gets one, and its layers are the
    hops' payloads. *)
Lemma construct_onion_packet_layers ad (payloads : list bytes) (keys : list OnionKeys) (noise : bytes) :
  payloads <> [] -> length payloads = length keys ->
  (sum_list_with (fun p : bytes => length p + 32)%nat payloads <= length noise)%nat ->
  exists first data hmac, head keys = Some first /\
    construct_onion_packet_with_init_noise payloads keys noise ad =
      Return (Ok (ephemeral_pubkey first, data, hmac)) /\
    onion_layers ad (length noise) (zip payloads keys) data hmac /\ length data = length noise.
Proof.
  intros Hne Hlen Hsum. unfold construct_onion_packet_with_init_noise.
  rewrite bool_decide_false by done.
  destruct (filler_exists (length noise) payloads keys 0 0 [] Hlen eq_refl Hsum) as [filler Hfill].
  cbn [Nat.add] in Hfill. rewrite Hfill, wrap_layers_reverse.
  destruct payloads as [|p payloads]; [done|]. destruct keys as [|k keys]; [done|].
  apply (layers_of_peel ad) in Hfill as (data & hmac & Hl & Hlayers & _ & _ & Hd & _);
    [|done..|rewrite length_zip_with; lia].
  exists k, data, hmac. rewrite Hl. done.
Qed.

(** Peeling undoes one layer. *)
Lemma decode_next_hop_layer {R} (read : reader R) next_len ss ad (hops : list (bytes * OnionKeys))
    (payload : bytes) keys (data hmac : bytes) msg :
  onion_layers ad (length data) ((payload, keys) :: hops) data hmac ->
  rho keys = gen_rho_from_shared_secret ss -> mu keys = gen_mu_from_shared_secret ss ->
  (forall rest, read (payload ++ rest) = (Ok msg, rest)) -> next_len (length data) = length data ->
  exists next, decode_next_hop read next_len ss data hmac ad = Return (Ok (msg, next)) /\
    match hops with
    | [] => next = None
    | _ => exists next_hmac next_data, next = Some (next_hmac, next_data) /\ length next_data = length data /\
             onion_layers ad (length data) hops next_data next_hmac
    end.
Proof.
  intros (_ & -> & next_hmac & unread & Hplain & Hh & Hnext) Hrho Hmu Hread Hlen.
  unfold decode_next_hop. cbn [gen_rho_mu_from_shared_secret]. rewrite Hmu, bool_decide_true by done.
  cbn [negb]. rewrite <- Hrho, Hplain, Hread. rewrite read_exact_app by done.
  assert (length data = length payload + (32 + length unread))%nat as Hdl
    by (rewrite <- (apply_keystream_length (rho keys) 0), Hplain, !length_app, Hh; done).
  destruct hops as [|hop hops].
  - rewrite Hnext, bool_decide_true by done. eexists. split; done.
  - destruct Hnext as [Hz Hlayers]. rewrite bool_decide_false by done. rewrite Hlen.
    rewrite (proj2 (Nat.ltb_ge _ _)) by lia. eexists. split; [done|]. eexists _, _. split; [done|]. split; [|done].
    rewrite length_app, apply_keystream_length, length_replicate. lia.
Qed.

(** ** The keys of the hops *)

Context {bitcoin_laws : BitcoinLaws}.

Lemma valid_scalar l : is_Some (secret_from_slice l) -> exists t, scalar_from_be_bytes l = Some t /\
  forall s, is_Some (secret_mul_tweak s t).
Proof.
  intros [k Hk]. pose proof (slice_scalar l k Hk) as E. destruct (secret_scalar k) as [t Ht].
  exists t. split; [congruence|]. intros s. eapply secret_mul_some; [exact Hk|congruence].
Qed.

Lemma read_public_key_app k r : read_public_key (serialize k ++ r) = (Ok k, r).
Proof. unfold read_public_key. erewrite bind_Ok by (apply read_exact_app, serialize_length). by rewrite public_slice. Qed.

(** Every hop finds its own secret with the key of the packet it gets, and the key
    of the next packet with the secret. *)
Fixpoint key_chain (ephemeral : PublicKey) (secrets : list SecretKey) (keys : list (bytes * PublicKey)) : Prop :=
  match secrets, keys with
  | [], [] => True
  | secret :: secrets, (ss, ephemeral') :: keys =>
      ephemeral' = ephemeral /\ shared_secret ephemeral secret = ss /\
      exists next, next_hop_pubkey ephemeral ss = Return (Some next) /\ key_chain next secrets keys
  | _, _ => False
  end.

Lemma construct_onion_keys_chain secrets : forall session_priv,
  exists keys, construct_onion_keys_generic (map from_secret_key secrets) session_priv = Return keys /\
    key_chain (from_secret_key session_priv) secrets keys.
Proof.
  induction secrets as [|secret secrets IH]; intros session_priv; cbn [construct_onion_keys_generic map].
  { eexists. split; [done|]. done. }
  set (ss := shared_secret (from_secret_key secret) session_priv).
  destruct (valid_scalar (blinding_factor (from_secret_key session_priv) ss)) as (t & Ht & Hmul).
  { apply sha256_secret. }
  destruct (Hmul session_priv) as [next Hnext]. destruct (IH next) as (keys & Hkeys & Hchain).
  rewrite Ht. cbn. rewrite Hnext. cbn. rewrite Hkeys. eexists. split; [done|].
  split_and!; [done|apply shared_secret_sym|]. exists (from_secret_key next). split; [|done].
  unfold next_hop_pubkey. rewrite Ht. cbn. by rewrite mul_mul, Hnext.
Qed.

Lemma key_chain_length ephemeral secrets keys : key_chain ephemeral secrets keys -> length secrets = length keys.
Proof.
  revert ephemeral keys. induction secrets as [|s secrets IH]; intros e [|[ss e'] keys]; cbn; try done.
  intros (_ & _ & next & _ & Hc). f_equal. eauto.
Qed.

End onion.
