(* ===== verification/PqKem.v ===== *)
(** * Post-quantum key encapsulation (lightning/src/crypto/pq_kem.rs)

    ML-KEM-768 is the class [Kem], with the facts of FIPS 203 the theorems use in
    [KemLaws].  Modelled here are the derivations around it, the hybrid secrets,
    the dummy ciphertexts that pad a list of ciphertexts to its fixed length, and
    the list itself: the trail of a payment onion (lightning/src/ln/onion_utils.rs). *)

From Stdlib Require Import ZArith Lia Bool.
From stdpp Require Import strings.
From S2P Require Import Prelude.
From S2P Require Import Keys.
From S2P Require Import Ser.
From S2P Require Import Onion.

Local Open Scope Z_scope.

(** ** The library *)

Definition PQ_KEM_CT_LEN : nat := 1088.
Definition PQ_KEM_SS_LEN : nat := 32.

Class Kem := {
  EncapsKey : Type;
  DecapsKey : Type;
  CipherText : Type;
  (** [KG::keygen_from_seed], with both keys serialized *)
  keygen_from_seed : bytes -> bytes -> bytes * bytes;
  (** [try_from_bytes] *)
  ek_from_bytes : bytes -> option EncapsKey;
  dk_from_bytes : bytes -> option DecapsKey;
  ct_from_bytes : bytes -> option CipherText;
  (** the shared secret and the ciphertext, serialized *)
  encaps_from_seed : EncapsKey -> bytes -> bytes * bytes;
  try_decaps : DecapsKey -> CipherText -> option bytes;
}.

Section kem.
Context `{OnionCrypto, Kem}.

(** ** Keys *)

Definition expand_seed (seed : bytes) : bytes * bytes :=
  (sha256 (tag "LDK-PQ-KEM-d" ++ seed), sha256 (tag "LDK-PQ-KEM-z" ++ seed)).

Definition keypair_from_seed (seed : bytes) : bytes * bytes :=
  let '(d, z) := expand_seed seed in keygen_from_seed d z.

Definition encapsulate (ek_bytes seed : bytes) : option (bytes * bytes) :=
  ek ← ek_from_bytes ek_bytes; Some (encaps_from_seed ek seed).

Definition decapsulate (dk_bytes ct_bytes : bytes) : option bytes :=
  dk ← dk_from_bytes dk_bytes;
  ct ← ct_from_bytes ct_bytes;
  try_decaps dk ct.

(** ** Hybrid secrets *)

Definition mix_blinded_path_secret (classical_ss kem_ss : bytes) : bytes :=
  sha256 (tag "LDK-PQ-blinded-path-hybrid-ss" ++ classical_ss ++ kem_ss).

Definition mix_payment_onion_secret (classical_ss kem_ss : bytes) : bytes :=
  sha256 (tag "LDK-PQ-payment-onion-hybrid-ss" ++ classical_ss ++ kem_ss).

(** ** Dummy ciphertexts *)

Definition MLKEM_Q : Z := 3329.
Definition MLKEM_K : nat := 3.
Definition MLKEM_N : nat := 256.
Definition MLKEM_DU : Z := 10.
Definition MLKEM_DV : Z := 4.

Definition mlkem_compress (x d : Z) : Z :=
  Z.land ((Z.shiftl x (d + 1) + MLKEM_Q) / (2 * MLKEM_Q)) (Z.shiftl 1 d - 1).

(** The sampling loop: [buf] is the current buffer of the keystream, [next] the
    index of the keystream behind it.  One round draws once.  [rounds] bounds the
    draws; the loop itself ends with probability one only. *)
Definition keystream_buf (seed : bytes) (seek : nat) : bytes := apply_keystream seed seek (replicate 4096 0).

Fixpoint sample (rounds : nat) (seed buf : bytes) (next pos : nat) (missing : nat) : option (list Z) :=
  match missing, rounds with
  | O, _ => Some []
  | S _, O => None
  | S missing', S rounds =>
      let '(buf, next, pos) :=
        if (length buf <? pos + 2)%nat then (keystream_buf seed next, (next + 4096)%nat, O) else (buf, next, pos) in
      let draw := Z.land (nth pos buf 0 + 256 * nth (S pos) buf 0) 4095 in
      if draw <? MLKEM_Q then cons draw <$> sample rounds seed buf next (pos + 2) missing'
      else sample rounds seed buf next (pos + 2) missing
  end.

(** The buffer holds 2048 draws; twenty times as many are more than enough. *)
Definition DRAWS : nat := 20 * 2048.
Definition coefficients (seed : bytes) : option (list Z) :=
  sample DRAWS seed (keystream_buf seed 0) 4096 0 ((MLKEM_K + 1) * MLKEM_N).

(** [while nbits >= 8], with what is left of the accumulator *)
Fixpoint flush (rounds : nat) (acc nbits : Z) : bytes * Z * Z :=
  match rounds with
  | O => ([], acc, nbits)
  | S rounds =>
      if nbits <? 8 then ([], acc, nbits)
      else let '(out, acc', nbits') := flush rounds (Z.shiftr acc 8) (nbits - 8) in
           (Z.land acc 255 :: out, acc', nbits')
  end.

(** The packing loop, over pairs of a width and a value of that width.  At most
    17 bits are in the accumulator, so that two rounds flush it. *)
Fixpoint pack (fields : list (Z * Z)) (acc nbits : Z) : bytes :=
  match fields with
  | [] => []
  | (d, v) :: fields =>
      let '(out, acc, nbits) := flush 3 (Z.lor acc (Z.shiftl v nbits)) (nbits + d) in
      out ++ pack fields acc nbits
  end.

Definition width (i : nat) : Z := if (i <? MLKEM_K * MLKEM_N)%nat then MLKEM_DU else MLKEM_DV.
Definition compressed (coeffs : list Z) : list (Z * Z) :=
  imap (fun i c => (width i, mlkem_compress c (width i))) coeffs.

(** [None] stands for a keystream that gives too few coefficients in [DRAWS] draws. *)
Definition dummy_ciphertext_from_seed (seed : bytes) : option bytes :=
  coeffs ← coefficients seed; Some (pack (compressed coeffs) 0 0).

(** ** The signer of a node (lightning/src/sign/mod.rs) *)

Inductive Recipient : Type := Node | PhantomNode.

(** What an onion needs of a [NodeSigner]. *)
Record NodeSigner : Type := mkNodeSigner {
  ecdh : Recipient -> PublicKey -> option Scalar -> result unit bytes;
  pq_kem_decapsulate : bytes -> option bytes;
  get_receive_auth_key : bytes;
  phantom_node_blinded_path_key : bytes;
}.

Record KeysManager : Type := mkKeysManager {
  node_secret : SecretKey;
  pq_kem_node_secret : bytes;
  receive_auth_key : bytes;
  phantom_auth_key : bytes;
}.

Definition ecdh_with (secret : SecretKey) (other_key : PublicKey) (tweak : option Scalar) : result unit bytes :=
  match tweak with
  | None => Ok (shared_secret other_key secret)
  | Some t =>
      match secret_mul_tweak secret t with
      | Some secret => Ok (shared_secret other_key secret)
      | None => Err tt
      end
  end.

Definition keys_manager_signer (self : KeysManager) : NodeSigner :=
  mkNodeSigner
    (fun recipient other_key tweak =>
       match recipient with
       | Node => ecdh_with (node_secret self) other_key tweak
       | PhantomNode => Err tt
       end)
    (decapsulate (pq_kem_node_secret self)) (receive_auth_key self) (phantom_auth_key self).

Definition phantom_keys_manager_signer (inner : KeysManager) (phantom_secret : SecretKey) : NodeSigner :=
  mkNodeSigner
    (fun recipient other_key tweak =>
       ecdh_with (match recipient with Node => node_secret inner | PhantomNode => phantom_secret end) other_key tweak)
    (decapsulate (pq_kem_node_secret inner)) (receive_auth_key inner) (phantom_auth_key inner).

(** ** The trail of a payment onion (lightning/src/ln/onion_utils.rs) *)

Definition MAX_PATH_LENGTH_ESTIMATE : nat := 19.
Definition PQ_PAYMENT_TRAIL_HOPS : nat := MAX_PATH_LENGTH_ESTIMATE + 1.
Definition PQ_BLINDED_PATH_MAX_HOPS : nat := 10.
Definition PQ_PAYMENT_TRAIL_LEN : nat := PQ_PAYMENT_TRAIL_HOPS * PQ_KEM_CT_LEN.

Definition pq_hop_kem_seed (base_seed : bytes) (idx : nat) : bytes :=
  hmac_sha256 (tag "pq_payment_kem_seed") (base_seed ++ to_be 8 (Z.of_nat idx)).

(** [Panic] stands for a dummy whose sampling does not end. *)
Definition pq_dummy_trail_ct (prng_seed : bytes) (idx : nat) : run bytes :=
  unwrap (dummy_ciphertext_from_seed
            (hmac_sha256 (tag "pq_payment_trail_dummy_ct") (prng_seed ++ to_be 8 (Z.of_nat idx)))).

Fixpoint dummies (prng_seed : bytes) (idxs : list nat) : run bytes :=
  match idxs with
  | [] => mret []
  | idx :: idxs => ct ← pq_dummy_trail_ct prng_seed idx; rest ← dummies prng_seed idxs; mret (ct ++ rest)
  end.

Definition build_pq_trail (ciphertexts : list bytes) (prng_seed : bytes) : run (result unit bytes) :=
  let real_hops := length ciphertexts in
  if (real_hops =? 0)%nat || (MAX_PATH_LENGTH_ESTIMATE <? real_hops)%nat then mret (Err tt)
  else
    padding ← dummies prng_seed (seq real_hops (PQ_PAYMENT_TRAIL_HOPS - real_hops));
    mret (Ok (mjoin ciphertexts ++ padding)).

(** [PqOnionTrail::read] *)
Definition read_pq_trail : reader bytes := read_exact PQ_PAYMENT_TRAIL_LEN.

Definition pq_hop_hybrid_secret (classical_ss trail : bytes) (node_signer : NodeSigner)
    : option (bytes * option bytes) :=
  if (length trail <? PQ_KEM_CT_LEN)%nat then None
  else
    kem_ss ← pq_kem_decapsulate node_signer (take PQ_KEM_CT_LEN trail);
    Some (mix_payment_onion_secret classical_ss kem_ss,
          Some (drop PQ_KEM_CT_LEN trail ++ take PQ_KEM_CT_LEN trail)).

(** The keys of one onion: [hops] are the nodes whose ML-KEM keys are known, [tail]
    the blinded nodes behind them. *)
Fixpoint pq_onion_keys (keys : list (bytes * PublicKey)) (hop_kem_keys : list bytes) (kem_base_seed : bytes)
    (idx : nat) : result unit (list OnionKeys * list bytes * list bytes) :=
  match keys, hop_kem_keys with
  | [], _ => Ok ([], [], [])
  | (ss, ephemeral) :: keys, [] =>
      '(onion_keys, cts, kem_secrets) ← pq_onion_keys keys [] kem_base_seed (S idx);
      Ok (onion_keys_of ss ephemeral :: onion_keys, cts, kem_secrets)
  | (classical, ephemeral) :: keys, kem_key :: hop_kem_keys =>
      match encapsulate kem_key (pq_hop_kem_seed kem_base_seed idx) with
      | None => Err tt
      | Some (kem_ss, ct) =>
          '(onion_keys, cts, kem_secrets) ← pq_onion_keys keys hop_kem_keys kem_base_seed (S idx);
          Ok (onion_keys_of (mix_payment_onion_secret classical kem_ss) ephemeral :: onion_keys,
              ct :: cts, kem_ss :: kem_secrets)
      end
  end.

Definition construct_pq_onion_keys_inner (hops tail : list PublicKey) (session_priv : SecretKey)
    (hop_kem_keys : list bytes) (kem_base_seed : bytes) (kem_seed_idx_offset : nat)
    : run (result unit (list OnionKeys * list bytes * list bytes)) :=
  if bool_decide (hops = []) || negb (length hop_kem_keys =? length hops)%nat then mret (Err tt)
  else
    keys ← construct_onion_keys_generic (hops ++ tail) session_priv;
    mret (pq_onion_keys keys hop_kem_keys kem_base_seed kem_seed_idx_offset).

(** ** Dummies are encodings of compressed coefficients *)

Definition le_value (l : bytes) : Z := foldr (fun b acc => b + 256 * acc) 0 l.
Definition fields_value (fields : list (Z * Z)) : Z := foldr (fun f acc => f.2 + 2 ^ f.1 * acc) 0 fields.
Definition bits (fields : list (Z * Z)) : Z := foldr (fun f acc => f.1 + acc) 0 fields.

(** The inverse of [ByteEncode]: the values of these widths, the lowest bits first. *)
Fixpoint unpack (widths : list Z) (x : Z) : list Z :=
  match widths with
  | [] => []
  | d :: widths => x mod 2 ^ d :: unpack widths (x / 2 ^ d)
  end.

Lemma lor_shiftl_disjoint a v n : 0 <= n -> 0 <= a < 2 ^ n -> Z.lor a (Z.shiftl v n) = a + 2 ^ n * v.
Proof.
  intros Hn Ha. pose proof (Z.add_lor_land a (Z.shiftl v n)) as E.
  assert (Z.land a (Z.shiftl v n) = 0) as Hz.
  { apply Z.bits_inj'. intros i Hi. rewrite Z.land_spec, Z.bits_0, Z.shiftl_spec by done.
    destruct (Z.lt_ge_cases i n); [by rewrite (Z.testbit_neg_r v), andb_false_r by lia|].
    destruct (decide (a = 0)) as [->|]; [by rewrite Z.bits_0|].
    rewrite (Z.bits_above_log2 a); [done|lia|].
    assert (Z.log2 a < n) by (apply Z.log2_lt_pow2; lia). lia. }
  rewrite Z.shiftl_mul_pow2 in * by done. lia.
Qed.

Lemma le_value_app l k : le_value (l ++ k) = le_value l + 256 ^ Z.of_nat (length l) * le_value k.
Proof.
  induction l as [|b l IH]; cbn [le_value foldr app length]; [change (256 ^ Z.of_nat 0) with 1; unfold le_value; lia|].
  fold (le_value (l ++ k)) (le_value l).
  rewrite IH, Nat2Z.inj_succ, Z.pow_succ_r by lia. lia.
Qed.

Lemma flush_spec rounds : forall acc nbits out acc' nbits',
  0 <= acc < 2 ^ nbits -> 0 <= nbits < 8 * (Z.of_nat rounds + 1) -> flush rounds acc nbits = (out, acc', nbits') ->
  nbits = 8 * Z.of_nat (length out) + nbits' /\ 0 <= nbits' < 8 /\ 0 <= acc' < 2 ^ nbits' /\
  acc = le_value out + 256 ^ Z.of_nat (length out) * acc' /\ Forall (fits 8) out.
Proof.
  induction rounds as [|rounds IH]; intros acc nbits out acc' nbits' Hacc Hn; cbn [flush].
  { intros [= <- <- <-]. cbn. split_and!; [lia..|constructor]. }
  destruct (Z.ltb_spec nbits 8). { intros [= <- <- <-]. cbn. split_and!; [lia..|constructor]. }
  destruct (flush rounds _ _) as [[out1 acc1] nbits1] eqn:E. intros [= <- <- <-].
  rewrite Z.shiftr_div_pow2 in E by lia. change (2 ^ 8) with 256 in E.
  assert (2 ^ nbits = 256 * 2 ^ (nbits - 8)) as Hp.
  { change 256 with (2 ^ 8). rewrite <- Z.pow_add_r by lia. f_equal. lia. }
  apply IH in E as (E1 & E2 & E3 & E4 & E5); [|dlia|lia].
  assert (Z.land acc 255 = acc mod 256) as -> by (change 255 with (Z.ones 8); apply Z.land_ones; lia).
  cbn [length le_value foldr]. fold (le_value out1). rewrite Nat2Z.inj_succ, Z.pow_succ_r by lia.
  pose proof (Z.div_mod acc 256 ltac:(lia)). pose proof (Z.mod_pos_bound acc 256 ltac:(lia)).
  split_and!; [lia..|constructor; [done|done]].
Qed.

Definition field_fits (f : Z * Z) : Prop := 0 <= f.1 <= 16 /\ 0 <= f.2 < 2 ^ f.1.

Lemma pack_spec fields : Forall field_fits fields -> forall acc nbits, 0 <= nbits < 8 -> 0 <= acc < 2 ^ nbits ->
  exists acc' nbits', nbits + bits fields = 8 * Z.of_nat (length (pack fields acc nbits)) + nbits' /\
    0 <= nbits' < 8 /\ 0 <= acc' < 2 ^ nbits' /\
    acc + 2 ^ nbits * fields_value fields =
      le_value (pack fields acc nbits) + 256 ^ Z.of_nat (length (pack fields acc nbits)) * acc' /\
    Forall (fits 8) (pack fields acc nbits).
Proof.
  induction 1 as [|[d v] fields [Hd Hv] Hf IH]; intros acc nbits Hn Hacc.
  { exists acc, nbits. cbn. split_and!; [lia..|constructor]. }
  cbn in Hd, Hv.   cbn [pack bits fields_value foldr fst snd]. fold (bits fields) (fields_value fields).
  rewrite lor_shiftl_disjoint by lia. destruct (flush 3 _ _) as [[out acc1] nbits1] eqn:E.
  assert (2 ^ (nbits + d) = 2 ^ nbits * 2 ^ d) as Hp by (rewrite Z.pow_add_r; lia).
  apply flush_spec in E as (E1 & E2 & E3 & E4 & E5); [|nia|lia].
  destruct (IH acc1 nbits1 E2 E3) as (acc' & nbits' & I1 & I2 & I3 & I4 & I5). exists acc', nbits'.
  rewrite length_app, Nat2Z.inj_add, le_value_app, Z.pow_add_r by lia.
  split_and!; [lia..| |by apply Forall_app].
  assert (2 ^ nbits * 2 ^ d = 256 ^ Z.of_nat (length out) * 2 ^ nbits1) as Hq.
  { rewrite <- Hp, E1, Z.pow_add_r, Z.pow_mul_r by lia. done. }
  set (X := 256 ^ Z.of_nat (length out)) in *. set (Y := 256 ^ Z.of_nat (length (pack fields acc1 nbits1))) in *.
  transitivity (acc + 2 ^ nbits * v + 2 ^ nbits * 2 ^ d * fields_value fields); [ring|]. rewrite E4, Hq.
  transitivity (le_value out + X * (acc1 + 2 ^ nbits1 * fields_value fields)); [ring|]. rewrite I4. ring.
Qed.

Lemma unpack_fields fields : Forall field_fits fields -> unpack fields.*1 (fields_value fields) = fields.*2.
Proof.
  induction 1 as [|[d v] fields [Hd Hv] Hf IH]; [done|]. cbn in *.
  assert ((v + 2 ^ d * fields_value fields) mod 2 ^ d = v) as E1.
  { rewrite Z.mul_comm, Z.mod_add by lia. by apply Z.mod_small. }
  assert ((v + 2 ^ d * fields_value fields) / 2 ^ d = fields_value fields) as E2.
  { rewrite Z.mul_comm, Z.div_add, Z.div_small by lia. lia. }
  fold (fields_value fields). rewrite E1, E2, IH. done.
Qed.

Lemma pack_unpack fields : Forall field_fits fields -> bits fields mod 8 = 0 ->
  unpack fields.*1 (le_value (pack fields 0 0)) = fields.*2 /\
  8 * Z.of_nat (length (pack fields 0 0)) = bits fields /\ Forall (fits 8) (pack fields 0 0).
Proof.
  intros Hf Hb. destruct (pack_spec fields Hf 0 0) as (acc' & nbits' & E1 & E2 & E3 & E4 & E5); [lia..|].
  assert (nbits' = 0) as -> by dlia. assert (acc' = 0) as -> by (cbn in E3; lia).
  split_and!; [|lia|done]. rewrite <- unpack_fields by done. f_equal. lia.
Qed.

(** *** The coefficients are the first draws below [q] *)

Definition draw (seed : bytes) (j : nat) : Z :=
  Z.land (chacha20 seed (2 * j) + 256 * chacha20 seed (2 * j + 1)) 4095.
Definition accepted (seed : bytes) (j n : nat) : list Z :=
  base.filter (fun x => x < MLKEM_Q) (map (draw seed) (seq j n)).

Lemma keystream_zeros k s n : apply_keystream k s (replicate n 0) = map (chacha20 k) (seq s n).
Proof.
  unfold apply_keystream. rewrite length_replicate. revert s. induction n as [|n IH]; intros s; [done|].
  cbn. by rewrite IH, Z.lxor_0_l.
Qed.

Lemma nth_keystream_buf seed s i : (i < 4096)%nat -> nth i (keystream_buf seed s) 0 = chacha20 seed (s + i).
Proof.
  intros Hi. unfold keystream_buf. rewrite keystream_zeros.
  rewrite (nth_indep _ 0 (chacha20 seed 0)) by (by rewrite length_map, length_seq).
  by rewrite map_nth, seq_nth.
Qed.

Lemma keystream_buf_length seed s : length (keystream_buf seed s) = 4096%nat.
Proof. unfold keystream_buf. rewrite apply_keystream_length. apply length_replicate. Qed.

Lemma sample_spec seed rounds : forall t p missing, (p <= 2048)%nat ->
  sample rounds seed (keystream_buf seed (2 * t)) (2 * t + 4096) (2 * p) missing =
    if (missing <=? length (accepted seed (t + p) rounds))%nat
    then Some (take missing (accepted seed (t + p) rounds)) else None.
Proof.
  induction rounds as [|rounds IH]; intros t p [|missing] Hp; cbn [sample]; try done.
  rewrite keystream_buf_length.
  set (st := if (4096 <? _)%nat then _ else _).
  assert (exists t' p', st = (keystream_buf seed (2 * t'), (2 * t' + 4096)%nat, (2 * p')%nat) /\
    (p' < 2048)%nat /\ (t' + p' = t + p)%nat) as (t' & p' & -> & Hp' & Htp).
  { unfold st. destruct (Nat.ltb_spec 4096 (2 * p + 2)).
    - exists (t + 2048)%nat, 0%nat. split_and!; [|lia..]. repeat f_equal; lia.
    - exists t, p. split_and!; [done|lia..]. }
  rewrite !nth_keystream_buf by lia. rewrite <- Htp. clear t p Hp Htp.
  replace (chacha20 seed (2 * t' + 2 * p')) with (chacha20 seed (2 * (t' + p'))) by (f_equal; lia).
  replace (chacha20 seed (2 * t' + S (2 * p'))) with (chacha20 seed (2 * (t' + p') + 1)) by (f_equal; lia).
  fold (draw seed (t' + p')). cbn [accepted seq map]. unfold accepted. cbn [seq map]. rewrite filter_cons.
  replace (2 * p' + 2)%nat with (2 * S p')%nat by lia. rewrite !IH by lia.
  replace (t' + S p')%nat with (S (t' + p')) by lia. fold (accepted seed (S (t' + p')) rounds).
  destruct (Z.ltb_spec (draw seed (t' + p')) MLKEM_Q).
  - rewrite decide_True by done. cbn [length take Nat.leb].
    by destruct (missing <=? length (accepted seed (S (t' + p')) rounds))%nat.
  - rewrite decide_False by lia. done.
Qed.

Lemma coefficients_spec seed coeffs : coefficients seed = Some coeffs ->
  coeffs = take 1024 (accepted seed 0 DRAWS) /\ length coeffs = 1024%nat /\ Forall (fun c => 0 <= c < MLKEM_Q) coeffs.
Proof.
  unfold coefficients. rewrite (sample_spec seed DRAWS 0 0) by lia. cbn [Nat.add]. change ((MLKEM_K + 1) * MLKEM_N)%nat with 1024%nat.
  destruct (Nat.leb_spec 1024 (length (accepted seed 0 DRAWS))); [|done]. intros [= <-].
  split_and!; [done|rewrite length_take; lia|]. apply Forall_take, Forall_forall.
  intros x [Hx Hin]%list_elem_of_filter. split; [|done].
  apply list_elem_of_In, in_map_iff in Hin as (j & <- & _). apply Z.land_nonneg. lia.
Qed.

Lemma coefficients_some seed : (1024 <= length (accepted seed 0 DRAWS))%nat -> is_Some (coefficients seed).
Proof.
  intros Hlen. unfold coefficients. rewrite (sample_spec seed DRAWS 0 0) by lia. cbn [Nat.add].
  change ((MLKEM_K + 1) * MLKEM_N)%nat with 1024%nat. rewrite (proj2 (Nat.leb_le _ _)) by done. by eexists.
Qed.

Lemma compress_range x d : 0 <= d -> 0 <= mlkem_compress x d < 2 ^ d.
Proof.
  intros Hd. unfold mlkem_compress.
  replace (Z.shiftl 1 d - 1) with (Z.ones d) by (rewrite Z.ones_equiv, Z.shiftl_1_l; lia). rewrite Z.land_ones by done.
  apply Z.mod_pos_bound. lia.
Qed.

Lemma compressed_widths coeffs : (compressed coeffs).*1 = map width (seq 0 (length coeffs)).
Proof.
  apply list_eq. intros i. unfold compressed. rewrite list_lookup_fmap, list_lookup_imap.
  change (map width) with (fmap (M := list) width). rewrite list_lookup_fmap.
  destruct (coeffs !! i) as [c|] eqn:E; cbn.
  - apply lookup_lt_Some in E. by rewrite lookup_seq_lt.
  - apply lookup_ge_None in E. by rewrite lookup_seq_ge.
Qed.

Lemma compressed_fit coeffs : Forall field_fits (compressed coeffs).
Proof.
  apply Forall_lookup. intros i f. unfold compressed. rewrite list_lookup_imap.
  destruct (coeffs !! i) as [c|]; [|done]. intros [= <-]. unfold field_fits. cbn [fst snd].
  assert (0 <= width i <= 16) by (unfold width, MLKEM_DU, MLKEM_DV; case_match; lia). split; [done|]. apply compress_range. lia.
Qed.

Lemma bits_widths fields : bits fields = foldr Z.add 0 fields.*1.
Proof. induction fields as [|f fields IH]; [done|]. cbn. fold (bits fields). by rewrite IH. Qed.


(** What makes the form of a ciphertext visible: of the ten-bit values, 257 are the
    compression of four residues and the other 767 of three. *)
Definition compressed_residues : list Z := map (fun x => mlkem_compress (Z.of_nat x) MLKEM_DU) (seq 0 3329).
Definition preimages : list nat := map (count_occ Z.eq_dec compressed_residues) (map Z.of_nat (seq 0 1024)).

Lemma compress_preimages :
  length (base.filter (fun n => n = 4)%nat preimages) = 257%nat /\
  length (base.filter (fun n => n = 3)%nat preimages) = 767%nat.
Proof. vm_compute. done. Qed.

(** ** Every hop finds its ciphertext *)

(** The facts of FIPS 203: a ciphertext has its length, the key that was generated
    with an encapsulation key decapsulates what was encapsulated to it, up to a
    probability of [2^-164], and decapsulates any other ciphertext to some secret.
    Sampling a dummy ends within the draws allowed, up to a probability far below. *)
Class KemLaws : Prop := {
  encaps_ct_length k seed : length (encaps_from_seed k seed).2 = PQ_KEM_CT_LEN;
  kem_correct d z ek dk : keygen_from_seed d z = (ek, dk) ->
    exists k dk', ek_from_bytes ek = Some k /\ dk_from_bytes dk = Some dk' /\
      (forall seed, exists ct, ct_from_bytes (encaps_from_seed k seed).2 = Some ct /\
         try_decaps dk' ct = Some (encaps_from_seed k seed).1) /\
      (forall bs, length bs = PQ_KEM_CT_LEN -> exists ct, ct_from_bytes bs = Some ct /\ is_Some (try_decaps dk' ct));
  sampling_ends seed : is_Some (coefficients seed);
}.
Context {kem_laws : KemLaws}.

Definition kem_pair (ek dk : bytes) : Prop := exists seed, keypair_from_seed seed = (ek, dk).

Lemma encapsulate_decapsulate ek dk seed : kem_pair ek dk ->
  exists kem_ss ct, encapsulate ek seed = Some (kem_ss, ct) /\ decapsulate dk ct = Some kem_ss /\
    length ct = PQ_KEM_CT_LEN.
Proof.
  intros [node_seed E]. unfold keypair_from_seed in E. cbn in E.
  apply kem_correct in E as (k & dk' & Hek & Hdk & Hct & _). destruct (Hct seed) as (ct & Hparse & Hdec).
  exists (encaps_from_seed k seed).1, (encaps_from_seed k seed).2. unfold encapsulate, decapsulate. rewrite Hek, Hdk. cbn.
  rewrite Hparse. cbn. split_and!; [by destruct (encaps_from_seed k seed)|done|apply encaps_ct_length].
Qed.

Lemma decapsulate_any ek dk ct : kem_pair ek dk -> length ct = PQ_KEM_CT_LEN -> is_Some (decapsulate dk ct).
Proof.
  intros [node_seed E] Hlen. unfold keypair_from_seed in E. cbn in E.
  apply kem_correct in E as (k & dk' & Hek & Hdk & _ & Hany). destruct (Hany ct Hlen) as (ct' & Hparse & Hdec).
  unfold decapsulate. rewrite Hdk. cbn. by rewrite Hparse.
Qed.

Lemma dummy_ciphertext_length seed :
  exists ct, dummy_ciphertext_from_seed seed = Some ct /\ length ct = PQ_KEM_CT_LEN.
Proof.
  destruct (sampling_ends seed) as [coeffs Hc]. destruct (coefficients_spec seed coeffs Hc) as (_ & Hlen & _).
  unfold dummy_ciphertext_from_seed. rewrite Hc. eexists. split; [done|].
  assert (bits (compressed coeffs) = 8704) as Hbits.
  { rewrite bits_widths, compressed_widths, Hlen. vm_compute. done. }
  destruct (pack_unpack (compressed coeffs) (compressed_fit coeffs)) as (_ & Hl & _); [by rewrite Hbits|].
  rewrite Hbits in Hl. unfold PQ_KEM_CT_LEN. lia.
Qed.

Lemma dummies_length prng_seed idxs :
  exists padding, dummies prng_seed idxs = Return padding /\ length padding = (length idxs * PQ_KEM_CT_LEN)%nat.
Proof.
  induction idxs as [|idx idxs (padding & Hp & Hl)]; [by exists []|]. cbn [dummies].
  unfold pq_dummy_trail_ct. destruct (dummy_ciphertext_length
    (hmac_sha256 (tag "pq_payment_trail_dummy_ct") (prng_seed ++ to_be 8 (Z.of_nat idx)))) as (ct & -> & Hct).
  cbn -[Nat.mul]. rewrite Hp. eexists. split; [done|]. rewrite length_app, Hct, Hl. cbn [length]. lia.
Qed.

(** What the sender has after deriving the keys of a path: for every hop with an
    ML-KEM key a ciphertext it decapsulates and keys from the hybrid secret, for
    every blinded hop the keys from its secret alone. *)
Fixpoint hybrid_keys (keys : list (bytes * PublicKey)) (dks : list bytes) (onion_keys : list OnionKeys)
    (cts kem_secrets : list bytes) : Prop :=
  match keys, dks with
  | [], [] => onion_keys = [] /\ cts = [] /\ kem_secrets = []
  | [], _ :: _ => False
  | (ss, ephemeral) :: keys, [] =>
      exists onion_keys', onion_keys = onion_keys_of ss ephemeral :: onion_keys' /\
        hybrid_keys keys [] onion_keys' cts kem_secrets
  | (ss, ephemeral) :: keys, dk :: dks =>
      exists kem_ss ct onion_keys' cts' kem_secrets',
        onion_keys = onion_keys_of (mix_payment_onion_secret ss kem_ss) ephemeral :: onion_keys' /\
        cts = ct :: cts' /\ kem_secrets = kem_ss :: kem_secrets' /\
        decapsulate dk ct = Some kem_ss /\ length ct = PQ_KEM_CT_LEN /\
        hybrid_keys keys dks onion_keys' cts' kem_secrets'
  end.

Lemma pq_onion_keys_hybrid seed keys : forall idx eks dks, Forall2 kem_pair eks dks -> (length eks <= length keys)%nat ->
  exists onion_keys cts kem_secrets, pq_onion_keys keys eks seed idx = Ok (onion_keys, cts, kem_secrets) /\
    hybrid_keys keys dks onion_keys cts kem_secrets.
Proof.
  induction keys as [|[ss e] keys IH]; intros idx eks dks Hp Hlen.
  { destruct Hp; [|cbn in Hlen; lia]. by exists [], [], []. }
  destruct Hp as [|ek dk eks dks Hk Hp]; cbn [pq_onion_keys].
  - destruct (IH (S idx) [] [] ltac:(constructor) ltac:(cbn; lia)) as (oks & cts & kss & -> & Hh).
    eexists _, _, _. split; [done|]. by eexists.
  - destruct (encapsulate_decapsulate ek dk (pq_hop_kem_seed seed idx) Hk) as (kem_ss & ct & -> & Hd & Hct).
    destruct (IH (S idx) eks dks Hp ltac:(cbn in Hlen; lia)) as (oks & cts & kss & -> & Hh).
    eexists _, _, _. split; [done|]. eexists _, _, _, _, _. split_and!; done.
Qed.

Lemma hybrid_keys_cts keys dks onion_keys cts kem_secrets : hybrid_keys keys dks onion_keys cts kem_secrets ->
  length cts = length dks /\ length onion_keys = length keys /\ Forall (fun ct : bytes => length ct = PQ_KEM_CT_LEN) cts.
Proof.
  revert dks onion_keys cts kem_secrets. induction keys as [|[ss e] keys IH]; intros [|dk dks] oks cts kss; cbn;
    [by intros (-> & -> & ->)|done| |].
  - intros (oks' & -> & (E1 & E2 & E3)%IH). split_and!; [done|cbn; lia|done].
  - intros (? & ct & oks' & cts' & kss' & -> & -> & -> & _ & Hct & (E1 & E2 & E3)%IH).
    split_and!; [cbn; lia..|by constructor].
Qed.

Lemma build_pq_trail_padded (cts : list bytes) prng_seed : (0 < length cts <= MAX_PATH_LENGTH_ESTIMATE)%nat ->
  Forall (fun ct : bytes => length ct = PQ_KEM_CT_LEN) cts ->
  exists padding, build_pq_trail cts prng_seed = Return (Ok (mjoin cts ++ padding)) /\
    length (mjoin cts ++ padding) = PQ_PAYMENT_TRAIL_LEN.
Proof.
  intros Hlen Hcts. unfold build_pq_trail.
  rewrite (proj2 (Nat.eqb_neq _ _)), (proj2 (Nat.ltb_ge _ _)) by lia. cbn [orb].
  destruct (dummies_length prng_seed (seq (length cts) (PQ_PAYMENT_TRAIL_HOPS - length cts))) as (padding & -> & Hp).
  exists padding. split; [done|]. rewrite length_app, Hp, length_seq.
  assert (length (mjoin cts) = (length cts * PQ_KEM_CT_LEN)%nat) as ->.
  { clear -Hcts. induction Hcts as [|ct cts Hct _ IH]; [done|]. change (mjoin (ct :: cts)) with (ct ++ mjoin cts). rewrite length_app, IH, Hct. done. }
  unfold PQ_PAYMENT_TRAIL_LEN. rewrite <- Nat.mul_add_distr_r. f_equal. unfold PQ_PAYMENT_TRAIL_HOPS. lia.
Qed.

Lemma pq_hop_hybrid_secret_front classical (ct rest : bytes) signer kem_ss : length ct = PQ_KEM_CT_LEN ->
  pq_kem_decapsulate signer ct = Some kem_ss ->
  pq_hop_hybrid_secret classical (ct ++ rest) signer =
    Some (mix_payment_onion_secret classical kem_ss, Some (rest ++ ct)).
Proof.
  intros Hct Hd. unfold pq_hop_hybrid_secret. rewrite length_app, (proj2 (Nat.ltb_ge _ _)) by lia.
  rewrite take_app_length', drop_app_length' by done. by rewrite Hd.
Qed.

End kem.
