(* ===== verification/Streams.v ===== *)
(** * Authenticated encryption of readable objects (lightning/src/crypto/streams.rs)

    ChaCha20-Poly1305 in the two forms the code uses: the standard one without
    additional data, and one that authenticates a 32-byte key behind the contents.
    The reader decrypts what another reader asks for, and accepts any of three
    tags.  Poly1305 is the class [Poly1305]. *)

From Stdlib Require Import ZArith Lia Bool.
From S2P Require Import Prelude.
From S2P Require Import Keys.
From S2P Require Import Ser.
From S2P Require Import Onion.

Local Open Scope Z_scope.

Class Poly1305 := {
  (** the tag of all that was put in, with a one-time key *)
  poly1305 : bytes -> bytes -> bytes;
  poly1305_length k m : length (poly1305 k m) = 16%nat;
}.

(** [u64::to_le_bytes] *)
Definition to_le64 (x : Z) : bytes := reverse (to_be 8 x).

Section streams.
Context `{OnionCrypto, Poly1305}.

Definition mac_key (key : bytes) : bytes := take 32 (apply_keystream key 0 (replicate 64 0)).

(** [if len % 16 != 0 { mac.input(&[0; 16][0..16 - (len % 16)]) }] *)
Definition pad16 (len : nat) : bytes :=
  if (len mod 16 =? 0)%nat then [] else replicate (16 - len mod 16) 0.

Definition len64 (l : bytes) : bytes := to_le64 (Z.of_nat (length l)).

(** The three tags of a ciphertext. *)
Definition tag_plain (key contents : bytes) : bytes :=
  poly1305 (mac_key key) (contents ++ pad16 (length contents) ++ to_le64 0 ++ len64 contents).
Definition tag_aad (key aad contents : bytes) : bytes :=
  poly1305 (mac_key key) (contents ++ pad16 (length contents) ++ aad ++ len64 contents ++ to_le64 32).

(** [ChaChaPolyWriteAdapter::write] *)
Definition chachapoly_write (rho plaintext : bytes) : bytes :=
  let contents := apply_keystream rho 64 plaintext in
  contents ++ tag_plain rho contents.

Definition chachapoly_encrypt_with_swapped_aad (plaintext key aad : bytes) : bytes :=
  let contents := apply_keystream key 64 plaintext in
  contents ++ tag_aad key aad contents.

Inductive TriPolyAADUsed : Type := NoAAD | First | Second.
#[export] Instance TriPolyAADUsed_eq : EqDecision TriPolyAADUsed.
Proof. solve_decision. Defined.

(** [ChaChaTriPolyReadAdapter::read], from a reader of all of [r]: what the inner
    reader leaves is read too, so that the tags cover all the contents. *)
Definition chacha_tri_poly_read {T} (read : reader T) (key aad_a aad_b r : bytes)
    : result DecodeError (T * TriPolyAADUsed) :=
  if (length r <? 16)%nat then Err InvalidValue
  else
    let contents := take (length r - 16) r in
    let tag := drop (length r - 16) r in
    match read (apply_keystream key 64 contents) with
    | (Err e, _) => Err e
    | (Ok readable, _) =>
        if bool_decide (tag_plain key contents = tag) then Ok (readable, NoAAD)
        else if bool_decide (tag_aad key aad_a contents = tag) then Ok (readable, First)
        else if bool_decide (tag_aad key aad_b contents = tag) then Ok (readable, Second)
        else Err InvalidValue
    end.

(** [ChaChaPolyReadAdapter::read] *)
Definition chacha_poly_read {T} (read : reader T) (secret r : bytes) : result DecodeError T :=
  if (length r <? 16)%nat then Err InvalidValue
  else
    let contents := take (length r - 16) r in
    match read (apply_keystream secret 64 contents) with
    | (Err e, _) => Err e
    | (Ok readable, _) =>
        if bool_decide (tag_plain secret contents = drop (length r - 16) r) then Ok readable else Err InvalidValue
    end.

(** What is written is read back, whatever else the reader was told to accept; and
    the reader says which key authenticated it, unless two tags collide. *)
Lemma split_tag (contents tag : bytes) : length tag = 16%nat ->
  (length (contents ++ tag) <? 16)%nat = false /\
  take (length (contents ++ tag) - 16) (contents ++ tag) = contents /\
  drop (length (contents ++ tag) - 16) (contents ++ tag) = tag.
Proof.
  intros Ht. rewrite length_app, Ht. split_and!.
  - apply Nat.ltb_ge. lia.
  - apply take_app_length'. lia.
  - apply drop_app_length'. lia.
Qed.

Lemma chachapoly_write_read {T} (read : reader T) rho plaintext aad_a aad_b x rest :
  read plaintext = (Ok x, rest) ->
  chacha_tri_poly_read read rho aad_a aad_b (chachapoly_write rho plaintext) = Ok (x, NoAAD) /\
  chacha_poly_read read rho (chachapoly_write rho plaintext) = Ok x.
Proof.
  intros Hread. unfold chacha_tri_poly_read, chacha_poly_read, chachapoly_write.
  set (contents := apply_keystream rho 64 plaintext).
  destruct (split_tag contents (tag_plain rho contents)) as (-> & -> & ->); [apply poly1305_length|].
  assert (apply_keystream rho 64 contents = plaintext) as -> by apply apply_keystream_twice.
  rewrite Hread. by rewrite !bool_decide_true by done.
Qed.

Lemma swapped_aad_read {T} (read : reader T) key plaintext aad_a aad_b x rest :
  read plaintext = (Ok x, rest) ->
  tag_plain key (apply_keystream key 64 plaintext) <> tag_aad key aad_a (apply_keystream key 64 plaintext) ->
  chacha_tri_poly_read read key aad_a aad_b (chachapoly_encrypt_with_swapped_aad plaintext key aad_a) =
    Ok (x, First).
Proof.
  intros Hread Hne. unfold chacha_tri_poly_read, chachapoly_encrypt_with_swapped_aad.
  set (contents := apply_keystream key 64 plaintext) in *.
  destruct (split_tag contents (tag_aad key aad_a contents)) as (-> & -> & ->); [apply poly1305_length|].
  assert (apply_keystream key 64 contents = plaintext) as -> by apply apply_keystream_twice. rewrite Hread.
  by rewrite bool_decide_false, bool_decide_true by done.
Qed.

End streams.
