(* ===== verification/BlindedPath.v ===== *)
(** * Blinded payment paths (lightning/src/blinded_path/payment.rs, lightning/src/blinded_path/utils.rs)

    The data a recipient encrypts for the hops of a blinded path, classical or
    post-quantum, the hops themselves, and the fees and limits the path is
    advertised with.  The context of a payment, which only the recipient reads, is
    the interface [PaymentContexts]. *)

From Stdlib Require Import ZArith Lia Bool.
From stdpp Require Import strings.
From S2P Require Import Prelude.
From S2P Require Import Features.
From S2P Require Import Keys.
From S2P Require Import Ser.
From S2P Require Import Onion.
From S2P Require Import PqKem.
From S2P Require Import Streams.

Local Open Scope Z_scope.

(** ** Parameters of a hop *)

Record PaymentRelay : Type := mkPaymentRelay {
  relay_cltv_expiry_delta : Z;
  relay_fee_proportional_millionths : Z;
  relay_fee_base_msat : Z;
}.
Record PaymentConstraints : Type := mkPaymentConstraints {
  max_cltv_expiry : Z;
  constraint_htlc_minimum_msat : Z;
}.
Definition relay_wf (r : PaymentRelay) : Prop :=
  fits 16 (relay_cltv_expiry_delta r) /\ fits 32 (relay_fee_proportional_millionths r) /\
  fits 32 (relay_fee_base_msat r).
Definition constraints_wf (c : PaymentConstraints) : Prop :=
  fits 32 (max_cltv_expiry c) /\ fits 64 (constraint_htlc_minimum_msat c).

Definition payment_relay_write (self : PaymentRelay) : bytes :=
  to_be 2 (relay_cltv_expiry_delta self) ++ to_be 4 (relay_fee_proportional_millionths self) ++
  high_zero_write 4 (relay_fee_base_msat self).
Definition payment_relay_read : reader PaymentRelay :=
  cltv_expiry_delta ← read_be 2;
  fee_proportional_millionths ← read_be 4;
  fee_base_msat ← high_zero_read 4;
  mret (mkPaymentRelay cltv_expiry_delta fee_proportional_millionths fee_base_msat).

Definition payment_constraints_write (self : PaymentConstraints) : bytes :=
  to_be 4 (max_cltv_expiry self) ++ high_zero_write 8 (constraint_htlc_minimum_msat self).
Definition payment_constraints_read : reader PaymentConstraints :=
  max_cltv_expiry ← read_be 4;
  htlc_minimum_msat ← high_zero_read 8;
  mret (mkPaymentConstraints max_cltv_expiry htlc_minimum_msat).

(** What the recipient stores in its own hop, and how it is encoded. *)
Class PaymentContexts := {
  PaymentContext : Type;
  context_write : PaymentContext -> bytes;
  context_read : reader PaymentContext;
  context_write_read c : context_read (context_write c) = (Ok c, []);
  context_short c : fits 32 (Z.of_nat (length (context_write c)));
}.

Definition BlindedHopFeatures : Type := Features BlindedHopContext.

Section tlvs.
Context {bitcoin : Bitcoin} {crypto : OnionCrypto} {contexts : PaymentContexts}.

(** ** The data of a hop *)

Record ForwardTlvs : Type := mkForwardTlvs {
  fwd_short_channel_id : Z;
  fwd_payment_relay : PaymentRelay;
  fwd_payment_constraints : PaymentConstraints;
  fwd_features : BlindedHopFeatures;
  fwd_next_blinding_override : option PublicKey;
}.
Record TrampolineForwardTlvs : Type := mkTrampolineForwardTlvs {
  tfwd_next_trampoline : PublicKey;
  tfwd_payment_relay : PaymentRelay;
  tfwd_payment_constraints : PaymentConstraints;
  tfwd_features : BlindedHopFeatures;
  tfwd_next_blinding_override : option PublicKey;
}.
Record DummyTlvs : Type := mkDummyTlvs {
  dummy_payment_relay : PaymentRelay;
  dummy_payment_constraints : PaymentConstraints;
}.
Record ReceiveTlvs : Type := mkReceiveTlvs {
  recv_payment_secret : bytes;
  recv_payment_constraints : PaymentConstraints;
  recv_payment_context : PaymentContext;
}.

Inductive BlindedPaymentTlvs : Type :=
| TlvsForward (tlvs : ForwardTlvs)
| TlvsDummy (tlvs : DummyTlvs)
| TlvsReceive (tlvs : ReceiveTlvs).
Inductive BlindedTrampolineTlvs : Type :=
| TrampolineTlvsForward (tlvs : TrampolineForwardTlvs)
| TrampolineTlvsReceive (tlvs : ReceiveTlvs).

(** An optional record. *)
Definition opt_tlv (typ : Z) (value : option bytes) : list (Z * bytes) :=
  match value with Some v => [(typ, v)] | None => [] end.

Definition features_opt (features : BlindedHopFeatures) : option bytes :=
  if features_eq features features_empty then None else Some (write_without_length features).

Definition forward_tlvs (self : ForwardTlvs) : list (Z * bytes) :=
  [(2, to_be 8 (fwd_short_channel_id self)); (10, payment_relay_write (fwd_payment_relay self));
   (12, payment_constraints_write (fwd_payment_constraints self))] ++
  opt_tlv 14 (features_opt (fwd_features self)).
Definition trampoline_forward_tlvs (self : TrampolineForwardTlvs) : list (Z * bytes) :=
  [(4, serialize (tfwd_next_trampoline self)); (10, payment_relay_write (tfwd_payment_relay self));
   (12, payment_constraints_write (tfwd_payment_constraints self))] ++
  opt_tlv 14 (features_opt (tfwd_features self)).
Definition dummy_tlvs (self : DummyTlvs) : list (Z * bytes) :=
  [(10, payment_relay_write (dummy_payment_relay self));
   (12, payment_constraints_write (dummy_payment_constraints self)); (65539, [])].
Definition receive_tlvs (self : ReceiveTlvs) : list (Z * bytes) :=
  [(12, payment_constraints_write (recv_payment_constraints self)); (65536, recv_payment_secret self);
   (65537, context_write (recv_payment_context self))].

Definition payment_tlvs (self : BlindedPaymentTlvs) : list (Z * bytes) :=
  match self with
  | TlvsForward tlvs => forward_tlvs tlvs
  | TlvsDummy tlvs => dummy_tlvs tlvs
  | TlvsReceive tlvs => receive_tlvs tlvs
  end.
Definition trampoline_tlvs (self : BlindedTrampolineTlvs) : list (Z * bytes) :=
  match self with
  | TrampolineTlvsForward tlvs => trampoline_forward_tlvs tlvs
  | TrampolineTlvsReceive tlvs => receive_tlvs tlvs
  end.

(** *** Padding (utils.rs) *)

Definition PAYMENT_PADDING_ROUND_OFF : nat := 30.
Definition TLV_OVERHEAD : nat := 2.

(** [usize::div_ceil] *)
Definition div_ceil (a b : nat) : nat := if (a mod b =? 0)%nat then (a / b)%nat else (a / b + 1)%nat.

(** [BlindedPathWithPadding::write] of an object encoded as [tlvs] *)
Definition padding_length (round_off tlv_length : nat) : option nat :=
  let total_length := (tlv_length + TLV_OVERHEAD)%nat in
  if (round_off =? 0)%nat || (tlv_length mod round_off =? 0)%nat then None
  else Some (div_ceil total_length round_off * round_off - total_length)%nat.
Definition write_with_padding (round_off : nat) (tlvs : list (Z * bytes)) : bytes :=
  let encoded := encode_tlv_stream tlvs in
  encode_tlv_stream (opt_tlv 1 ((fun n => replicate n 0) <$> padding_length round_off (length encoded))) ++ encoded.

(** *** Reading *)

Record BlindedFields : Type := mkBlindedFields {
  f_scid : option Z;
  f_next_trampoline : option PublicKey;
  f_next_blinding_override : option PublicKey;
  f_payment_relay : option PaymentRelay;
  f_payment_constraints : option PaymentConstraints;
  f_features : option BlindedHopFeatures;
  f_payment_secret : option bytes;
  f_payment_context : option PaymentContext;
  f_is_dummy : option unit;
}.
Definition no_fields : BlindedFields := mkBlindedFields None None None None None None None None None.
Definition set_scid x f := mkBlindedFields (Some x) (f_next_trampoline f) (f_next_blinding_override f)
  (f_payment_relay f) (f_payment_constraints f) (f_features f) (f_payment_secret f) (f_payment_context f) (f_is_dummy f).
Definition set_next_trampoline x f := mkBlindedFields (f_scid f) (Some x) (f_next_blinding_override f)
  (f_payment_relay f) (f_payment_constraints f) (f_features f) (f_payment_secret f) (f_payment_context f) (f_is_dummy f).
Definition set_next_blinding_override x f := mkBlindedFields (f_scid f) (f_next_trampoline f) (Some x)
  (f_payment_relay f) (f_payment_constraints f) (f_features f) (f_payment_secret f) (f_payment_context f) (f_is_dummy f).
Definition set_payment_relay x f := mkBlindedFields (f_scid f) (f_next_trampoline f) (f_next_blinding_override f)
  (Some x) (f_payment_constraints f) (f_features f) (f_payment_secret f) (f_payment_context f) (f_is_dummy f).
Definition set_payment_constraints x f := mkBlindedFields (f_scid f) (f_next_trampoline f) (f_next_blinding_override f)
  (f_payment_relay f) (Some x) (f_features f) (f_payment_secret f) (f_payment_context f) (f_is_dummy f).
Definition set_features x f := mkBlindedFields (f_scid f) (f_next_trampoline f) (f_next_blinding_override f)
  (f_payment_relay f) (f_payment_constraints f) (Some x) (f_payment_secret f) (f_payment_context f) (f_is_dummy f).
Definition set_payment_secret x f := mkBlindedFields (f_scid f) (f_next_trampoline f) (f_next_blinding_override f)
  (f_payment_relay f) (f_payment_constraints f) (f_features f) (Some x) (f_payment_context f) (f_is_dummy f).
Definition set_payment_context x f := mkBlindedFields (f_scid f) (f_next_trampoline f) (f_next_blinding_override f)
  (f_payment_relay f) (f_payment_constraints f) (f_features f) (f_payment_secret f) (Some x) (f_is_dummy f).
Definition set_is_dummy x f := mkBlindedFields (f_scid f) (f_next_trampoline f) (f_next_blinding_override f)
  (f_payment_relay f) (f_payment_constraints f) (f_features f) (f_payment_secret f) (f_payment_context f) (Some x).

Definition read_features : reader BlindedHopFeatures := fun r => (Ok (read_without_length r), []).

Definition shared_field (typ : Z) : option (reader (BlindedFields -> BlindedFields)) :=
  if typ =? 8 then set_field read_public_key set_next_blinding_override
  else if typ =? 10 then set_field payment_relay_read set_payment_relay
  else if typ =? 12 then set_field payment_constraints_read set_payment_constraints
  else if typ =? 14 then set_field read_features set_features
  else if typ =? 65536 then set_field (read_exact 32) set_payment_secret
  else if typ =? 65537 then set_field context_read set_payment_context
  else None.

Definition payment_fields : tlv_fields BlindedFields :=
  mkFields (fun typ =>
    if typ =? 2 then set_field (read_be 8) set_scid
    else if typ =? 65539 then set_field (mret tt) set_is_dummy
    else shared_field typ) [12] (fun _ _ => None).
Definition trampoline_fields : tlv_fields BlindedFields :=
  mkFields (fun typ =>
    if typ =? 4 then set_field read_public_key set_next_trampoline
    else shared_field typ) [12] (fun _ _ => None).

(** The fields as [Readable::read] combines them; [payment_constraints] is required,
    so that its [unwrap] does not panic. *)
Definition payment_tlvs_of (f : BlindedFields) : result DecodeError BlindedPaymentTlvs :=
  match f_payment_constraints f with
  | None => Err InvalidValue
  | Some payment_constraints =>
      match f_scid f, f_next_blinding_override f, f_payment_relay f, f_features f, f_payment_secret f,
            f_payment_context f, f_is_dummy f with
      | Some short_channel_id, next_override, Some relay, features, None, None, None =>
          Ok (TlvsForward (mkForwardTlvs short_channel_id relay payment_constraints
                (default features_empty features) next_override))
      | None, None, None, None, Some secret, Some context, None =>
          Ok (TlvsReceive (mkReceiveTlvs secret payment_constraints context))
      | None, None, Some relay, None, None, None, Some tt =>
          Ok (TlvsDummy (mkDummyTlvs relay payment_constraints))
      | _, _, _, _, _, _, _ => Err InvalidValue
      end
  end.
Definition trampoline_tlvs_of (f : BlindedFields) : result DecodeError BlindedTrampolineTlvs :=
  match f_payment_constraints f with
  | None => Err InvalidValue
  | Some payment_constraints =>
      match f_next_trampoline f with
      | Some next_trampoline =>
          match f_payment_secret f, f_payment_relay f with
          | Some _, _ | None, None => Err InvalidValue
          | None, Some relay =>
              Ok (TrampolineTlvsForward (mkTrampolineForwardTlvs next_trampoline relay payment_constraints
                    (default features_empty (f_features f)) (f_next_blinding_override f)))
          end
      | None =>
          match f_payment_relay f, f_features f, f_payment_secret f, f_payment_context f with
          | None, None, Some secret, Some context =>
              Ok (TrampolineTlvsReceive (mkReceiveTlvs secret payment_constraints context))
          | _, _, _, _ => Err InvalidValue
          end
      end
  end.

Definition blinded_payment_tlvs_read : reader BlindedPaymentTlvs :=
  f ← decode_tlv_stream payment_fields no_fields; lift_result (payment_tlvs_of f).
Definition blinded_trampoline_tlvs_read : reader BlindedTrampolineTlvs :=
  f ← decode_tlv_stream trampoline_fields no_fields; lift_result (trampoline_tlvs_of f).

(** *** What is written is read back *)

Definition features_wf (features : BlindedHopFeatures) : Prop :=
  (if features_eq features features_empty then features_empty else from_le_bytes (le_flags features)) = features /\
  fits 32 (Z.of_nat (length (le_flags features))).
Definition payment_tlvs_wf (tlvs : BlindedPaymentTlvs) : Prop :=
  match tlvs with
  | TlvsForward t => fits 64 (fwd_short_channel_id t) /\ relay_wf (fwd_payment_relay t) /\
      constraints_wf (fwd_payment_constraints t) /\ features_wf (fwd_features t)
  | TlvsDummy t => relay_wf (dummy_payment_relay t) /\ constraints_wf (dummy_payment_constraints t)
  | TlvsReceive t => length (recv_payment_secret t) = 32%nat /\ constraints_wf (recv_payment_constraints t)
  end.
Definition trampoline_tlvs_wf (tlvs : BlindedTrampolineTlvs) : Prop :=
  match tlvs with
  | TrampolineTlvsForward t => relay_wf (tfwd_payment_relay t) /\
      constraints_wf (tfwd_payment_constraints t) /\ features_wf (tfwd_features t)
  | TrampolineTlvsReceive t => length (recv_payment_secret t) = 32%nat /\ constraints_wf (recv_payment_constraints t)
  end.

(** What is on the wire: [next_blinding_override] is not written. *)
Definition payment_tlvs_written (tlvs : BlindedPaymentTlvs) : BlindedPaymentTlvs :=
  match tlvs with
  | TlvsForward t => TlvsForward (mkForwardTlvs (fwd_short_channel_id t) (fwd_payment_relay t)
                                    (fwd_payment_constraints t) (fwd_features t) None)
  | _ => tlvs
  end.
Definition trampoline_tlvs_written (tlvs : BlindedTrampolineTlvs) : BlindedTrampolineTlvs :=
  match tlvs with
  | TrampolineTlvsForward t => TrampolineTlvsForward (mkTrampolineForwardTlvs (tfwd_next_trampoline t)
                                 (tfwd_payment_relay t) (tfwd_payment_constraints t) (tfwd_features t) None)
  | _ => tlvs
  end.

Lemma payment_relay_write_read r : relay_wf r -> payment_relay_read (payment_relay_write r) = (Ok r, []).
Proof.
  intros (H1 & H2 & H3). unfold payment_relay_read, payment_relay_write, fits in *.
  erewrite read_bind by (apply read_be_app; cbn; lia). erewrite read_bind by (apply read_be_app; cbn; lia).
  erewrite read_bind by (apply high_zero_write_read; cbn; lia). by destruct r.
Qed.

Lemma payment_constraints_write_read c : constraints_wf c ->
  payment_constraints_read (payment_constraints_write c) = (Ok c, []).
Proof.
  intros (H1 & H2). unfold payment_constraints_read, payment_constraints_write, fits in *.
  erewrite read_bind by (apply read_be_app; cbn; lia).
  erewrite read_bind by (apply high_zero_write_read; cbn; lia). by destruct c.
Qed.

Lemma high_zero_write_length n x : (length (high_zero_write n x) <= n)%nat.
Proof. unfold high_zero_write. rewrite length_drop, to_be_length. lia. Qed.

Lemma payment_relay_write_length r : (length (payment_relay_write r) <= 10)%nat.
Proof.
  unfold payment_relay_write. rewrite !length_app, !to_be_length.
  pose proof (high_zero_write_length 4 (relay_fee_base_msat r)). lia.
Qed.

Lemma payment_constraints_write_length c : (length (payment_constraints_write c) <= 12)%nat.
Proof.
  unfold payment_constraints_write. rewrite !length_app, !to_be_length.
  pose proof (high_zero_write_length 8 (constraint_htlc_minimum_msat c)). lia.
Qed.

Lemma encode_tlv_stream_app l k : encode_tlv_stream (l ++ k) = encode_tlv_stream l ++ encode_tlv_stream k.
Proof.
  induction l as [|t l IH]; [done|]. change (encode_tlv t ++ encode_tlv_stream (l ++ k) =
    (encode_tlv t ++ encode_tlv_stream l) ++ encode_tlv_stream k). by rewrite IH, app_assoc.
Qed.

Lemma write_with_padding_stream round_off tlvs : exists padding,
  write_with_padding round_off tlvs = encode_tlv_stream (opt_tlv 1 padding ++ tlvs) /\
  (forall p, padding = Some p -> (length p <= round_off)%nat).
Proof.
  unfold write_with_padding. eexists. split; [by rewrite encode_tlv_stream_app|].
  unfold padding_length, div_ceil. destruct (Nat.eqb_spec round_off 0); [done|]. cbn [orb].
  destruct (_ =? 0)%nat; [done|]. intros p [= <-]. rewrite length_replicate.
  set (t := (length _ + TLV_OVERHEAD)%nat). pose proof (Nat.div_mod t round_off ltac:(lia)).
  pose proof (Nat.mod_upper_bound t round_off ltac:(lia)). destruct (t mod round_off =? 0)%nat; nia.
Qed.

(** The padding is an unknown odd type: it is skipped. *)
Lemma handle_all_padding {T} (F : tlv_fields T) padding tlvs s : field F 1 = None -> (forall v, custom F 1 v = None) ->
  handle_all F (opt_tlv 1 padding ++ tlvs) s = handle_all F tlvs s.
Proof. intros Hf Hc. destruct padding as [p|]; [|done]. cbn. unfold handle. cbn. by rewrite Hf, Hc. Qed.

Lemma ascending_padding padding tlvs : ascending (Some 1) tlvs -> ascending None (opt_tlv 1 padding ++ tlvs).
Proof. destruct padding; cbn; [done|]. by destruct tlvs as [|t tlvs]; [done|intros [_ ?]]. Qed.

Lemma features_opt_read features : features_wf features ->
  match features_opt features with
  | Some v => read_features v = (Ok features, []) /\ fits 64 (Z.of_nat (length v))
  | None => features = features_empty
  end.
Proof.
  intros [Hf Hl]. unfold features_opt. destruct (features_eq features features_empty); [done|].
  unfold read_features, read_without_length, write_without_length, write_be, from_be_bytes.
  rewrite reverse_involutive. unfold from_le_bytes in Hf. rewrite Hf. split; [done|].
  rewrite length_reverse. unfold fits in *. lia.
Qed.

Context {bitcoin_laws : BitcoinLaws} {crypto_laws : OnionCryptoLaws}.

Ltac fit := repeat constructor; unfold tlv_fits, fits in *; cbn [fst snd length];
  rewrite ?to_be_length, ?serialize_length; try lia;
  match goal with
  | |- context [length (payment_relay_write ?r)] => pose proof (payment_relay_write_length r); lia
  | |- context [length (payment_constraints_write ?c)] => pose proof (payment_constraints_write_length c); lia
  | |- context [length (context_write ?c)] => pose proof (context_short c); unfold fits in *; lia
  | _ => idtac
  end.
Ltac read_back := first
  [ by apply payment_relay_write_read | by apply payment_constraints_write_read | by apply context_write_read
  | rewrite <- (app_nil_r (to_be _ _)); apply read_be_app; unfold fits in *; cbn; lia
  | rewrite <- (app_nil_r (serialize _)); apply read_public_key_app
  | rewrite <- (app_nil_r (recv_payment_secret _)) at 1; by apply read_exact_app
  | eassumption | done ].
Ltac handles := cbn [handle_all app];
  repeat (erewrite handle_set; [|reflexivity|read_back]; cbn [mbind option_bind handle_all]).

Lemma forward_fields padding t : payment_tlvs_wf (TlvsForward t) ->
  handle_all payment_fields (opt_tlv 1 padding ++ forward_tlvs t) no_fields =
    Some (mkBlindedFields (Some (fwd_short_channel_id t)) None None (Some (fwd_payment_relay t))
      (Some (fwd_payment_constraints t)) ((fun _ => fwd_features t) <$> features_opt (fwd_features t))
      None None None).
Proof.
  intros (Hs & Hr & Hc & Hf). rewrite handle_all_padding by done. unfold forward_tlvs. handles.
  apply features_opt_read in Hf. destruct (features_opt (fwd_features t)) as [v|]; [|done].
  destruct Hf as [Hf _]. cbn [opt_tlv]. handles. done.
Qed.

Lemma trampoline_forward_fields padding t : trampoline_tlvs_wf (TrampolineTlvsForward t) ->
  handle_all trampoline_fields (opt_tlv 1 padding ++ trampoline_forward_tlvs t) no_fields =
    Some (mkBlindedFields None (Some (tfwd_next_trampoline t)) None (Some (tfwd_payment_relay t))
      (Some (tfwd_payment_constraints t)) ((fun _ => tfwd_features t) <$> features_opt (tfwd_features t))
      None None None).
Proof.
  intros (Hr & Hc & Hf). rewrite handle_all_padding by done. unfold trampoline_forward_tlvs. handles.
  apply features_opt_read in Hf. destruct (features_opt (tfwd_features t)) as [v|]; [|done].
  destruct Hf as [Hf _]. cbn [opt_tlv]. handles. done.
Qed.

Lemma receive_fields F padding t : F = payment_fields \/ F = trampoline_fields ->
  length (recv_payment_secret t) = 32%nat -> constraints_wf (recv_payment_constraints t) ->
  handle_all F (opt_tlv 1 padding ++ receive_tlvs t) no_fields =
    Some (mkBlindedFields None None None None (Some (recv_payment_constraints t)) None
      (Some (recv_payment_secret t)) (Some (recv_payment_context t)) None).
Proof.
  intros [->| ->] Hs Hc; rewrite handle_all_padding by done; unfold receive_tlvs; handles; done.
Qed.

Lemma dummy_fields padding t : payment_tlvs_wf (TlvsDummy t) ->
  handle_all payment_fields (opt_tlv 1 padding ++ dummy_tlvs t) no_fields =
    Some (mkBlindedFields None None None (Some (dummy_payment_relay t)) (Some (dummy_payment_constraints t)) None
      None None (Some tt)).
Proof.
  intros (Hr & Hc). rewrite handle_all_padding by done. unfold dummy_tlvs. handles. done.
Qed.

Lemma padding_fits round_off padding : (round_off <= 1000)%nat ->
  (forall p, padding = Some p -> (length p <= round_off)%nat) -> Forall tlv_fits (opt_tlv 1 padding).
Proof.
  intros Hr Hp. destruct padding as [p|]; [|constructor]. specialize (Hp p eq_refl).
  constructor; [|constructor]. unfold tlv_fits, fits. cbn. lia.
Qed.

Lemma features_fits features : features_wf features -> Forall tlv_fits (opt_tlv 14 (features_opt features)).
Proof.
  intros Hf%features_opt_read. destruct (features_opt features) as [v|]; [|constructor].
  constructor; [|constructor]. split; [unfold fits; cbn; lia|]. apply Hf.
Qed.

Lemma features_ascending features l : (l < 14) -> ascending (Some l) (opt_tlv 14 (features_opt features)).
Proof. intros Hl. destruct (features_opt features); cbn; [|done]. split; [by apply Z.ltb_lt|done]. Qed.

Lemma features_default features : features_wf features ->
  default features_empty ((fun _ => features) <$> features_opt features) = features.
Proof. intros Hf%features_opt_read. by destruct (features_opt features). Qed.

Lemma required_present padding tlvs : 12 ∈ map fst tlvs ->
  forall q, q ∈ [12] -> q ∈ map fst (opt_tlv 1 padding ++ tlvs).
Proof. intros Hin q ->%list_elem_of_singleton. rewrite map_app. apply elem_of_app. by right. Qed.

(** The data of a hop is read back from what the recipient wrote, padded or not,
    except that an override of the next blinding point is lost. *)
Lemma payment_tlvs_write_read round_off t : (round_off <= 1000)%nat -> payment_tlvs_wf t ->
  blinded_payment_tlvs_read (write_with_padding round_off (payment_tlvs t)) = (Ok (payment_tlvs_written t), []).
Proof.
  intros Hr Hwf. destruct (write_with_padding_stream round_off (payment_tlvs t)) as (padding & -> & Hp).
  unfold blinded_payment_tlvs_read. pose proof (padding_fits _ _ Hr Hp) as Hpad.
  destruct t as [t|t|t]; cbn [payment_tlvs].
  - erewrite read_bind; [|apply decode_tlv_stream_complete; [| | |by apply forward_fields]].
    + unfold lift_result, payment_tlvs_of. cbn. destruct Hwf as (_ & _ & _ & Hf). by rewrite features_default.
    + apply Forall_app. split; [done|]. unfold forward_tlvs. apply Forall_app.
      destruct Hwf as (Hs & _ & _ & Hf). split; [fit|by apply features_fits].
    + apply ascending_padding. cbn. split_and!; [done..|]. by apply features_ascending.
    + apply required_present. cbn. repeat first [apply list_elem_of_here|apply list_elem_of_further].
  - erewrite read_bind; [|apply decode_tlv_stream_complete; [| | |by apply dummy_fields]].
    + by destruct t.
    + apply Forall_app. split; [done|]. fit.
    + apply ascending_padding. done.
    + apply required_present. cbn. repeat first [apply list_elem_of_here|apply list_elem_of_further].
  - destruct Hwf as [Hs Hc].
    erewrite read_bind; [|apply decode_tlv_stream_complete; [| | |by apply receive_fields; [left|..]]].
    + by destruct t.
    + apply Forall_app. split; [done|]. fit.
    + apply ascending_padding. done.
    + apply required_present. cbn. repeat first [apply list_elem_of_here|apply list_elem_of_further].
Qed.

Lemma trampoline_tlvs_write_read round_off t : (round_off <= 1000)%nat -> trampoline_tlvs_wf t ->
  blinded_trampoline_tlvs_read (write_with_padding round_off (trampoline_tlvs t)) = (Ok (trampoline_tlvs_written t), []).
Proof.
  intros Hr Hwf. destruct (write_with_padding_stream round_off (trampoline_tlvs t)) as (padding & -> & Hp).
  unfold blinded_trampoline_tlvs_read. pose proof (padding_fits _ _ Hr Hp) as Hpad.
  destruct t as [t|t]; cbn [trampoline_tlvs].
  - erewrite read_bind; [|apply decode_tlv_stream_complete; [| | |by apply trampoline_forward_fields]].
    + unfold lift_result, trampoline_tlvs_of. cbn. destruct Hwf as (_ & _ & Hf). by rewrite features_default.
    + apply Forall_app. split; [done|]. unfold trampoline_forward_tlvs. apply Forall_app.
      destruct Hwf as (_ & _ & Hf). split; [fit|by apply features_fits].
    + apply ascending_padding. cbn. split_and!; [done..|]. by apply features_ascending.
    + apply required_present. cbn. repeat first [apply list_elem_of_here|apply list_elem_of_further].
  - destruct Hwf as [Hs Hc].
    erewrite read_bind; [|apply decode_tlv_stream_complete; [| | |by apply receive_fields; [right|..]]].
    + by destruct t.
    + apply Forall_app. split; [done|]. fit.
    + apply ascending_padding. done.
    + apply required_present. cbn. repeat first [apply list_elem_of_here|apply list_elem_of_further].
Qed.

End tlvs.

(** ** The hops of a path (utils.rs) *)

Record ForwardNode (F : Type) `{Bitcoin} : Type := mkForwardNode {
  node_tlvs : F;
  node_id : PublicKey;
  node_htlc_maximum_msat : Z;
}.
Arguments mkForwardNode {F H}.
Arguments node_tlvs {F H}.
Arguments node_id {F H}.
Arguments node_htlc_maximum_msat {F H}.

(** [ForwardTlvsInfo], with the encoding the trait includes as [Writeable] *)
Class ForwardTlvsInfo (F : Type) := {
  info_payment_relay : F -> PaymentRelay;
  info_payment_constraints : F -> PaymentConstraints;
  info_features : F -> BlindedHopFeatures;
  info_tlvs : F -> list (Z * bytes);
}.

Section hops.
Context {bitcoin : Bitcoin} {crypto : OnionCrypto} {kem : Kem} {poly : Poly1305} {contexts : PaymentContexts}.

#[export] Instance forward_tlvs_info : ForwardTlvsInfo ForwardTlvs :=
  {| info_payment_relay := fwd_payment_relay; info_payment_constraints := fwd_payment_constraints;
     info_features := fwd_features; info_tlvs := forward_tlvs |}.
#[export] Instance trampoline_forward_tlvs_info : ForwardTlvsInfo TrampolineForwardTlvs :=
  {| info_payment_relay := tfwd_payment_relay; info_payment_constraints := tfwd_payment_constraints;
     info_features := tfwd_features; info_tlvs := trampoline_forward_tlvs |}.

Record BlindedHop : Type := mkBlindedHop {
  blinded_node_id : PublicKey;
  encrypted_payload : bytes;
}.

Definition encrypt_payload (payload encrypted_tlvs_rho : bytes) (hop_recv_key : option bytes) : bytes :=
  match hop_recv_key with
  | Some hop_recv_key => chachapoly_encrypt_with_swapped_aad payload encrypted_tlvs_rho hop_recv_key
  | None => chachapoly_write encrypted_tlvs_rho payload
  end.

Definition blinded_node_id_factor (ss : bytes) : bytes := hmac_sha256 (tag "blinded_node_id") ss.

(** One step of the chain of a secret key: it is multiplied with the hash of its
    public key and the secret of the hop. *)
Definition advance_priv (priv : SecretKey) (ss : bytes) : run SecretKey :=
  t ← unwrap (scalar_from_be_bytes (blinding_factor (from_secret_key priv) ss));
  unwrap (secret_mul_tweak priv t).

(** The macros [build_keys_in_loop] and [build_keys] for hops that are not blinded
    yet: the blinded node id and the key of the data, of every hop. *)
Fixpoint construct_keys_for_blinded_path (path : list PublicKey)
    (msg_blinding_point_priv onion_packet_pubkey_priv : SecretKey) : run (list (PublicKey * bytes)) :=
  match path with
  | [] => mret []
  | pk :: path =>
      let encrypted_data_ss := shared_secret pk msg_blinding_point_priv in
      t ← unwrap (scalar_from_be_bytes (blinded_node_id_factor encrypted_data_ss));
      blinded_hop_pk ← unwrap (public_mul_tweak pk t);
      let onion_packet_ss := shared_secret blinded_hop_pk onion_packet_pubkey_priv in
      next_msg_priv ← advance_priv msg_blinding_point_priv encrypted_data_ss;
      next_onion_priv ← advance_priv onion_packet_pubkey_priv onion_packet_ss;
      rest ← construct_keys_for_blinded_path path next_msg_priv next_onion_priv;
      mret ((blinded_hop_pk, gen_rho_from_shared_secret encrypted_data_ss) :: rest)
  end.

(** A hop of the path: its node, the key it is to authenticate with, its data. *)
Definition path_hop : Type := PublicKey * option bytes * bytes.

Definition construct_blinded_hops (unblinded_path : list path_hop) (session_priv : SecretKey) : run (list BlindedHop) :=
  keys ← construct_keys_for_blinded_path (map (fun hop => hop.1.1) unblinded_path) session_priv session_priv;
  mret (zip_with (fun hop key => mkBlindedHop key.1 (encrypt_payload hop.2 key.2 hop.1.2)) unblinded_path keys).

Fixpoint construct_blinded_hops_with_kem (unblinded_path : list path_hop) (blinding_point_priv : SecretKey)
    (kem_secrets : list bytes) : run (list BlindedHop) :=
  match unblinded_path with
  | [] => mret []
  | (pubkey, hop_recv_key, tlvs) :: path =>
      let encrypted_data_ss := shared_secret pubkey blinding_point_priv in
      kem_secret ← unwrap (head kem_secrets);
      let hybrid_ss := mix_blinded_path_secret encrypted_data_ss kem_secret in
      t ← unwrap (scalar_from_be_bytes (blinded_node_id_factor hybrid_ss));
      blinded_node_id ← unwrap (public_mul_tweak pubkey t);
      next_priv ← advance_priv blinding_point_priv hybrid_ss;
      rest ← construct_blinded_hops_with_kem path next_priv (tail kem_secrets);
      mret (mkBlindedHop blinded_node_id (encrypt_payload tlvs (gen_rho_from_shared_secret hybrid_ss) hop_recv_key)
            :: rest)
  end.

(** ** Payment paths (payment.rs) *)

Section nodes.
Context {F : Type} {info : ForwardTlvsInfo F}.

Definition padded (tlvs : list (Z * bytes)) : bytes := write_with_padding PAYMENT_PADDING_ROUND_OFF tlvs.
Definition forward_hops (intermediate_nodes : list (ForwardNode F)) : list path_hop :=
  map (fun node => (node_id node, None, padded (info_tlvs (node_tlvs node)))) intermediate_nodes.

Definition blinded_hops (intermediate_nodes : list (ForwardNode F)) (payee_node_id : PublicKey)
    (dummies : list DummyTlvs) (payee_tlvs : ReceiveTlvs) (session_priv : SecretKey) (local_node_receive_key : bytes)
    : run (list BlindedHop) :=
  construct_blinded_hops
    (forward_hops intermediate_nodes ++
     map (fun tlvs => (payee_node_id, Some local_node_receive_key, padded (dummy_tlvs tlvs))) dummies ++
     [(payee_node_id, Some local_node_receive_key, padded (receive_tlvs payee_tlvs))])
    session_priv.

(** [entropy] is what [get_secure_random_bytes] returns, call by call. *)
Fixpoint encapsulate_all (keys : list bytes) (entropy : nat -> bytes) (calls : nat)
    : option (list bytes * list bytes) :=
  match keys with
  | [] => Some ([], [])
  | key :: keys =>
      '(ss, ct) ← encapsulate key (entropy calls);
      '(secrets, cts) ← encapsulate_all keys entropy (S calls);
      Some (ss :: secrets, ct :: cts)
  end.

Fixpoint ct_padding (entropy : nat -> bytes) (calls count : nat) : run bytes :=
  match count with
  | O => mret []
  | S count =>
      ct ← unwrap (dummy_ciphertext_from_seed (entropy calls));
      rest ← ct_padding entropy (S calls) count;
      mret (ct ++ rest)
  end.

Definition blinded_hops_with_kem (intermediate_nodes : list (ForwardNode F)) (intermediate_pq_kem_keys : list bytes)
    (payee_node_id : PublicKey) (payee_pq_kem_key : bytes) (payee_tlvs : ReceiveTlvs) (session_priv : SecretKey)
    (local_node_receive_key : bytes) (entropy : nat -> bytes) (calls : nat)
    : run (result unit (list BlindedHop * bytes)) :=
  let total_hops := (length intermediate_nodes + 1)%nat in
  if (PQ_BLINDED_PATH_MAX_HOPS <? total_hops)%nat then mret (Err tt)
  else if (length intermediate_pq_kem_keys <? length intermediate_nodes)%nat then Panic
  else match encapsulate_all (take (length intermediate_nodes) intermediate_pq_kem_keys ++ [payee_pq_kem_key])
               entropy calls with
  | None => mret (Err tt)
  | Some (kem_secrets, ciphertexts) =>
      hops ← construct_blinded_hops_with_kem
        (forward_hops intermediate_nodes ++
         [(payee_node_id, Some local_node_receive_key, padded (receive_tlvs payee_tlvs))])
        session_priv kem_secrets;
      padding ← ct_padding entropy (calls + total_hops) (PQ_BLINDED_PATH_MAX_HOPS - total_hops);
      mret (Ok (hops, mjoin ciphertexts ++ padding))
  end.

End nodes.
End hops.
