(* ===== verification/BlindedFees.v ===== *)
(** * Fees of a blinded path (lightning/src/blinded_path/payment.rs)

    What a hop of a blinded path forwards of what it receives, and the fees and
    limits a recipient advertises for the whole path, which the sender, who does
    not see the hops, pays. *)

From Stdlib Require Import ZArith Lia Bool.
From S2P Require Import Prelude.
From S2P Require Import Features.
From S2P Require Import Keys.
From S2P Require Import Ser.
From S2P Require Import Onion.
From S2P Require Import BlindedPath.

Local Open Scope Z_scope.

(** ** One hop *)

(** In 128 bits nothing overflows. *)
Definition amt_to_forward_msat (inbound_amt : Z) (payment_relay : PaymentRelay) : option Z :=
  let base := relay_fee_base_msat payment_relay in
  let prop := relay_fee_proportional_millionths payment_relay in
  if inbound_amt <? base then None
  else
    let post_base_fee_inbound_amt := inbound_amt - base in
    let amt_to_forward := (post_base_fee_inbound_amt * 1000000 + 1000000 + prop - 1) / (prop + 1000000) in
    let fee := amt_to_forward * prop / 1000000 + base in
    if inbound_amt <? fee then None
    else
      let amt_to_forward := if inbound_amt - fee <? amt_to_forward then amt_to_forward - 1 else amt_to_forward in
      if amt_to_forward <=? umax 64 then Some amt_to_forward else None.

(** [check_blinded_payment_constraints], [check_blinded_forward] (lightning/src/ln/onion_payment.rs) *)
Definition check_blinded_payment_constraints (amt_msat cltv_expiry : Z) (constraints : PaymentConstraints)
    : result unit unit :=
  if (amt_msat <? constraint_htlc_minimum_msat constraints) || (max_cltv_expiry constraints <? cltv_expiry)
  then Err tt else Ok tt.

Definition check_blinded_forward (inbound_amt_msat inbound_cltv_expiry : Z) (payment_relay : PaymentRelay)
    (payment_constraints : PaymentConstraints) (features : BlindedHopFeatures) : result unit (Z * Z) :=
  match amt_to_forward_msat inbound_amt_msat payment_relay with
  | None => Err tt
  | Some amt_to_forward =>
      if inbound_cltv_expiry <? relay_cltv_expiry_delta payment_relay then Err tt
      else
        _ ← check_blinded_payment_constraints inbound_amt_msat inbound_cltv_expiry payment_constraints;
        if requires_unknown_bits_from features features_empty then Err tt
        else Ok (amt_to_forward, inbound_cltv_expiry - relay_cltv_expiry_delta payment_relay)
  end.

(** [compute_fees] (lightning/src/routing/router.rs) *)
Definition compute_fees (amount_msat base_msat proportional_millionths : Z) : option Z :=
  if umax 64 <? amount_msat * proportional_millionths then None
  else
    let fee := base_msat + amount_msat * proportional_millionths / 1000000 in
    if fee <=? umax 64 then Some fee else None.

(** ** All hops *)

Definition checked (x : Z) : result unit Z := if x <=? umax 64 then Ok x else Err tt.

Definition next_base_fee (curr_base_fee next_base_fee next_prop_mil : Z) : result unit Z :=
  f ← checked (curr_base_fee * (1000000 + next_prop_mil));
  f ← checked (f + (1000000 - 1));
  checked (f / 1000000 + next_base_fee).
Definition next_prop_fee (curr_prop_mil next_prop_mil : Z) : result unit Z :=
  f1 ← checked (curr_prop_mil + 1000000);
  f2 ← checked (next_prop_mil + 1000000);
  f ← checked (f2 * f1);
  f ← checked (f + (1000000 - 1));
  if f / 1000000 <? 1000000 then Err tt else Ok (f / 1000000 - 1000000).

(** The loop runs over the hops from the last to the first. *)
Fixpoint compute_aggregated_base_prop_fee (hops : list PaymentRelay) : result unit (Z * Z) :=
  match hops with
  | [] => Ok (0, 0)
  | hop :: hops =>
      '(curr_base_fee, curr_prop_mil) ← compute_aggregated_base_prop_fee hops;
      base ← next_base_fee curr_base_fee (relay_fee_base_msat hop) (relay_fee_proportional_millionths hop);
      prop ← next_prop_fee curr_prop_mil (relay_fee_proportional_millionths hop);
      Ok (base, prop)
  end.

Record BlindedPayInfo : Type := mkBlindedPayInfo {
  fee_base_msat : Z;
  fee_proportional_millionths : Z;
  cltv_expiry_delta : Z;
  htlc_minimum_msat : Z;
  htlc_maximum_msat : Z;
  features : BlindedHopFeatures;
}.

(** What a node or a dummy hop adds: its relay parameters, its minimum, and the
    maximum of the node. *)
Record pay_hop : Type := mkPayHop {
  pay_relay : PaymentRelay;
  pay_htlc_minimum_msat : Z;
  pay_htlc_maximum_msat : option Z;
  pay_features : BlindedHopFeatures;
}.

Fixpoint payinfo_limits (hops : list pay_hop) (cltv_expiry_delta htlc_minimum_msat htlc_maximum_msat : Z)
    : result unit (Z * Z * Z) :=
  match hops with
  | [] => Ok (cltv_expiry_delta, htlc_minimum_msat, htlc_maximum_msat)
  | hop :: hops =>
      if requires_unknown_bits_from (pay_features hop) features_empty then Err tt
      else
        let delta := cltv_expiry_delta + relay_cltv_expiry_delta (pay_relay hop) in
        if umax 16 <? delta then Err tt
        else
          let minimum := default 1 (amt_to_forward_msat (Z.max (pay_htlc_minimum_msat hop) htlc_minimum_msat)
                                      (pay_relay hop)) in
          match pay_htlc_maximum_msat hop with
          | None => payinfo_limits hops delta minimum htlc_maximum_msat
          | Some node_maximum =>
              match amt_to_forward_msat (Z.min node_maximum htlc_maximum_msat) (pay_relay hop) with
              | None => Err tt
              | Some maximum => payinfo_limits hops delta minimum maximum
              end
          end
  end.

Section payinfo.
Context {bitcoin : Bitcoin} {contexts : PaymentContexts} {F : Type} {info : ForwardTlvsInfo F}.

Definition node_hop (node : ForwardNode F) : pay_hop :=
  mkPayHop (info_payment_relay (node_tlvs node))
    (constraint_htlc_minimum_msat (info_payment_constraints (node_tlvs node)))
    (Some (node_htlc_maximum_msat node)) (info_features (node_tlvs node)).
Definition dummy_hop (tlvs : DummyTlvs) : pay_hop :=
  mkPayHop (dummy_payment_relay tlvs) (constraint_htlc_minimum_msat (dummy_payment_constraints tlvs))
    None features_empty.

Definition compute_payinfo (intermediate_nodes : list (ForwardNode F)) (dummies : list DummyTlvs)
    (payee_tlvs : ReceiveTlvs) (payee_htlc_maximum_msat min_final_cltv_expiry_delta : Z) : result unit BlindedPayInfo :=
  let hops := map node_hop intermediate_nodes ++ map dummy_hop dummies in
  '(aggregated_base_fee, aggregated_prop_fee) ← compute_aggregated_base_prop_fee (map pay_relay hops);
  '(cltv_expiry_delta, minimum, maximum) ←
    payinfo_limits hops min_final_cltv_expiry_delta 1 (21000000 * 100000000 * 1000);
  let htlc_minimum_msat := Z.max (constraint_htlc_minimum_msat (recv_payment_constraints payee_tlvs)) minimum in
  let htlc_maximum_msat := Z.min payee_htlc_maximum_msat maximum in
  if htlc_maximum_msat <? htlc_minimum_msat then Err tt
  else if (umax 32 <? aggregated_base_fee) || (umax 32 <? aggregated_prop_fee) then Err tt
  else Ok (mkBlindedPayInfo aggregated_base_fee aggregated_prop_fee cltv_expiry_delta htlc_minimum_msat
             htlc_maximum_msat features_empty).

End payinfo.

(** ** The hop is paid, and takes no more *)

Definition affordable (relay : PaymentRelay) (inbound amt : Z) : Prop :=
  amt + amt * relay_fee_proportional_millionths relay / 1000000 + relay_fee_base_msat relay <= inbound.

Lemma affordable_scaled relay inbound amt : relay_wf relay -> 0 <= amt ->
  (affordable relay inbound amt <->
   amt * (1000000 + relay_fee_proportional_millionths relay) < 1000000 * (inbound - relay_fee_base_msat relay + 1)).
Proof.
  intros (_ & Hp & Hb) Ha. unfold affordable, fits in *.
  set (p := relay_fee_proportional_millionths relay) in *. set (b := relay_fee_base_msat relay) in *.
  pose proof (Z.div_mod (amt * p) 1000000 ltac:(lia)). pose proof (Z.mod_pos_bound (amt * p) 1000000 ltac:(lia)). lia.
Qed.

(** Whatever a hop forwards leaves it its fee, and one more would not. *)
Lemma amt_to_forward_max inbound relay amt : relay_wf relay -> 0 <= inbound ->
  amt_to_forward_msat inbound relay = Some amt ->
  0 <= amt /\ affordable relay inbound amt /\ ~ affordable relay inbound (amt + 1).
Proof.
  intros Hwf Hin. unfold amt_to_forward_msat.
  destruct (Z.ltb_spec inbound (relay_fee_base_msat relay)); [done|].
  set (p := relay_fee_proportional_millionths relay). set (b := relay_fee_base_msat relay) in *.
  assert (0 <= p < 2 ^ 32 /\ 0 <= b) as [Hp Hb] by (unfold relay_wf, fits, p, b in *; lia).
  set (f := ((inbound - b) * 1000000 + 1000000 + p - 1) / (p + 1000000)).
  assert (0 <= f /\ (f - 1) * (1000000 + p) < 1000000 * (inbound - b) <= f * (1000000 + p)) as (Hf0 & Hlow & Hhigh).
  { unfold f. set (n := (inbound - b) * 1000000 + 1000000 + p - 1).
    pose proof (Z.div_mod n (p + 1000000) ltac:(lia)). pose proof (Z.mod_pos_bound n (p + 1000000) ltac:(lia)).
    assert (0 <= n / (p + 1000000)) by (apply Z.div_pos; unfold n; lia). unfold n in *. nia. }
  destruct (Z.ltb_spec inbound (f * p / 1000000 + b)); [done|].
  pose proof (Z.div_mod (f * p) 1000000 ltac:(lia)). pose proof (Z.mod_pos_bound (f * p) 1000000 ltac:(lia)).
  destruct (Z.ltb_spec (inbound - (f * p / 1000000 + b)) f); (destruct (_ <=? umax 64); [|done]);
    intros [= <-]; rewrite !affordable_scaled by (done || lia); fold p b.
  - split_and!; [|lia|]; [|nia]. destruct (decide (f = 0)); [|lia]. nia.
  - split_and!; [lia|nia|nia].
Qed.

(** A hop that charges at most the amount it forwards finds an amount to forward as
    soon as it is paid its base fee. *)
Lemma amt_to_forward_some inbound relay : relay_wf relay -> relay_fee_proportional_millionths relay <= 1000000 ->
  relay_fee_base_msat relay <= inbound <= umax 64 -> is_Some (amt_to_forward_msat inbound relay).
Proof.
  intros Hwf Hprop Hin. unfold amt_to_forward_msat.
  rewrite (proj2 (Z.ltb_ge _ _)) by lia.
  set (p := relay_fee_proportional_millionths relay) in *. set (b := relay_fee_base_msat relay) in *.
  assert (0 <= p /\ 0 <= b) as [Hp Hb] by (unfold relay_wf, fits, p, b in *; lia).
  set (f := ((inbound - b) * 1000000 + 1000000 + p - 1) / (p + 1000000)).
  assert (0 <= f /\ (f - 1) * (1000000 + p) < 1000000 * (inbound - b)) as (Hf0 & Hlow).
  { unfold f. set (n := (inbound - b) * 1000000 + 1000000 + p - 1).
    pose proof (Z.div_mod n (p + 1000000) ltac:(lia)). pose proof (Z.mod_pos_bound n (p + 1000000) ltac:(lia)).
    assert (0 <= n / (p + 1000000)) by (apply Z.div_pos; unfold n; lia). unfold n in *. nia. }
  pose proof (Z.div_mod (f * p) 1000000 ltac:(lia)). pose proof (Z.mod_pos_bound (f * p) 1000000 ltac:(lia)).
  assert (f * p / 1000000 <= inbound - b).
  { destruct (decide (f = 0)) as [->|]; [cbn; lia|]. nia. }
  rewrite (proj2 (Z.ltb_ge _ _)) by lia.
  assert (f <= umax 64) by nia.
  destruct (Z.ltb_spec (inbound - (f * p / 1000000 + b)) f); rewrite (proj2 (Z.leb_le _ _)) by lia; eauto.
Qed.

(** ** The advertised fees pay every hop *)

Fixpoint forward_along (hops : list PaymentRelay) (inbound : Z) : option Z :=
  match hops with
  | [] => Some inbound
  | hop :: hops => amt ← amt_to_forward_msat inbound hop; forward_along hops amt
  end.

Lemma ceil_spec a : 0 <= a -> a <= 1000000 * ((a + 999999) / 1000000) < a + 1000000.
Proof.
  intros Ha. pose proof (Z.div_mod (a + 999999) 1000000 ltac:(lia)).
  pose proof (Z.mod_pos_bound (a + 999999) 1000000 ltac:(lia)). lia.
Qed.

Lemma checked_Ok x y : checked x = Ok y -> y = x.
Proof. unfold checked. by destruct (x <=? umax 64); intros [=]. Qed.

Lemma next_base_fee_Ok curr base prop b : next_base_fee curr base prop = Ok b ->
  b = (curr * (1000000 + prop) + 999999) / 1000000 + base.
Proof.
  unfold next_base_fee. destruct (checked (curr * (1000000 + prop))) as [f|] eqn:E1; [|done]. cbn.
  destruct (checked (f + (1000000 - 1))) as [g|] eqn:E2; [|done]. cbn. intros E3.
  apply checked_Ok in E1, E2, E3. by subst.
Qed.

Lemma next_prop_fee_Ok curr prop q : next_prop_fee curr prop = Ok q ->
  q = ((prop + 1000000) * (curr + 1000000) + 999999) / 1000000 - 1000000 /\ 0 <= q.
Proof.
  unfold next_prop_fee. destruct (checked (curr + 1000000)) as [f1|] eqn:E1; [|done]. cbn.
  destruct (checked (prop + 1000000)) as [f2|] eqn:E2; [|done]. cbn.
  destruct (checked (f2 * f1)) as [f|] eqn:E3; [|done]. cbn.
  destruct (checked (f + (1000000 - 1))) as [g|] eqn:E4; [|done]. cbn.
  apply checked_Ok in E1, E2, E3, E4. subst. change (1000000 - 1) with 999999.
  destruct (Z.ltb_spec (((prop + 1000000) * (curr + 1000000) + 999999) / 1000000) 1000000); [done|].
  intros [= <-]. lia.
Qed.

Lemma aggregated_nonneg hops base prop : Forall relay_wf hops ->
  compute_aggregated_base_prop_fee hops = Ok (base, prop) -> 0 <= base /\ 0 <= prop.
Proof.
  intros Hwf. revert base prop. induction Hwf as [|hop hops Hhop _ IH]; intros base prop; cbn; [by intros [= <- <-]|].
  destruct (compute_aggregated_base_prop_fee hops) as [[b q]|]; [|done]. cbn.
  destruct (next_base_fee b _ _) as [b'|] eqn:Eb; [|done]. cbn.
  destruct (next_prop_fee q _) as [q'|] eqn:Eq; [|done]. intros [= <- <-].
  destruct (IH b q eq_refl) as [Hb Hq]. apply next_base_fee_Ok in Eb as ->. apply next_prop_fee_Ok in Eq as [_ Hq'].
  destruct Hhop as (_ & Hp & Hbase). unfold fits in *. split; [|done].
  assert (0 <= (b * (1000000 + relay_fee_proportional_millionths hop) + 999999) / 1000000) by (apply Z.div_pos; nia). lia.
Qed.

(** One step: what the path behind the hop needs is affordable for the hop. *)
Lemma aggregated_step hop base prop base' prop' amount inbound : relay_wf hop -> 0 <= amount ->
  0 <= base -> 0 <= prop ->
  next_base_fee base (relay_fee_base_msat hop) (relay_fee_proportional_millionths hop) = Ok base' ->
  next_prop_fee prop (relay_fee_proportional_millionths hop) = Ok prop' ->
  amount + amount * prop' / 1000000 + base' <= inbound ->
  affordable hop inbound (amount + amount * prop / 1000000 + base).
Proof.
  intros Hwf Ha Hb Hq Eb Ep Hin. apply next_base_fee_Ok in Eb as ->. apply next_prop_fee_Ok in Ep as [Ep Hp'].
  assert (0 <= amount * prop / 1000000) by (apply Z.div_pos; nia).
  apply affordable_scaled; [done|lia|].
  destruct Hwf as (_ & Hp & Hbase). set (p := relay_fee_proportional_millionths hop) in *.
  set (b := relay_fee_base_msat hop) in *. unfold fits in *.
  pose proof (ceil_spec (base * (1000000 + p)) ltac:(nia)) as [Hc _].
  set (c := (base * (1000000 + p) + 999999) / 1000000) in *.
  pose proof (ceil_spec ((p + 1000000) * (prop + 1000000)) ltac:(nia)) as [Hr _].
  set (r := ((p + 1000000) * (prop + 1000000) + 999999) / 1000000) in *.
  pose proof (Z.div_mod (amount * prop) 1000000 ltac:(lia)). pose proof (Z.mod_pos_bound (amount * prop) 1000000 ltac:(lia)).
  pose proof (Z.div_mod (amount * prop') 1000000 ltac:(lia)). pose proof (Z.mod_pos_bound (amount * prop') 1000000 ltac:(lia)).
  set (u := amount * prop / 1000000) in *. set (v := amount * prop' / 1000000) in *.
  assert (1000000 * (amount + u + base) <= amount * (1000000 + prop) + 1000000 * base) as G1 by lia.
  assert (amount * r <= 1000000 * (amount + v) + 999999) as G2 by (subst prop'; lia).
  assert (amount * ((p + 1000000) * (prop + 1000000)) <= amount * (1000000 * r)) as G3 by nia.
  assert (1000000 * (amount + u + base) * (1000000 + p) <=
    (amount * (1000000 + prop) + 1000000 * base) * (1000000 + p)) as G4 by nia.
  nia.
Qed.

Lemma affordable_mono relay inbound a b : relay_wf relay -> 0 <= a <= b -> affordable relay inbound b -> affordable relay inbound a.
Proof.
  intros Hwf Hab. rewrite !affordable_scaled by (done || lia). destruct Hwf as (_ & Hp & _). unfold fits in Hp. nia.
Qed.


Definition example_relays : list PaymentRelay := [mkPaymentRelay 144 500 100; mkPaymentRelay 40 12345 7].


(** ** Two boundary cases *)

(** The minimum of a hop is passed on as what the hop forwards of it, rounded down,
    so that a payment of the advertised minimum can enter below the minimum of the
    hop: a hop with a minimum of 2001 msat that charges a tenth of a percent is
    advertised with 1999 msat, for which the sender pays a fee of 1 msat; the hop
    refuses the 2000 msat. *)
Lemma advertised_minimum_refused {bitcoin : Bitcoin} {contexts : PaymentContexts} (node : PublicKey) (payee : ReceiveTlvs) :
  constraint_htlc_minimum_msat (recv_payment_constraints payee) = 1 ->
  let relay := mkPaymentRelay 40 1000 0 in
  let constraints := mkPaymentConstraints 1000 2001 in
  let forward := mkForwardTlvs 42 relay constraints features_empty None in
  compute_payinfo [mkForwardNode forward node 1000000] [] payee 1000000 18 =
    Ok (mkBlindedPayInfo 0 1000 58 1999 999001 features_empty) /\
  compute_fees 1999 0 1000 = Some 1 /\
  check_blinded_forward (1999 + 1) 500 relay constraints features_empty = Err tt.
Proof. intros E. split_and!; [|done..]. unfold compute_payinfo. rewrite E. vm_compute. reflexivity. Qed.

(** With a proportional fee above the amount, the amount forwarded and the fee
    computed for it before it is corrected do not add up to the inbound amount, as
    the assertion of debug builds says they do. *)
Lemma corrected_amount_and_fee :
  amt_to_forward_msat 4 (mkPaymentRelay 40 2000000 0) = Some 1 /\
  (4 * 1000000 + 1000000 + 2000000 - 1) / (2000000 + 1000000) = 2 /\ 2 * 2000000 / 1000000 = 4 /\ 1 + 4 <> 4.
Proof. vm_compute. split_and!; done. Qed.
