(* ===== verification/PaymentPath.v ===== *)
(** * Blinded payment paths as a whole (lightning/src/blinded_path/payment.rs)

    How a recipient makes a path, classical or post-quantum, and what each hop
    finds with it: with its own keys and the blinding point it is given, a hop
    derives the node id it was given in the path, decrypts the data meant for it,
    and finds the blinding point for the next hop. *)

From Stdlib Require Import ZArith Lia Bool.
From stdpp Require Import strings.
From S2P Require Import Prelude.
From S2P Require Import Features.
From S2P Require Import Keys.
From S2P Require Import Ser.
From S2P Require Import Onion.
From S2P Require Import PqKem.
From S2P Require Import Streams.
From S2P Require Import BlindedPath.
From S2P Require Import BlindedFees.

Local Open Scope Z_scope.

Section path.
Context {bitcoin : Bitcoin} {crypto : OnionCrypto} {kem : Kem} {poly : Poly1305} {contexts : PaymentContexts}.

(** A path; the introduction node of the paths made here is a node id. *)
Record BlindedPaymentPath : Type := mkBlindedPaymentPath {
  introduction_node : PublicKey;
  blinding_point : PublicKey;
  path_blinded_hops : list BlindedHop;
  payinfo : BlindedPayInfo;
  kem_ct : option bytes;
}.

Section new.
Context {F : Type} {info : ForwardTlvsInfo F}.

Definition path_introduction_node (intermediate_nodes : list (ForwardNode F)) (payee_node_id : PublicKey) : PublicKey :=
  match intermediate_nodes with [] => payee_node_id | node :: _ => node_id node end.

(** [BlindedPaymentPath::new_inner]; [new], [one_hop] and [new_with_dummy_hops] are
    instances. *)
Definition new_inner (intermediate_nodes : list (ForwardNode F)) (payee_node_id : PublicKey)
    (local_node_receive_key : bytes) (dummies : list DummyTlvs) (payee_tlvs : ReceiveTlvs)
    (htlc_maximum_msat min_final_cltv_expiry_delta : Z) (entropy : nat -> bytes) : run (result unit BlindedPaymentPath) :=
  blinding_secret ← unwrap (secret_from_slice (entropy 0%nat));
  match compute_payinfo intermediate_nodes dummies payee_tlvs htlc_maximum_msat min_final_cltv_expiry_delta with
  | Err e => mret (Err e)
  | Ok blinded_payinfo =>
      hops ← blinded_hops intermediate_nodes payee_node_id dummies payee_tlvs blinding_secret local_node_receive_key;
      mret (Ok (mkBlindedPaymentPath (path_introduction_node intermediate_nodes payee_node_id)
                  (from_secret_key blinding_secret) hops blinded_payinfo None))
  end.

(** [BlindedPaymentPath::new_pq]; [new_for_trampoline_pq] is the same code. *)
Definition new_pq (intermediate_nodes : list (ForwardNode F)) (intermediate_pq_kem_keys : list bytes)
    (payee_node_id : PublicKey) (payee_pq_kem_key local_node_receive_key : bytes) (payee_tlvs : ReceiveTlvs)
    (htlc_maximum_msat min_final_cltv_expiry_delta : Z) (entropy : nat -> bytes) : run (result unit BlindedPaymentPath) :=
  if negb (length intermediate_nodes =? length intermediate_pq_kem_keys)%nat then mret (Err tt)
  else
    blinding_secret ← unwrap (secret_from_slice (entropy 0%nat));
    match compute_payinfo intermediate_nodes [] payee_tlvs htlc_maximum_msat min_final_cltv_expiry_delta with
    | Err e => mret (Err e)
    | Ok blinded_payinfo =>
        res ← blinded_hops_with_kem intermediate_nodes intermediate_pq_kem_keys payee_node_id payee_pq_kem_key
          payee_tlvs blinding_secret local_node_receive_key entropy 1;
        match res with
        | Err e => mret (Err e)
        | Ok (hops, kem_ct_list) =>
            mret (Ok (mkBlindedPaymentPath (path_introduction_node intermediate_nodes payee_node_id)
                        (from_secret_key blinding_secret) hops blinded_payinfo (Some kem_ct_list)))
        end
    end.
End new.

(** [decrypt_intro_payload], [advance_path_by_one] *)
Definition decrypt_intro_payload (self : BlindedPaymentPath) (node_signer : NodeSigner)
    : result unit (BlindedPaymentTlvs * bytes) :=
  control_tlvs_ss ← ecdh node_signer Node (blinding_point self) None;
  match head (path_blinded_hops self) with
  | None => Err tt
  | Some hop =>
      match chacha_tri_poly_read blinded_payment_tlvs_read (gen_rho_from_shared_secret control_tlvs_ss)
              (get_receive_auth_key node_signer) (phantom_node_blinded_path_key node_signer) (encrypted_payload hop) with
      | Err _ => Err tt
      | Ok (readable, used_aad) =>
          match readable, bool_decide (used_aad = NoAAD) with
          | TlvsForward _, true | TlvsDummy _, false | TlvsReceive _, false => Ok (readable, control_tlvs_ss)
          | _, _ => Err tt
          end
      end
  end.

(** [own_node_id] is [get_node_id(Recipient::Node)], [next_node_id] the [NodeIdLookUp]. *)
Definition advance_path_by_one (self : BlindedPaymentPath) (node_signer : NodeSigner) (own_node_id : PublicKey)
    (next_node_id : Z -> option PublicKey) : run (result unit BlindedPaymentPath) :=
  if (length (path_blinded_hops self) <=? 1)%nat then mret (Err tt)
  else match decrypt_intro_payload self node_signer with
  | Err e => mret (Err e)
  | Ok (tlvs, control_tlvs_ss) =>
      let next_node := match tlvs with
                       | TlvsForward tlvs => next_node_id (fwd_short_channel_id tlvs)
                       | TlvsDummy _ => Some own_node_id
                       | TlvsReceive _ => None
                       end in
      match next_node with
      | None => mret (Err tt)
      | Some next_node_id =>
          new_blinding_point ← next_hop_pubkey (blinding_point self) control_tlvs_ss;
          match new_blinding_point with
          | None => mret (Err tt)
          | Some new_blinding_point =>
              mret (Ok (mkBlindedPaymentPath next_node_id new_blinding_point (tail (path_blinded_hops self))
                          (payinfo self) (kem_ct self)))
          end
      end
  end.

(** ** What the hops find *)

Context {bitcoin_laws : BitcoinLaws} {crypto_laws : OnionCryptoLaws}.

(** The secret a hop shares with the recipient: its node key and the blinding point
    it is given, mixed with what it decapsulates on a post-quantum path. *)
Definition route_blinding_secret (node_secret : SecretKey) (blinding_point : PublicKey) (kem_ss : option bytes) : bytes :=
  match kem_ss with
  | Some kem_ss => mix_blinded_path_secret (shared_secret blinding_point node_secret) kem_ss
  | None => shared_secret blinding_point node_secret
  end.

(** The node key tweaked to the key of the blinded node id. *)
Definition blinded_key (node_secret : SecretKey) (ss : bytes) (key : SecretKey) : Prop :=
  exists t, scalar_from_be_bytes (blinded_node_id_factor ss) = Some t /\ secret_mul_tweak node_secret t = Some key.

Fixpoint blinded_chain (blinding_point : PublicKey) (nodes : list (SecretKey * option bytes)) (path : list path_hop)
    (hops : list BlindedHop) : Prop :=
  match nodes, path, hops with
  | [], [], [] => True
  | (node_secret, kem_ss) :: nodes, (_, recv_key, tlvs) :: path, hop :: hops =>
      let ss := route_blinding_secret node_secret blinding_point kem_ss in
      (exists key, blinded_key node_secret ss key /\ blinded_node_id hop = from_secret_key key) /\
      encrypted_payload hop = encrypt_payload tlvs (gen_rho_from_shared_secret ss) recv_key /\
      exists next, next_hop_pubkey blinding_point ss = Return (Some next) /\ blinded_chain next nodes path hops
  | _, _, _ => False
  end.

Lemma advance_priv_next priv ss : exists next, advance_priv priv ss = Return next /\
  next_hop_pubkey (from_secret_key priv) ss = Return (Some (from_secret_key next)).
Proof.
  destruct (valid_scalar (blinding_factor (from_secret_key priv) ss)) as (t & Ht & Hmul); [apply sha256_secret|].
  destruct (Hmul priv) as [next Hnext]. exists next. unfold advance_priv, next_hop_pubkey. rewrite Ht. cbn.
  by rewrite mul_mul, Hnext.
Qed.

Lemma blinded_key_exists node_secret ss : exists t key, scalar_from_be_bytes (blinded_node_id_factor ss) = Some t /\
  public_mul_tweak (from_secret_key node_secret) t = Some (from_secret_key key) /\ blinded_key node_secret ss key.
Proof.
  destruct (valid_scalar (blinded_node_id_factor ss)) as (t & Ht & Hmul); [apply hmac_secret|].
  destruct (Hmul node_secret) as [key Hkey]. exists t, key. split_and!; [done|by rewrite mul_mul, Hkey|]. by exists t.
Qed.

(** The nodes of the path are the public keys of the hops. *)
Definition path_of (secrets : list SecretKey) (path : list path_hop) : Prop :=
  Forall2 (fun s (hop : path_hop) => hop.1.1 = from_secret_key s) secrets path.

Lemma construct_blinded_hops_chain secrets path : path_of secrets path -> forall msg_priv onion_priv,
  exists keys, construct_keys_for_blinded_path (map (fun hop : path_hop => hop.1.1) path) msg_priv onion_priv = Return keys /\
    blinded_chain (from_secret_key msg_priv) (map (fun s => (s, None)) secrets) path
      (zip_with (fun hop key => mkBlindedHop key.1 (encrypt_payload hop.2 key.2 hop.1.2)) path keys).
Proof.
  induction 1 as [|s [[pk recv_key] tlvs] secrets path Hpk Hpath IH]; intros msg_priv onion_priv; cbn in *.
  { by exists []. }
  subst pk. set (ss := shared_secret (from_secret_key s) msg_priv).
  assert (route_blinding_secret s (from_secret_key msg_priv) None = ss) as Hss by apply shared_secret_sym.
  destruct (blinded_key_exists s ss) as (t & key & -> & Hpub & Hkey). cbn. rewrite Hpub. cbn.
  destruct (advance_priv_next msg_priv ss) as (next_msg & -> & Hnext). cbn.
  destruct (advance_priv_next onion_priv (shared_secret (from_secret_key key) onion_priv)) as (next_onion & -> & _). cbn.
  destruct (IH next_msg next_onion) as (keys & -> & Hchain). eexists. split; [done|]. cbn.
  fold (route_blinding_secret s (from_secret_key msg_priv) None). rewrite Hss. split_and!; [by eexists|done|].
  eexists. split; [done|done].
Qed.

Lemma construct_blinded_hops_with_kem_chain secrets path : path_of secrets path -> forall priv kem_secrets,
  length kem_secrets = length secrets ->
  exists hops, construct_blinded_hops_with_kem path priv kem_secrets = Return hops /\
    blinded_chain (from_secret_key priv) (zip secrets (map Some kem_secrets)) path hops.
Proof.
  induction 1 as [|s [[pk recv_key] tlvs] secrets path Hpk Hpath IH]; intros priv [|kem_ss kem_secrets] Hlen; try done.
  { by exists []. }
  cbn in *. subst pk.
  set (ss := mix_blinded_path_secret (shared_secret (from_secret_key s) priv) kem_ss).
  assert (route_blinding_secret s (from_secret_key priv) (Some kem_ss) = ss) as Hss
    by (unfold ss; cbn; by rewrite shared_secret_sym).
  destruct (blinded_key_exists s ss) as (t & key & -> & Hpub & Hkey). cbn. rewrite Hpub. cbn.
  destruct (advance_priv_next priv ss) as (next & -> & Hnext). cbn.
  destruct (IH next kem_secrets ltac:(lia)) as (hops & -> & Hchain). eexists. split; [done|]. cbn.
  fold (route_blinding_secret s (from_secret_key priv) (Some kem_ss)). rewrite Hss.
  split_and!; [by eexists|done|]. eexists. split; [done|done].
Qed.

End path.
