(* ===== verification/OnionPayload.v ===== *)
(** * Payloads of payment onions (lightning/src/ln/msgs.rs, lightning/src/ln/outbound_payment.rs)

    What a sender writes for each hop and what a hop reads, in the onion of a
    payment and in the trampoline onion inside it: the TLV streams, and the rules by
    which a stream is a payload of a forwarding, a blinded or a final hop.  Invoice
    requests are the interface [InvoiceRequests]. *)

From Stdlib Require Import ZArith Lia Bool.
From stdpp Require Import strings sorting.
From S2P Require Import Prelude.
From S2P Require Import Features.
From S2P Require Import Keys.
From S2P Require Import Ser.
From S2P Require Import Onion.
From S2P Require Import PqKem.
From S2P Require Import Streams.
From S2P Require Import BlindedPath.

Local Open Scope Z_scope.

Class InvoiceRequests := {
  InvoiceRequest : Type;
  invoice_request_write : InvoiceRequest -> bytes;
  invoice_request_read : reader InvoiceRequest;
  invoice_request_write_read i : invoice_request_read (invoice_request_write i) = (Ok i, []);
  invoice_request_short i : fits 32 (Z.of_nat (length (invoice_request_write i)));
}.

Definition MAX_VALUE_MSAT : Z := 2100000000000000000.
Definition KEYSEND_TLV : Z := 5482373484.
Definition INVOICE_REQUEST_TLV : Z := 77777.

(** ** Custom records (outbound_payment.rs) *)

(** [sort_unstable_by_key]; where two types are equal any order may come out. *)
Definition by_type (a b : Z * bytes) : Prop := a.1 <= b.1.
#[export] Instance by_type_dec : RelDecision by_type.
Proof. intros a b. unfold by_type. apply _. Defined.
Definition sort_by_type (tlvs : list (Z * bytes)) : list (Z * bytes) := merge_sort by_type tlvs.

(** [RecipientCustomTlvs::new] *)
Fixpoint check_custom_tlvs (prev_type : option Z) (tlvs : list (Z * bytes)) : bool :=
  match tlvs with
  | [] => true
  | (typ, _) :: tlvs =>
      if (typ <? Z.shiftl 1 16) || (typ =? KEYSEND_TLV) || (typ =? INVOICE_REQUEST_TLV) then false
      else before prev_type typ && check_custom_tlvs (Some typ) tlvs
  end.
Definition recipient_custom_tlvs_new (tlvs : list (Z * bytes)) : result unit (list (Z * bytes)) :=
  let tlvs := sort_by_type tlvs in
  if check_custom_tlvs None tlvs then Ok tlvs else Err tt.

(** ** Payloads *)

Record FinalOnionHopData : Type := mkFinalOnionHopData {
  payment_secret : bytes;
  total_msat : Z;
}.
Definition final_data_write (self : FinalOnionHopData) : bytes :=
  payment_secret self ++ high_zero_write 8 (total_msat self).
Definition final_data_read : reader FinalOnionHopData :=
  secret ← read_exact 32;
  amt ← high_zero_read 8;
  mret (mkFinalOnionHopData secret amt).

Section payloads.
Context {bitcoin : Bitcoin} {crypto : OnionCrypto} {kem : Kem} {poly : Poly1305}.
Context {contexts : PaymentContexts} {invoice_requests : InvoiceRequests}.

Record TrampolineOnionPacket : Type := mkTrampolineOnionPacket {
  trampoline_version : Z;
  trampoline_public_key : PublicKey;
  trampoline_hop_data : bytes;
  trampoline_hmac : bytes;
}.
Definition trampoline_packet_write (self : TrampolineOnionPacket) : bytes :=
  to_be 1 (trampoline_version self) ++ serialize (trampoline_public_key self) ++ trampoline_hop_data self ++
  trampoline_hmac self.
(** [read_from_fixed_length_buffer] *)
Definition trampoline_packet_read : reader TrampolineOnionPacket := fun r =>
  let hop_data_len := (length r - 66)%nat in
  (version ← read_be 1;
   public_key ← read_public_key;
   hop_data ← (fun r => (Ok (take hop_data_len r), drop hop_data_len r)) : reader bytes;
   hmac ← read_exact 32;
   mret (mkTrampolineOnionPacket version public_key hop_data hmac)) r.

Inductive OutboundOnionPayload : Type :=
| OutForward (short_channel_id amt_to_forward outgoing_cltv_value : Z)
| OutTrampolineEntrypoint (amt_to_forward outgoing_cltv_value : Z)
    (multipath_trampoline_data : option FinalOnionHopData) (trampoline_packet : TrampolineOnionPacket)
    (current_path_key : option PublicKey)
| OutReceive (payment_data : option FinalOnionHopData) (payment_metadata : option bytes)
    (keysend_preimage : option bytes) (custom_tlvs : list (Z * bytes))
    (sender_intended_htlc_amt_msat cltv_expiry_height : Z)
| OutBlindedForward (encrypted_tlvs : bytes) (intro_node_blinding_point : option PublicKey)
| OutBlindedReceive (sender_intended_htlc_amt_msat total_msat cltv_expiry_height : Z) (encrypted_tlvs : bytes)
    (intro_node_blinding_point : option PublicKey) (keysend_preimage : option bytes)
    (custom_tlvs : list (Z * bytes)) (invoice_request : option InvoiceRequest).

(** The variants that are built outside of tests; [LegacyBlindedPathEntry] is not. *)
Inductive OutboundTrampolinePayload : Type :=
| OutTrampForward (amt_to_forward outgoing_cltv_value : Z) (outgoing_node_id : PublicKey)
| OutTrampBlindedForward (encrypted_tlvs : bytes) (intro_node_blinding_point : option PublicKey)
| OutTrampBlindedReceive (sender_intended_htlc_amt_msat total_msat cltv_expiry_height : Z) (encrypted_tlvs : bytes)
    (intro_node_blinding_point : option PublicKey) (keysend_preimage : option bytes)
    (custom_tlvs : list (Z * bytes)).

Definition amt_tlv (amt : Z) : Z * bytes := (2, high_zero_write 8 amt).
Definition cltv_tlv (cltv : Z) : Z * bytes := (4, high_zero_write 4 cltv).

Definition outbound_tlvs (self : OutboundOnionPayload) : list (Z * bytes) :=
  match self with
  | OutForward short_channel_id amt_to_forward outgoing_cltv_value =>
      [amt_tlv amt_to_forward; cltv_tlv outgoing_cltv_value; (6, to_be 8 short_channel_id)]
  | OutTrampolineEntrypoint amt_to_forward outgoing_cltv_value multipath_trampoline_data trampoline_packet current_path_key =>
      [amt_tlv amt_to_forward; cltv_tlv outgoing_cltv_value] ++
      opt_tlv 8 (final_data_write <$> multipath_trampoline_data) ++
      opt_tlv 12 (serialize <$> current_path_key) ++
      [(20, trampoline_packet_write trampoline_packet)]
  | OutReceive payment_data payment_metadata keysend_preimage custom_tlvs amt cltv_expiry_height =>
      [amt_tlv amt; cltv_tlv cltv_expiry_height] ++
      opt_tlv 8 (final_data_write <$> payment_data) ++ opt_tlv 16 payment_metadata ++
      sort_by_type (custom_tlvs ++ opt_tlv KEYSEND_TLV keysend_preimage)
  | OutBlindedForward encrypted_tlvs intro_node_blinding_point =>
      [(10, encrypted_tlvs)] ++ opt_tlv 12 (serialize <$> intro_node_blinding_point)
  | OutBlindedReceive amt total_msat cltv_expiry_height encrypted_tlvs intro_node_blinding_point
      keysend_preimage custom_tlvs invoice_request =>
      [amt_tlv amt; cltv_tlv cltv_expiry_height; (10, encrypted_tlvs)] ++
      opt_tlv 12 (serialize <$> intro_node_blinding_point) ++ [(18, high_zero_write 8 total_msat)] ++
      sort_by_type (custom_tlvs ++ opt_tlv INVOICE_REQUEST_TLV (invoice_request_write <$> invoice_request) ++
                    opt_tlv KEYSEND_TLV keysend_preimage)
  end.
Definition outbound_payload_write (self : OutboundOnionPayload) : bytes := encode_length_prefixed (outbound_tlvs self).

Definition outbound_trampoline_tlvs (self : OutboundTrampolinePayload) : list (Z * bytes) :=
  match self with
  | OutTrampForward amt_to_forward outgoing_cltv_value outgoing_node_id =>
      [amt_tlv amt_to_forward; cltv_tlv outgoing_cltv_value; (14, serialize outgoing_node_id)]
  | OutTrampBlindedForward encrypted_tlvs intro_node_blinding_point =>
      [(10, encrypted_tlvs)] ++ opt_tlv 12 (serialize <$> intro_node_blinding_point)
  | OutTrampBlindedReceive amt total_msat cltv_expiry_height encrypted_tlvs intro_node_blinding_point
      keysend_preimage custom_tlvs =>
      [amt_tlv amt; cltv_tlv cltv_expiry_height; (10, encrypted_tlvs)] ++
      opt_tlv 12 (serialize <$> intro_node_blinding_point) ++ [(18, high_zero_write 8 total_msat)] ++
      opt_tlv 20 keysend_preimage ++ custom_tlvs
  end.
Definition outbound_trampoline_payload_write (self : OutboundTrampolinePayload) : bytes :=
  encode_length_prefixed (outbound_trampoline_tlvs self).

(** ** Reading *)

(** The fields of either stream.  [path_key] is record 12: [outer_onion_path_key] of
    a payment, [intro_node_blinding_point] of a trampoline. *)
Record InboundFields : Type := mkInboundFields {
  i_amt : option Z;
  i_cltv_value : option Z;
  i_short_id : option Z;
  i_payment_data : option FinalOnionHopData;
  i_encrypted_tlvs : option bytes;
  i_path_key : option PublicKey;
  i_next_trampoline : option PublicKey;
  i_payment_metadata : option bytes;
  i_total_msat : option Z;
  i_trampoline_packet : option TrampolineOnionPacket;
  i_invoice_request : option InvoiceRequest;
  i_keysend_preimage : option bytes;
  i_custom_tlvs : list (Z * bytes);
}.
Definition no_inbound_fields : InboundFields := mkInboundFields None None None None None None None None None None None None [].
Definition seti_amt x (f : InboundFields) := mkInboundFields (Some x) (i_cltv_value f) (i_short_id f) (i_payment_data f) (i_encrypted_tlvs f) (i_path_key f) (i_next_trampoline f) (i_payment_metadata f) (i_total_msat f) (i_trampoline_packet f) (i_invoice_request f) (i_keysend_preimage f) (i_custom_tlvs f).
Definition seti_cltv_value x (f : InboundFields) := mkInboundFields (i_amt f) (Some x) (i_short_id f) (i_payment_data f) (i_encrypted_tlvs f) (i_path_key f) (i_next_trampoline f) (i_payment_metadata f) (i_total_msat f) (i_trampoline_packet f) (i_invoice_request f) (i_keysend_preimage f) (i_custom_tlvs f).
Definition seti_short_id x (f : InboundFields) := mkInboundFields (i_amt f) (i_cltv_value f) (Some x) (i_payment_data f) (i_encrypted_tlvs f) (i_path_key f) (i_next_trampoline f) (i_payment_metadata f) (i_total_msat f) (i_trampoline_packet f) (i_invoice_request f) (i_keysend_preimage f) (i_custom_tlvs f).
Definition seti_payment_data x (f : InboundFields) := mkInboundFields (i_amt f) (i_cltv_value f) (i_short_id f) (Some x) (i_encrypted_tlvs f) (i_path_key f) (i_next_trampoline f) (i_payment_metadata f) (i_total_msat f) (i_trampoline_packet f) (i_invoice_request f) (i_keysend_preimage f) (i_custom_tlvs f).
Definition seti_encrypted_tlvs x (f : InboundFields) := mkInboundFields (i_amt f) (i_cltv_value f) (i_short_id f) (i_payment_data f) (Some x) (i_path_key f) (i_next_trampoline f) (i_payment_metadata f) (i_total_msat f) (i_trampoline_packet f) (i_invoice_request f) (i_keysend_preimage f) (i_custom_tlvs f).
Definition seti_path_key x (f : InboundFields) := mkInboundFields (i_amt f) (i_cltv_value f) (i_short_id f) (i_payment_data f) (i_encrypted_tlvs f) (Some x) (i_next_trampoline f) (i_payment_metadata f) (i_total_msat f) (i_trampoline_packet f) (i_invoice_request f) (i_keysend_preimage f) (i_custom_tlvs f).
Definition seti_next_trampoline x (f : InboundFields) := mkInboundFields (i_amt f) (i_cltv_value f) (i_short_id f) (i_payment_data f) (i_encrypted_tlvs f) (i_path_key f) (Some x) (i_payment_metadata f) (i_total_msat f) (i_trampoline_packet f) (i_invoice_request f) (i_keysend_preimage f) (i_custom_tlvs f).
Definition seti_payment_metadata x (f : InboundFields) := mkInboundFields (i_amt f) (i_cltv_value f) (i_short_id f) (i_payment_data f) (i_encrypted_tlvs f) (i_path_key f) (i_next_trampoline f) (Some x) (i_total_msat f) (i_trampoline_packet f) (i_invoice_request f) (i_keysend_preimage f) (i_custom_tlvs f).
Definition seti_total_msat x (f : InboundFields) := mkInboundFields (i_amt f) (i_cltv_value f) (i_short_id f) (i_payment_data f) (i_encrypted_tlvs f) (i_path_key f) (i_next_trampoline f) (i_payment_metadata f) (Some x) (i_trampoline_packet f) (i_invoice_request f) (i_keysend_preimage f) (i_custom_tlvs f).
Definition seti_trampoline_packet x (f : InboundFields) := mkInboundFields (i_amt f) (i_cltv_value f) (i_short_id f) (i_payment_data f) (i_encrypted_tlvs f) (i_path_key f) (i_next_trampoline f) (i_payment_metadata f) (i_total_msat f) (Some x) (i_invoice_request f) (i_keysend_preimage f) (i_custom_tlvs f).
Definition seti_invoice_request x (f : InboundFields) := mkInboundFields (i_amt f) (i_cltv_value f) (i_short_id f) (i_payment_data f) (i_encrypted_tlvs f) (i_path_key f) (i_next_trampoline f) (i_payment_metadata f) (i_total_msat f) (i_trampoline_packet f) (Some x) (i_keysend_preimage f) (i_custom_tlvs f).
Definition seti_keysend_preimage x (f : InboundFields) := mkInboundFields (i_amt f) (i_cltv_value f) (i_short_id f) (i_payment_data f) (i_encrypted_tlvs f) (i_path_key f) (i_next_trampoline f) (i_payment_metadata f) (i_total_msat f) (i_trampoline_packet f) (i_invoice_request f) (Some x) (i_custom_tlvs f).
Definition push_custom (typ : Z) (value : bytes) (f : InboundFields) := mkInboundFields (i_amt f) (i_cltv_value f) (i_short_id f) (i_payment_data f) (i_encrypted_tlvs f) (i_path_key f) (i_next_trampoline f) (i_payment_metadata f) (i_total_msat f) (i_trampoline_packet f) (i_invoice_request f) (i_keysend_preimage f) (i_custom_tlvs f ++ [(typ, value)]).

(** The closure for custom records. *)
Definition custom_tlv (typ : Z) (value : bytes) : option (InboundFields -> InboundFields) :=
  if typ <? Z.shiftl 1 16 then None else Some (push_custom typ value).

Definition common_field (typ : Z) : option (reader (InboundFields -> InboundFields)) :=
  if typ =? 2 then set_field (high_zero_read 8) seti_amt
  else if typ =? 4 then set_field (high_zero_read 4) seti_cltv_value
  else if typ =? 8 then set_field final_data_read seti_payment_data
  else if typ =? 10 then set_field read_rest seti_encrypted_tlvs
  else if typ =? 12 then set_field read_public_key seti_path_key
  else if typ =? 16 then set_field read_rest seti_payment_metadata
  else if typ =? 18 then set_field (high_zero_read 8) seti_total_msat
  else if typ =? INVOICE_REQUEST_TLV then set_field invoice_request_read seti_invoice_request
  else if typ =? KEYSEND_TLV then set_field (read_exact 32) seti_keysend_preimage
  else None.
Definition onion_fields : tlv_fields InboundFields :=
  mkFields (fun typ =>
    if typ =? 6 then set_field (read_be 8) seti_short_id
    else if typ =? 20 then set_field trampoline_packet_read seti_trampoline_packet
    else common_field typ) [] custom_tlv.
Definition trampoline_onion_fields : tlv_fields InboundFields :=
  mkFields (fun typ =>
    if typ =? 14 then set_field read_public_key seti_next_trampoline
    else common_field typ) [] custom_tlv.

Record InboundOnionForwardPayload : Type := mkInForward {
  if_short_channel_id : Z;
  if_amt_to_forward : Z;
  if_outgoing_cltv_value : Z;
}.
Record InboundTrampolineEntrypointPayload : Type := mkInEntrypoint {
  te_amt_to_forward : Z;
  te_outgoing_cltv_value : Z;
  te_multipath_trampoline_data : option FinalOnionHopData;
  te_trampoline_packet : TrampolineOnionPacket;
  te_current_path_key : option PublicKey;
}.
Record InboundOnionReceivePayload : Type := mkInReceive {
  ir_payment_data : option FinalOnionHopData;
  ir_payment_metadata : option bytes;
  ir_keysend_preimage : option bytes;
  ir_custom_tlvs : list (Z * bytes);
  ir_sender_intended_htlc_amt_msat : Z;
  ir_cltv_expiry_height : Z;
}.
Record InboundOnionBlindedForwardPayload : Type := mkInBlindedForward {
  bf_short_channel_id : Z;
  bf_payment_relay : PaymentRelay;
  bf_payment_constraints : PaymentConstraints;
  bf_features : BlindedHopFeatures;
  bf_intro_node_blinding_point : option PublicKey;
  bf_next_blinding_override : option PublicKey;
}.
Record InboundOnionDummyPayload : Type := mkInDummy {
  du_payment_relay : PaymentRelay;
  du_payment_constraints : PaymentConstraints;
  du_intro_node_blinding_point : option PublicKey;
}.
Record InboundOnionBlindedReceivePayload : Type := mkInBlindedReceive {
  br_sender_intended_htlc_amt_msat : Z;
  br_total_msat : Z;
  br_cltv_expiry_height : Z;
  br_payment_secret : bytes;
  br_payment_constraints : PaymentConstraints;
  br_payment_context : PaymentContext;
  br_intro_node_blinding_point : option PublicKey;
  br_keysend_preimage : option bytes;
  br_invoice_request : option InvoiceRequest;
  br_custom_tlvs : list (Z * bytes);
}.
Inductive InboundOnionPayload : Type :=
| InForward (p : InboundOnionForwardPayload)
| InTrampolineEntrypoint (p : InboundTrampolineEntrypointPayload)
| InReceive (p : InboundOnionReceivePayload)
| InBlindedForward (p : InboundOnionBlindedForwardPayload)
| InBlindedReceive (p : InboundOnionBlindedReceivePayload)
| InDummy (p : InboundOnionDummyPayload).

Record InboundTrampolineForwardPayload : Type := mkInTrampForward {
  tf_next_trampoline : PublicKey;
  tf_amt_to_forward : Z;
  tf_outgoing_cltv_value : Z;
}.
Record InboundTrampolineBlindedForwardPayload : Type := mkInTrampBlindedForward {
  tb_next_trampoline : PublicKey;
  tb_payment_relay : PaymentRelay;
  tb_payment_constraints : PaymentConstraints;
  tb_features : BlindedHopFeatures;
  tb_intro_node_blinding_point : option PublicKey;
  tb_next_blinding_override : option PublicKey;
}.
Inductive InboundTrampolinePayload : Type :=
| InTrampForward (p : InboundTrampolineForwardPayload)
| InTrampBlindedForward (p : InboundTrampolineBlindedForwardPayload)
| InTrampReceive (p : InboundOnionReceivePayload)
| InTrampBlindedReceive (p : InboundOnionBlindedReceivePayload).

(** The length and the stream.  The bytes of the packet may end before the stream
    does; the HMAC behind it is then missing. *)
Definition read_prefixed_stream {T} (F : tlv_fields T) (s : T) : reader T := fun r =>
  match bigsize_read r with
  | (Err e, r') => (Err e, r')
  | (Ok len, r') =>
      let '(stream, rest, _) := limited len r' in
      match decode_tlv_stream F s stream with
      | (Err e, _) => (Err e, rest)
      | (Ok s, _) => (Ok s, rest)
      end
  end.

(** [if c { return Err(DecodeError::InvalidValue) }] *)
Definition invalid_if (c : bool) : result DecodeError unit := if c then Err InvalidValue else Ok tt.
Definition ok_or_invalid {A} (o : option A) : result DecodeError A :=
  match o with Some a => Ok a | None => Err InvalidValue end.
Definition is_some {A} (o : option A) : bool := match o with Some _ => true | None => false end.
(** [Option::or] *)
Definition or_else {A} (a b : option A) : option A := match a with Some _ => a | None => b end.

Definition fold_kem_secret (ss : bytes) (pq_blinded_kem_ss : option bytes) : bytes :=
  match pq_blinded_kem_ss with Some kem_ss => mix_blinded_path_secret ss kem_ss | None => ss end.

(** The data the recipient encrypted for this hop. *)
Definition decrypt_tlvs {T} (read : reader T) (node_signer : NodeSigner) (blinding_point : PublicKey)
    (pq_blinded_kem_ss : option bytes) (enc_tlvs : bytes) : result DecodeError (T * TriPolyAADUsed) :=
  match ecdh node_signer Node blinding_point None with
  | Err _ => Err InvalidValue
  | Ok enc_tlvs_ss =>
      chacha_tri_poly_read read (gen_rho_from_shared_secret (fold_kem_secret enc_tlvs_ss pq_blinded_kem_ss))
        (get_receive_auth_key node_signer) (phantom_node_blinded_path_key node_signer) enc_tlvs
  end.

Definition has_sender_fields (f : InboundFields) : bool :=
  is_some (i_amt f) || is_some (i_cltv_value f) || is_some (i_total_msat f) || is_some (i_keysend_preimage f) ||
  is_some (i_invoice_request f).

Definition blinded_receive_of (f : InboundFields) (used_aad : TriPolyAADUsed) (tlvs : ReceiveTlvs)
    : result DecodeError InboundOnionBlindedReceivePayload :=
  _ ← invalid_if (bool_decide (used_aad = NoAAD));
  _ ← invalid_if (MAX_VALUE_MSAT <? default 0 (i_total_msat f));
  amt ← ok_or_invalid (i_amt f);
  total_msat ← ok_or_invalid (i_total_msat f);
  cltv ← ok_or_invalid (i_cltv_value f);
  Ok (mkInBlindedReceive amt total_msat cltv (recv_payment_secret tlvs) (recv_payment_constraints tlvs)
        (recv_payment_context tlvs) (i_path_key f) (i_keysend_preimage f) (i_invoice_request f) (i_custom_tlvs f)).

Definition receive_of (f : InboundFields) : result DecodeError InboundOnionReceivePayload :=
  _ ← invalid_if (is_some (i_encrypted_tlvs f) || is_some (i_total_msat f) || is_some (i_invoice_request f));
  _ ← invalid_if (match i_payment_data f with Some data => MAX_VALUE_MSAT <? total_msat data | None => false end);
  amt ← ok_or_invalid (i_amt f);
  cltv ← ok_or_invalid (i_cltv_value f);
  Ok (mkInReceive (i_payment_data f) (i_payment_metadata f) (i_keysend_preimage f) (i_custom_tlvs f) amt cltv).

Definition blinded_of (f : InboundFields) (blinding_point : PublicKey) (pq_blinded_kem_ss : option bytes)
    (node_signer : NodeSigner) : result DecodeError InboundOnionPayload :=
  _ ← invalid_if (is_some (i_short_id f) || is_some (i_payment_data f) || is_some (i_payment_metadata f));
  enc_tlvs ← ok_or_invalid (i_encrypted_tlvs f);
  '(readable, used_aad) ←
    decrypt_tlvs blinded_payment_tlvs_read node_signer blinding_point pq_blinded_kem_ss enc_tlvs;
  match readable with
  | TlvsForward t =>
      _ ← invalid_if (has_sender_fields f || negb (bool_decide (used_aad = NoAAD)));
      Ok (InBlindedForward (mkInBlindedForward (fwd_short_channel_id t) (fwd_payment_relay t)
            (fwd_payment_constraints t) (fwd_features t) (i_path_key f) (fwd_next_blinding_override t)))
  | TlvsDummy t =>
      _ ← invalid_if (has_sender_fields f || bool_decide (used_aad = NoAAD));
      Ok (InDummy (mkInDummy (dummy_payment_relay t) (dummy_payment_constraints t) (i_path_key f)))
  | TlvsReceive t => p ← blinded_receive_of f used_aad t; Ok (InBlindedReceive p)
  end.

(** [InboundOnionPayload::read] *)
Definition onion_payload_of (update_add_blinding_point : option PublicKey) (pq_blinded_kem_ss : option bytes)
    (node_signer : NodeSigner) (f : InboundFields) : result DecodeError InboundOnionPayload :=
  _ ← invalid_if (MAX_VALUE_MSAT <? default 0 (i_amt f));
  _ ← invalid_if (is_some (i_path_key f) && is_some update_add_blinding_point);
  match i_trampoline_packet f with
  | Some trampoline_packet =>
      _ ← invalid_if (is_some (i_payment_metadata f) || is_some (i_encrypted_tlvs f) || is_some (i_total_msat f));
      _ ← invalid_if (is_some update_add_blinding_point);
      amt ← ok_or_invalid (i_amt f);
      cltv ← ok_or_invalid (i_cltv_value f);
      Ok (InTrampolineEntrypoint (mkInEntrypoint amt cltv (i_payment_data f) trampoline_packet (i_path_key f)))
  | None =>
      match or_else (i_path_key f) update_add_blinding_point with
      | Some blinding_point => blinded_of f blinding_point pq_blinded_kem_ss node_signer
      | None =>
          match i_short_id f with
          | Some short_channel_id =>
              _ ← invalid_if (is_some (i_payment_data f) || is_some (i_payment_metadata f) ||
                    is_some (i_encrypted_tlvs f) || is_some (i_total_msat f) || is_some (i_invoice_request f));
              amt ← ok_or_invalid (i_amt f);
              cltv ← ok_or_invalid (i_cltv_value f);
              Ok (InForward (mkInForward short_channel_id amt cltv))
          | None => p ← receive_of f; Ok (InReceive p)
          end
      end
  end.
Definition onion_payload_read (update_add_blinding_point : option PublicKey) (pq_blinded_kem_ss : option bytes)
    (node_signer : NodeSigner) : reader InboundOnionPayload :=
  f ← read_prefixed_stream onion_fields no_inbound_fields;
  lift_result (onion_payload_of update_add_blinding_point pq_blinded_kem_ss node_signer f).

(** [InboundTrampolinePayload::read] *)
Definition trampoline_blinded_of (f : InboundFields) (blinding_point : PublicKey) (pq_blinded_kem_ss : option bytes)
    (node_signer : NodeSigner) : result DecodeError InboundTrampolinePayload :=
  _ ← invalid_if (is_some (i_next_trampoline f) || is_some (i_payment_data f) || is_some (i_payment_metadata f));
  enc_tlvs ← ok_or_invalid (i_encrypted_tlvs f);
  '(readable, used_aad) ←
    decrypt_tlvs blinded_trampoline_tlvs_read node_signer blinding_point pq_blinded_kem_ss enc_tlvs;
  match readable with
  | TrampolineTlvsForward t =>
      _ ← invalid_if (has_sender_fields f || negb (bool_decide (used_aad = NoAAD)));
      Ok (InTrampBlindedForward (mkInTrampBlindedForward (tfwd_next_trampoline t) (tfwd_payment_relay t)
            (tfwd_payment_constraints t) (tfwd_features t) (i_path_key f) (tfwd_next_blinding_override t)))
  | TrampolineTlvsReceive t => p ← blinded_receive_of f used_aad t; Ok (InTrampBlindedReceive p)
  end.

Definition trampoline_payload_of (outer_onion_path_key : option PublicKey) (pq_blinded_kem_ss : option bytes)
    (node_signer : NodeSigner) (f : InboundFields) : result DecodeError InboundTrampolinePayload :=
  _ ← invalid_if (MAX_VALUE_MSAT <? default 0 (i_amt f));
  _ ← invalid_if (is_some (i_path_key f) && is_some outer_onion_path_key);
  match or_else (i_path_key f) outer_onion_path_key with
  | Some blinding_point => trampoline_blinded_of f blinding_point pq_blinded_kem_ss node_signer
  | None =>
      match i_next_trampoline f with
      | Some next_trampoline =>
          _ ← invalid_if (is_some (i_payment_data f) || is_some (i_payment_metadata f) ||
                is_some (i_encrypted_tlvs f) || is_some (i_total_msat f) || is_some (i_invoice_request f));
          amt ← ok_or_invalid (i_amt f);
          cltv ← ok_or_invalid (i_cltv_value f);
          Ok (InTrampForward (mkInTrampForward next_trampoline amt cltv))
      | None => p ← receive_of f; Ok (InTrampReceive p)
      end
  end.
Definition trampoline_payload_read (outer_onion_path_key : option PublicKey) (pq_blinded_kem_ss : option bytes)
    (node_signer : NodeSigner) : reader InboundTrampolinePayload :=
  f ← read_prefixed_stream trampoline_onion_fields no_inbound_fields;
  lift_result (trampoline_payload_of outer_onion_path_key pq_blinded_kem_ss node_signer f).

(** ** What is written is read back *)

Context {bitcoin_laws : BitcoinLaws} {crypto_laws : OnionCryptoLaws}.

Lemma read_prefixed_stream_complete {T} (F : tlv_fields T) s s' tlvs rest : Forall tlv_fits tlvs -> ascending None tlvs ->
  required F = [] -> handle_all F tlvs s = Some s' ->
  fits 64 (Z.of_nat (length (encode_tlv_stream tlvs))) ->
  read_prefixed_stream F s (encode_length_prefixed tlvs ++ rest) = (Ok s', rest).
Proof.
  intros Hf Ha Hq Hall Hlen. unfold read_prefixed_stream, encode_length_prefixed.
  rewrite <- app_assoc, bigsize_write_read, limited_app by done.
  rewrite (decode_tlv_stream_complete F s s' tlvs); [done..| |done]. rewrite Hq. by intros q ?%elem_of_nil.
Qed.

(** *** Sorting *)

Fixpoint insert_tlv (t : Z * bytes) (l : list (Z * bytes)) : list (Z * bytes) :=
  match l with
  | [] => [t]
  | u :: l => if t.1 <? u.1 then t :: u :: l else u :: insert_tlv t l
  end.

Lemma insert_tlv_perm t l : insert_tlv t l ≡ₚ t :: l.
Proof.
  induction l as [|u l IH]; cbn; [done|]. destruct (t.1 <? u.1); [done|]. rewrite IH. apply Permutation_swap.
Qed.

Lemma ascending_weaken a b l : a <= b -> ascending (Some b) l -> ascending (Some a) l.
Proof. destruct l as [|u l]; cbn; [done|]. intros Hab [Hb Hl]. split; [lia|done]. Qed.

Lemma ascending_insert a t l : ascending (Some a) l -> a < t.1 -> t.1 ∉ map fst l -> ascending (Some a) (insert_tlv t l).
Proof.
  revert a. induction l as [|u l IH]; intros a Hl Ha Hn; cbn.
  { split; [by apply Z.ltb_lt|done]. }
  destruct Hl as [Hu Hl]. cbn in Hn. apply not_elem_of_cons in Hn as [Hne Hn].
  destruct (Z.ltb_spec t.1 u.1) as [Hlt|Hge]; cbn.
  - split_and!; [by apply Z.ltb_lt|by apply Z.ltb_lt|done].
  - split; [done|]. apply IH; [done|lia|done].
Qed.

Lemma ascending_sorted a l : ascending a l -> StronglySorted by_type l.
Proof.
  revert a. induction l as [|u l IH]; intros a; cbn; [constructor|]. intros [_ Hl]. constructor; [eauto|].
  clear IH. revert u Hl. induction l as [|v l IH]; intros u Hl; [constructor|]. destruct Hl as [Hv Hl]. cbn in Hv.
  constructor; [unfold by_type; lia|]. apply (IH u). eapply ascending_weaken; [|exact Hl]. lia.
Qed.

Lemma ascending_distinct a l x y : ascending a l -> x ∈ l -> y ∈ l -> x.1 = y.1 -> x = y.
Proof.
  revert a. induction l as [|u l IH]; intros a; cbn; [by intros _ ?%elem_of_nil|]. intros [_ Hl].
  assert (forall z, z ∈ l -> u.1 < z.1) as Hu.
  { intros z Hz. assert (before (Some u.1) z.1 = true) as Hb; [|cbn in Hb; lia].
    eapply ascending_above; [exact Hl|]. apply list_elem_of_fmap. eauto. }
  intros [->|Hx]%elem_of_cons [->|Hy]%elem_of_cons E; [done|..].
  - specialize (Hu y Hy). lia.
  - specialize (Hu x Hx). lia.
  - eauto.
Qed.

(** A list with distinct types sorts to its ascending permutation. *)
Lemma sort_by_type_ascending a l k : l ≡ₚ k -> ascending a k -> sort_by_type l = k.
Proof.
  intros Hp Ha. unfold sort_by_type.
  assert (Transitive by_type) by (intros x y z; unfold by_type; lia).
  assert (Total by_type) by (intros x y; unfold by_type; lia).
  apply (StronglySorted_unique_strong by_type).
  - intros x y Hx Hy Hxy Hyx. rewrite (merge_sort_Permutation by_type), Hp in Hx.
    eapply ascending_distinct; [exact Ha|done..|]. unfold by_type in *. lia.
  - by apply StronglySorted_merge_sort.
  - by eapply ascending_sorted.
  - by rewrite (merge_sort_Permutation by_type).
Qed.

(** A record that commutes with the ones around it may be handled first. *)
Lemma handle_all_insert {T} (F : tlv_fields T) t g l s : handle F t = Some g ->
  (forall u, u ∈ l -> exists h, handle F u = Some h /\ forall s, h (g s) = g (h s)) ->
  handle_all F (insert_tlv t l) s = handle_all F l (g s).
Proof.
  intros Ht. revert s. induction l as [|u l IH]; intros s Hl; cbn; [by rewrite Ht|].
  destruct (t.1 <? u.1); cbn; [by rewrite Ht|].
  destruct (Hl u) as (h & Hh & Hcomm); [by left|]. rewrite Hh. cbn. rewrite IH; [by rewrite Hcomm|].
  intros v Hv. apply Hl. by right.
Qed.

(** *** Custom records *)

Definition custom_wf (tlvs : list (Z * bytes)) : Prop :=
  check_custom_tlvs None tlvs = true /\ Forall tlv_fits tlvs.

(** What [RecipientCustomTlvs::new] accepts. *)
Lemma recipient_custom_tlvs_new_wf tlvs custom : Forall tlv_fits tlvs ->
  recipient_custom_tlvs_new tlvs = Ok custom -> custom_wf custom /\ custom ≡ₚ tlvs.
Proof.
  intros Hf. unfold recipient_custom_tlvs_new. destruct (check_custom_tlvs None (sort_by_type tlvs)) eqn:E; [|done].
  intros [= <-]. pose proof (merge_sort_Permutation by_type tlvs) as Hp. split; [|done]. split; [done|].
  eapply Forall_Permutation; [done| |exact Hf]. by symmetry.
Qed.

Lemma check_custom_ascending prev tlvs : check_custom_tlvs prev tlvs = true -> ascending prev tlvs /\
  Forall (fun t => 65536 <= t.1 /\ t.1 <> KEYSEND_TLV /\ t.1 <> INVOICE_REQUEST_TLV) tlvs.
Proof.
  revert prev. induction tlvs as [|[typ v] tlvs IH]; intros prev; cbn; [by split; constructor|].
  destruct (Z.ltb_spec typ (Z.shiftl 1 16)) as [|H16]; cbn; [done|]. change (Z.shiftl 1 16) with 65536 in H16.
  destruct (Z.eqb_spec typ KEYSEND_TLV); cbn; [done|]. destruct (Z.eqb_spec typ INVOICE_REQUEST_TLV); cbn; [done|].
  intros [Hb Hc]%andb_prop. destruct (IH _ Hc) as [Ha Hf]. split; [done|]. constructor; done.
Qed.

Lemma custom_ascending tlvs l : custom_wf tlvs -> l < 65536 -> ascending (Some l) tlvs.
Proof.
  intros [Hc _] Hl. apply check_custom_ascending in Hc as [Ha Hf]. destruct tlvs as [|t tlvs]; [done|].
  apply Forall_cons in Hf as [Ht _]. destruct Ha as [_ Ha]. split; [apply Z.ltb_lt; lia|done].
Qed.

Lemma custom_types tlvs t : custom_wf tlvs -> t ∈ map fst tlvs ->
  65536 <= t /\ t <> KEYSEND_TLV /\ t <> INVOICE_REQUEST_TLV.
Proof.
  intros [Hc _] Hin. apply check_custom_ascending in Hc as [_ Hf]. apply list_elem_of_fmap in Hin as (x & -> & Hx).
  rewrite Forall_forall in Hf. by apply Hf.
Qed.

Lemma above_fields_none typ : 65536 <= typ -> typ <> KEYSEND_TLV -> typ <> INVOICE_REQUEST_TLV ->
  field onion_fields typ = None /\ field trampoline_onion_fields typ = None.
Proof.
  intros H1 H2 H3. unfold onion_fields, trampoline_onion_fields, common_field. cbn [field].
  by rewrite !(proj2 (Z.eqb_neq _ _)) by (lia || done).
Qed.

Definition add_customs (tlvs : list (Z * bytes)) (f : InboundFields) : InboundFields :=
  foldl (fun f t => push_custom t.1 t.2 f) f tlvs.

Lemma handle_custom F tlvs t : F = onion_fields \/ F = trampoline_onion_fields -> custom_wf tlvs -> t ∈ tlvs ->
  handle F t = Some (push_custom t.1 t.2).
Proof.
  intros HF Hwf Ht. destruct (custom_types tlvs t.1 Hwf) as (H1 & H2 & H3); [by apply list_elem_of_fmap_2|].
  destruct (above_fields_none t.1 H1 H2 H3) as [E1 E2]. unfold handle.
  assert (field F t.1 = None /\ custom F t.1 t.2 = Some (push_custom t.1 t.2)) as [-> ->]; [|done].
  assert (custom_tlv t.1 t.2 = Some (push_custom t.1 t.2)) as Hc.
  { unfold custom_tlv. change (Z.shiftl 1 16) with 65536. by rewrite (proj2 (Z.ltb_ge _ _)) by lia. }
  by destruct HF as [->| ->].
Qed.

Lemma handle_all_customs F tlvs f : F = onion_fields \/ F = trampoline_onion_fields -> custom_wf tlvs ->
  handle_all F tlvs f = Some (add_customs tlvs f).
Proof.
  intros HF Hwf. assert (forall t, t ∈ tlvs -> handle F t = Some (push_custom t.1 t.2)) as Hh
    by (intros t Ht; by eapply handle_custom).
  clear Hwf. revert f. induction tlvs as [|t tlvs IH]; intros f; cbn; [done|]. rewrite (Hh t) by by left. cbn.
  apply IH. intros u Hu. apply Hh. by right.
Qed.

Lemma add_customs_fields tlvs f : add_customs tlvs f =
  mkInboundFields (i_amt f) (i_cltv_value f) (i_short_id f) (i_payment_data f) (i_encrypted_tlvs f) (i_path_key f)
    (i_next_trampoline f) (i_payment_metadata f) (i_total_msat f) (i_trampoline_packet f) (i_invoice_request f)
    (i_keysend_preimage f) (i_custom_tlvs f ++ tlvs).
Proof.
  unfold add_customs. revert f. induction tlvs as [|[t v] tlvs IH]; intros f; cbn; [by destruct f; rewrite app_nil_r|].
  rewrite IH. cbn. by rewrite <- app_assoc.
Qed.

(** The custom records of a final hop, with the records that are sorted among them. *)
Definition set_keysend_opt (k : option bytes) (f : InboundFields) : InboundFields :=
  match k with Some k => seti_keysend_preimage k f | None => f end.
Definition set_invoice_request_opt (i : option InvoiceRequest) (f : InboundFields) : InboundFields :=
  match i with Some i => seti_invoice_request i f | None => f end.

Lemma handle_keysend F k : F = onion_fields \/ F = trampoline_onion_fields -> length k = 32%nat ->
  handle F (KEYSEND_TLV, k) = Some (seti_keysend_preimage k).
Proof.
  intros HF Hk. eapply handle_set; [by destruct HF as [->| ->]|]. rewrite <- (app_nil_r k) at 1. by apply read_exact_app.
Qed.

Lemma handle_invoice_request F i : F = onion_fields \/ F = trampoline_onion_fields ->
  handle F (INVOICE_REQUEST_TLV, invoice_request_write i) = Some (seti_invoice_request i).
Proof. intros HF. eapply handle_set; [by destruct HF as [->| ->]|]. apply invoice_request_write_read. Qed.

Definition extras (keysend : option bytes) (invreq : option InvoiceRequest) : list (Z * bytes) :=
  opt_tlv INVOICE_REQUEST_TLV (invoice_request_write <$> invreq) ++ opt_tlv KEYSEND_TLV keysend.
Definition insert_opt (typ : Z) (value : option bytes) (l : list (Z * bytes)) : list (Z * bytes) :=
  match value with Some v => insert_tlv (typ, v) l | None => l end.
Definition with_extras (custom : list (Z * bytes)) (keysend : option bytes) (invreq : option InvoiceRequest) :=
  insert_opt KEYSEND_TLV keysend (insert_opt INVOICE_REQUEST_TLV (invoice_request_write <$> invreq) custom).

Lemma insert_opt_perm typ value l : insert_opt typ value l ≡ₚ l ++ opt_tlv typ value.
Proof. destruct value; cbn; [|by rewrite app_nil_r]. rewrite insert_tlv_perm. apply Permutation_cons_append. Qed.

Lemma with_extras_perm custom keysend invreq : custom ++ extras keysend invreq ≡ₚ with_extras custom keysend invreq.
Proof. unfold with_extras, extras. by rewrite !insert_opt_perm, app_assoc. Qed.

Lemma ascending_insert_opt a typ value l : ascending (Some a) l -> a < typ -> typ ∉ map fst l ->
  ascending (Some a) (insert_opt typ value l).
Proof. intros Ha Hl Hn. destruct value as [v|]; [|done]. by apply (ascending_insert a (typ, v)). Qed.

Lemma with_extras_ascending custom keysend invreq l : custom_wf custom -> l < 65536 ->
  ascending (Some l) (with_extras custom keysend invreq).
Proof.
  intros Hwf Hl. unfold with_extras.
  apply ascending_insert_opt; [|unfold KEYSEND_TLV; lia|].
  - apply ascending_insert_opt; [by apply custom_ascending|unfold INVOICE_REQUEST_TLV; lia|].
    intros (_ & _ & ?)%(custom_types _ _ Hwf). done.
  - rewrite insert_opt_perm, map_app. intros [Hin|Hin]%elem_of_app.
    + by apply (custom_types _ _ Hwf) in Hin as (_ & ? & _).
    + destruct invreq; cbn in Hin; [by apply list_elem_of_singleton in Hin|by apply elem_of_nil in Hin].
Qed.

Lemma with_extras_fits custom keysend invreq : custom_wf custom -> (forall k, keysend = Some k -> length k = 32%nat) ->
  Forall tlv_fits (with_extras custom keysend invreq).
Proof.
  intros Hwf Hk. rewrite <- with_extras_perm. unfold extras.
  rewrite !Forall_app. split_and!; [apply Hwf|..].
  - destruct invreq as [i|]; constructor; [|constructor]. split; [unfold fits; cbn; unfold INVOICE_REQUEST_TLV; lia|].
    cbn. pose proof (invoice_request_short i). unfold fits in *. lia.
  - destruct keysend as [k|]; constructor; [|constructor]. split; [unfold fits; cbn; unfold KEYSEND_TLV; lia|].
    cbn. rewrite (Hk k eq_refl). unfold fits. lia.
Qed.

Lemma handle_all_extras F custom keysend invreq f : F = onion_fields \/ F = trampoline_onion_fields ->
  custom_wf custom -> (forall k, keysend = Some k -> length k = 32%nat) ->
  handle_all F (with_extras custom keysend invreq) f =
    Some (add_customs custom (set_invoice_request_opt invreq (set_keysend_opt keysend f))).
Proof.
  intros HF Hwf Hk. unfold with_extras.
  assert (forall f, handle_all F (insert_opt INVOICE_REQUEST_TLV (invoice_request_write <$> invreq) custom) f =
    Some (add_customs custom (set_invoice_request_opt invreq f))) as Hi.
  { intros f'. destruct invreq as [i|]; cbn [insert_opt fmap option_fmap option_map]; [|by apply handle_all_customs].
    rewrite (handle_all_insert F _ (seti_invoice_request i)); [by apply handle_all_customs|by apply handle_invoice_request|].
    intros u Hu. eexists. split; [by eapply handle_custom|done]. }
  destruct keysend as [k|]; cbn [insert_opt]; [|apply Hi].
  rewrite (handle_all_insert F _ (seti_keysend_preimage k)); [apply Hi|by apply handle_keysend; auto|].
  intros u Hu. rewrite insert_opt_perm in Hu. apply elem_of_app in Hu as [Hu|Hu].
  - eexists. split; [by eapply handle_custom|done].
  - destruct invreq as [i|]; cbn in Hu; [|by apply elem_of_nil in Hu]. apply list_elem_of_singleton in Hu as ->.
    eexists. split; [by apply handle_invoice_request|done].
Qed.

Lemma sort_customs custom keysend invreq : custom_wf custom ->
  sort_by_type (custom ++ extras keysend invreq) = with_extras custom keysend invreq.
Proof.
  intros Hwf. eapply sort_by_type_ascending; [apply with_extras_perm|].
  by apply (with_extras_ascending _ _ _ 0).
Qed.

(** *** Payloads *)

Definition final_data_wf (d : FinalOnionHopData) : Prop := length (payment_secret d) = 32%nat /\ fits 64 (total_msat d).
Definition opt_wf {A} (P : A -> Prop) (o : option A) : Prop := forall a, o = Some a -> P a.
Definition short_bytes (l : bytes) : Prop := fits 32 (Z.of_nat (length l)).
Definition trampoline_packet_wf (p : TrampolineOnionPacket) : Prop :=
  fits 8 (trampoline_version p) /\ length (trampoline_hmac p) = 32%nat /\ short_bytes (trampoline_hop_data p).

Definition outbound_wf (p : OutboundOnionPayload) : Prop :=
  match p with
  | OutForward scid amt cltv => fits 64 scid /\ fits 64 amt /\ fits 32 cltv
  | OutTrampolineEntrypoint amt cltv data packet path_key =>
      fits 64 amt /\ fits 32 cltv /\ opt_wf final_data_wf data /\ trampoline_packet_wf packet
  | OutReceive data metadata keysend custom amt cltv =>
      fits 64 amt /\ fits 32 cltv /\ opt_wf final_data_wf data /\ opt_wf short_bytes metadata /\
      opt_wf (fun k => length k = 32%nat) keysend /\ custom_wf custom
  | OutBlindedForward enc intro => short_bytes enc
  | OutBlindedReceive amt total cltv enc intro keysend custom invreq =>
      fits 64 amt /\ fits 64 total /\ fits 32 cltv /\ short_bytes enc /\
      opt_wf (fun k => length k = 32%nat) keysend /\ custom_wf custom
  end.

(** What a hop has after reading the stream. *)
Definition outbound_fields (p : OutboundOnionPayload) : InboundFields :=
  match p with
  | OutForward scid amt cltv =>
      mkInboundFields (Some amt) (Some cltv) (Some scid) None None None None None None None None None []
  | OutTrampolineEntrypoint amt cltv data packet path_key =>
      mkInboundFields (Some amt) (Some cltv) None data None path_key None None None (Some packet) None None []
  | OutReceive data metadata keysend custom amt cltv =>
      mkInboundFields (Some amt) (Some cltv) None data None None None metadata None None None keysend custom
  | OutBlindedForward enc intro =>
      mkInboundFields None None None None (Some enc) intro None None None None None None []
  | OutBlindedReceive amt total cltv enc intro keysend custom invreq =>
      mkInboundFields (Some amt) (Some cltv) None None (Some enc) intro None None (Some total) None invreq keysend custom
  end.

Lemma final_data_write_read d : final_data_wf d -> final_data_read (final_data_write d) = (Ok d, []).
Proof.
  intros [Hs Ht]. unfold final_data_read, final_data_write, fits in *.
  erewrite read_bind by by apply read_exact_app. erewrite read_bind by (apply high_zero_write_read; cbn; lia).
  by destruct d.
Qed.

Lemma trampoline_packet_write_read p : trampoline_packet_wf p ->
  trampoline_packet_read (trampoline_packet_write p) = (Ok p, []).
Proof.
  intros (Hv & Hh & Hd). unfold trampoline_packet_read, trampoline_packet_write.
  rewrite !length_app, to_be_length, serialize_length, Hh.
  replace (1 + (33 + (length (trampoline_hop_data p) + 32)) - 66)%nat with (length (trampoline_hop_data p)) by lia.
  erewrite read_bind by (apply read_be_app; unfold fits in Hv; cbn; lia).
  erewrite read_bind by apply read_public_key_app.
  erewrite read_bind by (rewrite take_app_length, drop_app_length; reflexivity).
  erewrite read_bind by (rewrite <- (app_nil_r (trampoline_hmac p)); by apply read_exact_app). by destruct p.
Qed.

Lemma high_zero_back8 x : fits 64 x -> high_zero_read 8 (high_zero_write 8 x) = (Ok x, []).
Proof. intros Hx. apply high_zero_write_read. unfold fits in Hx. cbn. lia. Qed.
Lemma high_zero_back4 x : fits 32 x -> high_zero_read 4 (high_zero_write 4 x) = (Ok x, []).
Proof. intros Hx. apply high_zero_write_read. unfold fits in Hx. cbn. lia. Qed.

Ltac read_back := first
  [ by apply high_zero_back8 | by apply high_zero_back4 | by apply final_data_write_read; eauto
  | by apply trampoline_packet_write_read
  | rewrite <- (app_nil_r (to_be _ _)); apply read_be_app; unfold fits in *; cbn; lia
  | rewrite <- (app_nil_r (serialize _)); apply read_public_key_app
  | reflexivity ].
Ltac handles := cbn [handle_all app opt_tlv fmap option_fmap option_map];
  repeat (erewrite handle_set; [|reflexivity|read_back]; cbn [mbind option_bind handle_all]).

Lemma outbound_fields_handled p : outbound_wf p ->
  handle_all onion_fields (outbound_tlvs p) no_inbound_fields = Some (outbound_fields p).
Proof.
  destruct p as [scid amt cltv|amt cltv data packet path_key|data metadata keysend custom amt cltv|enc intro|
    amt total cltv enc intro keysend custom invreq]; cbn [outbound_wf outbound_tlvs].
  - intros (H1 & H2 & H3). unfold amt_tlv, cltv_tlv. handles. done.
  - intros (H1 & H2 & H3 & H4). unfold amt_tlv, cltv_tlv.
    destruct data as [d|], path_key as [k|]; handles; done.
  - intros (H1 & H2 & H3 & H4 & H5 & H6). unfold amt_tlv, cltv_tlv.
    pose proof (sort_customs custom keysend None H6) as Es. unfold extras in Es. cbn in Es. rewrite Es.
    destruct data as [d|], metadata as [m|]; handles;
      rewrite handle_all_extras, add_customs_fields by (auto; done); by destruct keysend.
  - intros H1. destruct intro; handles; done.
  - intros (H1 & H2 & H3 & H4 & H5 & H6). unfold amt_tlv, cltv_tlv.
    pose proof (sort_customs custom keysend invreq H6) as Es. unfold extras in Es. rewrite Es.
    destruct intro as [k|]; handles;
      rewrite handle_all_extras, add_customs_fields by (auto; done); by destruct keysend, invreq.
Qed.

Lemma outbound_ascending p : outbound_wf p -> ascending None (outbound_tlvs p).
Proof.
  destruct p as [scid amt cltv|amt cltv data packet path_key|data metadata keysend custom amt cltv|enc intro|
    amt total cltv enc intro keysend custom invreq]; cbn [outbound_wf outbound_tlvs].
  - done.
  - intros _. by destruct data, path_key.
  - intros (_ & _ & _ & _ & _ & H6).
    pose proof (sort_customs custom keysend None H6) as Es. unfold extras in Es. cbn in Es. rewrite Es.
    destruct data, metadata; cbn; split_and!; try done; by apply with_extras_ascending.
  - intros _. by destruct intro.
  - intros (_ & _ & _ & _ & _ & H6).
    pose proof (sort_customs custom keysend invreq H6) as Es. unfold extras in Es. rewrite Es.
    destruct intro; cbn; split_and!; try done; by apply with_extras_ascending.
Qed.

Lemma tlv_fits_short typ v : fits 64 typ -> short_bytes v -> tlv_fits (typ, v).
Proof. intros Ht Hv. split; [done|]. cbn. unfold short_bytes, fits in *. lia. Qed.

Lemma short_high_zero n x : (n <= 8)%nat -> short_bytes (high_zero_write n x).
Proof. intros Hn. pose proof (high_zero_write_length n x). unfold short_bytes, fits. lia. Qed.
Lemma short_serialize k : short_bytes (serialize k).
Proof. unfold short_bytes. rewrite serialize_length. unfold fits. lia. Qed.
Lemma short_final_data d : final_data_wf d -> short_bytes (final_data_write d).
Proof.
  intros [Hs _]. unfold short_bytes, final_data_write. rewrite length_app, Hs.
  pose proof (high_zero_write_length 8 (total_msat d)). unfold fits. lia.
Qed.
Lemma trampoline_packet_fits p : trampoline_packet_wf p -> tlv_fits (20, trampoline_packet_write p).
Proof.
  intros (_ & Hh & Hd). unfold tlv_fits, trampoline_packet_write. cbn [fst snd].
  rewrite !length_app, to_be_length, serialize_length, Hh. unfold short_bytes, fits in *. lia.
Qed.

Ltac fit_const := match goal with |- fits 64 ?t => unfold fits; lia end.
Ltac fits_list := repeat first
  [ apply Forall_nil_2 | apply Forall_cons_2 | by apply trampoline_packet_fits
  | apply tlv_fits_short; [fit_const|]
  | apply short_high_zero; lia | apply short_serialize | by apply short_final_data; eauto
  | by apply with_extras_fits | by eauto
  | unfold short_bytes; rewrite to_be_length; unfold fits; lia ].

Lemma outbound_fits p : outbound_wf p -> Forall tlv_fits (outbound_tlvs p).
Proof.
  destruct p as [scid amt cltv|amt cltv data packet path_key|data metadata keysend custom amt cltv|enc intro|
    amt total cltv enc intro keysend custom invreq]; cbn [outbound_wf outbound_tlvs].
  - intros _. unfold amt_tlv, cltv_tlv. fits_list.
  - intros (_ & _ & Hd & Hp). unfold amt_tlv, cltv_tlv. destruct data, path_key; cbn [app opt_tlv fmap option_fmap option_map]; fits_list.
  - intros (_ & _ & Hd & Hm & Hk & Hc). unfold amt_tlv, cltv_tlv.
    pose proof (sort_customs custom keysend None Hc) as Es. unfold extras in Es. cbn in Es. rewrite Es.
    destruct data, metadata; cbn [app opt_tlv fmap option_fmap option_map]; fits_list.
  - intros He. destruct intro; cbn [app opt_tlv fmap option_fmap option_map]; fits_list.
  - intros (_ & _ & _ & He & Hk & Hc). unfold amt_tlv, cltv_tlv.
    pose proof (sort_customs custom keysend invreq Hc) as Es. unfold extras in Es. rewrite Es.
    destruct intro; cbn [app opt_tlv fmap option_fmap option_map]; fits_list.
Qed.

Lemma outbound_payload_write_read p bp kem_ss signer rest : outbound_wf p ->
  fits 32 (Z.of_nat (length (outbound_payload_write p))) ->
  onion_payload_read bp kem_ss signer (outbound_payload_write p ++ rest) =
    (onion_payload_of bp kem_ss signer (outbound_fields p), rest).
Proof.
  intros Hwf Hlen. unfold onion_payload_read.
  erewrite read_bind; [|apply read_prefixed_stream_complete;
    [by apply outbound_fits|by apply outbound_ascending|done|by apply outbound_fields_handled|]]; [done|].
  unfold outbound_payload_write, encode_length_prefixed in Hlen. rewrite length_app in Hlen. unfold fits in *. lia.
Qed.

(** *** A reader that is not blinded *)

Lemma read_forward scid amt cltv kem_ss signer : 0 <= amt <= MAX_VALUE_MSAT ->
  onion_payload_of None kem_ss signer (outbound_fields (OutForward scid amt cltv)) = Ok (InForward (mkInForward scid amt cltv)).
Proof. intros Ha. unfold onion_payload_of. cbn. by rewrite (proj2 (Z.ltb_ge _ _)) by lia. Qed.

Lemma read_receive data metadata keysend custom amt cltv kem_ss signer : 0 <= amt <= MAX_VALUE_MSAT ->
  opt_wf (fun d => total_msat d <= MAX_VALUE_MSAT) data ->
  onion_payload_of None kem_ss signer (outbound_fields (OutReceive data metadata keysend custom amt cltv)) =
    Ok (InReceive (mkInReceive data metadata keysend custom amt cltv)).
Proof.
  intros Ha Hd. unfold onion_payload_of, receive_of. cbn. rewrite (proj2 (Z.ltb_ge _ _)) by lia. cbn.
  destruct data as [d|]; [|done]. cbn. rewrite (proj2 (Z.ltb_ge _ _)); [done|]. by apply Hd.
Qed.

Lemma read_entrypoint amt cltv data packet path_key kem_ss signer : 0 <= amt <= MAX_VALUE_MSAT ->
  onion_payload_of None kem_ss signer (outbound_fields (OutTrampolineEntrypoint amt cltv data packet path_key)) =
    Ok (InTrampolineEntrypoint (mkInEntrypoint amt cltv data packet path_key)).
Proof.
  intros Ha. unfold onion_payload_of. cbn. rewrite (proj2 (Z.ltb_ge _ _)) by lia. cbn. by rewrite andb_false_r.
Qed.

(** *** A reader inside a blinded path

    The blinding point comes with the payload at the introduction node and with the
    message behind it. *)

Definition blinding_point_of (intro update_add : option PublicKey) (bp : PublicKey) : Prop :=
  (intro = Some bp /\ update_add = None) \/ (intro = None /\ update_add = Some bp).

Lemma blinding_point_of_or intro update_add bp : blinding_point_of intro update_add bp ->
  is_some intro && is_some update_add = false /\ or_else intro update_add = Some bp.
Proof. by intros [[-> ->]|[-> ->]]. Qed.

Lemma read_blinded_forward enc intro update_add bp kem_ss signer t : blinding_point_of intro update_add bp ->
  decrypt_tlvs blinded_payment_tlvs_read signer bp kem_ss enc = Ok (TlvsForward t, NoAAD) ->
  onion_payload_of update_add kem_ss signer (outbound_fields (OutBlindedForward enc intro)) =
    Ok (InBlindedForward (mkInBlindedForward (fwd_short_channel_id t) (fwd_payment_relay t) (fwd_payment_constraints t)
          (fwd_features t) intro (fwd_next_blinding_override t))).
Proof.
  intros [H1 H2]%blinding_point_of_or Hd. unfold onion_payload_of. cbn. rewrite H1. cbn. rewrite H2.
  unfold blinded_of. cbn. rewrite Hd. done.
Qed.

Lemma read_dummy enc intro update_add bp kem_ss signer t aad : blinding_point_of intro update_add bp -> aad <> NoAAD ->
  decrypt_tlvs blinded_payment_tlvs_read signer bp kem_ss enc = Ok (TlvsDummy t, aad) ->
  onion_payload_of update_add kem_ss signer (outbound_fields (OutBlindedForward enc intro)) =
    Ok (InDummy (mkInDummy (dummy_payment_relay t) (dummy_payment_constraints t) intro)).
Proof.
  intros [H1 H2]%blinding_point_of_or Ha Hd. unfold onion_payload_of. cbn. rewrite H1. cbn. rewrite H2.
  unfold blinded_of. cbn. rewrite Hd. cbn. by rewrite bool_decide_false by done.
Qed.

Lemma read_blinded_receive amt total cltv enc intro keysend custom invreq update_add bp kem_ss signer t aad :
  blinding_point_of intro update_add bp -> aad <> NoAAD ->
  0 <= amt <= MAX_VALUE_MSAT -> 0 <= total <= MAX_VALUE_MSAT ->
  decrypt_tlvs blinded_payment_tlvs_read signer bp kem_ss enc = Ok (TlvsReceive t, aad) ->
  onion_payload_of update_add kem_ss signer
      (outbound_fields (OutBlindedReceive amt total cltv enc intro keysend custom invreq)) =
    Ok (InBlindedReceive (mkInBlindedReceive amt total cltv (recv_payment_secret t) (recv_payment_constraints t)
          (recv_payment_context t) intro keysend invreq custom)).
Proof.
  intros [H1 H2]%blinding_point_of_or Ha Hamt Htot Hd. unfold onion_payload_of. cbn.
  rewrite (proj2 (Z.ltb_ge _ amt)) by lia. rewrite H1. cbn. rewrite H2.
  unfold blinded_of. cbn. rewrite Hd. cbn. unfold blinded_receive_of. rewrite bool_decide_false by done. cbn.
  by rewrite (proj2 (Z.ltb_ge _ _)) by lia.
Qed.

(** The data a hop decrypts is what the recipient encrypted for it. *)
Lemma decrypt_forward km bp kem_ss t round_off : (round_off <= 1000)%nat -> payment_tlvs_wf (TlvsForward t) ->
  decrypt_tlvs blinded_payment_tlvs_read (keys_manager_signer km) bp kem_ss
    (encrypt_payload (write_with_padding round_off (forward_tlvs t))
       (gen_rho_from_shared_secret (fold_kem_secret (shared_secret bp (node_secret km)) kem_ss)) None) =
    Ok (TlvsForward (mkForwardTlvs (fwd_short_channel_id t) (fwd_payment_relay t) (fwd_payment_constraints t)
          (fwd_features t) None), NoAAD).
Proof.
  intros Hr Hwf. unfold decrypt_tlvs, keys_manager_signer. cbn [ecdh ecdh_with encrypt_payload].
  eapply chachapoly_write_read. apply (payment_tlvs_write_read round_off (TlvsForward t) Hr Hwf).
Qed.

(** A tag with the recipient's key does not collide with the tag without one. *)
Definition tags_differ (plaintext rho key : bytes) : Prop :=
  tag_plain rho (apply_keystream rho 64 plaintext) <> tag_aad rho key (apply_keystream rho 64 plaintext).

Lemma decrypt_receive km bp kem_ss t round_off : (round_off <= 1000)%nat -> payment_tlvs_wf (TlvsReceive t) ->
  let rho := gen_rho_from_shared_secret (fold_kem_secret (shared_secret bp (node_secret km)) kem_ss) in
  let plaintext := write_with_padding round_off (receive_tlvs t) in
  tags_differ plaintext rho (receive_auth_key km) ->
  decrypt_tlvs blinded_payment_tlvs_read (keys_manager_signer km) bp kem_ss
    (encrypt_payload plaintext rho (Some (receive_auth_key km))) = Ok (TlvsReceive t, First).
Proof.
  intros Hr Hwf rho plaintext Hne. unfold decrypt_tlvs, keys_manager_signer. cbn [ecdh ecdh_with encrypt_payload].
  eapply swapped_aad_read; [|done]. apply (payment_tlvs_write_read round_off (TlvsReceive t) Hr Hwf).
Qed.

Lemma decrypt_dummy km bp kem_ss t round_off : (round_off <= 1000)%nat -> payment_tlvs_wf (TlvsDummy t) ->
  let rho := gen_rho_from_shared_secret (fold_kem_secret (shared_secret bp (node_secret km)) kem_ss) in
  let plaintext := write_with_padding round_off (dummy_tlvs t) in
  tags_differ plaintext rho (receive_auth_key km) ->
  decrypt_tlvs blinded_payment_tlvs_read (keys_manager_signer km) bp kem_ss
    (encrypt_payload plaintext rho (Some (receive_auth_key km))) = Ok (TlvsDummy t, First).
Proof.
  intros Hr Hwf rho plaintext Hne. unfold decrypt_tlvs, keys_manager_signer. cbn [ecdh ecdh_with encrypt_payload].
  eapply swapped_aad_read; [|done]. apply (payment_tlvs_write_read round_off (TlvsDummy t) Hr Hwf).
Qed.

End payloads.
