(* ===== verification/PqSign.v ===== *)
(** * Post-quantum signatures of gossip (lightning/src/sign/pq.rs)

    ML-DSA keys and signatures, and the records at the end of a gossip message that
    carry them, as they are written and as they are found again. *)

From Stdlib Require Import ZArith Lia Bool.
From stdpp Require Import strings.
From S2P Require Import Prelude.
From S2P Require Import Keys.
From S2P Require Import Ser.
From S2P Require Import Onion.

Local Open Scope Z_scope.

Definition PQ_PUBLIC_KEY_LEN : nat := 1312.
Definition PQ_SIGNATURE_LEN : nat := 2420.
Definition PQ_KEM_EK_LEN : nat := 1184.

(** ML-DSA-44 (FIPS 204). *)
Class MlDsa := {
  MlDsaPrivate : Type;
  MlDsaPublic : Type;
  mldsa_keygen_from_seed : bytes -> MlDsaPublic * MlDsaPrivate;
  mldsa_into_bytes : MlDsaPublic -> bytes;
  mldsa_try_from_bytes : bytes -> option MlDsaPublic;
  (** [try_sign_with_seed], which refuses contexts of more than 255 bytes *)
  mldsa_try_sign_with_seed : MlDsaPrivate -> bytes -> bytes -> bytes -> option bytes;
  mldsa_verify : MlDsaPublic -> bytes -> bytes -> bytes -> bool;
}.
Class MlDsaLaws `{MlDsa} : Prop := {
  mldsa_public_length pk : length (mldsa_into_bytes pk) = PQ_PUBLIC_KEY_LEN;
  mldsa_public_bytes pk : mldsa_try_from_bytes (mldsa_into_bytes pk) = Some pk;
  mldsa_signs sk seed msg ctx : (length ctx <= 255)%nat ->
    exists sig, mldsa_try_sign_with_seed sk seed msg ctx = Some sig /\ length sig = PQ_SIGNATURE_LEN;
  mldsa_verifies seed sk pk rnd msg ctx sig :
    mldsa_keygen_from_seed seed = (pk, sk) -> mldsa_try_sign_with_seed sk rnd msg ctx = Some sig -> mldsa_verify pk msg sig ctx = true;
}.

Definition PQ_CONTEXT_BOLT11 : bytes := tag "LDK-PQ-BOLT11-invoice".
Definition PQ_CONTEXT_GOSSIP : bytes := tag "LDK-PQ-BOLT7-gossip".
Definition PQ_CONTEXT_BOLT12 : bytes := tag "LDK-PQ-BOLT12-invoice".
Definition PQ_CONTEXT_BOLT12_STATIC : bytes := tag "LDK-PQ-BOLT12-static-invoice".

Section pq.
Context {mldsa : MlDsa}.

Definition pq_keypair_from_seed (seed : bytes) : MlDsaPrivate * bytes :=
  let '(pk, sk) := mldsa_keygen_from_seed seed in (sk, mldsa_into_bytes pk).
Definition pq_sign (sk : MlDsaPrivate) (msg context : bytes) : run bytes :=
  unwrap (mldsa_try_sign_with_seed sk (replicate 32 0) msg context).
Definition pq_verify (pk msg sig context : bytes) : bool :=
  match mldsa_try_from_bytes pk with
  | Some pk => mldsa_verify pk msg sig context
  | None => false
  end.

End pq.

(** ** Records *)

Definition PQ_PUBLIC_KEY_RECORD_TYPE : Z := 27.
Definition PQ_KEM_KEY_RECORD_TYPE : Z := 29.
Definition PQ_SIGNATURE_RECORD_TYPE : Z := 31.

Record PqRecords : Type := mkPqRecords {
  pubkey : option bytes;
  kem_key : option bytes;
  signature : option bytes;
  signature_record_len : nat;
}.

Definition write_bigsize (val : Z) : bytes :=
  if val <? 253 then [val]
  else if val <=? 65535 then 253 :: to_be 2 val
  else if val <=? 4294967295 then 254 :: to_be 4 val
  else 255 :: to_be 8 val.

(** [data.get(pos..pos + n)] *)
Definition get_slice (data : bytes) (pos n : nat) : option bytes :=
  if (pos + n <=? length data)%nat then Some (take n (drop pos data)) else None.

(** The value at a position, and the position after it. *)
Definition read_bigsize (data : bytes) (pos : nat) : option (Z * nat) :=
  first ← data !! pos;
  let pos := S pos in
  if first =? 255 then b ← get_slice data pos 8; Some (from_be b, pos + 8)%nat
  else if first =? 254 then b ← get_slice data pos 4; Some (from_be b, pos + 4)%nat
  else if first =? 253 then b ← get_slice data pos 2; Some (from_be b, pos + 2)%nat
  else Some (first, pos).

Definition append_public_key_record (excess_data pubkey : bytes) : bytes :=
  excess_data ++ write_bigsize PQ_PUBLIC_KEY_RECORD_TYPE ++ write_bigsize (Z.of_nat PQ_PUBLIC_KEY_LEN) ++ pubkey.
Definition append_kem_key_record (excess_data kem_key : bytes) : bytes :=
  excess_data ++ write_bigsize PQ_KEM_KEY_RECORD_TYPE ++ write_bigsize (Z.of_nat PQ_KEM_EK_LEN) ++ kem_key.
Definition append_signature_record (excess_data signature : bytes) : bytes :=
  excess_data ++ write_bigsize PQ_SIGNATURE_RECORD_TYPE ++ write_bigsize (Z.of_nat PQ_SIGNATURE_LEN) ++ signature.

(** A record that was read, from [record_start] to [pos]. *)
Definition note_record (records : PqRecords) (record_start pos : nat) (typ : Z) (value : bytes) : PqRecords :=
  if (typ =? PQ_PUBLIC_KEY_RECORD_TYPE) && (length value =? PQ_PUBLIC_KEY_LEN)%nat
  then mkPqRecords (Some value) (kem_key records) (signature records) (signature_record_len records)
  else if (typ =? PQ_KEM_KEY_RECORD_TYPE) && (length value =? PQ_KEM_EK_LEN)%nat
  then mkPqRecords (pubkey records) (Some value) (signature records) (signature_record_len records)
  else if (typ =? PQ_SIGNATURE_RECORD_TYPE) && (length value =? PQ_SIGNATURE_LEN)%nat
  then mkPqRecords (pubkey records) (kem_key records) (Some value) (pos - record_start)
  else records.

(** The loop of [parse_records].  The end of a record is computed on 64 bits: when it wraps,
    the slice of the value starts after its end. *)
Fixpoint parse_from (fuel : nat) (data : bytes) (pos : nat) (records : PqRecords) : run PqRecords :=
  match fuel with
  | O => mret records
  | S fuel =>
      if (length data <=? pos)%nat then mret records
      else match read_bigsize data pos with
      | None => mret records
      | Some (typ, pos1) =>
          match read_bigsize data pos1 with
          | None => mret records
          | Some (len, pos2) =>
              let stop := wrapping 64 (Z.of_nat pos2 + len) in
              if Z.of_nat (length data) <? stop then mret records
              else if stop <? Z.of_nat pos2 then Panic
              else
                let value := take (Z.to_nat len) (drop pos2 data) in
                let next := Z.to_nat stop in
                parse_from fuel data next (note_record records pos next typ value)
          end
      end
  end.
Definition no_records : PqRecords := mkPqRecords None None None 0.
Definition parse_records (excess_data : bytes) : run PqRecords := parse_from (S (length excess_data)) excess_data 0 no_records.

(** ** Lemmas *)

Lemma write_bigsize_same x : write_bigsize x = bigsize_write x.
Proof. unfold write_bigsize, bigsize_write. destruct (Z.ltb_spec x 253), (Z.leb_spec x 252); (done || lia). Qed.

Lemma get_slice_app pre mid rest : get_slice (pre ++ mid ++ rest) (length pre) (length mid) = Some mid.
Proof.
  unfold get_slice. rewrite (proj2 (Nat.leb_le _ _)) by (rewrite !length_app; lia). f_equal.
  rewrite drop_app_length. apply take_app_length.
Qed.

Lemma read_bigsize_app pre x rest : fits 64 x ->
  read_bigsize (pre ++ write_bigsize x ++ rest) (length pre) = Some (x, length pre + length (write_bigsize x))%nat.
Proof.
  intros Hx. unfold fits in Hx. unfold read_bigsize.
  assert (forall b mid, (pre ++ (b :: mid) ++ rest) !! length pre = Some b) as Hfirst.
  { intros b mid. rewrite lookup_app_r by done. by rewrite Nat.sub_diag. }
  assert (forall b mid, get_slice (pre ++ (b :: mid) ++ rest) (S (length pre)) (length mid) = Some mid) as Hslice.
  { intros b mid. rewrite (app_assoc pre (b :: mid) rest). change (b :: mid) with ([b] ++ mid). rewrite (app_assoc pre [b] mid), <- app_assoc.
    replace (S (length pre)) with (length (pre ++ [b])) by (rewrite length_app; cbn; lia). apply get_slice_app. }
  unfold write_bigsize. destruct (Z.ltb_spec x 253); [|destruct (Z.leb_spec x 65535); [|destruct (Z.leb_spec x 4294967295)]]; rewrite Hfirst;
    cbn [mbind option_bind].
  - rewrite !(proj2 (Z.eqb_neq _ _)) by lia. cbn. f_equal. f_equal. lia.
  - cbn [Z.eqb Pos.eqb]. rewrite <- (to_be_length 2 x) at 2. rewrite Hslice. cbn [mbind option_bind]. rewrite from_to_be by (cbn; lia).
    cbn. do 2 f_equal. lia.
  - cbn [Z.eqb Pos.eqb]. rewrite <- (to_be_length 4 x) at 2. rewrite Hslice. cbn [mbind option_bind]. rewrite from_to_be by (cbn; lia).
    cbn. do 2 f_equal. lia.
  - cbn [Z.eqb Pos.eqb]. rewrite <- (to_be_length 8 x) at 2. rewrite Hslice. cbn [mbind option_bind]. rewrite from_to_be by (cbn; lia).
    cbn. do 2 f_equal. lia.
Qed.

(** A record as it is written. *)
Definition record_bytes (typ : Z) (value : bytes) : bytes := write_bigsize typ ++ write_bigsize (Z.of_nat (length value)) ++ value.
Definition stream_bytes (records : list (Z * bytes)) : bytes := mjoin (map (fun r => record_bytes r.1 r.2) records).

Lemma write_bigsize_length x : (1 <= length (write_bigsize x))%nat.
Proof. unfold write_bigsize. repeat case_match; cbn; lia. Qed.

Lemma record_bytes_length typ value : (2 + length value <= length (record_bytes typ value))%nat.
Proof.
  unfold record_bytes. rewrite !length_app. pose proof (write_bigsize_length typ). pose proof (write_bigsize_length (Z.of_nat (length value))). lia.
Qed.

Lemma parse_from_record fuel pre typ value rest records :
  fits 64 typ -> Z.of_nat (length (pre ++ record_bytes typ value ++ rest)) < 2 ^ 64 ->
  parse_from (S fuel) (pre ++ record_bytes typ value ++ rest) (length pre) records =
    parse_from fuel (pre ++ record_bytes typ value ++ rest) (length (pre ++ record_bytes typ value))
      (note_record records (length pre) (length (pre ++ record_bytes typ value)) typ value).
Proof.
  intros Htyp Hlen. set (data := pre ++ record_bytes typ value ++ rest). cbn [parse_from].
  pose proof (record_bytes_length typ value) as Hr.
  assert (length data = length pre + length (record_bytes typ value) + length rest)%nat as Hdata by (unfold data; rewrite !length_app; lia).
  rewrite (proj2 (Nat.leb_gt _ _)) by lia.
  assert (data = pre ++ write_bigsize typ ++ write_bigsize (Z.of_nat (length value)) ++ value ++ rest) as Hsplit
    by (unfold data, record_bytes; by rewrite <- !app_assoc).
  rewrite Hsplit at 1. rewrite read_bigsize_app by done.
  rewrite Hsplit at 1. rewrite (app_assoc pre), <- length_app.
  fold data in Hlen. rewrite read_bigsize_app by (unfold fits; lia).
  rewrite <- length_app. set (head := (pre ++ write_bigsize typ) ++ write_bigsize (Z.of_nat (length value))).
  assert (length head + length value = length (pre ++ record_bytes typ value))%nat as Hhead
    by (unfold head, record_bytes; rewrite !length_app; lia).
  assert (length (pre ++ record_bytes typ value) <= length data)%nat as Hle by (rewrite Hdata, length_app; lia).
  rewrite wrapping_small by (unfold fits; lia).
  rewrite (proj2 (Z.ltb_ge (Z.of_nat (length data)) _)) by lia. rewrite (proj2 (Z.ltb_ge _ (Z.of_nat (length head)))) by lia.
  rewrite <- Nat2Z.inj_add, !Nat2Z.id, Hhead. f_equal. f_equal.
  rewrite Hsplit, (app_assoc pre), (app_assoc (pre ++ _)). fold head. rewrite drop_app_length. apply take_app_length.
Qed.

Fixpoint note_all (records : PqRecords) (stream : list (Z * bytes)) : PqRecords :=
  match stream with
  | [] => records
  | (typ, value) :: stream => note_all (note_record records 0 (length (record_bytes typ value)) typ value) stream
  end.

Lemma stream_bytes_cons t v stream : stream_bytes ((t, v) :: stream) = record_bytes t v ++ stream_bytes stream.
Proof. done. Qed.
Lemma stream_bytes_length stream : (length stream <= length (stream_bytes stream))%nat.
Proof.
  induction stream as [|[t v] l IH]; [done|]. rewrite stream_bytes_cons, length_app. cbn [length].
  pose proof (record_bytes_length t v). lia.
Qed.

(** Records at the start are read one after the other. *)
Lemma parse_from_prefix stream pre rest records fuel :
  (length stream <= fuel)%nat -> Forall (fun r => fits 64 r.1) stream -> Z.of_nat (length (pre ++ stream_bytes stream ++ rest)) < 2 ^ 64 ->
  parse_from fuel (pre ++ stream_bytes stream ++ rest) (length pre) records =
    parse_from (fuel - length stream) (pre ++ stream_bytes stream ++ rest) (length (pre ++ stream_bytes stream)) (note_all records stream).
Proof.
  revert pre records fuel. induction stream as [|[t v] stream IH]; intros pre records fuel Hfuel Hfits Hlen.
  - change (stream_bytes []) with (@nil Z). by rewrite app_nil_r, Nat.sub_0_r.
  - destruct fuel as [|fuel]; [cbn in Hfuel; lia|]. apply Forall_cons in Hfits as [Ht Hfits]. cbn in Ht, Hfuel.
    rewrite stream_bytes_cons in *. rewrite <- (app_assoc (record_bytes t v)) in *. rewrite parse_from_record by done.
    rewrite (app_assoc pre (record_bytes t v)) in *. rewrite IH by (done || lia). rewrite (app_assoc pre (record_bytes t v)).
    cbn [note_all length Nat.sub]. f_equal. f_equal. unfold note_record. rewrite length_app. repeat case_match; f_equal; lia.
Qed.
Lemma parse_records_prefix stream rest :
  Forall (fun r => fits 64 r.1) stream -> Z.of_nat (length (stream_bytes stream ++ rest)) < 2 ^ 64 ->
  exists fuel, (length rest < fuel)%nat /\
    parse_records (stream_bytes stream ++ rest) = parse_from fuel (stream_bytes stream ++ rest) (length (stream_bytes stream)) (note_all no_records stream).
Proof.
  intros Hfits Hlen. pose proof (stream_bytes_length stream). exists (S (length (stream_bytes stream ++ rest)) - length stream)%nat.
  split; [rewrite length_app; lia|]. apply (parse_from_prefix stream [] rest); [rewrite length_app; lia|done|done].
Qed.
Lemma parse_records_stream stream :
  Forall (fun r => fits 64 r.1) stream -> Z.of_nat (length (stream_bytes stream)) < 2 ^ 64 ->
  parse_records (stream_bytes stream) = Return (note_all no_records stream).
Proof.
  intros Hfits Hlen. rewrite <- (app_nil_r (stream_bytes stream)) in *. destruct (parse_records_prefix stream [] Hfits Hlen) as ([|fuel] & Hf & ->); [lia|].
  cbn [parse_from]. by rewrite app_nil_r, (proj2 (Nat.leb_le _ _)).
Qed.

(** The rounds given to the loop are enough: more make no difference. *)
Lemma read_bigsize_advances data pos x pos' : read_bigsize data pos = Some (x, pos') -> (pos < pos')%nat.
Proof.
  unfold read_bigsize. destruct (data !! pos); [|done]. cbn [mbind option_bind].
  repeat (case_match; [destruct (get_slice _ _ _); [|done]; cbn [mbind option_bind]; intros [= _ <-]; lia|]). intros [= _ <-]. lia.
Qed.
Lemma parse_from_enough fuel fuel' data pos records :
  (length data < pos + fuel)%nat -> (length data < pos + fuel')%nat -> parse_from fuel data pos records = parse_from fuel' data pos records.
Proof.
  revert fuel' pos records. induction fuel as [|fuel IH]; intros fuel' pos records H1 H2.
  - destruct fuel' as [|fuel']; [done|]. cbn [parse_from]. by rewrite (proj2 (Nat.leb_le _ _)) by lia.
  - destruct fuel' as [|fuel']; cbn [parse_from]; [by rewrite (proj2 (Nat.leb_le _ _)) by lia|].
    destruct (_ <=? _)%nat; [done|].
    destruct (read_bigsize data pos) as [[typ pos1]|] eqn:Ht; [|done].
    destruct (read_bigsize data pos1) as [[len pos2]|] eqn:Hl; [|done].
    apply read_bigsize_advances in Ht, Hl. destruct (_ <? _); [done|]. destruct (_ <? _) eqn:Hs; [done|]. apply Z.ltb_ge in Hs.
    apply IH; lia.
Qed.

(** A record whose length makes the end of its value wrap: reading it panics. *)
Definition overlong_record : bytes := 1 :: write_bigsize (2 ^ 64 - 1).
Lemma overlong_record_panics stream :
  Forall (fun r => fits 64 r.1) stream -> Z.of_nat (length (stream_bytes stream ++ overlong_record)) < 2 ^ 64 ->
  parse_records (stream_bytes stream ++ overlong_record) = Panic.
Proof.
  intros Hfits Hlen. destruct (parse_records_prefix stream overlong_record Hfits Hlen) as ([|fuel] & Hf & ->); [lia|].
  set (pre := stream_bytes stream) in *. cbn [parse_from]. assert (length overlong_record = 10)%nat as H10 by done. rewrite length_app, H10 in *.
  rewrite (proj2 (Nat.leb_gt _ _)) by lia. change overlong_record with (write_bigsize 1 ++ write_bigsize (2 ^ 64 - 1) ++ []).
  rewrite read_bigsize_app by done. rewrite (app_assoc pre), <- length_app, read_bigsize_app by done.
  rewrite length_app. change (length (write_bigsize 1)) with 1%nat. change (length (write_bigsize (2 ^ 64 - 1))) with 9%nat.
  assert (wrapping 64 (Z.of_nat (length pre + 1 + 9) + (2 ^ 64 - 1)) = Z.of_nat (length pre) + 9) as ->.
  { unfold wrapping. replace (Z.of_nat (length pre + 1 + 9) + (2 ^ 64 - 1)) with (Z.of_nat (length pre) + 9 + 1 * 2 ^ 64) by lia.
    rewrite Z_mod_plus_full. apply Z.mod_small. lia. }
  rewrite (proj2 (Z.ltb_ge _ _)) by lia. by rewrite (proj2 (Z.ltb_lt _ _)) by lia.
Qed.

(** ** The signature and the records before it *)

Lemma note_record_cases records start pos typ value :
  (signature (note_record records start pos typ value) = signature records /\
   signature_record_len (note_record records start pos typ value) = signature_record_len records) \/
  (signature_record_len (note_record records start pos typ value) = pos - start /\
   pubkey (note_record records start pos typ value) = pubkey records /\ kem_key (note_record records start pos typ value) = kem_key records)%nat.
Proof. unfold note_record. repeat case_match; cbn; auto. Qed.

(** A signature that is found from a position on lies there, and when it takes all that is left no
    other record does. *)
Lemma parse_from_signature fuel data pos records records' :
  parse_from fuel data pos records = Return records' -> (pos <= length data)%nat ->
  (signature records' = signature records /\ signature_record_len records' = signature_record_len records) \/
  (signature_record_len records' <= length data - pos /\
   (signature_record_len records' = length data - pos -> pubkey records' = pubkey records /\ kem_key records' = kem_key records))%nat.
Proof.
  revert pos records. induction fuel as [|fuel IH]; intros pos records; cbn [parse_from]; [intros [= <-]; by left|].
  destruct (Nat.leb_spec (length data) pos); [intros [= <-]; by left|].
  destruct (read_bigsize data pos) as [[typ pos1]|] eqn:Ht; [|intros [= <-]; by left].
  destruct (read_bigsize data pos1) as [[len pos2]|] eqn:Hl; [|intros [= <-]; by left]. apply read_bigsize_advances in Ht, Hl.
  set (stop := wrapping 64 (Z.of_nat pos2 + len)). destruct (Z.ltb_spec (Z.of_nat (length data)) stop); [intros [= <-]; by left|].
  destruct (Z.ltb_spec stop (Z.of_nat pos2)); [done|]. set (next := Z.to_nat stop). intros Hp Hpos.
  assert (pos < next <= length data)%nat as Hnext by lia. set (value := take _ _) in Hp.
  destruct (note_record_cases records pos next typ value) as [[Hs Hn]|(Hn & Hk & He)].
  - apply IH in Hp as [[-> ->]|[Hle _]]; [left; by rewrite Hs, Hn|right; split; lia|lia].
  - right. destruct (Nat.eq_dec next (length data)) as [Hend|Hend].
    + destruct fuel as [|fuel]; cbn [parse_from] in Hp; [|rewrite (proj2 (Nat.leb_le _ _)) in Hp by lia]; injection Hp as <-; rewrite Hn; split; (done || lia).
    + apply IH in Hp as [[_ ->]|[Hle _]]; [rewrite Hn; split; lia|split; lia|lia].
Qed.

(** When the bytes before the last record are records themselves, none a signature, the keys are
    theirs. *)
Lemma signed_records stream excess records sig :
  parse_records excess = Return records -> signature records = Some sig ->
  take (length excess - signature_record_len records) excess = stream_bytes stream ->
  Forall (fun r => fits 64 r.1) stream -> signature (note_all no_records stream) = None -> Z.of_nat (length excess) < 2 ^ 64 ->
  pubkey records = pubkey (note_all no_records stream) /\ kem_key records = kem_key (note_all no_records stream).
Proof.
  intros Hp Hsig Htake Hfits Hnone Hlen.
  assert (signature_record_len records <= length excess)%nat as Hle.
  { unfold parse_records in Hp. apply parse_from_signature in Hp as [[E _]|[? _]]; [by rewrite Hsig in E|lia|lia]. }
  rewrite <- (take_drop (length excess - signature_record_len records) excess), Htake in Hp, Hlen.
  destruct (parse_records_prefix stream _ Hfits Hlen) as (fuel & _ & E). rewrite E in Hp.
  apply parse_from_signature in Hp as [[E' _]|[_ Heq]]; [congruence| |rewrite length_app; lia].
  apply Heq. rewrite length_app, length_drop. lia.
Qed.
