(* ===== verification/Gossip.v ===== *)
(** * The network graph (lightning/src/routing/gossip.rs, lightning/src/ln/msgs.rs)

    What a node learns of the network from gossip: the messages and their
    encodings, the checks of their signatures, classical and post-quantum, and the graph
    of channels and nodes they change. *)

From Stdlib Require Import ZArith Lia Bool.
From stdpp Require Import strings gmap.
From S2P Require Import Prelude.
From S2P Require Import Features.
From S2P Require Import Keys.
From S2P Require Import Order.
From S2P Require Import Scripts.
From S2P Require Import Channel.
From S2P Require Import Ser.
From S2P Require Import Onion.
From S2P Require Import OnionPayload.
From S2P Require Import PqSign.

Local Open Scope Z_scope.

(** ** Messages *)

Inductive SocketAddress : Type :=
| TcpIpV4 (addr : bytes) (port : Z)
| TcpIpV6 (addr : bytes) (port : Z)
| OnionV2 (bytes : bytes)
| OnionV3 (ed25519_pubkey : bytes) (checksum version port : Z)
| HostnameAddress (hostname : bytes) (port : Z).

Definition address_len (self : SocketAddress) : Z :=
  match self with
  | TcpIpV4 _ _ => 6
  | TcpIpV6 _ _ => 18
  | OnionV2 _ => 12
  | OnionV3 _ _ _ _ => 37
  | HostnameAddress hostname _ => Z.of_nat (length hostname) + 3
  end.
Definition address_write (self : SocketAddress) : bytes :=
  match self with
  | TcpIpV4 addr port => 1 :: addr ++ to_be 2 port
  | TcpIpV6 addr port => 2 :: addr ++ to_be 2 port
  | OnionV2 bytes => 3 :: bytes
  | OnionV3 key checksum version port => 4 :: key ++ to_be 2 checksum ++ [version] ++ to_be 2 port
  | HostnameAddress hostname port => 5 :: Z.of_nat (length hostname) :: hostname ++ to_be 2 port
  end.

Record UnsignedNodeAnnouncement : Type := mkUnsignedNodeAnnouncement {
  na_features : Features NodeContext;
  na_timestamp : Z;
  na_node_id : bytes;
  na_rgb : bytes;
  na_alias : bytes;
  na_addresses : list SocketAddress;
  na_excess_address_data : bytes;
  na_excess_data : bytes;
}.
Definition node_announcement_write (self : UnsignedNodeAnnouncement) : bytes :=
  let addr_len := foldl (fun acc addr => wrapping 16 (acc + (1 + address_len addr))) 0 (na_addresses self) in
  features_write (na_features self) ++ to_be 4 (na_timestamp self) ++ na_node_id self ++ na_rgb self ++ na_alias self ++
  to_be 2 (wrapping 16 (addr_len + Z.of_nat (length (na_excess_address_data self)))) ++
  mjoin (map address_write (na_addresses self)) ++ na_excess_address_data self ++ na_excess_data self.
Definition with_na_excess_data (excess : bytes) (m : UnsignedNodeAnnouncement) : UnsignedNodeAnnouncement :=
  mkUnsignedNodeAnnouncement (na_features m) (na_timestamp m) (na_node_id m) (na_rgb m) (na_alias m) (na_addresses m)
    (na_excess_address_data m) excess.

Record UnsignedChannelUpdate : Type := mkUnsignedChannelUpdate {
  cu_chain_hash : bytes;
  cu_short_channel_id : Z;
  cu_timestamp : Z;
  cu_message_flags : Z;
  cu_channel_flags : Z;
  cu_cltv_expiry_delta : Z;
  cu_htlc_minimum_msat : Z;
  cu_htlc_maximum_msat : Z;
  cu_fee_base_msat : Z;
  cu_fee_proportional_millionths : Z;
  cu_excess_data : bytes;
}.
Definition channel_update_write (self : UnsignedChannelUpdate) : bytes :=
  cu_chain_hash self ++ to_be 8 (cu_short_channel_id self) ++ to_be 4 (cu_timestamp self) ++
  [Z.lor (cu_message_flags self) 1; cu_channel_flags self] ++ to_be 2 (cu_cltv_expiry_delta self) ++
  to_be 8 (cu_htlc_minimum_msat self) ++ to_be 4 (cu_fee_base_msat self) ++ to_be 4 (cu_fee_proportional_millionths self) ++
  to_be 8 (cu_htlc_maximum_msat self) ++ cu_excess_data self.
Definition with_cu_excess_data (excess : bytes) (m : UnsignedChannelUpdate) : UnsignedChannelUpdate :=
  mkUnsignedChannelUpdate (cu_chain_hash m) (cu_short_channel_id m) (cu_timestamp m) (cu_message_flags m) (cu_channel_flags m)
    (cu_cltv_expiry_delta m) (cu_htlc_minimum_msat m) (cu_htlc_maximum_msat m) (cu_fee_base_msat m)
    (cu_fee_proportional_millionths m) excess.

Record UnsignedChannelAnnouncement : Type := mkUnsignedChannelAnnouncement {
  ca_features : Features Features.ChannelContext;
  ca_chain_hash : bytes;
  ca_short_channel_id : Z;
  ca_node_id_1 : bytes;
  ca_node_id_2 : bytes;
  ca_bitcoin_key_1 : bytes;
  ca_bitcoin_key_2 : bytes;
  ca_excess_data : bytes;
}.
Definition channel_announcement_write (self : UnsignedChannelAnnouncement) : bytes :=
  features_write (ca_features self) ++ ca_chain_hash self ++ to_be 8 (ca_short_channel_id self) ++ ca_node_id_1 self ++
  ca_node_id_2 self ++ ca_bitcoin_key_1 self ++ ca_bitcoin_key_2 self ++ ca_excess_data self.

Definition MAX_EXCESS_BYTES_FOR_RELAY : Z := 8192.
Definition STALE_CHANNEL_UPDATE_AGE_LIMIT_SECS : Z := 60 * 60 * 24 * 14.
Definition REMOVED_ENTRIES_TRACKING_AGE_LIMIT_SECS : Z := 60 * 60 * 24 * 7.

(** The order in which the [HashSet] of the channels to remove is gone through. *)
Class SetIter := { set_entries : gset Z -> list Z }.
Class SetIterLaws `{SetIter} : Prop := { set_entries_perm s : set_entries s ≡ₚ elements s }.

(** Why a message is refused. *)
Inductive GossipError : Type :=
| InvalidSignature | InvalidPublicKey | HalfPresentRecords | InvalidPqSignature | SameTimestamp | OlderUpdate
| NoChannelsForNode | AwaitingValidation | PqKeyMismatch | PqKeyMissing | KemKeyMismatch | KemKeyMissing | PqSignatureMissing
| WrongChain | UpdateTooOld | UpdateInFuture | HtlcMaximumTooLarge | CapacityBogus | ChannelNotFound | NodeKeyInvalid
| NodesNotSorted | AlreadyValidated | AlreadyUnvalidated | ChannelWithItself | RecentlyRemoved | UtxoRefused | AlreadyKnown | DontForward.

Section gossip.
Context {bitcoin : Bitcoin} {crypto : OnionCrypto} {scriptlib : ScriptLib} {ecdsa : EcdsaLib} {mldsa : MlDsa} {set_iter : SetIter}.

Record NodeAnnouncement : Type := mkNodeAnnouncement { na_signature : Signature; na_contents : UnsignedNodeAnnouncement }.
Record ChannelUpdate : Type := mkChannelUpdate { cu_signature : Signature; cu_contents : UnsignedChannelUpdate }.
Record ChannelAnnouncement : Type := mkChannelAnnouncement {
  node_signature_1 : Signature;
  node_signature_2 : Signature;
  bitcoin_signature_1 : Signature;
  bitcoin_signature_2 : Signature;
  ca_contents : UnsignedChannelAnnouncement;
}.

(** ** Signatures *)

Definition message_sha256d_hash (encoded : bytes) : bytes := sha256 (sha256 encoded).

(** A signature by the node or key with this encoding. *)
Definition check_signature (encoded key : bytes) (sig : Signature) : result GossipError unit :=
  match public_from_slice key with
  | None => Err InvalidPublicKey
  | Some pubkey => if verify_ecdsa (message_sha256d_hash encoded) sig pubkey then Ok tt else Err InvalidSignature
  end.

(** [truncate] of the excess data to what the ML-DSA signature covers *)
Definition signed_excess (excess : bytes) (records : PqRecords) : bytes := take (length excess - signature_record_len records) excess.

Definition check_pq_announcement (contents : UnsignedNodeAnnouncement) : run (result GossipError unit) :=
  records ← parse_records (na_excess_data contents);
  mret
    (if negb (Bool.eqb (is_some (pubkey records)) (is_some (signature records))) ||
        (is_some (kem_key records) && negb (is_some (signature records)))
     then Err HalfPresentRecords
     else match pubkey records, signature records with
     | Some pq_pubkey, Some pq_sig =>
         let unsigned := with_na_excess_data (signed_excess (na_excess_data contents) records) contents in
         if pq_verify pq_pubkey (node_announcement_write unsigned) pq_sig PQ_CONTEXT_GOSSIP then Ok tt else Err InvalidPqSignature
     | _, _ => Ok tt
     end).

Definition verify_node_announcement (msg : NodeAnnouncement) : run (result GossipError unit) :=
  match check_signature (node_announcement_write (na_contents msg)) (na_node_id (na_contents msg)) (na_signature msg) with
  | Err e => mret (Err e)
  | Ok _ => check_pq_announcement (na_contents msg)
  end.

Definition verify_channel_announcement (msg : ChannelAnnouncement) : result GossipError unit :=
  let encoded := channel_announcement_write (ca_contents msg) in
  _ ← check_signature encoded (ca_node_id_1 (ca_contents msg)) (node_signature_1 msg);
  _ ← check_signature encoded (ca_node_id_2 (ca_contents msg)) (node_signature_2 msg);
  _ ← check_signature encoded (ca_bitcoin_key_1 (ca_contents msg)) (bitcoin_signature_1 msg);
  check_signature encoded (ca_bitcoin_key_2 (ca_contents msg)) (bitcoin_signature_2 msg).

(** ** The graph *)

Record ChannelUpdateInfo : Type := mkChannelUpdateInfo {
  info_htlc_minimum_msat : Z;
  info_htlc_maximum_msat : Z;
  info_fee_base_msat : Z;
  info_fee_proportional_millionths : Z;
  last_update : Z;
  info_cltv_expiry_delta : Z;
  enabled : bool;
  last_update_message : option ChannelUpdate;
}.
Record ChannelInfo : Type := mkChannelInfo {
  channel_features : Features Features.ChannelContext;
  node_one : bytes;
  node_two : bytes;
  node_one_counter : Z;
  node_two_counter : Z;
  capacity_sats : option Z;
  one_to_two : option ChannelUpdateInfo;
  two_to_one : option ChannelUpdateInfo;
  announcement_message : option ChannelAnnouncement;
  announcement_received_time : Z;
}.
Definition with_counters (one two : Z) (c : ChannelInfo) : ChannelInfo :=
  mkChannelInfo (channel_features c) (node_one c) (node_two c) one two (capacity_sats c) (one_to_two c) (two_to_one c)
    (announcement_message c) (announcement_received_time c).
Definition with_directions (one_two two_one : option ChannelUpdateInfo) (c : ChannelInfo) : ChannelInfo :=
  mkChannelInfo (channel_features c) (node_one c) (node_two c) (node_one_counter c) (node_two_counter c) (capacity_sats c)
    one_two two_one (announcement_message c) (announcement_received_time c).

Record NodeAnnouncementDetails : Type := mkDetails {
  details_features : Features NodeContext;
  details_last_update : Z;
  details_rgb : bytes;
  details_alias : bytes;
  details_addresses : list SocketAddress;
}.
Inductive NodeAnnouncementInfo : Type := Relayed (msg : NodeAnnouncement) | LocalInfo (details : NodeAnnouncementDetails).
Definition info_last_update (self : NodeAnnouncementInfo) : Z :=
  match self with Relayed msg => na_timestamp (na_contents msg) | LocalInfo details => details_last_update details end.

Record NodeInfo : Type := mkNodeInfo {
  node_channels : list Z;
  announcement_info : option NodeAnnouncementInfo;
  pq_node_id : option bytes;
  pq_kem_node_id : option bytes;
  node_counter : Z;
}.
Definition with_node_channels (l : list Z) (n : NodeInfo) : NodeInfo :=
  mkNodeInfo l (announcement_info n) (pq_node_id n) (pq_kem_node_id n) (node_counter n).

(** [NetworkGraph]; the counters of removed nodes are reused, the last removed first. *)
Record NetworkGraph : Type := mkNetworkGraph {
  graph_chain_hash : bytes;
  channels : gmap Z ChannelInfo;
  nodes : gmap bytes NodeInfo;
  removed_node_counters : list Z;
  next_node_counter : Z;
  removed_channels : gmap Z (option Z);
  removed_nodes : gmap bytes (option Z);
}.
Definition network_graph_new (chain_hash : bytes) : NetworkGraph := mkNetworkGraph chain_hash ∅ ∅ [] 0 ∅ ∅.
Definition with_channels (m : gmap Z ChannelInfo) (g : NetworkGraph) : NetworkGraph :=
  mkNetworkGraph (graph_chain_hash g) m (nodes g) (removed_node_counters g) (next_node_counter g) (removed_channels g) (removed_nodes g).
Definition with_nodes (m : gmap bytes NodeInfo) (g : NetworkGraph) : NetworkGraph :=
  mkNetworkGraph (graph_chain_hash g) (channels g) m (removed_node_counters g) (next_node_counter g) (removed_channels g) (removed_nodes g).
Definition with_node_counters (removed : list Z) (next : Z) (g : NetworkGraph) : NetworkGraph :=
  mkNetworkGraph (graph_chain_hash g) (channels g) (nodes g) removed next (removed_channels g) (removed_nodes g).
Definition with_removed (chans : gmap Z (option Z)) (ns : gmap bytes (option Z)) (g : NetworkGraph) : NetworkGraph :=
  mkNetworkGraph (graph_chain_hash g) (channels g) (nodes g) (removed_node_counters g) (next_node_counter g) chans ns.

(** ** Node announcements *)

Definition should_relay (excess_data excess_address_data : bytes) : bool :=
  (Z.of_nat (length excess_data) <=? MAX_EXCESS_BYTES_FOR_RELAY) && (Z.of_nat (length excess_address_data) <=? MAX_EXCESS_BYTES_FOR_RELAY) &&
  (Z.of_nat (length excess_data + length excess_address_data) <=? MAX_EXCESS_BYTES_FOR_RELAY).

(** The checks of the keys of a node against those pinned, and the pins afterwards. *)
Definition check_pin (pinned key : option bytes) (mismatch missing : GossipError) : result GossipError unit :=
  match pinned, key with
  | Some pinned, Some new_key => if negb (bool_decide (pinned = new_key)) then Err mismatch else Ok tt
  | Some _, None => Err missing
  | None, _ => Ok tt
  end.
Definition pin (pinned key : option bytes) : option bytes := match pinned with Some _ => pinned | None => key end.
Definition pin_keys (node : NodeInfo) (records : PqRecords) : result GossipError NodeInfo :=
  _ ← check_pin (pq_node_id node) (pubkey records) PqKeyMismatch PqKeyMissing;
  _ ← check_pin (pq_kem_node_id node) (kem_key records) KemKeyMismatch KemKeyMissing;
  if (is_some (pq_node_id node) || is_some (pubkey records)) && negb (is_some (signature records)) then Err PqSignatureMissing
  else Ok (mkNodeInfo (node_channels node) (announcement_info node) (pin (pq_node_id node) (pubkey records))
             (pin (pq_kem_node_id node) (kem_key records)) (node_counter node)).

(** [held]: the announcement waits for the validation of a channel (utxo.rs). *)
Definition update_node_from_announcement_intern (msg : UnsignedNodeAnnouncement) (full_msg : option NodeAnnouncement) (held : bool)
    (g : NetworkGraph) : run (NetworkGraph * result GossipError unit) :=
  match nodes g !! na_node_id msg with
  | None => mret (g, Err (if held then AwaitingValidation else NoChannelsForNode))
  | Some node =>
      let seen := info_last_update <$> announcement_info node in
      if match seen with Some t => na_timestamp msg <? t | None => false end then mret (g, Err OlderUpdate)
      else if bool_decide (seen = Some (na_timestamp msg)) then mret (g, Err SameTimestamp)
      else
        pinned ← match full_msg with
                 | Some _ => records ← parse_records (na_excess_data msg); mret (pin_keys node records)
                 | None => mret (Ok node)
                 end;
        match pinned with
        | Err e => mret (g, Err e)
        | Ok node =>
            let info := match full_msg, should_relay (na_excess_data msg) (na_excess_address_data msg) with
                        | Some signed, true => Relayed signed
                        | _, _ => LocalInfo (mkDetails (na_features msg) (na_timestamp msg) (na_rgb msg) (na_alias msg) (na_addresses msg))
                        end in
            let node := mkNodeInfo (node_channels node) (Some info) (pq_node_id node) (pq_kem_node_id node) (node_counter node) in
            mret (with_nodes (<[na_node_id msg := node]> (nodes g)) g, Ok tt)
        end
  end.

Definition update_node_from_announcement (msg : NodeAnnouncement) (held : bool) (g : NetworkGraph)
    : run (NetworkGraph * result GossipError unit) :=
  let seen := nodes g !! na_node_id (na_contents msg) ≫= fun node => info_last_update <$> announcement_info node in
  if bool_decide (seen = Some (na_timestamp (na_contents msg))) then mret (g, Err SameTimestamp)
  else
    verified ← verify_node_announcement msg;
    match verified with
    | Err e => mret (g, Err e)
    | Ok _ => update_node_from_announcement_intern (na_contents msg) (Some msg) held g
    end.
Definition update_node_from_unsigned_announcement (msg : UnsignedNodeAnnouncement) (held : bool) (g : NetworkGraph)
    : run (NetworkGraph * result GossipError unit) := update_node_from_announcement_intern msg None held g.

(** ** Channels and their nodes *)

(** A node without the channel; with its last channel it is removed, and its counter kept for
    another. *)
Definition shrink_node (scid : Z) (id : bytes) (node : NodeInfo) (st : gmap bytes NodeInfo * list Z) : gmap bytes NodeInfo * list Z :=
  let left := List.filter (fun chan_id => negb (scid =? chan_id)) (node_channels node) in
  if bool_decide (left = []) then (delete id st.1, node_counter node :: st.2)
  else (<[id := with_node_channels left node]> st.1, st.2).

(** [remove_from_node!]: a node that is not in the graph is a panic. *)
Definition drop_from_node (scid : Z) (id : bytes) (st : gmap bytes NodeInfo * list Z) : run (gmap bytes NodeInfo * list Z) :=
  node ← unwrap (st.1 !! id); mret (shrink_node scid id node st).
Definition remove_channel_in_nodes (chan : ChannelInfo) (scid : Z) (g : NetworkGraph) : run NetworkGraph :=
  st ← drop_from_node scid (node_one chan) (nodes g, removed_node_counters g);
  '(ns, counters) ← drop_from_node scid (node_two chan) st;
  mret (with_node_counters counters (next_node_counter g) (with_nodes ns g)).

(** A node gets one more channel; a new node takes a counter that was given back, or the next
    one. *)
Definition add_to_node (scid : Z) (id : bytes) (g : NetworkGraph) : NetworkGraph * Z :=
  match nodes g !! id with
  | Some node => (with_nodes (<[id := with_node_channels (node_channels node ++ [scid]) node]> (nodes g)) g, node_counter node)
  | None =>
      let '(counter, removed, next) :=
        match removed_node_counters g with
        | counter :: removed => (counter, removed, next_node_counter g)
        | [] => (wrapping 32 (next_node_counter g), [], next_node_counter g + 1)
        end in
      (with_node_counters removed next (with_nodes (<[id := mkNodeInfo [scid] None None None counter]> (nodes g)) g), counter)
  end.

Definition put_channel (scid : Z) (channel_info : ChannelInfo) (g : NetworkGraph) : NetworkGraph :=
  let '(g, one) := add_to_node scid (node_one channel_info) g in
  let '(g, two) := add_to_node scid (node_two channel_info) g in
  with_channels (<[scid := with_counters one two channel_info]> (channels g)) g.
Definition add_channel_between_nodes (scid : Z) (channel_info : ChannelInfo) (utxo_value : option Z) (g : NetworkGraph)
    : run (NetworkGraph * result GossipError unit) :=
  match channels g !! scid with
  | None => mret (put_channel scid channel_info g, Ok tt)
  | Some known =>
      if is_some utxo_value then g ← remove_channel_in_nodes known scid g; mret (put_channel scid channel_info g, Ok tt)
      else mret (g, Err AlreadyKnown)
  end.

Definition nodes_sorted (id_1 id_2 : bytes) : bool := match slice_cmp id_1 id_2 with Lt => true | _ => false end.

(** From rapid gossip sync. *)
Definition add_channel_from_partial_announcement (scid : Z) (capacity : option Z) (timestamp : Z)
    (features : Features Features.ChannelContext) (node_id_1 node_id_2 : bytes) (g : NetworkGraph) : run (NetworkGraph * result GossipError unit) :=
  if negb (nodes_sorted node_id_1 node_id_2) then mret (g, Err NodesNotSorted)
  else add_channel_between_nodes scid
         (mkChannelInfo features node_id_1 node_id_2 (umax 32) (umax 32) capacity None None None timestamp) None g.

(** [utxo]: what the lookup of the funding output comes to (utxo.rs); [lookup]: whether there
    is one. *)
Definition pre_channel_announcement_validation_check (msg : UnsignedChannelAnnouncement) (lookup : bool) (g : NetworkGraph)
    : result GossipError unit :=
  if negb (nodes_sorted (ca_node_id_1 msg) (ca_node_id_2 msg)) then Err NodesNotSorted
  else match channels g !! ca_short_channel_id msg with
  | None => Ok tt
  | Some chan =>
      if is_some (capacity_sats chan) then
        if bool_decide (ca_node_id_1 msg = node_one chan) && bool_decide (ca_node_id_2 msg = node_two chan) then Err AlreadyValidated else Ok tt
      else if lookup then Ok tt else Err AlreadyUnvalidated
  end.
Definition update_channel_from_unsigned_announcement_intern (msg : UnsignedChannelAnnouncement) (full_msg : option ChannelAnnouncement)
    (utxo : result GossipError (option Z)) (now : Z) (g : NetworkGraph) : run (NetworkGraph * result GossipError unit) :=
  if bool_decide (ca_node_id_1 msg = ca_node_id_2 msg) || bool_decide (ca_bitcoin_key_1 msg = ca_bitcoin_key_2 msg)
  then mret (g, Err ChannelWithItself)
  else if negb (bool_decide (ca_chain_hash msg = graph_chain_hash g)) then mret (g, Err WrongChain)
  else if is_some (removed_channels g !! ca_short_channel_id msg) || is_some (removed_nodes g !! ca_node_id_1 msg) ||
          is_some (removed_nodes g !! ca_node_id_2 msg)
  then mret (g, Err RecentlyRemoved)
  else match utxo with
  | Err e => mret (g, Err e)
  | Ok utxo_value =>
      let announcement := if Z.of_nat (length (ca_excess_data msg)) <=? MAX_EXCESS_BYTES_FOR_RELAY then full_msg else None in
      add_channel_between_nodes (ca_short_channel_id msg)
        (mkChannelInfo (ca_features msg) (ca_node_id_1 msg) (ca_node_id_2 msg) (umax 32) (umax 32) utxo_value None None announcement now)
        utxo_value g
  end.
Definition update_channel_from_announcement (msg : ChannelAnnouncement) (lookup : bool) (utxo : result GossipError (option Z)) (now : Z)
    (g : NetworkGraph) : run (NetworkGraph * result GossipError unit) :=
  match pre_channel_announcement_validation_check (ca_contents msg) lookup g with
  | Err e => mret (g, Err e)
  | Ok _ =>
      match verify_channel_announcement msg with
      | Err e => mret (g, Err e)
      | Ok _ => update_channel_from_unsigned_announcement_intern (ca_contents msg) (Some msg) utxo now g
      end
  end.
Definition update_channel_from_unsigned_announcement (msg : UnsignedChannelAnnouncement) (lookup : bool)
    (utxo : result GossipError (option Z)) (now : Z) (g : NetworkGraph) : run (NetworkGraph * result GossipError unit) :=
  match pre_channel_announcement_validation_check msg lookup g with
  | Err e => mret (g, Err e)
  | Ok _ => update_channel_from_unsigned_announcement_intern msg None utxo now g
  end.

(** ** Channel updates *)

Definition from_node_two (msg : UnsignedChannelUpdate) : bool := Z.land (cu_channel_flags msg) 1 =? 1.

Definition check_update_latest (msg : UnsignedChannelUpdate) (target : option ChannelUpdateInfo) : result GossipError unit :=
  match target with
  | None => Ok tt
  | Some info =>
      if cu_timestamp msg <? last_update info then Err OlderUpdate
      else if last_update info =? cu_timestamp msg then Err SameTimestamp else Ok tt
  end.
Definition check_msg_sanity (msg : UnsignedChannelUpdate) (channel : ChannelInfo) : result GossipError unit :=
  let bogus := match capacity_sats channel with
               | Some capacity => (MAX_VALUE_MSAT / 1000 <? capacity) || ((capacity * 1000)%u64 <? cu_htlc_maximum_msat msg)
               | None => false
               end in
  if bogus then Err CapacityBogus
  else check_update_latest msg (if from_node_two msg then two_to_one channel else one_to_two channel).

(** The ML-DSA signature of an update, when the key of its node is pinned. *)
Definition check_pq_update (msg : UnsignedChannelUpdate) (node_pubkey : PublicKey) (g : NetworkGraph) : run (result GossipError unit) :=
  match nodes g !! serialize node_pubkey ≫= pq_node_id with
  | None => mret (Ok tt)
  | Some pinned_key =>
      records ← parse_records (cu_excess_data msg);
      mret match signature records with
      | None => Err PqSignatureMissing
      | Some pq_sig =>
          let unsigned := with_cu_excess_data (signed_excess (cu_excess_data msg) records) msg in
          if pq_verify pinned_key (channel_update_write unsigned) pq_sig PQ_CONTEXT_GOSSIP then Ok tt else Err InvalidPqSignature
      end
  end.

(** [now] is the time of the system. *)
Definition check_update_message (msg : UnsignedChannelUpdate) (now : Z) (g : NetworkGraph) : result GossipError unit :=
  if negb (bool_decide (cu_chain_hash msg = graph_chain_hash g)) then Err WrongChain
  else if cu_timestamp msg <? wrapping 64 (now - STALE_CHANNEL_UPDATE_AGE_LIMIT_SECS) then Err UpdateTooOld
  else if wrapping 64 (now + 60 * 60 * 24) <? cu_timestamp msg then Err UpdateInFuture
  else if MAX_VALUE_MSAT <? cu_htlc_maximum_msat msg then Err HtlcMaximumTooLarge else Ok tt.

Definition check_update_signatures (msg : UnsignedChannelUpdate) (sig : option Signature) (channel : ChannelInfo) (g : NetworkGraph)
    : run (result GossipError unit) :=
  match sig with
  | None => mret (Ok tt)
  | Some sig =>
      match public_from_slice (if from_node_two msg then node_two channel else node_one channel) with
      | None => mret (Err NodeKeyInvalid)
      | Some node_pubkey =>
          if negb (verify_ecdsa (message_sha256d_hash (channel_update_write msg)) sig node_pubkey) then mret (Err InvalidSignature)
          else check_pq_update msg node_pubkey g
      end
  end.

Definition update_channel_internal (msg : UnsignedChannelUpdate) (full_msg : option ChannelUpdate) (sig : option Signature)
    (only_verify held : bool) (now : Z) (g : NetworkGraph) : run (NetworkGraph * result GossipError (option (bytes * bytes))) :=
  match check_update_message msg now g with
  | Err e => mret (g, Err e)
  | Ok _ =>
      match channels g !! cu_short_channel_id msg with
      | None => mret (g, Err (if held then AwaitingValidation else ChannelNotFound))
      | Some channel =>
          match check_msg_sanity msg channel with
          | Err e => mret (g, Err e)
          | Ok _ =>
              verified ← check_update_signatures msg sig channel g;
              match verified with
              | Err e => mret (g, Err e)
              | Ok _ =>
                  if only_verify : bool then mret (g, Ok None)
                  else
                    let message := if Z.of_nat (length (cu_excess_data msg)) <=? MAX_EXCESS_BYTES_FOR_RELAY then full_msg else None in
                    let info := Some (mkChannelUpdateInfo (cu_htlc_minimum_msat msg) (cu_htlc_maximum_msat msg) (cu_fee_base_msat msg)
                                        (cu_fee_proportional_millionths msg) (cu_timestamp msg) (cu_cltv_expiry_delta msg)
                                        (negb (Z.land (cu_channel_flags msg) 2 =? 2)) message) in
                    let channel := if from_node_two msg then with_directions (one_to_two channel) info channel
                                   else with_directions info (two_to_one channel) channel in
                    mret (with_channels (<[cu_short_channel_id msg := channel]> (channels g)) g, Ok (Some (node_one channel, node_two channel)))
              end
          end
      end
  end.
Definition update_channel (msg : ChannelUpdate) (held : bool) (now : Z) (g : NetworkGraph) :=
  update_channel_internal (cu_contents msg) (Some msg) (Some (cu_signature msg)) false held now g.
Definition update_channel_unsigned (msg : UnsignedChannelUpdate) (held : bool) (now : Z) (g : NetworkGraph) :=
  update_channel_internal msg None None false held now g.
Definition verify_channel_update (msg : ChannelUpdate) (held : bool) (now : Z) (g : NetworkGraph) :=
  update_channel_internal (cu_contents msg) (Some msg) (Some (cu_signature msg)) true held now g.

(** ** Removal *)

Definition channel_failed_permanent_with_time (scid : Z) (now : option Z) (g : NetworkGraph) : run NetworkGraph :=
  match channels g !! scid with
  | None => mret g
  | Some chan =>
      remove_channel_in_nodes chan scid
        (with_removed (<[scid := now]> (removed_channels g)) (removed_nodes g) (with_channels (delete scid (channels g)) g))
  end.

(** One of the channels of a node that failed. *)
Definition fail_channel_of (id : bytes) (now : option Z) (scid : Z) (g : NetworkGraph) : NetworkGraph :=
  match channels g !! scid with
  | None => g
  | Some chan_info =>
      let other_node_id := if bool_decide (id = node_one chan_info) then node_two chan_info else node_one chan_info in
      let st := (nodes g, removed_node_counters g) in
      let '(ns, counters) := match nodes g !! other_node_id with Some node => shrink_node scid other_node_id node st | None => st end in
      with_removed (<[scid := now]> (removed_channels g)) (removed_nodes g)
        (with_node_counters counters (next_node_counter g) (with_nodes ns (with_channels (delete scid (channels g)) g)))
  end.
Definition node_failed_permanent (node_id : PublicKey) (now : option Z) (g : NetworkGraph) : NetworkGraph :=
  let id := serialize node_id in
  match nodes g !! id with
  | None => g
  | Some node =>
      let g := foldl (fun g scid => fail_channel_of id now scid g) (with_nodes (delete id (nodes g)) g) (node_channels node) in
      with_removed (removed_channels g) (<[id := now]> (removed_nodes g))
        (with_node_counters (node_counter node :: removed_node_counters g) (next_node_counter g) g)
  end.

(** The directions of a channel updated since [min]. *)
Definition drop_stale_directions (min : Z) (info : ChannelInfo) : ChannelInfo :=
  let keep direction := match direction with Some update => if last_update update <? min then None else direction | None => None end in
  with_directions (keep (one_to_two info)) (keep (two_to_one info)) info.
Definition channel_stale (min : Z) (info : ChannelInfo) : bool :=
  (negb (is_some (one_to_two info)) || negb (is_some (two_to_one info))) && (announcement_received_time info <? min).

(** [IndexedMap::remove_fetch_bulk] and [remove_bulk] *)
Definition remove_bulk {K A} `{Countable K} (keys : list K) (m : gmap K A) : gmap K A := foldl (fun m k => delete k m) m keys.
Definition fetch_bulk {A} (keys : list Z) (m : gmap Z A) : list (Z * A) := omap (fun k => pair k <$> m !! k) keys.

(** [remove_channel_in_nodes_callback] with the nodes to remove put aside, for one of the nodes of
    a channel and for each of the channels. *)
Definition set_aside (scid : Z) (id : bytes) (st : gmap bytes NodeInfo * list Z * list bytes) : run (gmap bytes NodeInfo * list Z * list bytes) :=
  let '(ns, counters, nodes_to_remove) := st in
  node ← unwrap (ns !! id);
  let left := List.filter (fun chan_id => negb (scid =? chan_id)) (node_channels node) in
  let ns := <[id := with_node_channels left node]> ns in
  mret (if bool_decide (left = []) then (ns, node_counter node :: counters, id :: nodes_to_remove) else (ns, counters, nodes_to_remove)).
Fixpoint set_aside_all (bulk : list (Z * ChannelInfo)) (st : gmap bytes NodeInfo * list Z * list bytes)
    : run (gmap bytes NodeInfo * list Z * list bytes) :=
  match bulk with
  | [] => mret st
  | (scid, info) :: bulk => st ← set_aside scid (node_one info) st; st ← set_aside scid (node_two info) st; set_aside_all bulk st
  end.

(** With the system's time, which every removal was recorded with. *)
Definition should_keep_tracking (now : Z) (time : option Z) : bool :=
  match time with Some time => saturating_sub now time <? REMOVED_ENTRIES_TRACKING_AGE_LIMIT_SECS | None => false end.

Definition remove_stale_channels_and_tracking_with_time (now : Z) (g : NetworkGraph) : run NetworkGraph :=
  if (umax 32 <? now) || (now <? STALE_CHANNEL_UPDATE_AGE_LIMIT_SECS) then mret g
  else
    let min := wrapping 32 (now - STALE_CHANNEL_UPDATE_AGE_LIMIT_SECS) in
    let chans := drop_stale_directions min <$> channels g in
    let scids_to_remove := dom (filter (fun entry => channel_stale min entry.2 = true) chans) in
    let g := with_channels chans g in
    g ← if bool_decide (scids_to_remove = ∅) then mret g
        else
          let scids := set_entries scids_to_remove in
          let bulk := fetch_bulk scids chans in
          '(ns, counters, nodes_to_remove) ← set_aside_all bulk (nodes g, removed_node_counters g, []);
          mret (with_removed (foldl (fun m entry => <[entry.1 := Some now]> m) (removed_channels g) bulk) (removed_nodes g)
                  (with_node_counters counters (next_node_counter g)
                     (with_nodes (remove_bulk nodes_to_remove ns) (with_channels (remove_bulk scids chans) g))));
    mret (with_removed (filter (fun entry => should_keep_tracking now entry.2 = true) (removed_channels g))
            (filter (fun entry => should_keep_tracking now entry.2 = true) (removed_nodes g)) g).

(** ** Messages of peers ([P2PGossipSync]) *)

(** [Ok (true)]: the message is passed on. *)
Definition handle_node_announcement (msg : NodeAnnouncement) (held : bool) (g : NetworkGraph) : run (NetworkGraph * result GossipError bool) :=
  '(g, res) ← update_node_from_announcement msg held g;
  mret (g, match res with
           | Ok _ => Ok (should_relay (na_excess_data (na_contents msg)) (na_excess_address_data (na_contents msg)))
           | Err e => Err e
           end).
Definition handle_channel_announcement (msg : ChannelAnnouncement) (lookup : bool) (utxo : result GossipError (option Z)) (now : Z)
    (g : NetworkGraph) : run (NetworkGraph * result GossipError bool) :=
  '(g, res) ← update_channel_from_announcement msg lookup utxo now g;
  mret (g, match res with
           | Ok _ => Ok (Z.of_nat (length (ca_excess_data (ca_contents msg))) <=? MAX_EXCESS_BYTES_FOR_RELAY)
           | Err e => Err e
           end).
Definition handle_channel_update (msg : ChannelUpdate) (held : bool) (now : Z) (g : NetworkGraph)
    : run (NetworkGraph * result GossipError (option (bytes * bytes))) :=
  if negb (Z.land (cu_message_flags (cu_contents msg)) 2 =? 0) then mret (g, Err DontForward)
  else
    '(g, res) ← update_channel msg held now g;
    mret (g, match res with
             | Ok ns => Ok (if Z.of_nat (length (cu_excess_data (cu_contents msg))) <=? MAX_EXCESS_BYTES_FOR_RELAY then ns else None)
             | Err e => Err e
             end).

End gossip.
