(* ===== verification/GossipGraph.v ===== *)
(** * Consistency of the network graph (lightning/src/routing/gossip.rs)

    The channels of the graph and the channels of its nodes name each other, no node is without a
    channel, and the counters given to the nodes and those given back are all the numbers below
    the next one. *)

From Stdlib Require Import ZArith Lia Bool.
From stdpp Require Import strings gmap.
From S2P Require Import Prelude.
From S2P Require Import Features.
From S2P Require Import Keys.
From S2P Require Import Order.
From S2P Require Import Scripts.
From S2P Require Import Channel.
From S2P Require Import Ser.
From S2P Require Import Onion.
From S2P Require Import OnionPayload.
From S2P Require Import PqSign.
From S2P Require Import Gossip.

Local Open Scope Z_scope.

(** ** Sets of channels left *)

Lemma filter_removed scid x (l : list Z) : x ∈ List.filter (fun chan_id => negb (scid =? chan_id)) l <-> x ∈ l /\ x <> scid.
Proof.
  rewrite !list_elem_of_In, filter_In, negb_true_iff, Z.eqb_neq. split; intros [? ?]; by split.
Qed.
Lemma filter_removed_nodup scid (l : list Z) : NoDup l -> NoDup (List.filter (fun chan_id => negb (scid =? chan_id)) l).
Proof. rewrite !NoDup_ListNoDup. apply List.NoDup_filter. Qed.
Lemma filter_removed_nil scid (l : list Z) :
  NoDup l -> scid ∈ l -> List.filter (fun chan_id => negb (scid =? chan_id)) l = [] -> l = [scid].
Proof.
  intros Hl Hin Hnil. assert (forall x, x ∈ l -> x = scid) as Hall.
  { intros x Hx. destruct (decide (x = scid)) as [|Hne]; [done|].
    pose proof (proj2 (filter_removed scid x l) (conj Hx Hne)) as H. rewrite Hnil in H. by apply not_elem_of_nil in H. }
  destruct l as [|a [|b l]]; [by apply not_elem_of_nil in Hin|f_equal; apply Hall; left|].
  apply NoDup_cons in Hl as [Ha _]. destruct Ha.
  rewrite (Hall a), (Hall b) by (repeat constructor). left.
Qed.

Section graph.
Context {bitcoin : Bitcoin} {crypto : OnionCrypto} {scriptlib : ScriptLib} {ecdsa : EcdsaLib} {mldsa : MlDsa} {set_iter : SetIter}.

(** ** The invariant *)

Definition counters_of (N : gmap bytes NodeInfo) : list Z := map node_counter (map_to_list N).*2.

(** [id] is one of the nodes of channel [scid]. *)
Definition linked (C : gmap Z ChannelInfo) (scid : Z) (id : bytes) : Prop :=
  exists chan, C !! scid = Some chan /\ (id = node_one chan \/ id = node_two chan).

Record nodes_ok (L : Z -> bytes -> Prop) (N : gmap bytes NodeInfo) (removed : list Z) (next : Z) : Prop := {
  nodes_linked scid id : (exists node, N !! id = Some node /\ scid ∈ node_channels node) <-> L scid id;
  nodes_channels id node : N !! id = Some node -> NoDup (node_channels node) /\ node_channels node <> [];
  nodes_next : 0 <= next;
  nodes_counters : next <= 2 ^ 32 -> removed ++ counters_of N ≡ₚ seqZ 0 next;
}.

Definition counter_matches (N : gmap bytes NodeInfo) (id : bytes) (counter : Z) : Prop :=
  forall node, N !! id = Some node -> counter = node_counter node.
Definition channels_ok (C : gmap Z ChannelInfo) (N : gmap bytes NodeInfo) : Prop :=
  forall scid chan, C !! scid = Some chan ->
    node_one chan <> node_two chan /\ counter_matches N (node_one chan) (node_one_counter chan) /\
    counter_matches N (node_two chan) (node_two_counter chan).

Definition graph_ok (g : NetworkGraph) : Prop :=
  nodes_ok (linked (channels g)) (nodes g) (removed_node_counters g) (next_node_counter g) /\ channels_ok (channels g) (nodes g).

Lemma nodes_ok_ext L L' N R R' K : (forall scid id, L scid id <-> L' scid id) -> R ≡ₚ R' -> nodes_ok L N R K -> nodes_ok L' N R' K.
Proof.
  intros HL HR [H1 H2 H3 H4]. split; [|done|done|].
  - intros scid id. by rewrite H1.
  - intros Hk. rewrite <- HR. by apply H4.
Qed.

(** ** Nodes that lose or get a channel *)

(** The nodes of [N'] are nodes of [N], but for their channels. *)
Definition kept (N N' : gmap bytes NodeInfo) : Prop :=
  forall id node', N' !! id = Some node' -> exists node, N !! id = Some node /\ node' = with_node_channels (node_channels node') node.
#[export] Instance kept_preorder : PreOrder kept.
Proof.
  split.
  - intros N id node Hn. exists node. split; [done|by destruct node].
  - intros N1 N2 N3 H12 H23 id node Hn. apply H23 in Hn as (node2 & Hn2 & E). apply H12 in Hn2 as (node1 & Hn1 & E1).
    exists node1. split; [done|]. rewrite E, E1. done.
Qed.
(** The nodes of [N] are still in [N'], but for their channels. *)
Definition extended (N N' : gmap bytes NodeInfo) : Prop :=
  forall id node, N !! id = Some node -> exists l, N' !! id = Some (with_node_channels l node).
#[export] Instance extended_preorder : PreOrder extended.
Proof.
  split.
  - intros N id node Hn. exists (node_channels node). rewrite Hn. by destruct node.
  - intros N1 N2 N3 H12 H23 id node Hn. apply H12 in Hn as (l & Hl). apply H23 in Hl as (l' & Hl'). by exists l'.
Qed.

Lemma kept_counter N N' id c : kept N N' -> counter_matches N id c -> counter_matches N' id c.
Proof. intros HN Hc node' Hn'. apply HN in Hn' as (node & Hn & ->). cbn. by apply Hc. Qed.
Lemma channels_ok_kept C N N' : kept N N' -> channels_ok C N -> channels_ok C N'.
Proof. intros HN Hc scid chan Hch. destruct (Hc _ _ Hch) as (? & ? & ?). split_and!; eauto using kept_counter. Qed.
Lemma channels_ok_delete C N scid : channels_ok C N -> channels_ok (delete scid C) N.
Proof. intros Hc scid' chan [_ Hch]%lookup_delete_Some. by apply (Hc scid'). Qed.

Lemma counters_delete N id node : N !! id = Some node -> counters_of N ≡ₚ node_counter node :: counters_of (delete id N).
Proof. intros Hn. unfold counters_of. by rewrite <- (map_to_list_delete N id node Hn). Qed.
Lemma counters_insert N id node : counters_of (<[id := node]> N) ≡ₚ node_counter node :: counters_of (delete id N).
Proof.
  rewrite (counters_delete (<[id := node]> N) id node) by apply lookup_insert_eq. by rewrite delete_insert_eq.
Qed.
Lemma counters_replace N id node node' :
  N !! id = Some node -> node_counter node' = node_counter node -> counters_of (<[id := node']> N) ≡ₚ counters_of N.
Proof. intros Hn E. by rewrite counters_insert, (counters_delete N id node), E. Qed.

Lemma shrink_kept scid id node st : st.1 !! id = Some node -> kept st.1 (shrink_node scid id node st).1.
Proof.
  intros Hn id' node'. unfold shrink_node. case_bool_decide; cbn [fst].
  - intros [_ Hn']%lookup_delete_Some. exists node'. split; [done|by destruct node'].
  - destruct (decide (id = id')) as [<-|Hne].
    + rewrite lookup_insert_eq. intros [= <-]. by exists node.
    + rewrite lookup_insert_ne by done. intros Hn'. exists node'. split; [done|by destruct node'].
Qed.

Lemma shrink_ok L N R K scid id node :
  nodes_ok L N R K -> N !! id = Some node -> scid ∈ node_channels node ->
  nodes_ok (fun s i => L s i /\ ~ (s = scid /\ i = id)) (shrink_node scid id node (N, R)).1 (shrink_node scid id node (N, R)).2 K.
Proof.
  intros [H1 H2 H3 H4] Hn Hin. destruct (H2 _ _ Hn) as [Hnd _]. unfold shrink_node. case_bool_decide as Hleft; cbn [fst snd].
  - apply (filter_removed_nil _ _ Hnd Hin) in Hleft as Hone. split; [|intros id' n [_ Hn']%lookup_delete_Some; by apply (H2 id')|done|].
    + intros s i. rewrite <- H1. destruct (decide (i = id)) as [->|Hne].
      * rewrite lookup_delete_eq, Hn. split; [naive_solver|]. intros [(? & [= <-] & Hs) Hnot]. rewrite Hone, list_elem_of_singleton in Hs. naive_solver.
      * rewrite lookup_delete_ne by done. naive_solver.
    + intros Hk. rewrite <- (H4 Hk), (counters_delete N id node Hn). cbn [app]. by rewrite Permutation_middle.
  - split; [| |done|].
    + intros s i. rewrite <- H1. destruct (decide (i = id)) as [->|Hne].
      * rewrite lookup_insert_eq, Hn. split.
        -- intros (? & [= <-] & Hs). cbn in Hs. apply filter_removed in Hs as [? ?]. naive_solver.
        -- intros [(? & [= <-] & Hs) Hnot]. eexists. split; [done|]. cbn. apply filter_removed. naive_solver.
      * rewrite lookup_insert_ne by done. naive_solver.
    + intros i n. destruct (decide (i = id)) as [->|Hne]; [|rewrite lookup_insert_ne by done; apply H2].
      rewrite lookup_insert_eq. intros [= <-]. cbn. split; [by apply filter_removed_nodup|done].
    + intros Hk. rewrite <- (H4 Hk). by rewrite (counters_replace N id node).
Qed.

(** The two nodes of a channel. *)
Lemma drop_ok L N R K scid id : nodes_ok L N R K -> L scid id ->
  exists N' R', drop_from_node scid id (N, R) = Return (N', R') /\ nodes_ok (fun s i => L s i /\ ~ (s = scid /\ i = id)) N' R' K /\ kept N N'.
Proof.
  intros Hok HL. apply (nodes_linked _ _ _ _ Hok) in HL as (node & Hn & Hin). unfold drop_from_node. cbn [fst]. rewrite Hn.
  cbn [unwrap mbind run_bind mret run_ret]. pose proof (shrink_ok _ _ _ _ _ _ _ Hok Hn Hin) as Hs. pose proof (shrink_kept scid id node (N, R) Hn) as Hk.
  destruct (shrink_node scid id node (N, R)) as [N' R']. by exists N', R'.
Qed.

(** What is left of a graph when a channel is taken from its nodes. *)
Lemma remove_channel_ok g chan scid C :
  nodes_ok (linked C) (nodes g) (removed_node_counters g) (next_node_counter g) -> C !! scid = Some chan -> node_one chan <> node_two chan ->
  exists N R, remove_channel_in_nodes chan scid g = Return (with_node_counters R (next_node_counter g) (with_nodes N g)) /\
    nodes_ok (linked (delete scid C)) N R (next_node_counter g) /\ kept (nodes g) N.
Proof.
  intros Hok Hch Hne. unfold remove_channel_in_nodes.
  destruct (drop_ok _ _ _ _ scid (node_one chan) Hok) as (N1 & R1 & -> & Hok1 & Hk1); [exists chan; auto|]. cbn [mbind run_bind].
  destruct (drop_ok _ _ _ _ scid (node_two chan) Hok1) as (N2 & R2 & -> & Hok2 & Hk2); [split; [exists chan; auto|naive_solver]|].
  cbn [mbind run_bind mret run_ret]. exists N2, R2. split_and!; [done| |by etrans].
  revert Hok2. apply nodes_ok_ext; [|done]. intros s i. unfold linked. setoid_rewrite lookup_delete_Some. naive_solver.
Qed.

(** A node of the graph, or a new one, gets a channel. *)
Lemma insert_node_ok L N R K R' K' scid id node' :
  nodes_ok L N R K -> ~ L scid id -> node_channels node' = default [] (node_channels <$> N !! id) ++ [scid] -> 0 <= K' ->
  (K' <= 2 ^ 32 -> R' ++ counters_of (<[id := node']> N) ≡ₚ seqZ 0 K') ->
  nodes_ok (fun s i => L s i \/ (s = scid /\ i = id)) (<[id := node']> N) R' K'.
Proof.
  intros [H1 H2 H3 H4] HL Hnode HK Hcounters. split; [| |done|done].
  - intros s i. rewrite <- H1. destruct (decide (i = id)) as [->|Hi].
    + rewrite lookup_insert_eq. split.
      * intros (? & [= <-] & Hs). rewrite Hnode, elem_of_app, list_elem_of_singleton in Hs. destruct Hs as [Hs| ->]; [left|by right].
        destruct (N !! id); [by eexists|by apply not_elem_of_nil in Hs].
      * intros Hs. eexists. split; [done|]. rewrite Hnode, elem_of_app, list_elem_of_singleton.
        destruct Hs as [(n & Hn & Hs)|[-> _]]; [left|by right]. by rewrite Hn.
    + rewrite lookup_insert_ne by done. split; [by left|]. intros [Hs|[_ ?]]; done.
  - intros i n. destruct (decide (i = id)) as [->|Hi]; [|rewrite lookup_insert_ne by done; apply H2].
    rewrite lookup_insert_eq. intros [= <-]. rewrite Hnode. split; [|by destruct (default [] _)].
    apply NoDup_app. split_and!; [|intros x Hx ->%list_elem_of_singleton; apply HL, H1|apply NoDup_singleton].
    + destruct (N !! id) eqn:Hn; cbn; [by apply (H2 id)|constructor].
    + destruct (N !! id) eqn:Hn; [eauto|by apply not_elem_of_nil in Hx].
Qed.

Lemma extended_insert N id node' :
  (forall node, N !! id = Some node -> node' = with_node_channels (node_channels node') node) -> extended N (<[id := node']> N).
Proof.
  intros Hnode i n Hi. destruct (decide (i = id)) as [->|Hne].
  - rewrite lookup_insert_eq. exists (node_channels node'). by rewrite <- Hnode.
  - rewrite lookup_insert_ne by done. exists (node_channels n). rewrite Hi. by destruct n.
Qed.

(** The counter of a new node: one given back, or the next. *)
Lemma new_counter_ok L N R K id node' counter R' K' :
  nodes_ok L N R K -> N !! id = None -> node_counter node' = counter ->
  (counter, R', K') = match R with c :: R => (c, R, K) | [] => (wrapping 32 K, [], K + 1) end ->
  0 <= K' /\ (K' <= 2 ^ 32 -> R' ++ counters_of (<[id := node']> N) ≡ₚ seqZ 0 K').
Proof.
  intros [H1 H2 H3 H4] Hn Hc E. destruct R as [|c R]; injection E as -> -> ->.
  - split; [lia|]. intros Hk. cbn [app]. rewrite counters_insert, Hc, delete_id, (H4 ltac:(lia)) by done.
    rewrite wrapping_small by (unfold fits; lia). replace (K + 1) with (K + Z.of_nat 1) by lia.
    rewrite seqZ_app by lia. cbn. by rewrite Permutation_app_comm.
  - split; [done|]. intros Hk. rewrite counters_insert, Hc, delete_id by done. rewrite <- (H4 Hk). cbn. by rewrite Permutation_middle.
Qed.

Lemma add_to_node_ok L scid id g :
  nodes_ok L (nodes g) (removed_node_counters g) (next_node_counter g) -> ~ L scid id ->
  let '(g', counter) := add_to_node scid id g in
  channels g' = channels g /\ nodes_ok (fun s i => L s i \/ (s = scid /\ i = id)) (nodes g') (removed_node_counters g') (next_node_counter g') /\
  extended (nodes g) (nodes g') /\ (exists node, nodes g' !! id = Some node /\ node_counter node = counter).
Proof.
  intros Hok HL. unfold add_to_node. destruct (nodes g !! id) as [node|] eqn:Hn.
  - cbn. split_and!; [done| | |eexists; by rewrite lookup_insert_eq].
    + apply (insert_node_ok _ _ (removed_node_counters g) (next_node_counter g)); [done|done|by rewrite Hn|apply Hok|].
      intros Hk. rewrite (counters_replace _ _ node) by done. by apply Hok.
    + apply extended_insert. intros n Hn'. rewrite Hn in Hn'. by injection Hn' as ->.
  - destruct (match removed_node_counters g with [] => _ | _ => _ end) as [[counter removed] next] eqn:E. cbn.
    split_and!; [done| | |eexists; by rewrite lookup_insert_eq].
    + destruct (new_counter_ok _ _ _ _ id (mkNodeInfo [scid] None None None counter) counter removed next Hok Hn eq_refl (eq_sym E)) as [? Hc].
      apply (insert_node_ok _ _ (removed_node_counters g) (next_node_counter g)); [done|done|by rewrite Hn|done|apply Hc].
    + apply extended_insert. intros n Hn'. by rewrite Hn in Hn'.
Qed.

Lemma extended_counter N N' id c : extended N N' -> is_Some (N !! id) -> counter_matches N id c -> counter_matches N' id c.
Proof.
  intros HN [node Hn] Hc node' Hn'. destruct (HN _ _ Hn) as [l Hl]. rewrite Hl in Hn'. injection Hn' as <-. cbn. by apply Hc.
Qed.
Lemma linked_node L N R K scid id : nodes_ok L N R K -> L scid id -> is_Some (N !! id).
Proof. intros Hok (node & Hn & _)%(nodes_linked _ _ _ _ Hok). by exists node. Qed.

(** A channel is put between two nodes that have none of its identifier. *)
Lemma put_channel_ok scid info g C :
  nodes_ok (linked C) (nodes g) (removed_node_counters g) (next_node_counter g) -> channels_ok C (nodes g) -> C = delete scid (channels g) ->
  node_one info <> node_two info -> graph_ok (put_channel scid info g) /\ extended (nodes g) (nodes (put_channel scid info g)).
Proof.
  intros Hok Hchans HC Hne. assert (forall id, ~ linked C scid id) as Hfree.
  { intros id (c & Hc & _). rewrite HC in Hc. by rewrite lookup_delete_eq in Hc. }
  unfold put_channel. pose proof (add_to_node_ok _ scid (node_one info) g Hok (Hfree _)) as H1.
  destruct (add_to_node scid (node_one info) g) as [g1 one]. destruct H1 as (Hg1 & Hok1 & He1 & n1 & Hn1 & Hc1).
  assert (~ (linked C scid (node_two info) \/ scid = scid /\ node_two info = node_one info)) as Hfree2 by (intros [?|[_ ?]]; [by eapply Hfree|done]).
  pose proof (add_to_node_ok _ scid (node_two info) g1 Hok1 Hfree2) as H2.
  destruct (add_to_node scid (node_two info) g1) as [g2 two]. destruct H2 as (Hg2 & Hok2 & He2 & n2 & Hn2 & Hc2).
  assert (extended (nodes g) (nodes g2)) as He by (by etrans). split; [|done].
  rewrite Hg2, Hg1. split; cbn.
  - revert Hok2. apply nodes_ok_ext; [|done]. intros s i. unfold linked. subst C. setoid_rewrite lookup_delete_Some.
    setoid_rewrite lookup_insert_Some. split.
    + intros [[(c & [? ?] & ?)|[-> ->]]|[-> ->]]; [exists c; eauto|eexists; split; [left; eauto|by left]|eexists; split; [left; eauto|by right]].
    + intros (c & [[<- <-]|[? ?]] & Hi); [cbn in Hi; destruct Hi as [->| ->]; auto|left; left; eauto].
  - intros s c. rewrite lookup_insert_Some. intros [[<- <-]|[Hs Hc]]; cbn.
    + split_and!; [done| |intros n; rewrite Hn2; by intros [= <-]].
      destruct (He2 _ _ Hn1) as [l Hl]. intros n. rewrite Hl. intros [= <-]. by symmetry.
    + assert (C !! s = Some c) as HCs by (subst C; by rewrite lookup_delete_ne). destruct (Hchans _ _ HCs) as (? & ? & ?).
      split_and!; [done|..]; (eapply extended_counter; [done| |done]); (eapply linked_node; [done|]); exists c; eauto.
Qed.

Lemma add_channel_ok scid info utxo g : graph_ok g -> node_one info <> node_two info ->
  exists g' res, add_channel_between_nodes scid info utxo g = Return (g', res) /\ graph_ok g' /\
    (forall id node node', nodes g !! id = Some node -> nodes g' !! id = Some node' ->
       node' = with_node_channels (node_channels node') node \/ (is_Some utxo /\ node_channels node = [scid])).
Proof.
  intros [Hok Hchans] Hne. unfold add_channel_between_nodes. destruct (channels g !! scid) as [known|] eqn:Hch.
  - destruct utxo as [value|]; cbn [is_some].
    + destruct (remove_channel_ok g known scid _ Hok Hch) as (N & R & -> & HokN & Hk); [by apply (Hchans scid)|]. cbn [mbind run_bind mret run_ret].
      set (g1 := with_node_counters R (next_node_counter g) (with_nodes N g)).
      destruct (put_channel_ok scid info g1 (delete scid (channels g))) as [Hg' He]; [done| |done|done|].
      { apply channels_ok_delete. by apply (channels_ok_kept _ (nodes g)). }
      eexists _, _. split_and!; [done|done|]. intros id node node' Hn Hn'.
      destruct (N !! id) as [node1|] eqn:Hn1; [left|right].
      * apply He in Hn1 as Hl. destruct Hl as [l Hl]. rewrite Hl in Hn'. injection Hn' as <-.
        apply Hk in Hn1 as (node0 & Hn0 & ->). rewrite Hn in Hn0. by injection Hn0 as ->.
      * split; [by eexists|]. destruct (nodes_channels _ _ _ _ Hok _ _ Hn) as [Hnd Hnil].
        assert (forall s, s ∈ node_channels node -> s = scid) as Hall.
        { intros s Hs. destruct (decide (s = scid)) as [|Hsne]; [done|].
          assert (linked (channels g) s id) as (c & Hc & Hid) by (apply (nodes_linked _ _ _ _ Hok); eauto).
          assert (linked (delete scid (channels g)) s id) as (n & Hn'' & _)%(nodes_linked _ _ _ _ HokN)
            by (exists c; by rewrite lookup_delete_ne).
          by rewrite Hn1 in Hn''. }
        destruct (node_channels node) as [|a l] eqn:El; [done|]. rewrite (Hall a) in * by left.
        destruct l as [|b l]; [done|]. apply NoDup_cons in Hnd as [Hnot _]. destruct Hnot. rewrite (Hall b) by (right; left). left.
    + cbn. exists g, (Err AlreadyKnown). split_and!; [done|done|]. intros id node node' Hn Hn'. left. rewrite Hn in Hn'. injection Hn' as <-. by destruct node.
  - destruct (put_channel_ok scid info g (channels g)) as [Hg' He]; [done|done|by rewrite delete_id|done|].
    eexists _, _. split_and!; [done|done|]. intros id node node' Hn Hn'. left. apply He in Hn as [l Hl]. rewrite Hl in Hn'. by injection Hn' as <-.
Qed.

(** ** Channels that fail *)

(** What the consistency of the graph says of a channel. *)
Definition ends (chan : ChannelInfo) : bytes * bytes * Z * Z := (node_one chan, node_two chan, node_one_counter chan, node_two_counter chan).
Lemma graph_ok_channels g C : graph_ok g -> (forall scid, ends <$> C !! scid = ends <$> channels g !! scid) -> graph_ok (with_channels C g).
Proof.
  intros [Hok Hchans] HC. split; cbn.
  - revert Hok. apply nodes_ok_ext; [|done]. intros s i. unfold linked. specialize (HC s).
    split; intros (c & Hc & Hi); rewrite Hc in HC; cbn in HC.
    + destruct (C !! s) as [c'|]; [|done]. injection HC as E1 E2 _ _. exists c'. rewrite E1, E2. done.
    + destruct (channels g !! s) as [c'|]; [|done]. injection HC as E1 E2 _ _. exists c'. rewrite <- E1, <- E2. done.
  - intros s c Hc. specialize (HC s). rewrite Hc in HC. destruct (channels g !! s) as [c'|] eqn:Hc'; [|done].
    injection HC as -> -> -> ->. by apply (Hchans s).
Qed.

Lemma channel_failed_ok scid now g : graph_ok g ->
  exists N R, channel_failed_permanent_with_time scid now g =
      Return (match channels g !! scid with
              | Some _ => with_node_counters R (next_node_counter g) (with_nodes N (with_removed (<[scid := now]> (removed_channels g))
                            (removed_nodes g) (with_channels (delete scid (channels g)) g)))
              | None => g
              end) /\
    (forall chan, channels g !! scid = Some chan ->
       remove_channel_in_nodes chan scid g = Return (with_node_counters R (next_node_counter g) (with_nodes N g)) /\
       nodes_ok (linked (delete scid (channels g))) N R (next_node_counter g) /\ kept (nodes g) N).
Proof.
  intros [Hok Hchans]. unfold channel_failed_permanent_with_time. destruct (channels g !! scid) as [chan|] eqn:Hch; [|by exists ∅, []].
  destruct (remove_channel_ok g chan scid _ Hok Hch) as (N & R & E & HokN & Hk); [by apply (Hchans scid)|].
  exists N, R. split; [|intros ? [= <-]; done]. revert E. unfold remove_channel_in_nodes. cbn [nodes removed_node_counters with_removed with_channels].
  destruct (drop_from_node _ _ _) as [st|]; [|done]. cbn [mbind run_bind]. destruct (drop_from_node _ _ _) as [[N' R']|]; [|done].
  cbn [mbind run_bind mret run_ret]. intros [= -> ->]. done.
Qed.

End graph.
