(* ===== verification/GossipStale.v ===== *)
(** * Channels and nodes that leave the network graph (lightning/src/routing/gossip.rs)

    The removal of all stale channels at once, with their nodes put aside and removed at the end,
    does what removing them one after the other does; and a node that fails leaves a consistent
    graph. *)

From Stdlib Require Import ZArith Lia Bool.
From stdpp Require Import strings gmap.
From S2P Require Import Prelude.
From S2P Require Import Features.
From S2P Require Import Keys.
From S2P Require Import Order.
From S2P Require Import Scripts.
From S2P Require Import Channel.
From S2P Require Import Ser.
From S2P Require Import Onion.
From S2P Require Import OnionPayload.
From S2P Require Import PqSign.
From S2P Require Import Gossip.
From S2P Require Import GossipGraph.

Local Open Scope Z_scope.

(** ** Bulk removal *)

Lemma remove_bulk_lookup {K A} `{Countable K} (keys : list K) (m : gmap K A) k x :
  remove_bulk keys m !! k = Some x <-> k ∉ keys /\ m !! k = Some x.
Proof.
  revert m. induction keys as [|k' keys IH]; intros m; cbn; [by rewrite elem_of_nil; naive_solver|].
  fold (remove_bulk keys (delete k' m)). rewrite IH, lookup_delete_Some, elem_of_cons. naive_solver.
Qed.
Lemma remove_bulk_delete {K A} `{Countable K} (keys : list K) (m : gmap K A) k :
  remove_bulk (k :: keys) m = delete k (remove_bulk keys m).
Proof.
  apply map_eq. intros i. apply option_eq. intros x. rewrite lookup_delete_Some, !remove_bulk_lookup, elem_of_cons. naive_solver.
Qed.
Lemma remove_bulk_insert {K A} `{Countable K} (keys : list K) (m : gmap K A) k x :
  k ∉ keys -> remove_bulk keys (<[k := x]> m) = <[k := x]> (remove_bulk keys m).
Proof.
  intros Hk. apply map_eq. intros i. apply option_eq. intros y.
  rewrite remove_bulk_lookup, !lookup_insert_Some, remove_bulk_lookup. naive_solver.
Qed.
Lemma remove_bulk_perm {K A} `{Countable K} (keys keys' : list K) (m : gmap K A) : keys ≡ₚ keys' -> remove_bulk keys m = remove_bulk keys' m.
Proof. intros Hp. apply map_eq. intros i. apply option_eq. intros x. rewrite !remove_bulk_lookup. by setoid_rewrite Hp. Qed.

Lemma fetch_bulk_delete {A} keys (m : gmap Z A) k : k ∉ keys -> fetch_bulk keys (delete k m) = fetch_bulk keys m.
Proof.
  induction keys as [|k' keys IH]; [done|]. intros [Hne Hk]%not_elem_of_cons. unfold fetch_bulk in *. cbn. rewrite lookup_delete_ne by done.
  destruct (m !! k'); cbn; by rewrite IH.
Qed.

Lemma fetch_bulk_cons {A} keys (m : gmap Z A) k x : m !! k = Some x -> fetch_bulk (k :: keys) m = (k, x) :: fetch_bulk keys m.
Proof. intros Hk. unfold fetch_bulk. cbn. by rewrite Hk. Qed.

Section stale.
Context {bitcoin : Bitcoin} {crypto : OnionCrypto} {scriptlib : ScriptLib} {ecdsa : EcdsaLib} {mldsa : MlDsa} {set_iter : SetIter}.

(** Nodes put aside against nodes removed at once. *)
Lemma set_aside_drop scid id ns R gone N' R' :
  drop_from_node scid id (remove_bulk gone ns, R) = Return (N', R') ->
  exists ns' gone', set_aside scid id (ns, R, gone) = Return (ns', R', gone') /\ N' = remove_bulk gone' ns'.
Proof.
  unfold drop_from_node. cbn [fst]. destruct (remove_bulk gone ns !! id) as [node|] eqn:Hn; [|done].
  apply remove_bulk_lookup in Hn as [Hgone Hn]. cbn [unwrap mbind run_bind mret run_ret]. intros [= E].
  unfold set_aside. rewrite Hn. cbn [unwrap mbind run_bind mret run_ret]. unfold shrink_node in E.
  set (left := List.filter _ _) in *. destruct (bool_decide (left = [])); injection E as <- <-.
  - eexists _, _. split; [done|]. cbn [fst]. rewrite remove_bulk_delete, remove_bulk_insert by done. by rewrite delete_insert_eq.
  - eexists _, _. split; [done|]. cbn [fst]. by rewrite remove_bulk_insert.
Qed.
Lemma set_aside_remove scid chan ns R gone g g' :
  nodes g = remove_bulk gone ns -> removed_node_counters g = R -> remove_channel_in_nodes chan scid g = Return g' ->
  exists ns' gone', (st ← set_aside scid (node_one chan) (ns, R, gone); set_aside scid (node_two chan) st) = Return (ns', removed_node_counters g', gone') /\
    nodes g' = remove_bulk gone' ns'.
Proof.
  intros Hns HR. unfold remove_channel_in_nodes. rewrite Hns, HR.
  destruct (drop_from_node scid (node_one chan) _) as [[N1 R1]|] eqn:E1; [|done]. cbn [mbind run_bind].
  apply set_aside_drop in E1 as (ns1 & gone1 & -> & ->). cbn [mbind run_bind].
  destruct (drop_from_node scid (node_two chan) _) as [[N2 R2]|] eqn:E2; [|done]. cbn [mbind run_bind mret run_ret]. intros [= <-].
  apply set_aside_drop in E2 as (ns2 & gone2 & -> & ->). by exists ns2, gone2.
Qed.

(** The channels fail one after the other. *)
Fixpoint fail_all (now : Z) (scids : list Z) (g : NetworkGraph) : run NetworkGraph :=
  match scids with
  | [] => mret g
  | scid :: scids => g ← channel_failed_permanent_with_time scid (Some now) g; fail_all now scids g
  end.

(** A graph without a set of channels, once their nodes are as they are to be. *)
Definition without (now : Z) (scids : list Z) (N : gmap bytes NodeInfo) (R : list Z) (g : NetworkGraph) : NetworkGraph :=
  with_removed (foldl (fun m entry => <[entry.1 := Some now]> m) (removed_channels g) (fetch_bulk scids (channels g))) (removed_nodes g)
    (with_node_counters R (next_node_counter g) (with_nodes N (with_channels (remove_bulk scids (channels g)) g))).

Lemma fail_one_ok scid now g : graph_ok g -> is_Some (channels g !! scid) ->
  exists chan N R, channels g !! scid = Some chan /\
    remove_channel_in_nodes chan scid g = Return (with_node_counters R (next_node_counter g) (with_nodes N g)) /\
    channel_failed_permanent_with_time scid (Some now) g = Return (without now [scid] N R g) /\ graph_ok (without now [scid] N R g) /\ kept (nodes g) N.
Proof.
  intros Hok [chan Hch]. destruct (channel_failed_ok scid (Some now) g Hok) as (N & R & E & Hrem). destruct (Hrem _ Hch) as (Hr & HN & Hk).
  exists chan, N, R. unfold without, fetch_bulk. cbn [omap list_omap]. rewrite E, Hch. cbn. split_and!; [done|done|done| |done].
  split; [done|]. cbn. apply channels_ok_delete. apply (channels_ok_kept _ (nodes g)); [done|]. by destruct Hok.
Qed.

Lemma fail_all_bulk now scids g ns gone :
  graph_ok g -> NoDup scids -> (forall s, s ∈ scids -> is_Some (channels g !! s)) -> nodes g = remove_bulk gone ns ->
  exists N R ns' gone', fail_all now scids g = Return (without now scids N R g) /\
    set_aside_all (fetch_bulk scids (channels g)) (ns, removed_node_counters g, gone) = Return (ns', R, gone') /\ N = remove_bulk gone' ns' /\
    graph_ok (without now scids N R g) /\ kept (nodes g) N.
Proof.
  revert g ns gone. induction scids as [|scid scids IH]; intros g ns gone Hok Hnd Hall Hns.
  - exists (nodes g), (removed_node_counters g), ns, gone. unfold without. cbn. split_and!; [by destruct g|done|done|by destruct g|done].
  - apply NoDup_cons in Hnd as [Hnot Hnd]. destruct (fail_one_ok scid now g Hok) as (chan & N1 & R1 & Hch & Hr & Hf & Hok1 & Hk1); [apply Hall; left|].
    cbn [fail_all]. rewrite Hf. cbn [mbind run_bind]. set (g1 := without now [scid] N1 R1 g) in *.
    destruct (set_aside_remove scid chan ns _ gone g _ Hns eq_refl Hr) as (ns1 & gone1 & Hset & Hns1).
    destruct (IH g1 ns1 gone1 Hok1 Hnd) as (N & R & ns' & gone' & HF & HS & HN & Hok' & Hk).
    { intros s Hs. cbn. rewrite lookup_delete_ne by (intros ->; done). apply Hall. by right. }
    { done. }
    assert (without now scids N R g1 = without now (scid :: scids) N R g) as Hw.
    { unfold g1, without. rewrite !(fetch_bulk_cons _ _ _ chan Hch).
      cbn [foldl channels removed_channels removed_nodes next_node_counter with_removed with_node_counters with_nodes with_channels fst remove_bulk].
      by rewrite fetch_bulk_delete. }
    exists N, R, ns', gone'. rewrite <- Hw. split_and!; [done| |done|done|by etrans].
    rewrite (fetch_bulk_cons _ _ _ chan Hch). cbn [set_aside_all].
    revert Hset. destruct (set_aside scid (node_one chan) _) as [st1|]; [|done]. cbn [mbind run_bind].
    intros ->. cbn [mbind run_bind]. rewrite <- HS. unfold g1, without. cbn [channels removed_node_counters with_removed with_node_counters with_nodes with_channels remove_bulk foldl].
    by rewrite fetch_bulk_delete.
Qed.

(** ** Stale channels *)

Definition fresh_channels (min : Z) (g : NetworkGraph) : gmap Z ChannelInfo := drop_stale_directions min <$> channels g.
Definition stale_scids (min : Z) (g : NetworkGraph) : gset Z := dom (filter (fun entry => channel_stale min entry.2 = true) (fresh_channels min g)).
Definition forget_removed (now : Z) (g : NetworkGraph) : NetworkGraph :=
  with_removed (filter (fun entry => should_keep_tracking now entry.2 = true) (removed_channels g))
    (filter (fun entry => should_keep_tracking now entry.2 = true) (removed_nodes g)) g.

Lemma stale_scids_spec min g scid : scid ∈ stale_scids min g <-> exists c, fresh_channels min g !! scid = Some c /\ channel_stale min c = true.
Proof.
  unfold stale_scids. rewrite elem_of_dom. split.
  - intros [c [Hc Hs]%map_lookup_filter_Some]. by exists c.
  - intros (c & Hc & Hs). exists c. by apply map_lookup_filter_Some.
Qed.
Lemma fresh_graph_ok min g : graph_ok g -> graph_ok (with_channels (fresh_channels min g) g).
Proof. intros Hok. apply graph_ok_channels; [done|]. intros s. unfold fresh_channels. rewrite lookup_fmap. by destruct (channels g !! s). Qed.

Context {iter_laws : SetIterLaws}.

Lemma stale_bulk now g : STALE_CHANNEL_UPDATE_AGE_LIMIT_SECS <= now <= umax 32 -> graph_ok g ->
  let min := now - STALE_CHANNEL_UPDATE_AGE_LIMIT_SECS in
  let g0 := with_channels (fresh_channels min g) g in
  let scids := set_entries (stale_scids min g) in
  exists N R, fail_all now scids g0 = Return (without now scids N R g0) /\
    remove_stale_channels_and_tracking_with_time now g = Return (forget_removed now (without now scids N R g0)) /\
    graph_ok (without now scids N R g0) /\ kept (nodes g) N.
Proof.
  intros Hnow Hok min g0 scids. pose proof (set_entries_perm (stale_scids min g)) as Hperm. fold scids in Hperm.
  destruct (fail_all_bulk now scids g0 (nodes g) []) as (N & R & ns' & gone' & HF & HS & HN & Hok' & Hk); [by apply fresh_graph_ok| | |done|].
  { rewrite Hperm. apply NoDup_elements. }
  { intros s. rewrite Hperm, elem_of_elements, stale_scids_spec. intros (c & Hc & _). by exists c. }
  exists N, R. split_and!; [done| |done|done].
  unfold remove_stale_channels_and_tracking_with_time. rewrite (proj2 (Z.ltb_ge _ _)), (proj2 (Z.ltb_ge _ _)) by lia. cbn [orb].
  assert (umax 32 = 2 ^ 32 - 1) as Hmax by done. assert (0 <= STALE_CHANNEL_UPDATE_AGE_LIMIT_SECS) by done.
  rewrite wrapping_small by (unfold fits; lia). fold min. fold (fresh_channels min g) g0. fold (stale_scids min g). fold scids.
  case_bool_decide as Hempty.
  - assert (scids = []) as E. { unfold scids in *. rewrite Hempty in *. rewrite elements_empty in Hperm. by apply Permutation_nil_r in Hperm. }
    rewrite E in *. cbn in HS. injection HS as <- <- <-. cbn in HN. subst N. done.
  - change (channels g0) with (fresh_channels min g) in HS. change (nodes g) with (nodes g0) in HS. rewrite HS. cbn [mbind run_bind mret run_ret]. by rewrite HN.
Qed.

(** C35: Removing what is stale takes away exactly the channels announced more than two weeks
    ago with a direction that was not updated since, forgets the other directions that were not updated, and
    comes to the same as having the stale channels fail one after the other, although nodes left
    without a channel are only put aside and removed at the end. *)
Theorem stale_channels_removed now g : STALE_CHANNEL_UPDATE_AGE_LIMIT_SECS <= now <= umax 32 -> graph_ok g ->
  let min := now - STALE_CHANNEL_UPDATE_AGE_LIMIT_SECS in
  let fresh := with_channels (fresh_channels min g) g in
  exists g', remove_stale_channels_and_tracking_with_time now g = Return (forget_removed now g') /\ graph_ok g' /\
    fail_all now (set_entries (stale_scids min g)) fresh = Return g' /\
    (forall scid chan, channels g' !! scid = Some chan <-> channels fresh !! scid = Some chan /\ channel_stale min chan = false) /\
    (forall id node', nodes g' !! id = Some node' ->
       exists node, nodes g !! id = Some node /\ node' = with_node_channels (node_channels node') node /\ node_channels node' <> []).
Proof.
  intros Hnow Hok min fresh. subst min fresh. destruct (stale_bulk now g Hnow Hok) as (N & R & HF & HR & Hok' & Hk). eexists.
  split; [exact HR|]. split; [exact Hok'|]. split_and!; [exact HF| |].
  - intros scid chan. cbn. rewrite remove_bulk_lookup, set_entries_perm, elem_of_elements, stale_scids_spec.
    split; intros [H1 H2]; (split; [try done|try done]).
    + apply not_true_is_false. intros Hs. apply H1. by exists chan.
    + intros (c & Hc & Hs). rewrite H1 in Hc. injection Hc as <-. congruence.
  - intros id node' Hn. destruct (Hk _ _ Hn) as (node & ? & ?). exists node. split_and!; [done|done|]. by eapply nodes_channels in Hn as [_ ?]; [|apply Hok'].
Qed.

(** ** Nodes that fail *)

(** One of the channels of a node that was taken out: [counter] is that of the node. *)
Lemma fail_channel_of_ok id now scid g counter L :
  (forall s i, L s i <-> linked (channels g) s i /\ i <> id) ->
  nodes_ok L (nodes g) (counter :: removed_node_counters g) (next_node_counter g) -> channels_ok (channels g) (nodes g) ->
  linked (channels g) scid id ->
  exists N R, fail_channel_of id now scid g = with_removed (<[scid := now]> (removed_channels g)) (removed_nodes g)
        (with_node_counters R (next_node_counter g) (with_nodes N (with_channels (delete scid (channels g)) g))) /\
    nodes_ok (fun s i => linked (delete scid (channels g)) s i /\ i <> id) N (counter :: R) (next_node_counter g) /\ kept (nodes g) N.
Proof.
  intros HL Hok Hchans (chan & Hch & Hid). destruct (Hchans _ _ Hch) as (Hne & _). unfold fail_channel_of. rewrite Hch.
  set (other := if bool_decide (id = node_one chan) then node_two chan else node_one chan).
  assert (other <> id /\ (other = node_one chan \/ other = node_two chan) /\ forall i, i = node_one chan \/ i = node_two chan -> i = id \/ i = other) as (Ho & Hoe & Hends).
  { unfold other. case_bool_decide; destruct Hid; subst id; naive_solver. }
  assert (L scid other) as HLo by (apply HL; split; [by exists chan|done]).
  apply (nodes_linked _ _ _ _ Hok) in HLo as (node & Hn & Hin). rewrite Hn.
  pose proof (shrink_ok _ _ _ _ _ _ _ Hok Hn Hin) as Hs. pose proof (shrink_kept scid other node (nodes g, removed_node_counters g) Hn) as Hk.
  destruct (shrink_node scid other node (nodes g, removed_node_counters g)) as [N R] eqn:E. exists N, R. split_and!; [done| |done].
  assert ((shrink_node scid other node (nodes g, counter :: removed_node_counters g)).1 = N /\
          (shrink_node scid other node (nodes g, counter :: removed_node_counters g)).2 ≡ₚ counter :: R) as [<- HR].
  { revert E. unfold shrink_node. case_bool_decide; intros [= <- <-]; (split; [done|]); [apply Permutation_swap|done]. }
  revert Hs. apply nodes_ok_ext; [|done]. intros s i. rewrite HL. unfold linked. setoid_rewrite lookup_delete_Some. split.
  - intros [[(c & Hc & Hi) Hne'] Hnot]. split; [|done]. exists c. split; [split; [|done]|done]. intros <-. rewrite Hch in Hc. injection Hc as <-.
    destruct (Hends _ Hi); [done|]. by apply Hnot.
  - intros [(c & [Hsne Hc] & Hi) Hne']. split; [split; [by exists c|done]|]. intros [-> _]. done.
Qed.

Lemma fail_channels_of_ok id now scids g counter :
  nodes_ok (fun s i => linked (channels g) s i /\ i <> id) (nodes g) (counter :: removed_node_counters g) (next_node_counter g) ->
  channels_ok (channels g) (nodes g) -> NoDup scids -> (forall s, linked (channels g) s id <-> s ∈ scids) ->
  let g' := foldl (fun g scid => fail_channel_of id now scid g) g scids in
  nodes_ok (linked (channels g')) (nodes g') (counter :: removed_node_counters g') (next_node_counter g') /\
  channels_ok (channels g') (nodes g') /\ kept (nodes g) (nodes g').
Proof.
  revert g. induction scids as [|scid scids IH]; intros g Hok Hchans Hnd Hid g'; subst g'; cbn [foldl].
  - split_and!; [|exact Hchans|reflexivity]. revert Hok. apply nodes_ok_ext; [|done]. intros s i. split; [by intros [? _]|].
    intros Hl. split; [done|]. intros ->. apply Hid in Hl. by apply not_elem_of_nil in Hl.
  - apply NoDup_cons in Hnd as [Hnot Hnd].
    destruct (fail_channel_of_ok id now scid g counter (fun s i => linked (channels g) s i /\ i <> id) ltac:(intros; reflexivity) Hok Hchans)
      as (N & R & -> & Hok1 & Hk1); [apply Hid; left|].
    edestruct (IH (with_removed (<[scid := now]> (removed_channels g)) (removed_nodes g)
        (with_node_counters R (next_node_counter g) (with_nodes N (with_channels (delete scid (channels g)) g))))) as (Hok' & Hch' & Hk');
      [done| |done| |split_and!; [done|done|by etrans]].
    + apply channels_ok_delete. by apply (channels_ok_kept _ (nodes g)).
    + intros s. cbn. unfold linked. setoid_rewrite lookup_delete_Some. specialize (Hid s). unfold linked in Hid. rewrite elem_of_cons in Hid. split.
      * intros (c & [Hne Hc] & Hi). destruct (proj1 Hid) as [->|]; [by exists c|done|done].
      * intros Hs. destruct (proj2 Hid) as (c & Hc & Hi); [by right|]. exists c. split; [split; [by intros ->|done]|done].
Qed.

Lemma node_failed_ok pk now g : graph_ok g -> graph_ok (node_failed_permanent pk now g) /\ kept (nodes g) (nodes (node_failed_permanent pk now g)).
Proof.
  intros [Hok Hchans]. unfold node_failed_permanent. set (id := serialize pk). destruct (nodes g !! id) as [node|] eqn:Hn; [|by split].
  destruct Hok as [H1 H2 H3 H4]. assert (kept (nodes g) (delete id (nodes g))) as Hdel.
  { intros i n [_ Hi]%lookup_delete_Some. exists n. split; [done|by destruct n]. }
  destruct (fail_channels_of_ok id now (node_channels node) (with_nodes (delete id (nodes g)) g) (node_counter node)) as (Hok' & Hch' & Hk').
  - cbn. split; [| |done|].
    + intros s i. rewrite <- H1. setoid_rewrite lookup_delete_Some. naive_solver.
    + intros i n [_ Hi]%lookup_delete_Some. by apply (H2 i).
    + intros Hk. rewrite <- (H4 Hk), (counters_delete _ _ _ Hn). cbn. by rewrite Permutation_middle.
  - by apply (channels_ok_kept _ (nodes g)).
  - by apply (H2 id).
  - intros s. cbn. rewrite <- H1, Hn. naive_solver.
  - split; [by split|]. cbn. by etrans.
Qed.

End stale.
