(* ===== verification/GossipRuns.v ===== *)
(** * Runs of the network graph (lightning/src/routing/gossip.rs)

    Any sequence of calls on the graph, by peers or by the user: the graph stays consistent, and the
    post-quantum keys pinned for the nodes hold. *)

From Stdlib Require Import ZArith Lia Bool.
From stdpp Require Import strings gmap.
From S2P Require Import Prelude.
From S2P Require Import Features.
From S2P Require Import Keys.
From S2P Require Import Order.
From S2P Require Import Scripts.
From S2P Require Import Channel.
From S2P Require Import Ser.
From S2P Require Import Onion.
From S2P Require Import OnionPayload.
From S2P Require Import PqSign.
From S2P Require Import Gossip.
From S2P Require Import GossipGraph.
From S2P Require Import GossipStale.

Local Open Scope Z_scope.

Section runs.
Context {bitcoin : Bitcoin} {crypto : OnionCrypto} {scriptlib : ScriptLib} {ecdsa : EcdsaLib} {mldsa : MlDsa} {set_iter : SetIter}.

(** ** Calls *)

Inductive GossipCall : Type :=
| NodeAnnounced (msg : NodeAnnouncement) (held : bool)
| NodeAnnouncedUnsigned (msg : UnsignedNodeAnnouncement) (held : bool)
| ChannelAnnounced (msg : ChannelAnnouncement) (lookup : bool) (utxo : result GossipError (option Z)) (now : Z)
| ChannelAnnouncedUnsigned (msg : UnsignedChannelAnnouncement) (lookup : bool) (utxo : result GossipError (option Z)) (now : Z)
| ChannelAnnouncedPartial (scid : Z) (capacity : option Z) (timestamp : Z) (features : Features Features.ChannelContext) (id_1 id_2 : bytes)
| ChannelUpdated (msg : ChannelUpdate) (held : bool) (now : Z)
| ChannelUpdatedUnsigned (msg : UnsignedChannelUpdate) (held : bool) (now : Z)
| ChannelUpdateVerified (msg : ChannelUpdate) (held : bool) (now : Z)
| ChannelFailed (scid : Z) (now : option Z)
| NodeFailed (node_id : PublicKey) (now : option Z)
| StaleRemoved (now : Z).

Definition outcome {A} (r : run (NetworkGraph * result GossipError A)) : run (NetworkGraph * result GossipError unit) :=
  '(g, res) ← r; mret (g, match res with Ok _ => Ok tt | Err e => Err e end).
Definition done_ok (r : run NetworkGraph) : run (NetworkGraph * result GossipError unit) := g ← r; mret (g, Ok tt).

(** The messages of peers go through their handlers. *)
Definition apply_call (call : GossipCall) (g : NetworkGraph) : run (NetworkGraph * result GossipError unit) :=
  match call with
  | NodeAnnounced msg held => outcome (handle_node_announcement msg held g)
  | NodeAnnouncedUnsigned msg held => update_node_from_unsigned_announcement msg held g
  | ChannelAnnounced msg lookup utxo now => outcome (handle_channel_announcement msg lookup utxo now g)
  | ChannelAnnouncedUnsigned msg lookup utxo now => update_channel_from_unsigned_announcement msg lookup utxo now g
  | ChannelAnnouncedPartial scid capacity timestamp features id_1 id_2 =>
      add_channel_from_partial_announcement scid capacity timestamp features id_1 id_2 g
  | ChannelUpdated msg held now => outcome (handle_channel_update msg held now g)
  | ChannelUpdatedUnsigned msg held now => outcome (update_channel_unsigned msg held now g)
  | ChannelUpdateVerified msg held now => outcome (verify_channel_update msg held now g)
  | ChannelFailed scid now => done_ok (channel_failed_permanent_with_time scid now g)
  | NodeFailed node_id now => mret (node_failed_permanent node_id now g, Ok tt)
  | StaleRemoved now => done_ok (remove_stale_channels_and_tracking_with_time now g)
  end.
Fixpoint run_calls (calls : list GossipCall) (g : NetworkGraph) : run NetworkGraph :=
  match calls with
  | [] => mret g
  | call :: calls => '(g, _) ← apply_call call g; run_calls calls g
  end.

(** The post-quantum records of a signed message can be read. *)
Definition readable (call : GossipCall) : Prop :=
  match call with
  | NodeAnnounced msg _ => exists records, parse_records (na_excess_data (na_contents msg)) = Return records
  | ChannelUpdated msg _ _ | ChannelUpdateVerified msg _ _ => exists records, parse_records (cu_excess_data (cu_contents msg)) = Return records
  | _ => True
  end.

(** ** Node announcements *)

Definition pins (node : NodeInfo) : option bytes * option bytes := (pq_node_id node, pq_kem_node_id node).

Lemma check_pin_ok pinned key e1 e2 : check_pin pinned key e1 e2 = Ok tt -> forall k, pinned = Some k -> key = Some k.
Proof.
  unfold check_pin. destruct pinned as [k|]; [|done]. destruct key as [k'|]; [|done]. case_bool_decide; [|done]. cbn. by intros _ ? [= <-]; subst.
Qed.
Lemma pin_keys_ok node records node1 : pin_keys node records = Ok node1 ->
  node1 = mkNodeInfo (node_channels node) (announcement_info node) (pin (pq_node_id node) (pubkey records))
            (pin (pq_kem_node_id node) (kem_key records)) (node_counter node) /\
  (forall k, pq_node_id node = Some k -> pubkey records = Some k) /\ (forall e, pq_kem_node_id node = Some e -> kem_key records = Some e).
Proof.
  unfold pin_keys. destruct (check_pin (pq_node_id node) _ _ _) as [[]|] eqn:H1; [|done]. cbn [mbind result_bind].
  destruct (check_pin (pq_kem_node_id node) _ _ _) as [[]|] eqn:H2; [|done]. cbn [mbind result_bind]. case_match; [done|]. intros [= <-].
  split_and!; [done|by eapply check_pin_ok|by eapply check_pin_ok].
Qed.

(** The announcement is refused, or changes what is known of its node. *)
Lemma announcement_cases msg full_msg held g g' res :
  update_node_from_announcement_intern msg full_msg held g = Return (g', res) ->
  (g' = g /\ is_ok res = false) \/
  exists node node', nodes g !! na_node_id msg = Some node /\ g' = with_nodes (<[na_node_id msg := node']> (nodes g)) g /\ res = Ok tt /\
    node_channels node' = node_channels node /\ node_counter node' = node_counter node /\
    match full_msg with
    | Some _ => exists records node1, parse_records (na_excess_data msg) = Return records /\ pin_keys node records = Ok node1 /\ pins node' = pins node1
    | None => pins node' = pins node
    end.
Proof.
  unfold update_node_from_announcement_intern. destruct (nodes g !! na_node_id msg) as [node|]; [|intros [= <- <-]; by left].
  case_match; [intros [= <- <-]; by left|]. case_bool_decide; [intros [= <- <-]; by left|].
  destruct full_msg as [signed|].
  - destruct (parse_records (na_excess_data msg)) as [records|] eqn:Hp; [|done]. cbn [mbind run_bind mret run_ret].
    destruct (pin_keys node records) as [node1|e] eqn:Hk; [|intros [= <- <-]; by left]. intros [= <- <-]. right. exists node. eexists.
    split_and!; [done|done|done|..|eexists _, _; split_and!; done]; by apply pin_keys_ok in Hk as [-> _].
  - cbn [mbind run_bind mret run_ret]. intros [= <- <-]. right. exists node. eexists. by split_and!.
Qed.
Lemma announcement_returns msg full_msg held g :
  (is_Some full_msg -> exists records, parse_records (na_excess_data msg) = Return records) ->
  exists g' res, update_node_from_announcement_intern msg full_msg held g = Return (g', res).
Proof.
  intros Hr. unfold update_node_from_announcement_intern. destruct (nodes g !! na_node_id msg) as [node|]; [|by eexists _, _].
  case_match; [by eexists _, _|]. case_bool_decide; [by eexists _, _|]. destruct full_msg as [signed|].
  - destruct Hr as [records ->]; [done|]. cbn [mbind run_bind mret run_ret]. destruct (pin_keys node records); by eexists _, _.
  - by eexists _, _.
Qed.

Lemma verify_announcement_returns msg :
  (exists records, parse_records (na_excess_data (na_contents msg)) = Return records) -> exists res, verify_node_announcement msg = Return res.
Proof.
  intros [records Hr]. unfold verify_node_announcement, check_pq_announcement. destruct (check_signature _ _ _); [|by eexists].
  rewrite Hr. by eexists.
Qed.
Lemma signed_announcement_cases msg held g g' res :
  update_node_from_announcement msg held g = Return (g', res) ->
  (g' = g /\ is_ok res = false) \/
  (verify_node_announcement msg = Return (Ok tt) /\ update_node_from_announcement_intern (na_contents msg) (Some msg) held g = Return (g', res)).
Proof.
  unfold update_node_from_announcement. case_bool_decide; [intros [= <- <-]; by left|].
  destruct (verify_node_announcement msg) as [[[]|e]|]; cbn [mbind run_bind mret run_ret]; [auto|intros [= <- <-]; by left|done].
Qed.
Lemma signed_announcement_returns msg held g :
  (exists records, parse_records (na_excess_data (na_contents msg)) = Return records) ->
  exists g' res, update_node_from_announcement msg held g = Return (g', res).
Proof.
  intros Hr. unfold update_node_from_announcement. case_bool_decide; [by eexists _, _|].
  destruct (verify_announcement_returns msg Hr) as [[[]|e] ->]; cbn [mbind run_bind mret run_ret]; [|by eexists _, _].
  by apply announcement_returns.
Qed.

Lemma announced_graph_ok g id node node' :
  graph_ok g -> nodes g !! id = Some node -> node_channels node' = node_channels node -> node_counter node' = node_counter node ->
  graph_ok (with_nodes (<[id := node']> (nodes g)) g).
Proof.
  intros [[H1 H2 H3 H4] Hchans] Hn Hc Hk. split; [split|]; cbn.
  - intros s i. rewrite <- H1. destruct (decide (i = id)) as [->|Hne]; [|by rewrite lookup_insert_ne].
    rewrite lookup_insert_eq, Hn. split; intros (? & [= <-] & Hs); eexists; (split; [done|congruence]).
  - intros i n. destruct (decide (i = id)) as [->|Hne]; [|rewrite lookup_insert_ne by done; apply H2].
    rewrite lookup_insert_eq. intros [= <-]. rewrite Hc. by apply (H2 id).
  - done.
  - intros Hle. rewrite (counters_replace _ _ node) by done. by apply H4.
  - assert (forall i k, counter_matches (nodes g) i k -> counter_matches (<[id := node']> (nodes g)) i k) as Hm.
    { intros i k Hi n. rewrite lookup_insert_Some. intros [[<- <-]|[_ ?]]; [rewrite Hk|]; by apply Hi. }
    intros s c Hs. destruct (Hchans _ _ Hs) as (? & ? & ?). split_and!; auto.
Qed.

(** ** Channel updates *)

Lemma update_cases msg full_msg sig only_verify held now g g' res :
  update_channel_internal msg full_msg sig only_verify held now g = Return (g', res) ->
  (exists C, g' = with_channels C g /\ forall scid, ends <$> C !! scid = ends <$> channels g !! scid) /\
  (is_ok res = true -> exists chan, channels g !! cu_short_channel_id msg = Some chan /\ check_update_signatures msg sig chan g = Return (Ok tt)).
Proof.
  assert (forall r, Return (g, r) = Return (g', res) -> exists C, g' = with_channels C g /\ forall scid, ends <$> C !! scid = ends <$> channels g !! scid) as Hsame.
  { intros r [= <- _]. exists (channels g). split; [by destruct g|done]. }
  unfold update_channel_internal. destruct (check_update_message msg now g); [|intros E; split; [by eapply Hsame|by injection E as _ <-]].
  destruct (channels g !! cu_short_channel_id msg) as [chan|] eqn:Hch; [|intros E; split; [by eapply Hsame|by injection E as _ <-]].
  destruct (check_msg_sanity msg chan); [|intros E; split; [by eapply Hsame|by injection E as _ <-]].
  destruct (check_update_signatures msg sig chan g) as [[[]|e]|] eqn:Hsig; cbn [mbind run_bind mret run_ret]; [|intros E; split; [by eapply Hsame|by injection E as _ <-]|done].
  destruct only_verify; [intros E; split; [by eapply Hsame|by exists chan]|]. intros [= <- <-]. split; [|by exists chan]. eexists. split; [done|].
  intros scid. destruct (decide (scid = cu_short_channel_id msg)) as [->|Hne]; [|by rewrite lookup_insert_ne].
  rewrite lookup_insert_eq, Hch. cbn. f_equal. by destruct (from_node_two msg).
Qed.
Lemma update_returns msg full_msg sig only_verify held now g :
  (is_Some sig -> exists records, parse_records (cu_excess_data msg) = Return records) ->
  exists g' res, update_channel_internal msg full_msg sig only_verify held now g = Return (g', res).
Proof.
  intros Hr. unfold update_channel_internal. destruct (check_update_message msg now g); [|by eexists _, _].
  destruct (channels g !! cu_short_channel_id msg) as [chan|]; [|by eexists _, _]. destruct (check_msg_sanity msg chan); [|by eexists _, _].
  assert (exists r, check_update_signatures msg sig chan g = Return r) as [r ->].
  { unfold check_update_signatures, check_pq_update. destruct sig as [sig|]; [|by eexists]. destruct Hr as [records ->]; [done|].
    repeat case_match; by eexists. }
  cbn [mbind run_bind mret run_ret]. destruct r; [|by eexists _, _]. destruct only_verify; by eexists _, _.
Qed.

(** ** What a call does to the nodes *)

(** The keys pinned for a node are still pinned. *)
Definition pins_extended (node node' : NodeInfo) : Prop :=
  (forall key, pq_node_id node = Some key -> pq_node_id node' = Some key) /\
  (forall key, pq_kem_node_id node = Some key -> pq_kem_node_id node' = Some key).

(** The channel a call announces with an output on chain: one of this identifier that is known
    already is removed and added again. *)
Definition reannounced (call : GossipCall) : option Z :=
  match call with
  | ChannelAnnounced msg _ (Ok (Some _)) _ => Some (ca_short_channel_id (ca_contents msg))
  | ChannelAnnouncedUnsigned msg _ (Ok (Some _)) _ => Some (ca_short_channel_id msg)
  | _ => None
  end.

(** Where the pins of a node come from: it had them, it has none, or the call is its
    announcement. *)
Definition pins_from (call : GossipCall) (N : gmap bytes NodeInfo) (id : bytes) (node' : NodeInfo) : Prop :=
  (exists node, N !! id = Some node /\ pins node' = pins node) \/ pins node' = (None, None) \/
  (exists msg held node records node1, call = NodeAnnounced msg held /\ id = na_node_id (na_contents msg) /\ N !! id = Some node /\
     verify_node_announcement msg = Return (Ok tt) /\ parse_records (na_excess_data (na_contents msg)) = Return records /\
     pin_keys node records = Ok node1 /\ pins node' = pins node1).

Record nodes_step (call : GossipCall) (N N' : gmap bytes NodeInfo) : Prop := {
  step_pins id node node' : N !! id = Some node -> N' !! id = Some node' ->
    pins_extended node node' \/ exists scid, reannounced call = Some scid /\ node_channels node = [scid];
  step_from id node' : N' !! id = Some node' -> pins_from call N id node';
}.

Lemma kept_step call N N' : kept N N' -> nodes_step call N N'.
Proof.
  intros Hk. split.
  - intros id node node' Hn Hn'. left. apply Hk in Hn' as (n & Hn0 & ->). rewrite Hn in Hn0. by injection Hn0 as ->.
  - intros id node' Hn'. left. apply Hk in Hn' as (n & Hn0 & ->). by exists n.
Qed.

(** Nodes that are added have no pins. *)
Definition grown (N N' : gmap bytes NodeInfo) : Prop :=
  forall id node', N' !! id = Some node' -> pins node' = (None, None) \/ exists node, N !! id = Some node /\ pins node' = pins node.
Lemma grown_trans N1 N2 N3 : grown N1 N2 -> grown N2 N3 -> grown N1 N3.
Proof.
  intros H12 H23 id n3 H3. apply H23 in H3 as [?|(n2 & H2 & E3)]; [by left|]. apply H12 in H2 as [E2|(n1 & H1 & E2)]; rewrite E3, E2; [by left|].
  right. by exists n1.
Qed.
Lemma kept_grown N N' : kept N N' -> grown N N'.
Proof. intros Hk id node' Hn'. apply Hk in Hn' as (n & Hn & ->). right. by exists n. Qed.
Lemma add_to_node_grown scid id g : grown (nodes g) (nodes (add_to_node scid id g).1).
Proof.
  unfold add_to_node. intros i n'. destruct (nodes g !! id) as [node|] eqn:Hn.
  - cbn. rewrite lookup_insert_Some. intros [[<- <-]|[_ Hi]]; right; by eexists.
  - destruct (match removed_node_counters g with [] => _ | _ => _ end) as [[counter removed] next]. cbn.
    rewrite lookup_insert_Some. intros [[<- <-]|[_ Hi]]; [by left|right; by eexists].
Qed.
Lemma put_channel_grown scid info g : grown (nodes g) (nodes (put_channel scid info g)).
Proof.
  unfold put_channel. pose proof (add_to_node_grown scid (node_one info) g) as H1. destruct (add_to_node scid (node_one info) g) as [g1 one].
  pose proof (add_to_node_grown scid (node_two info) g1) as H2. destruct (add_to_node scid (node_two info) g1) as [g2 two]. cbn.
  by eapply grown_trans.
Qed.
Lemma add_channel_grown scid info utxo g g' res :
  graph_ok g -> add_channel_between_nodes scid info utxo g = Return (g', res) -> grown (nodes g) (nodes g').
Proof.
  intros [Hok Hchans]. unfold add_channel_between_nodes. destruct (channels g !! scid) as [known|] eqn:Hch.
  - destruct (is_some utxo); [|intros [= <- <-]; by apply kept_grown].
    destruct (remove_channel_ok g known scid _ Hok Hch) as (N & R & -> & _ & Hk); [by apply (Hchans scid)|]. cbn [mbind run_bind mret run_ret].
    intros [= <- <-]. eapply grown_trans; [by apply kept_grown|]. apply put_channel_grown.
  - intros [= <- <-]. apply put_channel_grown.
Qed.

(** A channel between two different nodes is added. *)
Lemma add_channel_step call scid info utxo g :
  graph_ok g -> node_one info <> node_two info -> (is_Some utxo -> reannounced call = Some scid) ->
  exists g' res, add_channel_between_nodes scid info utxo g = Return (g', res) /\ graph_ok g' /\ nodes_step call (nodes g) (nodes g').
Proof.
  intros Hok Hne Hre. destruct (add_channel_ok scid info utxo g Hok Hne) as (g' & res & E & Hok' & Hn'). exists g', res. split; [done|].
  split; [done|]. split.
  - intros id node node' H1 H2. destruct (Hn' _ _ _ H1 H2) as [->|[Hu Hc]]; [by left|right]. exists scid. auto.
  - intros id node' H2. eapply add_channel_grown in E; [|done]. apply E in H2 as [?|?]; [by right; left|by left].
Qed.

Lemma announced_step call g id node node' :
  nodes g !! id = Some node -> pins_extended node node' -> pins_from call (nodes g) id node' -> nodes_step call (nodes g) (<[id := node']> (nodes g)).
Proof.
  intros Hn Hext Hfrom. split.
  - intros i n n' Hi. rewrite lookup_insert_Some. intros [[<- <-]|[_ Hi']]; left; [rewrite Hn in Hi; by injection Hi as <-|].
    rewrite Hi in Hi'. by injection Hi' as <-.
  - intros i n'. rewrite lookup_insert_Some. intros [[<- <-]|[_ Hi']]; [done|left; by exists n'].
Qed.
Lemma node_announced_step msg held g g' res :
  graph_ok g -> update_node_from_announcement msg held g = Return (g', res) -> graph_ok g' /\ nodes_step (NodeAnnounced msg held) (nodes g) (nodes g').
Proof.
  intros Hok [[-> _]|[Hv H]]%signed_announcement_cases; [split; [done|by apply kept_step]|].
  apply announcement_cases in H as [[-> _]|(node & node' & Hn & -> & -> & Hc & Hk & records & node1 & Hp & Hpin & E)]; [split; [done|by apply kept_step]|].
  split; [by eapply announced_graph_ok|]. apply (announced_step _ g _ node); [done| |].
  - apply pin_keys_ok in Hpin as (-> & _). injection E as E1 E2. split; intros key Hkey; rewrite ?E1, ?E2, Hkey; done.
  - right. right. by exists msg, held, node, records, node1.
Qed.
Lemma unsigned_announced_step call msg held g g' res :
  graph_ok g -> update_node_from_unsigned_announcement msg held g = Return (g', res) -> graph_ok g' /\ nodes_step call (nodes g) (nodes g').
Proof.
  intros Hok [[-> _]|(node & node' & Hn & -> & -> & Hc & Hk & E)]%announcement_cases; [split; [done|by apply kept_step]|].
  split; [by eapply announced_graph_ok|]. apply (announced_step _ g _ node); [done| |left; by exists node].
  injection E as E1 E2. split; intros key Hkey; by rewrite ?E1, ?E2.
Qed.

Lemma update_step call msg full_msg sig only_verify held now g g' res :
  graph_ok g -> update_channel_internal msg full_msg sig only_verify held now g = Return (g', res) ->
  graph_ok g' /\ nodes_step call (nodes g) (nodes g').
Proof. intros Hok [(C & -> & HC) _]%update_cases. split; [by apply graph_ok_channels|by apply kept_step]. Qed.

Lemma nodes_sorted_ne id_1 id_2 : nodes_sorted id_1 id_2 = true -> id_1 <> id_2.
Proof. unfold nodes_sorted. intros H ->. by rewrite (proj2 (slice_cmp_Eq id_2 id_2) eq_refl) in H. Qed.

(** The announcement of a channel. *)
Lemma channel_announced_step call msg full_msg utxo now g :
  graph_ok g -> (forall value, utxo = Ok (Some value) -> reannounced call = Some (ca_short_channel_id msg)) ->
  exists g' res, update_channel_from_unsigned_announcement_intern msg full_msg utxo now g = Return (g', res) /\ graph_ok g' /\
    nodes_step call (nodes g) (nodes g').
Proof.
  intros Hok Hre. assert (forall e, exists g' (res : result GossipError unit), mret (g, Err e) = Return (g', res) /\ graph_ok g' /\ nodes_step call (nodes g) (nodes g')) as Hno.
  { intros e. eexists _, _. split; [done|]. split; [done|by apply kept_step]. }
  unfold update_channel_from_unsigned_announcement_intern.
  destruct (bool_decide (ca_node_id_1 msg = ca_node_id_2 msg)) eqn:Hids; [apply Hno|]. apply bool_decide_eq_false in Hids. cbn [orb].
  case_bool_decide; [apply Hno|]. case_match; [apply Hno|]. case_match; [apply Hno|].
  destruct utxo as [value|]; [|apply Hno]. apply add_channel_step; [done|done|]. intros [v ->]. by eapply Hre.
Qed.

Ltac refused := eexists _, _; split; [done|]; split; [done|by apply kept_step].
Lemma signed_channel_step msg lookup utxo now g : graph_ok g ->
  exists g' res, update_channel_from_announcement msg lookup utxo now g = Return (g', res) /\ graph_ok g' /\
    nodes_step (ChannelAnnounced msg lookup utxo now) (nodes g) (nodes g').
Proof.
  intros Hok. unfold update_channel_from_announcement. destruct (pre_channel_announcement_validation_check _ _ _); [|refused].
  destruct (verify_channel_announcement msg); [|refused]. apply channel_announced_step; [done|]. by intros value ->.
Qed.
Lemma unsigned_channel_step msg lookup utxo now g : graph_ok g ->
  exists g' res, update_channel_from_unsigned_announcement msg lookup utxo now g = Return (g', res) /\ graph_ok g' /\
    nodes_step (ChannelAnnouncedUnsigned msg lookup utxo now) (nodes g) (nodes g').
Proof.
  intros Hok. unfold update_channel_from_unsigned_announcement. destruct (pre_channel_announcement_validation_check _ _ _); [|refused].
  apply channel_announced_step; [done|]. by intros value ->.
Qed.
Lemma partial_channel_step call scid capacity timestamp features id_1 id_2 g : graph_ok g ->
  exists g' res, add_channel_from_partial_announcement scid capacity timestamp features id_1 id_2 g = Return (g', res) /\ graph_ok g' /\
    nodes_step call (nodes g) (nodes g').
Proof.
  intros Hok. unfold add_channel_from_partial_announcement. destruct (nodes_sorted id_1 id_2) eqn:Hs; [|refused]. cbn [negb].
  apply add_channel_step; [done|by apply nodes_sorted_ne|]. by intros [? ?].
Qed.

Context {iter_laws : SetIterLaws}.

Lemma stale_step call now g : graph_ok g ->
  exists g', remove_stale_channels_and_tracking_with_time now g = Return g' /\ graph_ok g' /\ nodes_step call (nodes g) (nodes g').
Proof.
  intros Hok. destruct (decide (STALE_CHANNEL_UPDATE_AGE_LIMIT_SECS <= now <= umax 32)) as [Hnow|Hnow].
  - destruct (stale_bulk now g Hnow Hok) as (N & R & _ & -> & Hok' & Hk). eexists. split; [done|]. split; [exact Hok'|by apply kept_step].
  - exists g. split; [|split; [done|by apply kept_step]]. unfold remove_stale_channels_and_tracking_with_time.
    destruct (Z.ltb_spec (umax 32) now); [done|]. destruct (Z.ltb_spec now STALE_CHANNEL_UPDATE_AGE_LIMIT_SECS); [done|]. lia.
Qed.
Lemma channel_failed_step call scid now g : graph_ok g ->
  exists g', channel_failed_permanent_with_time scid now g = Return g' /\ graph_ok g' /\ nodes_step call (nodes g) (nodes g').
Proof.
  intros Hok. destruct (channel_failed_ok scid now g Hok) as (N & R & E & Hrem). eexists. split; [exact E|].
  destruct (channels g !! scid) as [chan|] eqn:Hch; [|split; [done|by apply kept_step]].
  destruct (Hrem _ eq_refl) as (_ & HN & Hk). split; [|by apply kept_step]. split; [done|]. cbn.
  apply channels_ok_delete. apply (channels_ok_kept _ (nodes g)); [done|]. by destruct Hok.
Qed.

Lemma outcome_return {A} (r : run (NetworkGraph * result GossipError A)) g res :
  outcome r = Return (g, res) -> exists res', r = Return (g, res') /\ is_ok res' = is_ok res.
Proof. destruct r as [[g1 [a|e]]|]; [..|done]; intros [= <- <-]; by eexists. Qed.
Lemma returned_step {r : run NetworkGraph} {call N g' res} :
  (exists g', r = Return g' /\ graph_ok g' /\ nodes_step call N (nodes g')) -> done_ok r = Return (g', res) ->
  graph_ok g' /\ nodes_step call N (nodes g').
Proof. intros (g1 & -> & ? & ?) [= <- <-]. done. Qed.
Lemma resulting_step {A} {r : run (NetworkGraph * result GossipError A)} {call N g' res} :
  (exists g' res, r = Return (g', res) /\ graph_ok g' /\ nodes_step call N (nodes g')) -> r = Return (g', res) ->
  graph_ok g' /\ nodes_step call N (nodes g').
Proof. intros (g1 & res1 & -> & ? & ?) [= <- <-]. done. Qed.

(** The handlers of the messages of peers leave the graph as the graph's own operations do. *)
Lemma handle_node_outcome msg held g g' res :
  outcome (handle_node_announcement msg held g) = Return (g', res) ->
  exists res', update_node_from_announcement msg held g = Return (g', res') /\ is_ok res' = is_ok res.
Proof.
  unfold handle_node_announcement. destruct (update_node_from_announcement msg held g) as [[g1 [[]|e]]|]; [..|done]; intros [= <- <-]; by eexists.
Qed.
Lemma handle_channel_outcome msg lookup utxo now g g' res :
  outcome (handle_channel_announcement msg lookup utxo now g) = Return (g', res) ->
  exists res', update_channel_from_announcement msg lookup utxo now g = Return (g', res') /\ is_ok res' = is_ok res.
Proof.
  unfold handle_channel_announcement. destruct (update_channel_from_announcement _ _ _ _ g) as [[g1 [[]|e]]|]; [..|done]; intros [= <- <-]; by eexists.
Qed.
Lemma handle_update_outcome msg held now g g' res :
  outcome (handle_channel_update msg held now g) = Return (g', res) ->
  (g' = g /\ is_ok res = false) \/ exists res', update_channel msg held now g = Return (g', res') /\ is_ok res' = is_ok res.
Proof.
  unfold handle_channel_update. destruct (negb _); [intros [= <- <-]; by left|].
  destruct (update_channel msg held now g) as [[g1 [a|e]]|]; [..|done]; intros [= <- <-]; right; by eexists.
Qed.

Lemma apply_call_step call g g' res : graph_ok g -> apply_call call g = Return (g', res) -> graph_ok g' /\ nodes_step call (nodes g) (nodes g').
Proof.
  intros Hok. destruct call; cbn [apply_call].
  - intros (res' & H & _)%handle_node_outcome. by eapply node_announced_step.
  - by apply unsigned_announced_step.
  - intros (res' & H & _)%handle_channel_outcome. revert H. by apply resulting_step, signed_channel_step.
  - by apply resulting_step, unsigned_channel_step.
  - by apply resulting_step, partial_channel_step.
  - intros [[-> _]|(res' & H & _)]%handle_update_outcome; [split; [done|by apply kept_step]|by eapply update_step].
  - intros (res' & H & _)%outcome_return. by eapply update_step.
  - intros (res' & H & _)%outcome_return. by eapply update_step.
  - by apply returned_step, channel_failed_step.
  - intros [= <- <-]. destruct (node_failed_ok node_id now g Hok) as [Hok1 Hk]. split; [done|by apply kept_step].
  - by apply returned_step, stale_step.
Qed.

Lemma apply_call_returns call g : graph_ok g -> readable call -> exists g' res, apply_call call g = Return (g', res).
Proof.
  intros Hok Hr. destruct call; cbn [apply_call].
  - destruct (signed_announcement_returns msg held g Hr) as (g' & res & E). unfold handle_node_announcement. rewrite E. by eexists _, _.
  - by apply announcement_returns.
  - destruct (signed_channel_step msg lookup utxo now g Hok) as (g' & res & E & _). unfold handle_channel_announcement. rewrite E. by eexists _, _.
  - destruct (unsigned_channel_step msg lookup utxo now g Hok) as (g' & res & E & _). by eexists _, _.
  - destruct (partial_channel_step (StaleRemoved 0) scid capacity timestamp features id_1 id_2 g Hok) as (g' & res & E & _). by eexists _, _.
  - unfold handle_channel_update. destruct (negb _); [by eexists _, _|].
    destruct (update_returns (cu_contents msg) (Some msg) (Some (cu_signature msg)) false held now g ltac:(done)) as (g' & res & E).
    unfold update_channel. rewrite E. by eexists _, _.
  - destruct (update_returns msg None None false held now g ltac:(by intros [? ?])) as (g' & res & E).
    unfold update_channel_unsigned. rewrite E. by eexists _, _.
  - destruct (update_returns (cu_contents msg) (Some msg) (Some (cu_signature msg)) true held now g ltac:(done)) as (g' & res & E).
    unfold verify_channel_update. rewrite E. by eexists _, _.
  - destruct (channel_failed_step (StaleRemoved 0) scid now g Hok) as (g' & -> & _). by eexists _, _.
  - by eexists _, _.
  - destruct (stale_step (StaleRemoved 0) now g Hok) as (g' & -> & _). by eexists _, _.
Qed.

(** ** Whole runs *)

Lemma graph_ok_new chain : graph_ok (network_graph_new chain).
Proof.
  split; [split|]; cbn; [|done|done|by intros _|done].
  intros scid id. unfold linked. setoid_rewrite lookup_empty. naive_solver.
Qed.
Lemma run_calls_ok calls g g' : graph_ok g -> run_calls calls g = Return g' -> graph_ok g'.
Proof.
  revert g. induction calls as [|call calls IH]; intros g Hok; cbn [run_calls]; [by intros [= <-]|].
  destruct (apply_call call g) as [[g1 res]|] eqn:E; [|done]. cbn [mbind run_bind]. apply IH. by eapply apply_call_step.
Qed.
Lemma run_calls_app calls calls' g : run_calls (calls ++ calls') g = (g ← run_calls calls g; run_calls calls' g).
Proof.
  revert g. induction calls as [|call calls IH]; intros g; [done|]. cbn [app run_calls].
  destruct (apply_call call g) as [[g1 res]|]; [|done]. cbn [mbind run_bind]. apply IH.
Qed.

(** C9: Whatever messages peers send and whatever channels and nodes are removed, in any order, the
    graph is consistent: every channel is one of the channels of its two nodes, which are in the graph,
    and of no other node; no node is without a channel; the counters given to the nodes and those given
    back are, each once, the numbers below the next counter; and the channels carry the counters of
    their nodes.  None of the calls panics, provided the post-quantum records of signed messages can be
    read. *)
Theorem graph_stays_consistent chain calls : Forall readable calls ->
  exists g, run_calls calls (network_graph_new chain) = Return g /\ graph_ok g.
Proof.
  intros Hr. assert (forall g, graph_ok g -> exists g', run_calls calls g = Return g' /\ graph_ok g') as Hgen; [|apply Hgen, graph_ok_new].
  induction Hr as [|call calls Hcall _ IH]; intros g Hok; [by exists g|]. cbn [run_calls].
  destruct (apply_call_returns call g Hok Hcall) as (g1 & res & E). rewrite E. cbn [mbind run_bind]. apply IH. by eapply apply_call_step.
Qed.

(** ** Pinned keys *)

(** The announcement carries these keys, and an ML-DSA signature under the first one. *)
Definition pq_signed_announcement (key : bytes) (kem : option bytes) (contents : UnsignedNodeAnnouncement) : Prop :=
  exists records sig, parse_records (na_excess_data contents) = Return records /\ pubkey records = Some key /\ kem_key records = kem /\
    signature records = Some sig /\
    pq_verify key (node_announcement_write (with_na_excess_data (signed_excess (na_excess_data contents) records) contents)) sig PQ_CONTEXT_GOSSIP = true.
Definition pq_signed_update (key : bytes) (msg : UnsignedChannelUpdate) : Prop :=
  exists records sig, parse_records (cu_excess_data msg) = Return records /\ signature records = Some sig /\
    pq_verify key (channel_update_write (with_cu_excess_data (signed_excess (cu_excess_data msg) records) msg)) sig PQ_CONTEXT_GOSSIP = true.

Lemma verified_records msg records :
  verify_node_announcement msg = Return (Ok tt) -> parse_records (na_excess_data (na_contents msg)) = Return records ->
  (forall key, pubkey records = Some key -> pq_signed_announcement key (kem_key records) (na_contents msg)) /\
  (is_Some (kem_key records) -> is_Some (pubkey records)).
Proof.
  intros Hv Hp. unfold verify_node_announcement in Hv. destruct (check_signature _ _ _); [|done].
  unfold check_pq_announcement in Hv. rewrite Hp in Hv. cbn [mbind run_bind mret run_ret] in Hv.
  destruct (pubkey records) as [k|] eqn:Hpk, (signature records) as [sig|] eqn:Hsig; cbn in Hv; try done.
  - rewrite andb_false_r in Hv. split; [|by eexists]. intros key [= <-]. exists records, sig. split_and!; try done.
    destruct (pq_verify _ _ _ _); [done|by injection Hv].
  - split; [done|]. intros [e He]. by rewrite He in Hv.
Qed.

(** The pins of the nodes were announced, and signed, in one of the calls. *)
Definition signed_in (calls : list GossipCall) (id key : bytes) (kem : option bytes) : Prop :=
  exists msg held, NodeAnnounced msg held ∈ calls /\ na_node_id (na_contents msg) = id /\ verify_node_announcement msg = Return (Ok tt) /\
    pq_signed_announcement key kem (na_contents msg).
Definition pins_signed (calls : list GossipCall) (N : gmap bytes NodeInfo) : Prop :=
  forall id node, N !! id = Some node ->
    (forall key, pq_node_id node = Some key -> exists kem, signed_in calls id key kem) /\
    (forall kem, pq_kem_node_id node = Some kem -> exists key, pq_node_id node = Some key /\ signed_in calls id key (Some kem)).

Lemma signed_in_weaken calls calls' id key kem : signed_in calls id key kem -> signed_in (calls ++ calls') id key kem.
Proof. intros (msg & held & Hin & ?). exists msg, held. split; [|done]. apply elem_of_app. by left. Qed.

Lemma pins_signed_step calls call N N' : pins_signed calls N -> nodes_step call N N' -> pins_signed (calls ++ [call]) N'.
Proof.
  intros HN Hstep id node' Hn'.
  assert (forall node, N !! id = Some node -> (forall key, pq_node_id node = Some key -> exists kem, signed_in (calls ++ [call]) id key kem) /\
    (forall kem, pq_kem_node_id node = Some kem -> exists key, pq_node_id node = Some key /\ signed_in (calls ++ [call]) id key (Some kem))) as Hold.
  { intros node Hn. destruct (HN _ _ Hn) as [H1 H2]. split.
    - intros key Hkey. destruct (H1 _ Hkey) as [kem ?]. exists kem. by apply signed_in_weaken.
    - intros kem Hkem. destruct (H2 _ Hkem) as (key & ? & ?). exists key. split; [done|by apply signed_in_weaken]. }
  destruct (step_from _ _ _ Hstep id node' Hn')
    as [(node & Hn & [= -> ->])|[[= -> ->]|(msg & held & node & records & node1 & -> & Hid & Hn & Hv & Hp & Hpin & [= -> ->])]]; [by apply Hold|done|].
  destruct (Hold _ Hn) as [H1 H2]. apply pin_keys_ok in Hpin as (-> & Hk1 & Hk2). destruct (verified_records _ _ Hv Hp) as [Hsig Hkem]. cbn.
  assert (forall key, pubkey records = Some key -> signed_in (calls ++ [NodeAnnounced msg held]) id key (kem_key records)) as Hnew.
  { intros key Hkey. exists msg, held. split_and!; [apply elem_of_app; right; left|done|done|by apply Hsig]. }
  split.
  - intros key. destruct (pq_node_id node) as [k|]; cbn; [apply H1|]. intros Hkey. exists (kem_key records). by apply Hnew.
  - intros kem. destruct (pq_kem_node_id node) as [e|]; cbn.
    + intros Hkem'. destruct (H2 _ Hkem') as (key & Hkey & ?). exists key. by rewrite Hkey.
    + intros He. destruct Hkem as [key Hkey]; [by eexists|]. exists key. rewrite <- He. split; [|by apply Hnew].
      destruct (pq_node_id node) as [k|]; cbn; [|done]. rewrite <- Hkey. symmetry. by apply Hk1.
Qed.

(** A key is only ever pinned by an announcement that it signs. *)
Lemma run_pins_signed chain calls g : run_calls calls (network_graph_new chain) = Return g -> pins_signed calls (nodes g).
Proof.
  intros Hrun. assert (graph_ok g /\ pins_signed calls (nodes g)) as [_ ?]; [|done]. revert g Hrun.
  induction calls as [|call calls IH] using rev_ind; intros g.
  - cbn. intros [= <-]. split; [apply graph_ok_new|]. by intros id node.
  - rewrite run_calls_app. destruct (run_calls calls (network_graph_new chain)) as [g1|]; [|done]. cbn [mbind run_bind run_calls].
    destruct (apply_call call g1) as [[g2 res]|] eqn:E; [|done]. cbn [mbind run_bind mret run_ret]. intros [= <-].
    destruct (IH g1 eq_refl) as [Hok Hpins]. destruct (apply_call_step _ _ _ _ Hok E) as [? Hstep]. split; [done|by eapply pins_signed_step].
Qed.

(** The node an update of a channel comes from. *)
Definition update_source (msg : UnsignedChannelUpdate) (g : NetworkGraph) : option bytes :=
  (fun chan => if from_node_two msg then node_two chan else node_one chan) <$> channels g !! cu_short_channel_id msg.

Lemma accepted_announcement msg held g g' res node key :
  update_node_from_announcement msg held g = Return (g', res) -> is_ok res = true -> nodes g !! na_node_id (na_contents msg) = Some node ->
  pq_node_id node = Some key ->
  exists kem, pq_signed_announcement key kem (na_contents msg) /\ (forall e, pq_kem_node_id node = Some e -> kem = Some e).
Proof.
  intros [[_ Hres]|[Hv H]]%signed_announcement_cases Hok Hn Hkey; [congruence|].
  apply announcement_cases in H as [[_ Hres]|(node0 & node' & Hn0 & _ & _ & _ & _ & records & node1 & Hp & Hpin & _)]; [congruence|].
  rewrite Hn in Hn0. injection Hn0 as <-. apply pin_keys_ok in Hpin as (_ & Hk1 & Hk2). exists (kem_key records). split; [|done].
  apply verified_records; auto.
Qed.

Context {crypto_laws : OnionCryptoLaws}.

Lemma accepted_update msg held now g g' res pk node key :
  update_channel msg held now g = Return (g', res) -> is_ok res = true -> update_source (cu_contents msg) g = Some (serialize pk) ->
  nodes g !! serialize pk = Some node -> pq_node_id node = Some key -> pq_signed_update key (cu_contents msg).
Proof.
  intros [_ H]%update_cases Hok Hsrc Hn Hkey. destruct (H Hok) as (chan & Hch & Hsig). unfold update_source in Hsrc. rewrite Hch in Hsrc.
  injection Hsrc as Hsrc. unfold check_update_signatures in Hsig. rewrite Hsrc, public_slice in Hsig. destruct (negb _); [done|].
  unfold check_pq_update in Hsig. rewrite Hn in Hsig. cbn [mbind option_bind] in Hsig. rewrite Hkey in Hsig.
  destruct (parse_records _) as [records|] eqn:Hp; [|done]. cbn [mbind run_bind mret run_ret] in Hsig.
  destruct (signature records) as [sig|] eqn:Hs; [|done]. exists records, sig. split_and!; [done|done|].
  destruct (pq_verify _ _ _ _); [done|by injection Hsig].
Qed.

(** C8: An ML-DSA key that is pinned for a node came in an announcement of that node with a valid
    ECDSA signature and an ML-DSA signature under the key itself. From then on no call changes it,
    nor the ML-KEM key pinned with it, as long as the node stays in the graph, but for one: a
    channel announced again with its output on chain takes the pins of a node that had no other
    channel. And every signed announcement and every signed channel update of the node that is
    accepted has an ML-DSA signature under the pinned key, the announcement with the pinned keys:
    the ECDSA signature alone, which is all that a quantum adversary can forge, is not enough. *)
Theorem pinned_keys_hold chain calls g call g' res id node key :
  run_calls calls (network_graph_new chain) = Return g -> apply_call call g = Return (g', res) ->
  nodes g !! id = Some node -> pq_node_id node = Some key ->
  (exists kem, signed_in calls id key kem) /\
  (forall node', nodes g' !! id = Some node' ->
     pins_extended node node' \/ exists scid, reannounced call = Some scid /\ node_channels node = [scid]) /\
  (forall msg held, call = NodeAnnounced msg held -> na_node_id (na_contents msg) = id -> is_ok res = true ->
     exists kem, pq_signed_announcement key kem (na_contents msg) /\ (forall e, pq_kem_node_id node = Some e -> kem = Some e)) /\
  (forall msg held now pk, call = ChannelUpdated msg held now -> update_source (cu_contents msg) g = Some (serialize pk) -> id = serialize pk ->
     is_ok res = true -> pq_signed_update key (cu_contents msg)).
Proof.
  intros Hrun Hcall Hn Hkey. pose proof (run_calls_ok _ _ _ (graph_ok_new chain) Hrun) as Hok.
  destruct (apply_call_step _ _ _ _ Hok Hcall) as [_ Hstep]. split_and!.
  - destruct (run_pins_signed _ _ _ Hrun _ _ Hn) as [Hsigned _]. by apply Hsigned.
  - intros node' Hn'. by apply (step_pins _ _ _ Hstep id).
  - intros msg held -> <- Hres. apply handle_node_outcome in Hcall as (res' & Hcall & Hr). eapply accepted_announcement; [done|congruence|done|done].
  - intros msg held now pk -> Hsrc -> Hres. apply handle_update_outcome in Hcall as [[_ ?]|(res' & Hcall & Hr)]; [congruence|].
    eapply accepted_update; [done|congruence|done|done|done].
Qed.

(** A node whose only channel is announced again is a new node. *)
Lemma replaced_node_unpinned scid known info value g id :
  graph_ok g -> channels g !! scid = Some known -> node_one info <> node_two info -> (id = node_one info \/ id = node_two info) ->
  (forall node, nodes g !! id = Some node -> node_channels node = [scid]) ->
  exists g' node', add_channel_between_nodes scid info (Some value) g = Return (g', Ok tt) /\ nodes g' !! id = Some node' /\ pins node' = (None, None).
Proof.
  intros [Hok Hchans] Hch Hne Hid Honly. unfold add_channel_between_nodes. rewrite Hch. cbn [is_some].
  destruct (remove_channel_ok g known scid _ Hok Hch) as (N & R & -> & HokN & Hk); [by apply (Hchans scid)|]. cbn [mbind run_bind mret run_ret].
  set (g1 := with_node_counters R (next_node_counter g) (with_nodes N g)).
  destruct (put_channel_ok scid info g1 (delete scid (channels g))) as [[Hok' _] _]; [done| |done|done|].
  { apply channels_ok_delete. by apply (channels_ok_kept _ (nodes g)). }
  assert (linked (channels (put_channel scid info g1)) scid id) as Hlink.
  { unfold put_channel. destruct (add_to_node _ (node_one info) _) as [g2 ?]. destruct (add_to_node _ (node_two info) _) as [g3 ?].
    eexists. cbn. rewrite lookup_insert_eq. by split. }
  destruct (linked_node _ _ _ _ _ _ Hok' Hlink) as [node' Hn']. eexists _, node'. split_and!; [done|done|].
  apply put_channel_grown in Hn' as [?|(n & Hn & _)]; [done|]. cbn in Hn. exfalso.
  destruct (nodes_channels _ _ _ _ HokN _ _ Hn) as [_ Hnil]. destruct (node_channels n) as [|s l] eqn:El; [done|].
  assert (linked (delete scid (channels g)) s id) as (c & [Hs Hc]%lookup_delete_Some & Hi).
  { apply (nodes_linked _ _ _ _ HokN). exists n. split; [done|]. rewrite El. left. }
  assert (linked (channels g) s id) as (n0 & Hn0 & Hin)%(nodes_linked _ _ _ _ Hok) by (by exists c).
  rewrite (Honly _ Hn0) in Hin. apply list_elem_of_singleton in Hin. congruence.
Qed.

(** C38: Announcing a channel again takes the pins of a node: when the output of a known channel was not
    looked up before and is now found on chain, a node of the channel that has no other one is taken
    out and put back without its pinned keys, so that a later announcement may pin others. *)
Theorem reannouncement_unpins chain calls g msg value now known id node key :
  run_calls calls (network_graph_new chain) = Return g ->
  let contents := ca_contents msg in
  let scid := ca_short_channel_id contents in
  channels g !! scid = Some known -> capacity_sats known = None -> id = ca_node_id_1 contents \/ id = ca_node_id_2 contents ->
  nodes g !! id = Some node -> pq_node_id node = Some key -> node_channels node = [scid] ->
  nodes_sorted (ca_node_id_1 contents) (ca_node_id_2 contents) = true -> ca_bitcoin_key_1 contents <> ca_bitcoin_key_2 contents ->
  ca_chain_hash contents = graph_chain_hash g ->
  removed_channels g !! scid = None -> removed_nodes g !! ca_node_id_1 contents = None -> removed_nodes g !! ca_node_id_2 contents = None ->
  verify_channel_announcement msg = Ok tt ->
  exists g' relay node', handle_channel_announcement msg true (Ok (Some value)) now g = Return (g', Ok relay) /\
    nodes g' !! id = Some node' /\ pq_node_id node' = None /\ pq_kem_node_id node' = None.
Proof.
  intros Hrun contents scid Hch Hcap Hid Hn Hkey Honly Hsorted Hbtc Hchain Hr1 Hr2 Hr3 Hver. pose proof (run_calls_ok _ _ _ (graph_ok_new chain) Hrun) as Hok.
  apply nodes_sorted_ne in Hsorted as Hne. unfold handle_channel_announcement, update_channel_from_announcement, pre_channel_announcement_validation_check.
  fold contents scid. rewrite Hsorted, Hch, Hcap, Hver. cbn [negb is_some]. unfold update_channel_from_unsigned_announcement_intern. fold scid.
  rewrite !bool_decide_eq_false_2, bool_decide_eq_true_2 by done. rewrite Hr1, Hr2, Hr3. cbn [orb negb is_some].
  set (info := mkChannelInfo _ _ _ _ _ _ _ _ _ _).
  destruct (replaced_node_unpinned scid known info value g id Hok Hch Hne Hid) as (g' & node' & E & Hn' & [= Hp1 Hp2]).
  { intros n' Hn0. rewrite Hn in Hn0. by injection Hn0 as <-. }
  rewrite E. cbn [mbind run_bind mret run_ret]. by eexists _, _, node'.
Qed.

End runs.
