(* ===== verification/GossipSigned.v ===== *)
(** * Signed gossip (lightning/src/ln/peer_handler.rs, lightning/src/ln/channelmanager.rs, lightning/src/sign/mod.rs)

    How a node signs its announcement and the updates of its channels, with both of its keys, and
    that every other node accepts them; what the signatures cover; and the announcement that makes a
    node panic. *)

From Stdlib Require Import ZArith Lia Bool.
From stdpp Require Import strings gmap.
From S2P Require Import Prelude.
From S2P Require Import Features.
From S2P Require Import Keys.
From S2P Require Import Order.
From S2P Require Import Scripts.
From S2P Require Import Channel.
From S2P Require Import Ser.
From S2P Require Import Onion.
From S2P Require Import OnionPayload.
From S2P Require Import PqSign.
From S2P Require Import Gossip.
From S2P Require Import GossipGraph.
From S2P Require Import PqKem.
From S2P Require Import Signer.
From S2P Require Import GossipRuns.

Local Open Scope Z_scope.

(** [SocketAddress::get_id], and the sort by it, which keeps addresses of a kind in order *)
Definition address_get_id (self : SocketAddress) : Z :=
  match self with TcpIpV4 _ _ => 1 | TcpIpV6 _ _ => 2 | OnionV2 _ => 3 | OnionV3 _ _ _ _ => 4 | HostnameAddress _ _ => 5 end.
Fixpoint insert_address (addr : SocketAddress) (l : list SocketAddress) : list SocketAddress :=
  match l with
  | [] => [addr]
  | x :: l => if address_get_id addr <=? address_get_id x then addr :: x :: l else x :: insert_address addr l
  end.
Definition sort_addresses (l : list SocketAddress) : list SocketAddress := foldr insert_address [] l.

Section signed.
Context {bitcoin : Bitcoin} {crypto : OnionCrypto} {kem : Kem} {scriptlib : ScriptLib} {ecdsa : EcdsaLib} {mldsa : MlDsa} {set_iter : SetIter}.

(** ** Signing *)

(** The keys of [KeysManager] that sign gossip. *)
Record GossipKeys : Type := mkGossipKeys {
  gossip_node_secret : SecretKey;
  pq_node_secret : MlDsaPrivate;
  own_pq_node_id : bytes;
  own_pq_kem_node_id : bytes;
}.
(** As [KeysManager::new] derives them from the keys of the seed. *)
Definition gossip_keys_new (node_secret : SecretKey) (pq_seed kem_seed : bytes) : GossipKeys :=
  let '(pq_secret, pq_id) := pq_keypair_from_seed pq_seed in
  let '(kem_id, _) := keypair_from_seed kem_seed in
  mkGossipKeys node_secret pq_secret pq_id kem_id.
Definition own_node_id (keys : GossipKeys) : bytes := serialize (from_secret_key (gossip_node_secret keys)).

Definition sign_gossip_message (keys : GossipKeys) (encoded : bytes) : Signature :=
  sign (message_sha256d_hash encoded) (gossip_node_secret keys).
Definition sign_pq_gossip_message (keys : GossipKeys) (encoded : bytes) : run bytes := pq_sign (pq_node_secret keys) encoded PQ_CONTEXT_GOSSIP.

(** [broadcast_node_announcement]: the message, and the next serial number.  [features] are those
    of all the handlers. *)
Definition broadcast_node_announcement (keys : GossipKeys) (features : Features NodeContext) (serial : Z) (rgb alias : bytes)
    (addresses : list SocketAddress) : run (NodeAnnouncement * Z) :=
  if (100 <? length addresses)%nat then Panic
  else
    let excess := append_kem_key_record (append_public_key_record [] (own_pq_node_id keys)) (own_pq_kem_node_id keys) in
    let announcement := mkUnsignedNodeAnnouncement features serial (own_node_id keys) rgb alias (sort_addresses addresses) [] excess in
    pq_sig ← sign_pq_gossip_message keys (node_announcement_write announcement);
    let announcement := with_na_excess_data (append_signature_record excess pq_sig) announcement in
    mret (mkNodeAnnouncement (sign_gossip_message keys (node_announcement_write announcement)) announcement, wrapping 32 (serial + 1)).

(** What an update says of a channel. *)
Record UpdateTerms : Type := mkUpdateTerms {
  terms_scid : option Z;
  terms_scid_alias : option Z;
  terms_counterparty : PublicKey;
  terms_update_time_counter : Z;
  terms_should_announce : bool;
  terms_enabled : bool;
  terms_cltv_expiry_delta : Z;
  terms_htlc_minimum_msat : Z;
  terms_htlc_maximum_msat : Z;
  terms_fee_base_msat : Z;
  terms_fee_proportional_millionths : Z;
}.
Definition get_channel_update_for_unicast (keys : GossipKeys) (chain_hash : bytes) (chan : UpdateTerms)
    : run (result unit (ChannelUpdate * bytes * bytes)) :=
  match match terms_scid chan with Some scid => Some scid | None => terms_scid_alias chan end with
  | None => mret (Err tt)
  | Some short_channel_id =>
      let our_node_id := own_node_id keys in
      let their_node_id := serialize (terms_counterparty chan) in
      let were_node_one := nodes_sorted our_node_id their_node_id in
      let unsigned := mkUnsignedChannelUpdate chain_hash short_channel_id (terms_update_time_counter chan)
        (Z.lor 1 (if terms_should_announce chan then 0 else 2))
        (Z.lor (if were_node_one then 0 else 1) (if terms_enabled chan then 0 else 2))
        (terms_cltv_expiry_delta chan) (terms_htlc_minimum_msat chan) (terms_htlc_maximum_msat chan) (terms_fee_base_msat chan)
        (terms_fee_proportional_millionths chan) [] in
      pq_sig ← sign_pq_gossip_message keys (channel_update_write unsigned);
      let unsigned := with_cu_excess_data (append_signature_record [] pq_sig) unsigned in
      mret (Ok (mkChannelUpdate (sign_gossip_message keys (channel_update_write unsigned)) unsigned,
                if were_node_one then our_node_id else their_node_id, if were_node_one then their_node_id else our_node_id))
  end.
Definition get_channel_update_for_broadcast (keys : GossipKeys) (chain_hash : bytes) (chan : UpdateTerms)
    : run (result unit (ChannelUpdate * bytes * bytes)) :=
  if negb (terms_should_announce chan) then mret (Err tt)
  else match terms_scid chan with None => mret (Err tt) | Some _ => get_channel_update_for_unicast keys chain_hash chan end.

(** ** The announcement that makes a node panic *)

Context {nonces : NonceLib} {crypto_laws : OnionCryptoLaws} {ecdsa_laws : EcdsaLaws}.

Lemma check_signature_sign encoded k : check_signature encoded (serialize (from_secret_key k)) (sign (message_sha256d_hash encoded) k) = Ok tt.
Proof. unfold check_signature. by rewrite public_slice, verify_sign. Qed.

(** C37: Anyone with a key can make every node panic: an announcement of any node identifier whose
    excess data end with the ten bytes of a record of a length next to 2^64, with the ECDSA signature
    of that identifier, makes the handler panic, whether or not the node is in the graph, unless an
    announcement of the same time was seen before. *)
Theorem overlong_record_crashes k contents stream held g :
  na_node_id contents = serialize (from_secret_key k) -> na_excess_data contents = stream_bytes stream ++ overlong_record ->
  Forall (fun r => fits 64 r.1) stream -> Z.of_nat (length (na_excess_data contents)) < 2 ^ 64 ->
  (forall node info, nodes g !! na_node_id contents = Some node -> announcement_info node = Some info -> info_last_update info <> na_timestamp contents) ->
  handle_node_announcement (mkNodeAnnouncement (sign (message_sha256d_hash (node_announcement_write contents)) k) contents) held g = Panic.
Proof.
  intros Hid Hex Hfits Hlen Hseen. unfold handle_node_announcement, update_node_from_announcement. cbn [na_contents]. rewrite bool_decide_eq_false_2.
  - unfold verify_node_announcement. cbn [na_contents na_signature]. rewrite Hid, check_signature_sign. unfold check_pq_announcement.
    rewrite Hex in *. by rewrite overlong_record_panics.
  - destruct (nodes g !! na_node_id contents) as [node|]; [|done]. cbn. destruct (announcement_info node) as [info|] eqn:Hi; [|done]. cbn.
    intros [= E]. by apply (Hseen node info).
Qed.


(** ** Honest messages are accepted *)

Context {mldsa_laws : MlDsaLaws}.

(** The keys of a node, as [KeysManager::new] makes them. *)
Definition keys_valid (keys : GossipKeys) : Prop :=
  (exists node_secret pq_seed kem_seed, keys = gossip_keys_new node_secret pq_seed kem_seed) /\ length (own_pq_kem_node_id keys) = PQ_KEM_EK_LEN.

Lemma keys_sign keys encoded : keys_valid keys ->
  length (own_pq_node_id keys) = PQ_PUBLIC_KEY_LEN /\
  exists sig, sign_pq_gossip_message keys encoded = Return sig /\ length sig = PQ_SIGNATURE_LEN /\
    pq_verify (own_pq_node_id keys) encoded sig PQ_CONTEXT_GOSSIP = true.
Proof.
  intros [(node_secret & pq_seed & kem_seed & ->) _]. unfold gossip_keys_new, pq_keypair_from_seed.
  destruct (mldsa_keygen_from_seed pq_seed) as [pk sk] eqn:Hgen. destruct (keypair_from_seed kem_seed) as [ek dk]. cbn [own_pq_node_id].
  split; [apply mldsa_public_length|]. unfold sign_pq_gossip_message, pq_sign, pq_verify. cbn [pq_node_secret].
  destruct (mldsa_signs sk (replicate 32 0) encoded PQ_CONTEXT_GOSSIP) as (sig & Hs & Hl); [vm_compute; lia|]. rewrite Hs, mldsa_public_bytes.
  exists sig. split_and!; [done|done|]. by eapply mldsa_verifies.
Qed.

Lemma record_bytes_fixed typ value n : length value = n -> write_bigsize typ ++ write_bigsize (Z.of_nat n) ++ value = record_bytes typ value.
Proof. by intros <-. Qed.

(** The records of an announcement and of an update, and what is left without the signature. *)
Lemma announcement_records pk ek sig :
  length pk = PQ_PUBLIC_KEY_LEN -> length ek = PQ_KEM_EK_LEN -> length sig = PQ_SIGNATURE_LEN ->
  let excess := append_kem_key_record (append_public_key_record [] pk) ek in
  let records := mkPqRecords (Some pk) (Some ek) (Some sig) 2424 in
  parse_records (append_signature_record excess sig) = Return records /\ signed_excess (append_signature_record excess sig) records = excess /\
  Z.of_nat (length (append_signature_record excess sig)) = 4928.
Proof.
  intros Hpk Hek Hsig excess records.
  assert (append_signature_record excess sig = stream_bytes [(PQ_PUBLIC_KEY_RECORD_TYPE, pk); (PQ_KEM_KEY_RECORD_TYPE, ek); (PQ_SIGNATURE_RECORD_TYPE, sig)]) as E.
  { unfold append_signature_record, excess, append_kem_key_record, append_public_key_record.
    rewrite !record_bytes_fixed by done. unfold stream_bytes. cbn [map mjoin list_join fst snd]. by rewrite app_nil_r, <- !app_assoc. }
  assert (length (append_signature_record excess sig) = 2424 + length excess)%nat as Hlen.
  { unfold append_signature_record. rewrite !length_app, Hsig. change (length (write_bigsize PQ_SIGNATURE_RECORD_TYPE)) with 1%nat.
    change (length (write_bigsize (Z.of_nat PQ_SIGNATURE_LEN))) with 3%nat. unfold PQ_SIGNATURE_LEN. lia. }
  assert (length excess = 2504)%nat as Hex.
  { unfold excess, append_kem_key_record, append_public_key_record. rewrite !length_app, Hpk, Hek. reflexivity. }
  split_and!; [| |lia].
  - rewrite E. rewrite parse_records_stream; [|by repeat constructor|rewrite <- E; lia]. cbn [note_all]. f_equal. unfold note_record.
    rewrite Hpk, Hek, Hsig. cbn [Z.eqb Pos.eqb PQ_PUBLIC_KEY_RECORD_TYPE PQ_KEM_KEY_RECORD_TYPE PQ_SIGNATURE_RECORD_TYPE andb].
    rewrite !Nat.eqb_refl. cbn [pubkey kem_key signature signature_record_len no_records]. unfold records. f_equal.
    unfold record_bytes. rewrite !length_app, Hsig. reflexivity.
  - unfold signed_excess. rewrite Hlen. cbn [signature_record_len records]. replace (2424 + length excess - 2424)%nat with (length excess) by lia.
    unfold append_signature_record. apply take_app_length.
Qed.

Lemma update_records sig : length sig = PQ_SIGNATURE_LEN ->
  parse_records (append_signature_record [] sig) = Return (mkPqRecords None None (Some sig) 2424) /\
  signed_excess (append_signature_record [] sig) (mkPqRecords None None (Some sig) 2424) = [] /\
  Z.of_nat (length (append_signature_record [] sig)) = 2424.
Proof.
  intros Hsig. assert (append_signature_record [] sig = stream_bytes [(PQ_SIGNATURE_RECORD_TYPE, sig)]) as E.
  { unfold append_signature_record. rewrite record_bytes_fixed by done. unfold stream_bytes. cbn [map mjoin list_join fst snd]. by rewrite app_nil_r. }
  assert (length (append_signature_record [] sig) = 2424)%nat as Hlen.
  { unfold append_signature_record. rewrite !length_app, Hsig. reflexivity. }
  split_and!; [| |lia].
  - rewrite E. rewrite parse_records_stream; [|by repeat constructor|rewrite <- E; lia]. cbn [note_all]. f_equal. unfold note_record.
    rewrite Hsig. cbn [Z.eqb Pos.eqb PQ_PUBLIC_KEY_RECORD_TYPE PQ_KEM_KEY_RECORD_TYPE PQ_SIGNATURE_RECORD_TYPE andb].
    rewrite !Nat.eqb_refl. cbn [pubkey kem_key signature signature_record_len no_records]. f_equal.
    unfold record_bytes. rewrite !length_app, Hsig. reflexivity.
  - unfold signed_excess. rewrite Hlen. done.
Qed.

(** A node that is not pinned, or with these keys. *)
Definition pins_allow (node : NodeInfo) (keys : GossipKeys) : Prop :=
  (pq_node_id node = None \/ pq_node_id node = Some (own_pq_node_id keys)) /\
  (pq_kem_node_id node = None \/ pq_kem_node_id node = Some (own_pq_kem_node_id keys)).
Lemma pins_allow_pin node keys records :
  pins_allow node keys -> pubkey records = Some (own_pq_node_id keys) -> kem_key records = Some (own_pq_kem_node_id keys) -> is_some (signature records) = true ->
  pin_keys node records = Ok (mkNodeInfo (node_channels node) (announcement_info node) (Some (own_pq_node_id keys)) (Some (own_pq_kem_node_id keys)) (node_counter node)).
Proof.
  intros [Hk He] Hpk Hek Hs. unfold pin_keys. rewrite Hpk, Hek, Hs. rewrite andb_false_r.
  destruct Hk as [-> | ->], He as [-> | ->]; cbn; rewrite ?bool_decide_eq_true_2 by done; done.
Qed.

Lemma honest_announcement keys features serial rgb alias addresses held g node :
  keys_valid keys -> (length addresses <= 100)%nat -> nodes g !! own_node_id keys = Some node ->
  (forall info, announcement_info node = Some info -> info_last_update info < serial) -> pins_allow node keys ->
  exists msg next, broadcast_node_announcement keys features serial rgb alias addresses = Return (msg, next) /\
    handle_node_announcement msg held g =
      Return (with_nodes (<[own_node_id keys := mkNodeInfo (node_channels node) (Some (Relayed msg)) (Some (own_pq_node_id keys))
                (Some (own_pq_kem_node_id keys)) (node_counter node)]> (nodes g)) g, Ok true).
Proof.
  intros Hkeys Haddr Hn Hseen Hpins. unfold broadcast_node_announcement. rewrite (proj2 (Nat.ltb_ge _ _)) by lia.
  set (excess := append_kem_key_record _ _). set (unsigned := mkUnsignedNodeAnnouncement _ _ _ _ _ _ _ _).
  destruct (keys_sign keys (node_announcement_write unsigned) Hkeys) as (Hpk & sig & Hsign & Hlen & Hver). rewrite Hsign. cbn [mbind run_bind mret run_ret].
  eexists _, _. split; [done|]. set (contents := with_na_excess_data _ unsigned).
  destruct (announcement_records _ _ sig Hpk (proj2 Hkeys) Hlen) as (Hparse & Hsigned & Hsize). fold excess in Hparse, Hsigned, Hsize.
  assert (forall t, info_last_update <$> announcement_info node = Some t -> t < serial) as Hold.
  { intros t. destruct (announcement_info node); [|done]. intros [= <-]. by apply Hseen. }
  assert (should_relay (na_excess_data contents) (na_excess_address_data contents) = true) as Hrelay.
  { unfold should_relay. cbn [contents unsigned with_na_excess_data na_excess_data na_excess_address_data length]. rewrite Nat.add_0_r, Hsize. done. }
  unfold handle_node_announcement, update_node_from_announcement. cbn [na_contents].
  change (na_node_id contents) with (own_node_id keys). change (na_timestamp contents) with serial. rewrite Hn. cbn [mbind option_bind].
  rewrite bool_decide_eq_false_2 by (intros E; specialize (Hold _ E); lia).
  unfold verify_node_announcement, sign_gossip_message. cbn [na_contents na_signature]. change (na_node_id contents) with (own_node_id keys).
  unfold own_node_id at 1. rewrite check_signature_sign. unfold check_pq_announcement.
  change (na_excess_data contents) with (append_signature_record excess sig). rewrite Hparse. cbn [mbind run_bind mret run_ret pubkey signature kem_key is_some Bool.eqb negb andb orb].
  rewrite Hsigned. change (with_na_excess_data excess contents) with unsigned. rewrite Hver.
  unfold update_node_from_announcement_intern. change (na_node_id contents) with (own_node_id keys). rewrite Hn. change (na_timestamp contents) with serial.
  assert (match info_last_update <$> announcement_info node with Some t => serial <? t | None => false end = false) as ->.
  { destruct (info_last_update <$> announcement_info node) as [t|]; [|done]. specialize (Hold _ eq_refl). by apply Z.ltb_ge, Z.lt_le_incl. }
  rewrite bool_decide_eq_false_2 by (intros E; specialize (Hold _ E); lia).
  change (na_excess_data contents) with (append_signature_record excess sig). rewrite Hparse. cbn [mbind run_bind mret run_ret].
  rewrite (pins_allow_pin node keys) by done. cbn [mbind run_bind].
  change (append_signature_record excess sig) with (na_excess_data contents). by rewrite Hrelay.
Qed.

(** The channel is known, the update is its latest and of this time, and its amounts are possible. *)
Record update_due (keys : GossipKeys) (chan : UpdateTerms) (scid : Z) (known : ChannelInfo) (now : Z) (g : NetworkGraph) : Prop := {
  due_scid : terms_scid chan = Some scid;
  due_announced : terms_should_announce chan = true;
  due_known : channels g !! scid = Some known;
  due_source : (if nodes_sorted (own_node_id keys) (serialize (terms_counterparty chan)) then node_one known else node_two known) = own_node_id keys;
  due_latest info : (if nodes_sorted (own_node_id keys) (serialize (terms_counterparty chan)) then one_to_two known else two_to_one known) = Some info ->
    last_update info < terms_update_time_counter chan;
  due_time : STALE_CHANNEL_UPDATE_AGE_LIMIT_SECS <= now < 2 ^ 63 /\
    now - STALE_CHANNEL_UPDATE_AGE_LIMIT_SECS <= terms_update_time_counter chan <= now + 60 * 60 * 24;
  due_maximum : terms_htlc_maximum_msat chan <= MAX_VALUE_MSAT;
  due_capacity capacity : capacity_sats known = Some capacity ->
    0 <= capacity <= MAX_VALUE_MSAT / 1000 /\ terms_htlc_maximum_msat chan <= capacity * 1000;
}.

(** The direction of the channel the update is about, with its terms. *)
Definition updated_channel (keys : GossipKeys) (chan : UpdateTerms) (msg : ChannelUpdate) (known : ChannelInfo) : ChannelInfo :=
  let info := Some (mkChannelUpdateInfo (terms_htlc_minimum_msat chan) (terms_htlc_maximum_msat chan) (terms_fee_base_msat chan)
                      (terms_fee_proportional_millionths chan) (terms_update_time_counter chan) (terms_cltv_expiry_delta chan) (terms_enabled chan) (Some msg)) in
  if nodes_sorted (own_node_id keys) (serialize (terms_counterparty chan)) then with_directions info (two_to_one known) known
  else with_directions (one_to_two known) info known.

Lemma due_checks keys chan scid known now g msg :
  update_due keys chan scid known now g -> cu_chain_hash msg = graph_chain_hash g -> cu_timestamp msg = terms_update_time_counter chan ->
  cu_htlc_maximum_msat msg = terms_htlc_maximum_msat chan ->
  from_node_two msg = negb (nodes_sorted (own_node_id keys) (serialize (terms_counterparty chan))) ->
  check_update_message msg now g = Ok tt /\ check_msg_sanity msg known = Ok tt.
Proof.
  intros [_ _ _ _ Hlatest [Hnow Htime] Hmax Hcap] Hchain Hts Hm Hdir.
  unfold check_update_message, check_msg_sanity, check_update_latest, STALE_CHANNEL_UPDATE_AGE_LIMIT_SECS in *.
  rewrite Hchain, Hts, Hm, Hdir, bool_decide_eq_true_2 by done. cbn [negb]. rewrite !wrapping_small by (unfold fits; lia).
  rewrite (proj2 (Z.ltb_ge (terms_update_time_counter chan) _)), (proj2 (Z.ltb_ge (now + _) _)), (proj2 (Z.ltb_ge MAX_VALUE_MSAT _)) by lia.
  split; [done|]. set (bogus := match capacity_sats known with Some _ => _ | None => _ end).
  assert (bogus = false) as ->.
  { unfold bogus. destruct (capacity_sats known) as [capacity|]; [|done]. destruct (Hcap _ eq_refl) as [Hc Hle]. 
    assert (MAX_VALUE_MSAT / 1000 = 2100000000000000) as Hdiv by done. rewrite Hdiv in *. rewrite wrapping_small by (unfold fits; lia).
    by rewrite (proj2 (Z.ltb_ge _ _)), (proj2 (Z.ltb_ge _ _)) by lia. }
  destruct (nodes_sorted _ _); cbn [negb]; [destruct (one_to_two known) as [info|]|destruct (two_to_one known) as [info|]]; try done;
    specialize (Hlatest _ eq_refl); rewrite (proj2 (Z.ltb_ge _ _)) by lia; by rewrite (proj2 (Z.eqb_neq _ _)) by lia.
Qed.

Lemma honest_update keys chan scid known held now g :
  keys_valid keys -> update_due keys chan scid known now g ->
  (forall node, nodes g !! own_node_id keys = Some node -> pins_allow node keys) ->
  exists msg a b, get_channel_update_for_broadcast keys (graph_chain_hash g) chan = Return (Ok (msg, a, b)) /\
    handle_channel_update msg held now g =
      Return (with_channels (<[scid := updated_channel keys chan msg known]> (channels g)) g, Ok (Some (node_one known, node_two known))).
Proof.
  intros Hkeys Hdue Hpins. pose proof Hdue as [Hscid Hann Hknown Hsrc _ _ _ _]. unfold get_channel_update_for_broadcast, get_channel_update_for_unicast.
  rewrite Hann, Hscid. cbn [negb]. set (one := nodes_sorted _ _) in *. set (unsigned := mkUnsignedChannelUpdate _ _ _ _ _ _ _ _ _ _ _).
  destruct (keys_sign keys (channel_update_write unsigned) Hkeys) as (Hpk & sig & Hsign & Hlen & Hver). rewrite Hsign. cbn [mbind run_bind mret run_ret].
  eexists _, _, _. split; [done|]. set (contents := with_cu_excess_data _ unsigned). set (msg := mkChannelUpdate _ contents).
  destruct (update_records sig Hlen) as (Hparse & Hsigned & Hsize).
  assert (from_node_two contents = negb one) as Hdir.
  { unfold from_node_two. cbn [contents unsigned with_cu_excess_data cu_channel_flags]. by destruct one, (terms_enabled chan). }
  assert (negb (Z.land (cu_channel_flags contents) 2 =? 2) = terms_enabled chan) as Hen.
  { cbn [contents unsigned with_cu_excess_data cu_channel_flags]. by destruct one, (terms_enabled chan). }
  destruct (due_checks keys chan scid known now g contents Hdue) as [Hc1 Hc2]; [done|done|done|done|].
  unfold handle_channel_update. cbn [cu_contents msg contents unsigned with_cu_excess_data cu_message_flags Z.lor Z.land Pos.lor Pos.land Z.eqb negb].
  unfold update_channel, update_channel_internal. fold unsigned contents. change (cu_contents msg) with contents. rewrite Hc1.
  change (cu_short_channel_id contents) with scid. rewrite Hknown, Hc2.
  assert (check_update_signatures contents (Some (cu_signature msg)) known g = Return (Ok tt)) as ->.
  { unfold check_update_signatures. rewrite Hdir. replace (if negb one then node_two known else node_one known) with (own_node_id keys) by (by destruct one).
    unfold own_node_id at 1. rewrite public_slice. cbn [cu_signature msg]. unfold sign_gossip_message. rewrite verify_sign. cbn [negb].
    unfold check_pq_update. fold (own_node_id keys). destruct (nodes g !! own_node_id keys) as [node|] eqn:Hn; [|done]. cbn [mbind option_bind].
    destruct (Hpins _ eq_refl) as [[-> | ->] _]; [done|]. change (cu_excess_data contents) with (append_signature_record [] sig). rewrite Hparse.
    cbn [mbind run_bind mret run_ret signature]. rewrite Hsigned. change (with_cu_excess_data [] contents) with unsigned. by rewrite Hver. }
  cbn [mbind run_bind mret run_ret]. change (cu_excess_data contents) with (append_signature_record [] sig). rewrite Hsize, Hen, Hdir.
  unfold updated_channel. fold one. cbn [mbind run_bind mret run_ret Z.leb Z.compare Pos.compare Pos.compare_cont MAX_EXCESS_BYTES_FOR_RELAY]. by destruct one.
Qed.

(** C10: What a node with the keys of its seed signs is accepted by every node that knows one of its
    channels and has no other keys pinned for it: its announcement is stored, relayed and pins its
    ML-DSA and its ML-KEM key; and then, with the keys pinned, the update of its channel is accepted
    too, and its terms are in the graph. *)
Theorem honest_gossip_accepted keys features serial rgb alias addresses chan scid known node held held' now g :
  keys_valid keys -> (length addresses <= 100)%nat -> nodes g !! own_node_id keys = Some node ->
  (forall info, announcement_info node = Some info -> info_last_update info < serial) -> pins_allow node keys ->
  update_due keys chan scid known now g ->
  exists msg next g1 node' update a b g2,
    broadcast_node_announcement keys features serial rgb alias addresses = Return (msg, next) /\
    handle_node_announcement msg held g = Return (g1, Ok true) /\ nodes g1 !! own_node_id keys = Some node' /\
    announcement_info node' = Some (Relayed msg) /\ pins node' = (Some (own_pq_node_id keys), Some (own_pq_kem_node_id keys)) /\
    get_channel_update_for_broadcast keys (graph_chain_hash g) chan = Return (Ok (update, a, b)) /\
    handle_channel_update update held' now g1 = Return (g2, Ok (Some (node_one known, node_two known))) /\
    channels g2 = <[scid := updated_channel keys chan update known]> (channels g) /\ nodes g2 = nodes g1.
Proof.
  intros Hkeys Haddr Hn Hseen Hpins Hdue. destruct (honest_announcement keys features serial rgb alias addresses held g node) as (msg & next & Hb & Hh); try done.
  set (node' := mkNodeInfo _ _ _ _ _) in Hh. set (g1 := with_nodes _ g) in Hh.
  assert (update_due keys chan scid known now g1) as Hdue1 by (destruct Hdue; by split).
  destruct (honest_update keys chan scid known held' now g1 Hkeys Hdue1) as (update & a & b & Hu & Hhu).
  { intros n. cbn. rewrite lookup_insert_eq. intros [= <-]. split; by right. }
  exists msg, next, g1, node', update, a, b. eexists. split_and!; [done|done|by cbn; rewrite lookup_insert_eq|done|done|done|exact Hhu|done|done].
Qed.

End signed.
