(* ===== verification/OnionRoute.v ===== *)
(** * Building the onion of a payment (lightning/src/ln/onion_utils.rs)

    From a path and what the recipient is to get, the payloads of the hops, the keys,
    and the packets: a plain path, a path that ends in a blinded one, a path over
    trampolines, and the post-quantum form of each. *)

From Stdlib Require Import ZArith Lia Bool.
From stdpp Require Import strings.
From S2P Require Import Prelude.
From S2P Require Import Features.
From S2P Require Import Keys.
From S2P Require Import Ser.
From S2P Require Import Onion.
From S2P Require Import PqKem.
From S2P Require Import Streams.
From S2P Require Import BlindedPath.
From S2P Require Import OnionPayload.

Local Open Scope Z_scope.

(** Every error here is [APIError::InvalidRoute]. *)
Inductive APIError : Type := InvalidRoute (err : string).

Section route.
Context {bitcoin : Bitcoin} {crypto : OnionCrypto} {kem : Kem} {poly : Poly1305}.
Context {contexts : PaymentContexts} {invoice_requests : InvoiceRequests}.

(** ** Paths (lightning/src/routing/router.rs)

    Of a hop, what the onion depends on. *)

Record RouteHop : Type := mkRouteHop {
  hop_pubkey : PublicKey;
  hop_short_channel_id : Z;
  hop_fee_msat : Z;
  hop_cltv_expiry_delta : Z;
}.
Record TrampolineHop : Type := mkTrampolineHop {
  tramp_pubkey : PublicKey;
  tramp_fee_msat : Z;
  tramp_cltv_expiry_delta : Z;
}.
Record BlindedTail : Type := mkBlindedTail {
  trampoline_hops : list TrampolineHop;
  tail_hops : list BlindedHop;
  tail_blinding_point : PublicKey;
  excess_final_cltv_expiry_delta : Z;
  tail_final_value_msat : Z;
  tail_kem_ct : option bytes;
}.
Record Path : Type := mkPath {
  path_hops : list RouteHop;
  blinded_tail : option BlindedTail;
}.

(** [Path::fee_msat], [Path::final_value_msat], [Path::total_cltv_expiry_delta] *)
Definition path_fee_msat (self : Path) : Z :=
  u64_sum (map hop_fee_msat (match blinded_tail self with
                             | Some _ => path_hops self
                             | None => removelast (path_hops self)
                             end)).
Definition path_final_value_msat (self : Path) : Z :=
  match blinded_tail self with
  | Some tail => tail_final_value_msat tail
  | None => match last (path_hops self) with Some hop => hop_fee_msat hop | None => 0 end
  end.
Definition has_trampoline_hops (self : Path) : bool :=
  match blinded_tail self with Some tail => negb (bool_decide (length (trampoline_hops tail) = 0%nat)) | None => false end.

Record RecipientOnionFields : Type := mkRecipientOnionFields {
  rof_payment_secret : option bytes;
  rof_payment_metadata : option bytes;
  rof_custom_tlvs : list (Z * bytes);
  total_mpp_amount_msat : Z;
}.

(** ** Payloads *)

(** [PathHop] *)
Record PathHop (HopId : Type) : Type := mkPathHop {
  ph_hop_id : HopId;
  ph_fee_msat : Z;
  ph_cltv_expiry_delta : Z;
}.

(** The trait [OnionPayload] of the payloads of both kinds of onion. *)
Class OnionPayload (OP HopId : Type) := {
  new_forward : HopId -> Z -> Z -> OP;
  new_receive : RecipientOnionFields -> option bytes -> Z -> Z -> result APIError OP;
  new_blinded_forward : bytes -> option PublicKey -> OP;
  new_blinded_receive : Z -> Z -> Z -> bytes -> option PublicKey -> option bytes -> option InvoiceRequest ->
    list (Z * bytes) -> OP;
  new_trampoline_entry : Z -> Z -> RecipientOnionFields -> TrampolineOnionPacket -> option PublicKey ->
    result APIError OP;
}.

Definition payment_data_of (recipient_onion : RecipientOnionFields) : option FinalOnionHopData :=
  (fun secret => mkFinalOnionHopData secret (total_mpp_amount_msat recipient_onion)) <$> rof_payment_secret recipient_onion.

#[export] Instance outbound_onion_payload : OnionPayload OutboundOnionPayload Z := {|
  new_forward := OutForward;
  new_receive recipient_onion keysend_preimage amt cltv :=
    Ok (OutReceive (payment_data_of recipient_onion) (rof_payment_metadata recipient_onion) keysend_preimage
          (rof_custom_tlvs recipient_onion) amt cltv);
  new_blinded_forward := OutBlindedForward;
  new_blinded_receive amt total cltv encrypted_tlvs intro keysend_preimage invoice_request custom_tlvs :=
    OutBlindedReceive amt total cltv encrypted_tlvs intro keysend_preimage custom_tlvs invoice_request;
  new_trampoline_entry amt cltv recipient_onion packet current_path_key :=
    Ok (OutTrampolineEntrypoint amt cltv (payment_data_of recipient_onion) packet current_path_key);
|}.

#[export] Instance outbound_trampoline_payload : OnionPayload OutboundTrampolinePayload PublicKey := {|
  new_forward outgoing_node_id amt cltv := OutTrampForward amt cltv outgoing_node_id;
  new_receive _ _ _ _ := Err (InvalidRoute "Unblinded receiving is not supported for Trampoline!");
  new_blinded_forward := OutTrampBlindedForward;
  new_blinded_receive amt total cltv encrypted_tlvs intro keysend_preimage _ custom_tlvs :=
    OutTrampBlindedReceive amt total cltv encrypted_tlvs intro keysend_preimage custom_tlvs;
  new_trampoline_entry _ _ _ _ _ := Err (InvalidRoute "Trampoline onions cannot contain Trampoline entrypoints!");
|}.

Inductive TailDetails : Type :=
| TailBlinded (hops : list BlindedHop) (blinding_point : PublicKey) (final_value_msat excess_final_cltv_expiry_delta : Z)
| SendToTrampoline (trampoline_packet : TrampolineOnionPacket) (final_value_msat : Z)
| ForwardToTrampoline (trampoline_packet : TrampolineOnionPacket) (current_path_key : option PublicKey)
    (trampoline_expiry_height : Z).

Section callback.
Context {OP HopId : Type} {onion_payload : OnionPayload OP HopId}.
Variables (recipient_onion : RecipientOnionFields) (cur_block_height : Z) (keysend_preimage : option bytes)
  (invoice_request : option InvoiceRequest).

(** The payloads of the blinded hops.  Only the first carries the blinding point. *)
Fixpoint blinded_payloads (hops : list BlindedHop) (blinding_point : option PublicKey)
    (final_value_msat excess_final_cltv_expiry_delta : Z) : list OP :=
  match hops with
  | [] => []
  | [hop] => [new_blinded_receive final_value_msat (total_mpp_amount_msat recipient_onion)
                (wrapping 32 (cur_block_height + excess_final_cltv_expiry_delta)) (encrypted_payload hop)
                blinding_point keysend_preimage invoice_request (rof_custom_tlvs recipient_onion)]
  | hop :: hops => new_blinded_forward (encrypted_payload hop) blinding_point ::
                   blinded_payloads hops None final_value_msat excess_final_cltv_expiry_delta
  end.

(** The last hop of the path: the payloads from it on, what it adds to the value,
    and where the expiry counts from. *)
Definition last_payloads (hop : PathHop HopId) (tail : option TailDetails)
    : result APIError (list OP * Z * Z * Z) :=
  let declared_incoming_cltv := saturating_add 32 (ph_cltv_expiry_delta _ hop) cur_block_height in
  match tail with
  | Some (TailBlinded hops blinding_point final_value_msat excess) =>
      Ok (blinded_payloads hops (Some blinding_point) final_value_msat excess,
          if bool_decide (length hops = 0%nat) then 0 else final_value_msat, cur_block_height, ph_cltv_expiry_delta _ hop)
  | Some (SendToTrampoline trampoline_packet final_value_msat) =>
      payload ← new_trampoline_entry (final_value_msat + ph_fee_msat _ hop)%u64 declared_incoming_cltv recipient_onion
        trampoline_packet None;
      Ok ([payload], final_value_msat, cur_block_height, ph_cltv_expiry_delta _ hop)
  | Some (ForwardToTrampoline trampoline_packet current_path_key trampoline_expiry_height) =>
      if trampoline_expiry_height <? cur_block_height
      then Err (InvalidRoute "Next trampoline's cltv expiry height has already expired")
      else
        payload ← new_trampoline_entry (ph_fee_msat _ hop) trampoline_expiry_height recipient_onion trampoline_packet
          current_path_key;
        Ok ([payload], 0, trampoline_expiry_height, 0)
  | None =>
      payload ← new_receive recipient_onion keysend_preimage (ph_fee_msat _ hop) declared_incoming_cltv;
      Ok ([payload], 0, cur_block_height, ph_cltv_expiry_delta _ hop)
  end.

(** The end of a round of the loop. *)
Definition add_hop (cur_value_msat cur_cltv : Z) (hop : PathHop HopId) (hop_cltv_delta : Z) : result APIError (Z * Z) :=
  let cur_value_msat := (cur_value_msat + ph_fee_msat _ hop)%u64 in
  if 21000000 * 100000000 * 1000 <=? cur_value_msat then Err (InvalidRoute "Channel fees overflowed?")
  else
    let cur_cltv := saturating_add 32 cur_cltv hop_cltv_delta in
    if 500000000 <=? cur_cltv then Err (InvalidRoute "Channel CLTV overflowed?")
    else Ok (cur_value_msat, cur_cltv).

(** The hops before the last, the last of them first; [next] is the hop behind. *)
Fixpoint forward_payloads (rev_hops : list (PathHop HopId)) (next : HopId) (cur_value_msat cur_cltv : Z) (res : list OP)
    : result APIError (list OP * Z * Z) :=
  match rev_hops with
  | [] => Ok (res, cur_value_msat, cur_cltv)
  | hop :: rev_hops =>
      let value_msat := if cur_value_msat =? 0 then ph_fee_msat _ hop else cur_value_msat in
      let res := new_forward next value_msat cur_cltv :: res in
      '(cur_value_msat, cur_cltv) ← add_hop cur_value_msat cur_cltv hop (ph_cltv_expiry_delta _ hop);
      forward_payloads rev_hops (ph_hop_id _ hop) cur_value_msat cur_cltv res
  end.

Definition build_onion_payloads_callback (hops : list (PathHop HopId)) (tail : option TailDetails)
    : result APIError (list OP * Z * Z) :=
  match reverse hops with
  | [] => Ok ([], 0, cur_block_height)
  | hop :: rev_hops =>
      '(res, cur_value_msat, cur_cltv, hop_cltv_delta) ← last_payloads hop tail;
      '(cur_value_msat, cur_cltv) ← add_hop cur_value_msat cur_cltv hop hop_cltv_delta;
      forward_payloads rev_hops (ph_hop_id _ hop) cur_value_msat cur_cltv res
  end.

End callback.

Definition route_path_hop (hop : RouteHop) : PathHop Z :=
  mkPathHop _ (hop_short_channel_id hop) (hop_fee_msat hop) (hop_cltv_expiry_delta hop).
Definition trampoline_path_hop (hop : TrampolineHop) : PathHop PublicKey :=
  mkPathHop _ (tramp_pubkey hop) (tramp_fee_msat hop) (tramp_cltv_expiry_delta hop).

Definition tail_details (tail : BlindedTail) : TailDetails :=
  TailBlinded (tail_hops tail) (tail_blinding_point tail) (tail_final_value_msat tail)
    (excess_final_cltv_expiry_delta tail).

Definition build_onion_payloads (path : Path) (recipient_onion : RecipientOnionFields) (cur_block_height : Z)
    (keysend_preimage : option bytes) (invoice_request : option InvoiceRequest)
    (trampoline_packet : option TrampolineOnionPacket) : result APIError (list OutboundOnionPayload * Z * Z) :=
  let tail := (fun bt => match trampoline_packet with
                         | Some trampoline_packet => SendToTrampoline trampoline_packet (tail_final_value_msat bt)
                         | None => tail_details bt
                         end) <$> blinded_tail path in
  build_onion_payloads_callback recipient_onion cur_block_height keysend_preimage invoice_request
    (map route_path_hop (path_hops path)) tail.

Definition build_trampoline_onion_payloads (tail : BlindedTail) (recipient_onion : RecipientOnionFields)
    (cur_block_height : Z) (keysend_preimage : option bytes)
    : result APIError (list OutboundTrampolinePayload * Z) :=
  '(res, value_msat, _) ← build_onion_payloads_callback recipient_onion cur_block_height keysend_preimage None
    (map trampoline_path_hop (trampoline_hops tail)) (Some (tail_details tail));
  Ok (res, value_msat).

(** ** Keys

    The blinded hops behind the introduction node, which is the last hop of the path
    or of the trampolines. *)
Definition blinded_pubkeys (tail : option BlindedTail) : list PublicKey :=
  match tail with Some tail => map blinded_node_id (drop 1 (tail_hops tail)) | None => [] end.

Definition nontrampoline_tail (path : Path) : option BlindedTail :=
  if has_trampoline_hops path then None else blinded_tail path.

Definition construct_onion_keys (path : Path) (session_priv : SecretKey) : run (list OnionKeys) :=
  keys ← construct_onion_keys_generic
    (map hop_pubkey (path_hops path) ++ blinded_pubkeys (nontrampoline_tail path)) session_priv;
  mret (map (fun '(ss, ephemeral) => onion_keys_of ss ephemeral) keys).

Definition construct_trampoline_onion_keys (tail : BlindedTail) (session_priv : SecretKey) : run (list OnionKeys) :=
  keys ← construct_onion_keys_generic
    (map tramp_pubkey (trampoline_hops tail) ++ blinded_pubkeys (Some tail)) session_priv;
  mret (map (fun '(ss, ephemeral) => onion_keys_of ss ephemeral) keys).

Definition compute_trampoline_session_priv (outer_onion_session_priv : SecretKey) : run SecretKey :=
  unwrap (secret_from_slice (sha256 (secret_bytes outer_onion_session_priv))).

Definition construct_pq_onion_keys_and_trail (path : Path) (session_priv : SecretKey) (hop_kem_keys : list bytes)
    (kem_base_seed trail_prng_seed : bytes) : run (result unit (list OnionKeys * bytes * list bytes)) :=
  if (MAX_PATH_LENGTH_ESTIMATE <? length (path_hops path))%nat || has_trampoline_hops path then mret (Err tt)
  else
    keys ← construct_pq_onion_keys_inner (map hop_pubkey (path_hops path)) (blinded_pubkeys (blinded_tail path))
      session_priv hop_kem_keys kem_base_seed 0;
    match keys with
    | Err e => mret (Err e)
    | Ok (onion_keys, ciphertexts, kem_secrets) =>
        trail ← build_pq_trail ciphertexts trail_prng_seed;
        match trail with
        | Err e => mret (Err e)
        | Ok trail => mret (Ok (onion_keys, trail, kem_secrets))
        end
    end.

(** ** Packets *)

Record OnionPacket : Type := mkOnionPacket {
  packet_version : Z;
  (** [Err] is a key that could not be parsed. *)
  packet_public_key : result unit PublicKey;
  packet_hop_data : bytes;
  packet_hmac : bytes;
}.

Definition construct_onion_packet (payloads : list OutboundOnionPayload) (onion_keys : list OnionKeys)
    (prng_seed associated_data : bytes) : run (result unit OnionPacket) :=
  packet ← construct_onion_packet_with_init_noise (map outbound_payload_write payloads) onion_keys
    (init_noise prng_seed ONION_DATA_LEN) (Some associated_data);
  mret (match packet with
        | Err e => Err e
        | Ok (public_key, hop_data, hmac) => Ok (mkOnionPacket 0 (Ok public_key) hop_data hmac)
        end).

Definition payloads_serialized_length (payloads : list bytes) : nat :=
  sum_list_with (fun p : bytes => length p + 32)%nat payloads.

(** [length] is [None] at every call. *)
Definition construct_trampoline_onion_packet (payloads : list OutboundTrampolinePayload) (onion_keys : list OnionKeys)
    (prng_seed associated_data : bytes) (len : option nat) : run (result unit TrampolineOnionPacket) :=
  let payloads := map outbound_trampoline_payload_write payloads in
  let minimum_packet_length := payloads_serialized_length payloads in
  if (ONION_DATA_LEN <=? minimum_packet_length)%nat then mret (Err tt)
  else
    let packet_length := default minimum_packet_length len in
    if (packet_length <? minimum_packet_length)%nat then mret (Err tt)
    else
      packet ← construct_onion_packet_with_init_noise payloads onion_keys (init_noise prng_seed packet_length)
        (Some associated_data);
      mret (match packet with
            | Err e => Err e
            | Ok (public_key, hop_data, hmac) => Ok (mkTrampolineOnionPacket 0 public_key hop_data hmac)
            end).

Definition too_large : APIError := InvalidRoute "Route size too large (or empty) considering onion data".
Definition no_pq_keys : APIError :=
  InvalidRoute "Failed to build post-quantum onion keys (route too long or missing ML-KEM key)".

(** [res?] inside code that may panic *)
Definition run_bind {E A B} (m : run (result E A)) (f : A -> run (result E B)) : run (result E B) :=
  r ← m; match r with Err e => mret (Err e) | Ok a => f a end.
Definition map_err {E E' A} (e : E') (r : run (result E A)) : run (result E' A) :=
  r ← r; mret (match r with Err _ => Err e | Ok a => Ok a end).

(** What the trampoline at the entry gets for the whole payment. *)
Definition trampoline_outer_onion (recipient_onion : RecipientOnionFields) (outer_total_msat : Z) : RecipientOnionFields :=
  mkRecipientOnionFields (rof_payment_secret recipient_onion) None [] outer_total_msat.

Definition no_metadata : APIError := InvalidRoute "Cannot pass payment_metadata to a blinded recipient".

(** The trampoline onion of a path, if it has one, and the fields of the outer onion.
    The overrides of the session key and the seed are for tests. *)
Definition inner_trampoline_onion (path : Path) (session_priv : SecretKey) (recipient_onion : RecipientOnionFields)
    (cur_block_height : Z) (payment_hash : bytes) (keysend_preimage : option bytes) (prng_seed : bytes)
    : run (result APIError (RecipientOnionFields * option TrampolineOnionPacket)) :=
  match blinded_tail path with
  | None => mret (Ok (recipient_onion, None))
  | Some tail =>
      if is_some (rof_payment_metadata recipient_onion) then mret (Err no_metadata)
      else if bool_decide (length (trampoline_hops tail) = 0%nat) then mret (Ok (recipient_onion, None))
      else
        run_bind (mret (build_trampoline_onion_payloads tail recipient_onion cur_block_height keysend_preimage))
          (fun '(trampoline_payloads, outer_total_msat) =>
        trampoline_session_priv ← compute_trampoline_session_priv session_priv;
        onion_keys ← construct_trampoline_onion_keys tail trampoline_session_priv;
        run_bind (map_err too_large
          (construct_trampoline_onion_packet trampoline_payloads onion_keys prng_seed payment_hash None))
          (fun trampoline_packet =>
        mret (Ok (trampoline_outer_onion recipient_onion outer_total_msat, Some trampoline_packet))))
  end.

Definition create_payment_onion_internal (path : Path) (session_priv : SecretKey)
    (recipient_onion : RecipientOnionFields) (cur_block_height : Z) (payment_hash : bytes)
    (keysend_preimage : option bytes) (invoice_request : option InvoiceRequest) (prng_seed : bytes)
    : run (result APIError (OnionPacket * Z * Z)) :=
  run_bind (inner_trampoline_onion path session_priv recipient_onion cur_block_height payment_hash keysend_preimage
      prng_seed) (fun '(outer_onion, trampoline_packet) =>
  run_bind (mret (build_onion_payloads path outer_onion cur_block_height keysend_preimage invoice_request
      trampoline_packet)) (fun '(onion_payloads, htlc_msat, htlc_cltv) =>
  onion_keys ← construct_onion_keys path session_priv;
  run_bind (map_err too_large (construct_onion_packet onion_payloads onion_keys prng_seed payment_hash))
    (fun onion_packet =>
  mret (Ok (onion_packet, htlc_msat, htlc_cltv))))).

(** [NextTrampolineHopInfo] *)
Record NextTrampolineHopInfo : Type := mkNextTrampolineHopInfo {
  nt_onion_packet : TrampolineOnionPacket;
  nt_blinding_point : option PublicKey;
  nt_amount_msat : Z;
  nt_cltv_expiry_height : Z;
}.

Definition create_trampoline_forward_onion (path : Path) (session_priv : SecretKey) (payment_hash : bytes)
    (recipient_onion : RecipientOnionFields) (info : NextTrampolineHopInfo) (cur_block_height : Z) (prng_seed : bytes)
    : run (result APIError (OnionPacket * Z * Z)) :=
  let tail := ForwardToTrampoline (nt_onion_packet info) (nt_blinding_point info) (nt_cltv_expiry_height info) in
  run_bind (mret (build_onion_payloads_callback recipient_onion cur_block_height None None
      (map route_path_hop (path_hops path)) (Some tail))) (fun '(res, value_msat, cltv) =>
  onion_keys ← construct_onion_keys path session_priv;
  run_bind (map_err (InvalidRoute "Route size too large considering onion data")
      (construct_onion_packet res onion_keys prng_seed payment_hash)) (fun onion_packet =>
  mret (Ok (onion_packet, value_msat, cltv)))).

(** A post-quantum onion: the packet, the first hop's amount and expiry, the trail,
    the secrets shared with the unblinded hops, and the list for the blinded path. *)
Definition PqOnion : Type := OnionPacket * Z * Z * bytes * bytes * option bytes.

Definition create_pq_plain_onion (path : Path) (session_priv : SecretKey) (recipient_onion : RecipientOnionFields)
    (cur_block_height : Z) (payment_hash : bytes) (keysend_preimage : option bytes)
    (invoice_request : option InvoiceRequest) (prng_seed : bytes) (hop_kem_keys : list bytes)
    (kem_base_seed trail_prng_seed : bytes) : run (result APIError PqOnion) :=
  run_bind (mret (build_onion_payloads path recipient_onion cur_block_height keysend_preimage invoice_request None))
    (fun '(onion_payloads, htlc_msat, htlc_cltv) =>
  run_bind (map_err no_pq_keys (construct_pq_onion_keys_and_trail path session_priv hop_kem_keys kem_base_seed
      trail_prng_seed)) (fun '(onion_keys, trail, kem_secrets) =>
  run_bind (map_err too_large (construct_onion_packet onion_payloads onion_keys prng_seed payment_hash))
    (fun onion_packet =>
  mret (Ok (onion_packet, htlc_msat, htlc_cltv, trail, mjoin kem_secrets,
            blinded_tail path ≫= tail_kem_ct))))).

Definition create_pq_trampoline_onion (path : Path) (tail : BlindedTail) (session_priv : SecretKey)
    (recipient_onion : RecipientOnionFields) (cur_block_height : Z) (payment_hash : bytes)
    (keysend_preimage : option bytes) (invoice_request : option InvoiceRequest) (prng_seed : bytes)
    (hop_kem_keys trampoline_kem_keys : list bytes) (kem_base_seed trail_prng_seed : bytes)
    : run (result APIError PqOnion) :=
  if is_some (rof_payment_metadata recipient_onion) then mret (Err no_metadata)
  else
    run_bind (mret (build_trampoline_onion_payloads tail recipient_onion cur_block_height keysend_preimage))
      (fun '(trampoline_payloads, outer_total_msat) =>
    trampoline_session_priv ← compute_trampoline_session_priv session_priv;
    run_bind (map_err (InvalidRoute "Failed to build post-quantum Trampoline onion keys (missing ML-KEM key)")
      (construct_pq_onion_keys_inner (map tramp_pubkey (trampoline_hops tail)) (blinded_pubkeys (Some tail))
        trampoline_session_priv trampoline_kem_keys kem_base_seed (length (path_hops path))))
      (fun '(trampoline_onion_keys, trampoline_cts, trampoline_kem_secrets) =>
    run_bind (map_err too_large
      (construct_trampoline_onion_packet trampoline_payloads trampoline_onion_keys prng_seed payment_hash None))
      (fun trampoline_packet =>
    run_bind (mret (build_onion_payloads path (trampoline_outer_onion recipient_onion outer_total_msat)
        cur_block_height keysend_preimage invoice_request (Some trampoline_packet)))
      (fun '(onion_payloads, htlc_msat, htlc_cltv) =>
    run_bind (map_err no_pq_keys
      (construct_pq_onion_keys_inner (map hop_pubkey (path_hops path)) [] session_priv hop_kem_keys kem_base_seed 0))
      (fun '(onion_keys, outer_cts, outer_kem_secrets) =>
    run_bind (map_err too_large (construct_onion_packet onion_payloads onion_keys prng_seed payment_hash))
      (fun onion_packet =>
    run_bind (map_err no_pq_keys (build_pq_trail (outer_cts ++ trampoline_cts) trail_prng_seed)) (fun trail =>
    mret (Ok (onion_packet, htlc_msat, htlc_cltv, trail, mjoin (outer_kem_secrets ++ trampoline_kem_secrets),
              tail_kem_ct tail))))))))).

Definition create_pq_payment_onion (path : Path) (session_priv : SecretKey) (recipient_onion : RecipientOnionFields)
    (cur_block_height : Z) (payment_hash : bytes) (keysend_preimage : option bytes)
    (invoice_request : option InvoiceRequest) (prng_seed : bytes) (hop_kem_keys trampoline_kem_keys : list bytes)
    (kem_base_seed trail_prng_seed : bytes) : run (result APIError PqOnion) :=
  if match blinded_tail path with Some bt => negb (is_some (tail_kem_ct bt)) | None => false end
  then mret (Err (InvalidRoute "Post-quantum payment onion requires a post-quantum blinded path"))
  else if negb (has_trampoline_hops path) then
    create_pq_plain_onion path session_priv recipient_onion cur_block_height payment_hash keysend_preimage
      invoice_request prng_seed hop_kem_keys kem_base_seed trail_prng_seed
  else
    tail ← unwrap (blinded_tail path);
    create_pq_trampoline_onion path tail session_priv recipient_onion cur_block_height payment_hash keysend_preimage
      invoice_request prng_seed hop_kem_keys trampoline_kem_keys kem_base_seed trail_prng_seed.

(** ** The onion [send_payment_along_path] builds (lightning/src/ln/channelmanager.rs)

    [pq_kem_key_for_node] is the router's view of the ML-KEM keys in gossip. *)

Definition pq_eligible (path : Path) : bool :=
  let is_pq_blinded := match blinded_tail path with Some bt => is_some (tail_kem_ct bt) | None => false end in
  negb (bool_decide (length (path_hops path) = 0%nat)) &&
  (if has_trampoline_hops path then is_pq_blinded else negb (is_some (blinded_tail path)) || is_pq_blinded).

(** The ML-KEM keys of the hops and of the trampolines, if every one has a key. *)
Definition path_kem_keys (path : Path) (pq_kem_key_for_node : PublicKey -> option bytes)
    : option (list bytes * list bytes) :=
  if pq_eligible path then
    hop_kem_keys ← mapM (fun hop => pq_kem_key_for_node (hop_pubkey hop)) (path_hops path);
    trampoline_kem_keys ← match blinded_tail path with
                          | None => Some []
                          | Some bt => mapM (fun hop => pq_kem_key_for_node (tramp_pubkey hop)) (trampoline_hops bt)
                          end;
    Some (hop_kem_keys, trampoline_kem_keys)
  else None.

(** The packet, the amount and the expiry of the first HTLC, the trail, the secrets
    kept for a returning failure, and the list for the blinded path. *)
Definition PaymentOnion : Type := OnionPacket * Z * Z * option bytes * option bytes * option bytes.

Definition payment_onion (require_post_quantum_payments : bool) (pq_kem_key_for_node : PublicKey -> option bytes)
    (path : Path) (session_priv : SecretKey) (recipient_onion : RecipientOnionFields) (cur_height : Z)
    (payment_hash : bytes) (keysend_preimage : option bytes) (invoice_request : option InvoiceRequest)
    (prng_seed kem_base_seed trail_prng_seed : bytes) : run (result APIError PaymentOnion) :=
  match path_kem_keys path pq_kem_key_for_node with
  | Some (hop_kem_keys, trampoline_kem_keys) =>
      run_bind (create_pq_payment_onion path session_priv recipient_onion cur_height payment_hash keysend_preimage
                  invoice_request prng_seed hop_kem_keys trampoline_kem_keys kem_base_seed trail_prng_seed)
        (fun '(onion_packet, htlc_msat, htlc_cltv, trail, kem_secrets, pq_blinded_ct) =>
      mret (Ok (onion_packet, htlc_msat, htlc_cltv, Some trail, Some kem_secrets, pq_blinded_ct)))
  | None =>
      if require_post_quantum_payments
      then mret (Err (InvalidRoute "Post-quantum payments are required but the route is not post-quantum-capable"))
      else
        run_bind (create_payment_onion_internal path session_priv recipient_onion cur_height payment_hash
                    keysend_preimage invoice_request prng_seed)
          (fun '(onion_packet, htlc_msat, htlc_cltv) =>
        mret (Ok (onion_packet, htlc_msat, htlc_cltv, None, None, None)))
  end.

End route.
