(* ===== verification/OnionFailure.v ===== *)
(** * Returned failures and hold times (lightning/src/ln/onion_utils.rs)

    A hop that fails a payment builds a packet; every hop on the way back adds its
    hold time and encrypts; the sender peels the layers and finds who failed, why,
    and how long each hop held the payment.  [AttributionData] is kept as the bytes
    of the source; the operations on it copy slices of them. *)

From Stdlib Require Import ZArith Lia Bool.
From stdpp Require Import strings.
From S2P Require Import Prelude.
From S2P Require Import Features.
From S2P Require Import Keys.
From S2P Require Import Ser.
From S2P Require Import Onion.
From S2P Require Import PqKem.
From S2P Require Import Streams.
From S2P Require Import BlindedPath.
From S2P Require Import OnionPayload.
From S2P Require Import OnionRoute.

Local Open Scope Z_scope.

(** ** Failure codes *)

(** The length [get_onion_debug_field] gives; the name is for the log. *)
Definition debug_field_size (self : LocalHTLCFailureReason) : nat :=
  match self with
  | InvalidOnionVersion | InvalidOnionHMAC | InvalidOnionKey => 32
  | AmountBelowMinimum | FeeInsufficient => 8
  | IncorrectCLTVExpiry | FinalIncorrectCLTVExpiry => 4
  | FinalIncorrectHTLCAmount => 8
  | ChannelDisabled => 2
  | _ => 0
  end%nat.
Definition has_flag (flag : Z) (self : LocalHTLCFailureReason) : bool := Z.land (failure_code self) flag =? flag.
Definition is_temporary : LocalHTLCFailureReason -> bool := has_flag UPDATE.
Definition is_permanent : LocalHTLCFailureReason -> bool := has_flag PERM.
Definition is_badonion : LocalHTLCFailureReason -> bool := has_flag BADONION.
Definition is_node : LocalHTLCFailureReason -> bool := has_flag NODE.
Definition is_recipient_failure (self : LocalHTLCFailureReason) : bool :=
  (failure_code self =? failure_code IncorrectPaymentDetails) || bool_decide (self = FinalIncorrectCLTVExpiry) ||
  bool_decide (self = FinalIncorrectHTLCAmount) || bool_decide (self = MPPTimeout).

(** ** Attribution data *)

Definition HOLD_TIME_LEN : nat := 4.
Definition MAX_HOPS : nat := 20.
Definition HMAC_LEN : nat := 4.
Definition HMAC_COUNT : nat := MAX_HOPS * (MAX_HOPS + 1) / 2.

Record AttributionData : Type := mkAttributionData {
  hold_times : bytes;
  hmacs : bytes;
}.
Definition attribution_new : AttributionData :=
  mkAttributionData (replicate (MAX_HOPS * HOLD_TIME_LEN) 0) (replicate (HMAC_LEN * HMAC_COUNT) 0).

(** [slice.copy_within(src..src + len, dest)] *)
Definition copy_within {A} (src len dest : nat) (l : list A) : list A :=
  take dest l ++ take len (drop src l) ++ drop (dest + len) l.

Definition get_hmac {A} (l : list A) (idx : nat) : list A := take HMAC_LEN (drop (idx * HMAC_LEN) l).
Definition set_hmac (l : bytes) (idx : nat) (hmac : bytes) : bytes :=
  take (idx * HMAC_LEN) l ++ hmac ++ drop ((idx + 1) * HMAC_LEN) l.

(** The loop of [shift_left] and of [shift_right] over the HMACs. *)
Fixpoint hmacs_left {A} (rounds src_idx dest_idx copy_len : nat) (l : list A) : list A :=
  match rounds with
  | O => l
  | S rounds =>
      let l := copy_within (src_idx * HMAC_LEN) (copy_len * HMAC_LEN) (dest_idx * HMAC_LEN) l in
      hmacs_left rounds (src_idx + copy_len) (dest_idx + (copy_len + 1)) (copy_len - 1) l
  end.
Fixpoint hmacs_right {A} (rounds src_idx dest_idx copy_len : nat) (l : list A) : list A :=
  match rounds with
  | O => l
  | S rounds =>
      let l := copy_within (src_idx * HMAC_LEN) (copy_len * HMAC_LEN) (dest_idx * HMAC_LEN) l in
      let copy_len := (copy_len + 1)%nat in
      hmacs_right rounds (src_idx - (copy_len + 1)) (dest_idx - copy_len) copy_len l
  end.
Definition times_left {A} (l : list A) : list A := copy_within HOLD_TIME_LEN (MAX_HOPS * HOLD_TIME_LEN - HOLD_TIME_LEN) 0 l.
Definition times_right {A} (l : list A) : list A := copy_within 0 ((MAX_HOPS - 1) * HOLD_TIME_LEN) HOLD_TIME_LEN l.

Definition shift_left (self : AttributionData) : AttributionData :=
  mkAttributionData (times_left (hold_times self)) (hmacs_left (MAX_HOPS - 1) MAX_HOPS 1 (MAX_HOPS - 1) (hmacs self)).
Definition shift_right (self : AttributionData) : AttributionData :=
  mkAttributionData (times_right (hold_times self))
    (hmacs_right (MAX_HOPS - 1) (HMAC_COUNT - 2) (HMAC_COUNT - 1) 1 (hmacs self)).

(** [write_downstream_hmacs] *)
Fixpoint downstream_hmacs (self : AttributionData) (j rounds hmac_idx : nat) : bytes :=
  match rounds with
  | O => []
  | S rounds => get_hmac (hmacs self) hmac_idx ++ downstream_hmacs self (S j) rounds (hmac_idx + (MAX_HOPS - j - 1))
  end.
Definition write_downstream_hmacs (self : AttributionData) (position : nat) : bytes :=
  downstream_hmacs self 0 position (MAX_HOPS + MAX_HOPS - position - 1).

Section failure.
Context {bitcoin : Bitcoin} {crypto : OnionCrypto} {kem : Kem} {poly : Poly1305}.
Context {contexts : PaymentContexts} {invoice_requests : InvoiceRequests}.

Definition attribution_crypt (ss : bytes) (self : AttributionData) : AttributionData :=
  let ammagext := gen_ammagext_from_shared_secret ss in
  mkAttributionData (apply_keystream ammagext 0 (hold_times self))
    (apply_keystream ammagext (length (hold_times self)) (hmacs self)).

(** What the HMAC of a hop covers if it is at [position] before the last one. *)
Definition hmac_input (self : AttributionData) (message : bytes) (position : nat) : bytes :=
  message ++ take ((position + 1) * HOLD_TIME_LEN) (hold_times self) ++ write_downstream_hmacs self position.
Definition position_hmac (self : AttributionData) (um message : bytes) (position : nat) : bytes :=
  take HMAC_LEN (hmac_sha256 um (hmac_input self message position)).

Definition add_hmacs (ss message : bytes) (self : AttributionData) : AttributionData :=
  let um := gen_um_from_shared_secret ss in
  foldl (fun self hmac_idx =>
    mkAttributionData (hold_times self)
      (set_hmac (hmacs self) hmac_idx (position_hmac self um message (MAX_HOPS - hmac_idx - 1))))
    self (seq 0 MAX_HOPS).

Definition attribution_verify (self : AttributionData) (message ss : bytes) (position : nat) : result unit Z :=
  let expected_hmac := position_hmac self (gen_um_from_shared_secret ss) message position in
  if bool_decide (expected_hmac = get_hmac (hmacs self) (MAX_HOPS - position - 1))
  then Ok (from_be (take HOLD_TIME_LEN (hold_times self)))
  else Err tt.

Definition attribution_update (message ss : bytes) (hold_time : Z) (self : AttributionData) : AttributionData :=
  add_hmacs ss message (mkAttributionData (to_be 4 hold_time ++ drop HOLD_TIME_LEN (hold_times self)) (hmacs self)).

Definition process_fulfill_attribution_data (attribution_data : option AttributionData) (ss : bytes) (hold_time : Z)
    : AttributionData :=
  let attribution_data := match attribution_data with Some a => shift_right a | None => attribution_new end in
  attribution_crypt ss (attribution_update [] ss hold_time attribution_data).

(** ** Failure packets *)

Record OnionErrorPacket : Type := mkOnionErrorPacket {
  error_data : bytes;
  error_attribution : option AttributionData;
}.

Definition DEFAULT_MIN_FAILURE_PACKET_LEN : nat := 256.
Definition LN_MAX_MSG_LEN : nat := Z.to_nat 65535.

Definition crypt_failure_packet (ss : bytes) (packet : OnionErrorPacket) : OnionErrorPacket :=
  mkOnionErrorPacket (apply_keystream (gen_ammag_from_shared_secret ss) 0 (error_data packet))
    (attribution_crypt ss <$> error_attribution packet).

Definition update_attribution_data (ss : bytes) (hold_time : Z) (packet : OnionErrorPacket) : OnionErrorPacket :=
  mkOnionErrorPacket (error_data packet)
    (Some (attribution_update (error_data packet) ss hold_time (default attribution_new (error_attribution packet)))).

(** The failure message and its padding, each behind its length. *)
Definition failure_body (failure_reason : LocalHTLCFailureReason) (failure_data : bytes) (min_packet_len : nat) : bytes :=
  let failure_len := (2 + length failure_data)%nat in
  let pad_len := (min_packet_len - failure_len)%nat in
  to_be 2 (Z.of_nat failure_len) ++ to_be 2 (failure_code failure_reason) ++ failure_data ++
  to_be 2 (Z.of_nat pad_len) ++ replicate pad_len 0.

Definition build_unencrypted_failure_packet (ss : bytes) (failure_reason : LocalHTLCFailureReason)
    (failure_data : bytes) (hold_time : Z) (min_packet_len : nat) : OnionErrorPacket :=
  let body := failure_body failure_reason failure_data min_packet_len in
  update_attribution_data ss hold_time
    (mkOnionErrorPacket (hmac_sha256 (gen_um_from_shared_secret ss) body ++ body) None).

Definition build_failure_packet (ss : bytes) (failure_reason : LocalHTLCFailureReason) (failure_data : bytes)
    (hold_time : Z) : OnionErrorPacket :=
  crypt_failure_packet ss
    (build_unencrypted_failure_packet ss failure_reason failure_data hold_time DEFAULT_MIN_FAILURE_PACKET_LEN).

(** The length of the message: the type, the channel id, the HTLC id, the length of
    the reason, and the attribution data as a record. *)
Definition update_fail_htlc_wire_len (packet : OnionErrorPacket) : nat :=
  (2 + (32 + 8 + 2) + length (error_data packet) +
   match error_attribution packet with
   | Some a =>
       let value_len := (length (hold_times a) + length (hmacs a))%nat in
       length (bigsize_write 1) + length (bigsize_write (Z.of_nat value_len)) + value_len
   | None => 0
   end)%nat.

Definition process_failure_packet (ss : bytes) (hold_time : Z) (packet : OnionErrorPacket) : OnionErrorPacket :=
  let packet := update_attribution_data ss hold_time
                  (mkOnionErrorPacket (error_data packet) (shift_right <$> error_attribution packet)) in
  if (LN_MAX_MSG_LEN <? update_fail_htlc_wire_len packet)%nat
  then mkOnionErrorPacket (error_data packet) None else packet.

(** ** [HTLCFailReason] *)

Inductive HTLCFailReason : Type :=
| LightningError (err : OnionErrorPacket) (hold_time : option Z)
| Reason (failure_reason : LocalHTLCFailureReason) (data : bytes).

Definition set_hold_time (hold_time : Z) (self : HTLCFailReason) : HTLCFailReason :=
  match self with
  | LightningError err _ => LightningError err (Some hold_time)
  | Reason failure_reason data => Reason failure_reason data
  end.

Definition get_encrypted_failure_packet (self : HTLCFailReason) (incoming_packet_shared_secret : bytes)
    (secondary_shared_secret : option bytes) : OnionErrorPacket :=
  let relay ss hold_time packet := crypt_failure_packet ss (process_failure_packet ss hold_time packet) in
  match self with
  | Reason failure_reason data =>
      match secondary_shared_secret with
      | Some secondary => relay incoming_packet_shared_secret 0 (build_failure_packet secondary failure_reason data 0)
      | None => build_failure_packet incoming_packet_shared_secret failure_reason data 0
      end
  | LightningError err hold_time =>
      let hold_time := default 0 hold_time in
      let err := match secondary_shared_secret with Some secondary => relay secondary hold_time err | None => err end in
      relay incoming_packet_shared_secret hold_time err
  end.

(** ** What the sender learns *)

Inductive NetworkUpdate : Type :=
| ChannelFailure (short_channel_id : Z) (is_permanent : bool)
| NodeFailure (node_id : PublicKey) (is_permanent : bool).

(** The error code and data are kept in builds with test utilities. *)
Record DecodedOnionFailure : Type := mkDecodedOnionFailure {
  network_update : option NetworkUpdate;
  failed_short_channel_id : option Z;
  payment_failed_permanently : bool;
  failed_within_blinded_path : bool;
  decoded_hold_times : list Z;
  onion_error_code : option LocalHTLCFailureReason;
  onion_error_data : option bytes;
  peeled_error_packet : option OnionErrorPacket;
}.
Definition permanent_failure : DecodedOnionFailure :=
  mkDecodedOnionFailure None None true false [] None None None.

Inductive ErrorHop : Type :=
| ErrorRouteHop (hop : RouteHop)
| ErrorTrampolineHop (hop : TrampolineHop).
Definition error_hop_pubkey (self : ErrorHop) : PublicKey :=
  match self with ErrorRouteHop hop => hop_pubkey hop | ErrorTrampolineHop hop => tramp_pubkey hop end.
Definition error_hop_scid (self : ErrorHop) : option Z :=
  match self with ErrorRouteHop hop => Some (hop_short_channel_id hop) | ErrorTrampolineHop _ => None end.
Definition channel_failure (self : ErrorHop) (is_permanent : bool) : option NetworkUpdate :=
  match self with
  | ErrorRouteHop hop => Some (ChannelFailure (hop_short_channel_id hop) is_permanent)
  | ErrorTrampolineHop _ => None
  end.

(** [DecodedOnionErrorPacket::read] *)
Definition read_vec : reader bytes := len ← collection_length_read; read_exact (Z.to_nat len).
Definition decoded_error_packet_read : reader (bytes * bytes * bytes) :=
  hmac ← read_exact 32;
  failuremsg ← read_vec;
  pad ← read_vec;
  mret (hmac, failuremsg, pad).

(** [slice.get(from..to)] *)
Definition get_range (l : bytes) (from to : nat) : option bytes :=
  if (to <=? length l)%nat then Some (take (to - from) (drop from l)) else None.

(** The network update and the channel to blame for a failure that [route_hop] sent,
    [failing_hop] being the hop behind it, or itself if it is the last. *)
Definition failure_learnings (route_hop failing_hop : ErrorHop) (is_final : bool) (error_code : LocalHTLCFailureReason)
    (failuremsg : bytes) : option NetworkUpdate * option Z :=
  let payment_failed := is_recipient_failure error_code && is_final in
  if is_badonion error_code then (channel_failure failing_hop true, None)
  else if is_node error_code then
    (Some (NodeFailure (error_hop_pubkey route_hop) (is_permanent error_code)), error_hop_scid route_hop)
  else if is_permanent error_code then
    if payment_failed then (None, None) else (channel_failure failing_hop true, error_hop_scid failing_hop)
  else if is_temporary error_code then
    let size := debug_field_size error_code in
    let '(network_update, scid) :=
      match get_range failuremsg (size + 2) (size + 4) with
      | Some update_len_slice =>
          let update_len := Z.to_nat (from_be update_len_slice) in
          match get_range failuremsg (size + 4) (size + 4 + update_len) with
          | Some _ => (channel_failure failing_hop false, error_hop_scid failing_hop)
          | None => (None, None)
          end
      | None => (None, None)
      end in
    (match network_update with Some u => Some u | None => Some (NodeFailure (error_hop_pubkey route_hop) true) end,
     match scid with Some s => Some s | None => error_hop_scid route_hop end)
  else if payment_failed then
    (None, match error_code with
           | FinalIncorrectCLTVExpiry | FinalIncorrectHTLCAmount => error_hop_scid route_hop
           | _ => None
           end)
  else (Some (NodeFailure (error_hop_pubkey route_hop) true), error_hop_scid route_hop).

(** The failure a hop sent, once its HMAC matches. *)
Definition read_failure (route_hop failing_hop : ErrorHop) (is_final : bool) (data : bytes) (times : list Z)
    : DecodedOnionFailure :=
  let unreadable :=
    mkDecodedOnionFailure (Some (NodeFailure (error_hop_pubkey route_hop) true)) (error_hop_scid route_hop) is_final false
      times None None None in
  match decoded_error_packet_read data with
  | (Err _, _) => unreadable
  | (Ok (_, failuremsg, _), _) =>
      match get_range failuremsg 0 2 with
      | None => unreadable
      | Some error_code_slice =>
          let error_code := reason_from_u16 (from_be error_code_slice) in
          let '(network_update, scid) := failure_learnings route_hop failing_hop is_final error_code failuremsg in
          mkDecodedOnionFailure network_update scid (is_permanent error_code && is_final) false times
            (Some error_code) (Some (drop 2 failuremsg)) None
      end
  end.

(** The secret of a hop of a post-quantum payment. *)
Definition fold_hop_secret (pq_hop_kem_secrets : option bytes) (idx : nat) (ss : bytes) : bytes :=
  match pq_hop_kem_secrets with
  | Some kem_secrets =>
      if ((idx + 1) * PQ_KEM_SS_LEN <=? length kem_secrets)%nat
      then mix_payment_onion_secret ss (take PQ_KEM_SS_LEN (drop (idx * PQ_KEM_SS_LEN) kem_secrets)) else ss
  | None => ss
  end.

(** The check of the attribution data at one hop: the packet with the data shifted,
    the hold time, or the hop to blame. *)
Definition check_attribution (packet : OnionErrorPacket) (ss : bytes) (route_hop : ErrorHop) (idx attributable : nat)
    : OnionErrorPacket * list Z * option Z :=
  match error_attribution packet with
  | Some a =>
      if (idx <? attributable)%nat then
        match attribution_verify a (error_data packet) ss (attributable - idx - 1) with
        | Ok hold_time => (mkOnionErrorPacket (error_data packet) (Some (shift_left a)), [hold_time], None)
        | Err _ => (packet, [], error_hop_scid route_hop)
        end
      else (packet, [], None)
  | None => (packet, [], error_hop_scid route_hop)
  end.

(** A failure from inside the blinded path. *)
Definition within_blinded_path (times : list Z) : DecodedOnionFailure :=
  mkDecodedOnionFailure None None false true times (Some InvalidOnionBlinding) (Some (replicate 32 0)) None.

(** The loop of [process_onion_failure_inner]; a hop without a [RouteHop] is a
    blinded one. *)
Fixpoint process_failure_hops (num_blinded_hops attributable : nat) (pq_hop_kem_secrets : option bytes) (idx : nat)
    (hops : list (option ErrorHop * bytes)) (packet : OnionErrorPacket) (attribution_failed_channel : option Z)
    (times : list Z) (is_final : bool) : DecodedOnionFailure :=
  match hops with
  | [] => mkDecodedOnionFailure None None is_final false times None None (Some packet)
  | (None, _) :: _ => within_blinded_path times
  | (Some route_hop, ss) :: hops =>
      let ss := fold_hop_secret pq_hop_kem_secrets idx ss in
      let is_final := bool_decide (length hops = 0%nat) && (num_blinded_hops <=? 1)%nat in
      let failing_hop :=
        if is_final then Some route_hop
        else match hops with (Some hop, _) :: _ => Some hop | _ => None end in
      match failing_hop with
      | None => within_blinded_path times
      | Some failing_hop =>
          let packet := crypt_failure_packet ss packet in
          let '(packet, hold_time, failed) :=
            match attribution_failed_channel with
            | None => check_attribution packet ss route_hop idx attributable
            | Some _ => (packet, [], attribution_failed_channel)
            end in
          let times := times ++ hold_time in
          if bool_decide (hmac_sha256 (gen_um_from_shared_secret ss) (drop 32 (error_data packet)) =
                          take 32 (error_data packet))
          then read_failure route_hop failing_hop is_final (error_data packet) times
          else process_failure_hops num_blinded_hops attributable pq_hop_kem_secrets (S idx) hops packet failed times
                 is_final
      end
  end.

(** The hops of a path and the secrets the sender shares with them. *)
Definition error_hops (path : Path) (session_priv : SecretKey) : run (list (option ErrorHop * bytes)) :=
  keys ← construct_onion_keys_generic
    (map hop_pubkey (path_hops path) ++ blinded_pubkeys (nontrampoline_tail path)) session_priv;
  let hops := zip (map (fun h => Some (ErrorRouteHop h)) (path_hops path) ++
                   map (fun _ => None) (blinded_pubkeys (nontrampoline_tail path))) (map fst keys) in
  match blinded_tail path with
  | Some tail =>
      if has_trampoline_hops path then
        trampoline_session_priv ← compute_trampoline_session_priv session_priv;
        keys ← construct_onion_keys_generic
          (map tramp_pubkey (trampoline_hops tail) ++ blinded_pubkeys (Some tail)) trampoline_session_priv;
        mret (hops ++ zip (map (fun h => Some (ErrorTrampolineHop h)) (trampoline_hops tail) ++
                           map (fun _ => None) (blinded_pubkeys (Some tail))) (map fst keys))
      else mret hops
  | None => mret hops
  end.

Definition process_onion_failure_inner (path : Path) (session_priv : SecretKey) (pq_hop_kem_secrets : option bytes)
    (encrypted_packet : OnionErrorPacket) : run DecodedOnionFailure :=
  if (length (error_data encrypted_packet) <? 32)%nat then mret permanent_failure
  else
    let num_blinded_hops := match blinded_tail path with Some tail => length (tail_hops tail) | None => 0%nat end in
    hops ← error_hops path session_priv;
    mret (process_failure_hops num_blinded_hops (Nat.min (length (path_hops path)) MAX_HOPS) pq_hop_kem_secrets 0 hops
            encrypted_packet None [] false).

(** [HTLCSource::OutboundRoute] and [HTLCSource::TrampolineForward] *)
Inductive FailureSource : Type :=
| OutboundRoute (path : Path) (session_priv : SecretKey) (pq_hop_kem_secrets : option bytes)
| TrampolineForwardSource (outbound_payment : option (Path * SecretKey)).

Definition set_peeled (p : option OnionErrorPacket) (d : DecodedOnionFailure) : DecodedOnionFailure :=
  mkDecodedOnionFailure (network_update d) (failed_short_channel_id d) (payment_failed_permanently d)
    (failed_within_blinded_path d) (decoded_hold_times d) (onion_error_code d) (onion_error_data d) p.

Definition process_onion_failure (htlc_source : FailureSource) (encrypted_packet : OnionErrorPacket)
    : run DecodedOnionFailure :=
  match htlc_source with
  | OutboundRoute path session_priv pq_hop_kem_secrets =>
      decoded ← process_onion_failure_inner path session_priv pq_hop_kem_secrets encrypted_packet;
      mret (set_peeled None decoded)
  | TrampolineForwardSource None => mret permanent_failure
  | TrampolineForwardSource (Some (path, session_priv)) =>
      decoded ← process_onion_failure_inner path session_priv None encrypted_packet;
      mret (set_peeled ((fun p => mkOnionErrorPacket (error_data p) None) <$> peeled_error_packet decoded) decoded)
  end.

Definition decode_onion_failure (self : HTLCFailReason) (htlc_source : FailureSource) : run DecodedOnionFailure :=
  match self with
  | LightningError err _ => process_onion_failure htlc_source err
  | Reason failure_reason data =>
      match htlc_source with
      | OutboundRoute path _ _ =>
          hop ← unwrap (head (path_hops path));
          mret (mkDecodedOnionFailure None (Some (hop_short_channel_id hop)) false false [] (Some failure_reason)
                  (Some data) None)
      | TrampolineForwardSource _ =>
          mret (mkDecodedOnionFailure None None false false [] (Some failure_reason) (Some data) None)
      end
  end.

(** [decode_fulfill_attribution_data] *)
Fixpoint fulfill_hold_times (pq_hop_kem_secrets : option bytes) (attributable idx : nat) (secrets : list bytes)
    (attribution_data : AttributionData) : list Z :=
  match secrets with
  | [] => []
  | ss :: secrets =>
      let ss := fold_hop_secret pq_hop_kem_secrets idx ss in
      let attribution_data := attribution_crypt ss attribution_data in
      match attribution_verify attribution_data [] ss (attributable - idx - 1) with
      | Ok hold_time =>
          hold_time :: fulfill_hold_times pq_hop_kem_secrets attributable (S idx) secrets (shift_left attribution_data)
      | Err _ => []
      end
  end.
Definition decode_fulfill_attribution_data (path : Path) (outer_session_priv : SecretKey)
    (pq_hop_kem_secrets : option bytes) (attribution_data : AttributionData) : run (list Z) :=
  keys ← construct_onion_keys_generic (map hop_pubkey (path_hops path)) outer_session_priv;
  let attributable := Nat.min (length (path_hops path)) MAX_HOPS in
  mret (fulfill_hold_times pq_hop_kem_secrets attributable 0 (take attributable (map fst keys)) attribution_data).

(** ** The blocks of HMACs

    The HMACs are twenty blocks; block [b] has [20 - b] entries, one for every number
    of hops that may follow the hop that wrote it. *)

Definition block_start (b : nat) : nat := MAX_HOPS * b - b * (b - 1) / 2.
Definition entry {A} (l : list A) (b k : nat) : list A := get_hmac l (block_start b + k).

Definition right_spec (l : list nat) : bool :=
  forallb (fun b => forallb (fun k => bool_decide (entry l (S b) k = seq ((block_start b + S k) * HMAC_LEN) HMAC_LEN))
    (seq 0 (MAX_HOPS - 1 - b))) (seq 0 (MAX_HOPS - 1)).
Definition left_spec (l : list nat) : bool :=
  forallb (fun b => forallb (fun k => bool_decide (entry l b (S k) = seq ((block_start (S b) + k) * HMAC_LEN) HMAC_LEN))
    (seq 0 (MAX_HOPS - 1 - b))) (seq 0 (MAX_HOPS - 1)).

(** Copying is the same for all elements: it is enough to follow the indices. *)
Lemma copy_within_fmap {A B} (f : A -> B) src len dest l : copy_within src len dest (f <$> l) = f <$> copy_within src len dest l.
Proof. unfold copy_within. by rewrite !fmap_app, !fmap_take, !fmap_drop. Qed.
Lemma hmacs_left_fmap {A B} (f : A -> B) rounds : forall src dest len l,
  hmacs_left rounds src dest len (f <$> l) = f <$> hmacs_left rounds src dest len l.
Proof. induction rounds as [|rounds IH]; intros src dest len l; [done|]. cbn. by rewrite copy_within_fmap, IH. Qed.
Lemma hmacs_right_fmap {A B} (f : A -> B) rounds : forall src dest len l,
  hmacs_right rounds src dest len (f <$> l) = f <$> hmacs_right rounds src dest len l.
Proof. induction rounds as [|rounds IH]; intros src dest len l; [done|]. cbn. by rewrite copy_within_fmap, IH. Qed.
Lemma get_hmac_fmap {A B} (f : A -> B) (l : list A) idx : get_hmac (f <$> l) idx = f <$> get_hmac l idx.
Proof. unfold get_hmac. by rewrite fmap_take, fmap_drop. Qed.

Definition HMACS_LEN : nat := HMAC_LEN * HMAC_COUNT.

Lemma by_index (l : bytes) n : length l = n -> l = (fun i => nth i l 0) <$> seq 0 n.
Proof.
  intros <-. apply list_eq_same_length with (length l); [by rewrite length_fmap, length_seq|done|].
  intros i x y Hi Hx. rewrite list_lookup_fmap, lookup_seq_lt by done. cbn. intros [= <-].
  symmetry. by apply nth_lookup_Some.
Qed.

Lemma nth_seq_slice (l : bytes) from n : (from + n <= length l)%nat ->
  (fun i => nth i l 0) <$> seq from n = take n (drop from l).
Proof.
  intros Hl. apply list_eq_same_length with n; [rewrite length_take, length_drop; lia|by rewrite length_fmap, length_seq|].
  intros i x y Hi. rewrite list_lookup_fmap, lookup_seq_lt by done. cbn. intros [= <-].
  rewrite lookup_take_lt, lookup_drop by done. intros Hy. by apply nth_lookup_Some.
Qed.

Lemma right_checked : right_spec (hmacs_right (MAX_HOPS - 1) (HMAC_COUNT - 2) (HMAC_COUNT - 1) 1 (seq 0 HMACS_LEN)) = true.
Proof. vm_compute. reflexivity. Qed.
Lemma left_checked : left_spec (hmacs_left (MAX_HOPS - 1) MAX_HOPS 1 (MAX_HOPS - 1) (seq 0 HMACS_LEN)) = true.
Proof. vm_compute. reflexivity. Qed.

Lemma block_bound b k : (b + k < MAX_HOPS)%nat -> ((block_start b + k) * HMAC_LEN + HMAC_LEN <= HMACS_LEN)%nat.
Proof.
  intros Hbk.
  assert (forallb (fun b => ((block_start b + (MAX_HOPS - b - 1)) * HMAC_LEN + HMAC_LEN <=? HMACS_LEN)%nat) (seq 0 MAX_HOPS) = true)
    as Hall by (vm_compute; reflexivity).
  rewrite forallb_forall in Hall. assert (In b (seq 0 MAX_HOPS)) as Hb by (apply in_seq; lia).
  specialize (Hall b Hb). apply Nat.leb_le in Hall. unfold HMAC_LEN in *. lia.
Qed.

Lemma forallb_blocks (f : nat -> nat -> bool) b k :
  forallb (fun b => forallb (f b) (seq 0 (MAX_HOPS - 1 - b))) (seq 0 (MAX_HOPS - 1)) = true ->
  (b + S k < MAX_HOPS)%nat -> f b k = true.
Proof.
  intros Hall Hbk. assert (In b (seq 0 (MAX_HOPS - 1))) as Hb by (apply in_seq; lia).
  assert (In k (seq 0 (MAX_HOPS - 1 - b))) as Hk by (apply in_seq; lia).
  rewrite forallb_forall in Hall. specialize (Hall b Hb). rewrite forallb_forall in Hall. exact (Hall k Hk).
Qed.
Lemma right_spec_entry l b k : right_spec l = true -> (b + S k < MAX_HOPS)%nat ->
  entry l (S b) k = seq ((block_start b + S k) * HMAC_LEN) HMAC_LEN.
Proof.
  intros Hall Hbk. pose proof (forallb_blocks (fun b k => bool_decide (entry l (S b) k = seq ((block_start b + S k) * HMAC_LEN) HMAC_LEN)) b k Hall Hbk) as E.
  by apply bool_decide_eq_true in E.
Qed.
Lemma left_spec_entry l b k : left_spec l = true -> (b + S k < MAX_HOPS)%nat ->
  entry l b (S k) = seq ((block_start (S b) + k) * HMAC_LEN) HMAC_LEN.
Proof.
  intros Hall Hbk. pose proof (forallb_blocks (fun b k => bool_decide (entry l b (S k) = seq ((block_start (S b) + k) * HMAC_LEN) HMAC_LEN)) b k Hall Hbk) as E.
  by apply bool_decide_eq_true in E.
Qed.

Lemma slice_entry (l : bytes) b k : length l = HMACS_LEN -> (b + k < MAX_HOPS)%nat ->
  (fun i => nth i l 0) <$> seq ((block_start b + k) * HMAC_LEN) HMAC_LEN = entry l b k.
Proof. intros Hl Hbk. apply nth_seq_slice. rewrite Hl. by apply block_bound. Qed.

Lemma right_entry a b k : length (hmacs a) = HMACS_LEN -> (b + S k < MAX_HOPS)%nat ->
  entry (hmacs (shift_right a)) (S b) k = entry (hmacs a) b (S k).
Proof.
  intros Hl Hbk. destruct a as [t l]. unfold shift_right. cbn [hmacs] in *.
  rewrite <- (slice_entry l b (S k)), <- (right_spec_entry _ b k right_checked) by done.
  rewrite (by_index l _ Hl) at 1. rewrite hmacs_right_fmap. apply get_hmac_fmap.
Qed.

Lemma left_entry a b k : length (hmacs a) = HMACS_LEN -> (b + S k < MAX_HOPS)%nat ->
  entry (hmacs (shift_left a)) b (S k) = entry (hmacs a) (S b) k.
Proof.
  intros Hl Hbk. destruct a as [t l]. unfold shift_left. cbn [hmacs] in *.
  rewrite <- (slice_entry l (S b) k) by (done || lia). rewrite <- (left_spec_entry _ b k left_checked) by done.
  rewrite (by_index l _ Hl) at 1. rewrite hmacs_left_fmap. apply get_hmac_fmap.
Qed.

(** *** Attribution data of the right size *)

Definition TIMES_LEN : nat := MAX_HOPS * HOLD_TIME_LEN.
Definition sized (a : AttributionData) : Prop := length (hold_times a) = TIMES_LEN /\ length (hmacs a) = HMACS_LEN.

Lemma copy_within_length {A} src len dest (l : list A) : (src + len <= length l)%nat -> (dest + len <= length l)%nat ->
  length (copy_within src len dest l) = length l.
Proof. intros H1 H2. unfold copy_within. rewrite !length_app, !length_take, !length_drop. lia. Qed.

Lemma shift_right_sized a : sized a -> sized (shift_right a).
Proof.
  intros [Ht Hh]. split; cbn [shift_right hold_times hmacs].
  - unfold times_right. rewrite copy_within_length; [done|rewrite Ht; vm_compute; lia..].
  - rewrite (by_index _ _ Hh), hmacs_right_fmap, length_fmap. vm_compute. reflexivity.
Qed.
Lemma shift_left_sized a : sized a -> sized (shift_left a).
Proof.
  intros [Ht Hh]. split; cbn [shift_left hold_times hmacs].
  - unfold times_left. rewrite copy_within_length; [done|rewrite Ht; vm_compute; lia..].
  - rewrite (by_index _ _ Hh), hmacs_left_fmap, length_fmap. vm_compute. reflexivity.
Qed.
Lemma attribution_new_sized : sized attribution_new.
Proof. split; vm_compute; reflexivity. Qed.
Lemma crypt_sized ss a : sized a -> sized (attribution_crypt ss a).
Proof. intros [Ht Hh]. split; cbn; by rewrite apply_keystream_length. Qed.

(** What two copies agree on after [i] hops were taken off: the entries that were
    not overwritten, and all but the last hold times. *)
Definition agree (i : nat) (a a' : AttributionData) : Prop :=
  sized a /\ sized a' /\
  take ((MAX_HOPS - i) * HOLD_TIME_LEN) (hold_times a) = take ((MAX_HOPS - i) * HOLD_TIME_LEN) (hold_times a') /\
  forall b k, (i <= k)%nat -> (b + k < MAX_HOPS)%nat -> entry (hmacs a) b k = entry (hmacs a') b k.

Lemma agree_refl i a : sized a -> agree i a a.
Proof. done. Qed.

Lemma crypt_entry ss a b k : entry (hmacs (attribution_crypt ss a)) b k =
  apply_keystream (gen_ammagext_from_shared_secret ss) (length (hold_times a) + (block_start b + k) * HMAC_LEN)
    (entry (hmacs a) b k).
Proof.
  unfold entry, get_hmac. cbn [attribution_crypt hmacs]. by rewrite drop_apply_keystream, take_apply_keystream.
Qed.

Lemma agree_crypt i ss a a' : agree i a a' -> agree i (attribution_crypt ss a) (attribution_crypt ss a').
Proof.
  intros (Hs & Hs' & Ht & He). split_and!; [by apply crypt_sized..| |].
  - cbn [attribution_crypt hold_times]. by rewrite !take_apply_keystream, Ht.
  - intros b k Hk Hbk. rewrite !crypt_entry. destruct Hs as [-> _], Hs' as [-> _]. by rewrite He.
Qed.

Lemma crypt_twice ss a : attribution_crypt ss (attribution_crypt ss a) = a.
Proof.
  destruct a as [t h]. unfold attribution_crypt. cbn [hold_times hmacs].
  by rewrite apply_keystream_length, !apply_keystream_twice.
Qed.

Lemma block_start_S b : (b < MAX_HOPS)%nat -> block_start (S b) = (block_start b + (MAX_HOPS - b))%nat.
Proof.
  intros Hb.
  assert (forallb (fun b => (block_start (S b) =? block_start b + (MAX_HOPS - b))%nat) (seq 0 MAX_HOPS) = true) as Hall
    by (vm_compute; reflexivity).
  rewrite forallb_forall in Hall. apply Nat.eqb_eq, Hall, in_seq. lia.
Qed.

(** The HMAC of a hop depends on the hold times and on one entry of each block
    behind the first. *)
Lemma downstream_ext a a' k rounds : forall j,
  (forall b, (b + k < MAX_HOPS - 1)%nat -> entry (hmacs a) (S b) k = entry (hmacs a') (S b) k) ->
  (j + rounds + k < MAX_HOPS)%nat ->
  downstream_hmacs a j rounds (block_start (S j) + k) = downstream_hmacs a' j rounds (block_start (S j) + k).
Proof.
  induction rounds as [|rounds IH]; intros j He Hj; [done|]. cbn [downstream_hmacs]. f_equal; [apply He; lia|].
  replace (block_start (S j) + k + (MAX_HOPS - j - 1))%nat with (block_start (S (S j)) + k)%nat.
  - apply IH; [done|lia].
  - rewrite (block_start_S (S j)) by lia. lia.
Qed.

Lemma position_hmac_ext a a' um message position : (position < MAX_HOPS)%nat ->
  take ((position + 1) * HOLD_TIME_LEN) (hold_times a) = take ((position + 1) * HOLD_TIME_LEN) (hold_times a') ->
  (forall b, (b + (MAX_HOPS - position - 1) < MAX_HOPS - 1)%nat ->
     entry (hmacs a) (S b) (MAX_HOPS - position - 1) = entry (hmacs a') (S b) (MAX_HOPS - position - 1)) ->
  position_hmac a um message position = position_hmac a' um message position.
Proof.
  intros Hp Ht He. unfold position_hmac, hmac_input. rewrite Ht. do 4 f_equal. unfold write_downstream_hmacs.
  replace (MAX_HOPS + MAX_HOPS - position - 1)%nat with (block_start 1 + (MAX_HOPS - position - 1))%nat
    by (change (block_start 1) with MAX_HOPS; lia).
  apply downstream_ext; [done|lia].
Qed.

Lemma get_set_hmac (l h : bytes) idx idx' : length h = HMAC_LEN -> ((idx + 1) * HMAC_LEN <= length l)%nat ->
  get_hmac (set_hmac l idx h) idx' = if decide (idx' = idx) then h else get_hmac l idx'.
Proof.
  intros Hh Hl. unfold get_hmac, set_hmac, HMAC_LEN in *.
  assert (length (take (idx * 4) l) = idx * 4)%nat as Ht by (rewrite length_take; lia).
  case_decide as E; [subst idx'|].
  - by rewrite drop_app_length', take_app_length' by done.
  - destruct (Nat.lt_ge_cases idx' idx).
    + rewrite drop_app_le by lia. rewrite take_app_le by (rewrite length_drop; lia).
      by rewrite !take_drop_commute, take_take, Nat.min_l by lia.
    + rewrite drop_app_ge, Ht, drop_app_ge, Hh, drop_drop by lia. do 2 f_equal. lia.
Qed.

Lemma set_hmac_length (l h : bytes) idx : length h = HMAC_LEN -> ((idx + 1) * HMAC_LEN <= length l)%nat ->
  length (set_hmac l idx h) = length l.
Proof.
  unfold set_hmac, HMAC_LEN. intros Hh Hl. rewrite !length_app, length_take, length_drop. lia.
Qed.

Context {laws : OnionCryptoLaws}.

Lemma position_hmac_length a um message position : length (position_hmac a um message position) = HMAC_LEN.
Proof. unfold position_hmac, HMAC_LEN. rewrite length_take, hmac_length. lia. Qed.

(** [add_hmacs] fills the first block and leaves the others. *)
Record with_hmacs (n : nat) (um message : bytes) (a a' : AttributionData) : Prop := {
  wh_sized : sized a';
  wh_times : hold_times a' = hold_times a;
  wh_others b k : (b + k < MAX_HOPS - 1)%nat -> entry (hmacs a') (S b) k = entry (hmacs a) (S b) k;
  wh_first k : (k < n)%nat -> entry (hmacs a') 0 k = position_hmac a um message (MAX_HOPS - k - 1);
}.

Lemma block_start_first k : (block_start 0 + k)%nat = k.
Proof. done. Qed.
Lemma block_start_ge b : (b < MAX_HOPS)%nat -> (MAX_HOPS <= block_start (S b))%nat.
Proof. induction b as [|b IH]; intros Hb; [done|]. rewrite block_start_S by lia. specialize (IH ltac:(lia)). lia. Qed.

Lemma add_hmacs_prefix ss message a n : sized a -> (n <= MAX_HOPS)%nat ->
  with_hmacs n (gen_um_from_shared_secret ss) message a
    (foldl (fun self hmac_idx =>
       mkAttributionData (hold_times self)
         (set_hmac (hmacs self) hmac_idx
            (position_hmac self (gen_um_from_shared_secret ss) message (MAX_HOPS - hmac_idx - 1))))
       a (seq 0 n)).
Proof.
  intros Hs. induction n as [|n IH]; intros Hn; [split; [done..|]; intros k Hk; lia|].
  rewrite seq_S, foldl_app. cbn [foldl Nat.add]. set (s := foldl _ a (seq 0 n)) in *.
  destruct (IH ltac:(lia)) as [[Ht Hh] Htimes Hothers Hfirst].
  set (h := position_hmac s _ message _).
  assert (length h = HMAC_LEN) as Hlen by apply position_hmac_length.
  assert ((n + 1) * HMAC_LEN <= length (hmacs s))%nat as Hl.
  { rewrite Hh. pose proof (block_bound 0 n ltac:(lia)) as E. rewrite block_start_first in E. unfold HMAC_LEN in *. lia. }
  assert (h = position_hmac a (gen_um_from_shared_secret ss) message (MAX_HOPS - n - 1)) as Eh.
  { apply position_hmac_ext; [lia|by rewrite Htimes|]. intros b Hb. apply Hothers. lia. }
  split; cbn [hold_times hmacs].
  - split; cbn [hold_times hmacs]; [done|]. by rewrite set_hmac_length.
  - done.
  - intros b k Hbk. unfold entry. rewrite get_set_hmac by done. rewrite decide_False.
    + by apply Hothers.
    + pose proof (block_start_ge b ltac:(lia)). lia.
  - intros k Hk. unfold entry. rewrite block_start_first, get_set_hmac by done. case_decide as E.
    + by subst k.
    + apply Hfirst. lia.
Qed.

Lemma add_hmacs_spec ss message a : sized a ->
  with_hmacs MAX_HOPS (gen_um_from_shared_secret ss) message a (add_hmacs ss message a).
Proof. intros Hs. by apply add_hmacs_prefix. Qed.

(** *** One hop *)

Lemma stamped_sized a hold_time : sized a ->
  sized (mkAttributionData (to_be 4 hold_time ++ drop HOLD_TIME_LEN (hold_times a)) (hmacs a)).
Proof.
  intros [Ht Hh]. split; cbn [hold_times hmacs]; [|done]. rewrite length_app, to_be_length, length_drop, Ht. done.
Qed.

Lemma update_spec message ss hold_time a : sized a ->
  with_hmacs MAX_HOPS (gen_um_from_shared_secret ss) message
    (mkAttributionData (to_be 4 hold_time ++ drop HOLD_TIME_LEN (hold_times a)) (hmacs a))
    (attribution_update message ss hold_time a).
Proof. intros Hs. apply add_hmacs_spec. by apply stamped_sized. Qed.

Lemma update_others message ss hold_time a b k : sized a -> (b + k < MAX_HOPS - 1)%nat ->
  entry (hmacs (attribution_update message ss hold_time a)) (S b) k = entry (hmacs a) (S b) k.
Proof. intros Hs Hbk. exact (wh_others _ _ _ _ _ (update_spec message ss hold_time a Hs) b k Hbk). Qed.
Lemma update_times message ss hold_time a : sized a ->
  hold_times (attribution_update message ss hold_time a) = to_be 4 hold_time ++ drop HOLD_TIME_LEN (hold_times a).
Proof. intros Hs. exact (wh_times _ _ _ _ _ (update_spec message ss hold_time a Hs)). Qed.

Lemma verify_update i message ss hold_time a x position : sized a -> fits 32 hold_time ->
  agree i x (attribution_update message ss hold_time a) -> (i + position < MAX_HOPS)%nat ->
  attribution_verify x message ss position = Ok hold_time.
Proof.
  intros Hs Hfit (Hx & _ & Ht & He) Hp. destruct (update_spec message ss hold_time a Hs) as [_ Htimes Hothers Hfirst].
  set (u := attribution_update message ss hold_time a) in *. unfold attribution_verify.
  assert (forall n, (n <= MAX_HOPS - i)%nat -> take (n * HOLD_TIME_LEN) (hold_times x) = take (n * HOLD_TIME_LEN) (hold_times u)) as Htake.
  { intros n Hn. rewrite <- (Nat.min_l (n * HOLD_TIME_LEN) ((MAX_HOPS - i) * HOLD_TIME_LEN)) by (unfold HOLD_TIME_LEN; lia).
    by rewrite <- !take_take, Ht. }
  rewrite (position_hmac_ext x u) by (lia || (apply Htake; lia) || (intros b Hb; apply He; lia)).
  rewrite bool_decide_true.
  - f_equal. specialize (Htake 1%nat ltac:(lia)). rewrite Nat.mul_1_l in Htake. rewrite Htake, Htimes. cbn [hold_times].
    rewrite take_app_length' by by rewrite to_be_length. apply from_to_be. change (256 ^ Z.of_nat 4) with (2 ^ 32). exact Hfit.
  - change (get_hmac (hmacs x) (MAX_HOPS - position - 1)) with (entry (hmacs x) 0 (MAX_HOPS - position - 1)).
    rewrite He, Hfirst by lia. replace (MAX_HOPS - (MAX_HOPS - position - 1) - 1)%nat with position by lia.
    apply position_hmac_ext; [lia|by rewrite Htimes|]. intros b Hb. apply Hothers. lia.
Qed.

Lemma times_left_drop (l : bytes) : length l = TIMES_LEN -> times_left l = drop 4 l ++ drop 76 l.
Proof.
  unfold times_left, copy_within, TIMES_LEN, MAX_HOPS, HOLD_TIME_LEN. intros Hl. rewrite take_0, app_nil_l. f_equal.
  apply take_ge. rewrite length_drop. lia.
Qed.
Lemma times_right_drop (l : bytes) : length l = TIMES_LEN -> drop 4 (times_right l) = take 76 l.
Proof.
  unfold times_right, copy_within, TIMES_LEN, MAX_HOPS, HOLD_TIME_LEN. intros Hl.
  rewrite drop_app_length' by (rewrite length_take; lia). rewrite drop_0, (drop_ge l) by lia. by rewrite app_nil_r.
Qed.

(** Taking the hop's part off gives back what it got, but for what was lost. *)
Lemma shift_left_agree i message ss hold_time a x : sized a -> (i < MAX_HOPS)%nat ->
  agree i x (attribution_update message ss hold_time (shift_right a)) -> agree (S i) (shift_left x) a.
Proof.
  intros Hs Hi (Hx & _ & Ht & He).
  pose proof (shift_right_sized a Hs) as Hr. split_and!; [by apply shift_left_sized|done| |].
  - rewrite update_times in Ht by done. destruct Hs as [Hta _], Hx as [Htx _]. cbn [hold_times shift_right shift_left] in *.
    rewrite times_right_drop in Ht by done. rewrite times_left_drop by done.
    unfold TIMES_LEN, HOLD_TIME_LEN, MAX_HOPS in *. rewrite take_app_le by (rewrite length_drop; lia).
    rewrite take_drop_commute. replace (4 + (20 - S i) * 4)%nat with ((20 - i) * 4)%nat by lia. rewrite Ht.
    rewrite take_app_ge, to_be_length by (rewrite to_be_length; lia).
    rewrite drop_app_length' by by rewrite to_be_length. rewrite take_take, Nat.min_l by lia. f_equal. lia.
  - intros b [|k] Hk Hbk; [lia|]. destruct Hs as [_ Hla], Hx as [_ Hlx].
    rewrite left_entry by done. rewrite He, update_others by (done || lia). exact (right_entry a b k Hla Hbk).
Qed.

End failure.
