(* ===== verification/FailureReturn.v ===== *)
(** * What comes back to the sender

    The hold times of a fulfilled payment, and a failure with its origin and the hold
    times of the hops it passed: the sender reads back exactly what the hops wrote. *)

From Stdlib Require Import ZArith Lia Bool.
From stdpp Require Import strings.
From S2P Require Import Prelude.
From S2P Require Import Features.
From S2P Require Import Keys.
From S2P Require Import Ser.
From S2P Require Import Onion.
From S2P Require Import PqKem.
From S2P Require Import Streams.
From S2P Require Import BlindedPath.
From S2P Require Import OnionPayload.
From S2P Require Import OnionRoute.
From S2P Require Import OnionFailure.

Local Open Scope Z_scope.

Section return_path.
Context {bitcoin : Bitcoin} {crypto : OnionCrypto} {kem : Kem} {poly : Poly1305}.
Context {contexts : PaymentContexts} {invoice_requests : InvoiceRequests} {laws : OnionCryptoLaws}.

(** ** Hold times of a fulfilled payment *)

(** The attribution data the hops send back; a hop is the secret the sender derives
    for it and its hold time. *)
Fixpoint fulfilled (kem_secrets : option bytes) (idx : nat) (hops : list (bytes * Z)) : option AttributionData :=
  match hops with
  | [] => None
  | (ss, hold_time) :: hops =>
      Some (process_fulfill_attribution_data (fulfilled kem_secrets (S idx) hops) (fold_hop_secret kem_secrets idx ss)
              hold_time)
  end.

Lemma update_sized message ss hold_time a : sized a -> sized (attribution_update message ss hold_time a).
Proof. intros Hs. exact (wh_sized _ _ _ _ _ (update_spec message ss hold_time a Hs)). Qed.

Lemma fulfilled_sized kem_secrets hops : forall idx a, fulfilled kem_secrets idx hops = Some a -> sized a.
Proof.
  induction hops as [|[ss h] hops IH]; [done|]. intros idx a [= <-]. apply crypt_sized, update_sized.
  destruct (fulfilled kem_secrets (S idx) hops) as [a|] eqn:E; [by eapply shift_right_sized, IH|apply attribution_new_sized].
Qed.

Lemma fulfill_hold_times_exact kem_secrets n hops : (n <= MAX_HOPS)%nat -> Forall (fun hop : bytes * Z => fits 32 hop.2) hops ->
  forall idx x a, fulfilled kem_secrets idx hops = Some a -> agree idx x a ->
  fulfill_hold_times kem_secrets n idx (map fst (take (n - idx) hops)) x = map snd (take (n - idx) hops).
Proof.
  intros Hn. induction 1 as [|[ss h] hops Hfit Hall IH]; intros idx x a Ha Hx; [done|].
  destruct (Nat.le_gt_cases n idx) as [Hi|Hi]; [by rewrite (proj2 (Nat.sub_0_le _ _)) by done|].
  replace (n - idx)%nat with (S (n - S idx)) by lia. cbn [take map fulfill_hold_times fst snd].
  cbn [fulfilled] in Ha. injection Ha as <-. set (ss' := fold_hop_secret kem_secrets idx ss) in *.
  apply (agree_crypt _ ss') in Hx. unfold process_fulfill_attribution_data in Hx. rewrite crypt_twice in Hx.
  destruct (fulfilled kem_secrets (S idx) hops) as [a|] eqn:E.
  - pose proof (fulfilled_sized _ _ _ _ E) as Hs. pose proof (shift_right_sized a Hs) as Hr.
    rewrite (verify_update idx _ _ _ _ _ _ Hr Hfit Hx) by lia. f_equal.
    apply (IH (S idx) _ a E). by eapply shift_left_agree; [done|lia|].
  - rewrite (verify_update idx _ _ _ _ _ _ attribution_new_sized Hfit Hx) by lia.
    destruct hops as [|[]]; [|done]. by destruct (n - S idx)%nat.
Qed.

Lemma onion_keys_length pubkeys : forall session_priv keys,
  construct_onion_keys_generic pubkeys session_priv = Return keys -> length keys = length pubkeys.
Proof.
  induction pubkeys as [|pk pubkeys IH]; intros sp keys; cbn [construct_onion_keys_generic]; [by intros [= <-]|].
  destruct (scalar_from_be_bytes _) as [t|]; [|done]. cbn [mbind Prelude.run_bind unwrap].
  destruct (secret_mul_tweak sp t) as [sp'|]; [|done]. cbn [mbind Prelude.run_bind unwrap].
  destruct (construct_onion_keys_generic pubkeys _) as [rest|] eqn:E; [|done].
  intros [= <-]. cbn. f_equal. by eapply IH.
Qed.

(** C24: the sender of a fulfilled payment reads the hold time of every hop: if each
    hop of a path, from the last to the first, adds its hold time to the attribution
    data it got, shifts it, authenticates it for every position it may have and
    encrypts it, then what the sender decodes with the secrets of the path are the
    hold times of the first twenty hops, in order, for classical and post-quantum
    payments alike. *)
Theorem hold_times_decoded path session_priv kem_secrets keys times data :
  construct_onion_keys_generic (map hop_pubkey (path_hops path)) session_priv = Return keys ->
  length times = length (path_hops path) -> Forall (fits 32) times ->
  fulfilled kem_secrets 0 (zip (map fst keys) times) = Some data ->
  decode_fulfill_attribution_data path session_priv kem_secrets data = Return (take MAX_HOPS times).
Proof.
  intros Hkeys Hlen Hfit Hdata. unfold decode_fulfill_attribution_data. rewrite Hkeys. cbn [mbind Prelude.run_bind].
  pose proof (onion_keys_length _ _ _ Hkeys) as Hk. rewrite length_map in Hk. unfold mret, run_ret. f_equal.
  set (n := Nat.min (length (path_hops path)) MAX_HOPS).
  assert (Hz : length (map fst keys) = length times) by (rewrite length_map; congruence).
  assert (Ht : take n (map fst keys) = map fst (take n (zip (map fst keys) times))).
  { rewrite <- firstn_map. f_equal. symmetry. apply fst_zip. lia. }
  assert (Hs : take MAX_HOPS times = map snd (take n (zip (map fst keys) times))).
  { rewrite <- firstn_map. change (map snd ?l) with (snd <$> l). rewrite snd_zip by lia.
    unfold n. destruct (Nat.le_gt_cases (length (path_hops path)) MAX_HOPS) as [H|H].
    - rewrite !take_ge by lia. done.
    - by rewrite Nat.min_r by lia. }
  rewrite Ht, Hs. pose proof (fulfill_hold_times_exact kem_secrets n (zip (map fst keys) times)) as HE.
  specialize (HE ltac:(lia)). rewrite <- (Nat.sub_0_r n) at 2 3. apply HE with data; [|done|by eapply agree_refl, fulfilled_sized].
  apply Forall_forall. intros [ss h] Hin. apply elem_of_zip_r in Hin. rewrite Forall_forall in Hfit. by apply Hfit.
Qed.

(** ** A returned failure *)

(** The packet that reaches the sender: the origin's, relayed by the hops before it. *)
Fixpoint returned_failure (kem_secrets : option bytes) (idx : nat) (relays : list (bytes * Z)) (origin_ss : bytes)
    (reason : LocalHTLCFailureReason) (data : bytes) : OnionErrorPacket :=
  match relays with
  | [] => get_encrypted_failure_packet (Reason reason data) (fold_hop_secret kem_secrets idx origin_ss) None
  | (ss, hold_time) :: relays =>
      let err := returned_failure kem_secrets (S idx) relays origin_ss reason data in
      get_encrypted_failure_packet (set_hold_time hold_time (LightningError err None)) (fold_hop_secret kem_secrets idx ss) None
  end.

Definition own_hmac (ss data : bytes) : bool :=
  bool_decide (hmac_sha256 (gen_um_from_shared_secret ss) (drop 32 data) = take 32 data).

(** No hop before the origin finds its own HMAC in what it relays, which is
    encrypted for others. *)
Fixpoint unmatched (kem_secrets : option bytes) (idx : nat) (relays : list (bytes * Z)) (origin_ss : bytes)
    (reason : LocalHTLCFailureReason) (data : bytes) : bool :=
  match relays with
  | [] => true
  | (ss, _) :: relays =>
      negb (own_hmac (fold_hop_secret kem_secrets idx ss)
              (error_data (returned_failure kem_secrets (S idx) relays origin_ss reason data))) &&
      unmatched kem_secrets (S idx) relays origin_ss reason data
  end.

(** The longest failure a hop can relay with attribution data. *)
Definition MAX_ATTRIBUTED_LEN : nat := Z.to_nat 64567.
(** The lengths of the failure fit their fields and the packet keeps its attribution data. *)
Definition data_fits (data : bytes) : Prop := (length data <= Z.to_nat 64529)%nat.

Lemma wire_len_sized d a : sized a -> update_fail_htlc_wire_len (mkOnionErrorPacket d (Some a)) = (968 + length d)%nat.
Proof.
  intros [Ht Hh]. unfold update_fail_htlc_wire_len. cbn [error_data error_attribution]. rewrite Ht, Hh.
  replace (TIMES_LEN + HMACS_LEN)%nat with 920%nat by reflexivity.
  replace (length (bigsize_write (Z.of_nat 920))) with 3%nat by reflexivity.
  replace (length (bigsize_write 1)) with 1%nat by reflexivity. lia.
Qed.

(** A relayed packet keeps its data and its attribution data gets the hold time. *)
Lemma relay_packet ss h d a : sized a -> (length d <= MAX_ATTRIBUTED_LEN)%nat ->
  process_failure_packet ss h (mkOnionErrorPacket d (Some a)) =
  mkOnionErrorPacket d (Some (attribution_update d ss h (shift_right a))).
Proof.
  intros Hs Hd. unfold process_failure_packet, update_attribution_data. cbn [error_data error_attribution fmap option_fmap option_map default].
  rewrite wire_len_sized by (by apply update_sized, shift_right_sized).
  unfold LN_MAX_MSG_LEN, MAX_ATTRIBUTED_LEN in *. by rewrite (proj2 (Nat.ltb_ge _ _)) by lia.
Qed.

Lemma failure_body_length reason data min : length (failure_body reason data min) = (6 + length data + (min - (2 + length data)))%nat.
Proof. unfold failure_body. rewrite !length_app, !to_be_length, length_replicate. lia. Qed.

(** What the origin writes, before it is encrypted. *)
Definition origin_data (ss : bytes) (reason : LocalHTLCFailureReason) (data : bytes) : bytes :=
  let body := failure_body reason data DEFAULT_MIN_FAILURE_PACKET_LEN in
  hmac_sha256 (gen_um_from_shared_secret ss) body ++ body.
Lemma origin_data_length ss reason data : data_fits data -> (38 <= length (origin_data ss reason data) <= MAX_ATTRIBUTED_LEN)%nat.
Proof.
  unfold data_fits, origin_data, MAX_ATTRIBUTED_LEN, DEFAULT_MIN_FAILURE_PACKET_LEN.
  rewrite length_app, hmac_length, failure_body_length. lia.
Qed.

Lemma returned_well kem_secrets origin_ss reason data relays : data_fits data -> forall idx,
  exists a, sized a /\ returned_failure kem_secrets idx relays origin_ss reason data =
    mkOnionErrorPacket (error_data (returned_failure kem_secrets idx relays origin_ss reason data)) (Some a) /\
    (32 <= length (error_data (returned_failure kem_secrets idx relays origin_ss reason data)) <= MAX_ATTRIBUTED_LEN)%nat.
Proof.
  intros Hd. induction relays as [|[ss h] relays IH]; intros idx; cbn [returned_failure].
  - set (ss := fold_hop_secret _ _ _). exists (attribution_crypt ss (attribution_update (origin_data ss reason data) ss 0 attribution_new)).
    split_and!; [by apply crypt_sized, update_sized, attribution_new_sized|done|..];
      change (error_data _) with (apply_keystream (gen_ammag_from_shared_secret ss) 0 (origin_data ss reason data));
      rewrite apply_keystream_length; pose proof (origin_data_length ss reason data Hd); lia.
  - destruct (IH (S idx)) as (a & Hs & Hr & Hl). revert Hr Hl. generalize (returned_failure kem_secrets (S idx) relays origin_ss reason data).
    intros p Hr Hl. set (ss' := fold_hop_secret _ _ _). cbn [set_hold_time get_encrypted_failure_packet default]. rewrite Hr.
    change (error_data (mkOnionErrorPacket ?d _)) with d. rewrite relay_packet by (done || lia).
    eexists. split; [|split; [reflexivity|]].
    + by apply crypt_sized, update_sized, shift_right_sized.
    + cbn [crypt_failure_packet error_data]. by rewrite apply_keystream_length.
Qed.

(** The failure as read by the sender. *)
Definition failure_message (reason : LocalHTLCFailureReason) (data : bytes) : bytes := to_be 2 (failure_code reason) ++ data.

Lemma read_vec_app (l r : bytes) : Z.of_nat (length l) < 65535 -> read_vec (to_be 2 (Z.of_nat (length l)) ++ l ++ r) = (Ok l, r).
Proof.
  intros Hl. unfold read_vec.
  pose proof (collection_length_write_read (Z.of_nat (length l)) (l ++ r)) as Hr.
  unfold collection_length_write in Hr. rewrite (proj2 (Z.ltb_lt _ _)) in Hr by lia.
  rewrite (read_bind _ _ _ _ _ (Hr ltac:(unfold fits; lia))). apply read_exact_app. lia.
Qed.

Lemma origin_data_read ss reason data : data_fits data ->
  exists h pad, decoded_error_packet_read (origin_data ss reason data) = (Ok (h, failure_message reason data, pad), []).
Proof.
  unfold data_fits. intros Hd. unfold decoded_error_packet_read, origin_data. set (body := failure_body _ _ _). exists (hmac_sha256 (gen_um_from_shared_secret ss) body).
  exists (replicate (DEFAULT_MIN_FAILURE_PACKET_LEN - (2 + length data)) 0).
  rewrite (read_bind _ _ _ _ _ (read_exact_app 32 _ _ (hmac_length _ _))). unfold body, failure_body.
  replace (2 + length data)%nat with (length (failure_message reason data))
    by (unfold failure_message; rewrite length_app, to_be_length; done).
  rewrite app_assoc with (l := to_be 2 (failure_code reason)). fold (failure_message reason data).
  assert (Z.of_nat (length (failure_message reason data)) < 65535) as Hm
    by (unfold failure_message; rewrite length_app, to_be_length; lia).
  rewrite (read_bind _ _ _ _ _ (read_vec_app _ _ Hm)).
  set (n := (DEFAULT_MIN_FAILURE_PACKET_LEN - _)%nat).
  assert (Z.of_nat (length (replicate n 0)) < 65535) as Hp
    by (rewrite length_replicate; unfold n, DEFAULT_MIN_FAILURE_PACKET_LEN; lia).
  pose proof (read_vec_app (replicate n 0) [] Hp) as Hr. rewrite length_replicate, app_nil_r in Hr.
  by rewrite (read_bind _ _ _ _ _ Hr).
Qed.

(** What the sender makes of the failure [reason] of [route_hop]. *)
Definition attributed (route_hop failing_hop : ErrorHop) (is_final : bool) (reason : LocalHTLCFailureReason) (data : bytes)
    (times : list Z) : DecodedOnionFailure :=
  let code := reason_from_u16 (failure_code reason) in
  let '(update, scid) := failure_learnings route_hop failing_hop is_final code (failure_message reason data) in
  mkDecodedOnionFailure update scid (is_permanent code && is_final) false times (Some code) (Some data) None.

Lemma origin_failure_read route_hop failing_hop is_final ss reason data times :
  data_fits data -> fits 16 (failure_code reason) ->
  read_failure route_hop failing_hop is_final (origin_data ss reason data) times =
  attributed route_hop failing_hop is_final reason data times.
Proof.
  intros Hd Hc. destruct (origin_data_read ss reason data Hd) as (h & pad & Hr). unfold read_failure. rewrite Hr.
  unfold get_range. rewrite (proj2 (Nat.leb_le _ _)) by (unfold failure_message; rewrite length_app, to_be_length; lia).
  change (take (2 - 0) (drop 0 ?l)) with (take 2 l). unfold attributed.
  replace (take 2 (failure_message reason data)) with (to_be 2 (failure_code reason))
    by (symmetry; apply take_app_length'; by rewrite to_be_length).
  replace (drop 2 (failure_message reason data)) with data by (symmetry; apply drop_app_length'; by rewrite to_be_length).
  by rewrite from_to_be by exact Hc.
Qed.

(** *** The loop of the sender

    After [idx] hops the sender holds the packet of hop [idx], as far as it can still
    be attributed. *)
Definition holds (attributable idx : nat) (x : OnionErrorPacket) (failed : option Z) (p : OnionErrorPacket) : Prop :=
  error_data x = error_data p /\
  ((attributable <= idx)%nat \/
   failed = None /\ exists xa a, error_attribution x = Some xa /\ error_attribution p = Some a /\ agree idx xa a).

Definition checked (failed : option Z) (x : OnionErrorPacket) (ss : bytes) (route_hop : ErrorHop) (idx attributable : nat)
    : OnionErrorPacket * list Z * option Z :=
  match failed with None => check_attribution x ss route_hop idx attributable | Some _ => (x, [], failed) end.

Lemma hop_step attributable idx ss route_hop x failed d h r : (attributable <= MAX_HOPS)%nat -> fits 32 h -> sized r ->
  holds attributable idx x failed (crypt_failure_packet ss (mkOnionErrorPacket d (Some (attribution_update d ss h r)))) ->
  exists x' failed', checked failed (crypt_failure_packet ss x) ss route_hop idx attributable =
    (x', if (idx <? attributable)%nat then [h] else [], failed') /\ error_data x' = d /\
    forall a, sized a -> r = shift_right a -> holds attributable (S idx) x' failed' (mkOnionErrorPacket d (Some a)).
Proof.
  intros Hatt Hh Hr (Hdata & Hstate). cbn [crypt_failure_packet error_data error_attribution] in Hdata, Hstate.
  assert (Hx : error_data (crypt_failure_packet ss x) = d) by (cbn; by rewrite Hdata, apply_keystream_twice).
  destruct (Nat.ltb_spec idx attributable) as [Hi|Hi].
  - destruct Hstate as [|(-> & xa & a & Hxa & [= <-] & Hagree)]; [lia|]. unfold checked, check_attribution. rewrite Hx.
    cbn [crypt_failure_packet error_attribution]. rewrite Hxa. cbn [fmap option_fmap option_map].
    rewrite (proj2 (Nat.ltb_lt _ _)) by done.
    apply (agree_crypt _ ss) in Hagree. rewrite crypt_twice in Hagree.
    rewrite (verify_update idx _ _ _ _ _ _ Hr Hh Hagree) by lia.
    eexists _, _. split_and!; [reflexivity|done|]. intros a Hs ->. split; [done|]. right. split; [done|].
    eexists _, _. split; [reflexivity|]. split; [reflexivity|]. eapply shift_left_agree; [done|lia|done].
  - assert (exists failed', checked failed (crypt_failure_packet ss x) ss route_hop idx attributable =
              (crypt_failure_packet ss x, [], failed')) as (failed' & ->).
    { unfold checked, check_attribution. destruct failed as [s|]; [by eexists|].
      destruct (error_attribution (crypt_failure_packet ss x)); [|eexists; reflexivity].
      rewrite (proj2 (Nat.ltb_ge _ _)) by done. eexists; reflexivity. }
    eexists _, _. split_and!; [reflexivity|done|]. intros a _ _. split; [done|]. left. lia.
Qed.

(** The hop to blame when [route_hop] fails with [rest] behind it. *)
Definition last_hop (num_blinded_hops : nat) {A} (rest : list A) : bool :=
  bool_decide (length rest = 0%nat) && (num_blinded_hops <=? 1)%nat.
Definition hop_behind (num_blinded_hops : nat) (route_hop : ErrorHop) (rest : list (option ErrorHop * bytes)) : option ErrorHop :=
  if last_hop num_blinded_hops rest then Some route_hop
  else match rest with (Some hop, _) :: _ => Some hop | _ => None end.

Lemma process_failure_step nb attributable kem_secrets idx route_hop ss rest failing x failed times is_final :
  hop_behind nb route_hop rest = Some failing ->
  process_failure_hops nb attributable kem_secrets idx ((Some route_hop, ss) :: rest) x failed times is_final =
  let ss := fold_hop_secret kem_secrets idx ss in
  let '(x, hold_time, failed) := checked failed (crypt_failure_packet ss x) ss route_hop idx attributable in
  if own_hmac ss (error_data x)
  then read_failure route_hop failing (last_hop nb rest) (error_data x) (times ++ hold_time)
  else process_failure_hops nb attributable kem_secrets (S idx) rest x failed (times ++ hold_time) (last_hop nb rest).
Proof. unfold hop_behind, last_hop, checked, own_hmac. intros H. cbn [process_failure_hops]. by rewrite H. Qed.

Definition relaying (relays : list (ErrorHop * bytes)) : list (option ErrorHop * bytes) := map (fun '(hop, ss) => (Some hop, ss)) relays.

Lemma failure_found nb attributable kem_secrets origin origin_ss rest failing reason data :
  (attributable <= MAX_HOPS)%nat -> data_fits data -> fits 16 (failure_code reason) ->
  hop_behind nb origin rest = Some failing ->
  forall relays hold_times idx x failed times is_final, length hold_times = length relays -> Forall (fits 32) hold_times ->
  let path := zip (map snd relays) hold_times in
  unmatched kem_secrets idx path origin_ss reason data = true ->
  holds attributable idx x failed (returned_failure kem_secrets idx path origin_ss reason data) ->
  process_failure_hops nb attributable kem_secrets idx (relaying relays ++ (Some origin, origin_ss) :: rest) x failed times is_final =
  attributed origin failing (last_hop nb rest) reason data (times ++ take (attributable - idx) (hold_times ++ [0])).
Proof.
  intros Hatt Hd Hc Hbehind. induction relays as [|[hop ss] relays IH]; intros hts idx x failed times is_final Hlen Hfit path Hun Hx.
  - destruct hts; [|done]. cbn [relaying map app]. rewrite (process_failure_step _ _ _ _ _ _ _ _ _ _ _ _ Hbehind). cbv zeta.
    set (ss := fold_hop_secret _ _ _).
    destruct (hop_step attributable idx ss origin x failed (origin_data ss reason data) 0 attribution_new Hatt
                ltac:(unfold fits; lia) attribution_new_sized Hx) as (x' & failed' & -> & Hx' & _).
    rewrite Hx'. unfold own_hmac, origin_data. rewrite drop_app_length', take_app_length' by (by rewrite hmac_length).
    rewrite bool_decide_eq_true_2 by done. fold (origin_data ss reason data). rewrite origin_failure_read by done.
    do 2 f_equal. destruct (Nat.ltb_spec idx attributable) as [Hi|Hi].
    + replace (attributable - idx)%nat with (S (attributable - S idx)) by lia. cbn. by rewrite take_nil.
    + by replace (attributable - idx)%nat with 0%nat by lia.
  - destruct hts as [|h hts]; [done|]. apply Forall_cons in Hfit as [Hh Hfit]. injection Hlen as Hlen.
    cbn [map snd zip zip_with] in path. subst path. fold (zip (map snd relays) hts) in Hun, Hx. set (path := zip (map snd relays) hts) in *.
    cbn [unmatched returned_failure] in Hun, Hx. apply andb_true_iff in Hun as [Hmac Hun]. apply negb_true_iff in Hmac.
    set (ss' := fold_hop_secret kem_secrets idx ss) in *.
    destruct (returned_well kem_secrets origin_ss reason data path Hd (S idx)) as (a & Hs & Hr & Hl).
    set (p := returned_failure kem_secrets (S idx) path origin_ss reason data) in *.
    assert (Hnext : exists next, hop_behind nb hop (relaying relays ++ (Some origin, origin_ss) :: rest) = Some next /\
                    last_hop nb (relaying relays ++ (Some origin, origin_ss) :: rest) = false).
    { unfold hop_behind. destruct relays as [|[hop' ss''] relays]; eexists; split; reflexivity. }
    destruct Hnext as (next & Hnext & Hlast). change (relaying ((hop, ss) :: relays)) with ((Some hop, ss) :: relaying relays).
    rewrite <- app_comm_cons. rewrite (process_failure_step _ _ _ _ _ _ _ _ _ _ _ _ Hnext). cbv zeta. fold ss'.
    cbn [set_hold_time get_encrypted_failure_packet default] in Hx. rewrite Hr, relay_packet in Hx by (done || lia).
    destruct (hop_step attributable idx ss' hop x failed _ h _ Hatt Hh (shift_right_sized a Hs) Hx)
      as (x' & failed' & -> & Hx' & Hholds).
    rewrite Hx', Hmac, Hlast. specialize (Hholds a Hs eq_refl). rewrite <- Hr in Hholds.
    rewrite (IH hts (S idx) x' failed' _ _ Hlen Hfit Hun Hholds). rewrite <- app_assoc. do 2 f_equal.
    destruct (Nat.ltb_spec idx attributable) as [Hi|Hi].
    + by replace (attributable - idx)%nat with (S (attributable - S idx)) by lia.
    + by replace (attributable - idx)%nat with 0%nat by lia; replace (attributable - S idx)%nat with 0%nat by lia.
Qed.

(** C23: a failure names its origin: if the hop [origin] of a path fails an HTLC with
    [reason] and [data], and every hop before it relays the failure with its hold
    time, then the sender recovers the code and the data, draws its conclusions about
    [origin] or the channel behind it, and reads the hold times of the hops before it
    and the zero of the origin, of the first twenty; for classical and post-quantum
    payments, with and without a blinded tail or trampoline hops. *)
Theorem failure_origin_found path session_priv kem_secrets relays origin origin_ss rest failing reason data hold_times :
  error_hops path session_priv = Return (relaying relays ++ (Some origin, origin_ss) :: rest) ->
  let nb := match blinded_tail path with Some tail => length (tail_hops tail) | None => 0%nat end in
  hop_behind nb origin rest = Some failing ->
  length hold_times = length relays -> Forall (fits 32) hold_times -> data_fits data -> fits 16 (failure_code reason) ->
  let returning := zip (map snd relays) hold_times in
  unmatched kem_secrets 0 returning origin_ss reason data = true ->
  process_onion_failure (OutboundRoute path session_priv kem_secrets)
    (returned_failure kem_secrets 0 returning origin_ss reason data) =
  Return (attributed origin failing (last_hop nb rest) reason data
            (take (Nat.min (length (path_hops path)) MAX_HOPS) (hold_times ++ [0]))).
Proof.
  intros Hhops nb Hbehind Hlen Hfit Hd Hc returning Hun.
  destruct (returned_well kem_secrets origin_ss reason data returning Hd 0) as (a & Hs & Hr & Hl).
  unfold process_onion_failure, process_onion_failure_inner. rewrite Hhops, (proj2 (Nat.ltb_ge _ _)) by apply Hl.
  cbn [mbind Prelude.run_bind mret run_ret]. fold nb. f_equal.
  rewrite (failure_found nb _ kem_secrets origin origin_ss rest failing reason data) with (hold_times := hold_times); try done.
  - rewrite Nat.sub_0_r. unfold attributed. by destruct (failure_learnings _ _ _ _ _).
  - lia.
  - split; [done|]. right. split; [done|]. exists a, a. fold returning. rewrite Hr. split; [reflexivity|]. split; [reflexivity|]. by apply agree_refl.
Qed.

End return_path.
