(* ===== verification/OnionReceive.v ===== *)
(** * Payment onions as the nodes of a path see them

    lightning/src/ln/onion_utils.rs ([Hop], [decode_next_payment_hop]) and
    lightning/src/ln/onion_payment.rs: an [update_add_htlc] is peeled into what its node
    has to do with it.  The message is the one of a channel (ChannelState.v), with
    these onions as its payload. *)

From Stdlib Require Import ZArith Lia Bool.
From stdpp Require Import strings.
From S2P Require Import Prelude.
From S2P Require Import Features.
From S2P Require Import Keys.
From S2P Require Import ChannelState.
From S2P Require Import Ser.
From S2P Require Import Onion.
From S2P Require Import PqKem.
From S2P Require Import Streams.
From S2P Require Import BlindedPath.
From S2P Require Import BlindedFees.
From S2P Require Import OnionPayload.
From S2P Require Import OnionRoute.
From S2P Require Import OnionFailure.

Local Open Scope Z_scope.

(** The rest of what a channel carries: the sources of its own HTLCs. *)
Class Sources := {
  SourceOfHTLC : Type;
  InvoiceOfSource : Type;
  source_invoice : SourceOfHTLC -> option InvoiceOfSource;
  SourcePreviousHop : Type;
  source_previous_hop : SourceOfHTLC -> option SourcePreviousHop;
  SourceId : Type;
  source_id : SourceOfHTLC -> SourceId;
  SourceForwardedHop : Type;
  SourceMessagePath : Type;
  SourceClaimDetails : Type;
}.

Section receive.
Context {bitcoin : Bitcoin} {crypto : OnionCrypto} {kem : Kem} {poly : Poly1305}.
Context {contexts : PaymentContexts} {invoice_requests : InvoiceRequests} {sources : Sources}.

(** ** [Hop] *)

Inductive Hop : Type :=
| HopForward (next_hop_data : InboundOnionForwardPayload) (ss next_hop_hmac new_packet_bytes : bytes)
| HopTrampolineForward (outer_hop_data : InboundTrampolineEntrypointPayload) (outer_ss : bytes)
    (incoming_trampoline_public_key : PublicKey) (trampoline_ss : bytes)
    (next_trampoline_hop_data : InboundTrampolineForwardPayload)
    (next_trampoline_hop_hmac new_trampoline_packet_bytes : bytes)
| HopTrampolineBlindedForward (outer_hop_data : InboundTrampolineEntrypointPayload) (outer_ss : bytes)
    (incoming_trampoline_public_key : PublicKey) (trampoline_ss : bytes)
    (next_trampoline_hop_data : InboundTrampolineBlindedForwardPayload)
    (next_trampoline_hop_hmac new_trampoline_packet_bytes : bytes)
| HopBlindedForward (next_hop_data : InboundOnionBlindedForwardPayload) (ss next_hop_hmac new_packet_bytes : bytes)
| HopDummy (dummy_hop_data : InboundOnionDummyPayload) (ss next_hop_hmac new_packet_bytes : bytes)
| HopReceive (hop_data : InboundOnionReceivePayload) (ss : bytes)
| HopBlindedReceive (hop_data : InboundOnionBlindedReceivePayload) (ss : bytes)
| HopTrampolineReceive (outer_hop_data : InboundTrampolineEntrypointPayload) (outer_ss : bytes)
    (trampoline_hop_data : InboundOnionReceivePayload) (trampoline_ss : bytes)
| HopTrampolineBlindedReceive (outer_hop_data : InboundTrampolineEntrypointPayload) (outer_ss : bytes)
    (trampoline_hop_data : InboundOnionBlindedReceivePayload) (trampoline_ss : bytes).

Definition hop_shared_secret (self : Hop) : bytes :=
  match self with
  | HopForward _ ss _ _ | HopBlindedForward _ ss _ _ | HopDummy _ ss _ _ | HopReceive _ ss | HopBlindedReceive _ ss
  | HopTrampolineForward _ ss _ _ _ _ _ | HopTrampolineBlindedForward _ ss _ _ _ _ _
  | HopTrampolineReceive _ ss _ _ | HopTrampolineBlindedReceive _ ss _ _ => ss
  end.

(** ** [decode_next_payment_hop] *)

(** The secret in the front entry of the ciphertexts of a blinded path. *)
Definition blinded_kem_secret (inbound_pq_blinded_ct : option bytes) (node_signer : NodeSigner)
    : result OnionDecodeErr (option bytes) :=
  match inbound_pq_blinded_ct with
  | Some list =>
      if (PQ_KEM_CT_LEN <=? length list)%nat then
        match pq_kem_decapsulate node_signer (take PQ_KEM_CT_LEN list) with
        | Some kem_ss => Ok (Some kem_ss)
        | None => Err (Malformed InvalidOnionBlinding)
        end
      else Err (Malformed InvalidOnionBlinding)
  | None => Ok None
  end.

Definition run_ok {E A} (r : result E A) : run A := match r with Ok a => mret a | Err _ => Panic end.

(** The factor from the key of the node to its key on the blinded path. *)
Definition blinded_node_id_tweak (recipient : Recipient) (blinding_point : option PublicKey)
    (pq_blinded_kem_ss : option bytes) (node_signer : NodeSigner) : run (option Scalar) :=
  match blinding_point with
  | None => mret None
  | Some bp =>
      blinded_tlvs_ss ← run_ok (ecdh node_signer recipient bp None);
      t ← unwrap (scalar_from_be_bytes (blinded_node_id_factor (fold_kem_secret blinded_tlvs_ss pq_blinded_kem_ss)));
      mret (Some t)
  end.

(** A layer of the trail: the hybrid secret, the trail for the next layer and the
    classical secret. *)
Definition peel_trail (ss : bytes) (trail : option bytes) (node_signer : NodeSigner)
    : result OnionDecodeErr (bytes * option bytes * option bytes) :=
  match trail with
  | None => Ok (ss, None, None)
  | Some trail_bytes =>
      match read_pq_trail trail_bytes with
      | (Err _, _) => Err (Malformed InvalidOnionPayload)
      | (Ok trail, _) =>
          match pq_hop_hybrid_secret ss trail node_signer with
          | None => Err (Malformed InvalidOnionPayload)
          | Some (hybrid, next_trail) => Ok (hybrid, next_trail, Some ss)
          end
      end
  end.

(** A payload that is not for a hop of its kind: blinded hops do not tell why. *)
Definition misplaced (blinding_point : option PublicKey) (ss : bytes) : OnionDecodeErr :=
  if is_some blinding_point then Malformed InvalidOnionBlinding else Relay InvalidOnionPayload ss None.

(** What [decode_next_payment_hop] returns: the hop, the trail for the next one, and
    the classical secrets of the outer and of the trampoline layer. *)
Definition DecodedHop : Type := Hop * option bytes * option bytes * option bytes.

(** The hop of a trampoline onion, from its payload. *)
Definition trampoline_hop_of (hop_data : InboundTrampolineEntrypointPayload) (ss trampoline_ss : bytes)
    (decoded : InboundTrampolinePayload * option (bytes * bytes)) : result OnionDecodeErr Hop :=
  let incoming := trampoline_public_key (te_trampoline_packet hop_data) in
  match decoded with
  | (InTrampForward data, Some (hmac, packet)) =>
      Ok (HopTrampolineForward hop_data ss incoming trampoline_ss data hmac packet)
  | (InTrampBlindedForward data, Some (hmac, packet)) =>
      Ok (HopTrampolineBlindedForward hop_data ss incoming trampoline_ss data hmac packet)
  | (InTrampReceive data, None) => Ok (HopTrampolineReceive hop_data ss data trampoline_ss)
  | (InTrampBlindedReceive data, None) => Ok (HopTrampolineBlindedReceive hop_data ss data trampoline_ss)
  | (InTrampBlindedForward data, None) =>
      Err (if is_some (tb_intro_node_blinding_point data) then Relay InvalidOnionPayload ss (Some trampoline_ss)
           else Malformed InvalidOnionBlinding)
  | (InTrampBlindedReceive data, Some _) =>
      Err (if is_some (br_intro_node_blinding_point data) then Relay InvalidTrampolinePayload ss (Some trampoline_ss)
           else Malformed InvalidOnionBlinding)
  | (InTrampForward _, None) | (InTrampReceive _, Some _) => Err (Relay InvalidTrampolinePayload ss (Some trampoline_ss))
  end.

(** The trampoline onion inside the payload of its entry point. *)
Definition decode_trampoline_hop (recipient : Recipient) (payment_hash : bytes) (pq_blinded_kem_ss : option bytes)
    (node_signer : NodeSigner) (hop_data : InboundTrampolineEntrypointPayload) (ss : bytes) (trail classical : option bytes)
    : run (result OnionDecodeErr DecodedHop) :=
  let packet := te_trampoline_packet hop_data in
  let path_key := te_current_path_key hop_data in
  tweak ← blinded_node_id_tweak recipient path_key pq_blinded_kem_ss node_signer;
  trampoline_ss ← run_ok (ecdh node_signer recipient (trampoline_public_key packet) tweak);
  match (if is_some path_key then Ok (trampoline_ss, trail, None) else peel_trail trampoline_ss trail node_signer) with
  | Err e => mret (Err e)
  | Ok (trampoline_ss, trail, trampoline_classical) =>
      decoded ← decode_next_hop (trampoline_payload_read path_key pq_blinded_kem_ss node_signer) id trampoline_ss
        (trampoline_hop_data packet) (trampoline_hmac packet) (Some payment_hash);
      mret (match decoded with
            | Err e => Err e
            | Ok decoded =>
                match trampoline_hop_of hop_data ss trampoline_ss decoded with
                | Err e => Err e
                | Ok hop => Ok (hop, trail, classical, trampoline_classical)
                end
            end)
  end.

(** The hop of a payload and of the packet behind it. *)
Definition payment_hop_of (recipient : Recipient) (payment_hash : bytes) (blinding_point : option PublicKey)
    (pq_blinded_kem_ss : option bytes) (node_signer : NodeSigner) (ss : bytes) (trail classical : option bytes)
    (decoded : InboundOnionPayload * option (bytes * bytes)) : run (result OnionDecodeErr DecodedHop) :=
  match decoded with
  | (InForward data, Some (hmac, packet)) => mret (Ok (HopForward data ss hmac packet, trail, classical, None))
  | (InBlindedForward data, Some (hmac, packet)) =>
      mret (Ok (HopBlindedForward data ss hmac packet, None, classical, None))
  | (InDummy data, Some (hmac, packet)) => mret (Ok (HopDummy data ss hmac packet, trail, classical, None))
  | (InReceive data, None) => mret (Ok (HopReceive data ss, trail, classical, None))
  | (InBlindedReceive data, None) => mret (Ok (HopBlindedReceive data ss, None, classical, None))
  | (InTrampolineEntrypoint data, None) =>
      decode_trampoline_hop recipient payment_hash pq_blinded_kem_ss node_signer data ss trail classical
  | _ => mret (Err (misplaced blinding_point ss))
  end.

Definition decode_next_payment_hop (recipient : Recipient) (hop_pubkey : PublicKey) (hop_data hmac_bytes payment_hash : bytes)
    (blinding_point : option PublicKey) (inbound_pq_onion_trail inbound_pq_blinded_ct : option bytes)
    (node_signer : NodeSigner) : run (result OnionDecodeErr DecodedHop) :=
  match blinded_kem_secret inbound_pq_blinded_ct node_signer with
  | Err e => mret (Err e)
  | Ok pq_blinded_kem_ss =>
      tweak ← blinded_node_id_tweak recipient blinding_point pq_blinded_kem_ss node_signer;
      ss ← run_ok (ecdh node_signer recipient hop_pubkey tweak);
      match peel_trail ss inbound_pq_onion_trail node_signer with
      | Err e => mret (Err e)
      | Ok (ss, trail, classical) =>
          decoded ← decode_next_hop (onion_payload_read blinding_point pq_blinded_kem_ss node_signer)
            (fun _ => ONION_DATA_LEN) ss hop_data hmac_bytes (Some payment_hash);
          match decoded with
          | Err e => mret (Err e)
          | Ok decoded =>
              payment_hop_of recipient payment_hash blinding_point pq_blinded_kem_ss node_signer ss trail classical decoded
          end
      end
  end.

(** ** [PendingHTLCInfo] (lightning/src/ln/channelmanager.rs) *)

Inductive BlindedFailure := FromIntroductionNode | FromBlindedNode.
Record BlindedForward : Type := mkBlindedForward {
  inbound_blinding_point : PublicKey;
  blinded_failure : BlindedFailure;
  blinded_next_override : option PublicKey;
}.

Inductive PendingHTLCRouting : Type :=
| RoutingForward (onion_packet : OnionRoute.OnionPacket) (short_channel_id : Z) (blinded : option BlindedForward)
    (incoming_cltv_expiry : option Z) (hold_htlc : option unit)
    (pq_onion_trail pq_blinded_next_ct pq_blinded_cur_ct : option bytes)
| RoutingTrampolineForward (trampoline_ss : bytes) (onion_packet : TrampolineOnionPacket) (node_id : PublicKey)
    (blinded : option BlindedForward) (incoming_cltv_expiry : Z) (incoming_multipath_data : option FinalOnionHopData)
    (next_trampoline_amt_msat next_trampoline_cltv_expiry : Z)
| RoutingReceive (payment_data : FinalOnionHopData) (payment_metadata : option bytes)
    (payment_context : option PaymentContext) (incoming_cltv_expiry : Z) (phantom_ss trampoline_ss : option bytes)
    (custom_tlvs : list (Z * bytes)) (requires_blinded_error : bool)
| RoutingReceiveKeysend (payment_data : option FinalOnionHopData) (payment_preimage : bytes)
    (payment_metadata : option bytes) (incoming_cltv_expiry : Z) (custom_tlvs : list (Z * bytes))
    (requires_blinded_error has_recipient_created_payment_secret : bool) (invoice_request : option InvoiceRequest)
    (payment_context : option PaymentContext).

Record PendingHTLCInfo : Type := mkPendingHTLCInfo {
  routing : PendingHTLCRouting;
  incoming_shared_secret : bytes;
  pending_payment_hash : bytes;
  incoming_amt_msat : option Z;
  outgoing_amt_msat : Z;
  outgoing_cltv_value : Z;
  pending_skimmed_fee_msat : option Z;
  incoming_accountable : bool;
}.

(** The payloads of a channel, with these onions. *)
Definition onion_payloads : Payloads := {|
  ChannelState.OnionPacket := OnionRoute.OnionPacket;
  HTLCSource := SourceOfHTLC;
  StaticInvoice := InvoiceOfSource;
  static_invoice := source_invoice;
  HTLCPreviousHopData := SourcePreviousHop;
  previous_hop_data := source_previous_hop;
  SentHTLCId := SourceId;
  sent_htlc_id := source_id;
  ChannelState.OnionErrorPacket := OnionFailure.OnionErrorPacket;
  ChannelState.AttributionData := OnionFailure.AttributionData;
  ChannelState.HTLCFailReason := OnionFailure.HTLCFailReason;
  ChannelState.set_hold_time := OnionFailure.set_hold_time;
  ChannelState.PendingHTLCInfo := PendingHTLCInfo;
  ForwardedHop := SourceForwardedHop;
  BlindedMessagePath := SourceMessagePath;
  PaymentClaimDetails := SourceClaimDetails;
|}.
#[local] Existing Instance onion_payloads.

(** ** Checks on what arrives (onion_payment.rs) *)

Record InboundHTLCErr : Type := mkInboundHTLCErr {
  inbound_reason : LocalHTLCFailureReason;
  inbound_err_data : bytes;
}.

Definition invalid_payment_err_data (amt_msat current_height : Z) : bytes := to_be 8 amt_msat ++ to_be 4 current_height.

Definition check_trampoline_payment_constraints (outer_hop_data : InboundTrampolineEntrypointPayload)
    (trampoline_cltv_value trampoline_amount : Z) : result InboundHTLCErr unit :=
  if te_outgoing_cltv_value outer_hop_data <? trampoline_cltv_value then
    Err (mkInboundHTLCErr FinalIncorrectCLTVExpiry (to_be 4 (te_outgoing_cltv_value outer_hop_data)))
  else
    let outgoing_amount :=
      match te_multipath_trampoline_data outer_hop_data with
      | Some mtd => total_msat mtd
      | None => te_amt_to_forward outer_hop_data
      end in
    if outgoing_amount <? trampoline_amount then
      Err (mkInboundHTLCErr FinalIncorrectHTLCAmount (to_be 8 outgoing_amount))
    else Ok tt.

Definition MIN_CLTV_EXPIRY_DELTA : Z := 6 * 8.
Definition CLTV_FAR_FAR_AWAY : Z := 14 * 24 * 6.
Definition MAX_BLOCKS_FOR_CONF : Z := 18.
Definition CLTV_CLAIM_BUFFER : Z := MAX_BLOCKS_FOR_CONF * 2.
Definition LATENCY_GRACE_PERIOD_BLOCKS : Z := 3.
Definition HTLC_FAIL_BACK_BUFFER : Z := CLTV_CLAIM_BUFFER + LATENCY_GRACE_PERIOD_BLOCKS.

Definition check_incoming_htlc_cltv (cur_height outgoing_cltv_value cltv_expiry min_cltv_expiry_delta : Z)
    : result LocalHTLCFailureReason unit :=
  if cltv_expiry <? outgoing_cltv_value + min_cltv_expiry_delta then Err IncorrectCLTVExpiry
  else if cltv_expiry <=? wrapping 32 (cur_height + HTLC_FAIL_BACK_BUFFER) then Err CLTVExpiryTooSoon
  else if wrapping 32 (cur_height + CLTV_FAR_FAR_AWAY) <? cltv_expiry then Err CLTVExpiryTooFar
  else if outgoing_cltv_value <=? wrapping 32 (cur_height + LATENCY_GRACE_PERIOD_BLOCKS) then Err OutgoingCLTVTooSoon
  else Ok tt.

Definition rotate_blinded_ct_list (list : option bytes) (is_blinded_forward : bool) : option bytes :=
  match list with
  | None => None
  | Some list =>
      if negb is_blinded_forward || (length list <=? PQ_KEM_CT_LEN)%nat then Some list
      else Some (drop PQ_KEM_CT_LEN list ++ take PQ_KEM_CT_LEN list)
  end.

(** ** Forwarding *)

(** The error behind which a blinded hop hides. *)
Definition blinded_err : InboundHTLCErr := mkInboundHTLCErr InvalidOnionBlinding (replicate 32 0).
Definition payload_err : InboundHTLCErr := mkInboundHTLCErr InvalidOnionPayload [].

Definition blinded_forward (intro_node_blinding_point other next_blinding_override : option PublicKey) : option BlindedForward :=
  (fun bp => mkBlindedForward bp (if is_some intro_node_blinding_point then FromIntroductionNode else FromBlindedNode)
               next_blinding_override) <$> or_else intro_node_blinding_point other.

Definition direct_routing (msg : UpdateAddHTLC) (short_channel_id : Z) (new_packet_bytes next_hop_hmac : bytes)
    (intro_node_blinding_point next_blinding_override : option PublicKey)
    (next_packet_pubkey_opt : option (result unit PublicKey)) (next_pq_onion_trail : option bytes) : PendingHTLCRouting :=
  let extras := add_extras msg in
  let packet := mkOnionPacket 0 (default (Err tt) next_packet_pubkey_opt) new_packet_bytes next_hop_hmac in
  let is_blinded_forward := is_some (or_else intro_node_blinding_point (blinding_point extras)) in
  RoutingForward packet short_channel_id
    (blinded_forward intro_node_blinding_point (blinding_point extras) next_blinding_override)
    (Some (add_cltv_expiry msg)) (hold_htlc extras) next_pq_onion_trail
    (rotate_blinded_ct_list (pq_blinded_ct extras) is_blinded_forward) (pq_blinded_ct extras).

Definition trampoline_routing (msg : UpdateAddHTLC) (next_trampoline : PublicKey) (new_packet_bytes next_hop_hmac ss : bytes)
    (current_path_key intro_node_blinding_point next_blinding_override : option PublicKey)
    (incoming_multipath_data : option FinalOnionHopData) (next_amt_msat next_cltv : Z)
    (next_packet_pubkey_opt : option (result unit PublicKey)) : result InboundHTLCErr PendingHTLCRouting :=
  match next_packet_pubkey_opt with
  | Some (Ok pubkey) =>
      Ok (RoutingTrampolineForward ss (mkTrampolineOnionPacket 0 pubkey new_packet_bytes next_hop_hmac) next_trampoline
            (blinded_forward intro_node_blinding_point current_path_key next_blinding_override) (add_cltv_expiry msg)
            incoming_multipath_data next_amt_msat next_cltv)
  | _ => Err (mkInboundHTLCErr InvalidTrampolinePayload [])
  end.

Definition create_fwd_pending_htlc_info (msg : UpdateAddHTLC) (hop_data : Hop) (ss : bytes)
    (next_packet_pubkey_opt : option (result unit PublicKey)) (next_pq_onion_trail : option bytes)
    : result InboundHTLCErr PendingHTLCInfo :=
  let hide {A} (r : result unit A) : result InboundHTLCErr A := match r with Ok a => Ok a | Err _ => Err blinded_err end in
  let direct scid packet hmac intro next_override :=
    direct_routing msg scid packet hmac intro next_override next_packet_pubkey_opt next_pq_onion_trail in
  '(routing, amt_to_forward, outgoing_cltv_value) ←
    match hop_data with
    | HopForward d _ hmac packet =>
        Ok (direct (if_short_channel_id d) packet hmac None None, if_amt_to_forward d, if_outgoing_cltv_value d)
    | HopBlindedForward d _ hmac packet =>
        '(amt, cltv) ← hide (check_blinded_forward (add_amount_msat msg) (add_cltv_expiry msg) (bf_payment_relay d)
                               (bf_payment_constraints d) (bf_features d));
        Ok (direct (bf_short_channel_id d) packet hmac (bf_intro_node_blinding_point d) (bf_next_blinding_override d), amt, cltv)
    | HopDummy _ _ _ _ | HopReceive _ _ | HopBlindedReceive _ _ | HopTrampolineReceive _ _ _ _
    | HopTrampolineBlindedReceive _ _ _ _ => Err payload_err
    | HopTrampolineForward outer _ _ trampoline_ss d hmac packet =>
        routing ← trampoline_routing msg (tf_next_trampoline d) packet hmac trampoline_ss None None None
          (te_multipath_trampoline_data outer) (tf_amt_to_forward d) (tf_outgoing_cltv_value d) next_packet_pubkey_opt;
        Ok (routing, te_amt_to_forward outer, te_outgoing_cltv_value outer)
    | HopTrampolineBlindedForward outer _ _ trampoline_ss d hmac packet =>
        let amount := match te_multipath_trampoline_data outer with
                      | Some f => total_msat f | None => add_amount_msat msg end in
        '(next_amt, next_cltv) ← hide (check_blinded_forward amount (add_cltv_expiry msg) (tb_payment_relay d)
                                         (tb_payment_constraints d) (tb_features d));
        routing ← trampoline_routing msg (tb_next_trampoline d) packet hmac trampoline_ss (te_current_path_key outer)
          (tb_intro_node_blinding_point d) (tb_next_blinding_override d) (te_multipath_trampoline_data outer)
          next_amt next_cltv next_packet_pubkey_opt;
        Ok (routing, te_amt_to_forward outer, te_outgoing_cltv_value outer)
    end;
  Ok (mkPendingHTLCInfo routing ss (add_payment_hash msg) (Some (add_amount_msat msg)) amt_to_forward outgoing_cltv_value
        None (accountable (add_extras msg))).

(** ** Receiving *)

(** What the final checks use of a payload. *)
Record ReceiveFields : Type := mkReceiveFields {
  rf_payment_data : option FinalOnionHopData;
  rf_keysend_preimage : option bytes;
  rf_custom_tlvs : list (Z * bytes);
  rf_amt_msat : Z;
  rf_cltv_expiry : Z;
  rf_payment_metadata : option bytes;
  rf_payment_context : option PaymentContext;
  rf_requires_blinded_error : bool;
  rf_has_recipient_created_payment_secret : bool;
  rf_invoice_request : option InvoiceRequest;
  rf_trampoline_ss : option bytes;
}.

Definition plain_fields (d : InboundOnionReceivePayload) (trampoline_ss : option bytes) : ReceiveFields :=
  mkReceiveFields (ir_payment_data d) (ir_keysend_preimage d) (ir_custom_tlvs d) (ir_sender_intended_htlc_amt_msat d)
    (ir_cltv_expiry_height d) (ir_payment_metadata d) None false (negb (is_some (ir_keysend_preimage d))) None trampoline_ss.
Definition blinded_fields (d : InboundOnionBlindedReceivePayload) (trampoline_ss : option bytes) : ReceiveFields :=
  mkReceiveFields (Some (mkFinalOnionHopData (br_payment_secret d) (br_total_msat d))) (br_keysend_preimage d)
    (br_custom_tlvs d) (br_sender_intended_htlc_amt_msat d) (br_cltv_expiry_height d) None (Some (br_payment_context d))
    (negb (is_some (br_intro_node_blinding_point d))) true (br_invoice_request d) trampoline_ss.

Definition receive_fields (hop_data : Hop) (cltv_expiry : Z) : result InboundHTLCErr ReceiveFields :=
  let hide {A E} (r : result E A) : result InboundHTLCErr A := match r with Ok a => Ok a | Err _ => Err blinded_err end in
  match hop_data with
  | HopReceive d _ => Ok (plain_fields d None)
  | HopBlindedReceive d _ =>
      _ ← hide (check_blinded_payment_constraints (br_sender_intended_htlc_amt_msat d) cltv_expiry (br_payment_constraints d));
      Ok (blinded_fields d None)
  | HopTrampolineReceive outer _ d trampoline_ss =>
      _ ← check_trampoline_payment_constraints outer (ir_cltv_expiry_height d) (ir_sender_intended_htlc_amt_msat d);
      Ok (plain_fields d (Some trampoline_ss))
  | HopTrampolineBlindedReceive outer _ d trampoline_ss =>
      _ ← hide (check_blinded_payment_constraints (br_sender_intended_htlc_amt_msat d) cltv_expiry (br_payment_constraints d));
      _ ← hide (check_trampoline_payment_constraints outer (br_cltv_expiry_height d) (br_sender_intended_htlc_amt_msat d));
      Ok (blinded_fields d (Some trampoline_ss))
  | HopForward _ _ _ _ | HopTrampolineForward _ _ _ _ _ _ _ | HopTrampolineBlindedForward _ _ _ _ _ _ _ => Err payload_err
  | HopBlindedForward _ _ _ _ | HopDummy _ _ _ _ => Err blinded_err
  end.

(** How a payment with these fields is received. *)
Definition receive_routing (f : ReceiveFields) (payment_hash : bytes) (amt_msat cltv_expiry : Z) (phantom_ss : option bytes)
    (current_height : Z) : result InboundHTLCErr PendingHTLCRouting :=
  match rf_keysend_preimage f, rf_payment_data f with
  | Some payment_preimage, payment_data =>
      if bool_decide (sha256 payment_preimage = payment_hash) then
        Ok (RoutingReceiveKeysend payment_data payment_preimage (rf_payment_metadata f) cltv_expiry (rf_custom_tlvs f)
              (rf_requires_blinded_error f) (rf_has_recipient_created_payment_secret f) (rf_invoice_request f)
              (rf_payment_context f))
      else Err (mkInboundHTLCErr InvalidKeysendPreimage (invalid_payment_err_data amt_msat current_height))
  | None, Some data =>
      Ok (RoutingReceive data (rf_payment_metadata f) (rf_payment_context f) cltv_expiry phantom_ss (rf_trampoline_ss f)
            (rf_custom_tlvs f) (rf_requires_blinded_error f))
  | None, None => Err (mkInboundHTLCErr PaymentSecretRequired [])
  end.

Definition create_recv_pending_htlc_info (hop_data : Hop) (ss payment_hash : bytes) (amt_msat cltv_expiry : Z)
    (phantom_ss : option bytes) (allow_underpay : bool) (counterparty_skimmed_fee_msat : option Z)
    (accountable : bool) (current_height : Z) : result InboundHTLCErr PendingHTLCInfo :=
  f ← receive_fields hop_data cltv_expiry;
  if cltv_expiry <? rf_cltv_expiry f then Err (mkInboundHTLCErr FinalIncorrectCLTVExpiry (to_be 4 cltv_expiry))
  else if cltv_expiry <=? wrapping 32 (current_height + HTLC_FAIL_BACK_BUFFER + 1) then
    Err (mkInboundHTLCErr PaymentClaimBuffer (invalid_payment_err_data amt_msat current_height))
  else if (if allow_underpay then saturating_add 64 amt_msat (default 0 counterparty_skimmed_fee_msat) else amt_msat)
          <? rf_amt_msat f then Err (mkInboundHTLCErr FinalIncorrectHTLCAmount (to_be 8 amt_msat))
  else
    routing ← receive_routing f payment_hash amt_msat cltv_expiry phantom_ss current_height;
    Ok (mkPendingHTLCInfo routing ss payment_hash (Some amt_msat) (rf_amt_msat f) (rf_cltv_expiry f)
          counterparty_skimmed_fee_msat accountable).

(** ** [decode_incoming_update_add_htlc_onion] *)

Inductive HopConnector : Type :=
| ConnectShortChannelId (short_channel_id : Z)
| ConnectDummy
| ConnectTrampoline (node_id : PublicKey).
Record NextPacketDetails : Type := mkNextPacketDetails {
  next_packet_pubkey : result unit PublicKey;
  outgoing_connector : HopConnector;
  details_outgoing_amt_msat : Z;
  details_outgoing_cltv_value : Z;
}.

Definition IncomingErr : Type := HTLCFailureMsg * LocalHTLCFailureReason.

Definition encode_malformed_error (msg : UpdateAddHTLC) (failure_reason : LocalHTLCFailureReason) : IncomingErr :=
  let '(sha256_of_onion, failure_reason) :=
    if is_some (blinding_point (add_extras msg)) || bool_decide (failure_reason = InvalidOnionBlinding)
    then (replicate 32 0, InvalidOnionBlinding)
    else (sha256 (packet_hop_data (add_onion_routing_packet msg)), failure_reason) in
  (ChannelState.Malformed (mkUpdateFailMalformed (add_htlc_id msg) sha256_of_onion (failure_code failure_reason)),
   failure_reason).

Definition encode_relay_error (msg : UpdateAddHTLC) (reason : LocalHTLCFailureReason) (ss : bytes)
    (trampoline_ss : option bytes) (data : bytes) : IncomingErr :=
  if is_some (blinding_point (add_extras msg)) then encode_malformed_error msg InvalidOnionBlinding
  else (ChannelState.Relay (mkUpdateFail (add_htlc_id msg) (get_encrypted_failure_packet (Reason reason data) ss trampoline_ss)),
        reason).

(** [secp256k1::Error] carries no information here. *)
Definition advance_key (key : PublicKey) (ss : bytes) : run (result unit PublicKey) :=
  next ← next_hop_pubkey key ss;
  mret (match next with Some key => Ok key | None => Err tt end).

(** The next packet of each kind of forward; [None] if there is none. *)
Definition next_packet_details (msg : UpdateAddHTLC) (public_key : PublicKey) (hop : Hop)
    (pq_classical_ss pq_trampoline_classical_ss : option bytes) : run (result IncomingErr (option NextPacketDetails)) :=
  let checked {A} (r : result unit A) (ss : bytes) (f : A -> run NextPacketDetails) :=
    match r with
    | Ok a => details ← f a; mret (Ok (Some details))
    | Err _ => mret (Err (encode_relay_error msg InvalidOnionBlinding ss None (replicate 32 0)))
    end in
  let details key ss connector '(amt, cltv) :=
    next ← advance_key key ss; mret (mkNextPacketDetails next connector amt cltv) in
  match hop with
  | HopForward d ss _ _ =>
      checked (Ok (if_amt_to_forward d, if_outgoing_cltv_value d)) ss
        (details public_key (default ss pq_classical_ss) (ConnectShortChannelId (if_short_channel_id d)))
  | HopBlindedForward d ss _ _ =>
      checked (check_blinded_forward (add_amount_msat msg) (add_cltv_expiry msg) (bf_payment_relay d)
                 (bf_payment_constraints d) (bf_features d)) ss
        (details public_key (default ss pq_classical_ss) (ConnectShortChannelId (bf_short_channel_id d)))
  | HopDummy d ss _ _ =>
      checked (check_blinded_forward (add_amount_msat msg) (add_cltv_expiry msg) (du_payment_relay d)
                 (du_payment_constraints d) features_empty) ss
        (details public_key ss ConnectDummy)
  | HopTrampolineForward outer _ incoming trampoline_ss d _ _ =>
      checked (Ok (te_amt_to_forward outer, te_outgoing_cltv_value outer)) trampoline_ss
        (details incoming (default trampoline_ss pq_trampoline_classical_ss) (ConnectTrampoline (tf_next_trampoline d)))
  | HopTrampolineBlindedForward outer _ incoming trampoline_ss d _ _ =>
      checked (Ok (te_amt_to_forward outer, te_outgoing_cltv_value outer)) trampoline_ss
        (details incoming (default trampoline_ss pq_trampoline_classical_ss) (ConnectTrampoline (tb_next_trampoline d)))
  | HopReceive _ _ | HopBlindedReceive _ _ | HopTrampolineReceive _ _ _ _ | HopTrampolineBlindedReceive _ _ _ _ =>
      mret (Ok None)
  end.

Definition decode_incoming_update_add_htlc_onion (msg : UpdateAddHTLC) (node_signer : NodeSigner)
    : run (result IncomingErr (Hop * option NextPacketDetails * option bytes)) :=
  let packet := add_onion_routing_packet msg in
  let extras := add_extras msg in
  match packet_public_key packet with
  | Err _ => mret (Err (encode_malformed_error msg InvalidOnionKey))
  | Ok public_key =>
      if negb (packet_version packet =? 0) then mret (Err (encode_malformed_error msg InvalidOnionVersion))
      else
        decoded ← decode_next_payment_hop Node public_key (packet_hop_data packet) (packet_hmac packet)
          (add_payment_hash msg) (blinding_point extras) (pq_onion_trail extras) (pq_blinded_ct extras) node_signer;
        match decoded with
        | Err (Malformed reason) => mret (Err (encode_malformed_error msg reason))
        | Err (Relay reason ss trampoline_ss) => mret (Err (encode_relay_error msg reason ss trampoline_ss []))
        | Ok (next_hop, trail, classical, trampoline_classical) =>
            details ← next_packet_details msg public_key next_hop classical trampoline_classical;
            mret (match details with Err e => Err e | Ok details => Ok (next_hop, details, trail) end)
        end
  end.

(** ** Peeling a message *)

Definition peel_dummy_hop_update_add_htlc (msg : UpdateAddHTLC) (dummy_hop_data : InboundOnionDummyPayload)
    (next_hop_hmac new_packet_bytes : bytes) (details : NextPacketDetails) (node_signer : NodeSigner) : run UpdateAddHTLC :=
  let extras := add_extras msg in
  next_blinding_point ←
    match or_else (du_intro_node_blinding_point dummy_hop_data) (blinding_point extras) with
    | None => mret None
    | Some bp =>
        match ecdh node_signer Node bp None with
        | Err _ => mret None
        | Ok ss => next_hop_pubkey bp ss
        end
    end;
  let packet := mkOnionPacket 0 (next_packet_pubkey details) new_packet_bytes next_hop_hmac in
  mret (mkUpdateAdd (add_htlc_id msg) (details_outgoing_amt_msat details) (add_payment_hash msg)
          (details_outgoing_cltv_value details) packet
          (mkExtras (skimmed_fee_msat extras) next_blinding_point (hold_htlc extras) (accountable extras)
             (pq_onion_trail extras) (pq_blinded_ct extras))).

Definition incoming_err (e : IncomingErr) : InboundHTLCErr :=
  match e with
  | (ChannelState.Malformed _, reason) => mkInboundHTLCErr reason []
  | (ChannelState.Relay r, _) => mkInboundHTLCErr InvalidOnionPayload (error_data (fail_packet r))
  end.

(** The recursion on dummy hops is not bounded by the data; without [fuel] it is the
    overflow of the stack. *)
Fixpoint peel_payment_onion (fuel : nat) (msg : UpdateAddHTLC) (node_signer : NodeSigner) (cur_height : Z)
    (allow_skimmed_fees : bool) : run (result InboundHTLCErr PendingHTLCInfo) :=
  decoded ← decode_incoming_update_add_htlc_onion msg node_signer;
  match decoded with
  | Err e => mret (Err (incoming_err e))
  | Ok (hop, details, trail) =>
      match hop with
      | HopForward _ _ _ _ | HopBlindedForward _ _ _ _ =>
          match details with
          | None => mret (Err payload_err)
          | Some details =>
              match check_incoming_htlc_cltv cur_height (details_outgoing_cltv_value details) (add_cltv_expiry msg)
                      MIN_CLTV_EXPIRY_DELTA with
              | Err reason => mret (Err (mkInboundHTLCErr reason []))
              | Ok _ =>
                  mret (create_fwd_pending_htlc_info msg hop (hop_shared_secret hop) (Some (next_packet_pubkey details)) trail)
              end
          end
      | HopDummy d _ hmac packet =>
          match details, fuel with
          | None, _ => mret (Err payload_err)
          | Some _, O => Panic
          | Some details, S fuel =>
              msg ← peel_dummy_hop_update_add_htlc msg d hmac packet details node_signer;
              peel_payment_onion fuel msg node_signer cur_height allow_skimmed_fees
          end
      | _ =>
          let extras := add_extras msg in
          mret (create_recv_pending_htlc_info hop (hop_shared_secret hop) (add_payment_hash msg) (add_amount_msat msg)
                  (add_cltv_expiry msg) None allow_skimmed_fees (skimmed_fee_msat extras) (accountable extras) cur_height)
      end
  end.

(** ** Sending it on

    [process_forward_htlcs] of lightning/src/ln/channelmanager.rs: what it hands to
    [queue_add_htlc] of the next channel. *)

Definition next_blinding_point (b : BlindedForward) (pq_blinded_cur_ct : option bytes) (node_signer : NodeSigner)
    : run (option PublicKey) :=
  match blinded_next_override b with
  | Some override => mret (Some override)
  | None =>
      ss ← run_ok (ecdh node_signer Node (inbound_blinding_point b) None);
      let kem_ss :=
        match pq_blinded_cur_ct with
        | Some list =>
            if (PQ_KEM_CT_LEN <=? length list)%nat then pq_kem_decapsulate node_signer (take PQ_KEM_CT_LEN list) else None
        | None => None
        end in
      next_hop_pubkey (inbound_blinding_point b) (fold_kem_secret ss kem_ss)
  end.

Definition forward_htlc (htlc_id : Z) (info : PendingHTLCInfo) (node_signer : NodeSigner) : run UpdateAddHTLC :=
  match routing info with
  | RoutingForward onion_packet _ blinded _ _ trail next_ct cur_ct =>
      blinding ← match blinded with Some b => next_blinding_point b cur_ct node_signer | None => mret None end;
      mret (mkUpdateAdd htlc_id (outgoing_amt_msat info) (pending_payment_hash info) (outgoing_cltv_value info) onion_packet
              (mkExtras (pending_skimmed_fee_msat info) blinding None (incoming_accountable info) trail next_ct))
  | _ => Panic
  end.

End receive.
