(* ===== verification/InboundPayment.v ===== *)
(** * Payments to receive (lightning/src/ln/inbound_payment.rs)

    A node keeps no record of the payments it expects.  What it has to check when one
    arrives, the least amount, the expiry and the final expiry delta, is encrypted
    in the payment secret of the invoice, and the payment hash is bound to it: either
    the preimage is an HMAC of the data, or the secret holds an HMAC of the hash. *)

From Stdlib Require Import ZArith Lia Bool.
From stdpp Require Import strings.
From S2P Require Import Prelude.
From S2P Require Import Keys.
From S2P Require Import Ser.
From S2P Require Import Onion.
From S2P Require Import Streams.
From S2P Require Import BlindedPath.
From S2P Require Import OnionPayload.

Local Open Scope Z_scope.

Definition IV_LEN : nat := 16.
Definition INFO_LEN : nat := 16.
Definition AMT_MSAT_LEN : nat := 8.
Definition METHOD_TYPE_OFFSET : Z := 5.

(** Byte [i] of the keystream of [ChaCha20::new_from_block(key, nonce, block)] *)
Class BlockCipher := chacha20_from_block : bytes -> bytes -> Z -> nat -> Z.

Record ExpandedKey : Type := mkExpandedKey {
  info_key : bytes;
  ldk_pmt_hash_key : bytes;
  user_pmt_hash_key : bytes;
  offers_base_key : bytes;
  offers_encryption_key : bytes;
  spontaneous_pmt_key : bytes;
  phantom_node_blinded_path_key : bytes;
  metadata_enc_key : bytes;
}.

(** [Method], with the numbers of its variants *)
Inductive Method := LdkPaymentHash | UserPaymentHash | LdkPaymentHashCustomFinalCltv | UserPaymentHashCustomFinalCltv | SpontaneousPayment.
#[export] Instance Method_eq : EqDecision Method.
Proof. solve_decision. Defined.
Definition method_bits (self : Method) : Z :=
  match self with
  | LdkPaymentHash => 0
  | UserPaymentHash => 1
  | LdkPaymentHashCustomFinalCltv => 2
  | UserPaymentHashCustomFinalCltv => 3
  | SpontaneousPayment => 4
  end.
Definition method_from_bits (bits : Z) : result Z Method :=
  if bits =? method_bits LdkPaymentHash then Ok LdkPaymentHash
  else if bits =? method_bits UserPaymentHash then Ok UserPaymentHash
  else if bits =? method_bits LdkPaymentHashCustomFinalCltv then Ok LdkPaymentHashCustomFinalCltv
  else if bits =? method_bits UserPaymentHashCustomFinalCltv then Ok UserPaymentHashCustomFinalCltv
  else if bits =? method_bits SpontaneousPayment then Ok SpontaneousPayment
  else Err bits.

Section inbound.
Context {bitcoin : Bitcoin} {crypto : OnionCrypto} {cipher : BlockCipher}.

(** ** Keys (lightning/src/crypto/utils.rs)

    The expansion of a key: each block is the HMAC of the one before and its number. *)
Fixpoint hkdf_blocks (prk : bytes) (previous : bytes) (number : Z) (count : nat) : list bytes :=
  match count with
  | O => []
  | S count =>
      let t := hmac_sha256 prk (previous ++ [number]) in
      t :: hkdf_blocks prk t (number + 1) count
  end.
Definition hkdf_extract_expand_8x (salt ikm : bytes) : list bytes := hkdf_blocks (hmac_sha256 salt ikm) [] 1 8.

Definition expanded_key_new (key_material : bytes) : ExpandedKey :=
  let keys := hkdf_extract_expand_8x (tag "LDK Inbound Payment Key Expansion") key_material in
  let key i := nth i keys [] in
  mkExpandedKey (key 0%nat) (key 1%nat) (key 2%nat) (key 3%nat) (key 4%nat) (key 5%nat) (key 6%nat) (key 7%nat).

Definition apply_chacha20 (key nonce data : bytes) : bytes :=
  zip_with Z.lxor data
    (map (chacha20_from_block key (drop 4 nonce) (from_be (reverse (take 4 nonce)))) (seq 0 (length data))).

(** ** The data in a secret *)

Definition calculate_absolute_expiry (highest_seen_timestamp invoice_expiry_delta_secs : Z) : Z :=
  (highest_seen_timestamp + invoice_expiry_delta_secs + 7200)%u64.

(** The first byte, with more bits or with fewer *)
Definition or_first (bits : Z) (l : bytes) : bytes := match l with [] => [] | b :: l => Z.lor b bits :: l end.

Definition and_first (bits : Z) (l : bytes) : bytes := match l with [] => [] | b :: l => Z.land b bits :: l end.

Definition construct_info_bytes (min_value_msat : option Z) (payment_type : Method)
    (invoice_expiry_delta_secs highest_seen_timestamp : Z) (min_final_cltv_expiry_delta : option Z) : result unit bytes :=
  let above bound := match min_value_msat with Some amt => bound <? amt | None => false end in
  if above MAX_VALUE_MSAT then Err tt
  else
    let min_amt_msat_bytes := or_first (Z.shiftl (method_bits payment_type) METHOD_TYPE_OFFSET)
      (match min_value_msat with Some amt => to_be AMT_MSAT_LEN amt | None => replicate AMT_MSAT_LEN 0 end) in
    let expiry_timestamp := calculate_absolute_expiry highest_seen_timestamp invoice_expiry_delta_secs in
    let expiry_bytes := to_be 8 expiry_timestamp in
    if above (Z.shiftl 1 61 - 1) then Err tt
    else match min_final_cltv_expiry_delta with
    | None => Ok (min_amt_msat_bytes ++ expiry_bytes)
    | Some delta =>
        if Z.shiftl 1 48 - 1 <? expiry_timestamp then Err tt
        else Ok (min_amt_msat_bytes ++ zip_with Z.lor (take 2 expiry_bytes) (to_be 2 delta) ++ drop 2 expiry_bytes)
    end.

Definition construct_payment_secret (iv_bytes info_bytes info_key : bytes) : bytes :=
  iv_bytes ++ apply_chacha20 info_key iv_bytes info_bytes.

Definition decrypt_info (payment_secret : bytes) (keys : ExpandedKey) : bytes * bytes :=
  let iv_bytes := take IV_LEN payment_secret in
  (iv_bytes, apply_chacha20 (info_key keys) iv_bytes (drop IV_LEN payment_secret)).

(** What an HMAC covers of the metadata. *)
Definition metadata_input (metadata : option bytes) : bytes :=
  match metadata with Some m => len64 m ++ m | None => [] end.

(** ** Creating a payment to receive

    [entropy] is what [get_secure_random_bytes] returns. *)

Definition payment_create (keys : ExpandedKey) (min_value_msat : option Z) (invoice_expiry_delta_secs : Z) (entropy : bytes)
    (current_time : Z) (min_final_cltv_expiry_delta : option Z) (payment_metadata : option bytes)
    : result unit (bytes * bytes * option bytes) :=
  info_bytes ← construct_info_bytes min_value_msat
    (if is_some min_final_cltv_expiry_delta then LdkPaymentHashCustomFinalCltv else LdkPaymentHash)
    invoice_expiry_delta_secs current_time min_final_cltv_expiry_delta;
  let iv_bytes := take IV_LEN entropy in
  let payment_metadata := apply_chacha20 (metadata_enc_key keys) iv_bytes <$> payment_metadata in
  let preimage := hmac_sha256 (ldk_pmt_hash_key keys) (iv_bytes ++ info_bytes ++ metadata_input payment_metadata) in
  Ok (sha256 preimage, construct_payment_secret iv_bytes info_bytes (info_key keys), payment_metadata).

Definition payment_create_from_hash (keys : ExpandedKey) (min_value_msat : option Z) (payment_hash : bytes)
    (invoice_expiry_delta_secs : Z) (entropy : bytes) (current_time : Z) (min_final_cltv_expiry_delta : option Z)
    (payment_metadata : option bytes) : result unit (bytes * option bytes) :=
  info_bytes ← construct_info_bytes min_value_msat
    (if is_some min_final_cltv_expiry_delta then UserPaymentHashCustomFinalCltv else UserPaymentHash)
    invoice_expiry_delta_secs current_time min_final_cltv_expiry_delta;
  let payment_metadata :=
    (fun metadata => let iv_bytes := take IV_LEN entropy in
                     apply_chacha20 (metadata_enc_key keys) iv_bytes metadata ++ iv_bytes) <$> payment_metadata in
  let hmac := hmac_sha256 (user_pmt_hash_key keys) (info_bytes ++ payment_hash ++ metadata_input payment_metadata) in
  Ok (construct_payment_secret (take IV_LEN hmac) info_bytes (info_key keys), payment_metadata).

Definition create_for_spontaneous_payment (keys : ExpandedKey) (min_value_msat : option Z) (invoice_expiry_delta_secs : Z)
    (current_time : Z) (min_final_cltv_expiry_delta : option Z) : result unit bytes :=
  info_bytes ← construct_info_bytes min_value_msat SpontaneousPayment invoice_expiry_delta_secs current_time
    min_final_cltv_expiry_delta;
  let hmac := hmac_sha256 (spontaneous_pmt_key keys) info_bytes in
  Ok (construct_payment_secret (take IV_LEN hmac) info_bytes (info_key keys)).

(** ** Checking a payment that arrives *)

Definition derive_ldk_payment_preimage (payment_hash iv_bytes info_bytes : bytes) (payment_metadata : option bytes)
    (keys : ExpandedKey) : result bytes bytes :=
  let preimage := hmac_sha256 (ldk_pmt_hash_key keys) (iv_bytes ++ info_bytes ++ metadata_input payment_metadata) in
  if bool_decide (payment_hash = sha256 preimage) then Ok preimage else Err preimage.

Definition info_method (info_bytes : bytes) : result Z Method :=
  method_from_bits (Z.shiftr (Z.land (nth 0 info_bytes 0) 224) METHOD_TYPE_OFFSET).
Definition min_final_cltv_expiry_delta_from_info (info_bytes : bytes) : Z := from_be (take 2 (drop AMT_MSAT_LEN info_bytes)).

(** The HMAC of the secret: the preimage, if we made it, and the metadata in plain. *)
Definition check_payment_hmac (method : Method) (payment_hash iv_bytes info_bytes : bytes) (payment_metadata : option bytes)
    (keys : ExpandedKey) : result unit (option bytes * option bytes) :=
  match method with
  | UserPaymentHash | UserPaymentHashCustomFinalCltv =>
      let hmac := hmac_sha256 (user_pmt_hash_key keys) (info_bytes ++ payment_hash ++ metadata_input payment_metadata) in
      if negb (bool_decide (iv_bytes = take IV_LEN hmac)) then Err tt
      else match payment_metadata with
      | None => Ok (None, None)
      | Some metadata =>
          if (length metadata <? IV_LEN)%nat then Err tt
          else
            let new_len := (length metadata - IV_LEN)%nat in
            Ok (None, Some (apply_chacha20 (metadata_enc_key keys) (drop new_len metadata) (take new_len metadata)))
      end
  | LdkPaymentHash | LdkPaymentHashCustomFinalCltv =>
      match derive_ldk_payment_preimage payment_hash iv_bytes info_bytes payment_metadata keys with
      | Err _ => Err tt
      | Ok preimage => Ok (Some preimage, apply_chacha20 (metadata_enc_key keys) iv_bytes <$> payment_metadata)
      end
  | SpontaneousPayment =>
      if is_some payment_metadata then Err tt
      else if negb (bool_decide (iv_bytes = take IV_LEN (hmac_sha256 (spontaneous_pmt_key keys) info_bytes))) then Err tt
      else Ok (None, None)
  end.

(** [verify]: the preimage, the final expiry delta, and the metadata, which is decrypted
    in place. *)
Definition payment_verify (payment_hash : bytes) (payment_data : FinalOnionHopData) (payment_metadata : option bytes)
    (highest_seen_timestamp : Z) (keys : ExpandedKey) : result unit (option bytes * option Z * option bytes) :=
  let '(iv_bytes, info_bytes) := decrypt_info (payment_secret payment_data) keys in
  let amt_msat_bytes := and_first 31 (take AMT_MSAT_LEN info_bytes) in
  let expiry_bytes := drop AMT_MSAT_LEN info_bytes in
  match info_method info_bytes with
  | Err _ => Err tt
  | Ok method =>
      '(payment_preimage, payment_metadata) ← check_payment_hmac method payment_hash iv_bytes info_bytes payment_metadata keys;
      let '(min_final_cltv_expiry_delta, expiry_bytes) :=
        match method with
        | UserPaymentHashCustomFinalCltv | LdkPaymentHashCustomFinalCltv =>
            (Some (min_final_cltv_expiry_delta_from_info info_bytes), replicate 2 0 ++ drop 2 expiry_bytes)
        | _ => (None, expiry_bytes)
        end in
      if total_msat payment_data <? from_be amt_msat_bytes then Err tt
      else if from_be expiry_bytes <? highest_seen_timestamp then Err tt
      else Ok (payment_preimage, min_final_cltv_expiry_delta, payment_metadata)
  end.

Inductive PreimageError := HashMismatch (preimage : bytes) | NotOurPreimage | SpontaneousPreimage | UnknownPaymentType (bits : Z).
Definition get_payment_preimage (payment_hash payment_secret : bytes) (payment_metadata : option bytes) (keys : ExpandedKey)
    : result PreimageError (bytes * option bytes) :=
  let '(iv_bytes, info_bytes) := decrypt_info payment_secret keys in
  match info_method info_bytes with
  | Ok (LdkPaymentHash | LdkPaymentHashCustomFinalCltv) =>
      match derive_ldk_payment_preimage payment_hash iv_bytes info_bytes payment_metadata keys with
      | Err preimage => Err (HashMismatch preimage)
      | Ok preimage => Ok (preimage, apply_chacha20 (metadata_enc_key keys) iv_bytes <$> payment_metadata)
      end
  | Ok (UserPaymentHash | UserPaymentHashCustomFinalCltv) => Err NotOurPreimage
  | Ok SpontaneousPayment => Err SpontaneousPreimage
  | Err bits => Err (UnknownPaymentType bits)
  end.

(** ** The cipher and the data *)

Lemma apply_chacha20_length key nonce data : length (apply_chacha20 key nonce data) = length data.
Proof. unfold apply_chacha20. rewrite length_zip_with, length_map, length_seq. lia. Qed.

Lemma apply_chacha20_twice key nonce data : apply_chacha20 key nonce (apply_chacha20 key nonce data) = data.
Proof.
  unfold apply_chacha20 at 1. rewrite apply_chacha20_length. unfold apply_chacha20.
  generalize (chacha20_from_block key (drop 4 nonce) (from_be (reverse (take 4 nonce)))). intros f.
  generalize 0%nat. induction data as [|b data IH]; intros i; [done|]. cbn [length seq map zip_with].
  rewrite Z.lxor_assoc, Z.lxor_nilpotent, Z.lxor_0_r. f_equal. apply IH.
Qed.

Lemma decrypt_constructed iv info keys : length iv = IV_LEN ->
  decrypt_info (construct_payment_secret iv info (info_key keys)) keys = (iv, info).
Proof.
  intros Hiv. unfold decrypt_info, construct_payment_secret. rewrite take_app_length', drop_app_length' by done.
  by rewrite apply_chacha20_twice.
Qed.

(** The amount and the method share eight bytes. *)
Definition amount_bytes (m : Method) (amt : Z) : bytes := or_first (Z.shiftl (method_bits m) METHOD_TYPE_OFFSET) (to_be AMT_MSAT_LEN amt).

Lemma or_method_byte b m : 0 <= b < 32 ->
  method_from_bits (Z.shiftr (Z.land (Z.lor b (Z.shiftl (method_bits m) 5)) 224) 5) = Ok m /\
  Z.land (Z.lor b (Z.shiftl (method_bits m) 5)) 31 = b.
Proof.
  intros Hb. assert (forallb (fun b =>
    match method_from_bits (Z.shiftr (Z.land (Z.lor b (Z.shiftl (method_bits m) 5)) 224) 5) with Ok m' => bool_decide (m' = m) | Err _ => false end &&
    (Z.land (Z.lor b (Z.shiftl (method_bits m) 5)) 31 =? b)) (map Z.of_nat (seq 0 32)) = true) as H by (destruct m; vm_compute; reflexivity).
  rewrite forallb_forall in H. specialize (H b). rewrite andb_true_iff, Z.eqb_eq in H. destruct H as [H ->].
  - apply in_map_iff. exists (Z.to_nat b). split; [lia|]. apply in_seq. lia.
  - split; [|done]. destruct (method_from_bits _) as [m'|]; [|done]. by apply bool_decide_eq_true in H as ->.
Qed.

Lemma amount_bytes_decode m amt expiry : 0 <= amt < 2 ^ 61 ->
  info_method (amount_bytes m amt ++ expiry) = Ok m /\ take AMT_MSAT_LEN (amount_bytes m amt ++ expiry) = amount_bytes m amt /\
  drop AMT_MSAT_LEN (amount_bytes m amt ++ expiry) = expiry /\
  from_be (and_first 31 (amount_bytes m amt)) = amt.
Proof.
  intros Hamt. assert (length (amount_bytes m amt) = AMT_MSAT_LEN) as Hlen by done.
  rewrite take_app_length', drop_app_length' by done. unfold info_method, amount_bytes, AMT_MSAT_LEN, METHOD_TYPE_OFFSET.
  assert (to_be 8 amt = (amt / 256 ^ Z.of_nat 7) mod 256 :: to_be 7 amt) as E by reflexivity. rewrite E. cbn [or_first and_first app nth].
  assert (0 <= (amt / 256 ^ Z.of_nat 7) mod 256 < 32) as Hb.
  { change (256 ^ Z.of_nat 7) with (2 ^ 56). rewrite Z.mod_small; split;
      try apply Z.div_pos; try apply Z.div_lt_upper_bound; lia. }
  destruct (or_method_byte _ m Hb) as [-> ->]. split_and!; try done. rewrite <- E. apply from_to_be. cbn. lia.
Qed.

(** The expiry, with the delta in its first two bytes. *)
Definition expiry_bytes_of (t : Z) (delta : option Z) : bytes :=
  match delta with None => to_be 8 t | Some d => to_be 2 d ++ drop 2 (to_be 8 t) end.

Lemma expiry_small_bytes t : 0 <= t < 2 ^ 48 -> to_be 8 t = [0; 0] ++ drop 2 (to_be 8 t).
Proof.
  intros Ht. rewrite <- (take_drop 2 (to_be 8 t)) at 1. f_equal.
  change (take 2 (to_be 8 t)) with [(t / 256 ^ Z.of_nat 7) mod 256; (t / 256 ^ Z.of_nat 6) mod 256].
  rewrite !(Z.div_small t) by (cbn; lia). done.
Qed.

Lemma expiry_decode t d : 0 <= t < 2 ^ 48 -> 0 <= d < 2 ^ 16 ->
  from_be (take 2 (expiry_bytes_of t (Some d))) = d /\ from_be (replicate 2 0 ++ drop 2 (expiry_bytes_of t (Some d))) = t /\
  from_be (expiry_bytes_of t (Some d)) = d * 2 ^ 48 + t.
Proof.
  intros Ht Hd. unfold expiry_bytes_of. rewrite take_app_length', drop_app_length' by done.
  assert (from_be (to_be 2 d) = d) as E1 by (apply from_to_be; cbn; lia).
  assert (from_be (replicate 2 0 ++ drop 2 (to_be 8 t)) = t) as E2.
  { change (replicate 2 0) with [0; 0]. rewrite <- expiry_small_bytes by lia. apply from_to_be. cbn. lia. }
  split_and!; [done|done|]. rewrite from_be_app, E1. rewrite from_be_app in E2. change (from_be (replicate 2 0)) with 0 in E2.
  rewrite length_drop, to_be_length in *. cbn in *. lia.
Qed.

(** The hypotheses on what a payment is created with. *)
Definition payment_inputs_ok (min : option Z) (delta_secs time : Z) (cltv : option Z) : Prop :=
  0 <= default 0 min /\ 0 <= delta_secs /\ 0 <= time /\ time + delta_secs + 7200 < 2 ^ 64 /\
  forall d, cltv = Some d -> 0 <= d < 2 ^ 16.

Lemma construct_info_bytes_spec min m delta_secs time cltv info : payment_inputs_ok min delta_secs time cltv ->
  construct_info_bytes min m delta_secs time cltv = Ok info ->
  0 <= default 0 min < 2 ^ 61 /\ (is_some cltv = true -> time + delta_secs + 7200 < 2 ^ 48) /\
  info = amount_bytes m (default 0 min) ++ expiry_bytes_of (time + delta_secs + 7200) cltv.
Proof.
  intros (Hmin & Hd & Ht & Hmax & Hc). unfold construct_info_bytes, calculate_absolute_expiry.
  rewrite (wrapping_small _ (time + delta_secs)) by (unfold fits; lia). rewrite wrapping_small by (unfold fits; lia).
  destruct (match min with Some amt => MAX_VALUE_MSAT <? amt | None => false end) eqn:Emax; [done|].
  assert (0 <= default 0 min < 2 ^ 61) as Hamt.
  { destruct min as [amt|]; cbn in *; [|lia]. apply Z.ltb_ge in Emax. unfold MAX_VALUE_MSAT in Emax. lia. }
  destruct (match min with Some amt => Z.shiftl 1 61 - 1 <? amt | None => false end); [done|].
  assert (match min with Some amt => to_be AMT_MSAT_LEN amt | None => replicate AMT_MSAT_LEN 0 end = to_be AMT_MSAT_LEN (default 0 min)) as ->
    by (by destruct min).
  fold (amount_bytes m (default 0 min)). destruct cltv as [d|]; [|by intros [= <-]].
  destruct (Z.shiftl 1 48 - 1 <? time + delta_secs + 7200) eqn:E; [done|]. apply Z.ltb_ge in E. change (Z.shiftl 1 48 - 1) with (2 ^ 48 - 1) in E.
  assert (zip_with Z.lor (take 2 (to_be 8 (time + delta_secs + 7200))) (to_be 2 d) = to_be 2 d) as ->
    by (rewrite expiry_small_bytes by lia; reflexivity).
  intros [= <-]. split; [done|]. split; [lia|done].
Qed.

(** What a node answers to a payment that was created with these limits. *)
Definition verdict {A} (min : option Z) (expiry total ts : Z) (accepted : A) : result unit A :=
  if total <? default 0 min then Err tt else if expiry <? ts then Err tt else Ok accepted.

(** The checks behind the HMAC. *)
Definition custom_cltv (m : Method) : bool :=
  match m with LdkPaymentHashCustomFinalCltv | UserPaymentHashCustomFinalCltv => true | _ => false end.

Lemma verify_info m min expiry keys hash iv secret total metadata ts preimage plain :
  0 <= default 0 min < 2 ^ 61 -> let info := amount_bytes m (default 0 min) ++ expiry in
  decrypt_info secret keys = (iv, info) -> check_payment_hmac m hash iv info metadata keys = Ok (preimage, plain) ->
  payment_verify hash (mkFinalOnionHopData secret total) metadata ts keys =
    if custom_cltv m
    then verdict min (from_be (replicate 2 0 ++ drop 2 expiry)) total ts (preimage, Some (from_be (take 2 expiry)), plain)
    else verdict min (from_be expiry) total ts (preimage, None, plain).
Proof.
  intros Hamt info Hdec Hmac. destruct (amount_bytes_decode m (default 0 min) expiry Hamt) as (Hm & Htake & Hdrop & Hfrom).
  fold info in Hm, Htake, Hdrop. unfold payment_verify. cbn [payment_secret total_msat]. rewrite Hdec, Hm, Hmac.
  cbn [mbind result_bind]. unfold min_final_cltv_expiry_delta_from_info, verdict. rewrite Hdrop, Htake, Hfrom. by destruct m.
Qed.

Context {crypto_laws : OnionCryptoLaws}.

Lemma hmac_iv_length k m : length (take IV_LEN (hmac_sha256 k m)) = IV_LEN.
Proof. rewrite length_take, hmac_length. done. Qed.

(** The verdict on what was created with an expiry and a delta. *)
Lemma verify_created m min delta_secs time cltv keys info hash iv secret total metadata ts preimage plain :
  payment_inputs_ok min delta_secs time cltv -> construct_info_bytes min m delta_secs time cltv = Ok info ->
  custom_cltv m = is_some cltv -> decrypt_info secret keys = (iv, info) ->
  check_payment_hmac m hash iv info metadata keys = Ok (preimage, plain) ->
  payment_verify hash (mkFinalOnionHopData secret total) metadata ts keys =
    verdict min (time + delta_secs + 7200) total ts (preimage, cltv, plain).
Proof.
  intros Hin Hinfo Hcustom Hdec Hmac. destruct (construct_info_bytes_spec _ _ _ _ _ _ Hin Hinfo) as (Hamt & Hsmall & ->).
  destruct Hin as (_ & Hd & Ht & Hmax & Hcltv). rewrite (verify_info m min _ keys hash iv secret total metadata ts preimage plain) by done.
  rewrite Hcustom. destruct cltv as [d|]; cbn [is_some].
  - destruct (expiry_decode (time + delta_secs + 7200) d) as (-> & -> & _); [specialize (Hsmall eq_refl); lia|by apply Hcltv|done].
  - unfold expiry_bytes_of. by rewrite from_to_be by (cbn; lia).
Qed.

Section created.
Variables (keys : ExpandedKey) (min : option Z) (delta_secs time : Z) (cltv : option Z) (entropy : bytes) (metadata : option bytes).
Hypothesis Hin : payment_inputs_ok min delta_secs time cltv.
Hypothesis Hent : (IV_LEN <= length entropy)%nat.

Lemma created_iv : length (take IV_LEN entropy) = IV_LEN.
Proof. rewrite length_take. lia. Qed.

Lemma created_ours hash secret enc : payment_create keys min delta_secs entropy time cltv metadata = Ok (hash, secret, enc) ->
  exists preimage, sha256 preimage = hash /\ get_payment_preimage hash secret enc keys = Ok (preimage, metadata) /\
    forall total ts, payment_verify hash (mkFinalOnionHopData secret total) enc ts keys =
      verdict min (time + delta_secs + 7200) total ts (Some preimage, cltv, metadata).
Proof.
  pose proof created_iv as Hiv.
  unfold payment_create. destruct (construct_info_bytes _ _ _ _ _) as [info|] eqn:Hinfo; [|done].
  cbn [mbind result_bind]. set (preimage := hmac_sha256 _ _). intros [= <- <- <-]. exists preimage. split; [done|].
  pose proof (decrypt_constructed _ info keys Hiv) as Hdec.
  assert (derive_ldk_payment_preimage (sha256 preimage) (take IV_LEN entropy) info
            (apply_chacha20 (metadata_enc_key keys) (take IV_LEN entropy) <$> metadata) keys = Ok preimage) as Hder
    by (unfold derive_ldk_payment_preimage; fold preimage; by rewrite bool_decide_true).
  assert (apply_chacha20 (metadata_enc_key keys) (take IV_LEN entropy) <$> (apply_chacha20 (metadata_enc_key keys) (take IV_LEN entropy) <$> metadata) = metadata) as Hplain
    by (destruct metadata; cbn; [by rewrite apply_chacha20_twice|done]).
  set (m := if is_some cltv then _ else _) in Hinfo. split.
  + destruct (construct_info_bytes_spec _ _ _ _ _ _ Hin Hinfo) as (Hamt & _ & Einfo).
    destruct (amount_bytes_decode m _ (expiry_bytes_of (time + delta_secs + 7200) cltv) Hamt) as (Hm & _). rewrite <- Einfo in Hm.
    unfold get_payment_preimage. rewrite Hdec, Hm. unfold m. by destruct cltv; cbn [is_some]; rewrite Hder, Hplain.
  + intros total ts. eapply (verify_created m); [done|done|by destruct cltv|done|].
    unfold check_payment_hmac, m. by destruct cltv; cbn [is_some]; rewrite Hder, Hplain.
Qed.

Lemma created_for_hash hash secret enc : payment_create_from_hash keys min hash delta_secs entropy time cltv metadata = Ok (secret, enc) ->
  forall total ts, payment_verify hash (mkFinalOnionHopData secret total) enc ts keys =
    verdict min (time + delta_secs + 7200) total ts (None, cltv, metadata).
Proof.
  pose proof created_iv as Hiv.
  unfold payment_create_from_hash. destruct (construct_info_bytes _ _ _ _ _) as [info|] eqn:Hinfo; [|done].
  cbn [mbind result_bind]. set (enc' := _ <$> metadata). set (hmac := hmac_sha256 _ _). intros [= <- <-] total ts.
  set (m := if is_some cltv then _ else _) in Hinfo.
  eapply (verify_created m); [done|done|by destruct cltv|by apply decrypt_constructed, hmac_iv_length|].
  assert (check_payment_hmac UserPaymentHash hash (take IV_LEN hmac) info enc' keys = Ok (None, metadata)) as H; [|by unfold m; destruct cltv].
  unfold check_payment_hmac. fold hmac. rewrite bool_decide_true by done. cbn [negb]. unfold enc'.
  destruct metadata as [l|]; [|done]. cbn [fmap option_fmap option_map]. rewrite length_app, apply_chacha20_length, Hiv.
  rewrite (proj2 (Nat.ltb_ge _ _)) by lia. rewrite Nat.add_sub.
  by rewrite drop_app_length', take_app_length', apply_chacha20_twice by (by rewrite apply_chacha20_length).
Qed.

Lemma created_spontaneous secret : create_for_spontaneous_payment keys min delta_secs time None = Ok secret ->
  forall hash total ts, payment_verify hash (mkFinalOnionHopData secret total) None ts keys =
    verdict min (time + delta_secs + 7200) total ts (None, None, None).
Proof.
  unfold create_for_spontaneous_payment. destruct (construct_info_bytes _ _ _ _ _) as [info|] eqn:Hinfo; [|done].
  cbn [mbind result_bind]. intros [= <-] hash total ts.
  eapply (verify_created SpontaneousPayment); [|done|done|by apply decrypt_constructed, hmac_iv_length|].
  + destruct Hin as (? & ? & ? & ? & _). by split_and!.
  + unfold check_payment_hmac. cbn [is_some]. by rewrite bool_decide_true.
Qed.

End created.

(** C22: a payment that was created verifies: for every amount, expiry, final delta and
    metadata, the secret and the hash [create] makes, the secret [create_from_hash]
    makes for a hash and the one for spontaneous payments are accepted exactly when
    the payment has at least the amount and the expiry, with its two hours of grace,
    has not passed; the answer has the preimage of the hash, the delta, and the
    metadata in plain. *)
Theorem created_payments_verify keys min delta_secs time cltv entropy metadata :
  payment_inputs_ok min delta_secs time cltv -> (IV_LEN <= length entropy)%nat ->
  (forall hash secret enc, payment_create keys min delta_secs entropy time cltv metadata = Ok (hash, secret, enc) ->
     exists preimage, sha256 preimage = hash /\ get_payment_preimage hash secret enc keys = Ok (preimage, metadata) /\
       forall total ts, payment_verify hash (mkFinalOnionHopData secret total) enc ts keys =
         verdict min (time + delta_secs + 7200) total ts (Some preimage, cltv, metadata)) /\
  (forall hash secret enc, payment_create_from_hash keys min hash delta_secs entropy time cltv metadata = Ok (secret, enc) ->
     forall total ts, payment_verify hash (mkFinalOnionHopData secret total) enc ts keys =
       verdict min (time + delta_secs + 7200) total ts (None, cltv, metadata)) /\
  (forall secret, create_for_spontaneous_payment keys min delta_secs time None = Ok secret ->
     forall hash total ts, payment_verify hash (mkFinalOnionHopData secret total) None ts keys =
       verdict min (time + delta_secs + 7200) total ts (None, None, None)).
Proof.
  intros Hin Hent. split_and!; intros.
  - by eapply created_ours.
  - by eapply created_for_hash.
  - by eapply created_spontaneous.
Qed.

(** A final delta in the secret of a spontaneous payment ends up in its expiry: it is
    neither checked nor does the payment expire in time. *)
Lemma spontaneous_delta_lost keys min delta_secs time d secret : payment_inputs_ok min delta_secs time (Some d) ->
  create_for_spontaneous_payment keys min delta_secs time (Some d) = Ok secret ->
  forall hash total ts, payment_verify hash (mkFinalOnionHopData secret total) None ts keys =
    verdict min (d * 2 ^ 48 + (time + delta_secs + 7200)) total ts (None, None, None).
Proof.
  intros Hin. unfold create_for_spontaneous_payment. destruct (construct_info_bytes _ _ _ _ _) as [info|] eqn:Hinfo; [|done].
  cbn [mbind result_bind]. intros [= <-] hash total ts.
  destruct (construct_info_bytes_spec _ _ _ _ _ _ Hin Hinfo) as (Hamt & Hsmall & ->).
  destruct Hin as (_ & ? & ? & _ & Hd). destruct (expiry_decode (time + delta_secs + 7200) d) as (_ & _ & E);
    [specialize (Hsmall eq_refl); lia|by apply Hd|].
  rewrite (verify_info SpontaneousPayment min (expiry_bytes_of (time + delta_secs + 7200) (Some d)) keys hash _ _ total None ts None None Hamt
             (decrypt_constructed _ _ _ (hmac_iv_length _ _))).
  - cbn [custom_cltv]. by rewrite E.
  - unfold check_payment_hmac. cbn [is_some]. by rewrite bool_decide_true.
Qed.

End inbound.
