(* ===== verification/Claimable.v ===== *)
(** * Payments received (lightning/src/ln/channelmanager.rs)

    What becomes of the HTLCs that end at this node.  Each one is a part of a payment;
    the parts of a payment wait until the sender's total has arrived, then the user
    is told and may claim or fail them.  Parts time out, with the timer of incomplete
    payments and with the height of the chain.  HTLCs to be forwarded by a trampoline
    wait for each other in the same way. *)

From Stdlib Require Import ZArith Lia Bool.
From stdpp Require Import strings gmap.
From S2P Require Import Prelude.
From S2P Require Import Features.
From S2P Require Import Keys.
From S2P Require Import Order.
From S2P Require Import Scripts.
From S2P Require Import Ser.
From S2P Require Import Onion.
From S2P Require Import PqKem.
From S2P Require Import Streams.
From S2P Require Import BlindedPath.
From S2P Require Import BlindedFees.
From S2P Require Import OnionPayload.
From S2P Require Import OnionRoute.
From S2P Require Import OnionFailure.
From S2P Require Import OnionReceive.
From S2P Require Import InboundPayment.

Local Open Scope Z_scope.

(** The contexts of BOLT 12 payments, and the check of an invoice request against the
    offer it was made for (lightning/src/offers/). *)
Class OfferContexts `{PaymentContexts, InvoiceRequests} := {
  Bolt12OfferContext : Type;
  Bolt12OfferContext_eq :: EqDecision Bolt12OfferContext;
  Bolt12RefundContext : Type;
  Bolt12RefundContext_eq :: EqDecision Bolt12RefundContext;
  Nonce : Type;
  (** which of the variants of [PaymentContext] *)
  as_offer_context : PaymentContext -> option Bolt12OfferContext;
  as_refund_context : PaymentContext -> option Bolt12RefundContext;
  as_async_context : PaymentContext -> option (Nonce * option bytes);
  (** [verify_using_recipient_data]: the amount, and the context of the payment with
      its metadata *)
  verify_invoice_request : InvoiceRequest -> Nonce -> ExpandedKey -> option (option Z * (option bytes -> Bolt12OfferContext));
}.

(** The order in which a [HashMap] yields its entries is not specified. *)
Class HashIter := { hash_entries : forall {V}, gmap bytes V -> list (bytes * V) }.
Class HashIterLaws `{HashIter} : Prop := {
  hash_entries_perm {V} (m : gmap bytes V) : hash_entries m ≡ₚ map_to_list m;
}.

Definition MPP_TIMEOUT_TICKS : Z := 3.

Section claimable.
Context {bitcoin : Bitcoin} {crypto : OnionCrypto} {kem : Kem} {poly : Poly1305} {cipher : BlockCipher}.
Context {contexts : PaymentContexts} {invoice_requests : InvoiceRequests} {sources : Sources}.
Context {offer_contexts : OfferContexts} {hash_iter : HashIter}.

(** ** HTLCs *)

Record HTLCPreviousHopData : Type := mkPreviousHop {
  prev_outbound_scid_alias : Z;
  prev_user_channel_id : option Z;
  prev_amount_msat : option Z;
  prev_htlc_id : Z;
  prev_incoming_packet_shared_secret : bytes;
  prev_phantom_shared_secret : option bytes;
  prev_trampoline_shared_secret : option bytes;
  prev_blinded_failure : option BlindedFailure;
  prev_channel_id : bytes;
  prev_outpoint : OutPoint;
  prev_counterparty_node_id : option PublicKey;
  prev_cltv_expiry : option Z;
}.

Record PendingAddHTLCInfo : Type := mkPendingAdd {
  forward_info : PendingHTLCInfo;
  add_prev_outbound_scid_alias : Z;
  add_prev_htlc_id : Z;
  add_prev_counterparty_node_id : PublicKey;
  add_prev_channel_id : bytes;
  add_prev_funding_outpoint : OutPoint;
  add_prev_user_channel_id : Z;
}.

Definition routing_blinded_failure (self : PendingHTLCRouting) : option BlindedFailure :=
  match self with
  | RoutingForward _ _ (Some b) _ _ _ _ _ => Some (blinded_failure b)
  | RoutingTrampolineForward _ _ _ (Some b) _ _ _ _ => Some (blinded_failure b)
  | RoutingReceive _ _ _ _ _ _ _ true => Some FromBlindedNode
  | RoutingReceiveKeysend _ _ _ _ _ true _ _ _ => Some FromBlindedNode
  | _ => None
  end.
Definition routing_incoming_cltv_expiry (self : PendingHTLCRouting) : option Z :=
  match self with
  | RoutingForward _ _ _ cltv _ _ _ _ => cltv
  | RoutingTrampolineForward _ _ _ _ cltv _ _ _ => Some cltv
  | RoutingReceive _ _ _ cltv _ _ _ _ => Some cltv
  | RoutingReceiveKeysend _ _ _ cltv _ _ _ _ _ => Some cltv
  end.

Definition htlc_previous_hop_data (self : PendingAddHTLCInfo) : HTLCPreviousHopData :=
  let info := forward_info self in
  let phantom := match routing info with RoutingReceive _ _ _ _ phantom _ _ _ => phantom | _ => None end in
  let trampoline := match routing info with
                    | RoutingReceive _ _ _ _ _ trampoline _ _ => trampoline
                    | RoutingTrampolineForward ss _ _ _ _ _ _ _ => Some ss
                    | _ => None
                    end in
  mkPreviousHop (add_prev_outbound_scid_alias self) (Some (add_prev_user_channel_id self)) (incoming_amt_msat info)
    (add_prev_htlc_id self) (incoming_shared_secret info) phantom trampoline (routing_blinded_failure (routing info))
    (add_prev_channel_id self) (add_prev_funding_outpoint self) (Some (add_prev_counterparty_node_id self))
    (routing_incoming_cltv_expiry (routing info)).

Record MppPart : Type := mkMppPart {
  mpp_prev_hop : HTLCPreviousHopData;
  mpp_cltv_expiry : Z;
  mpp_value : Z;
  sender_intended_value : Z;
  timer_ticks : Z;
  total_value_received : option Z;
}.
Definition set_timer_ticks (ticks : Z) (p : MppPart) : MppPart :=
  mkMppPart (mpp_prev_hop p) (mpp_cltv_expiry p) (mpp_value p) (sender_intended_value p) ticks (total_value_received p).
Definition set_total_value_received (total : option Z) (p : MppPart) : MppPart :=
  mkMppPart (mpp_prev_hop p) (mpp_cltv_expiry p) (mpp_value p) (sender_intended_value p) (timer_ticks p) total.

Definition check_onchain_timeout (self : MppPart) (height : Z) : bool :=
  wrapping 32 (mpp_cltv_expiry self - HTLC_FAIL_BACK_BUFFER) <=? height.

(** [Ord for MppPart] *)
Definition mpp_cmp (a b : MppPart) : comparison :=
  then_cmp (slice_cmp (prev_channel_id (mpp_prev_hop a)) (prev_channel_id (mpp_prev_hop b)))
    (prev_htlc_id (mpp_prev_hop a) ?= prev_htlc_id (mpp_prev_hop b)).

Inductive ReceivedPayload := PayloadInvoice (legacy_hop_data : option FinalOnionHopData) | PayloadSpontaneous (preimage : bytes).
Record ClaimableHTLC : Type := mkClaimableHTLC {
  claimable_mpp_part : MppPart;
  received_payload : ReceivedPayload;
  counterparty_skimmed_fee_msat : option Z;
}.

Class HasMppPart (H : Type) := { mpp_part : H -> MppPart; set_mpp_part : MppPart -> H -> H }.
#[export] Instance mpp_part_itself : HasMppPart MppPart := {| mpp_part p := p; set_mpp_part p _ := p |}.
#[export] Instance claimable_mpp : HasMppPart ClaimableHTLC := {|
  mpp_part := claimable_mpp_part;
  set_mpp_part p h := mkClaimableHTLC p (received_payload h) (counterparty_skimmed_fee_msat h);
|}.

(** ** Payments *)

Inductive PaymentPurpose : Type :=
| Bolt11InvoicePayment (payment_preimage : option bytes) (payment_secret : bytes)
| Bolt12OfferPayment (payment_preimage : option bytes) (payment_secret : bytes) (payment_context : Bolt12OfferContext)
| Bolt12RefundPayment (payment_preimage : option bytes) (payment_secret : bytes) (payment_context : Bolt12RefundContext)
| SpontaneousPurpose (preimage : bytes).
#[export] Instance PaymentPurpose_eq : EqDecision PaymentPurpose.
Proof. solve_decision. Defined.

Definition purpose_from_parts (payment_preimage : option bytes) (payment_secret : bytes) (payment_context : option PaymentContext)
    : result unit PaymentPurpose :=
  match payment_context with
  | None => Ok (Bolt11InvoicePayment payment_preimage payment_secret)
  | Some context =>
      match as_offer_context context, as_refund_context context with
      | Some c, _ => Ok (Bolt12OfferPayment payment_preimage payment_secret c)
      | None, Some c => Ok (Bolt12RefundPayment payment_preimage payment_secret c)
      | None, None => Err tt
      end
  end.

Record ClaimablePayment : Type := mkClaimablePayment {
  purpose : PaymentPurpose;
  payment_onion_fields : RecipientOnionFields;
  payment_htlcs : list ClaimableHTLC;
}.
Record TrampolinePayment : Type := mkTrampolinePayment {
  trampoline_onion_fields : RecipientOnionFields;
  trampoline_htlcs : list MppPart;
}.

Definition inbound_payment_id (secret : bytes) (htlcs : list ClaimableHTLC) : bytes :=
  hmac_sha256 secret (mjoin (map (fun h => let prev := mpp_prev_hop (mpp_part h) in
                                           prev_channel_id prev ++ to_le64 (prev_htlc_id prev)) htlcs)).
Definition receiving_channel_ids (htlcs : list ClaimableHTLC) : list (bytes * option Z) :=
  map (fun h => let prev := mpp_prev_hop (mpp_part h) in (prev_channel_id prev, prev_user_channel_id prev)) htlcs.
Definition total_counterparty_skimmed_msat (htlcs : list ClaimableHTLC) : Z :=
  u64_sum (map (fun h => default 0 (counterparty_skimmed_fee_msat h)) htlcs).
Definition received_value {H} `{HasMppPart H} (htlcs : list H) : Z := u64_sum (map (fun h => mpp_value (mpp_part h)) htlcs).

(** [RecipientOnionFields::check_merge] (lightning/src/ln/outbound_payment.rs): the
    fields of the payment, with what the parts have in common. *)
Definition even_tlvs (tlvs : list (Z * bytes)) : list (Z * bytes) := List.filter (fun tlv => tlv.1 mod 2 =? 0) tlvs.
Definition check_merge (self further : RecipientOnionFields) : result unit RecipientOnionFields :=
  if negb (bool_decide (rof_payment_secret self = rof_payment_secret further)) then Err tt
  else if negb (bool_decide (rof_payment_metadata self = rof_payment_metadata further)) then Err tt
  else if negb (total_mpp_amount_msat self =? total_mpp_amount_msat further) then Err tt
  else if negb (bool_decide (even_tlvs (rof_custom_tlvs self) = even_tlvs (rof_custom_tlvs further))) then Err tt
  else Ok (mkRecipientOnionFields (rof_payment_secret self) (rof_payment_metadata self)
             (List.filter (fun tlv => existsb (fun t => bool_decide (tlv = t)) (rof_custom_tlvs further)) (rof_custom_tlvs self))
             (total_mpp_amount_msat self)).

(** What the parts of a payment were meant to carry; the loop stops at the bound. *)
Fixpoint intended_total (total : Z) (values : list Z) : Z :=
  match values with
  | [] => total
  | value :: values =>
      let total := (total + value)%u64 in
      if MAX_VALUE_MSAT <=? total then total else intended_total total values
  end.

(** The set of parts and the fields of the payment afterwards, and whether the payment is
    complete. *)
Definition check_incoming_mpp_part {H} `{HasMppPart H} (htlc_set : list H) (onion_fields : RecipientOnionFields) (new_htlc : H)
    (new_onion_fields : RecipientOnionFields) : list H * RecipientOnionFields * result unit bool :=
  match check_merge onion_fields new_onion_fields with
  | Err _ => (htlc_set, onion_fields, Err tt)
  | Ok onion_fields =>
      let intended := sender_intended_value (mpp_part new_htlc) in
      let total := intended_total intended (map (fun h => sender_intended_value (mpp_part h)) htlc_set) in
      let total_mpp_value := total_mpp_amount_msat onion_fields in
      if MAX_VALUE_MSAT <=? total then (htlc_set, onion_fields, Err tt)
      else if total_mpp_value <=? (total - intended)%u64 then (htlc_set, onion_fields, Err tt)
      else if total_mpp_value <=? total then
        let htlc_set := htlc_set ++ [new_htlc] in
        let amount_msat := received_value htlc_set in
        let htlc_set := map (fun h => set_mpp_part (set_total_value_received (Some amount_msat) (mpp_part h)) h) htlc_set in
        (sort_by (fun a b => mpp_cmp (mpp_part a) (mpp_part b)) htlc_set, onion_fields, Ok true)
      else (htlc_set ++ [new_htlc], onion_fields, Ok false)
  end.

(** ** The node *)

Record ClaimedHTLC : Type := mkClaimedHTLC {
  claimed_counterparty : option PublicKey;
  claimed_channel_id : bytes;
  claimed_user_channel_id : Z;
  claimed_cltv_expiry : Z;
  claimed_value_msat : Z;
  claimed_skimmed_fee_msat : Z;
}.
Definition events_claimed_htlc (val : ClaimableHTLC) : ClaimedHTLC :=
  let part := mpp_part val in
  let prev := mpp_prev_hop part in
  mkClaimedHTLC (prev_counterparty_node_id prev) (prev_channel_id prev) (default 0 (prev_user_channel_id prev))
    (mpp_cltv_expiry part) (mpp_value part) (default 0 (counterparty_skimmed_fee_msat val)).

Record ClaimingPayment : Type := mkClaimingPayment {
  claiming_amount_msat : Z;
  claiming_purpose : PaymentPurpose;
  claiming_receiver_node_id : PublicKey;
  claiming_htlcs : list ClaimedHTLC;
  claiming_sender_intended_value : option Z;
  claiming_onion_fields : RecipientOnionFields;
  claiming_payment_id : option bytes;
  durable_preimage_channel : option (OutPoint * PublicKey * bytes);
}.

(** [ClaimablePayments] and [awaiting_trampoline_forwards] *)
Record Receiver : Type := mkReceiver {
  claimable_payments : gmap bytes ClaimablePayment;
  pending_claiming_payments : gmap bytes ClaimingPayment;
  awaiting_trampoline_forwards : gmap bytes TrampolinePayment;
}.
Definition with_claimable (m : gmap bytes ClaimablePayment) (st : Receiver) : Receiver :=
  mkReceiver m (pending_claiming_payments st) (awaiting_trampoline_forwards st).
Definition with_claiming (m : gmap bytes ClaimingPayment) (st : Receiver) : Receiver :=
  mkReceiver (claimable_payments st) m (awaiting_trampoline_forwards st).
Definition with_trampoline (m : gmap bytes TrampolinePayment) (st : Receiver) : Receiver :=
  mkReceiver (claimable_payments st) (pending_claiming_payments st) m.

(** What the node knows when it is called. *)
Record Node : Type := mkNode {
  node_height : Z;
  highest_seen_timestamp : Z;
  inbound_payment_key : ExpandedKey;
  inbound_payment_id_secret : bytes;
  our_network_pubkey : PublicKey;
  phantom_pubkey : option PublicKey;
  node_signer : NodeSigner;
  forwarding_fee_base_msat : Z;
  forwarding_fee_proportional_millionths : Z;
  forwarding_cltv_expiry_delta : Z;
}.

(** What a call leaves to the channels and to the user. *)
Inductive Effect : Type :=
| FailHTLC (source : list HTLCPreviousHopData) (payment_hash : bytes) (reason : HTLCFailReason) (trampoline : bool)
| PaymentClaimable (receiver_node_id : PublicKey) (payment_hash : bytes) (purpose : PaymentPurpose)
    (amount_msat counterparty_skimmed_fee_msat : Z) (receiving_channel_ids : list (bytes * option Z)) (claim_deadline : Z)
    (onion_fields : RecipientOnionFields) (payment_id : bytes)
| ClaimHTLC (prev_hop : HTLCPreviousHopData) (payment_preimage : bytes)
    (mpp_parts : list (PublicKey * OutPoint * bytes * Z)) (claiming_payment : ClaimingPayment) (attribution_data : AttributionData)
| PaymentClaimed (payment_hash : bytes) (claiming_payment : ClaimingPayment).

(** ** A part arrives *)

Definition least_cltv (htlcs : list ClaimableHTLC) (htlc_expiry : Z) : Z :=
  match map (fun h => mpp_cltv_expiry (mpp_part h)) htlcs with [] => htlc_expiry | c :: l => foldl Z.min c l end.

Definition handle_claimable_htlc (node : Node) (payment_purpose : PaymentPurpose) (claimable_htlc : ClaimableHTLC)
    (onion_fields : RecipientOnionFields) (payment_hash : bytes) (receiver_node_id : PublicKey) (st : Receiver)
    : Receiver * list Effect * result unit unit :=
  if is_some (pending_claiming_payments st !! payment_hash) then (st, [], Err tt)
  else
    let payment := default (mkClaimablePayment payment_purpose onion_fields []) (claimable_payments st !! payment_hash) in
    let put payment := with_claimable (<[payment_hash := payment]> (claimable_payments st)) st in
    if negb (bool_decide (payment_purpose = purpose payment)) then (put payment, [], Err tt)
    else
      let '(htlcs, fields, res) :=
        check_incoming_mpp_part (payment_htlcs payment) (payment_onion_fields payment) claimable_htlc onion_fields in
      let st := put (mkClaimablePayment (purpose payment) fields htlcs) in
      match res with
      | Ok true =>
          (st, [PaymentClaimable receiver_node_id payment_hash payment_purpose (received_value htlcs)
                  (total_counterparty_skimmed_msat htlcs) (receiving_channel_ids htlcs)
                  (wrapping 32 (least_cltv htlcs (mpp_cltv_expiry (mpp_part claimable_htlc)) - HTLC_FAIL_BACK_BUFFER)) fields
                  (inbound_payment_id (inbound_payment_id_secret node) htlcs)], Ok tt)
      | Ok false => (st, [], Ok tt)
      | Err _ => (st, [], Err tt)
      end.

Definition checked_add (w a b : Z) : option Z := if a + b <? 2 ^ w then Some (a + b) else None.

(** The parts of a trampoline forward.  Once they are all there, they are checked
    against our fees, and failed, as forwarding them is not implemented. *)
Definition handle_trampoline_htlc (node : Node) (part : MppPart) (onion_fields : RecipientOnionFields) (payment_hash : bytes)
    (next_amount_msat next_cltv_expiry_height : Z) (st : Receiver) : Receiver * option (list HTLCPreviousHopData * HTLCFailReason) :=
  let payment := default (mkTrampolinePayment onion_fields []) (awaiting_trampoline_forwards st !! payment_hash) in
  let '(htlcs, fields, res) :=
    check_incoming_mpp_part (trampoline_htlcs payment) (trampoline_onion_fields payment) part onion_fields in
  let put := with_trampoline (<[payment_hash := mkTrampolinePayment fields htlcs]> (awaiting_trampoline_forwards st)) st in
  match res with
  | Ok false => (put, None)
  | Err _ => (put, Some ([mpp_prev_hop part], Reason InvalidTrampolineForward []))
  | Ok true =>
      let st := with_trampoline (delete payment_hash (awaiting_trampoline_forwards st)) st in
      let incoming_amt_msat := received_value htlcs in
      (* there is at least the part just added *)
      let incoming_cltv_expiry := match map mpp_cltv_expiry htlcs with [] => 0 | c :: l => foldl Z.min c l end in
      let cltv_delta := Z.max (forwarding_cltv_expiry_delta node) MIN_CLTV_EXPIRY_DELTA in
      let trampoline_source := map mpp_prev_hop htlcs in
      let trampoline_failure := Reason TrampolineFeeOrExpiryInsufficient
        (to_be 4 (forwarding_fee_base_msat node) ++ to_be 4 (forwarding_fee_proportional_millionths node) ++ to_be 2 cltv_delta) in
      let fee_left :=
        our_fee ← compute_fees next_amount_msat (forwarding_fee_base_msat node) (forwarding_fee_proportional_millionths node);
        total ← checked_add 64 our_fee next_amount_msat;
        checked_sub incoming_amt_msat total in
      let cltv_left :=
        total ← checked_add 32 next_cltv_expiry_height cltv_delta;
        checked_sub incoming_cltv_expiry total in
      match fee_left, cltv_left with
      | Some _, Some _ => (st, Some (trampoline_source, Reason TemporaryTrampolineFailure []))
      | _, _ => (st, Some (trampoline_source, trampoline_failure))
      end
  end.

(** What [process_receive_htlcs] takes from the routing of an HTLC. *)
Record ReceivedHTLC : Type := mkReceivedHTLC {
  rx_cltv_expiry : Z;
  rx_payload : ReceivedPayload;
  rx_payment_data : option FinalOnionHopData;
  rx_payment_context : option PaymentContext;
  rx_phantom_ss : option bytes;
  rx_onion_fields : RecipientOnionFields;
  rx_has_recipient_created_payment_secret : bool;
  rx_invoice_request : option InvoiceRequest;
  rx_trampoline_ss : option bytes;
}.
Definition received_htlc (self : PendingHTLCRouting) (outgoing_amt_msat : Z) : option ReceivedHTLC :=
  match self with
  | RoutingReceive payment_data payment_metadata payment_context cltv phantom_ss trampoline_ss custom_tlvs _ =>
      Some (mkReceivedHTLC cltv (PayloadInvoice (Some payment_data)) (Some payment_data) payment_context phantom_ss
              (mkRecipientOnionFields (Some (payment_secret payment_data)) payment_metadata custom_tlvs (total_msat payment_data))
              true None trampoline_ss)
  | RoutingReceiveKeysend payment_data payment_preimage payment_metadata cltv custom_tlvs _ has_secret invoice_request payment_context =>
      Some (mkReceivedHTLC cltv (PayloadSpontaneous payment_preimage) payment_data payment_context None
              (mkRecipientOnionFields (payment_secret <$> payment_data) payment_metadata custom_tlvs
                 (default outgoing_amt_msat (total_msat <$> payment_data)))
              has_secret invoice_request None)
  | _ => None
  end.

(** The payment secret, if it is one of ours: the preimage, and the fields with the
    metadata in plain. *)
Definition check_payment_secret (node : Node) (payment_hash : bytes) (rx : ReceivedHTLC)
    : result unit (option bytes * RecipientOnionFields) :=
  let fields := rx_onion_fields rx in
  if rx_has_recipient_created_payment_secret rx then
    match rx_payment_data rx with
    | None => Err tt
    | Some payment_data =>
        '(payment_preimage, min_final_cltv_expiry_delta, metadata) ←
          payment_verify payment_hash payment_data (rof_payment_metadata fields) (highest_seen_timestamp node) (inbound_payment_key node);
        let too_soon := match min_final_cltv_expiry_delta with
                        | Some delta => rx_cltv_expiry rx <? wrapping 32 (node_height node + delta)
                        | None => false
                        end in
        if too_soon then Err tt
        else Ok (payment_preimage, mkRecipientOnionFields (rof_payment_secret fields) metadata (rof_custom_tlvs fields)
                                     (total_mpp_amount_msat fields))
    end
  else Ok (None, fields).

Definition received_purpose (node : Node) (rx : ReceivedHTLC) (payment_preimage : option bytes) : run (result unit PaymentPurpose) :=
  match rx_payload rx with
  | PayloadInvoice _ =>
      payment_data ← unwrap (rx_payment_data rx);
      mret (purpose_from_parts payment_preimage (payment_secret payment_data) (rx_payment_context rx))
  | PayloadSpontaneous keysend_preimage =>
      mret match rx_payment_context rx with
      | None => Ok (SpontaneousPurpose keysend_preimage)
      | Some context =>
          match as_async_context context, rx_payment_data rx with
          | Some (offer_nonce, payment_metadata), Some payment_data =>
              match rx_invoice_request rx ≫= fun invreq => verify_invoice_request invreq offer_nonce (inbound_payment_key node) with
              | None => Err tt
              | Some (amount_msats, offer_context) =>
                  if match amount_msats with Some amt => total_msat payment_data <? amt | None => false end then Err tt
                  else Ok (Bolt12OfferPayment (Some keysend_preimage) (payment_secret payment_data) (offer_context payment_metadata))
              end
          | _, _ => Err tt
          end
      end
  end.

(** One HTLC of [process_receive_htlcs]. *)
Definition receive_htlc (node : Node) (payment : PendingAddHTLCInfo) (st : Receiver) : run (Receiver * list Effect) :=
  let prev_hop := htlc_previous_hop_data payment in
  let info := forward_info payment in
  let payment_hash := pending_payment_hash info in
  let value := default (outgoing_amt_msat info) (incoming_amt_msat info) in
  match routing info, received_htlc (routing info) (outgoing_amt_msat info) with
  | RoutingTrampolineForward _ onion_packet _ blinded cltv incoming_multipath_data next_amt next_cltv, _ =>
      let onion_fields :=
        match incoming_multipath_data with
        | Some data => mkRecipientOnionFields (Some (payment_secret data)) None [] (total_msat data)
        | None => mkRecipientOnionFields None None [] (outgoing_amt_msat info)
        end in
      _ ← match blinded with
          | Some b =>
              match blinded_next_override b with
              | Some _ => mret tt
              | None => _ ← run_ok (ecdh (node_signer node) PqKem.Node (inbound_blinding_point b) None); mret tt
              end
          | None => mret tt
          end;
      let '(st, failure) :=
        handle_trampoline_htlc node (mkMppPart prev_hop cltv value (outgoing_amt_msat info) 0 None) onion_fields payment_hash
          next_amt next_cltv st in
      mret (st, match failure with Some (source, reason) => [FailHTLC source payment_hash reason true] | None => [] end)
  | _, Some rx =>
      let htlc_source :=
        mkPreviousHop (prev_outbound_scid_alias prev_hop) (prev_user_channel_id prev_hop) (Some value) (prev_htlc_id prev_hop)
          (prev_incoming_packet_shared_secret prev_hop) (rx_phantom_ss rx) (rx_trampoline_ss rx) (routing_blinded_failure (routing info))
          (add_prev_channel_id payment) (add_prev_funding_outpoint payment) (prev_counterparty_node_id prev_hop) (Some (rx_cltv_expiry rx)) in
      let claimable_htlc :=
        mkClaimableHTLC (mkMppPart prev_hop (rx_cltv_expiry rx) value (outgoing_amt_msat info) 0 None) (rx_payload rx)
          (pending_skimmed_fee_msat info) in
      let fail_htlc := FailHTLC [htlc_source] payment_hash
        (Reason IncorrectPaymentDetails (invalid_payment_err_data value (node_height node))) false in
      receiver_node_id ← (if is_some (prev_phantom_shared_secret prev_hop) then unwrap (phantom_pubkey node) else mret (our_network_pubkey node));
      match check_payment_secret node payment_hash rx with
      | Err _ => mret (st, [fail_htlc])
      | Ok (payment_preimage, onion_fields) =>
          purpose ← received_purpose node rx payment_preimage;
          match purpose with
          | Err _ => mret (st, [fail_htlc])
          | Ok purpose =>
              let '(st, events, res) :=
                handle_claimable_htlc node purpose claimable_htlc onion_fields payment_hash receiver_node_id st in
              mret (st, match res with Ok _ => events | Err _ => events ++ [fail_htlc] end)
          end
      end
  | _, None => Panic
  end.

(** ** Parts time out

    [HashMap::retain], with what the closure does to the entries it goes through. *)
Definition hash_retain {V} (f : bytes -> V -> option V * list Effect) (m : gmap bytes V) : gmap bytes V * list Effect :=
  (map_imap (fun k v => (f k v).1) m, mjoin (map (fun '(k, v) => (f k v).2) (hash_entries m))).

Definition check_mpp_timeout {H} `{HasMppPart H} (htlcs : list H) (onion_fields : RecipientOnionFields) : list H * bool :=
  let total_intended := u64_sum (map (fun h => sender_intended_value (mpp_part h)) htlcs) in
  let htlcs := map (fun h => set_mpp_part (set_timer_ticks (wrapping 8 (timer_ticks (mpp_part h) + 1)) (mpp_part h)) h) htlcs in
  let timed_out := existsb (fun h => MPP_TIMEOUT_TICKS <=? timer_ticks (mpp_part h)) htlcs in
  (htlcs, if total_mpp_amount_msat onion_fields <=? total_intended then false else timed_out).

Definition mpp_timeout_reason : HTLCFailReason := Reason MPPTimeout [].

(** The part of [timer_tick_occurred] that is about received payments. *)
Definition timer_tick_occurred (st : Receiver) : Receiver * list Effect :=
  let '(claimable, failed) := hash_retain (fun payment_hash payment =>
    if bool_decide (length (payment_htlcs payment) = 0%nat) then (None, [])
    else
      let '(htlcs, mpp_timeout) := check_mpp_timeout (payment_htlcs payment) (payment_onion_fields payment) in
      if mpp_timeout
      then (None, map (fun h => FailHTLC [mpp_prev_hop (mpp_part h)] payment_hash mpp_timeout_reason false) htlcs)
      else (Some (mkClaimablePayment (purpose payment) (payment_onion_fields payment) htlcs), [])) (claimable_payments st) in
  let '(trampoline, trampoline_failed) := hash_retain (fun payment_hash payment =>
    if bool_decide (length (trampoline_htlcs payment) = 0%nat) then (None, [])
    else
      let '(htlcs, mpp_timeout) := check_mpp_timeout (trampoline_htlcs payment) (trampoline_onion_fields payment) in
      if mpp_timeout
      then (None, [FailHTLC (map mpp_prev_hop htlcs) payment_hash mpp_timeout_reason true])
      else (Some (mkTrampolinePayment (trampoline_onion_fields payment) htlcs), [])) (awaiting_trampoline_forwards st) in
  (mkReceiver claimable (pending_claiming_payments st) trampoline, failed ++ trampoline_failed).

(** The part of [do_chain_event] that is about received payments. *)
Definition chain_height (height : Z) (st : Receiver) : Receiver * list Effect :=
  let '(claimable, failed) := hash_retain (fun payment_hash payment =>
    let timed_out h := check_onchain_timeout (mpp_part h) height in
    let htlcs := List.filter (fun h => negb (timed_out h)) (payment_htlcs payment) in
    (if bool_decide (length htlcs = 0%nat) then None
     else Some (mkClaimablePayment (purpose payment) (payment_onion_fields payment) htlcs),
     map (fun h => FailHTLC [mpp_prev_hop (mpp_part h)] payment_hash
            (Reason PaymentClaimBuffer (invalid_payment_err_data (mpp_value (mpp_part h)) height)) false)
       (List.filter timed_out (payment_htlcs payment)))) (claimable_payments st) in
  let '(trampoline, trampoline_failed) := hash_retain (fun payment_hash payment =>
    if bool_decide (length (trampoline_htlcs payment) = 0%nat) then (None, [])
    else if existsb (fun h => check_onchain_timeout h height) (trampoline_htlcs payment)
    then (None, [FailHTLC (map mpp_prev_hop (trampoline_htlcs payment)) payment_hash (Reason CLTVExpiryTooSoon (to_be 2 0)) true])
    else (Some payment, [])) (awaiting_trampoline_forwards st) in
  (mkReceiver claimable (pending_claiming_payments st) trampoline, failed ++ trampoline_failed).

(** ** The user fails or claims a payment *)

Inductive FailureCode := CodeTemporaryNodeFailure | CodeRequiredNodeFeatureMissing | CodeIncorrectOrUnknownPaymentDetails
| CodeInvalidOnionPayload (data : option (Z * Z)).
Definition get_htlc_fail_reason_from_failure_code (node : Node) (failure_code : FailureCode) (htlc : ClaimableHTLC) : HTLCFailReason :=
  match failure_code with
  | CodeTemporaryNodeFailure => Reason TemporaryNodeFailure []
  | CodeRequiredNodeFeatureMissing => Reason RequiredNodeFeature []
  | CodeIncorrectOrUnknownPaymentDetails =>
      Reason IncorrectPaymentDetails (to_be 8 (mpp_value (mpp_part htlc)) ++ to_be 4 (node_height node))
  | CodeInvalidOnionPayload data =>
      Reason InvalidOnionPayload (match data with Some (typ, offset) => bigsize_write typ ++ to_be 2 offset | None => [] end)
  end.

Definition fail_all (node : Node) (code : FailureCode) (payment_hash : bytes) (htlcs : list ClaimableHTLC) : list Effect :=
  map (fun h => FailHTLC [mpp_prev_hop (mpp_part h)] payment_hash (get_htlc_fail_reason_from_failure_code node code h) false) htlcs.

Definition fail_htlc_backwards_with_reason (node : Node) (payment_hash : bytes) (failure_code : FailureCode) (st : Receiver)
    : Receiver * list Effect :=
  match claimable_payments st !! payment_hash with
  | None => (st, [])
  | Some payment =>
      (with_claimable (delete payment_hash (claimable_payments st)) st, fail_all node failure_code payment_hash (payment_htlcs payment))
  end.

(** [begin_claiming_payment]: the payment leaves [claimable_payments] for
    [pending_claiming_payments]; with even custom TLVs that are not known, it is given
    back to be failed. *)
Definition has_phantom (htlcs : list ClaimableHTLC) : bool :=
  existsb (fun h => is_some (prev_phantom_shared_secret (mpp_prev_hop (mpp_part h)))) htlcs.
Definition last_channel (htlcs : list ClaimableHTLC) : option (OutPoint * PublicKey * bytes) :=
  h ← last htlcs;
  let prev := mpp_prev_hop (mpp_part h) in
  node_id ← prev_counterparty_node_id prev;
  Some (prev_outpoint prev, node_id, prev_channel_id prev).
Definition begin_claiming_payment (node : Node) (payment_hash : bytes) (custom_tlvs_known : bool) (st : Receiver)
    : run (Receiver * result (list ClaimableHTLC) (list ClaimableHTLC * ClaimingPayment)) :=
  match claimable_payments st !! payment_hash with
  | None => mret (st, Err [])
  | Some payment =>
      let htlcs := payment_htlcs payment in
      let st := with_claimable (delete payment_hash (claimable_payments st)) st in
      receiver_node_id ← (if has_phantom htlcs then unwrap (phantom_pubkey node) else mret (our_network_pubkey node));
      if negb custom_tlvs_known && negb (bool_decide (even_tlvs (rof_custom_tlvs (payment_onion_fields payment)) = []))
      then mret (st, Err htlcs)
      else
        let payment_id := inbound_payment_id (inbound_payment_id_secret node) htlcs in
        let claiming_payment :=
          default (mkClaimingPayment (received_value htlcs) (purpose payment) receiver_node_id (map events_claimed_htlc htlcs)
                     (Some (total_mpp_amount_msat (payment_onion_fields payment))) (payment_onion_fields payment) (Some payment_id)
                     (last_channel htlcs))
            (pending_claiming_payments st !! payment_hash) in
        mret (with_claiming (<[payment_hash := claiming_payment]> (pending_claiming_payments st)) st, Ok (htlcs, claiming_payment))
  end.

(** The loop over the parts: the total they were announced with, what they carry, and
    whether they agree. *)
Fixpoint claimable_amount (expected_amt_msat : option Z) (claimable_amt_msat : Z) (sources : list ClaimableHTLC) : option Z * Z * bool :=
  match sources with
  | [] => (expected_amt_msat, claimable_amt_msat, true)
  | htlc :: sources =>
      let part := mpp_part htlc in
      if is_some expected_amt_msat && negb (bool_decide (expected_amt_msat = total_value_received part))
      then (expected_amt_msat, claimable_amt_msat, false)
      else claimable_amount (total_value_received part) (claimable_amt_msat + mpp_value part)%u64 sources
  end.

Definition mpp_claim_sources (sources : list ClaimableHTLC) : list (PublicKey * OutPoint * bytes * Z) :=
  omap (fun h => let prev := mpp_prev_hop (mpp_part h) in
                 (fun cp_id => (cp_id, prev_outpoint prev, prev_channel_id prev, prev_htlc_id prev)) <$> prev_counterparty_node_id prev)
    sources.
Definition claim_attribution_data (prev_hop : HTLCPreviousHopData) : AttributionData :=
  let attribution_data :=
    (fun phantom_secret => process_fulfill_attribution_data None phantom_secret 0) <$> prev_phantom_shared_secret prev_hop in
  process_fulfill_attribution_data attribution_data (prev_incoming_packet_shared_secret prev_hop) 0.

Definition claim_payment_internal (node : Node) (payment_preimage : bytes) (custom_tlvs_known : bool) (st : Receiver)
    : run (Receiver * list Effect) :=
  let payment_hash := sha256 payment_preimage in
  '(st, res) ← begin_claiming_payment node payment_hash custom_tlvs_known st;
  match res with
  | Err htlcs => mret (st, fail_all node (CodeInvalidOnionPayload None) payment_hash htlcs)
  | Ok (sources, claiming_payment) =>
      let given_up := with_claiming (delete payment_hash (pending_claiming_payments st)) st in
      let '(expected_amt_msat, claimable_amt_msat, valid_mpp) := claimable_amount None 0 sources in
      match expected_amt_msat with
      | None => mret (given_up, [])
      | Some expected =>
          if negb (claimable_amt_msat =? expected) then mret (given_up, [])
          else if valid_mpp then
            let mpp_parts := mpp_claim_sources sources in
            if (1 <? length sources)%nat && negb (forallb (fun h => is_some (prev_counterparty_node_id (mpp_prev_hop (mpp_part h)))) sources)
            then Panic
            else mret (st, map (fun h => ClaimHTLC (mpp_prev_hop (mpp_part h)) payment_preimage mpp_parts claiming_payment
                                           (claim_attribution_data (mpp_prev_hop (mpp_part h)))) sources)
          else
            mret (given_up, map (fun h => FailHTLC [mpp_prev_hop (mpp_part h)] payment_hash
                     (Reason IncorrectPaymentDetails (invalid_payment_err_data (mpp_value (mpp_part h)) (node_height node))) false) sources)
      end
  end.

(** The preimage is stored with a channel ([handle_monitor_update_completion_actions]):
    the claim is reported, unless the same event is still queued. *)
#[export] Instance RecipientOnionFields_eq : EqDecision RecipientOnionFields.
Proof. solve_decision. Defined.
#[export] Instance ClaimedHTLC_eq : EqDecision ClaimedHTLC.
Proof. solve_decision. Defined.
#[export] Instance ClaimingPayment_eq : EqDecision ClaimingPayment.
Proof. solve_decision. Defined.
Definition payment_claimed (payment_hash : bytes) (pending_events : list (bytes * ClaimingPayment)) (st : Receiver)
    : Receiver * list Effect :=
  match pending_claiming_payments st !! payment_hash with
  | None => (st, [])
  | Some claiming_payment =>
      (with_claiming (delete payment_hash (pending_claiming_payments st)) st,
       if bool_decide ((payment_hash, claiming_payment) ∈ pending_events) then [] else [PaymentClaimed payment_hash claiming_payment])
  end.

End claimable.
