(* ===== verification/ClaimableRuns.v ===== *)
(** * Payments received: every run

    The operations of Claimable.v in any order.  A payment is claimed whole: all the
    parts of the total its user was told of, each with a secret of ours, at once.  And no
    HTLC disappears: each is held, claimed or failed, or was part of an incomplete
    payment that the user claimed. *)

From Stdlib Require Import ZArith Lia Bool.
From stdpp Require Import strings gmap.
From S2P Require Import Prelude.
From S2P Require Import Keys.
From S2P Require Import Order.
From S2P Require Import Scripts.
From S2P Require Import Ser.
From S2P Require Import Onion.
From S2P Require Import PqKem.
From S2P Require Import Streams.
From S2P Require Import BlindedPath.
From S2P Require Import BlindedFees.
From S2P Require Import OnionPayload.
From S2P Require Import OnionRoute.
From S2P Require Import OnionFailure.
From S2P Require Import OnionReceive.
From S2P Require Import InboundPayment.
From S2P Require Import Claimable.

Local Open Scope Z_scope.

Section runs.
Context {bitcoin : Bitcoin} {crypto : OnionCrypto} {kem : Kem} {poly : Poly1305} {cipher : BlockCipher}.
Context {contexts : PaymentContexts} {invoice_requests : InvoiceRequests} {sources : Sources}.
Context {offer_contexts : OfferContexts} {hash_iter : HashIter}.

(** ** Steps *)

Inductive Op : Type :=
| OpReceive (node : Node) (payment : PendingAddHTLCInfo)
| OpTick
| OpHeight (height : Z)
| OpFail (node : Node) (payment_hash : bytes) (failure_code : FailureCode)
| OpClaim (node : Node) (payment_preimage : bytes) (custom_tlvs_known : bool)
| OpClaimed (payment_hash : bytes) (pending_events : list (bytes * ClaimingPayment)).

Definition apply_op (op : Op) (st : Receiver) : run (Receiver * list Effect) :=
  match op with
  | OpReceive node payment => receive_htlc node payment st
  | OpTick => mret (timer_tick_occurred st)
  | OpHeight height => mret (chain_height height st)
  | OpFail node payment_hash failure_code => mret (fail_htlc_backwards_with_reason node payment_hash failure_code st)
  | OpClaim node payment_preimage known => claim_payment_internal node payment_preimage known st
  | OpClaimed payment_hash pending_events => mret (payment_claimed payment_hash pending_events st)
  end.

Definition no_payments : Receiver := mkReceiver ∅ ∅ ∅.

Definition htlc_value (payment : PendingAddHTLCInfo) : Z :=
  default (outgoing_amt_msat (forward_info payment)) (incoming_amt_msat (forward_info payment)).

(** What the parts of one payment carry together. *)
Definition payment_value (payment_hash : bytes) (st : Receiver) : Z :=
  match claimable_payments st !! payment_hash with
  | Some payment => zsum (map (fun h => mpp_value (mpp_part h)) (payment_htlcs payment))
  | None => 0
  end.

(** HTLCs carry something, and there is no more than all the bitcoins in them. *)
Definition op_ok (op : Op) (st : Receiver) : Prop :=
  match op with
  | OpReceive _ payment =>
      0 < htlc_value payment /\
      payment_value (pending_payment_hash (forward_info payment)) st + htlc_value payment < 2 ^ 64 /\
      0 <= outgoing_amt_msat (forward_info payment) <= MAX_VALUE_MSAT
  | _ => True
  end.

(** A run, with the steps taken and what came of each. *)
Inductive reached : Receiver -> list (Op * list Effect) -> Prop :=
| reached_start : reached no_payments []
| reached_step st steps op st' effects :
    reached st steps -> op_ok op st -> apply_op op st = Return (st', effects) -> reached st' (steps ++ [(op, effects)]).

Definition effects_of (steps : list (Op * list Effect)) : list Effect := steps ≫= snd.

(** ** The parts of a payment *)

Definition part_value (h : ClaimableHTLC) : Z := mpp_value (mpp_part h).
Definition part_intended (h : ClaimableHTLC) : Z := sender_intended_value (mpp_part h).
Definition part_total (h : ClaimableHTLC) : option Z := total_value_received (mpp_part h).

(** A part as it arrived. *)
Definition bare (h : ClaimableHTLC) : ClaimableHTLC :=
  set_mpp_part (set_total_value_received None (set_timer_ticks 0 (mpp_part h))) h.

(** A part that the node took: an HTLC to us, with a secret of ours where it needs one, and
    the purpose of its payment. *)
Definition part_accepted (steps : list (Op * list Effect)) (payment_hash : bytes) (payment_purpose : PaymentPurpose) (h : ClaimableHTLC) : Prop :=
  exists node payment effects rx preimage fields,
    (OpReceive node payment, effects) ∈ steps /\
    pending_payment_hash (forward_info payment) = payment_hash /\
    received_htlc (routing (forward_info payment)) (outgoing_amt_msat (forward_info payment)) = Some rx /\
    check_payment_secret node payment_hash rx = Ok (preimage, fields) /\
    received_purpose node rx preimage = Return (Ok payment_purpose) /\
    bare h = mkClaimableHTLC
      (mkMppPart (htlc_previous_hop_data payment) (rx_cltv_expiry rx) (htlc_value payment) (outgoing_amt_msat (forward_info payment)) 0 None)
      (rx_payload rx) (pending_skimmed_fee_msat (forward_info payment)).

(** [announced] are parts of a set whose total the user was told. *)
Definition announced (steps : list (Op * list Effect)) (payment_hash : bytes) (payment : ClaimablePayment) (parts : list ClaimableHTLC) : Prop :=
  exists all receiver_node_id skimmed deadline fields payment_id,
    PaymentClaimable receiver_node_id payment_hash (purpose payment) (zsum (map part_value all)) skimmed (receiving_channel_ids all)
      deadline fields payment_id ∈ effects_of steps /\
    Forall (fun h => part_total h = Some (zsum (map part_value all))) parts /\
    map bare parts `sublist_of` all /\
    Forall (fun h => 0 < part_value h) all /\
    total_mpp_amount_msat (payment_onion_fields payment) <= zsum (map part_intended all).

Record payment_inv (steps : list (Op * list Effect)) (payment_hash : bytes) (payment : ClaimablePayment) : Prop := {
  inv_values : Forall (fun h => 0 < part_value h) (payment_htlcs payment);
  inv_value : zsum (map part_value (payment_htlcs payment)) < 2 ^ 64;
  inv_intended : Forall (fun h => 0 <= part_intended h <= MAX_VALUE_MSAT) (payment_htlcs payment);
  inv_accepted : Forall (part_accepted steps payment_hash (purpose payment)) (payment_htlcs payment);
  inv_announced : exists parts late,
    payment_htlcs payment = parts ++ late /\ Forall (fun h => part_total h = None) late /\
    (parts = [] \/ announced steps payment_hash payment parts);
}.

Definition receiver_inv (steps : list (Op * list Effect)) (st : Receiver) : Prop :=
  (forall payment_hash payment, claimable_payments st !! payment_hash = Some payment -> payment_inv steps payment_hash payment) /\
    (forall payment_hash, is_Some (pending_claiming_payments st !! payment_hash) -> claimable_payments st !! payment_hash = None).

Lemma effects_of_app steps steps' : effects_of (steps ++ steps') = effects_of steps ++ effects_of steps'.
Proof. apply bind_app. Qed.

Lemma payment_inv_more steps new payment_hash payment : payment_inv steps payment_hash payment -> payment_inv (steps ++ new) payment_hash payment.
Proof.
  intros [H1 H2 H3 H4 (parts & late & Hsplit & Hlate & Hann)]. split; [done..| |].
  - apply (Forall_impl _ _ _ H4). intros h (node & p & e & rx & pre & f & Hin & Hrest).
    exists node, p, e, rx, pre, f. split; [by apply elem_of_app; left|done].
  - exists parts, late. split_and!; [done..|]. destruct Hann as [Hn|(all & r & s & d & f & i & Hin & Hrest)]; [by left|right].
    exists all, r, s, d, f, i. split; [|done]. rewrite effects_of_app. by apply elem_of_app; left.
Qed.

(** The invariant depends on the parts as they arrived and on the totals set. *)
Definition seen (h : ClaimableHTLC) : ClaimableHTLC * option Z := (bare h, part_total h).

Lemma seen_Forall (P : ClaimableHTLC -> Prop) l l' :
  (forall h h', seen h = seen h' -> P h -> P h') -> map seen l' `sublist_of` map seen l -> Forall P l -> Forall P l'.
Proof.
  intros Hseen Hsub HP. apply Forall_forall. intros h' Hin.
  assert (seen h' ∈ map seen l) as Hin'.
  { eapply elem_of_sublist; [|exact Hsub]. by apply (list_elem_of_fmap_2 seen). }
  apply list_elem_of_fmap in Hin' as (h & Heq & Hh). rewrite Forall_forall in HP. eauto.
Qed.
Lemma seen_value h h' : seen h = seen h' -> part_value h = part_value h'.
Proof. intros Heq. apply (f_equal (part_value ∘ fst)) in Heq. exact Heq. Qed.
Lemma seen_intended h h' : seen h = seen h' -> part_intended h = part_intended h'.
Proof. intros Heq. apply (f_equal (part_intended ∘ fst)) in Heq. exact Heq. Qed.
Lemma seen_bare h h' : seen h = seen h' -> bare h = bare h'.
Proof. intros Heq. exact (f_equal fst Heq). Qed.
Lemma seen_total h h' : seen h = seen h' -> part_total h = part_total h'.
Proof. intros Heq. exact (f_equal snd Heq). Qed.
Lemma bare_value h : part_value (bare h) = part_value h.
Proof. done. Qed.

Lemma zsum_sublist l l' : Forall (fun x => 0 <= x) l -> l' `sublist_of` l -> zsum l' <= zsum l.
Proof.
  intros Hnn Hsub. induction Hsub as [|x l' l Hsub IH|x l' l Hsub IH]; cbn [zsum foldr]; [done| |];
    apply Forall_cons in Hnn as [? Hnn]; specialize (IH Hnn); unfold zsum in *; lia.
Qed.
Lemma sublist_whole (f : ClaimableHTLC -> Z) l l' :
  Forall (fun h => 0 < f h) l -> l' `sublist_of` l -> zsum (map f l') = zsum (map f l) -> l' = l.
Proof.
  intros Hpos Hsub. induction Hsub as [|x l' l Hsub IH|x l' l Hsub IH]; cbn [map zsum foldr]; [done| |];
    apply Forall_cons in Hpos as [? Hpos]; intros Heq.
  - f_equal. apply IH; [done|unfold zsum; lia].
  - exfalso. assert (zsum (map f l') <= zsum (map f l)); [|unfold zsum in *; lia].
    apply zsum_sublist; [|by apply (fmap_sublist f)]. apply Forall_map. eapply Forall_impl; [done|]. cbn. lia.
Qed.

Lemma payment_inv_seen steps payment_hash p fields htlcs :
  payment_inv steps payment_hash p -> map seen htlcs `sublist_of` map seen (payment_htlcs p) ->
  total_mpp_amount_msat fields = total_mpp_amount_msat (payment_onion_fields p) ->
  payment_inv steps payment_hash (mkClaimablePayment (purpose p) fields htlcs).
Proof.
  intros [H1 H2 H3 H4 (parts & late & Hsplit & Hlate & Hann)] Hsub Hfields. split; cbn.
  - eapply seen_Forall; [|done..]. intros ? ? Heq. by rewrite (seen_value _ _ Heq).
  - eapply Z.le_lt_trans; [|exact H2].
    replace (map part_value htlcs) with (map (part_value ∘ fst) (map seen htlcs)) by (by rewrite map_map).
    replace (map part_value (payment_htlcs p)) with (map (part_value ∘ fst) (map seen (payment_htlcs p))) by (by rewrite map_map).
    apply zsum_sublist; [|by apply (fmap_sublist (part_value ∘ fst))].
    rewrite map_map. apply Forall_map. eapply Forall_impl; [exact H1|]. cbn. unfold part_value. cbn. lia.
  - eapply seen_Forall; [|done..]. intros ? ? Heq. by rewrite (seen_intended _ _ Heq).
  - eapply seen_Forall; [|done..]. intros h h' Heq. unfold part_accepted. by rewrite (seen_bare _ _ Heq).
  - rewrite Hsplit, map_app in Hsub. apply sublist_app_r in Hsub as (v1 & v2 & Heq & Hs1 & Hs2).
    apply map_eq_app in Heq as (parts' & late' & -> & <- & <-).
    exists parts', late'. split_and!; [done| |].
    + eapply seen_Forall; [|done..]. intros ? ? Heq. by rewrite (seen_total _ _ Heq).
    + destruct Hann as [->|(all & r & s & d & f & i & Hin & Htot & Hb & Hrest)].
      * left. apply sublist_nil_r in Hs1. by destruct parts'.
      * right. exists all, r, s, d, f, i. cbn. rewrite Hfields. split_and!; [done| | |apply Hrest..].
        -- eapply seen_Forall; [|exact Hs1|exact Htot]. intros ? ? Heq. by rewrite (seen_total _ _ Heq).
        -- etrans; [|exact Hb]. apply (fmap_sublist fst) in Hs1. by rewrite <- !list_fmap_compose in Hs1.
Qed.

(** ** Each operation keeps the invariant *)

Lemma receiver_inv_more steps new st : receiver_inv steps st -> receiver_inv (steps ++ new) st.
Proof. intros [H1 H2]. split; [|done]. intros. apply payment_inv_more. by apply H1. Qed.

Lemma hash_retain_lookup {V} (f : bytes -> V -> option V * list Effect) m k :
  (hash_retain f m).1 !! k = m !! k ≫= fun v => (f k v).1.
Proof. unfold hash_retain. cbn. by rewrite map_lookup_imap. Qed.

(** A pass over the payments that keeps parts of some of them. *)
Lemma retain_inv steps st f trampoline :
  receiver_inv steps st ->
  (forall k p p', (f k p).1 = Some p' -> exists htlcs, p' = mkClaimablePayment (purpose p) (payment_onion_fields p) htlcs /\
                                          map seen htlcs `sublist_of` map seen (payment_htlcs p)) ->
  receiver_inv steps (mkReceiver (hash_retain f (claimable_payments st)).1 (pending_claiming_payments st) trampoline).
Proof.
  intros [H1 H2] Hf. split; cbn [claimable_payments pending_claiming_payments]; intros k.
  - intros p'. rewrite hash_retain_lookup. destruct (claimable_payments st !! k) as [p|] eqn:Hp; [|done]. cbn.
    intros Hsome. apply Hf in Hsome as (htlcs & -> & Hsub). apply payment_inv_seen; [by apply H1|done..].
  - intros Hk. rewrite hash_retain_lookup. by rewrite (H2 k Hk).
Qed.

Lemma delete_inv steps st k : receiver_inv steps st -> receiver_inv steps (with_claimable (delete k (claimable_payments st)) st).
Proof.
  intros [H1 H2]. split; cbn; intros k'.
  - intros p [_ Hp]%lookup_delete_Some. by apply H1.
  - intros Hk. apply lookup_delete_None. right. by apply H2.
Qed.

Lemma tick_inv steps st : receiver_inv steps st -> receiver_inv steps (timer_tick_occurred st).1.
Proof.
  intros Hinv. unfold timer_tick_occurred.
  destruct (hash_retain _ (claimable_payments st)) as [claimable failed] eqn:Hret.
  apply (f_equal fst) in Hret. cbn [fst] in Hret. subst claimable.
  destruct (hash_retain _ (awaiting_trampoline_forwards st)) as [tr tr_failed]. cbn [fst].
  apply retain_inv; [done|]. intros k p p'. case_bool_decide; [done|]. unfold check_mpp_timeout.
  destruct (if _ <=? _ then _ else _); [done|]. intros [= <-]. eexists. split; [done|].
  rewrite map_map. by rewrite (map_ext _ seen).
Qed.

Lemma filter_sublist_of {A} (f : A -> bool) l : List.filter f l `sublist_of` l.
Proof. induction l as [|x l IH]; cbn; [done|]. by destruct (f x); constructor. Qed.

Lemma height_inv steps st height : receiver_inv steps st -> receiver_inv steps (chain_height height st).1.
Proof.
  intros Hinv. unfold chain_height.
  destruct (hash_retain _ (claimable_payments st)) as [claimable failed] eqn:Hret.
  apply (f_equal fst) in Hret. cbn [fst] in Hret. subst claimable.
  destruct (hash_retain _ (awaiting_trampoline_forwards st)) as [tr tr_failed]. cbn [fst].
  apply retain_inv; [done|]. intros k p p'. cbn [fst]. case_bool_decide; [done|]. intros [= <-].
  eexists. split; [done|]. apply (fmap_sublist seen), filter_sublist_of.
Qed.

Lemma begin_claiming_inv steps node h known st st' res :
  receiver_inv steps st -> begin_claiming_payment node h known st = Return (st', res) ->
  receiver_inv steps st' /\ claimable_payments st' !! h = None.
Proof.
  intros Hinv. unfold begin_claiming_payment. destruct (claimable_payments st !! h) as [p|] eqn:Hp; [|by intros [= <- <-]].
  destruct (if has_phantom _ then _ else _) as [rcv|]; [|done]. cbn [mbind Prelude.run_bind].
  pose proof (delete_inv _ _ h Hinv) as Hdel.
  destruct (_ && _); intros [= <- _]; (split; [|cbn; apply lookup_delete_eq]); [done|].
  destruct Hdel as [H1 H2]. split; cbn; [done|]. intros k [x [[<- _]|[_ Hx]]%lookup_insert_Some]; [apply lookup_delete_eq|].
  apply (H2 k). cbn. by rewrite Hx.
Qed.

Lemma unclaim_inv steps st h : receiver_inv steps st -> receiver_inv steps (with_claiming (delete h (pending_claiming_payments st)) st).
Proof. intros [H1 H2]. split; cbn; [done|]. intros k [x [_ Hx]%lookup_delete_Some]. apply H2. by rewrite Hx. Qed.

Lemma claim_inv steps node pre known st st' effects :
  receiver_inv steps st -> claim_payment_internal node pre known st = Return (st', effects) -> receiver_inv steps st'.
Proof.
  intros Hinv. unfold claim_payment_internal.
  destruct (begin_claiming_payment node (sha256 pre) known st) as [[st1 res]|] eqn:Hb; [|done]. cbn [mbind Prelude.run_bind].
  apply (begin_claiming_inv steps) in Hb as [H1 _]; [|done].
  destruct res as [[srcs cp]|htlcs]; [|by intros [= <- _]].
  destruct (claimable_amount None 0 srcs) as [[[exp|] amt] valid]; [|intros [= <- _]; by apply unclaim_inv].
  destruct (negb (amt =? exp)); [intros [= <- _]; by apply unclaim_inv|].
  destruct valid; [|intros [= <- _]; by apply unclaim_inv].
  destruct (_ && _); [done|]. by intros [= <- _].
Qed.

(** *** A part arrives *)

Lemma check_merge_total a b c : check_merge a b = Ok c -> total_mpp_amount_msat c = total_mpp_amount_msat a.
Proof. unfold check_merge. repeat (case_match; [done|]). by intros [= <-]. Qed.

Lemma intended_total_exact l t :
  Forall (fun x => 0 <= x <= MAX_VALUE_MSAT) l -> 0 <= t <= MAX_VALUE_MSAT -> intended_total t l < MAX_VALUE_MSAT ->
  intended_total t l = t + zsum l.
Proof.
  intros Hl. revert t. induction Hl as [|x l Hx Hl IH]; intros t Ht; cbn [intended_total zsum foldr]; [lia|].
  assert (0 <= t + x < 2 ^ 64) as Hfit by (unfold MAX_VALUE_MSAT in *; lia).
  rewrite (wrapping_small 64 (t + x)) by exact Hfit.
  destruct (MAX_VALUE_MSAT <=? t + x) eqn:Hmax; [apply Z.leb_le in Hmax; lia|apply Z.leb_gt in Hmax].
  intros Hlt. rewrite IH; [unfold zsum; lia|lia|done].
Qed.

(** The set of parts, once it is complete: each with its total. *)
Definition completed (htlcs : list ClaimableHTLC) : list ClaimableHTLC :=
  sort_by (fun a b => mpp_cmp (mpp_part a) (mpp_part b))
    (map (fun h => set_mpp_part (set_total_value_received (Some (received_value htlcs)) (mpp_part h)) h) htlcs).

(** What becomes of the parts of a payment when a new one arrives. *)
Lemma check_incoming_mpp_part_cases (set : list ClaimableHTLC) fields new new_fields htlcs fields' res :
  check_incoming_mpp_part set fields new new_fields = (htlcs, fields', res) ->
  total_mpp_amount_msat fields' = total_mpp_amount_msat fields /\
  match res with
  | Err _ => htlcs = set
  | Ok false => htlcs = set ++ [new]
  | Ok true =>
      htlcs = completed (set ++ [new]) /\
      intended_total (part_intended new) (map part_intended set) < MAX_VALUE_MSAT /\
      total_mpp_amount_msat fields <= intended_total (part_intended new) (map part_intended set)
  end.
Proof.
  unfold check_incoming_mpp_part. destruct (check_merge fields new_fields) as [f|] eqn:Hm; [|by intros [= <- <- <-]].
  apply check_merge_total in Hm. cbn zeta.
  change (fun h : ClaimableHTLC => sender_intended_value (mpp_part h)) with part_intended.
  change (sender_intended_value (mpp_part new)) with (part_intended new).
  destruct (MAX_VALUE_MSAT <=? _) eqn:Hmax; [by intros [= <- <- <-]|apply Z.leb_gt in Hmax].
  destruct (_ <=? _); [by intros [= <- <- <-]|].
  destruct (_ <=? _) eqn:Hle; intros [= <- <- <-]; (split; [done|]); [|done].
  apply Z.leb_le in Hle. rewrite Hm in Hle. done.
Qed.

Lemma completed_perm htlcs : map bare (completed htlcs) ≡ₚ map bare htlcs.
Proof. unfold completed. rewrite sort_by_perm, map_map. by rewrite (map_ext _ bare). Qed.
Lemma completed_values htlcs : map part_value (completed htlcs) ≡ₚ map part_value htlcs.
Proof. unfold completed. rewrite sort_by_perm, map_map. by rewrite (map_ext _ part_value). Qed.
Lemma completed_intended htlcs : map part_intended (completed htlcs) ≡ₚ map part_intended htlcs.
Proof. unfold completed. rewrite sort_by_perm, map_map. by rewrite (map_ext _ part_intended). Qed.
Lemma completed_totals htlcs : Forall (fun h => part_total h = Some (received_value htlcs)) (completed htlcs).
Proof. unfold completed. rewrite sort_by_perm. apply Forall_map, Forall_true. done. Qed.
Lemma completed_Forall (P : ClaimableHTLC -> Prop) htlcs :
  (forall h h', bare h = bare h' -> P h -> P h') -> Forall P htlcs -> Forall P (completed htlcs).
Proof.
  intros HP Hall. unfold completed. rewrite sort_by_perm. apply Forall_map. eapply Forall_impl; [exact Hall|].
  intros h Hh. by apply (HP h).
Qed.
Lemma bare_fields h h' : bare h = bare h' -> part_value h = part_value h' /\ part_intended h = part_intended h'.
Proof. intros Heq. split; [exact (f_equal part_value Heq)|exact (f_equal part_intended Heq)]. Qed.

Definition new_part_ok (steps : list (Op * list Effect)) (payment_hash : bytes) (p : ClaimablePayment) (new : ClaimableHTLC) : Prop :=
  0 < part_value new /\ zsum (map part_value (payment_htlcs p)) + part_value new < 2 ^ 64 /\
  0 <= part_intended new <= MAX_VALUE_MSAT /\ part_total new = None /\ part_accepted steps payment_hash (purpose p) new.

(** The parts with the new one, but for the totals. *)
Lemma new_part_facts steps h p new :
  payment_inv steps h p -> new_part_ok steps h p new ->
  let htlcs := payment_htlcs p ++ [new] in
  Forall (fun h => 0 < part_value h) htlcs /\ zsum (map part_value htlcs) < 2 ^ 64 /\
  Forall (fun h => 0 <= part_intended h <= MAX_VALUE_MSAT) htlcs /\ Forall (part_accepted steps h (purpose p)) htlcs.
Proof.
  intros [H1 H2 H3 H4 _] (Hv & Hs & Hi & _ & Ha). cbn zeta. split_and!; try (apply Forall_app_2; [done|by apply Forall_singleton]).
  rewrite map_app, zsum_app. cbn [map zsum foldr]. lia.
Qed.

Lemma received_value_exact htlcs :
  Forall (fun h => 0 < part_value h) htlcs -> zsum (map part_value htlcs) < 2 ^ 64 -> received_value htlcs = zsum (map part_value htlcs).
Proof.
  intros Hpos Hlt. unfold received_value. change (fun h : ClaimableHTLC => mpp_value (mpp_part h)) with part_value.
  apply u64_sum_exact; [|done]. apply Forall_map. eapply Forall_impl; [exact Hpos|]. cbn. lia.
Qed.

Lemma completed_inv steps h p new fields rcv skimmed deadline payment_id efields :
  let htlcs := completed (payment_htlcs p ++ [new]) in
  payment_inv steps h p -> new_part_ok steps h p new ->
  intended_total (part_intended new) (map part_intended (payment_htlcs p)) < MAX_VALUE_MSAT ->
  total_mpp_amount_msat fields <= intended_total (part_intended new) (map part_intended (payment_htlcs p)) ->
  PaymentClaimable rcv h (purpose p) (received_value htlcs) skimmed (receiving_channel_ids htlcs) deadline efields payment_id
    ∈ effects_of steps ->
  payment_inv steps h (mkClaimablePayment (purpose p) fields htlcs).
Proof.
  intros htlcs Hinv Hnew Hlt Hle Hev. destruct (new_part_facts _ _ _ _ Hinv Hnew) as (Hpos & Hsum & Hint & Hacc).
  rewrite intended_total_exact in Hle; [|apply Forall_map, (inv_intended _ _ _ Hinv)|apply Hnew|done].
  assert (Forall (fun h => 0 < part_value h) htlcs) as Hpos'.
  { apply completed_Forall; [|done]. intros ? ? Heq. by destruct (bare_fields _ _ Heq) as [-> _]. }
  assert (zsum (map part_value htlcs) = zsum (map part_value (payment_htlcs p ++ [new]))) as Hsum'
    by apply zsum_perm, completed_values.
  split; cbn [payment_htlcs purpose payment_onion_fields].
  - done.
  - by rewrite Hsum'.
  - apply completed_Forall; [|done]. intros ? ? Heq. by destruct (bare_fields _ _ Heq) as [_ ->].
  - apply completed_Forall; [|done]. intros ? ? Heq. unfold part_accepted. by rewrite Heq.
  - exists htlcs, []. split_and!; [by rewrite app_nil_r|done|right].
    exists (map bare htlcs), rcv, skimmed, deadline, efields, payment_id.
    rewrite !map_map. change (fun x : ClaimableHTLC => part_value (bare x)) with part_value.
    change (fun x : ClaimableHTLC => part_intended (bare x)) with part_intended.
    replace (receiving_channel_ids (map bare htlcs)) with (receiving_channel_ids htlcs)
      by (unfold receiving_channel_ids; by rewrite map_map).
    rewrite received_value_exact in Hev by (done || by rewrite Hsum'). split_and!; [done| |done| |].
    + rewrite Hsum', <- received_value_exact by done. apply completed_totals.
    + apply Forall_map. exact Hpos'.
    + cbn [payment_onion_fields]. unfold htlcs. rewrite (zsum_perm _ _ (completed_intended _)), map_app, zsum_app. cbn [map zsum foldr]. lia.
Qed.

Lemma new_part_inv steps h p new new_fields htlcs fields res :
  payment_inv steps h p -> new_part_ok steps h p new ->
  check_incoming_mpp_part (payment_htlcs p) (payment_onion_fields p) new new_fields = (htlcs, fields, res) ->
  (res = Ok true -> exists rcv skimmed deadline efields payment_id,
     PaymentClaimable rcv h (purpose p) (received_value htlcs) skimmed (receiving_channel_ids htlcs) deadline efields payment_id
       ∈ effects_of steps) ->
  payment_inv steps h (mkClaimablePayment (purpose p) fields htlcs).
Proof.
  intros Hinv Hnew Hcheck Hev. apply check_incoming_mpp_part_cases in Hcheck as [Hf Hcase].
  destruct res as [[]|].
  - destruct Hcase as (-> & Hlt & Hle). destruct Hev as (rcv & s & d & ef & i & Hev); [done|].
    eapply completed_inv; [done..|by rewrite Hf|exact Hev].
  - subst htlcs. destruct (new_part_facts _ _ _ _ Hinv Hnew) as (Hpos & Hsum & Hint & Hacc). split; [done..|].
    destruct (inv_announced _ _ _ Hinv) as (parts & late & Hsplit & Hlate & Hann). exists parts, (late ++ [new]). cbn.
    split_and!; [by rewrite Hsplit, app_assoc|apply Forall_app_2; [done|apply Forall_singleton, Hnew]|].
    destruct Hann as [Hn|Hann]; [by left|right]. unfold announced in *. cbn. by rewrite Hf.
  - subst htlcs. by apply payment_inv_seen.
Qed.

Lemma empty_payment_inv steps h payment_purpose fields : payment_inv steps h (mkClaimablePayment payment_purpose fields []).
Proof. split; cbn; [constructor..|lia|constructor|constructor|]. exists [], []. split_and!; [done|constructor|by left]. Qed.

Lemma insert_inv steps st h p :
  receiver_inv steps st -> pending_claiming_payments st !! h = None -> payment_inv steps h p ->
  receiver_inv steps (with_claimable (<[h := p]> (claimable_payments st)) st).
Proof.
  intros [H1 H2] Hnone Hp. split; cbn; intros k.
  - intros p' [[<- <-]|[_ Hk]]%lookup_insert_Some; [done|by apply H1].
  - intros Hk. apply lookup_insert_None. split; [by apply H2|]. intros ->. destruct Hk. congruence.
Qed.

Lemma handle_claimable_inv steps node payment_purpose new fields h rcv st st' events res :
  receiver_inv steps st ->
  0 < part_value new -> payment_value h st + part_value new < 2 ^ 64 -> 0 <= part_intended new <= MAX_VALUE_MSAT ->
  part_total new = None -> part_accepted steps h payment_purpose new ->
  handle_claimable_htlc node payment_purpose new fields h rcv st = (st', events, res) -> events ⊆ effects_of steps ->
  receiver_inv steps st'.
Proof.
  intros Hinv Hpos Hsum Hint Htot Hacc. unfold handle_claimable_htlc.
  destruct (pending_claiming_payments st !! h) as [c|] eqn:Hc; [by intros [= <- _ _]|]. cbn [is_some].
  set (p := default _ _). assert (payment_inv steps h p) as Hp.
  { unfold p. destruct (claimable_payments st !! h) as [q|] eqn:Hq; cbn; [by apply Hinv|apply empty_payment_inv]. }
  assert (zsum (map part_value (payment_htlcs p)) + part_value new < 2 ^ 64) as Hs.
  { unfold p, payment_value in *. by destruct (claimable_payments st !! h). }
  case_bool_decide as Hpp; cbn [negb]; [|intros [= <- _ _] _; by apply insert_inv].
  assert (new_part_ok steps h p new) as Hnew by (unfold new_part_ok; split_and!; rewrite <- ?Hpp; done || lia).
  destruct (check_incoming_mpp_part _ _ _ _) as [[htlcs fs] r] eqn:Hcheck.
  intros Hres Hev. assert (st' = with_claimable (<[h := mkClaimablePayment (purpose p) fs htlcs]> (claimable_payments st)) st) as ->
    by (destruct r as [[]|]; by injection Hres).
  apply insert_inv; [done..|]. eapply new_part_inv; [done..|]. intros ->. injection Hres as <- _.
  do 5 eexists. apply Hev, list_elem_of_singleton. by rewrite Hpp.
Qed.

Lemma handle_trampoline_keeps node part fields h amt cltv st :
  claimable_payments (handle_trampoline_htlc node part fields h amt cltv st).1 = claimable_payments st /\
  pending_claiming_payments (handle_trampoline_htlc node part fields h amt cltv st).1 = pending_claiming_payments st.
Proof.
  unfold handle_trampoline_htlc. destruct (check_incoming_mpp_part _ _ _ _) as [[htlcs fs] [[]|]]; cbn zeta; [|done..].
  by repeat case_match.
Qed.

(** The part that [receive_htlc] makes of an HTLC to us. *)
Definition received_part (payment : PendingAddHTLCInfo) (rx : ReceivedHTLC) : ClaimableHTLC :=
  mkClaimableHTLC
    (mkMppPart (htlc_previous_hop_data payment) (rx_cltv_expiry rx) (htlc_value payment) (outgoing_amt_msat (forward_info payment)) 0 None)
    (rx_payload rx) (pending_skimmed_fee_msat (forward_info payment)).

(** What [receive_htlc] can come to: a trampoline forward, an HTLC failed, or a part. *)
Lemma receive_htlc_cases node payment st st' effects :
  receive_htlc node payment st = Return (st', effects) ->
  (exists part fields amt cltv failure,
     mpp_prev_hop part = htlc_previous_hop_data payment /\
     handle_trampoline_htlc node part fields (pending_payment_hash (forward_info payment)) amt cltv st = (st', failure) /\
     effects = match failure with
               | Some (source, reason) => [FailHTLC source (pending_payment_hash (forward_info payment)) reason true]
               | None => []
               end) \/
  (exists source reason, effects = [FailHTLC [source] (pending_payment_hash (forward_info payment)) reason false] /\ st' = st /\
     prev_channel_id source = add_prev_channel_id payment /\ prev_htlc_id source = add_prev_htlc_id payment) \/
  (exists rx preimage fields payment_purpose rcv events res,
     received_htlc (routing (forward_info payment)) (outgoing_amt_msat (forward_info payment)) = Some rx /\
     check_payment_secret node (pending_payment_hash (forward_info payment)) rx = Ok (preimage, fields) /\
     received_purpose node rx preimage = Return (Ok payment_purpose) /\
     handle_claimable_htlc node payment_purpose (received_part payment rx) fields (pending_payment_hash (forward_info payment)) rcv st
       = (st', events, res) /\
     exists source reason, effects = events ++ match res with
                                              | Ok _ => []
                                              | Err _ => [FailHTLC [source] (pending_payment_hash (forward_info payment)) reason false]
                                              end /\
     prev_channel_id source = add_prev_channel_id payment /\ prev_htlc_id source = add_prev_htlc_id payment).
Proof.
  unfold receive_htlc. cbn zeta.
  destruct (received_htlc _ _) as [rx|] eqn:Hrx.
  - set (src := mkPreviousHop _ _ _ _ _ _ _ _ _ _ _ _). set (why := Reason IncorrectPaymentDetails _).
    destruct (routing (forward_info payment)) eqn:Hr; try done.
    all: destruct (if is_some _ then _ else _) as [rcv|]; [|done]; cbn [mbind Prelude.run_bind].
    all: destruct (check_payment_secret _ _ rx) as [[pre fields]|] eqn:Hsec;
      [|intros [= <- <-]; right; left; by exists src, why].
    all: destruct (received_purpose node rx pre) as [[pp|]|] eqn:Hpp; cbn [mbind Prelude.run_bind];
      [|intros [= <- <-]; right; left; by exists src, why|done].
    all: destruct (handle_claimable_htlc _ _ _ _ _ _ _) as [[st1 ev] r] eqn:Hh; intros [= <- <-]; right; right.
    all: exists rx, pre, fields, pp, rcv, ev, r; split_and!; [done..|exact Hh|].
    all: exists src, why; split_and!; [destruct r; by rewrite ?app_nil_r|done..].
  - destruct (routing (forward_info payment)) eqn:Hr; try done.
    destruct (match blinded with Some _ => _ | None => _ end) as [[]|]; [|done]. cbn [mbind Prelude.run_bind].
    destruct (handle_trampoline_htlc _ _ _ _ _ _ _) as [st1 failure] eqn:Hh. intros [= <- <-]. left.
    do 5 eexists. split_and!; [|exact Hh|done]. done.
Qed.

Lemma receive_inv steps node payment st st' effects :
  receiver_inv steps st -> op_ok (OpReceive node payment) st -> receive_htlc node payment st = Return (st', effects) ->
  receiver_inv (steps ++ [(OpReceive node payment, effects)]) st'.
Proof.
  intros Hinv (Hpos & Hsum & Hint) Hrec. apply (receiver_inv_more _ [(OpReceive node payment, effects)]) in Hinv.
  apply receive_htlc_cases in Hrec
    as [(part & f & amt & cltv & failure & _ & Hh & _)|[(src & why & _ & -> & _)|
        (rx & pre & f & pp & rcv & ev & res & Hrx & Hsec & Hpp & Hh & src & why & Heff & _)]]; [|done|].
  - destruct (handle_trampoline_keeps node part f (pending_payment_hash (forward_info payment)) amt cltv st) as [H1 H2].
    rewrite Hh in H1, H2. cbn [fst] in H1, H2. destruct Hinv as [Ha Hb]. split; by rewrite H1, ?H2.
  - apply (handle_claimable_inv _ node pp (received_part payment rx) f _ rcv st st' ev res Hinv Hpos Hsum Hint eq_refl); [|exact Hh|].
    + exists node, payment, effects, rx, pre, f. split_and!; [|done..]. apply elem_of_app. right. by apply list_elem_of_singleton.
    + rewrite effects_of_app, Heff. intros x Hx. apply elem_of_app. right. cbn. rewrite app_nil_r. apply elem_of_app. by left.
Qed.

Lemma reached_inv st steps : reached st steps -> receiver_inv steps st.
Proof.
  induction 1 as [|st steps op st' effects _ IH Hok Hop]; [split; cbn; intros ?; [by rewrite lookup_empty|done]|].
  destruct op; cbn in Hop; [by eapply receive_inv|apply receiver_inv_more..].
  - apply (f_equal (fun r => match r with Return x => x.1 | Panic => st' end)) in Hop. cbn in Hop. subst st'. by apply tick_inv.
  - apply (f_equal (fun r => match r with Return x => x.1 | Panic => st' end)) in Hop. cbn in Hop. subst st'. by apply height_inv.
  - unfold fail_htlc_backwards_with_reason in Hop. case_match; injection Hop as <- _; [by apply delete_inv|done].
  - by eapply claim_inv.
  - unfold payment_claimed in Hop. case_match; injection Hop as <- _; [by apply unclaim_inv|done].
Qed.

(** ** A claim takes the whole payment *)

Lemma claimable_amount_some t a l e amt :
  claimable_amount (Some t) a l = (e, amt, true) ->
  Forall (fun h => part_total h = Some t) l /\ e = Some t /\ amt = foldl (fun acc x => (acc + x)%u64) a (map part_value l).
Proof.
  revert a. induction l as [|h l IH]; intros a; cbn; [by intros [= <- <-]|].
  case_bool_decide as Heq; cbn [negb andb is_some]; [|done]. rewrite <- Heq. intros (Hall & He & Ha)%IH. by split; [constructor|].
Qed.
Lemma claimable_amount_none a l : Forall (fun h => part_total h = None) l -> (claimable_amount None a l).1.1 = None.
Proof.
  intros Hl. revert a. induction Hl as [|h l Hh Hl IH]; intros a; cbn; [done|].
  change (total_value_received (claimable_mpp_part h)) with (part_total h). rewrite Hh. apply IH.
Qed.

Lemma claimable_amount_whole steps payment_hash payment t amt :
  payment_inv steps payment_hash payment -> claimable_amount None 0 (payment_htlcs payment) = (Some t, amt, true) -> amt = t ->
  announced steps payment_hash payment (payment_htlcs payment) /\ t = zsum (map part_value (payment_htlcs payment)).
Proof.
  intros [H1 H2 _ _ (parts & late & Hsplit & Hlate & Hann)] Hloop ->.
  destruct parts as [|h parts]; cbn in Hsplit.
  { apply (f_equal (fst ∘ fst)) in Hloop. cbn in Hloop. rewrite claimable_amount_none in Hloop; [done|by rewrite Hsplit]. }
  destruct Hann as [|Hann]; [done|]. pose proof Hann as (all & r & s & d & f & i & _ & Htot & _).
  apply Forall_cons in Htot as [Hh _]. rewrite Hsplit in Hloop. cbn in Hloop.
  change (total_value_received (claimable_mpp_part h)) with (part_total h) in Hloop. rewrite Hh in Hloop.
  apply claimable_amount_some in Hloop as (Hsome & Ht & Hamt). apply Forall_app in Hsome as [_ Hsome].
  destruct late as [|h' late]; [|apply Forall_cons in Hsome as [? _], Hlate as [? _]; congruence].
  rewrite app_nil_r in Hsplit, Hamt. rewrite <- Hsplit in Hann. split; [done|].
  rewrite <- u64_sum_exact; [by rewrite Hsplit|apply Forall_map; eapply Forall_impl; [exact H1|cbn; lia]|done].
Qed.

(** What a claim that succeeds has begun with. *)
Lemma begin_claiming_ok node h known st st' htlcs cp :
  pending_claiming_payments st !! h = None -> begin_claiming_payment node h known st = Return (st', Ok (htlcs, cp)) ->
  exists payment, claimable_payments st !! h = Some payment /\ payment_htlcs payment = htlcs /\
    claimable_payments st' !! h = None /\ pending_claiming_payments st' !! h = Some cp /\
    claiming_amount_msat cp = received_value htlcs /\ claiming_htlcs cp = map events_claimed_htlc htlcs.
Proof.
  intros Hnone. unfold begin_claiming_payment. destruct (claimable_payments st !! h) as [p|]; [|done].
  destruct (if has_phantom _ then _ else _) as [rcv|]; [|done]. cbn [mbind Prelude.run_bind].
  destruct (_ && _); [done|]. cbn. rewrite Hnone. intros [= <- <- <-]. exists p. cbn.
  split_and!; [done|done|apply lookup_delete_eq|apply lookup_insert_eq|done|done].
Qed.

Lemma claim_payment_claims node pre known st st' effects prev pre' mpp_parts cp attribution :
  claim_payment_internal node pre known st = Return (st', effects) -> ClaimHTLC prev pre' mpp_parts cp attribution ∈ effects ->
  exists htlcs t,
    begin_claiming_payment node (sha256 pre) known st = Return (st', Ok (htlcs, cp)) /\
    claimable_amount None 0 htlcs = (Some t, t, true) /\
    effects = map (fun h => ClaimHTLC (mpp_prev_hop (mpp_part h)) pre (mpp_claim_sources htlcs) cp
                              (claim_attribution_data (mpp_prev_hop (mpp_part h)))) htlcs.
Proof.
  unfold claim_payment_internal. destruct (begin_claiming_payment _ _ _ _) as [[st1 res]|]; [|done]. cbn [mbind Prelude.run_bind].
  destruct res as [[htlcs cp']|htlcs].
  2: { intros [= _ <-] Hin. unfold fail_all in Hin. by apply list_elem_of_fmap in Hin as (? & ? & _). }
  destruct (claimable_amount None 0 htlcs) as [[[exp|] amt] valid] eqn:Hloop; [|intros [= _ <-] Hin; by apply not_elem_of_nil in Hin].
  destruct (amt =? exp) eqn:Hamt; cbn [negb]; [|intros [= _ <-] Hin; by apply not_elem_of_nil in Hin].
  apply Z.eqb_eq in Hamt as ->. destruct valid; [|intros [= _ <-] Hin; by apply list_elem_of_fmap in Hin as (? & ? & _)].
  destruct (_ && _); [done|]. intros [= <- <-] Hin. exists htlcs, exp. pose proof Hin as Hin'.
  apply list_elem_of_fmap in Hin' as (x & [= _ _ _ -> _] & _). done.
Qed.

(** C5: a payment is claimed whole.  Along every run from an empty node, in which HTLCs
    carry something and no more than there is, when a call of the user claims any HTLC,
    it claims all the parts the node holds for that payment hash and nothing else; they
    are exactly the parts of a [PaymentClaimable] event that was given to the user, with
    its amount; the amounts that their sender intended make up the total the
    sender declared; each of them was received with this payment hash and purpose, its
    payment secret one of ours where one is required; and the payment has left the
    claimable ones, to be reported with the same amount and parts. *)
Theorem claimed_payment_whole st steps node pre known st' effects prev pre' mpp_parts cp attribution :
  reached st steps -> claim_payment_internal node pre known st = Return (st', effects) ->
  ClaimHTLC prev pre' mpp_parts cp attribution ∈ effects ->
  exists payment,
    let htlcs := payment_htlcs payment in
    claimable_payments st !! sha256 pre = Some payment /\
    effects = map (fun h => ClaimHTLC (mpp_prev_hop (mpp_part h)) pre (mpp_claim_sources htlcs) cp
                              (claim_attribution_data (mpp_prev_hop (mpp_part h)))) htlcs /\
    (exists receiver_node_id skimmed deadline fields payment_id,
       PaymentClaimable receiver_node_id (sha256 pre) (purpose payment) (zsum (map part_value htlcs)) skimmed
         (receiving_channel_ids htlcs) deadline fields payment_id ∈ effects_of steps) /\
    total_mpp_amount_msat (payment_onion_fields payment) <= zsum (map part_intended htlcs) /\
    Forall (part_accepted steps (sha256 pre) (purpose payment)) htlcs /\
    claimable_payments st' !! sha256 pre = None /\ pending_claiming_payments st' !! sha256 pre = Some cp /\
    claiming_amount_msat cp = zsum (map part_value htlcs) /\ claiming_htlcs cp = map events_claimed_htlc htlcs.
Proof.
  intros [Hinv Hdisj]%reached_inv Hclaim Hin.
  destruct (claim_payment_claims _ _ _ _ _ _ _ _ _ _ _ Hclaim Hin) as (htlcs & t & Hbegin & Hloop & Heff).
  assert (pending_claiming_payments st !! sha256 pre = None) as Hnone.
  { destruct (pending_claiming_payments st !! sha256 pre) eqn:Hp; [|done]. specialize (Hdisj (sha256 pre)). rewrite Hp in Hdisj.
    unfold begin_claiming_payment in Hbegin. by rewrite Hdisj in Hbegin. }
  apply begin_claiming_ok in Hbegin as (p & Hp & <- & Hgone & Hcp & Hcamt & Hchtlcs); [|done].
  apply Hinv in Hp as Hpinv. destruct (claimable_amount_whole _ _ _ _ _ Hpinv Hloop eq_refl) as [Hann ->].
  destruct Hann as (all & r & s & d & f & i & Hev & Htot & Hsub & Hpos & Hmpp).
  assert (zsum (map part_value (payment_htlcs p)) = zsum (map part_value all)) as Hval.
  { destruct (payment_htlcs p) as [|h l] eqn:Hl; [done|]. apply Forall_cons in Htot as [Hh _].
    cbn in Hloop. change (total_value_received (claimable_mpp_part h)) with (part_total h) in Hloop. rewrite Hh in Hloop.
    apply claimable_amount_some in Hloop as (_ & [= Heq] & _). exact Heq. }
  assert (map bare (payment_htlcs p) = all) as <-.
  { apply (sublist_whole part_value); [done..|]. by rewrite map_map. }
  rewrite !map_map in *. exists p. cbn zeta. split_and!; [done..| | | |done|done| |done].
  - exists r, s, d, f, i. rewrite Hval. unfold receiving_channel_ids in Hev. by rewrite map_map in Hev.
  - exact Hmpp.
  - apply Hpinv.
  - rewrite Hcamt. by apply received_value_exact; apply Hpinv.
Qed.

End runs.
