(* ===== verification/ClaimableAccounts.v ===== *)
(** * Payments received: no HTLC disappears

    Every HTLC that comes to the node is held, or has been claimed or failed once, over
    any sequence of the operations of Claimable.v.  The one exception is shown too: the
    parts of a payment that the user claims before it is complete. *)

From Stdlib Require Import ZArith Lia Bool.
From stdpp Require Import strings gmap.
From S2P Require Import Prelude.
From S2P Require Import Keys.
From S2P Require Import Order.
From S2P Require Import Scripts.
From S2P Require Import Ser.
From S2P Require Import Onion.
From S2P Require Import PqKem.
From S2P Require Import Streams.
From S2P Require Import BlindedPath.
From S2P Require Import BlindedFees.
From S2P Require Import OnionPayload.
From S2P Require Import OnionRoute.
From S2P Require Import OnionFailure.
From S2P Require Import OnionReceive.
From S2P Require Import InboundPayment.
From S2P Require Import Claimable.
From S2P Require Import ClaimableRuns.

Local Open Scope Z_scope.

Section conserved.
Context {bitcoin : Bitcoin} {crypto : OnionCrypto} {kem : Kem} {poly : Poly1305} {cipher : BlockCipher}.
Context {contexts : PaymentContexts} {invoice_requests : InvoiceRequests} {sources : Sources}.
Context {offer_contexts : OfferContexts} {hash_iter : HashIter} {hash_iter_laws : HashIterLaws}.

(** An HTLC is known by its channel and its number there. *)
Definition htlc_key (prev : HTLCPreviousHopData) : bytes * Z := (prev_channel_id prev, prev_htlc_id prev).
Definition part_keys {H} `{!HasMppPart H} (htlcs : list H) : list (bytes * Z) := map (fun h => htlc_key (mpp_prev_hop (mpp_part h))) htlcs.
Definition payment_keys (p : ClaimablePayment) : list (bytes * Z) := part_keys (payment_htlcs p).
Definition trampoline_keys (p : TrampolinePayment) : list (bytes * Z) := part_keys (trampoline_htlcs p).

(** The HTLCs that wait at the node. *)
Definition held_in {V} (keys : V -> list (bytes * Z)) (m : gmap bytes V) : list (bytes * Z) := map_to_list m ≫= fun kv => keys kv.2.
Definition held (st : Receiver) : list (bytes * Z) :=
  held_in payment_keys (claimable_payments st) ++ held_in trampoline_keys (awaiting_trampoline_forwards st).

(** Those that an effect fails or claims, and those that come and go with an operation. *)
Definition settled (e : Effect) : list (bytes * Z) :=
  match e with
  | FailHTLC source _ _ _ => map htlc_key source
  | ClaimHTLC prev _ _ _ _ => [htlc_key prev]
  | _ => []
  end.
Definition arrived (op : Op) : list (bytes * Z) :=
  match op with OpReceive _ payment => [(add_prev_channel_id payment, add_prev_htlc_id payment)] | _ => [] end.
Definition abandoned (op : Op) (st : Receiver) (effects : list Effect) : list (bytes * Z) :=
  match op, effects with
  | OpClaim _ pre _, [] => default [] (payment_keys <$> claimable_payments st !! sha256 pre)
  | _, _ => []
  end.

(** Operations one after the other: the effects, and what was abandoned. *)
Fixpoint run_ops (ops : list Op) (st : Receiver) : run (Receiver * list Effect * list (bytes * Z)) :=
  match ops with
  | [] => mret (st, [], [])
  | op :: ops =>
      '(st', effects) ← apply_op op st;
      '(st'', later, lost) ← run_ops ops st';
      mret (st'', effects ++ later, abandoned op st effects ++ lost)
  end.

(** ** Maps *)

Lemma held_in_insert {V} (keys : V -> list (bytes * Z)) m k v :
  m !! k = None -> held_in keys (<[k := v]> m) ≡ₚ keys v ++ held_in keys m.
Proof. intros Hk. unfold held_in. by rewrite map_to_list_insert. Qed.
Lemma held_in_delete {V} (keys : V -> list (bytes * Z)) m k :
  held_in keys m ≡ₚ default [] (keys <$> m !! k) ++ held_in keys (delete k m).
Proof.
  destruct (m !! k) as [v|] eqn:Hk; cbn; [|by rewrite delete_id].
  rewrite <- held_in_insert by apply lookup_delete_eq. by rewrite insert_delete_id.
Qed.
Lemma held_in_put {V} (keys : V -> list (bytes * Z)) m k v :
  default [] (keys <$> m !! k) ++ held_in keys (<[k := v]> m) ≡ₚ keys v ++ held_in keys m.
Proof.
  rewrite (held_in_delete keys m k), <- insert_delete_eq, held_in_insert by apply lookup_delete_eq. by rewrite Permutation_app_swap_app.
Qed.

Lemma bind_app_perm {A B} (f g : A -> list B) l : l ≫= (fun x => f x ++ g x) ≡ₚ (l ≫= f) ++ (l ≫= g).
Proof. induction l as [|x l IH]; cbn; [done|]. rewrite IH. by rewrite <- !app_assoc, (Permutation_app_swap_app (g x)). Qed.
Lemma bind_ext_perm {A B} (f g : A -> list B) l : (forall x, f x ≡ₚ g x) -> l ≫= f ≡ₚ l ≫= g.
Proof. intros Hfg. induction l as [|x l IH]; cbn; [done|]. by rewrite Hfg, IH. Qed.

Lemma held_in_imap {V} (keys : V -> list (bytes * Z)) (f : bytes -> V -> option V) m :
  held_in keys (map_imap f m) ≡ₚ map_to_list m ≫= fun kv => default [] (keys <$> f kv.1 kv.2).
Proof.
  induction m as [|k v m Hk IH] using map_ind; [by rewrite map_imap_empty|].
  rewrite map_imap_insert, (map_to_list_insert m k v Hk). cbn. rewrite <- IH.
  assert (map_imap f m !! k = None) as Hk' by (by rewrite map_lookup_imap, Hk).
  destruct (f k v); cbn; [by rewrite held_in_insert|by rewrite delete_id].
Qed.

(** A pass over a map of payments. *)
Lemma hash_retain_conserves {V} (keys : V -> list (bytes * Z)) f m :
  (forall k v, keys v ≡ₚ default [] (keys <$> (f k v).1) ++ ((f k v).2 ≫= settled)) ->
  held_in keys m ≡ₚ held_in keys (hash_retain f m).1 ++ ((hash_retain f m).2 ≫= settled).
Proof.
  intros Hf. cbn [hash_retain fst snd]. rewrite held_in_imap.
  assert (mjoin (map (fun '(k, v) => (f k v).2) (hash_entries m)) ≫= settled ≡ₚ
          map_to_list m ≫= fun kv => (f kv.1 kv.2).2 ≫= settled) as ->.
  { rewrite <- (hash_entries_perm m). induction (hash_entries m) as [|[k v] l IH]; cbn; [done|]. by rewrite bind_app, IH. }
  rewrite <- bind_app_perm. apply bind_ext_perm. intros [k v]. apply Hf.
Qed.

Lemma fail_each_settles {H} `{!HasMppPart H} (h : bytes) (why : H -> HTLCFailReason) (htlcs : list H) :
  map (fun x => FailHTLC [mpp_prev_hop (mpp_part x)] h (why x) false) htlcs ≫= settled = part_keys htlcs.
Proof. induction htlcs as [|x l IH]; cbn; [done|]. by rewrite IH. Qed.

(** ** Each operation *)

Lemma check_mpp_timeout_keys {H} `{!HasMppPart H} (htlcs : list H) fields :
  (forall p (h : H), mpp_part (set_mpp_part p h) = p) -> part_keys (check_mpp_timeout htlcs fields).1 = part_keys htlcs.
Proof. intros Hset. cbn. unfold part_keys. rewrite map_map. apply map_ext. intros h. by rewrite Hset. Qed.

Lemma two_passes st pending f g :
  (forall k v, payment_keys v ≡ₚ default [] (payment_keys <$> (f k v).1) ++ ((f k v).2 ≫= settled)) ->
  (forall k v, trampoline_keys v ≡ₚ default [] (trampoline_keys <$> (g k v).1) ++ ((g k v).2 ≫= settled)) ->
  let rf := hash_retain f (claimable_payments st) in
  let rg := hash_retain g (awaiting_trampoline_forwards st) in
  held st ≡ₚ held (mkReceiver rf.1 pending rg.1) ++ ((rf.2 ++ rg.2) ≫= settled).
Proof.
  intros Hf Hg rf rg. unfold held. cbn [claimable_payments awaiting_trampoline_forwards].
  rewrite bind_app, <- app_assoc, (Permutation_app_swap_app (held_in trampoline_keys _)), app_assoc.
  by f_equiv; apply hash_retain_conserves.
Qed.

Ltac passes st :=
  rewrite (surjective_pairing (hash_retain _ (claimable_payments st))),
    (surjective_pairing (hash_retain _ (awaiting_trampoline_forwards st)));
  apply two_passes; intros k v.
Ltac no_parts Hlen := apply length_zero_iff_nil in Hlen; unfold payment_keys, trampoline_keys; by rewrite Hlen.

Lemma tick_conserves st : held st ≡ₚ held (timer_tick_occurred st).1 ++ ((timer_tick_occurred st).2 ≫= settled).
Proof.
  unfold timer_tick_occurred. passes st; (case_bool_decide as Hlen; [no_parts Hlen|]).
  all: destruct (check_mpp_timeout _ _) as [htlcs []] eqn:Hc; apply (f_equal (part_keys ∘ fst)) in Hc; cbn [compose fst] in Hc;
    rewrite check_mpp_timeout_keys in Hc by done; cbn [fst snd fmap option_fmap option_map default];
    unfold payment_keys, trampoline_keys; rewrite Hc.
  - by rewrite fail_each_settles.
  - cbn. by rewrite app_nil_r.
  - cbn. rewrite app_nil_r. unfold part_keys. by rewrite map_map.
  - cbn. by rewrite app_nil_r.
Qed.

Lemma part_keys_filter {H} `{!HasMppPart H} (f : H -> bool) htlcs :
  part_keys htlcs ≡ₚ part_keys (List.filter (fun h => negb (f h)) htlcs) ++ part_keys (List.filter f htlcs).
Proof.
  induction htlcs as [|h l IH]; cbn; [done|]. unfold part_keys in *. rewrite IH. destruct (f h); cbn; [|done].
  by rewrite Permutation_middle.
Qed.

Lemma height_conserves st height : held st ≡ₚ held (chain_height height st).1 ++ ((chain_height height st).2 ≫= settled).
Proof.
  unfold chain_height. passes st.
  - cbn [fst snd]. rewrite fail_each_settles. unfold payment_keys at 1.
    rewrite (part_keys_filter (fun h => check_onchain_timeout (mpp_part h) height)). f_equiv.
    case_bool_decide as Hlen; [|done]. apply length_zero_iff_nil in Hlen. by rewrite Hlen.
  - case_bool_decide as Hlen; [no_parts Hlen|]. destruct (existsb _ _); cbn; rewrite app_nil_r; [|done].
    unfold trampoline_keys, part_keys. by rewrite map_map.
Qed.

Lemma held_put_claimable st h p : 
  default [] (payment_keys <$> claimable_payments st !! h) ++ held (with_claimable (<[h := p]> (claimable_payments st)) st) ≡ₚ
  payment_keys p ++ held st.
Proof. unfold held. cbn. by rewrite !app_assoc, held_in_put. Qed.
Lemma held_delete_claimable st h :
  held st ≡ₚ default [] (payment_keys <$> claimable_payments st !! h) ++ held (with_claimable (delete h (claimable_payments st)) st).
Proof. unfold held. cbn. by rewrite (held_in_delete _ _ h), app_assoc. Qed.
Lemma held_with_claiming st m : held (with_claiming m st) = held st.
Proof. done. Qed.

Lemma fail_conserves node h code st :
  held st ≡ₚ held (fail_htlc_backwards_with_reason node h code st).1 ++ ((fail_htlc_backwards_with_reason node h code st).2 ≫= settled).
Proof.
  unfold fail_htlc_backwards_with_reason. destruct (claimable_payments st !! h) as [p|] eqn:Hp; cbn [fst snd];
    [|cbn; by rewrite app_nil_r].
  rewrite (held_delete_claimable st h), Hp. unfold fail_all. rewrite fail_each_settles. by rewrite Permutation_app_comm.
Qed.

(** What a claim does with the parts of its payment. *)
Lemma begin_claiming_held node h known st st' res :
  begin_claiming_payment node h known st = Return (st', res) ->
  held st ≡ₚ part_keys (match res with Ok (htlcs, _) => htlcs | Err htlcs => htlcs end) ++ held st' /\
  default [] (payment_keys <$> claimable_payments st !! h) = part_keys (match res with Ok (htlcs, _) => htlcs | Err htlcs => htlcs end).
Proof.
  unfold begin_claiming_payment. pose proof (held_delete_claimable st h) as Hheld.
  destruct (claimable_payments st !! h) as [p|]; [|intros [= <- <-]; done].
  destruct (if has_phantom _ then _ else _) as [rcv|]; [|done]. cbn [mbind Prelude.run_bind].
  destruct (_ && _); intros [= <- <-]; done.
Qed.

Lemma claim_conserves node pre known st st' effects :
  claim_payment_internal node pre known st = Return (st', effects) ->
  held st ≡ₚ held st' ++ (effects ≫= settled) ++ abandoned (OpClaim node pre known) st effects.
Proof.
  unfold claim_payment_internal. destruct (begin_claiming_payment _ _ _ _) as [[st1 res]|] eqn:Hb; [|done]. cbn [mbind Prelude.run_bind].
  apply begin_claiming_held in Hb as [Hheld Hp]. cbn [abandoned]. rewrite Hp.
  assert (forall effs htlcs, effs ≫= settled = part_keys htlcs -> held st ≡ₚ part_keys htlcs ++ held st1 ->
            held st ≡ₚ held st1 ++ (effs ≫= settled) ++ match effs with [] => part_keys htlcs | _ => [] end) as Hdone.
  { intros effs htlcs Heffs ->. rewrite Heffs. destruct effs; [cbn in Heffs; rewrite <- Heffs; cbn; by rewrite app_nil_r|].
    by rewrite app_nil_r, Permutation_app_comm. }
  destruct res as [[htlcs cp]|htlcs].
  2: { intros [= <- <-]. apply Hdone; [apply fail_each_settles|done]. }
  destruct (claimable_amount None 0 htlcs) as [[[exp|] amt] valid].
  2: { intros [= <- <-]. cbn. by rewrite held_with_claiming, Hheld, Permutation_app_comm. }
  destruct (negb (amt =? exp)); [intros [= <- <-]; cbn; by rewrite held_with_claiming, Hheld, Permutation_app_comm|].
  destruct valid.
  - destruct (_ && _); [done|]. intros [= <- <-]. apply Hdone; [|done]. generalize (mpp_claim_sources htlcs). intros parts. clear.
    induction htlcs as [|h l IH]; cbn; [done|]. by rewrite IH.
  - intros [= <- <-]. rewrite held_with_claiming. apply Hdone; [exact (fail_each_settles (H := ClaimableHTLC) _ _ _)|done].
Qed.

(** A part that arrives joins the others, or does not. *)
Lemma check_incoming_mpp_part_keys {H} `{!HasMppPart H} (set : list H) fields new new_fields htlcs fields' res :
  (forall p (h : H), mpp_part (set_mpp_part p h) = p) ->
  check_incoming_mpp_part set fields new new_fields = (htlcs, fields', res) ->
  part_keys htlcs ≡ₚ match res with Ok _ => htlc_key (mpp_prev_hop (mpp_part new)) :: part_keys set | Err _ => part_keys set end.
Proof.
  intros Hset. unfold check_incoming_mpp_part. destruct (check_merge _ _); [|by intros [= <- _ <-]].
  destruct (_ <=? _); [by intros [= <- _ <-]|]. destruct (_ <=? _); [by intros [= <- _ <-]|].
  assert (part_keys (set ++ [new]) ≡ₚ htlc_key (mpp_prev_hop (mpp_part new)) :: part_keys set) as Hnew.
  { unfold part_keys. rewrite map_app. by rewrite Permutation_app_comm. }
  destruct (_ <=? _); intros [= <- _ <-]; [|done]. rewrite <- Hnew. unfold part_keys. rewrite sort_by_perm, map_map.
  erewrite map_ext; [done|]. intros h. cbn. by rewrite Hset.
Qed.

Lemma handle_claimable_conserves node pp new fields h rcv st st' events res :
  handle_claimable_htlc node pp new fields h rcv st = (st', events, res) ->
  events ≫= settled = [] /\
  held st' ≡ₚ match res with Ok _ => [htlc_key (mpp_prev_hop (mpp_part new))] | Err _ => [] end ++ held st.
Proof.
  unfold handle_claimable_htlc. destruct (is_some _); [by intros [= <- <- <-]|]. set (p := default _ _).
  assert (default [] (payment_keys <$> claimable_payments st !! h) = payment_keys p) as Hp
    by (unfold p; by destruct (claimable_payments st !! h)).
  pose proof (held_put_claimable st h) as Hput. rewrite Hp in Hput.
  destruct (negb _); [intros [= <- <- <-]; split; [done|]; by apply (Permutation_app_inv_l (payment_keys p))|].
  destruct (check_incoming_mpp_part _ _ _ _) as [[htlcs fs] r] eqn:Hc. apply check_incoming_mpp_part_keys in Hc; [|done].
  intros Hres. assert (st' = with_claimable (<[h := mkClaimablePayment (purpose p) fs htlcs]> (claimable_payments st)) st) as ->
    by (destruct r as [[]|]; by injection Hres).
  split; [destruct r as [[]|]; by injection Hres as <- _|]. apply (Permutation_app_inv_l (payment_keys p)). rewrite Hput.
  unfold payment_keys at 1. cbn [payment_htlcs]. rewrite Hc.
  destruct r as [[]|]; injection Hres as _ <-; unfold payment_keys; cbn [app]; by rewrite ?Permutation_middle.
Qed.

Lemma handle_trampoline_conserves node part fields h amt cltv st st' failure :
  handle_trampoline_htlc node part fields h amt cltv st = (st', failure) ->
  htlc_key (mpp_prev_hop part) :: held st ≡ₚ held st' ++ match failure with Some (source, _) => map htlc_key source | None => [] end.
Proof.
  unfold handle_trampoline_htlc. set (p := default _ _).
  assert (default [] (trampoline_keys <$> awaiting_trampoline_forwards st !! h) = trampoline_keys p) as Hp
    by (unfold p; by destruct (awaiting_trampoline_forwards st !! h)).
  assert (forall q, trampoline_keys p ++ held (with_trampoline (<[h := q]> (awaiting_trampoline_forwards st)) st) ≡ₚ
                    trampoline_keys q ++ held st) as Hput.
  { intros q. unfold held. cbn. rewrite <- Hp, !(Permutation_app_swap_app _ (held_in payment_keys _)). by rewrite held_in_put. }
  assert (held st ≡ₚ trampoline_keys p ++ held (with_trampoline (delete h (awaiting_trampoline_forwards st)) st)) as Hdel.
  { unfold held. cbn. rewrite <- Hp, (Permutation_app_swap_app _ (held_in payment_keys _)). by rewrite <- held_in_delete. }
  destruct (check_incoming_mpp_part _ _ _ _) as [[htlcs fs] r] eqn:Hc. apply check_incoming_mpp_part_keys in Hc; [|done].
  destruct r as [[]|].
  - assert (htlc_key (mpp_prev_hop part) :: held st ≡ₚ
            held (with_trampoline (delete h (awaiting_trampoline_forwards st)) st) ++ map htlc_key (map mpp_prev_hop htlcs)) as Hall.
    { rewrite map_map. change (map _ htlcs) with (part_keys htlcs). rewrite Hc, Hdel. unfold trampoline_keys. cbn.
      by rewrite <- Permutation_middle, (Permutation_app_comm (held _)). }
    cbn zeta. repeat case_match; intros [= <- <-]; exact Hall.
  - intros [= <- <-]. rewrite app_nil_r. apply (Permutation_app_inv_l (trampoline_keys p)). rewrite Hput.
    unfold trampoline_keys at 2. cbn [trampoline_htlcs]. rewrite Hc. unfold trampoline_keys. cbn. by rewrite Permutation_middle.
  - intros [= <- <-]. rewrite Permutation_app_comm. cbn. f_equiv. apply (Permutation_app_inv_l (trampoline_keys p)). rewrite Hput.
    unfold trampoline_keys at 2. cbn [trampoline_htlcs]. by rewrite Hc.
Qed.

Lemma receive_conserves node payment st st' effects :
  receive_htlc node payment st = Return (st', effects) ->
  (add_prev_channel_id payment, add_prev_htlc_id payment) :: held st ≡ₚ held st' ++ (effects ≫= settled).
Proof.
  intros Hrec. apply receive_htlc_cases in Hrec
    as [(part & f & amt & cltv & failure & Hprev & Hh & ->)|[(src & why & -> & -> & Hc & Hi)|
        (rx & pre & f & pp & rcv & ev & res & _ & _ & _ & Hh & src & why & -> & Hc & Hi)]].
  - apply handle_trampoline_conserves in Hh. rewrite Hprev in Hh. change (htlc_key _) with (add_prev_channel_id payment, add_prev_htlc_id payment) in Hh.
    rewrite Hh. destruct failure as [[src why]|]; cbn; by rewrite ?app_nil_r.
  - cbn. unfold htlc_key. rewrite Hc, Hi. by rewrite Permutation_app_comm.
  - apply handle_claimable_conserves in Hh as [Hev Hh]. rewrite bind_app, Hev, Hh. destruct res; cbn.
    + by rewrite app_nil_r.
    + unfold htlc_key. rewrite Hc, Hi. by rewrite Permutation_app_comm.
Qed.

Lemma return_inj {A} (x y : A) : mret x = Return y -> x = y.
Proof. by intros [= ->]. Qed.

Lemma apply_op_conserves op st st' effects :
  apply_op op st = Return (st', effects) ->
  arrived op ++ held st ≡ₚ held st' ++ (effects ≫= settled) ++ abandoned op st effects.
Proof.
  destruct op; cbn [apply_op arrived app].
  - intros Hop. cbn [abandoned]. rewrite app_nil_r. by eapply receive_conserves.
  - intros Hop. cbn [abandoned]. rewrite app_nil_r. apply return_inj in Hop.
    pose proof (tick_conserves st) as Hc. by rewrite Hop in Hc.
  - intros Hop. cbn [abandoned]. rewrite app_nil_r. apply return_inj in Hop.
    pose proof (height_conserves st height) as Hc. by rewrite Hop in Hc.
  - intros Hop. cbn [abandoned]. rewrite app_nil_r. apply return_inj in Hop.
    pose proof (fail_conserves node payment_hash failure_code st) as Hc. by rewrite Hop in Hc.
  - apply claim_conserves.
  - intros Hop. cbn [abandoned]. rewrite app_nil_r. unfold payment_claimed in Hop.
    destruct (pending_claiming_payments st !! payment_hash); injection Hop as <- <-; [|cbn; by rewrite app_nil_r].
    case_bool_decide; cbn; by rewrite app_nil_r.
Qed.


End conserved.
