(* ===== verification/InvoiceClaim.v ===== *)
(** * An invoice is paid and claimed

    From the creation of a payment to its claim: when HTLCs arrive that carry the secret
    of the invoice and together what their sender declared, the user is told once, and
    with the preimage claims each of them. *)

From Stdlib Require Import ZArith Lia Bool.
From stdpp Require Import strings gmap.
From S2P Require Import Prelude.
From S2P Require Import Keys.
From S2P Require Import Order.
From S2P Require Import Scripts.
From S2P Require Import Ser.
From S2P Require Import Onion.
From S2P Require Import PqKem.
From S2P Require Import Streams.
From S2P Require Import BlindedPath.
From S2P Require Import BlindedFees.
From S2P Require Import OnionPayload.
From S2P Require Import OnionRoute.
From S2P Require Import OnionFailure.
From S2P Require Import OnionReceive.
From S2P Require Import InboundPayment.
From S2P Require Import Claimable.
From S2P Require Import ClaimableRuns.
From S2P Require Import ClaimableAccounts.

Local Open Scope Z_scope.

Section invoice.
Context {bitcoin : Bitcoin} {crypto : OnionCrypto} {kem : Kem} {poly : Poly1305} {cipher : BlockCipher}.
Context {contexts : PaymentContexts} {invoice_requests : InvoiceRequests} {sources : Sources}.
Context {offer_contexts : OfferContexts} {hash_iter : HashIter}.

(** An HTLC that pays a part of an invoice: the secret and the declared total in its
    payload, and enough blocks left. *)
Definition invoice_part (node : Node) (hash secret : bytes) (enc : option bytes) (total : Z) (delta : option Z)
    (p : PendingAddHTLCInfo) : Prop :=
  pending_payment_hash (forward_info p) = hash /\ 0 < htlc_value p /\ 0 < outgoing_amt_msat (forward_info p) /\
  exists cltv, routing (forward_info p) = RoutingReceive (mkFinalOnionHopData secret total) enc None cltv None None [] false /\
    forall d, delta = Some d -> wrapping 32 (node_height node + d) <= cltv.

Section parts.
Variables (node : Node) (hash secret preimage : bytes) (enc metadata : option bytes) (total : Z) (delta : option Z).
Hypothesis Hverify : payment_verify hash (mkFinalOnionHopData secret total) enc (highest_seen_timestamp node)
  (inbound_payment_key node) = Ok (Some preimage, delta, metadata).
Hypothesis Htotal : total < MAX_VALUE_MSAT.

Definition invoice_fields : RecipientOnionFields := mkRecipientOnionFields (Some secret) metadata [] total.
Definition invoice_purpose : PaymentPurpose := Bolt11InvoicePayment (Some preimage) secret.
Definition part_of_invoice (p : PendingAddHTLCInfo) : ClaimableHTLC :=
  match received_htlc (routing (forward_info p)) (outgoing_amt_msat (forward_info p)) with
  | Some rx => received_part p rx
  | None => mkClaimableHTLC (mkMppPart (htlc_previous_hop_data p) 0 (htlc_value p) (outgoing_amt_msat (forward_info p)) 0 None)
              (PayloadInvoice None) None
  end.
Lemma part_of_invoice_value p : part_value (part_of_invoice p) = htlc_value p.
Proof. unfold part_of_invoice. by destruct (received_htlc _ _). Qed.
Lemma part_of_invoice_intended p : part_intended (part_of_invoice p) = outgoing_amt_msat (forward_info p).
Proof. unfold part_of_invoice. by destruct (received_htlc _ _). Qed.
Lemma part_of_invoice_prev p : mpp_prev_hop (mpp_part (part_of_invoice p)) = htlc_previous_hop_data p.
Proof. unfold part_of_invoice. by destruct (received_htlc _ _). Qed.

Lemma receive_invoice_part p st st' events :
  invoice_part node hash secret enc total delta p ->
  handle_claimable_htlc node invoice_purpose (part_of_invoice p) invoice_fields hash (our_network_pubkey node) st = (st', events, Ok tt) ->
  receive_htlc node p st = Return (st', events).
Proof.
  intros (Hh & _ & _ & cltv & Hr & Hcltv). unfold part_of_invoice, receive_htlc, htlc_previous_hop_data. rewrite Hr, Hh.
  cbn [received_htlc is_some prev_phantom_shared_secret mbind Prelude.run_bind mret run_ret rx_phantom_ss].
  unfold check_payment_secret at 1.
  cbn [rx_has_recipient_created_payment_secret rx_payment_data rx_onion_fields rof_payment_metadata rof_payment_secret rof_custom_tlvs
       total_mpp_amount_msat rx_cltv_expiry payment_secret total_msat].
  rewrite Hverify. cbn [mbind result_bind].
  assert (match delta with Some d => cltv <? wrapping 32 (node_height node + d) | None => false end = false) as ->.
  { destruct delta as [d|]; [|done]. apply Z.ltb_ge. by apply Hcltv. }
  unfold received_purpose. cbn [rx_payload rx_payment_data unwrap mbind Prelude.run_bind mret run_ret purpose_from_parts rx_payment_context].
  fold invoice_fields invoice_purpose. unfold received_part, htlc_value, htlc_previous_hop_data. rewrite Hr. cbn [rx_payload rx_cltv_expiry].
  intros Hhandle.
  match goal with |- context [handle_claimable_htlc ?n ?pp ?new ?f ?h ?r ?s] =>
    assert (handle_claimable_htlc n pp new f h r s = (st', events, Ok tt)) as -> by exact Hhandle end.
  done.
Qed.

Lemma invoice_fields_merge : check_merge invoice_fields invoice_fields = Ok invoice_fields.
Proof. unfold check_merge. rewrite !bool_decide_true by done. rewrite Z.eqb_refl. done. Qed.

(** The sum of what the parts were meant to carry is what the total is compared with. *)
Lemma invoice_part_incoming set new :
  Forall (fun h => 0 < part_intended h) set -> 0 < part_intended new -> zsum (map part_intended set) + part_intended new <= total ->
  check_incoming_mpp_part set invoice_fields new invoice_fields =
    if zsum (map part_intended set) + part_intended new =? total then (completed (set ++ [new]), invoice_fields, Ok true)
    else (set ++ [new], invoice_fields, Ok false).
Proof.
  intros Hset Hnew Hle. unfold check_incoming_mpp_part. rewrite invoice_fields_merge. cbn zeta.
  change (fun h : ClaimableHTLC => sender_intended_value (mpp_part h)) with part_intended.
  change (sender_intended_value (mpp_part new)) with (part_intended new). cbn [total_mpp_amount_msat invoice_fields].
  assert (forall l t, Forall (fun h => 0 < part_intended h) l -> 0 < t -> t + zsum (map part_intended l) <= total ->
            intended_total t (map part_intended l) = t + zsum (map part_intended l)) as Hexact.
  { clear -Htotal. intros l t Hl. revert t. induction Hl as [|h l Hh Hl IH]; intros t Ht Hle; cbn [map intended_total zsum foldr] in *; [lia|].
    fold (zsum (map part_intended l)) in *.
    assert (0 <= zsum (map part_intended l)) by (apply zsum_nonneg, Forall_map; eapply Forall_impl; [exact Hl|cbn; lia]).
    rewrite wrapping_small by (unfold fits, MAX_VALUE_MSAT in *; lia).
    rewrite (proj2 (Z.leb_gt _ _)) by lia. rewrite IH; lia. }
  rewrite Hexact by (done || lia).
  assert (0 <= zsum (map part_intended set)) by (apply zsum_nonneg, Forall_map; eapply Forall_impl; [exact Hset|cbn; lia]).
  rewrite (proj2 (Z.leb_gt MAX_VALUE_MSAT _)) by lia.
  rewrite wrapping_small by (unfold fits, MAX_VALUE_MSAT in *; lia).
  rewrite (proj2 (Z.leb_gt total _)) by lia.
  destruct (zsum _ + _ =? total) eqn:Heq; [apply Z.eqb_eq in Heq|apply Z.eqb_neq in Heq].
  - by rewrite (proj2 (Z.leb_le total _)) by lia.
  - by rewrite (proj2 (Z.leb_gt total _)) by lia.
Qed.

(** The parts so far, at the node. *)
Definition waiting (set : list ClaimableHTLC) (st : Receiver) : Prop :=
  pending_claiming_payments st !! hash = None /\
  default (mkClaimablePayment invoice_purpose invoice_fields []) (claimable_payments st !! hash) =
    mkClaimablePayment invoice_purpose invoice_fields set.

Definition put_invoice (htlcs : list ClaimableHTLC) (st : Receiver) : Receiver :=
  with_claimable (<[hash := mkClaimablePayment invoice_purpose invoice_fields htlcs]> (claimable_payments st)) st.

(** The event of the complete payment. *)
Definition invoice_event (new : ClaimableHTLC) (htlcs : list ClaimableHTLC) : Effect :=
  PaymentClaimable (our_network_pubkey node) hash invoice_purpose (received_value htlcs)
    (total_counterparty_skimmed_msat htlcs) (receiving_channel_ids htlcs)
    (wrapping 32 (least_cltv htlcs (mpp_cltv_expiry (mpp_part new)) - HTLC_FAIL_BACK_BUFFER)) invoice_fields
    (inbound_payment_id (inbound_payment_id_secret node) htlcs).

Lemma handle_invoice_part set new st :
  waiting set st -> Forall (fun h => 0 < part_intended h) set -> 0 < part_intended new ->
  zsum (map part_intended set) + part_intended new <= total ->
  handle_claimable_htlc node invoice_purpose new invoice_fields hash (our_network_pubkey node) st =
    if zsum (map part_intended set) + part_intended new =? total
    then (put_invoice (completed (set ++ [new])) st, [invoice_event new (completed (set ++ [new]))], Ok tt)
    else (put_invoice (set ++ [new]) st, [], Ok tt).
Proof.
  intros [Hnone Hpay] Hset Hnew Hle. unfold handle_claimable_htlc. rewrite Hnone, Hpay. cbn [is_some purpose payment_htlcs payment_onion_fields].
  rewrite bool_decide_true by done. cbn [negb]. rewrite invoice_part_incoming by done.
  destruct (_ =? _); done.
Qed.
Lemma put_invoice_waiting htlcs set st : waiting set st -> waiting htlcs (put_invoice htlcs st).
Proof. intros [Hnone _]. split; [done|]. cbn. by rewrite lookup_insert_eq. Qed.

Lemma invoice_parts_run parts set st :
  parts <> [] -> Forall (invoice_part node hash secret enc total delta) parts -> waiting set st ->
  Forall (fun h => 0 < part_intended h) set ->
  zsum (map part_intended set) + zsum (map (fun p => outgoing_amt_msat (forward_info p)) parts) = total ->
  exists st' new, let htlcs := completed (set ++ map part_of_invoice parts) in
    run_ops (map (OpReceive node) parts) st = Return (st', [invoice_event new htlcs], []) /\ waiting htlcs st' /\
    is_Some (claimable_payments st' !! hash).
Proof.
  intros Hne Hparts. revert set st Hne. induction Hparts as [|p parts Hp Hparts IH]; intros set st Hne Hst Hset Hsum; [done|].
  assert (0 < part_intended (part_of_invoice p)) as Hnew by (rewrite part_of_invoice_intended; apply Hp).
  assert (0 <= zsum (map (fun p => outgoing_amt_msat (forward_info p)) parts)) as Hrest
    by (apply zsum_nonneg, Forall_map; eapply Forall_impl; [exact Hparts|]; cbn; intros ? (_ & _ & ? & _); lia).
  cbn [map zsum foldr] in Hsum. fold (zsum (map (fun p => outgoing_amt_msat (forward_info p)) parts)) in Hsum.
  pose proof (handle_invoice_part set (part_of_invoice p) st Hst Hset Hnew) as Hh. rewrite part_of_invoice_intended in *.
  specialize (Hh ltac:(lia)). cbn [map run_ops apply_op].
  destruct parts as [|q parts].
  - rewrite (proj2 (Z.eqb_eq _ _)) in Hh by (cbn in Hsum; lia).
    rewrite (receive_invoice_part _ _ _ _ Hp Hh). cbn [map run_ops mbind Prelude.run_bind mret run_ret abandoned app].
    do 2 eexists. split_and!; [done|by eapply put_invoice_waiting|]. cbn. by rewrite lookup_insert_eq.
  - assert (0 < zsum (map (fun p => outgoing_amt_msat (forward_info p)) (q :: parts))) as Hpos.
    { cbn. apply Forall_cons in Hparts as [(_ & _ & ? & _) Hparts].
      assert (0 <= zsum (map (fun p => outgoing_amt_msat (forward_info p)) parts)); [|unfold zsum in *; lia].
      apply zsum_nonneg, Forall_map. eapply Forall_impl; [exact Hparts|]. cbn. intros ? (_ & _ & ? & _). lia. }
    rewrite (proj2 (Z.eqb_neq _ _)) in Hh by lia.
    rewrite (receive_invoice_part _ _ _ _ Hp Hh). cbn [mbind Prelude.run_bind].
    destruct (IH (set ++ [part_of_invoice p]) (put_invoice (set ++ [part_of_invoice p]) st)) as (st' & new & Hrun & Hw & Hs);
      [done|by eapply put_invoice_waiting| | |].
    + apply Forall_app_2; [done|apply Forall_singleton]. rewrite part_of_invoice_intended. apply Hp.
    + rewrite map_app, zsum_app.
      change (zsum (map part_intended [part_of_invoice p])) with (part_intended (part_of_invoice p) + 0).
      rewrite part_of_invoice_intended. lia.
    + exists st', new. cbn zeta in *. rewrite <- app_assoc in Hrun, Hw. rewrite Hrun. done.
Qed.

Lemma claimable_amount_all t a l : l <> [] -> Forall (fun h => part_total h = Some t) l ->
  claimable_amount None a l = (Some t, foldl (fun acc x => (acc + x)%u64) a (map part_value l), true).
Proof.
  assert (forall l a, Forall (fun h => part_total h = Some t) l ->
            claimable_amount (Some t) a l = (Some t, foldl (fun acc x => (acc + x)%u64) a (map part_value l), true)) as Hsome.
  { clear. intros l a Hl. revert a. induction Hl as [|h l Hh Hl IH]; intros a; [done|]. cbn [claimable_amount].
    change (total_value_received (mpp_part h)) with (part_total h). rewrite Hh, bool_decide_true by done. apply IH. }
  intros Hne Hl. destruct Hl as [|h l Hh Hl]; [done|]. cbn [claimable_amount is_some andb].
  change (total_value_received (mpp_part h)) with (part_total h). rewrite Hh. by rewrite Hsome.
Qed.

(** The claim of the complete payment. *)
Lemma claim_completed all st :
  hash = sha256 preimage -> all <> [] -> Forall (fun h => 0 < part_value h) all -> zsum (map part_value all) < 2 ^ 64 ->
  Forall (fun h => prev_phantom_shared_secret (mpp_prev_hop (mpp_part h)) = None /\
                   is_some (prev_counterparty_node_id (mpp_prev_hop (mpp_part h))) = true) all ->
  pending_claiming_payments st !! hash = None ->
  claimable_payments st !! hash = Some (mkClaimablePayment invoice_purpose invoice_fields (completed all)) ->
  exists st' cp, claim_payment_internal node preimage false st =
    Return (st', map (fun h => ClaimHTLC (mpp_prev_hop (mpp_part h)) preimage (mpp_claim_sources (completed all)) cp
                                 (claim_attribution_data (mpp_prev_hop (mpp_part h)))) (completed all)) /\
    pending_claiming_payments st' !! hash = Some cp /\ claiming_amount_msat cp = zsum (map part_value all).
Proof.
  intros Hhash Hne Hpos Hsum Hprev Hnone Hpay. unfold claim_payment_internal, begin_claiming_payment. rewrite <- Hhash, Hpay.
  cbn [payment_htlcs payment_onion_fields purpose mbind Prelude.run_bind].
  assert (Forall (fun h => prev_phantom_shared_secret (mpp_prev_hop (mpp_part h)) = None /\
                   is_some (prev_counterparty_node_id (mpp_prev_hop (mpp_part h))) = true) (completed all)) as Hprev'.
  { apply completed_Forall; [|done]. intros h h' Heq. apply (f_equal (fun x => mpp_prev_hop (mpp_part x))) in Heq. cbn in Heq.
    change (mpp_prev_hop (mpp_part h) = mpp_prev_hop (mpp_part h')) in Heq. by rewrite Heq. }
  assert (has_phantom (completed all) = false) as ->.
  { apply not_true_is_false. intros Hex. apply existsb_exists in Hex as (h & Hin & Hph). rewrite Forall_forall in Hprev'.
    apply list_elem_of_In, Hprev' in Hin as [Hn _]. by rewrite Hn in Hph. }
  cbn [mret run_ret mbind Prelude.run_bind negb andb].
  assert (completed all <> []) as Hne'.
  { intros Heq. apply (f_equal length), eq_sym in Heq. cbn in Heq.
    assert (length (map part_value (completed all)) = length (map part_value all)) as Hl by (by rewrite completed_values).
    rewrite !length_map in Hl. destruct all; [done|cbn in *; lia]. }
  cbn. rewrite Hnone.
  rewrite (claimable_amount_all (received_value all)) by (done || apply completed_totals).
  assert (foldl (fun acc x => (acc + x)%u64) 0 (map part_value (completed all)) = received_value all) as ->.
  { change (u64_sum (map part_value (completed all)) = received_value all). rewrite received_value_exact by done.
    rewrite u64_sum_exact; [by apply zsum_perm, completed_values| |].
    - apply Forall_map. apply completed_Forall; [|eapply Forall_impl; [exact Hpos|cbn; lia]].
      intros ? ? Heq. by destruct (bare_fields _ _ Heq) as [-> _].
    - by rewrite (zsum_perm _ _ (completed_values all)). }
  rewrite Z.eqb_refl. cbn [negb].
  assert (forallb (fun h => is_some (prev_counterparty_node_id (mpp_prev_hop (mpp_part h)))) (completed all) = true) as Hall.
  { apply forallb_forall. intros h Hin. rewrite Forall_forall in Hprev'. by apply list_elem_of_In, Hprev' in Hin as [_ Hn]. }
  cbn in Hall. rewrite Hall, andb_false_r. do 2 eexists. split_and!; [done|cbn; apply lookup_insert_eq|].
  cbn. rewrite received_value_exact; [by apply zsum_perm, completed_values| |].
  - apply completed_Forall; [|done]. intros ? ? Heq. by destruct (bare_fields _ _ Heq) as [-> _].
  - by rewrite (zsum_perm _ _ (completed_values all)).
Qed.

End parts.
Lemma invoice_part_prev node hash secret enc total delta p : invoice_part node hash secret enc total delta p ->
  prev_phantom_shared_secret (htlc_previous_hop_data p) = None /\
  is_some (prev_counterparty_node_id (htlc_previous_hop_data p)) = true.
Proof. intros (_ & _ & _ & cltv & Hr & _). unfold htlc_previous_hop_data. rewrite Hr. done. Qed.

Context {crypto_laws : OnionCryptoLaws}.

(** C6: an invoice is paid and claimed.  For a payment made with [create], of any amount,
    expiry, final delta and metadata: whenever HTLCs arrive, in any number and order,
    that carry its hash, its secret, its metadata and a total of at least the invoice's
    amount which they make up together, before the expiry and with the final delta
    left, then none of them is failed, the user is told exactly once, with the
    preimage and the sum of what was received, and claiming with that preimage claims
    every one of them with the preimage of the payment hash. *)
Theorem invoice_paid_and_claimed node min delta_secs time delta entropy metadata hash secret enc total parts st :
  payment_inputs_ok min delta_secs time delta -> (IV_LEN <= length entropy)%nat ->
  payment_create (inbound_payment_key node) min delta_secs entropy time delta metadata = Ok (hash, secret, enc) ->
  highest_seen_timestamp node <= time + delta_secs + 7200 -> default 0 min <= total < MAX_VALUE_MSAT ->
  claimable_payments st !! hash = None -> pending_claiming_payments st !! hash = None ->
  parts <> [] -> Forall (invoice_part node hash secret enc total delta) parts ->
  zsum (map (fun p => outgoing_amt_msat (forward_info p)) parts) = total -> zsum (map htlc_value parts) < 2 ^ 64 ->
  exists preimage st' skimmed channels deadline payment_id,
    sha256 preimage = hash /\
    run_ops (map (OpReceive node) parts) st =
      Return (st', [PaymentClaimable (our_network_pubkey node) hash (Bolt11InvoicePayment (Some preimage) secret)
                      (zsum (map htlc_value parts)) skimmed channels deadline
                      (mkRecipientOnionFields (Some secret) metadata [] total) payment_id], []) /\
    exists st'' effects cp,
      claim_payment_internal node preimage false st' = Return (st'', effects) /\
      effects ≡ₚ map (fun p => ClaimHTLC (htlc_previous_hop_data p) preimage (mpp_claim_sources (completed (map part_of_invoice parts))) cp
                                 (claim_attribution_data (htlc_previous_hop_data p))) parts /\
      pending_claiming_payments st'' !! hash = Some cp /\ claiming_amount_msat cp = zsum (map htlc_value parts).
Proof.
  intros Hin Hent Hcreate Hts Htotal Hno Hno' Hne Hparts Hsum Hval.
  destruct (created_ours _ _ _ _ _ _ _ Hin Hent _ _ _ Hcreate) as (preimage & Hpre & _ & Hver).
  specialize (Hver total (highest_seen_timestamp node)). unfold verdict in Hver.
  rewrite (proj2 (Z.ltb_ge _ _)), (proj2 (Z.ltb_ge _ _)) in Hver by lia.
  set (all := map part_of_invoice parts).
  assert (map part_value all = map htlc_value parts) as Hvals.
  { unfold all. rewrite map_map. apply map_ext. apply part_of_invoice_value. }
  assert (Forall (fun h => 0 < part_value h) all) as Hpos.
  { unfold all. apply Forall_map. eapply Forall_impl; [exact Hparts|]. intros p (_ & ? & _). cbn. by rewrite part_of_invoice_value. }
  destruct (invoice_parts_run node hash secret preimage enc metadata total delta Hver (proj2 Htotal) parts [] st)
    as (st' & new & Hrun & [Hnone Hpay] & [q Hq]); [done|done|split; [done|by rewrite Hno]|done|cbn; lia|].
  cbn [app] in Hrun, Hpay. rewrite Hq in Hpay. cbn in Hpay. subst q.
  unfold invoice_event in Hrun. fold all in Hrun, Hq. exists preimage, st'. do 4 eexists. split_and!; [done| |].
  { rewrite Hrun. rewrite received_value_exact; [|apply completed_Forall; [|done]|].
    - rewrite (zsum_perm _ _ (completed_values all)), Hvals. done.
    - intros ? ? Heq. by destruct (bare_fields _ _ Heq) as [-> _].
    - rewrite (zsum_perm _ _ (completed_values all)). by rewrite Hvals. }
  destruct (claim_completed node hash secret preimage metadata total all st') as (st'' & cp & Hclaim & Hcp & Hamt); [done| |done| | |done..|].
  - unfold all. by destruct parts.
  - by rewrite Hvals.
  - unfold all. apply Forall_map. eapply Forall_impl; [exact Hparts|]. intros p Hp. rewrite part_of_invoice_prev.
    by eapply invoice_part_prev.
  - do 3 eexists. split_and!; [exact Hclaim| |done|by rewrite Hamt, Hvals].
    generalize (mpp_claim_sources (completed all)). intros srcs. unfold completed. rewrite sort_by_perm, map_map. unfold all. rewrite map_map.
    erewrite map_ext; [done|]. intros p. cbn. change (claimable_mpp_part (part_of_invoice p)) with (mpp_part (part_of_invoice p)).
    by rewrite part_of_invoice_prev.
Qed.

End invoice.
