(* ===== verification/OnionDelivery.v ===== *)
(** * Delivery of a payment

    The onion of a sender on its way: every node of the path finds its instructions,
    forwards the amount and the expiry the sender chose for the next, and the
    recipient gets what was meant for it. *)

From Stdlib Require Import ZArith Lia Bool.
From stdpp Require Import strings.
From S2P Require Import Prelude.
From S2P Require Import Features.
From S2P Require Import Keys.
From S2P Require Import ChannelState.
From S2P Require Import Ser.
From S2P Require Import Onion.
From S2P Require Import PqKem.
From S2P Require Import Streams.
From S2P Require Import BlindedPath.
From S2P Require Import BlindedFees.
From S2P Require Import PaymentPath.
From S2P Require Import OnionPayload.
From S2P Require Import OnionRoute.
From S2P Require Import OnionFailure.
From S2P Require Import OnionReceive.

Local Open Scope Z_scope.

Section delivery.
Context {bitcoin : Bitcoin} {crypto : OnionCrypto} {kem : Kem} {poly : Poly1305}.
Context {contexts : PaymentContexts} {invoice_requests : InvoiceRequests} {sources : Sources}.
Context {bitcoin_laws : BitcoinLaws} {crypto_laws : OnionCryptoLaws} {kem_laws : KemLaws}.
#[local] Existing Instance onion_payloads.

(** ** One layer *)

(** The trail holds the ciphertexts of the hops ahead at its front; a classical
    payment has none. *)
Definition trail_holds (trail : option bytes) (cts : list bytes) : Prop :=
  match trail with
  | None => cts = []
  | Some t => exists padding, t = mjoin cts ++ padding /\ length t = PQ_PAYMENT_TRAIL_LEN
  end.

(** The ML-KEM secrets of the hops ahead that find a ciphertext on the trail. *)
Definition trail_of (trail : option bytes) (nodes : list KeysManager) : list bytes :=
  match trail with None => [] | Some _ => map pq_kem_node_secret nodes end.

Lemma peel_trail_holds km nodes trail ss e keys oks cts kss :
  trail_holds trail cts -> hybrid_keys ((ss, e) :: keys) (trail_of trail (km :: nodes)) oks cts kss ->
  exists hybrid next classical oks' cts' kss', oks = onion_keys_of hybrid e :: oks' /\
    peel_trail ss trail (keys_manager_signer km) = Ok (hybrid, next, classical) /\ default hybrid classical = ss /\
    trail_holds next cts' /\ is_some next = is_some trail /\ hybrid_keys keys (trail_of next nodes) oks' cts' kss'.
Proof.
  destruct trail as [t|]; cbn [trail_of trail_holds map].
  - intros (padding & -> & Hlen) (kem_ss & ct & oks' & cts' & kss' & -> & -> & -> & Hd & Hct & Hk).
    change (mjoin (ct :: cts')) with (ct ++ mjoin cts') in *. rewrite <- app_assoc in *.
    exists (mix_payment_onion_secret ss kem_ss), (Some ((mjoin cts' ++ padding) ++ ct)), (Some ss), oks', cts', kss'.
    split_and!; [done| |done| | |done].
    + unfold peel_trail, read_pq_trail. rewrite <- (app_nil_r (ct ++ _)) at 1. rewrite read_exact_app by done.
      by rewrite (pq_hop_hybrid_secret_front ss ct _ (keys_manager_signer km) kem_ss) by done.
    + exists (padding ++ ct). rewrite app_assoc. split; [done|]. rewrite !length_app in *. lia.
    + done.
  - intros -> (oks' & -> & Hk). exists ss, None, None, oks', [], kss. split_and!; done.
Qed.

(** What a node needs to open its layer: the ML-KEM secret of a blinded path, its key,
    tweaked if it is blinded, and the trail. *)
Record opens (km : KeysManager) (bp : option PublicKey) (trail ct : option bytes) (e : PublicKey)
    (kem_ss : option bytes) (hybrid : bytes) (next classical : option bytes) : Prop := {
  opens_kem : blinded_kem_secret ct (keys_manager_signer km) = Ok kem_ss;
  opens_tweak : exists tweak ss, blinded_node_id_tweak Node bp kem_ss (keys_manager_signer km) = Return tweak /\
    ecdh (keys_manager_signer km) Node e tweak = Ok ss /\
    peel_trail ss trail (keys_manager_signer km) = Ok (hybrid, next, classical);
}.

(** A packet that unfolds to these payloads. *)
Definition sealed (hash : bytes) (payloads : list OutboundOnionPayload) (oks : list OnionKeys) (data hmac : bytes) : Prop :=
  length data = ONION_DATA_LEN /\ length payloads = length oks /\ Forall outbound_wf payloads /\
  onion_layers (Some hash) ONION_DATA_LEN (zip (map outbound_payload_write payloads) oks) data hmac.

Lemma sealed_payload_fits hash p payloads ok oks data hmac : sealed hash (p :: payloads) (ok :: oks) data hmac ->
  fits 32 (Z.of_nat (length (outbound_payload_write p))).
Proof.
  intros (Hlen & _ & _ & (_ & _ & next & unread & Hplain & _)). cbn [map zip zip_with] in *.
  apply (f_equal length) in Hplain. rewrite apply_keystream_length, !length_app, Hlen in Hplain.
  unfold ONION_DATA_LEN in Hplain. unfold fits. lia.
Qed.

Lemma decode_layer km bp trail ct e kem_ss hybrid next classical hash p payloads oks data hmac payload :
  opens km bp trail ct e kem_ss hybrid next classical ->
  sealed hash (p :: payloads) (onion_keys_of hybrid e :: oks) data hmac ->
  onion_payload_of bp kem_ss (keys_manager_signer km) (outbound_fields p) = Ok payload ->
  exists packet, decode_next_payment_hop Node e data hmac hash bp trail ct (keys_manager_signer km) =
      payment_hop_of Node hash bp kem_ss (keys_manager_signer km) hybrid next classical (payload, packet) /\
    match payloads with
    | [] => packet = None
    | _ => exists next_hmac next_data, packet = Some (next_hmac, next_data) /\ sealed hash payloads oks next_data next_hmac
    end.
Proof.
  intros [Hkem (tweak & ss & Htweak & Hecdh & Htrail)] Hsealed Hp.
  pose proof (sealed_payload_fits _ _ _ _ _ _ _ Hsealed) as Hfit.
  destruct Hsealed as (Hlen & Hcount & Hwf & Hlayers). apply Forall_cons in Hwf as [Hwf Hrest]. injection Hcount as Hcount.
  assert (forall rest, onion_payload_read bp kem_ss (keys_manager_signer km) (outbound_payload_write p ++ rest) = (Ok payload, rest)) as Hread.
  { intros rest. rewrite outbound_payload_write_read by done. by rewrite Hp. }
  cbn [map zip zip_with] in Hlayers. rewrite <- Hlen in Hlayers at 1.
  destruct (decode_next_hop_layer _ (fun _ => ONION_DATA_LEN) hybrid (Some hash) _ _ _ _ _ payload Hlayers eq_refl eq_refl Hread (eq_sym Hlen))
    as (packet & Hdec & Hnext).
  exists packet. unfold decode_next_payment_hop. rewrite Hkem, Htweak. cbn [mbind Prelude.run_bind].
  rewrite Hecdh. cbn [run_ok mret run_ret mbind Prelude.run_bind]. rewrite Htrail, Hdec. split; [done|].
  destruct payloads as [|p' payloads]; [done|]. destruct oks as [|ok oks]; [done|]. cbn [map zip zip_with] in Hnext.
  destruct Hnext as (h' & d' & -> & Hlen' & Hl'). exists h', d'. split; [done|].
  rewrite Hlen in *. split_and!; [done|by cbn in *; lia|done|exact Hl'].
Qed.

(** ** The nodes of a path, one after the other

    Each peels the message it gets and sends on what it has to forward; the last one
    keeps the HTLC.  The result has the channel, the amount and the expiry of every
    forward. *)

Definition Delivered : Type := run (result InboundHTLCErr (list (Z * Z * Z) * PendingHTLCInfo)).
Definition after_hop (hop : Z * Z * Z) (rest : Delivered) : Delivered :=
  rest ← rest;
  mret (match rest with Ok (hops, info) => Ok (hop :: hops, info) | Err e => Err e end).

Fixpoint deliver (fuel : nat) (cur_height : Z) (nodes : list KeysManager) (msg : UpdateAddHTLC) : Delivered :=
  match nodes with
  | [] => Panic
  | km :: nodes =>
      info ← peel_payment_onion fuel msg (keys_manager_signer km) cur_height false;
      match info with
      | Err e => mret (Err e)
      | Ok info =>
          match routing info with
          | RoutingForward _ scid _ _ _ _ _ _ =>
              msg ← forward_htlc (add_htlc_id msg) info (keys_manager_signer km);
              after_hop (scid, outgoing_amt_msat info, outgoing_cltv_value info) (deliver fuel cur_height nodes msg)
          | _ => mret (Ok ([], info))
          end
      end
  end.

Lemma peel_decoded fuel msg signer h e hop details next : packet_public_key (add_onion_routing_packet msg) = Ok e ->
  decode_incoming_update_add_htlc_onion msg signer = Return (Ok (hop, Some details, next)) ->
  match hop with HopForward _ _ _ _ | HopBlindedForward _ _ _ _ => True | _ => False end ->
  check_incoming_htlc_cltv h (details_outgoing_cltv_value details) (add_cltv_expiry msg) MIN_CLTV_EXPIRY_DELTA = Ok tt ->
  peel_payment_onion fuel msg signer h false =
    Return (create_fwd_pending_htlc_info msg hop (hop_shared_secret hop) (Some (next_packet_pubkey details)) next).
Proof.
  intros He Hd Hhop Hc. destruct fuel; cbn [peel_payment_onion]; rewrite Hd; cbn [mbind Prelude.run_bind];
    destruct hop; try done; by rewrite Hc.
Qed.

(** A message, and one on a blinded path. *)
Definition add_htlc (id amt : Z) (hash : bytes) (cltv : Z) (e : PublicKey) (data hmac : bytes) (extras : HTLCExtras) : UpdateAddHTLC :=
  mkUpdateAdd id amt hash cltv (mkOnionPacket 0 (Ok e) data hmac) extras.

Lemma deliver_forward fuel h km nodes id amt hash cltv e data hmac skim hold acc trail ct kem_ss hybrid next classical
    scid amt' cltv' p payloads oks e' :
  opens km None trail ct e kem_ss hybrid next classical ->
  sealed hash (OutForward scid amt' cltv' :: p :: payloads) (onion_keys_of hybrid e :: oks) data hmac ->
  0 <= amt' <= MAX_VALUE_MSAT -> next_hop_pubkey e (default hybrid classical) = Return (Some e') ->
  check_incoming_htlc_cltv h cltv' cltv MIN_CLTV_EXPIRY_DELTA = Ok tt ->
  exists data' hmac', sealed hash (p :: payloads) oks data' hmac' /\
    deliver fuel h (km :: nodes) (add_htlc id amt hash cltv e data hmac (mkExtras skim None hold acc trail ct)) =
    after_hop (scid, amt', cltv')
      (deliver fuel h nodes (add_htlc id amt' hash cltv' e' data' hmac' (mkExtras None None None acc next ct))).
Proof.
  intros Hopens Hsealed Hamt He' Hcltv.
  destruct (decode_layer _ _ _ _ _ _ _ _ _ _ _ _ _ _ _ _ Hopens Hsealed (read_forward scid amt' cltv' kem_ss _ Hamt))
    as (packet & Hdec & hmac' & data' & -> & Hnext).
  exists data', hmac'. split; [done|]. cbn [deliver].
  erewrite peel_decoded; [|reflexivity| | |]; cycle 1.
  { unfold decode_incoming_update_add_htlc_onion. cbn. rewrite Hdec. cbn. unfold advance_key. rewrite He'. cbn. reflexivity. }
  { done. }
  { exact Hcltv. }
  by destruct ct.
Qed.

Lemma peel_received fuel msg signer h hop next : packet_version (add_onion_routing_packet msg) = 0 ->
  decode_incoming_update_add_htlc_onion msg signer = Return (Ok (hop, None, next)) ->
  match hop with HopReceive _ _ | HopBlindedReceive _ _ => True | _ => False end ->
  peel_payment_onion fuel msg signer h false =
    Return (create_recv_pending_htlc_info hop (hop_shared_secret hop) (add_payment_hash msg) (add_amount_msat msg)
              (add_cltv_expiry msg) None false (skimmed_fee_msat (add_extras msg)) (accountable (add_extras msg)) h).
Proof.
  intros Hv Hd Hhop. destruct fuel; cbn [peel_payment_onion]; rewrite Hd; cbn [mbind Prelude.run_bind]; by destruct hop.
Qed.

(** What the last node checks of a payment: the amount and the expiry are what the
    sender meant, and there is time left to claim it. *)
Definition acceptable (h : Z) (f : ReceiveFields) (amt cltv : Z) : Prop :=
  rf_amt_msat f <= amt /\ rf_cltv_expiry f <= cltv /\ wrapping 32 (h + HTLC_FAIL_BACK_BUFFER + 1) < cltv.

Lemma create_recv_accepted hop ss hash amt cltv skim acc h f routing :
  receive_fields hop cltv = Ok f -> acceptable h f amt cltv -> receive_routing f hash amt cltv None h = Ok routing ->
  create_recv_pending_htlc_info hop ss hash amt cltv None false skim acc h =
    Ok (mkPendingHTLCInfo routing ss hash (Some amt) (rf_amt_msat f) (rf_cltv_expiry f) skim acc).
Proof.
  intros Hf (Ha & Hc & Ht) Hr. unfold create_recv_pending_htlc_info. rewrite Hf. cbn [mbind result_bind].
  by rewrite !(proj2 (Z.ltb_ge _ _)), (proj2 (Z.leb_gt _ _)), Hr by done.
Qed.

Lemma received_routing f hash amt cltv ph h routing : receive_routing f hash amt cltv ph h = Ok routing ->
  match routing with RoutingReceive _ _ _ _ _ _ _ _ | RoutingReceiveKeysend _ _ _ _ _ _ _ _ _ => True | _ => False end.
Proof.
  unfold receive_routing. destruct (rf_keysend_preimage f) as [k|], (rf_payment_data f); try done;
    repeat case_match; by intros [= <-].
Qed.

Lemma deliver_received fuel h km nodes id amt hash cltv e data hmac up skim hold acc trail ct hop next f routing :
  let msg := add_htlc id amt hash cltv e data hmac (mkExtras skim up hold acc trail ct) in
  decode_incoming_update_add_htlc_onion msg (keys_manager_signer km) = Return (Ok (hop, None, next)) ->
  match hop with HopReceive _ _ | HopBlindedReceive _ _ => True | _ => False end ->
  receive_fields hop cltv = Ok f -> acceptable h f amt cltv -> receive_routing f hash amt cltv None h = Ok routing ->
  deliver fuel h (km :: nodes) msg =
    Return (Ok ([], mkPendingHTLCInfo routing (hop_shared_secret hop) hash (Some amt) (rf_amt_msat f) (rf_cltv_expiry f) skim acc)).
Proof.
  intros msg Hd Hhop Hf Ha Hr. cbn [deliver]. rewrite (peel_received fuel msg _ h hop next eq_refl Hd Hhop).
  cbn [mbind Prelude.run_bind]. erewrite create_recv_accepted by done. cbn [OnionReceive.routing].
  apply received_routing in Hr. by destruct routing.
Qed.

Lemma deliver_receive fuel h km nodes id amt hash cltv e data hmac skim hold acc trail ct kem_ss hybrid next classical
    pdata metadata keysend custom amt' cltv' routing :
  let f := plain_fields (mkInReceive pdata metadata keysend custom amt' cltv') None in
  opens km None trail ct e kem_ss hybrid next classical ->
  sealed hash [OutReceive pdata metadata keysend custom amt' cltv'] [onion_keys_of hybrid e] data hmac ->
  0 <= amt' <= MAX_VALUE_MSAT -> opt_wf (fun d => total_msat d <= MAX_VALUE_MSAT) pdata ->
  acceptable h f amt cltv -> receive_routing f hash amt cltv None h = Ok routing ->
  deliver fuel h (km :: nodes) (add_htlc id amt hash cltv e data hmac (mkExtras skim None hold acc trail ct)) =
    Return (Ok ([], mkPendingHTLCInfo routing hybrid hash (Some amt) amt' cltv' skim acc)).
Proof.
  intros f Hopens Hsealed Hamt Htot Hacc Hr.
  destruct (decode_layer _ _ _ _ _ _ _ _ _ _ _ _ _ _ _ _ Hopens Hsealed
              (read_receive pdata metadata keysend custom amt' cltv' kem_ss _ Hamt Htot)) as (packet & Hdec & ->).
  apply (deliver_received fuel h km nodes id amt hash cltv e data hmac None skim hold acc trail ct
           (HopReceive (mkInReceive pdata metadata keysend custom amt' cltv') hybrid) next f routing); try done.
  unfold decode_incoming_update_add_htlc_onion. cbn. by rewrite Hdec.
Qed.

(** ** What the sender writes

    The amount and the expiry of the HTLC a hop gets: what it has to forward, its
    fee and its delta, and those of the hops behind it. *)

Fixpoint value_from (hops : list RouteHop) (final : Z) : Z :=
  match hops with [] => final | hop :: hops => hop_fee_msat hop + value_from hops final end.
Fixpoint cltv_from (hops : list RouteHop) (height : Z) : Z :=
  match hops with [] => height | hop :: hops => hop_cltv_expiry_delta hop + cltv_from hops height end.
Definition next_scid (hops : list RouteHop) : Z := match hops with hop :: _ => hop_short_channel_id hop | [] => 0 end.

(** The instructions of the hops [pre], with [suf] behind them. *)
Fixpoint forwards (pre suf : list RouteHop) (final height : Z) : list (Z * Z * Z) :=
  match pre with
  | [] => []
  | _ :: pre => (next_scid (pre ++ suf), value_from (pre ++ suf) final, cltv_from (pre ++ suf) height) :: forwards pre suf final height
  end.
Definition forward_payload (f : Z * Z * Z) : OutboundOnionPayload := OutForward f.1.1 f.1.2 f.2.

Definition hop_ok (hop : RouteHop) : Prop := 0 <= hop_fee_msat hop /\ 0 <= hop_cltv_expiry_delta hop.

Lemma value_from_app pre suf final : value_from (pre ++ suf) final = value_from pre (value_from suf final).
Proof. induction pre as [|hop pre IH]; cbn; [done|]. by rewrite IH. Qed.
Lemma cltv_from_app pre suf height : cltv_from (pre ++ suf) height = cltv_from pre (cltv_from suf height).
Proof. induction pre as [|hop pre IH]; cbn; [done|]. by rewrite IH. Qed.
Lemma value_from_ge hops final : Forall hop_ok hops -> final <= value_from hops final.
Proof. induction 1 as [|hop hops [? ?] _ IH]; cbn; lia. Qed.
Lemma cltv_from_ge hops height : Forall hop_ok hops -> height <= cltv_from hops height.
Proof. induction 1 as [|hop hops [? ?] _ IH]; cbn; lia. Qed.

Lemma forwards_snoc pre hop suf final height : forwards (pre ++ [hop]) suf final height =
  forwards pre (hop :: suf) final height ++ [(next_scid suf, value_from suf final, cltv_from suf height)].
Proof. induction pre as [|hop' pre IH]; cbn; [done|]. by rewrite IH, <- !app_assoc. Qed.

Lemma add_hop_ok value cltv hop : hop_ok hop -> 0 <= value -> 0 <= cltv ->
  value + hop_fee_msat hop < 21000000 * 100000000 * 1000 -> cltv + hop_cltv_expiry_delta hop < 500000000 ->
  add_hop value cltv (route_path_hop hop) (hop_cltv_expiry_delta hop) =
    Ok (value + hop_fee_msat hop, cltv + hop_cltv_expiry_delta hop).
Proof.
  intros [Hf Hd] Hv Hc Hvalue Hcltv. unfold add_hop, route_path_hop. cbn [ph_fee_msat].
  rewrite wrapping_small by (unfold fits; lia). rewrite (proj2 (Z.leb_gt _ _)) by done.
  rewrite saturating_add_exact by (unfold fits; cbn; lia). by rewrite (proj2 (Z.leb_gt _ _)) by done.
Qed.

Lemma forward_payloads_exact final height pre : Forall hop_ok pre -> forall suf res, Forall hop_ok suf ->
  0 <= final -> 0 <= height -> 0 < value_from suf final ->
  value_from (pre ++ suf) final < 21000000 * 100000000 * 1000 -> cltv_from (pre ++ suf) height < 500000000 ->
  forward_payloads (reverse (map route_path_hop pre)) (next_scid suf) (value_from suf final) (cltv_from suf height) res =
    Ok (map forward_payload (forwards pre suf final height) ++ res, value_from (pre ++ suf) final, cltv_from (pre ++ suf) height).
Proof.
  induction pre as [|hop pre IH] using rev_ind; intros Hpre suf res Hsuf Hf Hh Hpos Hv Hc; [done|].
  apply Forall_app in Hpre as [Hpre [Hhop _]%Forall_cons]. rewrite <- app_assoc in Hv, Hc |- *. cbn [app] in *.
  rewrite map_app. cbn [map]. rewrite reverse_snoc. cbn [forward_payloads].
  rewrite (proj2 (Z.eqb_neq _ _)) by lia.
  assert (value_from suf final + hop_fee_msat hop <= value_from (pre ++ hop :: suf) final) as H1.
  { rewrite value_from_app. cbn [value_from]. pose proof (value_from_ge pre (hop_fee_msat hop + value_from suf final) Hpre). lia. }
  assert (cltv_from suf height + hop_cltv_expiry_delta hop <= cltv_from (pre ++ hop :: suf) height) as H2.
  { rewrite cltv_from_app. cbn [cltv_from]. pose proof (cltv_from_ge pre (hop_cltv_expiry_delta hop + cltv_from suf height) Hpre). lia. }
  pose proof (cltv_from_ge suf height Hsuf). change (ph_cltv_expiry_delta _ (route_path_hop hop)) with (hop_cltv_expiry_delta hop).
  rewrite add_hop_ok by (done || lia). cbn [mbind result_bind].
  rewrite (Z.add_comm (value_from suf final)), (Z.add_comm (cltv_from suf height)).
  rewrite (IH Hpre (hop :: suf)); [|by constructor|done|done|cbn; destruct Hhop; lia|done|done].
  rewrite forwards_snoc, map_app, <- app_assoc. done.
Qed.

Lemma callback_exact ro height keysend invreq pre lst tail lastp final :
  Forall hop_ok (pre ++ [lst]) -> 0 <= final -> 0 <= height -> 0 < final + hop_fee_msat lst ->
  value_from (pre ++ [lst]) final < 21000000 * 100000000 * 1000 -> cltv_from (pre ++ [lst]) height < 500000000 ->
  last_payloads ro height keysend invreq (route_path_hop lst) tail = Ok (lastp, final, height, hop_cltv_expiry_delta lst) ->
  build_onion_payloads_callback ro height keysend invreq (map route_path_hop (pre ++ [lst])) tail =
    Ok (map forward_payload (forwards pre [lst] final height) ++ lastp, value_from (pre ++ [lst]) final,
        cltv_from (pre ++ [lst]) height).
Proof.
  intros Hok Hf Hh Hpos Hv Hc Hlast. unfold build_onion_payloads_callback. rewrite map_app. cbn [map]. rewrite reverse_snoc.
  rewrite Hlast. cbn [mbind result_bind]. pose proof Hok as [Hpre [Hlst _]%Forall_cons]%Forall_app.
  assert (value_from [lst] final <= value_from (pre ++ [lst]) final) as H1 by (rewrite value_from_app; by apply value_from_ge).
  assert (cltv_from [lst] height <= cltv_from (pre ++ [lst]) height) as H2 by (rewrite cltv_from_app; by apply cltv_from_ge).
  cbn [value_from cltv_from] in H1, H2. rewrite add_hop_ok by (done || lia). cbn [mbind result_bind].
  rewrite (Z.add_comm final), (Z.add_comm height).
  apply (forward_payloads_exact final height pre Hpre [lst]); [by constructor|done|done|cbn; lia|done|done].
Qed.

(** ** The way through the hops that are not blinded

    A packet on its way: [kms] are the nodes of the route ahead, [bkeys] the keys of the
    blinded nodes behind them. *)
Definition travelling (hash : bytes) (payloads : list OutboundOnionPayload) (kms : list KeysManager) (bkeys : list SecretKey)
    (trail : option bytes) (e : PublicKey) (data hmac : bytes) : Prop :=
  exists keys oks cts kss, key_chain e (map node_secret kms ++ bkeys) keys /\
    hybrid_keys keys (trail_of trail kms) oks cts kss /\ trail_holds trail cts /\ sealed hash payloads oks data hmac.

(** A node can decapsulate whatever ciphertext is at the front of a list. *)
Definition kem_ready (ct : option bytes) (km : KeysManager) : Prop :=
  match ct with
  | None => True
  | Some list => (PQ_KEM_CT_LEN <= length list)%nat /\ exists ek, kem_pair ek (pq_kem_node_secret km)
  end.

Lemma kem_ready_secret ct km : kem_ready ct km -> exists kem_ss, blinded_kem_secret ct (keys_manager_signer km) = Ok kem_ss.
Proof.
  destruct ct as [list|]; [|by eexists]. intros (Hlen & ek & Hk). unfold blinded_kem_secret.
  rewrite (proj2 (Nat.leb_le _ _)) by done.
  destruct (decapsulate_any ek _ (take PQ_KEM_CT_LEN list) Hk) as [ss Hss]; [rewrite length_take; lia|].
  cbn [keys_manager_signer pq_kem_decapsulate]. rewrite Hss. by eexists.
Qed.

(** A node of the route opens its layer, and the packet for the next travels on. *)
Lemma travelling_opens hash p payloads km kms bkeys trail ct e data hmac :
  travelling hash (p :: payloads) (km :: kms) bkeys trail e data hmac -> kem_ready ct km ->
  exists kem_ss hybrid next classical oks e', opens km None trail ct e kem_ss hybrid next classical /\
    blinded_kem_secret ct (keys_manager_signer km) = Ok kem_ss /\
    sealed hash (p :: payloads) (onion_keys_of hybrid e :: oks) data hmac /\
    next_hop_pubkey e (default hybrid classical) = Return (Some e') /\ is_some next = is_some trail /\
    forall data' hmac', sealed hash payloads oks data' hmac' -> travelling hash payloads kms bkeys next e' data' hmac'.
Proof.
  intros (keys & oks & cts & kss & Hchain & Hkeys & Htrail & Hsealed) Hready.
  destruct keys as [|[ss e0] keys]; [done|]. destruct Hchain as (-> & Hss & e' & He' & Hchain).
  destruct (kem_ready_secret _ _ Hready) as [kem_ss Hkem].
  destruct (peel_trail_holds _ _ _ _ _ _ _ _ _ Htrail Hkeys)
    as (hybrid & next & classical & oks' & cts' & kss' & -> & Hpeel & Hdef & Hnext & Hsome & Hkeys').
  exists kem_ss, hybrid, next, classical, oks', e'. rewrite Hdef. split_and!; try done.
  - split; [done|]. exists None, ss. split_and!; [done| |done]. cbn. by rewrite Hss.
  - intros data' hmac' Hs. by exists keys, oks', cts', kss'.
Qed.

(** The expiries of the HTLCs of a path are neither too near nor too far: [last] is
    the one of the last HTLC, [first] of the first. *)
Definition timely (h last first : Z) : Prop :=
  0 <= h /\ h + CLTV_FAR_FAR_AWAY < 2 ^ 32 /\ h + HTLC_FAIL_BACK_BUFFER + 1 < last /\ first <= h + CLTV_FAR_FAR_AWAY.

Lemma timely_hop h last first outgoing cltv : timely h last first -> last <= outgoing -> cltv <= first ->
  outgoing + MIN_CLTV_EXPIRY_DELTA <= cltv ->
  check_incoming_htlc_cltv h outgoing cltv MIN_CLTV_EXPIRY_DELTA = Ok tt.
Proof.
  unfold timely, check_incoming_htlc_cltv, CLTV_FAR_FAR_AWAY, HTLC_FAIL_BACK_BUFFER, CLTV_CLAIM_BUFFER, MAX_BLOCKS_FOR_CONF,
    LATENCY_GRACE_PERIOD_BLOCKS, MIN_CLTV_EXPIRY_DELTA.
  intros (H0 & Hw & Hlast & Hfirst) H1 H2 H3. rewrite !wrapping_small by (unfold fits; lia).
  rewrite (proj2 (Z.ltb_ge _ _)), !(proj2 (Z.leb_gt _ _)) by lia. by rewrite (proj2 (Z.ltb_ge _ _)) by lia.
Qed.

Definition forwarding_hop_ok (hop : RouteHop) : Prop := 0 <= hop_fee_msat hop /\ MIN_CLTV_EXPIRY_DELTA <= hop_cltv_expiry_delta hop.
Lemma forwarding_hop_ok_hop hop : forwarding_hop_ok hop -> hop_ok hop.
Proof. unfold forwarding_hop_ok, hop_ok, MIN_CLTV_EXPIRY_DELTA. lia. Qed.

Lemma deliver_forwards fuel h id hash final height ct acc suf bkeys lastp kms nodes last first pre :
  Forall forwarding_hop_ok pre -> Forall hop_ok suf -> lastp <> [] -> 0 <= final -> timely h last first -> last <= cltv_from suf height ->
  forall pre_kms trail e data hmac, length pre_kms = length pre -> Forall (kem_ready ct) pre_kms ->
  value_from (pre ++ suf) final <= MAX_VALUE_MSAT -> cltv_from (pre ++ suf) height <= first ->
  travelling hash (map forward_payload (forwards pre suf final height) ++ lastp) (pre_kms ++ kms) bkeys trail e data hmac ->
  exists trail' e' data' hmac', travelling hash lastp kms bkeys trail' e' data' hmac' /\ is_some trail' = is_some trail /\
    deliver fuel h (pre_kms ++ nodes) (add_htlc id (value_from (pre ++ suf) final) hash (cltv_from (pre ++ suf) height) e data hmac
                                         (mkExtras None None None acc trail ct)) =
    foldr after_hop (deliver fuel h nodes (add_htlc id (value_from suf final) hash (cltv_from suf height) e' data' hmac'
                                             (mkExtras None None None acc trail' ct))) (forwards pre suf final height).
Proof.
  intros Hpre Hsuf Hlastp Hf Htime Hlast. induction Hpre as [|hop pre [Hfee Hdelta] Hpre IH];
    intros [|km pre_kms] trail e data hmac Hlen Hready Hv Hc Htr; try done.
  { by exists trail, e, data, hmac. }
  apply Forall_cons in Hready as [Hkm Hready]. injection Hlen as Hlen. cbn [app map forwards] in *. cbn [value_from cltv_from] in *.
  pose proof (Forall_impl _ _ _ Hpre forwarding_hop_ok_hop) as Hok.
  assert (0 <= value_from (pre ++ suf) final) as Hv0.
  { pose proof (value_from_ge (pre ++ suf) final ltac:(by apply Forall_app)). lia. }
  assert (last <= cltv_from (pre ++ suf) height) as Hl0.
  { rewrite cltv_from_app. pose proof (cltv_from_ge pre (cltv_from suf height) Hok). lia. }
  destruct (travelling_opens _ _ _ _ _ _ _ ct _ _ _ Htr Hkm)
    as (kem_ss & hybrid & next & classical & oks & e' & Hopens & _ & Hsealed & He' & Hsome & Hrest).
  set (rest := map forward_payload (forwards pre suf final height) ++ lastp) in *.
  destruct rest as [|p payloads] eqn:Erest; [by apply app_eq_nil in Erest as [_ ?]|].
  destruct (deliver_forward fuel h km (pre_kms ++ nodes) id (hop_fee_msat hop + value_from (pre ++ suf) final) hash
              (hop_cltv_expiry_delta hop + cltv_from (pre ++ suf) height) e data hmac None None acc trail ct kem_ss hybrid next
              classical _ _ _ p payloads oks e' Hopens Hsealed ltac:(cbn; lia) He') as (data' & hmac' & Hs' & Hdel).
  { eapply timely_hop; [done|cbn; lia|done|cbn; lia]. }
  cbn [foldr]. unfold forward_payload in Hdel. cbn [fst snd] in Hdel. rewrite Hdel.
  destruct (IH pre_kms next e' data' hmac' Hlen Hready ltac:(lia) ltac:(unfold MIN_CLTV_EXPIRY_DELTA in *; lia) (Hrest _ _ Hs'))
    as (trail' & e'' & data'' & hmac'' & Htr' & Hsome' & ->).
  exists trail', e'', data'', hmac''. split_and!; [done|congruence|done].
Qed.

(** ** The packet a sender makes *)

Lemma classical_keys keys : hybrid_keys keys [] (map (fun '(ss, e) => onion_keys_of ss e) keys) [] [].
Proof. induction keys as [|[ss e] keys IH]; [done|]. cbn. by eexists. Qed.

Lemma first_ephemeral e secrets keys dks oks cts kss first : key_chain e secrets keys -> hybrid_keys keys dks oks cts kss ->
  head oks = Some first -> ephemeral_pubkey first = e.
Proof.
  destruct keys as [|[ss e'] keys], secrets as [|s secrets]; try done.
  - intros _. cbn. destruct dks; [|done]. by intros (-> & _).
  - intros (-> & _). destruct dks; cbn.
    + intros (oks' & -> & _). by intros [= <-].
    + intros (? & ? & ? & ? & ? & -> & _). by intros [= <-].
Qed.

Definition payloads_fit (payloads : list OutboundOnionPayload) : Prop :=
  Forall outbound_wf payloads /\ (payloads_serialized_length (map outbound_payload_write payloads) <= ONION_DATA_LEN)%nat.

Lemma packet_sealed payloads oks prng hash : payloads <> [] -> length payloads = length oks -> payloads_fit payloads ->
  exists first data hmac, head oks = Some first /\
    construct_onion_packet payloads oks prng hash = Return (Ok (mkOnionPacket 0 (Ok (ephemeral_pubkey first)) data hmac)) /\
    sealed hash payloads oks data hmac.
Proof.
  intros Hne Hlen [Hwf Hfit]. assert (length (init_noise prng ONION_DATA_LEN) = ONION_DATA_LEN) as Hnoise
    by (unfold init_noise; by rewrite apply_keystream_length, length_replicate).
  destruct (construct_onion_packet_layers (Some hash) (map outbound_payload_write payloads) oks (init_noise prng ONION_DATA_LEN))
    as (first & data & hmac & Hfirst & Hcon & Hlayers & Hdata); [by destruct payloads|by rewrite length_map|by rewrite Hnoise|].
  exists first, data, hmac. split; [done|]. split; [unfold construct_onion_packet; by rewrite Hcon|].
  rewrite Hnoise in *. by split_and!.
Qed.

(** The keys of the nodes of a path. *)
Definition path_secrets (path : Path) (kms : list KeysManager) (bkeys : list SecretKey) : Prop :=
  map hop_pubkey (path_hops path) = map from_secret_key (map node_secret kms) /\
  blinded_pubkeys (blinded_tail path) = map from_secret_key bkeys /\ has_trampoline_hops path = false.

Lemma path_pubkeys path kms bkeys : path_secrets path kms bkeys ->
  map hop_pubkey (path_hops path) ++ blinded_pubkeys (nontrampoline_tail path) = map from_secret_key (map node_secret kms ++ bkeys).
Proof. intros (H1 & H2 & H3). unfold nontrampoline_tail. by rewrite H3, H1, H2, map_app. Qed.

Lemma classical_packet path kms bkeys session payloads prng hash : path_secrets path kms bkeys ->
  payloads <> [] -> length payloads = (length kms + length bkeys)%nat -> payloads_fit payloads ->
  exists oks data hmac, construct_onion_keys path session = Return oks /\
    construct_onion_packet payloads oks prng hash = Return (Ok (mkOnionPacket 0 (Ok (from_secret_key session)) data hmac)) /\
    travelling hash payloads kms bkeys None (from_secret_key session) data hmac.
Proof.
  intros Hsec Hne Hlen Hfit. unfold construct_onion_keys. rewrite (path_pubkeys _ _ _ Hsec).
  destruct (construct_onion_keys_chain (map node_secret kms ++ bkeys) session) as (keys & -> & Hchain).
  pose proof (key_chain_length _ _ _ Hchain) as Hk. rewrite length_app, length_map in Hk.
  set (oks := map (fun '(ss, e) => onion_keys_of ss e) keys).
  destruct (packet_sealed payloads oks prng hash) as (first & data & hmac & Hfirst & Hcon & Hsealed);
    [done|unfold oks; rewrite length_map; lia|done|].
  pose proof (classical_keys keys) as Hh. fold oks in Hh. rewrite (first_ephemeral _ _ _ _ _ _ _ _ Hchain Hh Hfirst) in Hcon.
  exists oks, data, hmac. split_and!; [done|done|]. by exists keys, oks, [], [].
Qed.

Lemma pq_packet path kms bkeys session eks base trail_seed payloads prng hash : path_secrets path kms bkeys ->
  Forall2 kem_pair eks (map pq_kem_node_secret kms) -> (0 < length kms <= MAX_PATH_LENGTH_ESTIMATE)%nat ->
  length payloads = (length kms + length bkeys)%nat -> payloads_fit payloads ->
  exists oks trail kss data hmac, construct_pq_onion_keys_and_trail path session eks base trail_seed = Return (Ok (oks, trail, kss)) /\
    construct_onion_packet payloads oks prng hash = Return (Ok (mkOnionPacket 0 (Ok (from_secret_key session)) data hmac)) /\
    travelling hash payloads kms bkeys (Some trail) (from_secret_key session) data hmac.
Proof.
  intros Hsec Heks Hn Hlen Hfit. pose proof Hsec as (Hpub & Hbl & Htr). pose proof (Forall2_length _ _ _ Heks) as He.
  assert (length (path_hops path) = length kms) as Hhops by (apply (f_equal length) in Hpub; by rewrite !length_map in Hpub).
  rewrite length_map in He. unfold construct_pq_onion_keys_and_trail, construct_pq_onion_keys_inner.
  rewrite Htr, (proj2 (Nat.ltb_ge _ _)) by lia. cbn [orb]. rewrite bool_decide_false by (destruct (path_hops path); cbn in *; [lia|done]).
  rewrite length_map, (proj2 (Nat.eqb_eq _ _)) by lia. cbn [orb negb].
  pose proof (path_pubkeys _ _ _ Hsec) as Hp. unfold nontrampoline_tail in Hp. rewrite Htr in Hp. rewrite Hp.
  destruct (construct_onion_keys_chain (map node_secret kms ++ bkeys) session) as (keys & -> & Hchain).
  pose proof (key_chain_length _ _ _ Hchain) as Hk. rewrite length_app, length_map in Hk. cbn [mbind Prelude.run_bind].
  destruct (pq_onion_keys_hybrid base keys 0 eks _ Heks ltac:(lia)) as (oks & cts & kss & -> & Hh).
  destruct (hybrid_keys_cts _ _ _ _ _ Hh) as (Hc1 & Hc2 & Hc3). rewrite length_map in Hc1. cbn [mret run_ret mbind Prelude.run_bind].
  destruct (build_pq_trail_padded cts trail_seed ltac:(lia) Hc3) as (padding & -> & Hpad). cbn [mbind Prelude.run_bind].
  destruct (packet_sealed payloads oks prng hash) as (first & data & hmac & Hfirst & Hcon & Hsealed);
    [by destruct payloads; cbn in *; [lia|]|lia|done|].
  rewrite (first_ephemeral _ _ _ _ _ _ _ _ Hchain Hh Hfirst) in Hcon.
  exists oks, (mjoin cts ++ padding), kss, data, hmac. split_and!; [done|done|].
  exists keys, oks, cts, kss. split_and!; [done|done| |done]. by exists padding.
Qed.

(** The keys a sender knows are those of the nodes. *)
Definition kem_keys_right (kem_key : PublicKey -> option bytes) (kms : list KeysManager) : Prop :=
  Forall (fun km => forall ek, kem_key (from_secret_key (node_secret km)) = Some ek -> kem_pair ek (pq_kem_node_secret km)) kms.

Lemma known_kem_keys kem_key kms : kem_keys_right kem_key kms -> forall hops eks,
  map hop_pubkey hops = map from_secret_key (map node_secret kms) ->
  mapM (fun hop => kem_key (hop_pubkey hop)) hops = Some eks -> Forall2 kem_pair eks (map pq_kem_node_secret kms).
Proof.
  induction 1 as [|km kms Hkm Hkms IH]; intros [|hop hops] eks Hpub Hkeys; try done.
  - injection Hkeys as <-. constructor.
  - injection Hpub as Hhop Hpub. cbn in Hkeys. destruct (kem_key (hop_pubkey hop)) as [ek|] eqn:E; [|done]. cbn in Hkeys.
    destruct (mapM _ hops) as [eks'|] eqn:E'; [|done]. injection Hkeys as <-. constructor; [|by eapply IH].
    apply Hkm. by rewrite <- Hhop.
Qed.

(** A payment can be sent: post-quantum if all keys are known, else classical, which
    is enough unless the recipient's path is a post-quantum one. *)
Definition sendable (require : bool) (kem_key : PublicKey -> option bytes) (path : Path) : Prop :=
  path_kem_keys path kem_key <> None \/ require = false /\ blinded_tail path ≫= tail_kem_ct = None.

Lemma onion_travels require kem_key path kms bkeys session ro height hash keysend invreq prng base trail_seed payloads amt cltv :
  path_secrets path kms bkeys -> kem_keys_right kem_key kms -> (0 < length kms <= MAX_PATH_LENGTH_ESTIMATE)%nat ->
  sendable require kem_key path -> (blinded_tail path <> None -> rof_payment_metadata ro = None) ->
  build_onion_payloads path ro height keysend invreq None = Ok (payloads, amt, cltv) ->
  length payloads = (length kms + length bkeys)%nat -> payloads_fit payloads ->
  exists data hmac trail kss, payment_onion require kem_key path session ro height hash keysend invreq prng base trail_seed =
      Return (Ok (mkOnionPacket 0 (Ok (from_secret_key session)) data hmac, amt, cltv, trail, kss, blinded_tail path ≫= tail_kem_ct)) /\
    travelling hash payloads kms bkeys trail (from_secret_key session) data hmac.
Proof.
  intros Hsec Hright Hn Hsend Hmeta Hbuild Hlen Hfit. pose proof Hsec as (Hpub & _ & Htr). unfold payment_onion.
  destruct (path_kem_keys path kem_key) as [[eks teks]|] eqn:Hkeys.
  - unfold path_kem_keys in Hkeys. destruct (pq_eligible path) eqn:Helig; [|done].
    destruct (mapM _ (path_hops path)) as [eks'|] eqn:Hm; [|done]. cbn in Hkeys.
    assert (eks' = eks) as -> 
      by (destruct (blinded_tail path) as [bt|]; [destruct (mapM _ (trampoline_hops bt))|]; by simplify_eq/=).
    pose proof (known_kem_keys _ _ Hright _ _ Hpub Hm) as Heks.
    destruct (pq_packet path kms bkeys session eks base trail_seed payloads prng hash Hsec Heks Hn Hlen Hfit)
      as (oks & trail & kss & data & hmac & Hcon & Hpkt & Htravel).
    exists data, hmac, (Some trail), (Some (mjoin kss)). split; [|done].
    unfold create_pq_payment_onion, create_pq_plain_onion. rewrite Htr. cbn [negb].
    unfold pq_eligible in Helig. rewrite Htr in Helig.
    replace (match blinded_tail path with Some bt => negb (is_some (tail_kem_ct bt)) | None => false end) with false
      by (apply andb_true_iff in Helig as [_ Helig]; destruct (blinded_tail path); [cbn in Helig; by rewrite Helig|done]).
    rewrite Hbuild. cbn. rewrite Hcon. cbn. rewrite Hpkt. done.
  - destruct Hsend as [|[-> Hct]]; [done|]. rewrite Hct.
    destruct (classical_packet path kms bkeys session payloads prng hash Hsec) as (oks & data & hmac & Hcon & Hpkt & Htravel);
      [by destruct payloads; cbn in *; [lia|]|done|done|].
    exists data, hmac, None, None. split; [|done].
    assert (inner_trampoline_onion path session ro height hash keysend prng = Return (Ok (ro, None))) as Hinner.
    { unfold inner_trampoline_onion. unfold has_trampoline_hops in Htr. destruct (blinded_tail path) as [bt|] eqn:Ebt; [|done].
      rewrite Hmeta by done. cbn [is_some]. by destruct (bool_decide _). }
    unfold create_payment_onion_internal. rewrite Hinner. cbn [OnionRoute.run_bind mbind Prelude.run_bind mret run_ret]. rewrite Hbuild. cbn. rewrite Hcon. cbn. rewrite Hpkt. done.
Qed.

Lemma after_hops hops info : foldr after_hop (Return (Ok ([], info))) hops = Return (Ok (hops, info)).
Proof. induction hops as [|hop hops IH]; [done|]. cbn [foldr]. by rewrite IH. Qed.

(** ** Payments to a node of the route *)

(** What the recipient is to receive. *)
Definition received_payment (ro : RecipientOnionFields) (keysend : option bytes) (cltv : Z) : option PendingHTLCRouting :=
  match keysend, payment_data_of ro with
  | Some preimage, payment_data =>
      Some (RoutingReceiveKeysend payment_data preimage (rof_payment_metadata ro) cltv (rof_custom_tlvs ro) false false None None)
  | None, Some payment_data =>
      Some (RoutingReceive payment_data (rof_payment_metadata ro) None cltv None None (rof_custom_tlvs ro) false)
  | None, None => None
  end.

Lemma received_payment_routing ro keysend amt cltv amt' cltv' hash h routing :
  received_payment ro keysend cltv = Some routing -> (forall k, keysend = Some k -> sha256 k = hash) ->
  receive_routing (plain_fields (mkInReceive (payment_data_of ro) (rof_payment_metadata ro) keysend (rof_custom_tlvs ro) amt' cltv') None)
    hash amt cltv None h = Ok routing.
Proof.
  unfold received_payment, receive_routing. cbn. destruct keysend as [k|]; [|destruct (payment_data_of ro)]; intros [= <-] Hk; try done.
  by rewrite bool_decide_true by (by apply Hk).
Qed.

(** The payloads of a route to [lst]. *)
Definition route_payloads (pre : list RouteHop) (lst : RouteHop) (ro : RecipientOnionFields) (keysend : option bytes) (height : Z)
    : list OutboundOnionPayload :=
  map forward_payload (forwards pre [lst] 0 height) ++
  [OutReceive (payment_data_of ro) (rof_payment_metadata ro) keysend (rof_custom_tlvs ro) (hop_fee_msat lst) (cltv_from [lst] height)].

Lemma forwards_length pre suf final height : length (forwards pre suf final height) = length pre.
Proof. induction pre; cbn; congruence. Qed.

(** A route that can be paid over: the fees and the deltas add up within the limits. *)
Definition payable (pre : list RouteHop) (lst : RouteHop) (final height : Z) : Prop :=
  Forall forwarding_hop_ok pre /\ hop_ok lst /\ 0 <= final /\ 0 <= height /\ 0 < final + hop_fee_msat lst /\
  value_from (pre ++ [lst]) final < 21000000 * 100000000 * 1000 /\ cltv_from (pre ++ [lst]) height < 500000000.

Lemma payable_hops pre lst final height : payable pre lst final height -> Forall hop_ok (pre ++ [lst]).
Proof.
  intros (Hpre & Hlst & _). apply Forall_app. split; [|by constructor]. eapply Forall_impl; [done|apply forwarding_hop_ok_hop].
Qed.

Lemma route_payloads_built pre lst ro keysend invreq height : payable pre lst 0 height ->
  build_onion_payloads (mkPath (pre ++ [lst]) None) ro height keysend invreq None =
    Ok (route_payloads pre lst ro keysend height, value_from (pre ++ [lst]) 0, cltv_from (pre ++ [lst]) height).
Proof.
  intros Hpay. pose proof (payable_hops _ _ _ _ Hpay) as Hok. destruct Hpay as (Hpre & Hlst & Hf & Hh & Hpos & Hv & Hc).
  unfold build_onion_payloads, route_payloads. apply (callback_exact ro height keysend invreq pre lst _ _ 0); try done.
  assert (cltv_from [lst] height <= cltv_from (pre ++ [lst]) height) as H2
    by (rewrite cltv_from_app; apply cltv_from_ge; eapply Forall_impl; [done|apply forwarding_hop_ok_hop]).
  cbn [cltv_from] in *. unfold last_payloads. cbn. rewrite saturating_add_exact by (cbn; lia). done.
Qed.

(** C4: a payment arrives: for every route of nodes and channels with fees, deltas and
    heights within the limits, whose payloads fit a packet, the onion the sender
    builds, post-quantum or classical, takes the HTLC through all of them: every hop
    forwards to the channel, with the amount and the expiry, that the route has for
    it, and the last node accepts the payment with the secret, the metadata, the
    preimage and the records the sender put in. *)
Theorem payment_delivered require kem_key pre lst kms session ro height hash keysend invreq prng base trail_seed h id fuel acc routing :
  let path := mkPath (pre ++ [lst]) None in
  map hop_pubkey (path_hops path) = map from_secret_key (map node_secret kms) ->
  kem_keys_right kem_key kms -> (length kms <= MAX_PATH_LENGTH_ESTIMATE)%nat -> sendable require kem_key path ->
  payable pre lst 0 height -> payloads_fit (route_payloads pre lst ro keysend height) ->
  timely h (cltv_from [lst] height) (cltv_from (path_hops path) height) ->
  opt_wf (fun d => total_msat d <= MAX_VALUE_MSAT) (payment_data_of ro) ->
  received_payment ro keysend (cltv_from [lst] height) = Some routing -> (forall k, keysend = Some k -> sha256 k = hash) ->
  let amt := value_from (path_hops path) 0 in
  let cltv := cltv_from (path_hops path) height in
  exists packet trail kss ss,
    payment_onion require kem_key path session ro height hash keysend invreq prng base trail_seed =
      Return (Ok (packet, amt, cltv, trail, kss, None)) /\
    deliver fuel h kms (mkUpdateAdd id amt hash cltv packet (mkExtras None None None acc trail None)) =
      Return (Ok (forwards pre [lst] 0 height,
                  mkPendingHTLCInfo routing ss hash (Some (hop_fee_msat lst)) (hop_fee_msat lst) (cltv_from [lst] height) None acc)).
Proof.
  intros path Hpub Hright Hn Hsend Hpay Hfit Htime Htot Hrecv Hkeysend amt cltv.
  pose proof (payable_hops _ _ _ _ Hpay) as Hok. pose proof Hpay as (Hpre & Hlst & Hf & Hh & Hpos & Hv & Hc).
  assert (length kms = S (length pre)) as Hk.
  { apply (f_equal length) in Hpub. rewrite !length_map in Hpub. cbn in Hpub. rewrite length_app in Hpub. cbn in Hpub. lia. }
  destruct (onion_travels require kem_key path kms [] session ro height hash keysend invreq prng base trail_seed
              (route_payloads pre lst ro keysend height) amt cltv)
    as (data & hmac & trail & kss & Honion & Htravel); [done|done|lia|done|done|by apply route_payloads_built| |done|].
  { unfold route_payloads. rewrite length_app, length_map, forwards_length. cbn. lia. }
  destruct kms as [|km kms] using rev_ind; [done|]. clear IHkms. rewrite length_app in Hk. cbn in Hk.
  assert (value_from [lst] 0 = hop_fee_msat lst) as Hval by (cbn; lia).
  assert (value_from (pre ++ [lst]) 0 <= MAX_VALUE_MSAT) as Hmax by (unfold MAX_VALUE_MSAT; lia).
  assert (Forall (kem_ready None) kms) as Hready by (by apply Forall_forall).
  unfold route_payloads in Htravel. set (lastp := [OutReceive _ _ _ _ _ _]) in Htravel.
  assert (length kms = length pre) as Hlen by lia.
  destruct (deliver_forwards fuel h id hash 0 height None acc [lst] [] lastp [km] [km] _ cltv pre Hpre
              (Forall_cons_2 _ _ _ Hlst (Forall_nil_2 _)) ltac:(done) Hf Htime (Z.le_refl _) kms trail _ data hmac Hlen
              Hready Hmax (Z.le_refl _) Htravel) as (trail' & e' & data' & hmac' & Htr & _ & Hdel).
  destruct (travelling_opens _ _ _ _ _ _ _ None _ _ _ Htr I)
    as (kem_ss & hybrid & next & classical & oks & e'' & Hopens & _ & Hsealed & _).
  assert (oks = []) as -> by (destruct Hsealed as (_ & E & _); cbn in E; by destruct oks).
  eexists _, trail, kss, hybrid. split; [exact Honion|]. etransitivity; [exact Hdel|].
  erewrite deliver_receive; [|done|exact Hsealed|rewrite Hval in *|done| |by apply received_payment_routing].
  - rewrite after_hops, Hval. done.
  - pose proof (value_from_ge pre (value_from [lst] 0) ltac:(eapply Forall_impl; [done|apply forwarding_hop_ok_hop])) as Hle.
    rewrite <- value_from_app in Hle. lia.
  - split_and!; cbn; [lia|lia|]. destruct Htime as (? & ? & ? & ?). rewrite wrapping_small; [done|].
    unfold fits, CLTV_FAR_FAR_AWAY, HTLC_FAIL_BACK_BUFFER, CLTV_CLAIM_BUFFER, MAX_BLOCKS_FOR_CONF, LATENCY_GRACE_PERIOD_BLOCKS in *. lia.
Qed.

End delivery.
