(* ===== verification/BlindedDelivery.v ===== *)
(** * Delivery over a blinded path

    A payment to the paths of PaymentPath.v: the introduction node is the last hop of the
    route; from there every node finds the data the recipient left for it, and with it
    the channel, the amount and the expiry of the next HTLC and the blinding point the
    next node needs, on classical and on post-quantum paths. *)

From Stdlib Require Import ZArith Lia Bool.
From stdpp Require Import strings.
From S2P Require Import Prelude.
From S2P Require Import Features.
From S2P Require Import Keys.
From S2P Require Import ChannelState.
From S2P Require Import Ser.
From S2P Require Import Onion.
From S2P Require Import PqKem.
From S2P Require Import Streams.
From S2P Require Import BlindedPath.
From S2P Require Import BlindedFees.
From S2P Require Import PaymentPath.
From S2P Require Import OnionPayload.
From S2P Require Import OnionRoute.
From S2P Require Import OnionReceive.
From S2P Require Import OnionDelivery.

Local Open Scope Z_scope.

Section blinded.
Context {bitcoin : Bitcoin} {crypto : OnionCrypto} {kem : Kem} {poly : Poly1305}.
Context {contexts : PaymentContexts} {invoice_requests : InvoiceRequests} {sources : Sources}.
Context {bitcoin_laws : BitcoinLaws} {crypto_laws : OnionCryptoLaws} {kem_laws : KemLaws}.
#[local] Existing Instance onion_payloads.

(** ** The ciphertexts of a blinded path

    The ones of the nodes ahead are at the front; [ks] are the secrets in them, [None] on a
    classical path. *)
Fixpoint cts_for (kms : list KeysManager) (ks : list (option bytes)) (cts : list bytes) : Prop :=
  match kms, ks, cts with
  | [], [], [] => True
  | km :: kms, Some k :: ks, ct :: cts =>
      length ct = PQ_KEM_CT_LEN /\ decapsulate (pq_kem_node_secret km) ct = Some k /\ cts_for kms ks cts
  | _, _, _ => False
  end.
Definition cts_ahead (ct : option bytes) (kms : list KeysManager) (ks : list (option bytes)) : Prop :=
  match ct with
  | None => ks = map (fun _ => None) kms
  | Some list => exists cts padding, list = mjoin cts ++ padding /\ (PQ_KEM_CT_LEN < length list)%nat /\ cts_for kms ks cts
  end.

Lemma cts_ahead_next ct km kms k ks : cts_ahead ct (km :: kms) (k :: ks) ->
  blinded_kem_secret ct (keys_manager_signer km) = Ok k /\ cts_ahead (rotate_blinded_ct_list ct true) kms ks.
Proof.
  destruct ct as [list|]; [|by intros [= -> ->]]. intros ([|ct cts] & padding & -> & Hlen & Hcts); [by destruct k|].
  destruct k as [k|]; [|done]. destruct Hcts as (Hct & Hd & Hcts).
  change (mjoin (ct :: cts)) with (ct ++ mjoin cts) in *. rewrite <- app_assoc in *. split.
  - unfold blinded_kem_secret. rewrite (proj2 (Nat.leb_le _ _)) by lia. rewrite take_app_length' by done.
    cbn [keys_manager_signer pq_kem_decapsulate]. by rewrite Hd.
  - unfold rotate_blinded_ct_list. cbn [negb orb]. rewrite (proj2 (Nat.leb_gt _ _)) by done.
    rewrite take_app_length', drop_app_length' by done. exists cts, (padding ++ ct). rewrite app_assoc. split_and!; [done| |done].
    rewrite !length_app in *. lia.
Qed.

(** The next blinding point is advanced with the same secret. *)
Lemma next_blinding_point_advance ct km k bp failure : blinded_kem_secret ct (keys_manager_signer km) = Ok k ->
  next_blinding_point (mkBlindedForward bp failure None) ct (keys_manager_signer km) =
    next_hop_pubkey bp (route_blinding_secret (node_secret km) bp k).
Proof.
  unfold next_blinding_point, blinded_kem_secret. cbn [blinded_next_override inbound_blinding_point keys_manager_signer ecdh
    ecdh_with run_ok mret run_ret mbind Prelude.run_bind pq_kem_decapsulate].
  destruct ct as [list|]; [|by intros [= <-]]. destruct (PQ_KEM_CT_LEN <=? length list)%nat; [|done].
  destruct (decapsulate _ _) as [kem_ss|]; [|done]. by intros [= <-].
Qed.

(** ** One node of the path *)

Lemma deliver_blinded_forward fuel h km id amt hash cltv e data hmac skim up hold acc trail ct k hybrid next classical
    enc intro bp t amt' cltv' p payloads oks e' bp' :
  opens km up trail ct e k hybrid next classical ->
  sealed hash (OutBlindedForward enc intro :: p :: payloads) (onion_keys_of hybrid e :: oks) data hmac ->
  blinding_point_of intro up bp -> fwd_next_blinding_override t = None ->
  decrypt_tlvs blinded_payment_tlvs_read (keys_manager_signer km) bp k enc = Ok (TlvsForward t, NoAAD) ->
  check_blinded_forward amt cltv (fwd_payment_relay t) (fwd_payment_constraints t) (fwd_features t) = Ok (amt', cltv') ->
  next_hop_pubkey e (default hybrid classical) = Return (Some e') ->
  next_hop_pubkey bp (route_blinding_secret (node_secret km) bp k) = Return (Some bp') ->
  check_incoming_htlc_cltv h cltv' cltv MIN_CLTV_EXPIRY_DELTA = Ok tt ->
  exists data' hmac', sealed hash (p :: payloads) oks data' hmac' /\
    forall nodes, deliver fuel h (km :: nodes) (add_htlc id amt hash cltv e data hmac (mkExtras skim up hold acc trail ct)) =
    after_hop (fwd_short_channel_id t, amt', cltv')
      (deliver fuel h nodes (add_htlc id amt' hash cltv' e' data' hmac'
         (mkExtras None (Some bp') None acc None (rotate_blinded_ct_list ct true)))).
Proof.
  intros Hopens Hsealed Hbp Hover Hdecrypt Hcheck He' Hbp' Hcltv. pose proof (opens_kem _ _ _ _ _ _ _ _ _ Hopens) as Hkem.
  destruct (decode_layer _ _ _ _ _ _ _ _ _ _ _ _ _ _ _ _ Hopens Hsealed (read_blinded_forward enc intro up bp k _ t Hbp Hdecrypt))
    as (packet & Hdec & hmac' & data' & -> & Hnext).
  exists data', hmac'. split; [done|]. intros nodes. cbn [deliver].
  erewrite peel_decoded; [|reflexivity| | |]; cycle 1.
  { unfold decode_incoming_update_add_htlc_onion. cbn. rewrite Hdec. cbn. rewrite Hcheck. cbn.
    unfold advance_key. rewrite He'. cbn. reflexivity. }
  { done. }
  { exact Hcltv. }
  assert (or_else intro up = Some bp) as Hor by (by destruct (blinding_point_of_or _ _ _ Hbp)).
  cbn -[next_blinding_point rotate_blinded_ct_list]. rewrite Hcheck. cbn -[next_blinding_point rotate_blinded_ct_list].
  unfold direct_routing, blinded_forward. cbn -[next_blinding_point rotate_blinded_ct_list]. rewrite Hor, Hover.
  cbn -[next_blinding_point rotate_blinded_ct_list].
  rewrite (next_blinding_point_advance _ _ _ _ _ Hkem), Hbp'. done.
Qed.

(** ** The chain of the nodes, with the keys of their blinded node ids *)

Fixpoint keyed_chain (bp : PublicKey) (nodes : list (KeysManager * option bytes)) (path : list path_hop) (hops : list BlindedHop)
    (bkeys : list SecretKey) : Prop :=
  match nodes, path, hops, bkeys with
  | [], [], [], [] => True
  | (km, k) :: nodes, (_, recv_key, tlvs) :: path, hop :: hops, key :: bkeys =>
      let ss := route_blinding_secret (node_secret km) bp k in
      blinded_key (node_secret km) ss key /\ blinded_node_id hop = from_secret_key key /\
      encrypted_payload hop = encrypt_payload tlvs (gen_rho_from_shared_secret ss) recv_key /\
      exists next, next_hop_pubkey bp ss = Return (Some next) /\ keyed_chain next nodes path hops bkeys
  | _, _, _, _ => False
  end.

Lemma blinded_chain_keyed nodes : forall bp path hops,
  blinded_chain bp (map (fun '(km, k) => (node_secret km, k)) nodes) path hops ->
  exists bkeys, keyed_chain bp nodes path hops bkeys /\ map blinded_node_id hops = map from_secret_key bkeys.
Proof.
  induction nodes as [|[km k] nodes IH]; intros bp [|[[pk rk] tlvs] path] [|hop hops]; cbn; try done; [by exists []|].
  intros ((key & Hkey & Hid) & Henc & next & Hnext & (bkeys & Hchain & Hids)%IH). exists (key :: bkeys). cbn. rewrite Hid, Hids.
  split_and!; try done. by exists next.
Qed.

(** A node of the path that can open its layer: the introduction node with the trail, the
    others with the blinding point. *)
Definition station (hash : bytes) (payloads : list OutboundOnionPayload) (km : KeysManager) (k : option bytes)
    (bkeys : list SecretKey) (up : option PublicKey) (trail ct : option bytes) (e : PublicKey) (data hmac : bytes) : Prop :=
  exists hybrid next classical oks e', opens km up trail ct e k hybrid next classical /\
    sealed hash payloads (onion_keys_of hybrid e :: oks) data hmac /\
    next_hop_pubkey e (default hybrid classical) = Return (Some e') /\
    forall data' hmac', sealed hash (tail payloads) oks data' hmac' -> travelling hash (tail payloads) [] bkeys None e' data' hmac'.

Lemma hybrid_no_cts keys oks cts kss : hybrid_keys keys [] oks cts kss -> cts = [].
Proof.
  revert oks. induction keys as [|[ss e] keys IH]; intros oks; cbn; [by intros (_ & -> & _)|].
  intros (oks' & _ & H). by eapply IH.
Qed.

Lemma introduction_station hash payloads km k bkeys trail ct e data hmac : payloads <> [] ->
  travelling hash payloads [km] bkeys trail e data hmac -> blinded_kem_secret ct (keys_manager_signer km) = Ok k ->
  kem_ready ct km -> station hash payloads km k bkeys None trail ct e data hmac.
Proof.
  destruct payloads as [|p payloads]; [done|]. intros _ Htr Hk Hready.
  destruct (travelling_opens _ _ _ _ _ _ _ ct _ _ _ Htr Hready)
    as (k' & hybrid & next & classical & oks & e' & Hopens & Hk' & Hsealed & He' & _ & Hrest).
  assert (k' = k) as -> by congruence. exists hybrid, next, classical, oks, e'. split_and!; try done.
  intros data' hmac' Hs. destruct (Hrest _ _ Hs) as (keys & oks' & cts & kss & H1 & H2 & H3 & H4).
  assert (trail_of next [] = []) as E by (by destruct next). rewrite E in H2. pose proof (hybrid_no_cts _ _ _ _ H2) as ->.
  by exists keys, oks', [], kss.
Qed.

Lemma blinded_station hash payloads km k bp key bkeys ct e data hmac : payloads <> [] ->
  travelling hash payloads [] (key :: bkeys) None e data hmac -> blinded_kem_secret ct (keys_manager_signer km) = Ok k ->
  blinded_key (node_secret km) (route_blinding_secret (node_secret km) bp k) key ->
  station hash payloads km k bkeys (Some bp) None ct e data hmac.
Proof.
  destruct payloads as [|p payloads]; [done|]. intros _ (keys & oks & cts & kss & Hchain & Hkeys & Htrail & Hsealed) Hk (t & Ht & Hmul).
  destruct keys as [|[ss e0] keys]; [done|]. destruct Hchain as (-> & Hss & e' & He' & Hchain).
  destruct Hkeys as (oks' & -> & Hkeys). cbn in Htrail. subst cts.
  exists ss, None, None, oks', e'. split_and!; [|done|done|].
  - split; [done|]. exists (Some t), ss. split_and!; [|cbn; by rewrite Hmul, Hss|done].
    unfold blinded_node_id_tweak. cbn [keys_manager_signer ecdh ecdh_with run_ok mret run_ret mbind Prelude.run_bind].
    replace (fold_kem_secret (shared_secret bp (node_secret km)) k) with (route_blinding_secret (node_secret km) bp k) by (by destruct k).
    by rewrite Ht.
  - intros data' hmac' Hs. by exists keys, oks', [], kss.
Qed.

(** With the recipient's key in it, the tag of the data of a hop is not the tag without. *)
Fixpoint tags_ok (bp : PublicKey) (nodes : list (KeysManager * option bytes)) (path : list path_hop) : Prop :=
  match nodes, path with
  | (km, k) :: nodes, (_, recv_key, tlvs) :: path =>
      let ss := route_blinding_secret (node_secret km) bp k in
      (forall key, recv_key = Some key -> tags_differ tlvs (gen_rho_from_shared_secret ss) key) /\
      forall next, next_hop_pubkey bp ss = Return (Some next) -> tags_ok next nodes path
  | _, _ => True
  end.

Section payment.
Variables (ro : RecipientOnionFields) (height : Z) (keysend : option bytes) (invreq : option InvoiceRequest).
Variables (final excess : Z) (hash : bytes).

Definition tail_payloads (hops : list BlindedHop) (intro : option PublicKey) : list OutboundOnionPayload :=
  blinded_payloads ro height keysend invreq hops intro final excess.

(** An HTLC at the first of these nodes of a blinded path. *)
Definition arrived (nodes : list (KeysManager * option bytes)) (path : list path_hop) (hops : list BlindedHop)
    (bkeys : list SecretKey) (bp : PublicKey) (intro up : option PublicKey) (trail ct : option bytes) (e : PublicKey)
    (data hmac : bytes) : Prop :=
  match nodes with
  | [] => False
  | (km, k) :: _ =>
      station hash (tail_payloads hops intro) km k (tail bkeys) up trail ct e data hmac /\ blinding_point_of intro up bp /\
      keyed_chain bp nodes path hops bkeys /\ tags_ok bp nodes path /\ cts_ahead ct (map fst nodes) (map snd nodes)
  end.

Lemma tail_payloads_cons hop hop' hops intro : tail_payloads (hop :: hop' :: hops) intro =
  OutBlindedForward (encrypted_payload hop) intro :: tail_payloads (hop' :: hops) None.
Proof. done. Qed.
Lemma tail_payloads_nonempty hop hops intro : tail_payloads (hop :: hops) intro <> [].
Proof. by destruct hops. Qed.

(** The HTLC of the next node, once the packet for it is known. *)
Lemma arrived_next node nodes path hop hop' hops key bkeys ct e' bp' data' hmac' :
  travelling hash (tail_payloads (hop' :: hops) None) [] bkeys None e' data' hmac' ->
  keyed_chain bp' (node :: nodes) path (hop' :: hops) bkeys -> tags_ok bp' (node :: nodes) path ->
  cts_ahead ct (map fst (node :: nodes)) (map snd (node :: nodes)) ->
  arrived (node :: nodes) path (tail (hop :: hop' :: hops)) (tail (key :: bkeys)) bp' None (Some bp') None ct e' data' hmac'.
Proof.
  destruct node as [km k]. intros Htr Hchain Htags Hcts. cbn [arrived tail].
  destruct path as [|[[pk rk] tlvs] path]; [done|]. destruct bkeys as [|key' bkeys]; [done|].
  pose proof Hchain as (Hkey & _). split; [|split; [by right|done]].
  eapply blinded_station; [apply tail_payloads_nonempty|done|by eapply cts_ahead_next|done].
Qed.

Lemma arrived_forward fuel h km k node nodes id amt cltv acc skim hold pk t path hops bkeys bp intro up trail ct e data hmac amt' cltv' :
  arrived ((km, k) :: node :: nodes) ((pk, None, padded (forward_tlvs t)) :: path) hops bkeys bp intro up trail ct e data hmac ->
  payment_tlvs_wf (TlvsForward t) ->
  check_blinded_forward amt cltv (fwd_payment_relay t) (fwd_payment_constraints t) (fwd_features t) = Ok (amt', cltv') ->
  check_incoming_htlc_cltv h cltv' cltv MIN_CLTV_EXPIRY_DELTA = Ok tt ->
  exists bp' e' data' hmac', arrived (node :: nodes) path (tail hops) (tail bkeys) bp' None (Some bp') None
      (rotate_blinded_ct_list ct true) e' data' hmac' /\
    forall kms, deliver fuel h (km :: kms) (add_htlc id amt hash cltv e data hmac (mkExtras skim up hold acc trail ct)) =
    after_hop (fwd_short_channel_id t, amt', cltv')
      (deliver fuel h kms (add_htlc id amt' hash cltv' e' data' hmac'
         (mkExtras None (Some bp') None acc None (rotate_blinded_ct_list ct true)))).
Proof.
  intros (Hst & Hbp & Hchain & [_ Htags] & Hcts) Hwf Hcheck Hcltv. destruct hops as [|hop hops], bkeys as [|key bkeys]; try done.
  destruct Hchain as (Hkey & Hid & Henc & bp' & Hbp' & Hchain).
  destruct node as [km2 k2]. destruct path as [|[[pk2 rk2] tlvs2] path], hops as [|hop' hops], bkeys as [|key' bkeys]; try done.
  destruct (cts_ahead_next _ _ _ _ _ Hcts) as [Hk Hcts'].
  destruct Hst as (hybrid & next & classical & oks & e' & Hopens & Hsealed & He' & Hrest).
  rewrite tail_payloads_cons in Hsealed, Hrest. cbn [tail] in Hrest.
  destruct (tail_payloads (hop' :: hops) None) as [|p payloads] eqn:Ep; [by destruct hops|].
  pose proof (decrypt_forward km bp k t PAYMENT_PADDING_ROUND_OFF ltac:(apply Nat.leb_le; reflexivity) Hwf) as Hdec.
  replace (fold_kem_secret (shared_secret bp (node_secret km)) k) with (route_blinding_secret (node_secret km) bp k) in Hdec
    by (by destruct k).
  fold (padded (forward_tlvs t)) in Hdec. rewrite <- Henc in Hdec.
  set (t' := mkForwardTlvs _ _ _ _ None) in Hdec.
  destruct (deliver_blinded_forward fuel h km id amt hash cltv e data hmac skim up hold acc trail ct k hybrid next classical _ intro bp
              t' amt' cltv' p payloads oks e' bp' Hopens Hsealed Hbp eq_refl Hdec Hcheck He' Hbp' Hcltv)
    as (data' & hmac' & Hs & Hdel).
  exists bp', e', data', hmac'. split; [|exact Hdel].
  apply (arrived_next _ _ _ hop hop' hops key); [rewrite Ep; by apply Hrest|done|by apply Htags|done].
Qed.

(** What the nodes of the path forward, starting from an HTLC of [amt] and [cltv]. *)
Fixpoint blinded_forwards (ts : list ForwardTlvs) (amt cltv : Z) : result unit (list (Z * Z * Z) * Z * Z) :=
  match ts with
  | [] => Ok ([], amt, cltv)
  | t :: ts =>
      '(amt', cltv') ← check_blinded_forward amt cltv (fwd_payment_relay t) (fwd_payment_constraints t) (fwd_features t);
      '(hops, last_amt, last_cltv) ← blinded_forwards ts amt' cltv';
      Ok ((fwd_short_channel_id t, amt', cltv') :: hops, last_amt, last_cltv)
  end.

Definition relaying_tlvs_ok (t : ForwardTlvs) : Prop :=
  payment_tlvs_wf (TlvsForward t) /\ MIN_CLTV_EXPIRY_DELTA <= relay_cltv_expiry_delta (fwd_payment_relay t).

Lemma check_blinded_forward_cltv amt cltv relay cs fs amt' cltv' :
  check_blinded_forward amt cltv relay cs fs = Ok (amt', cltv') -> cltv' = cltv - relay_cltv_expiry_delta relay.
Proof.
  unfold check_blinded_forward. destruct (amt_to_forward_msat _ _) as [a|]; [|done]. destruct (_ <? _); [done|].
  destruct (check_blinded_payment_constraints _ _ _); [|done]. cbn [mbind result_bind]. by destruct (requires_unknown_bits_from _ _); intros [= _ <-].
Qed.

Lemma blinded_forwards_cltv ts : Forall relaying_tlvs_ok ts -> forall amt cltv hops amt' cltv',
  blinded_forwards ts amt cltv = Ok (hops, amt', cltv') -> cltv' <= cltv.
Proof.
  induction 1 as [|t ts [_ Hd] _ IH]; intros amt cltv hops amt' cltv'; cbn [blinded_forwards]; [by intros [= _ _ <-]|].
  destruct (check_blinded_forward _ _ _ _ _) as [[a c]|] eqn:Hc; [|done]. apply check_blinded_forward_cltv in Hc. cbn [mbind result_bind].
  destruct (blinded_forwards ts a c) as [[[hs la] lc]|] eqn:E; [|done]. intros [= _ _ <-]. apply IH in E.
  unfold MIN_CLTV_EXPIRY_DELTA in Hd. lia.
Qed.

Definition forward_path (kms : list KeysManager) (ts : list ForwardTlvs) : list path_hop :=
  zip_with (fun km t => (from_secret_key (node_secret km), None, padded (forward_tlvs t))) kms ts.

Lemma arrived_forwards fuel h id acc last first rest rest_path : rest <> [] -> timely h last first ->
  forall ts, Forall relaying_tlvs_ok ts -> forall kms ks, length kms = length ts -> length ks = length ts ->
  forall amt cltv hops bkeys bp intro up trail ct e data hmac fwd amt' cltv',
  arrived (zip kms ks ++ rest) (forward_path kms ts ++ rest_path) hops bkeys bp intro up trail ct e data hmac ->
  blinded_forwards ts amt cltv = Ok (fwd, amt', cltv') -> last <= cltv' -> cltv <= first ->
  exists hops' bkeys' bp' intro' up' trail' ct' e' data' hmac',
    arrived rest rest_path hops' bkeys' bp' intro' up' trail' ct' e' data' hmac' /\ is_some ct' = is_some ct /\
    (ts = [] -> intro' = intro /\ up' = up) /\ (ts <> [] -> intro' = None) /\ (is_some trail' = true -> is_some trail = true) /\
    forall nodes, deliver fuel h (kms ++ nodes) (add_htlc id amt hash cltv e data hmac (mkExtras None up None acc trail ct)) =
      foldr after_hop (deliver fuel h nodes (add_htlc id amt' hash cltv' e' data' hmac' (mkExtras None up' None acc trail' ct'))) fwd.
Proof.
  intros Hrest Htime ts. induction 1 as [|t ts [Hwf Hdelta] Hts IH]; intros [|km kms] [|k ks] Hkms Hks; try done;
    intros amt cltv hops bkeys bp intro up trail ct e data hmac fwd amt' cltv' Harr Hfwd Hlast Hfirst.
  { injection Hfwd as <- <- <-. exists hops, bkeys, bp, intro, up, trail, ct, e, data, hmac. by split_and!. }
  cbn [blinded_forwards] in Hfwd. destruct (check_blinded_forward amt cltv _ _ _) as [[a c]|] eqn:Hcheck; [|done].
  cbn [mbind result_bind] in Hfwd. destruct (blinded_forwards ts a c) as [[[fwd' la] lc]|] eqn:Hfwd'; [|done].
  injection Hfwd as <- <- <-. injection Hkms as Hkms. injection Hks as Hks.
  pose proof (check_blinded_forward_cltv _ _ _ _ _ _ _ Hcheck) as Hc. pose proof (blinded_forwards_cltv _ Hts _ _ _ _ _ Hfwd') as Hle.
  cbn [zip zip_with forward_path app] in Harr. fold (zip kms ks) in Harr. fold (forward_path kms ts) in Harr.
  destruct (zip kms ks ++ rest) as [|node nodes'] eqn:En; [by apply app_eq_nil in En as [_ ?]|].
  destruct (arrived_forward fuel h km k node nodes' id amt cltv acc None None _ t _ hops bkeys bp intro up trail ct e data hmac a c
              Harr Hwf Hcheck) as (bp' & e' & data' & hmac' & Harr' & Hdel).
  { eapply timely_hop; [done|lia|done|lia]. }
  rewrite <- En in Harr'. unfold MIN_CLTV_EXPIRY_DELTA in Hdelta.
  destruct (IH kms ks Hkms Hks _ _ _ _ _ _ _ _ _ _ _ _ _ _ _ Harr' Hfwd' Hlast ltac:(lia))
    as (hops' & bkeys' & bp'' & intro' & up' & trail' & ct' & e'' & data'' & hmac'' & H1 & H2 & H3 & H4 & H5 & H6).
  exists hops', bkeys', bp'', intro', up', trail', ct', e'', data'', hmac''. split_and!; [done| |done| | |].
  - rewrite H2. by destruct ct; cbn; [case_match|].
  - intros _. destruct ts; [by destruct (H3 eq_refl)|by apply H4].
  - intros H. by apply H5 in H.
  - intros nodes. cbn [app foldr]. rewrite Hdel, H6. done.
Qed.

(** ** The recipient: its dummy hops, then the payment *)

Lemma opens_classical km up ct e k hybrid next classical : opens km up None ct e k hybrid next classical ->
  next = None /\ classical = None.
Proof. intros [_ (t & ss & _ & _ & [= <- <- <-])]. done. Qed.

Lemma peel_dummy fuel msg signer h d ss hmac packet details next : 
  decode_incoming_update_add_htlc_onion msg signer = Return (Ok (HopDummy d ss hmac packet, Some details, next)) ->
  peel_payment_onion (S fuel) msg signer h false =
    mbind (fun msg => peel_payment_onion fuel msg signer h false) (peel_dummy_hop_update_add_htlc msg d hmac packet details signer).
Proof. intros Hd. cbn [peel_payment_onion]. by rewrite Hd. Qed.

Lemma arrived_dummy fuel h km node nodes id amt cltv acc skim hold pk d path hops bkeys bp intro up e data hmac amt' cltv' :
  arrived ((km, None) :: node :: nodes) ((pk, Some (receive_auth_key km), padded (dummy_tlvs d)) :: path) hops bkeys bp intro up
    None None e data hmac -> payment_tlvs_wf (TlvsDummy d) ->
  check_blinded_forward amt cltv (dummy_payment_relay d) (dummy_payment_constraints d) features_empty = Ok (amt', cltv') ->
  exists bp' e' data' hmac', arrived (node :: nodes) path (tail hops) (tail bkeys) bp' None (Some bp') None None e' data' hmac' /\
    peel_payment_onion (S fuel) (add_htlc id amt hash cltv e data hmac (mkExtras skim up hold acc None None)) (keys_manager_signer km) h false =
    peel_payment_onion fuel (add_htlc id amt' hash cltv' e' data' hmac' (mkExtras skim (Some bp') hold acc None None))
      (keys_manager_signer km) h false.
Proof.
  intros (Hst & Hbp & Hchain & [Htag Htags] & Hcts) Hwf Hcheck. destruct hops as [|hop hops], bkeys as [|key bkeys]; try done.
  destruct Hchain as (Hkey & Hid & Henc & bp' & Hbp' & Hchain).
  destruct node as [km2 k2]. destruct path as [|[[pk2 rk2] tlvs2] path], hops as [|hop' hops], bkeys as [|key' bkeys]; try done.
  destruct (cts_ahead_next _ _ _ _ _ Hcts) as [Hk Hcts'].
  destruct Hst as (hybrid & next & classical & oks & e' & Hopens & Hsealed & He' & Hrest).
  destruct (opens_classical _ _ _ _ _ _ _ _ Hopens) as [-> ->]. cbn [default] in He'.
  rewrite tail_payloads_cons in Hsealed, Hrest. cbn [tail] in Hrest.
  destruct (tail_payloads (hop' :: hops) None) as [|p payloads] eqn:Ep; [by destruct hops|].
  pose proof (decrypt_dummy km bp None d PAYMENT_PADDING_ROUND_OFF ltac:(apply Nat.leb_le; reflexivity) Hwf (Htag _ eq_refl)) as Hdec.
  change (fold_kem_secret _ None) with (route_blinding_secret (node_secret km) bp None) in Hdec.
  fold (padded (dummy_tlvs d)) in Hdec. rewrite <- Henc in Hdec.
  destruct (decode_layer _ _ _ _ _ _ _ _ _ _ _ _ _ _ _ _ Hopens Hsealed (read_dummy _ intro up bp None _ _ First Hbp ltac:(done) Hdec))
    as (packet & Hdecode & hmac' & data' & -> & Hnext).
  exists bp', e', data', hmac'. split.
  { apply (arrived_next _ _ _ hop hop' hops key); [rewrite Ep; by apply Hrest|done|by apply Htags|done]. }
  erewrite peel_dummy; cycle 1.
  { unfold decode_incoming_update_add_htlc_onion. cbn -[decode_next_payment_hop]. rewrite Hdecode. cbn. rewrite Hcheck. cbn.
    unfold advance_key. rewrite He'. cbn. reflexivity. }
  assert (or_else intro up = Some bp) as Hor by (by destruct (blinding_point_of_or _ _ _ Hbp)).
  unfold peel_dummy_hop_update_add_htlc. cbn [du_intro_node_blinding_point add_htlc add_extras ChannelState.blinding_point].
  rewrite Hor. cbn [keys_manager_signer ecdh ecdh_with]. cbn [route_blinding_secret] in Hbp'. rewrite Hbp'. done.
Qed.

(** What is left of an HTLC behind the dummy hops. *)
Fixpoint dummy_forwards (ds : list DummyTlvs) (amt cltv : Z) : result unit (Z * Z) :=
  match ds with
  | [] => Ok (amt, cltv)
  | d :: ds =>
      '(amt', cltv') ← check_blinded_forward amt cltv (dummy_payment_relay d) (dummy_payment_constraints d) features_empty;
      dummy_forwards ds amt' cltv'
  end.

Definition dummy_path (km : KeysManager) (ds : list DummyTlvs) : list path_hop :=
  map (fun d => (from_secret_key (node_secret km), Some (receive_auth_key km), padded (dummy_tlvs d))) ds.
Definition receive_hop (km : KeysManager) (r : ReceiveTlvs) : path_hop :=
  (from_secret_key (node_secret km), Some (receive_auth_key km), padded (receive_tlvs r)).

Lemma arrived_dummies h id acc km k r ds : Forall (fun d => payment_tlvs_wf (TlvsDummy d)) ds ->
  forall fuel amt cltv skim hold hops bkeys bp intro up trail ct e data hmac amt' cltv',
  arrived (replicate (length ds) (km, None) ++ [(km, k)]) (dummy_path km ds ++ [receive_hop km r]) hops bkeys bp intro up trail ct e data hmac ->
  (ds <> [] -> trail = None /\ ct = None) -> dummy_forwards ds amt cltv = Ok (amt', cltv') -> (length ds <= fuel)%nat ->
  exists hops' bkeys' bp' intro' up' trail' ct' e' data' hmac',
    arrived [(km, k)] [receive_hop km r] hops' bkeys' bp' intro' up' trail' ct' e' data' hmac' /\
    intro' = (if bool_decide (length ds = 0%nat) then intro else None) /\
    peel_payment_onion fuel (add_htlc id amt hash cltv e data hmac (mkExtras skim up hold acc trail ct)) (keys_manager_signer km) h false =
    peel_payment_onion (fuel - length ds) (add_htlc id amt' hash cltv' e' data' hmac' (mkExtras skim up' hold acc trail' ct'))
      (keys_manager_signer km) h false.
Proof.
  induction 1 as [|d ds Hwf Hds IH]; intros fuel amt cltv skim hold hops bkeys bp intro up trail ct e data hmac amt' cltv' Harr Hnone Hfwd Hfuel.
  { injection Hfwd as <- <-. exists hops, bkeys, bp, intro, up, trail, ct, e, data, hmac. by rewrite Nat.sub_0_r. }
  destruct Hnone as [-> ->]; [done|]. destruct fuel as [|fuel]; [cbn in Hfuel; lia|]. cbn [dummy_forwards] in Hfwd.
  destruct (check_blinded_forward amt cltv _ _ _) as [[a c]|] eqn:Hcheck; [|done]. cbn [mbind result_bind] in Hfwd.
  cbn [length replicate app dummy_path map] in Harr. fold (dummy_path km ds) in Harr.
  destruct (replicate (length ds) (km, None) ++ [(km, k)]) as [|node nodes] eqn:En; [by apply app_eq_nil in En as [_ ?]|].
  destruct (arrived_dummy fuel h km node nodes id amt cltv acc skim hold _ d _ hops bkeys bp intro up e data hmac a c Harr Hwf Hcheck)
    as (bp' & e' & data' & hmac' & Harr' & ->).
  destruct (IH fuel a c skim hold _ _ _ _ _ _ _ _ _ _ _ _ Harr' ltac:(done) Hfwd ltac:(cbn in Hfuel; lia))
    as (hops' & bkeys' & bp'' & intro' & up' & trail' & ct' & e'' & data'' & hmac'' & H1 & H2 & H3).
  exists hops', bkeys', bp'', intro', up', trail', ct', e'', data'', hmac''. split_and!; [done| |done].
  rewrite H2. by case_bool_decide.
Qed.

(** What the recipient of a blinded path is to receive. *)
Definition received_blinded (r : ReceiveTlvs) (is_intro : bool) (cltv : Z) : PendingHTLCRouting :=
  let payment_data := mkFinalOnionHopData (recv_payment_secret r) (total_mpp_amount_msat ro) in
  match keysend with
  | Some preimage =>
      RoutingReceiveKeysend (Some payment_data) preimage None cltv (rof_custom_tlvs ro) (negb is_intro) true invreq
        (Some (recv_payment_context r))
  | None =>
      RoutingReceive payment_data None (Some (recv_payment_context r)) cltv None None (rof_custom_tlvs ro) (negb is_intro)
  end.

Lemma arrived_receive fuel h id amt cltv acc skim hold km k r hops bkeys bp intro up trail ct e data hmac :
  arrived [(km, k)] [receive_hop km r] hops bkeys bp intro up trail ct e data hmac ->
  payment_tlvs_wf (TlvsReceive r) -> 0 <= final <= MAX_VALUE_MSAT -> 0 <= total_mpp_amount_msat ro <= MAX_VALUE_MSAT ->
  check_blinded_payment_constraints final cltv (recv_payment_constraints r) = Ok tt ->
  final <= amt -> wrapping 32 (height + excess) <= cltv -> wrapping 32 (h + HTLC_FAIL_BACK_BUFFER + 1) < cltv ->
  (forall p, keysend = Some p -> sha256 p = hash) ->
  exists ss, peel_payment_onion fuel (add_htlc id amt hash cltv e data hmac (mkExtras skim up hold acc trail ct)) (keys_manager_signer km) h false =
    Return (Ok (mkPendingHTLCInfo (received_blinded r (is_some intro) cltv) ss hash (Some amt) final (wrapping 32 (height + excess)) skim acc)).
Proof.
  intros (Hst & Hbp & Hchain & [Htag _] & Hcts) Hwf Hfinal Htotal Hcons Hamt Hcltv Htime Hkeysend.
  destruct hops as [|hop [|? ?]], bkeys as [|key [|? ?]]; try done; try (destruct Hchain as (_ & _ & _ & ? & _ & []); done).
  destruct Hchain as (_ & _ & Henc & _).
  destruct Hst as (hybrid & next & classical & oks & e' & Hopens & Hsealed & _).
  pose proof (decrypt_receive km bp k r PAYMENT_PADDING_ROUND_OFF ltac:(apply Nat.leb_le; reflexivity) Hwf) as Hdec.
  replace (fold_kem_secret (shared_secret bp (node_secret km)) k) with (route_blinding_secret (node_secret km) bp k) in Hdec
    by (by destruct k).
  specialize (Hdec (Htag _ eq_refl)). fold (padded (receive_tlvs r)) in Hdec. rewrite <- Henc in Hdec.
  cbn [tail_payloads blinded_payloads new_blinded_receive outbound_onion_payload] in Hsealed.
  destruct (decode_layer _ _ _ _ _ _ _ _ _ _ _ _ _ _ _ _ Hopens Hsealed
              (read_blinded_receive _ _ _ _ intro keysend _ invreq up bp k _ _ First Hbp ltac:(done) Hfinal Htotal Hdec))
    as (packet & Hdecode & ->).
  exists hybrid. erewrite peel_received; [|reflexivity| |]; cycle 1.
  { unfold decode_incoming_update_add_htlc_onion. cbn -[decode_next_payment_hop]. rewrite Hdecode. reflexivity. }
  { done. }
  set (payload := mkInBlindedReceive _ _ _ _ _ _ _ _ _ _).
  rewrite (create_recv_accepted _ _ _ _ _ _ _ _ (blinded_fields payload None) (received_blinded r (is_some intro) cltv)); [done| |done|].
  - cbn [receive_fields add_htlc add_cltv_expiry]. change (br_sender_intended_htlc_amt_msat payload) with final.
    change (br_payment_constraints payload) with (recv_payment_constraints r). by rewrite Hcons.
  - unfold receive_routing, received_blinded. cbn. destruct keysend as [p|]; [|done].
    by rewrite bool_decide_true by (by apply Hkeysend).
Qed.

End payment.

(** ** The paths a recipient makes *)

Definition node_key (km : KeysManager) : PublicKey := from_secret_key (node_secret km).
Definition tlvs_of (nodes : list (ForwardNode ForwardTlvs)) : list ForwardTlvs := map node_tlvs nodes.
Definition full_path (bk : list KeysManager) (ts : list ForwardTlvs) (km : KeysManager) (ds : list DummyTlvs) (r : ReceiveTlvs) : list path_hop :=
  forward_path bk ts ++ dummy_path km ds ++ [receive_hop km r].
Definition all_nodes (bk : list KeysManager) (km : KeysManager) (ds : list DummyTlvs) : list KeysManager :=
  bk ++ replicate (length ds) km ++ [km].

(** [path] was made for these nodes: the forwarding nodes [bk] and the recipient [km]. *)
Definition made_path (bpath : BlindedPaymentPath) (nodes : list (ForwardNode ForwardTlvs)) (bk : list KeysManager) (km : KeysManager)
    (ds : list DummyTlvs) (r : ReceiveTlvs) : Prop :=
  map node_id nodes = map node_key bk /\
  ((exists maximum delta entropy,
      new_inner nodes (node_key km) (receive_auth_key km) ds r maximum delta entropy = Return (Ok bpath)) \/
   (ds = [] /\ exists eks ek maximum delta entropy,
      Forall2 kem_pair eks (map pq_kem_node_secret bk) /\ kem_pair ek (pq_kem_node_secret km) /\
      new_pq nodes eks (node_key km) ek (receive_auth_key km) r maximum delta entropy = Return (Ok bpath))).

Lemma forward_hops_path bk : forall nodes, map node_id nodes = map node_key bk ->
  forward_hops nodes = forward_path bk (tlvs_of nodes).
Proof.
  induction bk as [|km bk IH]; intros [|node nodes] H; try done. injection H as Hid H. cbn. rewrite Hid. f_equal. by apply IH.
Qed.

Lemma full_path_of bk nodes km ds r : map node_id nodes = map node_key bk ->
  path_of (map node_secret (all_nodes bk km ds)) (full_path bk (tlvs_of nodes) km ds r).
Proof.
  intros H. assert (length bk = length nodes) as Hlen by (apply (f_equal length) in H; by rewrite !length_map in H).
  unfold path_of, all_nodes, full_path. rewrite !map_app. apply Forall2_app; [|apply Forall2_app].
  - unfold tlvs_of. clear H. revert nodes Hlen. induction bk as [|k bk IH]; intros [|node nodes] Hlen; try done.
    constructor; [done|]. apply IH. by injection Hlen.
  - clear. induction ds; cbn; [constructor|by constructor].
  - by repeat constructor.
Qed.

(** What a path promises to its nodes. *)
Definition path_ready (bpath : BlindedPaymentPath) (bk : list KeysManager) (ts : list ForwardTlvs) (km : KeysManager)
    (ds : list DummyTlvs) (r : ReceiveTlvs) : Prop :=
  exists ks k bkeys, length ks = length bk /\
    let nodes := zip bk ks ++ replicate (length ds) (km, None) ++ [(km, k)] in
    keyed_chain (PaymentPath.blinding_point bpath) nodes (full_path bk ts km ds r) (path_blinded_hops bpath) bkeys /\
    map blinded_node_id (path_blinded_hops bpath) = map from_secret_key bkeys /\
    cts_ahead (kem_ct bpath) (map fst nodes) (map snd nodes) /\ (ds <> [] -> kem_ct bpath = None).

Lemma new_inner_ready nodes bk km ds r maximum delta entropy bpath : map node_id nodes = map node_key bk ->
  new_inner nodes (node_key km) (receive_auth_key km) ds r maximum delta entropy = Return (Ok bpath) ->
  path_ready bpath bk (tlvs_of nodes) km ds r.
Proof.
  intros Hids. unfold new_inner. destruct (secret_from_slice _) as [s|]; [|done]. cbn [mbind Prelude.run_bind unwrap].
  destruct (compute_payinfo _ _ _ _ _); [|done]. unfold blinded_hops. rewrite (forward_hops_path bk) by done.
  change (forward_path bk (tlvs_of nodes) ++ _) with (full_path bk (tlvs_of nodes) km ds r). unfold construct_blinded_hops.
  destruct (construct_blinded_hops_chain _ _ (full_path_of bk nodes km ds r Hids) s s) as (keys & Hk & Hchain).
  unfold path_hop in Hk |- *. rewrite Hk. cbn [mbind Prelude.run_bind mret run_ret]. intros [= <-]. cbn [PaymentPath.blinding_point path_blinded_hops kem_ct].
  set (all := zip bk (map (fun _ => @None bytes) bk) ++ replicate (length ds) (km, None) ++ [(km, None)]).
  assert (all = map (fun km => (km, None)) (all_nodes bk km ds)) as Hall.
  { unfold all, all_nodes. rewrite !map_app. f_equal; [|f_equal; clear; by induction ds; cbn; f_equal].
    clear. induction bk; cbn; [done|by f_equal]. }
  assert (map (fun '(km, k) => (node_secret km, k)) all = map (fun s => (s, None)) (map node_secret (all_nodes bk km ds))) as Hmap
    by (rewrite Hall, !map_map; done).
  rewrite <- Hmap in Hchain. destruct (blinded_chain_keyed _ _ _ _ Hchain) as (bkeys & Hkeyed & Hid).
  exists (map (fun _ => None) bk), None, bkeys. split; [by rewrite length_map|]. fold all. cbv zeta.
  split; [done|]. split; [done|]. split; [|done]. cbn [cts_ahead kem_ct]. by rewrite Hall, !map_map.
Qed.

(** The ciphertext list holds a ciphertext for every hop, padded to the largest path. *)
Lemma encapsulate_all_cts entropy kms : forall eks calls, Forall2 kem_pair eks (map pq_kem_node_secret kms) ->
  exists secrets cts, encapsulate_all eks entropy calls = Some (secrets, cts) /\ cts_for kms (map Some secrets) cts /\
    length (mjoin cts) = (length kms * PQ_KEM_CT_LEN)%nat.
Proof.
  induction kms as [|km kms IH]; intros eks calls H; cbn [map] in H.
  { apply Forall2_nil_inv_r in H as ->. by exists [], []. }
  apply Forall2_cons_inv_r in H as (ek & eks' & Hk & H & ->). cbn [encapsulate_all].
  destruct (encapsulate_decapsulate _ _ (entropy calls) Hk) as (ss & ct & -> & Hd & Hct). cbn [mbind option_bind].
  destruct (IH eks' (S calls) H) as (secrets & cts & -> & Hcts & Hl). exists (ss :: secrets), (ct :: cts). split_and!; try done.
  change (mjoin (ct :: cts)) with (ct ++ mjoin cts). rewrite length_app, Hl, Hct. cbn [length]. lia.
Qed.

Lemma ct_padding_length entropy count : forall calls, exists padding, ct_padding entropy calls count = Return padding /\
  length padding = (count * PQ_KEM_CT_LEN)%nat.
Proof.
  induction count as [|count IH]; intros calls; [by exists []|]. cbn [ct_padding].
  destruct (dummy_ciphertext_length (entropy calls)) as (ct & -> & Hct). destruct (IH (S calls)) as (padding & Hp & Hl).
  cbn [unwrap mbind Prelude.run_bind]. rewrite Hp. cbn [mbind Prelude.run_bind mret run_ret]. exists (ct ++ padding).
  split; [done|]. rewrite length_app, Hct, Hl. lia.
Qed.

Lemma length_snoc_inv {A} (l : list A) n : length l = S n -> exists l' x, l = l' ++ [x] /\ length l' = n.
Proof.
  destruct l as [|x l _] using rev_ind; [done|]. rewrite length_app. cbn. intros. exists l, x. split; [done|lia].
Qed.

Lemma new_pq_ready nodes eks bk km ek r maximum delta entropy bpath : map node_id nodes = map node_key bk ->
  Forall2 kem_pair eks (map pq_kem_node_secret bk) -> kem_pair ek (pq_kem_node_secret km) ->
  new_pq nodes eks (node_key km) ek (receive_auth_key km) r maximum delta entropy = Return (Ok bpath) ->
  path_ready bpath bk (tlvs_of nodes) km [] r.
Proof.
  intros Hids Heks Hek. unfold new_pq.
  assert (length nodes = length bk) as Hn by (apply (f_equal length) in Hids; by rewrite !length_map in Hids).
  assert (length eks = length bk) as He by (apply Forall2_length in Heks; by rewrite length_map in Heks).
  destruct (negb _); [done|]. destruct (secret_from_slice _) as [s|]; [|done]. cbn [mbind Prelude.run_bind unwrap].
  destruct (compute_payinfo _ _ _ _ _); [|done]. unfold blinded_hops_with_kem. rewrite (forward_hops_path bk) by done.
  destruct (_ <? _)%nat eqn:Hmax; [done|]. apply Nat.ltb_ge in Hmax. destruct (_ <? _)%nat; [done|].
  rewrite take_ge by lia.
  destruct (encapsulate_all_cts entropy (bk ++ [km]) (eks ++ [ek]) 1) as (secrets & cts & -> & Hcts & Hl).
  { rewrite map_app. apply Forall2_app; [done|]. by constructor. }
  change (forward_path bk (tlvs_of nodes) ++ _) with (full_path bk (tlvs_of nodes) km [] r).
  pose proof (full_path_of bk nodes km [] r Hids) as Hpath. change (all_nodes bk km []) with (bk ++ [km]) in Hpath.
  assert (length secrets = length (bk ++ [km])) as Hsec.
  { clear -Hcts. revert secrets cts Hcts. induction (bk ++ [km]) as [|k l IH]; intros [|] [|] H; try done. cbn. f_equal.
    by eapply IH, H. }
  destruct (construct_blinded_hops_with_kem_chain _ _ Hpath s secrets) as (hops & -> & Hchain); [by rewrite length_map|].
  destruct (ct_padding_length entropy (PQ_BLINDED_PATH_MAX_HOPS - (length nodes + 1)) (1 + (length nodes + 1)))
    as (padding & Hp & Hpl).
  cbn [mbind Prelude.run_bind]. rewrite Hp. cbn [mbind Prelude.run_bind mret run_ret]. intros [= <-].
  destruct (length_snoc_inv secrets (length bk)) as (ks & k & -> & Hks); [rewrite Hsec, length_app; cbn; lia|].
  assert (zip bk (map Some ks) ++ [(km, Some k)] = zip (bk ++ [km]) (map Some (ks ++ [k]))) as Hall
    by (rewrite map_app, zip_with_app by (by rewrite length_map); done).
  assert (map (fun '(km, k) => (node_secret km, k)) (zip (bk ++ [km]) (map Some (ks ++ [k])))
          = zip (map node_secret (bk ++ [km])) (map Some (ks ++ [k]))) as Hmap.
  { clear. generalize (map Some (ks ++ [k])). induction (bk ++ [km]); intros [|? ?]; cbn; congruence. }
  rewrite <- Hmap in Hchain. destruct (blinded_chain_keyed _ _ _ _ Hchain) as (bkeys & Hkeyed & Hid).
  exists (map Some ks), (Some k), bkeys. split; [by rewrite length_map|]. cbn [length replicate app]. rewrite Hall.
  cbv zeta. split; [done|]. split; [done|]. split; [|done].
  change (map fst) with (fmap (M:=list) (@fst KeysManager (option bytes))).
  change (map snd) with (fmap (M:=list) (@snd KeysManager (option bytes))).
  rewrite fst_zip, snd_zip by (rewrite length_map, !length_app; cbn; lia).
  exists cts, padding. split; [done|]. split; [|done]. cbn [kem_ct].
  rewrite length_app, Hl, Hpl, length_app. cbn [length]. unfold PQ_BLINDED_PATH_MAX_HOPS, PQ_KEM_CT_LEN in *. lia.
Qed.

Lemma made_path_ready bpath nodes bk km ds r : made_path bpath nodes bk km ds r ->
  path_ready bpath bk (tlvs_of nodes) km ds r.
Proof.
  intros [Hids [(maximum & delta & entropy & H)|(-> & eks & ek & maximum & delta & entropy & Heks & Hek & H)]].
  - by eapply new_inner_ready.
  - by eapply new_pq_ready.
Qed.


(** ** Payments over a blinded path *)

Definition blinded_path (pre : list RouteHop) (lst : RouteHop) (bpath : BlindedPaymentPath) (final excess : Z) : Path :=
  mkPath (pre ++ [lst])
    (Some (mkBlindedTail [] (path_blinded_hops bpath) (PaymentPath.blinding_point bpath) excess final (kem_ct bpath))).
Definition blinded_route_payloads (pre : list RouteHop) (lst : RouteHop) (bpath : BlindedPaymentPath) (ro : RecipientOnionFields)
    (height : Z) (keysend : option bytes) (invreq : option InvoiceRequest) (final excess : Z) : list OutboundOnionPayload :=
  map forward_payload (forwards pre [lst] final height) ++
  tail_payloads ro height keysend invreq final excess (path_blinded_hops bpath) (Some (PaymentPath.blinding_point bpath)).

Lemma blinded_payloads_built pre lst bpath ro height keysend invreq final excess : payable pre lst final height ->
  path_blinded_hops bpath <> [] ->
  build_onion_payloads (blinded_path pre lst bpath final excess) ro height keysend invreq None =
    Ok (blinded_route_payloads pre lst bpath ro height keysend invreq final excess, value_from (pre ++ [lst]) final,
        cltv_from (pre ++ [lst]) height).
Proof.
  intros Hpay Hne. pose proof (payable_hops _ _ _ _ Hpay) as Hok. destruct Hpay as (Hpre & Hlst & Hf & Hh & Hpos & Hv & Hc).
  unfold build_onion_payloads, blinded_route_payloads. apply (callback_exact ro height keysend invreq pre lst _ _ final); try done.
  cbn [last_payloads blinded_path blinded_tail fmap option_fmap option_map tail_details tail_hops].
  by rewrite bool_decide_false by (by destruct (path_blinded_hops bpath)).
Qed.

Lemma tail_payloads_length ro height keysend invreq final excess hops : forall intro,
  length (tail_payloads ro height keysend invreq final excess hops intro) = length hops.
Proof. induction hops as [|hop [|hop' hops] IH]; intros intro; [done|done|]. rewrite tail_payloads_cons. cbn [length]. by rewrite IH. Qed.

Lemma keyed_chain_length nodes : forall bp path hops bkeys, keyed_chain bp nodes path hops bkeys ->
  length hops = length nodes /\ length bkeys = length nodes.
Proof.
  induction nodes as [|[km k] nodes IH]; intros bp [|[[? ?] ?] path] [|hop hops] [|key bkeys] H; try done.
  destruct H as (_ & _ & _ & next & _ & H). apply IH in H. cbn. lia.
Qed.

(** The secrets the nodes find in the list, one after the other. *)
Fixpoint path_kem_secrets (ct : option bytes) (kms : list KeysManager) : list (option bytes) :=
  match kms with
  | [] => []
  | km :: kms =>
      (match blinded_kem_secret ct (keys_manager_signer km) with Ok k => k | Err _ => None end) ::
      path_kem_secrets (rotate_blinded_ct_list ct true) kms
  end.

Lemma cts_ahead_secrets kms : forall ct ks, length ks = length kms -> cts_ahead ct kms ks -> ks = path_kem_secrets ct kms.
Proof.
  induction kms as [|km kms IH]; intros ct [|k ks] Hlen H; try done. destruct (cts_ahead_next _ _ _ _ _ H) as [Hk H'].
  cbn [path_kem_secrets]. rewrite Hk. f_equal. apply IH; [by injection Hlen|done].
Qed.

(** A classical onion has no trail. *)
Lemma classical_trail require kem_key path session ro height hash keysend invreq prng base trail_seed p amt cltv trail kss ct :
  path_kem_keys path kem_key = None ->
  payment_onion require kem_key path session ro height hash keysend invreq prng base trail_seed =
    Return (Ok (p, amt, cltv, trail, kss, ct)) -> trail = None.
Proof.
  intros Hk. unfold payment_onion. rewrite Hk. destruct require; [done|].
  destruct (create_payment_onion_internal _ _ _ _ _ _ _ _) as [[[[? ?] ?]|]|]; [|done|done]. cbn. by intros [= _ _ _ <- _ _].
Qed.

(** Whoever is asked to open an onion with a list has a key for it. *)
Lemma hops_kem_ready require kem_key path kms list : kem_keys_right kem_key kms ->
  map hop_pubkey (path_hops path) = map from_secret_key (map node_secret kms) -> sendable require kem_key path ->
  blinded_tail path ≫= tail_kem_ct = Some list -> (PQ_KEM_CT_LEN <= length list)%nat -> Forall (kem_ready (Some list)) kms.
Proof.
  intros Hright Hpub [Hk|[_ E]] Hct Hlen; [|congruence]. destruct (path_kem_keys path kem_key) as [[eks teks]|] eqn:Hkeys; [|done].
  unfold path_kem_keys in Hkeys. destruct (pq_eligible path); [|done].
  destruct (mapM _ (path_hops path)) as [eks'|] eqn:Hm; [|done].
  pose proof (known_kem_keys _ _ Hright _ _ Hpub Hm) as Heks. clear -Heks Hlen. revert eks' Heks.
  induction kms as [|km kms IH]; intros eks H; [constructor|]. cbn [map] in H. apply Forall2_cons_inv_r in H as (ek & eks' & Hk & H & _).
  constructor; [by split; [|exists ek]|by eapply IH].
Qed.

Lemma dummy_forwards_cltv ds : Forall (fun d => payment_tlvs_wf (TlvsDummy d)) ds -> forall amt cltv amt' cltv',
  dummy_forwards ds amt cltv = Ok (amt', cltv') -> cltv' <= cltv.
Proof.
  induction 1 as [|d ds [Hrelay _] _ IH]; intros amt cltv amt' cltv'; cbn [dummy_forwards]; [by intros [= _ <-]|].
  destruct (check_blinded_forward _ _ _ _ _) as [[a c]|] eqn:Hc; [|done]. apply check_blinded_forward_cltv in Hc.
  cbn [mbind result_bind]. intros ?%IH. unfold relay_wf, fits in Hrelay. lia.
Qed.

(** What the recipient asks of a payment: what is left of it is enough, in time, and
    within the constraints it set. *)
Definition receivable (ro : RecipientOnionFields) (keysend : option bytes) (hash : bytes) (r : ReceiveTlvs)
    (final amt declared cltv : Z) : Prop :=
  payment_tlvs_wf (TlvsReceive r) /\ 0 <= final <= MAX_VALUE_MSAT /\ 0 <= total_mpp_amount_msat ro <= MAX_VALUE_MSAT /\
  check_blinded_payment_constraints final cltv (recv_payment_constraints r) = Ok tt /\ final <= amt /\ declared <= cltv /\
  (forall p, keysend = Some p -> sha256 p = hash).

Lemma recipient_delivers ro height keysend invreq final excess hash fuel h id acc km k r ds hops bkeys bp intro up trail ct e data hmac
    amt1 cltv1 amt cltv first :
  arrived ro height keysend invreq final excess hash (replicate (length ds) (km, None) ++ [(km, k)])
    (dummy_path km ds ++ [receive_hop km r]) hops bkeys bp intro up trail ct e data hmac ->
  Forall (fun d => payment_tlvs_wf (TlvsDummy d)) ds -> (ds <> [] -> trail = None /\ ct = None) ->
  dummy_forwards ds amt1 cltv1 = Ok (amt, cltv) -> (length ds <= fuel)%nat ->
  receivable ro keysend hash r final amt (wrapping 32 (height + excess)) cltv -> timely h cltv first ->
  exists ss, deliver fuel h [km] (add_htlc id amt1 hash cltv1 e data hmac (mkExtras None up None acc trail ct)) =
    Return (Ok ([], mkPendingHTLCInfo
      (received_blinded ro keysend invreq r (bool_decide (length ds = 0%nat) && is_some intro) cltv) ss hash (Some amt) final
      (wrapping 32 (height + excess)) None acc)).
Proof.
  intros Harr Hds Hnone Hfwd Hfuel (Hr & Hf & Htot & Hcons & Hamt & Hcltv & Hkeysend) Htime.
  destruct (arrived_dummies _ _ _ _ _ _ _ h id acc km k r ds Hds fuel amt1 cltv1 None None _ _ _ _ _ _ _ _ _ _ _ _ Harr Hnone Hfwd Hfuel)
    as (hops' & bkeys' & bp' & intro' & up' & trail' & ct' & e' & data' & hmac' & Harr' & -> & Hpeel).
  destruct (arrived_receive _ _ _ _ _ _ _ (fuel - length ds) h id amt cltv acc None None km k r _ _ _ _ _ _ _ _ _ _ Harr' Hr Hf Htot
              Hcons Hamt Hcltv) as (ss & Hrecv); [|done|].
  { destruct Htime as (? & ? & ? & ?). rewrite wrapping_small; [done|].
    unfold fits, CLTV_FAR_FAR_AWAY, HTLC_FAIL_BACK_BUFFER, CLTV_CLAIM_BUFFER, MAX_BLOCKS_FOR_CONF, LATENCY_GRACE_PERIOD_BLOCKS in *. lia. }
  exists ss. cbn [deliver]. rewrite Hpeel, Hrecv. cbn [mbind Prelude.run_bind routing].
  replace (is_some (if bool_decide (length ds = 0%nat) then intro else None)) with (bool_decide (length ds = 0%nat) && is_some intro)
    by (by case_bool_decide).
  unfold received_blinded. by destruct keysend.
Qed.

(** What the sender, the route and the path have to be for a payment over a blinded path. *)
Record blinded_route (require : bool) (kem_key : PublicKey -> option bytes) (pre : list RouteHop) (lst : RouteHop)
    (pre_kms : list KeysManager) (bpath : BlindedPaymentPath) (nodes : list (ForwardNode ForwardTlvs)) (bk : list KeysManager)
    (km : KeysManager) (ds : list DummyTlvs) (r : ReceiveTlvs) (ro : RecipientOnionFields) (height : Z) (keysend : option bytes)
    (invreq : option InvoiceRequest) (final excess : Z) : Prop := {
  br_made : made_path bpath nodes bk km ds r;
  br_nodes : map hop_pubkey (pre ++ [lst]) = map node_key (pre_kms ++ [hd km bk]);
  br_keys : kem_keys_right kem_key (pre_kms ++ [hd km bk]);
  br_length : (length (pre_kms ++ [hd km bk]) <= MAX_PATH_LENGTH_ESTIMATE)%nat;
  br_sendable : sendable require kem_key (blinded_path pre lst bpath final excess);
  br_payable : payable pre lst final height;
  br_metadata : rof_payment_metadata ro = None;
  br_relays : Forall relaying_tlvs_ok (tlvs_of nodes);
  br_dummies : Forall (fun d => payment_tlvs_wf (TlvsDummy d)) ds;
  br_fit : payloads_fit (blinded_route_payloads pre lst bpath ro height keysend invreq final excess);
  br_tags : tags_ok (PaymentPath.blinding_point bpath)
    (zip (all_nodes bk km ds) (path_kem_secrets (kem_ct bpath) (all_nodes bk km ds))) (full_path bk (tlvs_of nodes) km ds r);
}.

(** The nodes with the secrets they find. *)
Definition secret_nodes (bk : list KeysManager) (ks : list (option bytes)) (km : KeysManager) (k : option bytes) (ds : list DummyTlvs)
    : list (KeysManager * option bytes) := zip bk ks ++ replicate (length ds) (km, None) ++ [(km, k)].

Lemma secret_nodes_fst bk ks km k ds : length ks = length bk -> map fst (secret_nodes bk ks km k ds) = all_nodes bk km ds.
Proof.
  intros Hlen. unfold secret_nodes, all_nodes. rewrite !map_app. f_equal.
  - change (map fst) with (fmap (M:=list) (@fst KeysManager (option bytes))). apply fst_zip. lia.
  - f_equal. clear. by induction ds; cbn; [|f_equal].
Qed.

Lemma secret_nodes_tags bpath bk ks km k ds path : length ks = length bk ->
  cts_ahead (kem_ct bpath) (map fst (secret_nodes bk ks km k ds)) (map snd (secret_nodes bk ks km k ds)) ->
  tags_ok (PaymentPath.blinding_point bpath) (zip (all_nodes bk km ds) (path_kem_secrets (kem_ct bpath) (all_nodes bk km ds))) path ->
  tags_ok (PaymentPath.blinding_point bpath) (secret_nodes bk ks km k ds) path.
Proof.
  intros Hlen Hcts Htags. apply cts_ahead_secrets in Hcts; [|by rewrite !length_map].
  rewrite <- (secret_nodes_fst bk ks km k ds Hlen), <- Hcts in Htags.
  replace (zip _ _) with (secret_nodes bk ks km k ds) in Htags; [done|].
  clear. induction (secret_nodes bk ks km k ds) as [|[? ?] l IH]; cbn; [done|by f_equal].
Qed.

Section route.
Variables (require : bool) (kem_key : PublicKey -> option bytes) (pre : list RouteHop) (lst : RouteHop)
    (pre_kms : list KeysManager) (bpath : BlindedPaymentPath) (nodes : list (ForwardNode ForwardTlvs)) (bk : list KeysManager)
    (km : KeysManager) (ds : list DummyTlvs) (r : ReceiveTlvs) (ro : RecipientOnionFields) (height : Z) (keysend : option bytes)
    (invreq : option InvoiceRequest) (final excess : Z).
Hypothesis Hroute : blinded_route require kem_key pre lst pre_kms bpath nodes bk km ds r ro height keysend invreq final excess.
Let path := blinded_path pre lst bpath final excess.

Lemma route_secrets bkeys : map blinded_node_id (path_blinded_hops bpath) = map from_secret_key bkeys ->
  path_secrets path (pre_kms ++ [hd km bk]) (tail bkeys).
Proof.
  intros Hids. split_and!; [|cbn|done].
  - rewrite map_map. apply (br_nodes _ _ _ _ _ _ _ _ _ _ _ _ _ _ _ _ _ Hroute).
  - by destruct (path_blinded_hops bpath), bkeys; simplify_eq/=.
Qed.

Lemma introduction_arrived hash session prng base trail_seed h fuel id acc last first : timely h last first ->
  last <= cltv_from [lst] height -> cltv_from (pre ++ [lst]) height <= first ->
  exists packet trail kss ks k bkeys trail' e data hmac, length ks = length bk /\
    payment_onion require kem_key path session ro height hash keysend invreq prng base trail_seed =
      Return (Ok (packet, value_from (pre ++ [lst]) final, cltv_from (pre ++ [lst]) height, trail, kss, kem_ct bpath)) /\
    (ds <> [] -> trail' = None /\ kem_ct bpath = None) /\
    arrived ro height keysend invreq final excess hash (secret_nodes bk ks km k ds) (full_path bk (tlvs_of nodes) km ds r)
      (path_blinded_hops bpath) bkeys (PaymentPath.blinding_point bpath) (Some (PaymentPath.blinding_point bpath)) None trail'
      (kem_ct bpath) e data hmac /\
    deliver fuel h (pre_kms ++ bk ++ [km]) (mkUpdateAdd id (value_from (pre ++ [lst]) final) hash (cltv_from (pre ++ [lst]) height) packet
                                              (mkExtras None None None acc trail (kem_ct bpath))) =
    foldr after_hop (deliver fuel h (bk ++ [km]) (add_htlc id (value_from [lst] final) hash (cltv_from [lst] height) e data hmac
      (mkExtras None None None acc trail' (kem_ct bpath)))) (forwards pre [lst] final height).
Proof.
  intros Htime Hlast Hfirst. pose proof Hroute as [Hmade Hpub Hkeys Hlen Hsend Hpay Hmeta Hrelays Hdummies Hfit Htags].
  destruct (made_path_ready _ _ _ _ _ _ Hmade) as (ks & k & bkeys & Hks & Hchain & Hids & Hcts & Hnone).
  fold (secret_nodes bk ks km k ds) in Hchain, Hcts. pose proof (route_secrets bkeys Hids) as Hsec.
  destruct (keyed_chain_length _ _ _ _ _ Hchain) as [Hl1 Hl2].
  pose proof (f_equal head (secret_nodes_fst bk ks km k ds Hks)) as Hhead.
  assert (head (all_nodes bk km ds) = Some (hd km bk)) as Hhd by (destruct bk, ds; done). rewrite Hhd in Hhead.
  pose proof (secret_nodes_tags _ _ _ _ _ _ _ Hks Hcts Htags) as Htags'. 
  destruct (secret_nodes bk ks km k ds) as [|[km0 k0] rest] eqn:Eall; [done|]. injection Hhead as ->.
  assert (path_blinded_hops bpath <> []) as Hne by (by destruct (path_blinded_hops bpath)).
  assert (length pre_kms = length pre) as Hn.
  { apply (f_equal length) in Hpub. rewrite !length_map, !length_app in Hpub. cbn in Hpub. lia. }
  pose proof (blinded_payloads_built pre lst bpath ro height keysend invreq final excess Hpay Hne) as Hbuilt.
  assert (length (blinded_route_payloads pre lst bpath ro height keysend invreq final excess)
          = (length (pre_kms ++ [hd km bk]) + length (tail bkeys))%nat) as Hcount.
  { unfold blinded_route_payloads. rewrite !length_app, length_map, forwards_length, tail_payloads_length, Hn.
    destruct bkeys; cbn in *; lia. }
  destruct (onion_travels require kem_key path (pre_kms ++ [hd km bk]) (tail bkeys) session ro height hash keysend invreq prng base
              trail_seed _ _ _ Hsec Hkeys ltac:(rewrite length_app in *; cbn in *; lia) Hsend ltac:(done) Hbuilt Hcount Hfit)
    as (data & hmac & trail & kss & Honion & Htravel).
  assert (Forall (kem_ready (kem_ct bpath)) (pre_kms ++ [hd km bk])) as [Hready Hready0]%Forall_app.
  { destruct (kem_ct bpath) as [list|] eqn:Ect; [|by apply Forall_forall]. destruct Hcts as (cts & padding & _ & Hlist & _).
    eapply hops_kem_ready; [done|apply Hsec|done|exact Ect|lia]. }
  pose proof Hpay as (Hpre & Hlst & Hf & _ & _ & Hv & _).
  assert (value_from (pre ++ [lst]) final <= MAX_VALUE_MSAT) as Hmax by (unfold MAX_VALUE_MSAT; lia).
  set (lastp := tail_payloads ro height keysend invreq final excess (path_blinded_hops bpath) (Some (PaymentPath.blinding_point bpath))).
  assert (lastp <> []) as Hlastp by (unfold lastp; destruct (path_blinded_hops bpath); [done|apply tail_payloads_nonempty]).
  destruct (deliver_forwards fuel h id hash final height (kem_ct bpath) acc [lst] (tail bkeys) lastp [hd km bk] (bk ++ [km]) last first
              pre Hpre (Forall_cons_2 _ _ _ Hlst (Forall_nil_2 _)) Hlastp Hf Htime Hlast pre_kms trail _ data hmac Hn Hready Hmax Hfirst
              Htravel) as (trail' & e & data' & hmac' & Htr & Hsome & Hdel).
  eexists _, trail, kss, ks, k, bkeys, trail', e, data', hmac'. rewrite Eall. split_and!; [done|exact Honion| | |exact Hdel].
  - intros Hds. specialize (Hnone Hds). split; [|done]. enough (trail = None) as -> by (by destruct trail').
    eapply classical_trail; [|exact Honion]. unfold path_kem_keys, pq_eligible. cbn. rewrite Hnone. by rewrite andb_false_r.
  - split; [|split; [by left|done]]. apply introduction_station; [done|done| |by apply Forall_cons in Hready0 as [? _]].
    by eapply cts_ahead_next.
Qed.

End route.

Lemma after_hops_app hops : forall hops' info,
  foldr after_hop (Return (Ok (hops', info))) hops = Return (Ok (hops ++ hops', info)).
Proof. induction hops as [|hop hops IH]; intros hops' info; [done|]. cbn [foldr]. by rewrite IH. Qed.

(** C3: a payment over a blinded path arrives: for every path a recipient makes,
    classical, with dummy hops, or post-quantum, and every route to its introduction
    node, the onion the sender builds takes the HTLC to the recipient: the hops of the
    route forward what the route has for them, the nodes of the path what the relay
    parameters in their encrypted data make of it, the list of ciphertexts turning
    and the blinding point advancing on the way, and the recipient takes its dummy
    hops off and accepts the payment with the secret and the context it put into the
    path. *)
Theorem blinded_payment_delivered require kem_key pre lst pre_kms bpath nodes bk km ds r ro height keysend invreq final excess
    hash session prng base trail_seed h fuel id acc fwd amt1 cltv1 amt cltv :
  blinded_route require kem_key pre lst pre_kms bpath nodes bk km ds r ro height keysend invreq final excess ->
  blinded_forwards (tlvs_of nodes) (value_from [lst] final) (cltv_from [lst] height) = Ok (fwd, amt1, cltv1) ->
  dummy_forwards ds amt1 cltv1 = Ok (amt, cltv) -> (length ds <= fuel)%nat ->
  receivable ro keysend hash r final amt (wrapping 32 (height + excess)) cltv ->
  timely h cltv (cltv_from (pre ++ [lst]) height) ->
  exists packet trail kss ss,
    payment_onion require kem_key (blinded_path pre lst bpath final excess) session ro height hash keysend invreq prng base trail_seed =
      Return (Ok (packet, value_from (pre ++ [lst]) final, cltv_from (pre ++ [lst]) height, trail, kss, kem_ct bpath)) /\
    deliver fuel h (pre_kms ++ bk ++ [km])
      (mkUpdateAdd id (value_from (pre ++ [lst]) final) hash (cltv_from (pre ++ [lst]) height) packet
         (mkExtras None None None acc trail (kem_ct bpath))) =
      Return (Ok (forwards pre [lst] final height ++ fwd,
        mkPendingHTLCInfo (received_blinded ro keysend invreq r (bool_decide (bk = [] /\ ds = [])) cltv) ss hash (Some amt) final
          (wrapping 32 (height + excess)) None acc)).
Proof.
  intros Hroute Hfwd Hdummy Hfuel Hrecv Htime. pose proof Hroute as [[Hids _] _ _ _ _ _ _ Hrelays Hdummies _ _].
  pose proof (dummy_forwards_cltv _ Hdummies _ _ _ _ Hdummy) as Hle. pose proof (blinded_forwards_cltv _ Hrelays _ _ _ _ _ Hfwd) as Hle'.
  destruct (introduction_arrived _ _ _ _ _ _ _ _ _ _ _ _ _ _ _ _ _ Hroute hash session prng base trail_seed h fuel id acc _ _ Htime
              ltac:(lia) (Z.le_refl _)) as (packet & trail & kss & ks & k & bkeys & trail' & e & data & hmac & Hks & Honion & Hnone & Harr & Hdel).
  assert (length bk = length (tlvs_of nodes)) as Hbk
    by (apply (f_equal length) in Hids; unfold tlvs_of; by rewrite !length_map in *).
  assert (cltv_from [lst] height <= cltv_from (pre ++ [lst]) height) as Hfirst.
  { rewrite cltv_from_app. apply cltv_from_ge. pose proof (br_payable _ _ _ _ _ _ _ _ _ _ _ _ _ _ _ _ _ Hroute) as [Hpre _].
    eapply Forall_impl; [done|apply forwarding_hop_ok_hop]. }
  destruct (arrived_forwards _ _ _ _ _ _ _ fuel h id acc cltv (cltv_from (pre ++ [lst]) height)
              (replicate (length ds) (km, None) ++ [(km, k)]) (dummy_path km ds ++ [receive_hop km r]) ltac:(by destruct ds) Htime _ Hrelays bk ks Hbk
              ltac:(congruence) _ _ _ _ _ _ _ _ _ _ _ _ _ _ _ Harr Hfwd Hle Hfirst)
    as (hops' & bkeys' & bp' & intro' & up' & trail2 & ct' & e' & data' & hmac' & Harr' & Hct & Hnil & Hcons & Htrail & Hdel').
  assert (ds <> [] -> trail2 = None /\ ct' = None) as Hnone'.
  { intros Hds. destruct (Hnone Hds) as [-> E]. rewrite E in Hct. split; [|by destruct ct'].
    destruct trail2; [by discriminate Htrail|done]. }
  destruct (recipient_delivers _ _ _ _ _ _ _ fuel h id acc km k r ds _ _ _ _ _ _ _ _ _ _ _ _ _ _ _ Harr' Hdummies Hnone' Hdummy Hfuel
              Hrecv Htime) as [ss Hss].
  assert (bool_decide (length ds = 0%nat) && is_some intro' = bool_decide (bk = [] /\ ds = [])) as Hintro.
  { destruct ds; [|by rewrite (bool_decide_false (_ /\ _)) by (intros [_ ?]; done)]. destruct bk as [|km0 bk'].
    - destruct Hnil as [-> _]; [by destruct (tlvs_of nodes)|done].
    - rewrite Hcons by (by destruct (tlvs_of nodes)). done. }
  exists packet, trail, kss, ss. split; [exact Honion|]. rewrite Hdel, Hdel', Hss, Hintro.
  by rewrite !after_hops_app, app_nil_r.
Qed.

End blinded.
