(* ===== verification/OnionExample.v ===== *)
(** * A concrete instance of the onion interfaces

    Toy cryptography that satisfies the laws the onion files assume, on top of the
    toy curve of [Keys]; it shows that the laws are consistent and makes the
    operations run on concrete inputs. *)

From Stdlib Require Import ZArith Lia.
From stdpp Require Import strings.
From S2P Require Import Prelude.
From S2P Require Import Features.
From S2P Require Import Keys.
From S2P Require Import Ser.
From S2P Require Import Onion.
From S2P Require Import PqKem.
From S2P Require Import Streams.
From S2P Require Import BlindedPath.
From S2P Require Import OnionPayload.

Local Open Scope Z_scope.

Definition toy_hash (l : bytes) : Z := foldl (fun acc b => (3 * acc + b) mod 251) 1 l mod 251.

#[export] Instance toy_onion_crypto : OnionCrypto (H := toy_bitcoin) := {|
  chacha20 k i := (foldl Z.add 0 k + Z.of_nat (i mod 13)) mod 13;
  hmac_sha256 k m := replicate 31 (toy_hash (k ++ m)) ++ [1];
  shared_secret P s := replicate 32 (P * s mod 256);
  public_from_slice l := Some (nth 32 l 0);
|}.

#[export] Instance toy_onion_laws : OnionCryptoLaws.
Proof.
  split; intros; cbn -[replicate Z.pow].
  - unfold chacha20, toy_onion_crypto. match goal with |- fits 8 (?x mod 13) => pose proof (Z.mod_pos_bound x 13 eq_refl) end.
    unfold fits. lia.
  - done.
  - apply Forall_app. split; [apply Forall_replicate|by repeat constructor].
    unfold toy_hash. match goal with |- fits 8 (?x mod 251) => pose proof (Z.mod_pos_bound x 251 eq_refl) end.
    unfold fits. lia.
  - intros E. apply (f_equal (fun l => nth 31 l 0)) in E. discriminate E.
  - by rewrite Z.mul_comm.
  - done.
  - by eexists.
  - by eexists.
Qed.

(** The key is in the ciphertext. *)
#[export] Instance toy_kem : Kem := {|
  EncapsKey := bytes;
  DecapsKey := bytes;
  CipherText := bytes;
  keygen_from_seed d z := (d, d);
  ek_from_bytes := Some;
  dk_from_bytes := Some;
  ct_from_bytes := Some;
  encaps_from_seed k seed := (replicate 32 (toy_hash (k ++ [toy_hash seed])), toy_hash seed :: replicate 1087 0);
  try_decaps dk ct := Some (replicate 32 (toy_hash (dk ++ [nth 0 ct 0])));
|}.

Lemma toy_accepts seed j : Z.land (chacha20 seed (2 * j) + 256 * chacha20 seed (2 * j + 1)) 4095 < MLKEM_Q.
Proof.
  unfold chacha20, toy_onion_crypto, MLKEM_Q.
  match goal with |- Z.land (?a mod 13 + 256 * (?b mod 13)) _ < _ =>
    pose proof (Z.mod_pos_bound a 13 eq_refl); pose proof (Z.mod_pos_bound b 13 eq_refl) end.
  change 4095 with (Z.ones 12). rewrite Z.land_ones by done. rewrite Z.mod_small; change (2 ^ 12) with 4096; lia.
Qed.

Lemma toy_accepted seed from n : length (accepted seed from n) = n.
Proof.
  unfold accepted. revert from. induction n as [|n IH]; intros from; [done|]. cbn [seq map].
  rewrite filter_cons_True by apply toy_accepts. cbn [length]. by rewrite IH.
Qed.

Lemma toy_sampling seed : is_Some (coefficients seed).
Proof.
  apply coefficients_some. rewrite toy_accepted. apply Nat.leb_le. vm_compute. reflexivity.
Qed.

#[export] Instance toy_kem_laws : KemLaws.
Proof.
  split; [| |apply toy_sampling].
  - intros k seed. change (length (toy_hash seed :: replicate 1087 0) = 1088%nat).
    cbn [length]. by rewrite length_replicate.
  - intros d z ek dk [= <- <-]. exists d, d. split; [done|]. split; [done|]. split.
    + intros seed. by eexists.
    + intros bs _. eexists. split; [done|]. by eexists.
Qed.

#[export] Instance toy_poly1305 : Poly1305 := {|
  poly1305 k m := replicate 16 (toy_hash (k ++ m));
  poly1305_length k m := eq_refl;
|}.

#[export] Instance toy_contexts : PaymentContexts.
Proof.
  refine {| PaymentContext := unit; context_write _ := []; context_read r := (Ok tt, r) |}.
  - by intros [].
  - done.
Defined.

#[export] Instance toy_invoice_requests : InvoiceRequests.
Proof.
  refine {| InvoiceRequest := unit; invoice_request_write _ := []; invoice_request_read r := (Ok tt, r) |}.
  - by intros [].
  - done.
Defined.


(** ** Encodings at concrete inputs *)

(** A keysend preimage in the trampoline onion of a blinded recipient is written as
    record 20, which the reader does not know: the payload is refused whatever else
    it holds. *)
Theorem trampoline_keysend_refused :
  (trampoline_payload_read (Some 5) None (keys_manager_signer (mkKeysManager 3 [1] [2] [4]))
     (outbound_trampoline_payload_write
        (OutTrampBlindedReceive 1000 1000 500 [1; 2; 3] None (Some (replicate 32 7)) []))).1 =
  Err UnknownRequiredFeature.
Proof. vm_compute. reflexivity. Qed.

(** The data of two forwarding hops is padded to different lengths, if one accepts
    payments of a satoshi and the other of a thousand. *)
Definition example_forward_tlvs (htlc_minimum_msat : Z) : ForwardTlvs :=
  mkForwardTlvs 42 (mkPaymentRelay 144 100 1000) (mkPaymentConstraints 800000 htlc_minimum_msat) features_empty None.
Theorem padded_lengths_differ :
  length (padded (forward_tlvs (example_forward_tlvs 1000))) = 30%nat /\
  length (padded (forward_tlvs (example_forward_tlvs 1000000))) = 60%nat.
Proof. split; vm_compute; reflexivity. Qed.
