(* ===== verification/RouteExample.v ===== *)
(** * A payment over three hops

    The theorems on what comes back to the sender, at concrete inputs. *)

From Stdlib Require Import ZArith Lia.
From stdpp Require Import strings.
From S2P Require Import Prelude.
From S2P Require Import Features.
From S2P Require Import Keys.
From S2P Require Import Ser.
From S2P Require Import Onion.
From S2P Require Import PqKem.
From S2P Require Import Streams.
From S2P Require Import BlindedPath.
From S2P Require Import OnionPayload.
From S2P Require Import OnionRoute.
From S2P Require Import OnionFailure.
From S2P Require Import FailureReturn.
From S2P Require Import OnionExample.

Local Open Scope Z_scope.

Definition example_hop (key scid fee : Z) : RouteHop := mkRouteHop (key : PublicKey) scid fee 40.
Definition example_path : Path :=
  mkPath [example_hop 11 101 5000; example_hop 12 102 3000; example_hop 13 103 1000000] None.
Definition example_keys : list (bytes * PublicKey) :=
  returned (construct_onion_keys_generic (map hop_pubkey (path_hops example_path)) (7 : SecretKey)) [].

Lemma hold_times_decoded_witness : exists data,
  fulfilled None 0 (zip (map fst example_keys) [300; 200; 100]) = Some data /\
  decode_fulfill_attribution_data example_path 7 None data = Return [300; 200; 100].
Proof.
  eexists. split; [reflexivity|].
  refine (hold_times_decoded example_path 7 None example_keys [300; 200; 100] _ _ _ _ _);
    [vm_compute; reflexivity|reflexivity| |reflexivity].
  repeat constructor; vm_compute; congruence.
Defined.

Definition example_relays : list (ErrorHop * bytes) :=
  zip (map ErrorRouteHop (take 2 (path_hops example_path))) (take 2 (map fst example_keys)).
Definition example_failing : ErrorHop := ErrorRouteHop (example_hop 13 103 1000000).

(** The last hop refuses the payment. *)
Lemma failure_origin_found_witness :
  process_onion_failure (OutboundRoute example_path 7 None)
    (returned_failure None 0 (zip (map snd example_relays) [300; 200]) (nth 2 (map fst example_keys) []) IncorrectPaymentDetails [1; 2; 3]) =
  Return (attributed example_failing example_failing true IncorrectPaymentDetails [1; 2; 3] [300; 200; 0]).
Proof.
  refine (failure_origin_found example_path 7 None example_relays example_failing (nth 2 (map fst example_keys) []) []
            example_failing IncorrectPaymentDetails [1; 2; 3] [300; 200] _ _ _ _ _ _ _).
  - reflexivity.
  - reflexivity.
  - reflexivity.
  - repeat constructor; vm_compute; congruence.
  - apply Nat2Z.inj_le. rewrite Z2Nat.id by lia. cbn. lia.
  - vm_compute. split; congruence.
  - vm_compute. reflexivity.
Defined.
