(* ===== verification/DeliveryExample.v ===== *)
(** * Payments delivered

    The theorems on delivery, at concrete inputs. *)

From Stdlib Require Import ZArith Lia Bool.
From stdpp Require Import strings.
From S2P Require Import Prelude.
From S2P Require Import Features.
From S2P Require Import Keys.
From S2P Require Import ChannelState.
From S2P Require Import Ser.
From S2P Require Import Onion.
From S2P Require Import PqKem.
From S2P Require Import Streams.
From S2P Require Import BlindedPath.
From S2P Require Import BlindedFees.
From S2P Require Import PaymentPath.
From S2P Require Import OnionPayload.
From S2P Require Import OnionRoute.
From S2P Require Import OnionReceive.
From S2P Require Import OnionDelivery.
From S2P Require Import BlindedDelivery.
From S2P Require Import OnionExample.

Local Open Scope Z_scope.

#[export] Instance toy_sources : Sources := {|
  SourceOfHTLC := unit;
  InvoiceOfSource := unit;
  source_invoice _ := None;
  SourcePreviousHop := unit;
  source_previous_hop _ := None;
  SourceId := unit;
  source_id := id;
  SourceForwardedHop := unit;
  SourceMessagePath := unit;
  SourceClaimDetails := unit;
|}.
#[local] Existing Instance onion_payloads.

Definition delivery_hop (key scid fee : Z) : RouteHop := mkRouteHop (key : PublicKey) scid fee 80.
Definition delivery_path : Path :=
  mkPath [delivery_hop 11 101 5000; delivery_hop 12 102 3000; delivery_hop 13 103 1000000] None.
Definition example_seed (key : Z) : bytes := replicate 64 key.
Definition example_node (key : Z) : KeysManager :=
  mkKeysManager (key : SecretKey) (keypair_from_seed (example_seed key)).2 [key; 1] [key; 2].
Definition example_kem_key (key : PublicKey) : option bytes := Some (keypair_from_seed (example_seed key)).1.
Definition example_recipient : RecipientOnionFields := mkRecipientOnionFields (Some (replicate 32 9)) (Some [1; 2]) [] 1000000.

Lemma example_kem_pair key : kem_pair (keypair_from_seed (example_seed key)).1 (keypair_from_seed (example_seed key)).2.
Proof. exists (example_seed key). by destruct (keypair_from_seed _). Qed.

Ltac example_wf :=
  cbn -[Z.pow]; unfold opt_wf, final_data_wf, short_bytes, custom_wf, fits;
  repeat match goal with
  | |- _ <= _ < _ => lia
  | |- _ /\ _ => split
  | |- forall a, _ = Some a -> _ => intros ? [=]; subst
  | |- Forall _ [] => constructor
  end; cbn; lia || done.

Lemma payment_delivered_witness : exists packet trail kss ss,
  payment_onion true example_kem_key delivery_path 7 example_recipient 800000 [5] None None [1] [2] [3] =
    Return (Ok (packet, 1008000, 800240, trail, kss, None)) /\
  deliver 0 799990 (map example_node [11; 12; 13])
    (mkUpdateAdd 0 1008000 [5] 800240 packet (mkExtras None None None false trail None)) =
    Return (Ok ([(102, 1003000, 800160); (103, 1000000, 800080)],
      mkPendingHTLCInfo (RoutingReceive (mkFinalOnionHopData (replicate 32 9) 1000000) (Some [1; 2]) None 800080 None None [] false) ss
        [5] (Some 1000000) 1000000 800080 None false)).
Proof.
  refine (payment_delivered true example_kem_key [delivery_hop 11 101 5000; delivery_hop 12 102 3000] (delivery_hop 13 103 1000000)
            (map example_node [11; 12; 13]) 7 example_recipient 800000 [5] None None [1] [2] [3] 799990 0 0 false _ _ _ _ _ _ _ _ _ _ _).
  - reflexivity.
  - repeat constructor; intros ek [= <-]; apply example_kem_pair.
  - apply Nat.leb_le. reflexivity.
  - left. discriminate.
  - unfold payable. split; [|unfold hop_ok; cbn; lia].
    repeat apply Forall_cons_2; try apply Forall_nil_2; unfold forwarding_hop_ok, MIN_CLTV_EXPIRY_DELTA; cbn; lia.
  - split; [|apply Nat.leb_le; vm_compute; reflexivity].
    repeat apply Forall_cons_2; try apply Forall_nil_2; example_wf.
  - unfold timely, CLTV_FAR_FAR_AWAY, HTLC_FAIL_BACK_BUFFER, CLTV_CLAIM_BUFFER, MAX_BLOCKS_FOR_CONF, LATENCY_GRACE_PERIOD_BLOCKS. cbn. lia.
  - intros d [= <-]. cbn. unfold MAX_VALUE_MSAT. lia.
  - reflexivity.
  - discriminate.
Defined.

(** A post-quantum blinded path of two hops. *)
Definition example_tlvs : ForwardTlvs :=
  mkForwardTlvs 201 (mkPaymentRelay 144 100 1000) (mkPaymentConstraints 900000 1000) features_empty None.
Definition example_nodes : list (ForwardNode ForwardTlvs) := [mkForwardNode example_tlvs (21 : PublicKey) 2000000].
Definition example_receive : ReceiveTlvs := mkReceiveTlvs (replicate 32 9) (mkPaymentConstraints 900000 1000) tt.
Definition example_entropy (call : nat) : bytes := replicate 32 (Z.of_nat call + 3).

Lemma new_pq_built (nodes : list (ForwardNode ForwardTlvs)) eks payee ek key r maximum delta entropy s info secrets cts hops padding : length nodes = length eks ->
  (length nodes + 1 <= PQ_BLINDED_PATH_MAX_HOPS)%nat -> secret_from_slice (entropy 0%nat) = Some s ->
  compute_payinfo nodes [] r maximum delta = Ok info -> encapsulate_all (eks ++ [ek]) entropy 1 = Some (secrets, cts) ->
  construct_blinded_hops_with_kem (forward_hops nodes ++ [(payee, Some key, padded (receive_tlvs r))]) s secrets = Return hops ->
  ct_padding entropy (1 + (length nodes + 1)) (PQ_BLINDED_PATH_MAX_HOPS - (length nodes + 1)) = Return padding ->
  new_pq nodes eks payee ek key r maximum delta entropy =
    Return (Ok (mkBlindedPaymentPath (path_introduction_node nodes payee) (from_secret_key s) hops info (Some (mjoin cts ++ padding)))).
Proof.
  intros Hlen Hmax Hs Hinfo Henc Hhops Hpad. unfold new_pq. rewrite Hlen, Nat.eqb_refl, Hs, Hinfo. cbn [negb unwrap mbind Prelude.run_bind].
  unfold blinded_hops_with_kem. rewrite (proj2 (Nat.ltb_ge _ _)), (proj2 (Nat.ltb_ge _ _)), take_ge, Henc, Hhops by lia.
  cbn [mbind Prelude.run_bind]. by rewrite Hpad.
Qed.

Definition example_ek (key : Z) : bytes := (keypair_from_seed (example_seed key)).1.
Definition example_kem_secrets : list bytes * list bytes :=
  default ([], []) (encapsulate_all [example_ek 21; example_ek 22] example_entropy 1).
Definition example_hops : list BlindedHop :=
  returned (construct_blinded_hops_with_kem
    (forward_hops example_nodes ++ [(22 : PublicKey, Some [22; 1], padded (receive_tlvs example_receive))]) 3 example_kem_secrets.1) [].
Definition example_payinfo : BlindedPayInfo :=
  match compute_payinfo example_nodes [] example_receive 2000000 18 with Ok info => info | Err _ => mkBlindedPayInfo 0 0 0 0 0 features_empty end.
Definition example_pq_path (padding : bytes) : BlindedPaymentPath :=
  mkBlindedPaymentPath (21 : PublicKey) (3 : PublicKey) example_hops example_payinfo (Some (mjoin example_kem_secrets.2 ++ padding)).

Lemma example_encapsulated : encapsulate_all [example_ek 21; example_ek 22] example_entropy 1 = Some example_kem_secrets /\
  cts_for [example_node 21; example_node 22] (map Some example_kem_secrets.1) example_kem_secrets.2.
Proof.
  destruct (encapsulate_all_cts example_entropy [example_node 21; example_node 22] [example_ek 21; example_ek 22] 1)
    as (secrets & cts & E & Hcts & _); [repeat constructor; apply example_kem_pair|].
  unfold example_kem_secrets. by rewrite E.
Qed.

Lemma example_hops_made : construct_blinded_hops_with_kem
    (forward_hops example_nodes ++ [(22 : PublicKey, Some [22; 1], padded (receive_tlvs example_receive))]) 3 example_kem_secrets.1 =
  Return example_hops.
Proof.
  unfold example_hops. set (path := forward_hops example_nodes ++ _).
  assert (path_of ([21; 22] : list (@SecretKey toy_bitcoin)) path) as Hpath by (by repeat constructor).
  destruct (construct_blinded_hops_with_kem_chain _ _ Hpath 3 example_kem_secrets.1) as (hops & E & _); [vm_compute; reflexivity|].
  by rewrite E.
Qed.

Lemma example_pq_made : exists padding, (PQ_KEM_CT_LEN < length padding)%nat /\
  made_path (example_pq_path padding) example_nodes [example_node 21] (example_node 22) [] example_receive.
Proof.
  destruct (ct_padding_length example_entropy 8 3) as (padding & Hp & Hl). exists padding.
  split; [rewrite Hl; unfold PQ_KEM_CT_LEN; lia|]. split; [reflexivity|]. right. split; [reflexivity|].
  exists [example_ek 21], (example_ek 22), 2000000, 18, example_entropy.
  split; [repeat constructor; apply example_kem_pair|]. split; [apply example_kem_pair|].
  change (node_key (example_node 22)) with (22 : PublicKey). change (receive_auth_key (example_node 22)) with [22; 1].
  rewrite (new_pq_built example_nodes [example_ek 21] 22 (example_ek 22) [22; 1] example_receive 2000000 18 example_entropy 3 example_payinfo
             example_kem_secrets.1 example_kem_secrets.2 example_hops padding);
    [reflexivity|reflexivity| |reflexivity| | |exact example_hops_made|exact Hp].
  - unfold PQ_BLINDED_PATH_MAX_HOPS. cbn. lia.
  - vm_compute. reflexivity.
  - cbn [app]. rewrite (proj1 example_encapsulated). by destruct example_kem_secrets.
Qed.

Lemma example_hops_short : exists hop1 hop2, example_hops = [hop1; hop2] /\
  short_bytes (encrypted_payload hop1) /\ short_bytes (encrypted_payload hop2).
Proof.
  assert ((length example_hops =? 2)%nat && forallb (fun hop => Z.of_nat (length (encrypted_payload hop)) <? 1000) example_hops = true)
    as H by (vm_compute; reflexivity).
  revert H. generalize example_hops. intros [|hop1 [|hop2 [|]]] H; try done. exists hop1, hop2. cbn in H.
  unfold short_bytes, fits. rewrite !andb_true_iff, !Z.ltb_lt in H. split; [done|]. lia.
Qed.

Lemma example_pq_secrets padding : (PQ_KEM_CT_LEN < length padding)%nat ->
  path_kem_secrets (kem_ct (example_pq_path padding)) [example_node 21; example_node 22] = map Some example_kem_secrets.1.
Proof.
  intros Hl. symmetry. apply cts_ahead_secrets; [vm_compute; reflexivity|]. exists example_kem_secrets.2, padding.
  split; [reflexivity|]. split; [rewrite length_app; lia|exact (proj2 example_encapsulated)].
Qed.

Definition example_blinded_recipient : RecipientOnionFields := mkRecipientOnionFields None None [] 1000000.
Definition example_intro_hop : RouteHop := mkRouteHop (21 : PublicKey) 102 1100 224.

Lemma example_blinded_route padding : (PQ_KEM_CT_LEN < length padding)%nat ->
  made_path (example_pq_path padding) example_nodes [example_node 21] (example_node 22) [] example_receive ->
  blinded_route true example_kem_key [delivery_hop 11 101 5000] example_intro_hop [example_node 11] (example_pq_path padding)
    example_nodes [example_node 21] (example_node 22) [] example_receive example_blinded_recipient 800000 None None 1000000 80.
Proof.
  intros Hl Hmade. split.
  - exact Hmade.
  - reflexivity.
  - repeat constructor; intros ek [= <-]; apply example_kem_pair.
  - apply Nat.leb_le. reflexivity.
  - left. discriminate.
  - unfold payable. split; [|unfold hop_ok; cbn; lia].
    repeat apply Forall_cons_2; try apply Forall_nil_2; unfold forwarding_hop_ok, MIN_CLTV_EXPIRY_DELTA; cbn; lia.
  - reflexivity.
  - repeat constructor; cbn; unfold MIN_CLTV_EXPIRY_DELTA, relay_wf, constraints_wf, fits; cbn; try lia; vm_compute; try done.
  - constructor.
  - split; [|apply Nat.leb_le; vm_compute; reflexivity]. 
    destruct example_hops_short as (hop1 & hop2 & E & H1 & H2). unfold blinded_route_payloads.
    change (path_blinded_hops (example_pq_path padding)) with example_hops. rewrite E.
    cbn [tail_payloads blinded_payloads new_blinded_forward new_blinded_receive outbound_onion_payload forwards map app].
    repeat apply Forall_cons_2; try apply Forall_nil_2; [example_wf|exact H1|]. split_and!; try done; example_wf.
  - change (all_nodes _ _ _) with [example_node 21; example_node 22]. rewrite example_pq_secrets by done.
    split; [intros ? [=]|]. intros next Hnext. vm_compute in Hnext. injection Hnext as <-.
    split; [|intros ? _; exact I]. intros key [= <-]. unfold tags_differ. vm_compute. discriminate.
Qed.

Lemma blinded_payment_delivered_witness : exists padding packet trail kss ss,
  payment_onion true example_kem_key (blinded_path [delivery_hop 11 101 5000] example_intro_hop (example_pq_path padding) 1000000 80) 7
    example_blinded_recipient 800000 [5] None None [1] [2] [3] =
    Return (Ok (packet, 1006100, 800304, trail, kss, kem_ct (example_pq_path padding))) /\
  deliver 0 799990 (map example_node [11; 21; 22])
    (mkUpdateAdd 0 1006100 [5] 800304 packet (mkExtras None None None false trail (kem_ct (example_pq_path padding)))) =
    Return (Ok ([(102, 1001100, 800224); (201, 1000000, 800080)],
      mkPendingHTLCInfo (RoutingReceive (mkFinalOnionHopData (replicate 32 9) 1000000) None (Some tt) 800080 None None [] true) ss
        [5] (Some 1000000) 1000000 800080 None false)).
Proof.
  destruct example_pq_made as (padding & Hl & Hmade). exists padding.
  refine (blinded_payment_delivered true example_kem_key [delivery_hop 11 101 5000] example_intro_hop [example_node 11]
            (example_pq_path padding) example_nodes [example_node 21] (example_node 22) [] example_receive example_blinded_recipient 800000
            None None 1000000 80 [5] 7 [1] [2] [3] 799990 0 0 false [(201, 1000000, 800080)] 1000000 800080 1000000 800080
            (example_blinded_route padding Hl Hmade) _ _ _ _ _).
  - reflexivity.
  - reflexivity.
  - apply Nat.le_refl.
  - unfold receivable. split_and!; cbn; unfold MAX_VALUE_MSAT, constraints_wf, fits; cbn; try lia; try done.
  - unfold timely, CLTV_FAR_FAR_AWAY, HTLC_FAIL_BACK_BUFFER, CLTV_CLAIM_BUFFER, MAX_BLOCKS_FOR_CONF, LATENCY_GRACE_PERIOD_BLOCKS. cbn. lia.
Defined.

(** Without the keys of the route the sender falls back to a classical onion, and the
    list of the post-quantum path stays behind: the introduction node cannot open its
    data and refuses the payment. *)
Definition is_refused (d : Delivered) : bool := match d with Return (Err _) => true | _ => false end.
Definition example_fallback (padding : bytes) : run (result APIError PaymentOnion) :=
  payment_onion false (fun _ => None) (blinded_path [delivery_hop 11 101 5000] example_intro_hop (example_pq_path padding) 1000000 80) 7
    example_blinded_recipient 800000 [5] None None [1] [2] [3].
Theorem classical_fallback_refused : forall padding,
  match example_fallback padding with
  | Return (Ok (packet, amt, cltv, trail, _, ct)) =>
      ct = None /\
      is_refused (deliver 0 799990 (map example_node [11; 21; 22])
        (mkUpdateAdd 0 amt [5] cltv packet (mkExtras None None None false trail ct))) = true
  | _ => False
  end.
Proof. intros padding. vm_compute. by split. Qed.
