(* ===== verification/ClaimableExample.v ===== *)
(** * Payments received at a concrete node

    An invoice of 1,000,000 msat, paid with two HTLCs: the theorems of the receiving side
    at these values.  Then what the node does with a part that declares no total, and
    with the claim of a payment that is not complete. *)

From Stdlib Require Import ZArith Lia Bool.
From stdpp Require Import strings gmap.
From S2P Require Import Prelude.
From S2P Require Import Keys.
From S2P Require Import Order.
From S2P Require Import Scripts.
From S2P Require Import Ser.
From S2P Require Import Onion.
From S2P Require Import PqKem.
From S2P Require Import Streams.
From S2P Require Import BlindedPath.
From S2P Require Import BlindedFees.
From S2P Require Import OnionPayload.
From S2P Require Import OnionRoute.
From S2P Require Import OnionFailure.
From S2P Require Import OnionReceive.
From S2P Require Import InboundPayment.
From S2P Require Import Claimable.
From S2P Require Import ClaimableRuns.
From S2P Require Import ClaimableAccounts.
From S2P Require Import InvoiceClaim.
From S2P Require Import OnionExample.
From S2P Require Import DeliveryExample.

Local Open Scope Z_scope.

#[export] Instance toy_cipher : BlockCipher := fun k nonce block i => (foldl Z.add 0 k + foldl Z.add 0 nonce + block + Z.of_nat i) mod 13.
#[export] Instance toy_offer_contexts : OfferContexts := {|
  Bolt12OfferContext := unit;
  Bolt12RefundContext := unit;
  Nonce := unit;
  as_offer_context _ := None;
  as_refund_context _ := None;
  as_async_context _ := None;
  verify_invoice_request _ _ _ := None;
|}.
#[export] Instance toy_hash_iter : HashIter := {| hash_entries V := map_to_list |}.
#[export] Instance toy_hash_iter_laws : HashIterLaws.
Proof. split. done. Qed.

Definition example_keys : ExpandedKey := expanded_key_new (replicate 32 5).
Definition example_receiver : Node :=
  mkNode 1000 5000 example_keys (replicate 32 6) (77 : @PublicKey toy_bitcoin) None (keys_manager_signer (example_node 77)) 1000 100 40.
Definition example_entropy : bytes := replicate 32 7.

(** The hash, secret and metadata of the invoice. *)
Definition example_invoice : bytes * bytes * option bytes :=
  match payment_create example_keys (Some 1000000) 3600 example_entropy 4000 (Some 80) (Some [1; 2; 3]) with
  | Ok x => x
  | Err _ => ([], [], None)
  end.
Definition example_hash : bytes := Eval vm_compute in example_invoice.1.1.
Definition example_secret : bytes := Eval vm_compute in example_invoice.1.2.
Definition example_metadata : option bytes := Eval vm_compute in example_invoice.2.

Definition example_htlc (id value total : Z) : PendingAddHTLCInfo :=
  mkPendingAdd
    (mkPendingHTLCInfo (RoutingReceive (mkFinalOnionHopData example_secret total) example_metadata None 1200 None None [] false)
       (replicate 32 id) example_hash (Some value) value 1200 None false)
    0 id (11 : @PublicKey toy_bitcoin) [id] (mkOutPoint [id] 0) 3.

Lemma example_created :
  payment_create example_keys (Some 1000000) 3600 example_entropy 4000 (Some 80) (Some [1; 2; 3]) = Ok (example_hash, example_secret, example_metadata).
Proof. vm_compute. reflexivity. Qed.
Lemma example_inputs : payment_inputs_ok (Some 1000000) 3600 4000 (Some 80).
Proof. unfold payment_inputs_ok. cbn. split_and!; try lia. intros d [= <-]. lia. Qed.

Lemma created_payments_verify_witness :
  exists preimage, sha256 preimage = example_hash /\
    payment_verify example_hash (mkFinalOnionHopData example_secret 1000000) example_metadata 7600 example_keys
      = Ok (Some preimage, Some 80, Some [1; 2; 3]) /\
    payment_verify example_hash (mkFinalOnionHopData example_secret 999999) example_metadata 7600 example_keys = Err tt.
Proof.
  destruct (created_payments_verify example_keys (Some 1000000) 3600 4000 (Some 80) example_entropy (Some [1; 2; 3])) as [H _];
    [exact example_inputs|apply Nat.leb_le; vm_compute; reflexivity|].
  destruct (H _ _ _ example_created) as (preimage & Hpre & _ & Hver).
  exists preimage. split; [exact Hpre|]. split; rewrite Hver; reflexivity.
Defined.

(** ** The two parts *)

Definition example_parts : list PendingAddHTLCInfo := [example_htlc 1 600000 1000000; example_htlc 2 400000 1000000].

Lemma invoice_paid_and_claimed_witness :
  exists preimage st' effects, sha256 preimage = example_hash /\
    (exists events, run_ops (map (OpReceive example_receiver) example_parts) no_payments = Return (st', events, []) /\ length events = 1%nat) /\
    (exists st'', claim_payment_internal example_receiver preimage false st' = Return (st'', effects)) /\ length effects = 2%nat.
Proof.
  destruct (invoice_paid_and_claimed example_receiver (Some 1000000) 3600 4000 (Some 80) example_entropy (Some [1; 2; 3])
              example_hash example_secret example_metadata 1000000 example_parts no_payments)
    as (preimage & st' & sk & ch & dl & id & Hpre & Hrun & st'' & effects & cp & Hclaim & Heff & _).
  - exact example_inputs.
  - apply Nat.leb_le. vm_compute. reflexivity.
  - exact example_created.
  - cbn. lia.
  - cbn. unfold MAX_VALUE_MSAT. lia.
  - apply lookup_empty.
  - apply lookup_empty.
  - discriminate.
  - repeat constructor; (exists 1200; split; [reflexivity|intros d [= <-]; vm_compute; discriminate]).
  - reflexivity.
  - reflexivity.
  - exists preimage, st', effects. split; [exact Hpre|]. split; [eexists; split; [exact Hrun|reflexivity]|].
    split; [by exists st''|]. rewrite Heff. reflexivity.
Defined.

(** The run of the two parts, and the claim. *)
Definition after (op : Op) (x : Receiver * list (Op * list Effect)) : Receiver * list (Op * list Effect) :=
  match apply_op op x.1 with
  | Return (st, effects) => (st, x.2 ++ [(op, effects)])
  | Panic => x
  end.
Definition example_first : Op := OpReceive example_receiver (example_htlc 1 600000 1000000).
Definition example_second : Op := OpReceive example_receiver (example_htlc 2 400000 1000000).
Definition after_one : Receiver * list (Op * list Effect) := after example_first (no_payments, []).
Definition after_two : Receiver * list (Op * list Effect) := after example_second after_one.

Definition panics {A} (r : run A) : bool := match r with Return _ => false | Panic => true end.
Lemma reached_after op x : reached x.1 x.2 -> op_ok op x.1 -> panics (apply_op op x.1) = false -> reached (after op x).1 (after op x).2.
Proof.
  intros Hr Hok Hp. unfold after. destruct (apply_op op x.1) as [[st effects]|] eqn:Hop; [|done]. cbn [fst snd].
  by eapply reached_step.
Qed.

Lemma example_reached : reached after_two.1 after_two.2.
Proof.
  apply reached_after; [apply reached_after; [apply reached_start| |vm_compute; reflexivity]| |vm_compute; reflexivity].
  - split_and!; [reflexivity|vm_compute; reflexivity|cbn; lia|cbn; unfold MAX_VALUE_MSAT; lia].
  - split_and!; [reflexivity|vm_compute; reflexivity|cbn; lia|cbn; unfold MAX_VALUE_MSAT; lia].
Qed.

Definition example_preimage : bytes :=
  match get_payment_preimage example_hash example_secret example_metadata example_keys with Ok (p, _) => p | Err _ => [] end.

(** The HTLCs that an operation claims. *)
Definition claims (r : run (Receiver * list Effect)) : list (bytes * Z) :=
  match r with
  | Return (_, effects) => omap (fun e => match e with ClaimHTLC prev _ _ _ _ => Some (htlc_key prev) | _ => None end) effects
  | Panic => []
  end.
Lemma claims_some r key : key ∈ claims r -> exists st effects prev pre parts cp att,
  r = Return (st, effects) /\ ClaimHTLC prev pre parts cp att ∈ effects.
Proof.
  destruct r as [[st effects]|]; cbn [claims]; [|by intros ?%not_elem_of_nil]. intros ([] & Hin & Hsome)%list_elem_of_omap; try done.
  by do 7 eexists.
Qed.

Lemma example_claims : claims (claim_payment_internal example_receiver example_preimage false after_two.1) = [([1], 1); ([2], 2)].
Proof. vm_compute. reflexivity. Qed.
Lemma example_claimed : exists st effects prev pre parts cp att,
  claim_payment_internal example_receiver example_preimage false after_two.1 = Return (st, effects) /\
  ClaimHTLC prev pre parts cp att ∈ effects.
Proof. apply (claims_some (claim_payment_internal example_receiver example_preimage false after_two.1) ([1], 1)). rewrite example_claims. constructor. Qed.

Lemma claimed_payment_whole_witness :
  exists payment, claimable_payments after_two.1 !! sha256 example_preimage = Some payment /\
    total_mpp_amount_msat (payment_onion_fields payment) <= zsum (map part_intended (payment_htlcs payment)).
Proof.
  destruct example_claimed as (st' & effects & prev & pre & parts & cp & att & Hclaim & Hin).
  destruct (claimed_payment_whole after_two.1 after_two.2 example_receiver example_preimage false st' effects prev pre parts cp att
              example_reached Hclaim Hin) as (payment & Hp & _ & _ & Hmpp & _).
  exists payment. split; [exact Hp|exact Hmpp].
Defined.

(** Two parts, with a tick between, a claim and a block. *)
Definition example_ops : list Op :=
  [example_first; OpTick; example_second; OpClaim example_receiver example_preimage false; OpHeight 1190].
Lemma example_runs : panics (run_ops example_ops no_payments) = false.
Proof. vm_compute. reflexivity. Qed.
Lemma example_ran : exists st effects lost, run_ops example_ops no_payments = Return (st, effects, lost).
Proof. pose proof example_runs as Hp. destruct (run_ops example_ops no_payments) as [[[st effects] lost]|]; [by do 3 eexists|done]. Qed.


(** ** Cases the code does not expect *)

(** The first part of a payment, with a declared total of zero: it is refused, and a payment
    without parts stays behind. *)
Lemma zero_total_leaves_empty_payment node pp new h rcv st fields :
  claimable_payments st !! h = None -> pending_claiming_payments st !! h = None ->
  total_mpp_amount_msat fields = 0 ->
  let '(st', events, res) := handle_claimable_htlc node pp new fields h rcv st in
  events = [] /\ res = Err tt /\ exists p, claimable_payments st' !! h = Some p /\ payment_htlcs p = [].
Proof.
  intros Hno Hno' Hzero. unfold handle_claimable_htlc. rewrite Hno, Hno'. cbn [is_some default from_option id purpose payment_htlcs payment_onion_fields].
  rewrite bool_decide_true by done. cbn [negb]. unfold check_incoming_mpp_part, check_merge. rewrite !bool_decide_true by done.
  rewrite Z.eqb_refl. cbn [negb map intended_total total_mpp_amount_msat]. rewrite Hzero.
  rewrite Z.sub_diag. destruct (_ <=? _); (split_and!; [done..|]; eexists; split; [apply lookup_insert_eq|done]).
Qed.

(** The claim of a payment of which one part is still missing: the part that is there is neither
    claimed nor failed, and the node forgets it. *)
Definition early_claim : list Op := [example_first; OpClaim example_receiver example_preimage false].
Lemma early_claim_abandons :
  match run_ops early_claim no_payments with
  | Return (st, effects, lost) => (bool_decide (held st = []), bool_decide (effects ≫= settled = []), lost) = (true, true, [([1], 1)])
  | Panic => False
  end.
Proof. vm_compute. reflexivity. Qed.

(** A complete payment that waits for the user: its parts count the ticks, until the counter
    starts again. *)
Definition ticks_of (st : Receiver) : list Z :=
  match claimable_payments st !! example_hash with
  | Some p => map (fun h => timer_ticks (mpp_part h)) (payment_htlcs p)
  | None => []
  end.
Lemma complete_payment_ticks_wrap :
  ticks_of (Nat.iter 255 (fun st => (timer_tick_occurred st).1) after_two.1) = [255; 255] /\
  ticks_of (Nat.iter 256 (fun st => (timer_tick_occurred st).1) after_two.1) = [0; 0].
Proof. split; vm_compute; reflexivity. Qed.
