(* ===== verification/GossipExample.v ===== *)
(** * Gossip at concrete inputs

    A toy ML-DSA that satisfies the laws assumed of it, two nodes and their channels, and the theorems
    on gossip there; and how the announcement of a channel takes the pins of a node. *)

From Stdlib Require Import ZArith Lia Bool.
From stdpp Require Import strings gmap.
From S2P Require Import Prelude.
From S2P Require Import Features.
From S2P Require Import Keys.
From S2P Require Import Order.
From S2P Require Import Scripts.
From S2P Require Import Channel.
From S2P Require Import Ser.
From S2P Require Import Onion.
From S2P Require Import OnionPayload.
From S2P Require Import PqSign.
From S2P Require Import Gossip.
From S2P Require Import GossipGraph.
From S2P Require Import PqKem.
From S2P Require Import Signer.
From S2P Require Import GossipStale.
From S2P Require Import GossipRuns.
From S2P Require Import GossipSigned.

Local Open Scope Z_scope.

(** ** Toy signatures *)

(** The toy curve of [Keys] with a hash that is quick on long messages. *)
#[local] Instance quick_bitcoin : Bitcoin := {|
  SecretKey := Z;
  PublicKey := Z;
  Scalar := Z;
  PublicKey_eq := Z.eq_dec;
  from_secret_key s := s;
  serialize k := replicate 32 0 ++ [k];
  secret_from_slice l := Some (nth 0 l 0);
  secret_bytes k := [k];
  scalar_from_be_bytes l := Some (nth 0 l 0);
  secret_add_tweak s t := Some (s + t);
  secret_mul_tweak s t := Some (s * t);
  public_combine a b := Some (a + b);
  public_mul_tweak a t := Some (a * t);
  sha256 l := replicate 32 ((nth 0 l 0 + nth 40 l 0) mod 256);
  ripemd160 l := replicate 20 0;
  hash160 l := replicate 20 0;
|}.
#[local] Instance quick_onion_crypto : OnionCrypto (H := quick_bitcoin) := {|
  chacha20 k i := 0;
  hmac_sha256 k m := replicate 31 0 ++ [1];
  shared_secret P s := replicate 32 (P * s mod 256);
  public_from_slice l := Some (nth 32 l 0);
|}.
#[local] Instance quick_onion_laws : OnionCryptoLaws.
Proof.
  split; intros; cbn -[replicate Z.pow]; try done.
  - by repeat constructor.
  - by rewrite Z.mul_comm.
Qed.
#[local] Instance quick_scripts : ScriptLib (H := quick_bitcoin) := {|
  Signature := Z;
  into_script _ := [];
  to_p2wsh l := l;
  new_p2wpkh l := l;
  signature_bytes s _ := [s];
|}.
#[local] Instance quick_ecdsa : EcdsaLib (H0 := quick_scripts) := {|
  p2wsh_signature_hash _ _ _ _ _ := None;
  sign msg k := k + zsum msg;
  verify_ecdsa msg sig pk := sig =? pk + zsum msg;
|}.
#[local] Instance quick_nonces : NonceLib (H1 := quick_ecdsa) := {| sign_ecdsa_with_noncedata msg k _ := k + zsum msg |}.
#[local] Instance quick_ecdsa_laws : EcdsaLaws (H2 := quick_nonces).
Proof. split; intros; apply Z.eqb_refl. Qed.

#[local] Instance toy_mldsa : MlDsa := {|
  MlDsaPrivate := Z;
  MlDsaPublic := Z;
  mldsa_keygen_from_seed seed := (nth 0 seed 0, nth 0 seed 0);
  mldsa_into_bytes pk := pk :: replicate 1311 0;
  mldsa_try_from_bytes l := Some (nth 0 l 0);
  mldsa_try_sign_with_seed sk _ msg ctx := if (length ctx <=? 255)%nat then Some ((sk + nth 40 msg 0 + nth 1 ctx 0) :: replicate 2419 0) else None;
  mldsa_verify pk msg sig ctx := nth 0 sig 0 =? pk + nth 40 msg 0 + nth 1 ctx 0;
|}.
#[local] Instance toy_mldsa_laws : MlDsaLaws.
Proof.
  split.
  - intros pk. cbn [mldsa_into_bytes toy_mldsa length]. by rewrite length_replicate.
  - done.
  - intros sk seed msg ctx Hctx. unfold mldsa_try_sign_with_seed, toy_mldsa. rewrite (proj2 (Nat.leb_le _ _) Hctx). eexists. split; [done|].
    cbn [length]. by rewrite length_replicate.
  - intros seed sk pk rnd msg ctx sig. unfold mldsa_keygen_from_seed, mldsa_try_sign_with_seed, mldsa_verify, toy_mldsa.
    intros [= <- <-]. case_match; [|done]. intros [= <-]. apply Z.eqb_refl.
Qed.
#[local] Instance toy_set_iter : SetIter := {| set_entries := elements |}.
#[local] Instance toy_set_iter_laws : SetIterLaws.
Proof. by split. Qed.

(** Encapsulation keys of the length they have. *)
#[local] Instance long_kem : Kem := {|
  EncapsKey := bytes;
  DecapsKey := bytes;
  CipherText := bytes;
  keygen_from_seed d z := (take 32 d ++ replicate (1184 - length (take 32 d)) 0, d);
  ek_from_bytes := Some;
  dk_from_bytes := Some;
  ct_from_bytes := Some;
  encaps_from_seed k seed := (replicate 32 0, replicate 1088 0);
  try_decaps dk ct := Some (replicate 32 0);
|}.

(** ** Two nodes *)

Definition alice_keys : GossipKeys := gossip_keys_new (kem := long_kem) (5 : SecretKey) [50] [51].
Definition alice_id : bytes := own_node_id alice_keys.
Definition bob_id : bytes := serialize (7 : PublicKey).
Definition carol_id : bytes := serialize (9 : PublicKey).
Lemma alice_valid : keys_valid alice_keys.
Proof. split; [by exists 5, [50], [51]|]. vm_compute. reflexivity. Qed.

Definition no_announcement : NodeAnnouncement :=
  mkNodeAnnouncement (0 : Signature) (mkUnsignedNodeAnnouncement features_empty 0 [] [] [] [] [] []).
Definition alice_announcement (serial : Z) : NodeAnnouncement :=
  (returned (broadcast_node_announcement alice_keys features_empty serial [1; 2; 3] (replicate 32 0) [OnionV2 (replicate 12 0); TcpIpV4 [127; 0; 0; 1] 9735])
     (no_announcement, 0)).1.

(** Alice has channel 100 with Bob, and is pinned. *)
Definition pinning_calls : list GossipCall :=
  [ChannelAnnouncedPartial 100 None 1600000000 features_empty alice_id bob_id; NodeAnnounced (alice_announcement 1700000000) false].
Definition pinned_graph : NetworkGraph := returned (run_calls pinning_calls (network_graph_new [1])) (network_graph_new [1]).
Lemma pinned_graph_run : run_calls pinning_calls (network_graph_new [1]) = Return pinned_graph.
Proof. apply returned_eq. vm_compute. reflexivity. Qed.
Lemma pinned_graph_ok : graph_ok pinned_graph.
Proof. apply (run_calls_ok pinning_calls (network_graph_new [1])); [apply graph_ok_new|exact pinned_graph_run]. Qed.

(** Equal as the virtual machine computes them, without writing the value out. *)
Ltac by_vm := match goal with |- _ = ?b => vm_cast_no_check (eq_refl b) end.
Lemma some_default {A} (o : option A) d : is_some o = true -> o = Some (default d o).
Proof. by destruct o. Qed.
Definition no_node : NodeInfo := mkNodeInfo [] None None None 0.
Definition pinned_alice : NodeInfo := default no_node (nodes pinned_graph !! alice_id).
Lemma pinned_alice_known : nodes pinned_graph !! alice_id = Some pinned_alice.
Proof. apply some_default. vm_compute. reflexivity. Qed.
Lemma pinned_alice_key : pq_node_id pinned_alice = Some (own_pq_node_id alice_keys).
Proof. vm_compute. reflexivity. Qed.

(** ** The theorems *)

(** Her next announcement. *)
Definition next_call : GossipCall := NodeAnnounced (alice_announcement 1700000001) false.
Definition next_outcome : NetworkGraph * result GossipError unit := returned (apply_call next_call pinned_graph) (pinned_graph, Err SameTimestamp).
Lemma next_outcome_run : apply_call next_call pinned_graph = Return next_outcome.
Proof. apply returned_eq. vm_compute. reflexivity. Qed.
Lemma next_outcome_ok : is_ok next_outcome.2 = true.
Proof. vm_compute. reflexivity. Qed.
Lemma next_announcement_id : na_node_id (na_contents (alice_announcement 1700000001)) = alice_id.
Proof. vm_compute. reflexivity. Qed.
Lemma pinned_keys_hold_witness : (exists kem, signed_in pinning_calls alice_id (own_pq_node_id alice_keys) kem) /\
  exists kem, pq_signed_announcement (own_pq_node_id alice_keys) kem (na_contents (alice_announcement 1700000001)).
Proof.
  pose proof next_outcome_run as Hrun. rewrite (surjective_pairing next_outcome) in Hrun.
  destruct (pinned_keys_hold [1] pinning_calls pinned_graph next_call next_outcome.1 next_outcome.2 alice_id pinned_alice (own_pq_node_id alice_keys)
    pinned_graph_run Hrun pinned_alice_known pinned_alice_key) as (Hsigned & _ & Hann & _).
  destruct (Hann _ _ eq_refl next_announcement_id next_outcome_ok) as (kem & Hnext & _). split; [exact Hsigned|]. exists kem. exact Hnext.
Defined.

(** A graph that gets and loses channels and nodes. *)
Definition bob_carol (scid : Z) : UnsignedChannelAnnouncement := mkUnsignedChannelAnnouncement features_empty [1] scid bob_id carol_id [20] [21] [].
Definition busy_calls : list GossipCall :=
  pinning_calls ++ [ChannelAnnouncedUnsigned (bob_carol 101) true (Ok (Some 5000)) 1700000000; next_call;
    ChannelAnnouncedUnsigned (bob_carol 102) false (Ok None) 1700000000; ChannelFailed 101 (Some 1700000000);
    NodeFailed (9 : PublicKey) (Some 1700000000); StaleRemoved 1700000100].
Lemma announcement_readable serial : is_return (parse_records (na_excess_data (na_contents (alice_announcement serial)))) = true ->
  readable (NodeAnnounced (alice_announcement serial) false).
Proof. intros H. exists (returned (parse_records (na_excess_data (na_contents (alice_announcement serial)))) no_records). by apply returned_eq. Qed.
Lemma graph_stays_consistent_witness : exists g, run_calls busy_calls (network_graph_new [1]) = Return g /\ graph_ok g.
Proof.
  apply graph_stays_consistent. unfold busy_calls, pinning_calls. cbn [app]. repeat apply Forall_cons_2; try exact I; try apply Forall_nil_2;
    apply announcement_readable; vm_compute; reflexivity.
Defined.

Lemma stale_channels_removed_witness : exists g', remove_stale_channels_and_tracking_with_time 1700000000 pinned_graph = Return (forget_removed 1700000000 g') /\
  channels g' !! 100 = None.
Proof.
  assert (STALE_CHANNEL_UPDATE_AGE_LIMIT_SECS <= 1700000000 <= umax 32) as Hnow by (vm_compute; split; discriminate).
  destruct (stale_channels_removed 1700000000 pinned_graph Hnow pinned_graph_ok) as (g' & E & _ & _ & Hchans & _). exists g'. split; [exact E|].
  destruct (channels g' !! 100) as [chan|] eqn:Hc; [|reflexivity]. apply Hchans in Hc as [Hc Hs]. exfalso.
  assert (match channels (with_channels (fresh_channels (1700000000 - STALE_CHANNEL_UPDATE_AGE_LIMIT_SECS) pinned_graph) pinned_graph) !! 100 with
          | Some c => channel_stale (1700000000 - STALE_CHANNEL_UPDATE_AGE_LIMIT_SECS) c | None => true end = true) as Ht by (vm_compute; reflexivity).
  rewrite Hc, Hs in Ht. discriminate Ht.
Defined.

Definition crash_key : @SecretKey quick_bitcoin := 33.
Definition crash_contents : UnsignedNodeAnnouncement :=
  mkUnsignedNodeAnnouncement features_empty 1700000000 (serialize (from_secret_key crash_key)) [1; 2; 3] (replicate 32 0) [] [] (stream_bytes [(1, [7])] ++ overlong_record).
Lemma overlong_record_crashes_witness :
  handle_node_announcement (mkNodeAnnouncement (sign (message_sha256d_hash (node_announcement_write crash_contents)) crash_key) crash_contents)
    false pinned_graph = Panic.
Proof.
  apply (overlong_record_crashes crash_key crash_contents [(1, [7])] false pinned_graph); [reflexivity|reflexivity|repeat constructor; discriminate|reflexivity|].
  intros node info Hn. exfalso. assert (is_some (nodes pinned_graph !! na_node_id crash_contents) = false) as H by (vm_compute; reflexivity).
  rewrite Hn in H. discriminate H.
Defined.

(** Alice announces herself to a graph that knows her channel, and then its fees. *)
Definition known_graph : NetworkGraph :=
  returned (run_calls [ChannelAnnouncedPartial 100 (Some 1000000) 1600000000 features_empty alice_id bob_id] (network_graph_new [1])) (network_graph_new [1]).
Definition known_alice : NodeInfo := mkNodeInfo [100] None None None 0.
Definition known_channel : ChannelInfo := mkChannelInfo features_empty alice_id bob_id 0 1 (Some 1000000) None None None 1600000000.
Definition alice_terms : UpdateTerms := mkUpdateTerms (Some 100) None (7 : PublicKey) 1700000002 true true 40 1000 900000000 1000 100.
Lemma known_alice_known : nodes known_graph !! own_node_id alice_keys = Some known_alice.
Proof. by_vm. Qed.
Lemma known_update_due : update_due alice_keys alice_terms 100 known_channel 1700000100 known_graph.
Proof.
  split; [reflexivity|reflexivity|by_vm|vm_compute; reflexivity|discriminate|split; vm_compute; split; discriminate || reflexivity|vm_compute; discriminate|].
  intros capacity [= <-]. vm_compute. repeat split; discriminate.
Qed.
Lemma honest_gossip_accepted_witness : exists msg next g1 update a b g2,
  broadcast_node_announcement alice_keys features_empty 1700000001 [1; 2; 3] (replicate 32 0) [] = Return (msg, next) /\
  handle_node_announcement msg false known_graph = Return (g1, Ok true) /\
  get_channel_update_for_broadcast alice_keys (graph_chain_hash known_graph) alice_terms = Return (Ok (update, a, b)) /\
  handle_channel_update update false 1700000100 g1 = Return (g2, Ok (Some (alice_id, bob_id))).
Proof.
  destruct (honest_gossip_accepted alice_keys features_empty 1700000001 [1; 2; 3] (replicate 32 0) [] alice_terms 100 known_channel known_alice
    false false 1700000100 known_graph alice_valid ltac:(cbn; lia) known_alice_known ltac:(discriminate) ltac:(split; left; reflexivity) known_update_due)
    as (msg & next & g1 & node' & update & a & b & g2 & H1 & H2 & _ & _ & _ & H3 & H4 & _).
  exists msg, next, g1, update, a, b, g2. split; [exact H1|]. split; [exact H2|]. split; [exact H3|exact H4].
Defined.

(** The keys of her announcement are those that are signed. *)
Definition alice_records : PqRecords := returned (parse_records (na_excess_data (na_contents (alice_announcement 1700000000)))) no_records.
Definition alice_signed : list (Z * bytes) := [(PQ_PUBLIC_KEY_RECORD_TYPE, own_pq_node_id alice_keys); (PQ_KEM_KEY_RECORD_TYPE, own_pq_kem_node_id alice_keys)].
Definition alice_pq_sig : bytes := default [] (signature alice_records).
Lemma alice_verifies : verify_node_announcement (alice_announcement 1700000000) = Return (Ok tt).
Proof. vm_compute. reflexivity. Qed.
Lemma alice_records_parsed : parse_records (na_excess_data (na_contents (alice_announcement 1700000000))) = Return alice_records.
Proof. apply returned_eq. vm_compute. reflexivity. Qed.
Lemma alice_records_signature : signature alice_records = Some alice_pq_sig.
Proof. apply some_default. vm_compute. reflexivity. Qed.
Lemma alice_signed_excess : signed_excess (na_excess_data (na_contents (alice_announcement 1700000000))) alice_records = stream_bytes alice_signed.
Proof. vm_compute. reflexivity. Qed.
Lemma alice_signed_none : signature (note_all no_records alice_signed) = None.
Proof. vm_compute. reflexivity. Qed.
Lemma alice_excess_short : Z.of_nat (length (na_excess_data (na_contents (alice_announcement 1700000000)))) < 2 ^ 64.
Proof. vm_compute. reflexivity. Qed.

(** The channel of Alice and Bob is announced again: she is pinned no more. *)
Definition alice_bob : UnsignedChannelAnnouncement := mkUnsignedChannelAnnouncement features_empty [1] 100 alice_id bob_id (serialize (20 : PublicKey)) (serialize (21 : PublicKey)) [].
Definition reannouncement : ChannelAnnouncement :=
  let hash := message_sha256d_hash (channel_announcement_write alice_bob) in mkChannelAnnouncement (sign hash (5 : SecretKey)) (sign hash (7 : SecretKey)) (sign hash (20 : SecretKey)) (sign hash (21 : SecretKey)) alice_bob.
Definition pinned_channel : ChannelInfo := mkChannelInfo features_empty alice_id bob_id 0 1 None None None None 1600000000.
Lemma pinned_channel_known : channels pinned_graph !! 100 = Some pinned_channel.
Proof. by_vm. Qed.
Lemma pinned_alice_channels : node_channels pinned_alice = [100].
Proof. vm_compute. reflexivity. Qed.
Lemma reannouncement_unpins_witness : exists g' relay node',
  handle_channel_announcement reannouncement true (Ok (Some 1000000)) 1700000200 pinned_graph = Return (g', Ok relay) /\
  nodes g' !! alice_id = Some node' /\ pq_node_id node' = None /\ pq_kem_node_id node' = None.
Proof.
  apply (reannouncement_unpins [1] pinning_calls pinned_graph reannouncement 1000000 1700000200 pinned_channel alice_id pinned_alice (own_pq_node_id alice_keys) pinned_graph_run).
  - exact pinned_channel_known.
  - reflexivity.
  - left. reflexivity.
  - exact pinned_alice_known.
  - exact pinned_alice_key.
  - exact pinned_alice_channels.
  - vm_compute. reflexivity.
  - discriminate.
  - vm_compute. reflexivity.
  - vm_compute. reflexivity.
  - vm_compute. reflexivity.
  - vm_compute. reflexivity.
  - vm_compute. reflexivity.
Defined.
